(* ===== verification/_CoqProject ===== *)
-Q . S2P
Prelude.v
Errors.v
PyDict.v
PyState.v
PySort.v
Heapq.v
Condition.v
Locking.v
LockingInv.v
LockingProps.v
LockInfo.v
WorkerPool.v
WorkerPoolInv.v
WorkerPoolOps.v
WorkerPoolProps.v
PyStr.v
Text.v
TextProps.v
PyVal.v
Json.v
Serializer.v
Rpc.v
RpcProps.v
Paths.v
Ht.v
OpCodes.v
Base64.v
HttpAuth.v
Rapi.v
RapiResources.v
RapiProps.v
RapiClient.v
RapiClientProps.v
Algo.v
Params.v
ParamsProps.v
Disk.v
Mcpu.v
Retry.v
FileLock.v
Jstore.v
Query.v
QueryProps.v
Qlang.v
Confd.v
ConfdProps.v
Version.v
BusManager.v
UidPool.v
Network.v
Reservations.v
Config.v
ConfigInv.v
ConfigGroups.v
ConfigProps.v
ConfigLock.v
ConfigLockProps.v
ConfigVerify.v
ConfigVerifyProps.v
BlockDev.v
Storage.v
StorageProps.v
Policy.v
PolicyProps.v
ContainerMods.v
ContainerModsProps.v
Watcher.v
WatcherProps.v
DiskActivation.v
DiskActivationProps.v
Processor.v
ProcessorProps.v
ProcessorHeld.v
Job.v
JobQueue.v
JobInv.v
JobLaws.v
JobRun.v
JobProc.v
JobProps.v
