(* ===== verification/Prelude.v ===== *)
(** * Ganeti: a verification development of the Python code

    Ganeti manages clusters of virtual machines.  A client, often through the remote
    API, submits a job, a list of opcodes; the job queue runs each job in a process
    of its own, where the processor takes the locks of an opcode from the
    configuration daemon, runs its logical unit and gives the locks back.  Logical
    units read and change the configuration and call the nodes.  A watcher looks
    at the cluster from time to time and submits jobs of its own.  Worker pools,
    locks, address pools, reservations, queries and many utilities serve that
    core.  This library models the parts below as Rocq functions translated from
    the Python sources, and proves what makes them correct.

    ** Files and sources (all under src/lib)

    The language:
    - [Prelude]: results of code that may raise ([result], [let*]), the tactic
      [inv_result], lemmas on lists and orders.
    - [PyDict], [PyState], [PySort], [Heapq], [PyStr], [PyVal], [Json], [Base64]:
      what the code uses of the Python language and its standard library:
      dictionaries, methods that change an object, sorting, heaps, strings,
      objects of unknown type, JSON and base64.
    - [Errors]: errors.py, the exception classes and their encoding.

    Concurrency and jobs:
    - [Condition], [Locking]: locking.py, the pipe-based conditions and
      [SharedLock] as atomic steps on one state; [LockingInv] is the invariant,
      [LockingProps] the theorems, [LockInfo] the query methods.
    - [WorkerPool]: workerpool.py, as atomic steps; [WorkerPoolInv],
      [WorkerPoolOps], [WorkerPoolProps] are invariant, operations, theorems.
    - [Job], [JobQueue]: jqueue/__init__.py and jqueue/exec.py, jobs and the
      processor of jobs; [JobInv], [JobLaws], [JobRun], [JobProc], [JobProps]
      the invariant, the methods, the steps and the theorems.
    - [Mcpu], [Processor]: mcpu.py, the lock attempt time-outs and the class
      [Processor]; [ProcessorProps] and [ProcessorHeld] the theorems.

    Configuration and objects:
    - [Params], [Disk]: objects.py and utils/__init__.py, parameters with their
      defaults, policies, and disks; [ParamsProps].
    - [Config]: config/__init__.py, the operations of [ConfigWriter]; [ConfigInv],
      [ConfigGroups], [ConfigProps].  [ConfigLock]: config/utils.py and opening,
      closing and writing; [ConfigLockProps].  [ConfigVerify]: config/verify.py
      and the verification of the configuration; [ConfigVerifyProps].
    - [Network]: network.py and utils/bitarray_compat.py.  [Reservations]:
      config/temporary_reservations.py.  [UidPool]: uidpool.py.  [BusManager]:
      hypervisor/hv_kvm/bus_manager.py and its use in hv_kvm/__init__.py.
      [Jstore]: jstore.py.

    Communication:
    - [Serializer]: serializer.py and utils/hash.py.  [Rpc]: rpc/transport.py,
      rpc/client.py, rpc/errors.py; [RpcProps].  [Confd]: confd/; [ConfdProps].
    - [HttpAuth]: http/auth.py and the exceptions of http/__init__.py.  [Rapi]:
      rapi/baserlib.py, rapi/connector.py, http/server.py and server/rapi.py, the
      server of the remote API; [RapiResources]: rapi/rlib2.py; [RapiProps].  [RapiClient]: rapi/client.py; [RapiClientProps].

    Operations on instances and nodes:
    - [BlockDev]: the devices of a node in backend.py.  [Storage]: the creation of
      disks in cmdlib/instance_storage.py and the calls in rpc/node.py;
      [StorageProps].  [DiskActivation]: activating and shutting down disks in
      cmdlib/instance_storage.py; [DiskActivationProps].
    - [Policy]: instance policies in cmdlib/common.py; [PolicyProps].
      [ContainerMods]: changes of disks and NICs in cmdlib/instance_utils.py;
      [ContainerModsProps].
    - [Watcher]: watcher/__init__.py and watcher/state.py; [WatcherProps].

    Queries, types and utilities:
    - [Query], [QueryProps]: query.py; [Qlang]: qlang.py.
    - [Ht], [OpCodes]: ht.py, opcodes_base.py and outils.py.
    - [Text], [TextProps], [Algo], [Retry], [FileLock], [Version], [Paths]:
      utils/text.py, algo.py, retry.py, filelock.py, version.py, lvm.py, tags.py,
      the path functions of utils/io.py, and vcluster.py.

    ** How code is modelled

    A method is a function on the object's state that returns [result]: a value
    or the exception raised.  Where an exception leaves changes behind, the state
    is returned in both cases ([PyState], and [eff] of [BlockDev]).  Objects that
    are shared (queue entries, pipe ends) live in stores and are named by
    references.  Methods that block are cut where they let go of the internal
    lock; the state records the threads that wait, and a run is a sequence of
    atomic steps.  Clocks, random numbers, the operating system, daemons, other
    nodes and third-party packages are parameters, with what is relied on as the
    laws of a class or record, and an instance that satisfies them.  In
    [DiskActivation] and [Watcher] the calls are recorded, and what is answered is
    an arbitrary function of the calls so far.  Floating-point times are exact
    rationals, except in [PyVal], where
    floats are IEEE numbers.

    ** What is shown

    - Locks: the implementation refines a readers-writer lock; exclusion,
      priority order, no lost wake-up, time-outs, deletion, no internal error,
      no file descriptor left open.
    - Worker pools: refinement of an abstract pool, no lost wake-up, no internal
      error, the meaning of [Quiesce].
    - Jobs: the processor keeps jobs well formed and raises nothing itself, the
      number of deferrals is bounded, cancelling, priorities, statuses of
      finished jobs, log polling, the stored form.
    - Processor: whatever way an opcode ends its locks are released; its logical
      unit runs only with the locks it asked for.
    - Configuration: an invariant that every operation keeps, also when it raises;
      all updates of all processes are serialised and none is lost; verification
      reports nothing exactly when a declarative specification holds; groups, the
      candidate pool and loading.
    - Communication: messages arrive however a stream is cut, errors are raised
      again on the other side; signed messages are authentic, private values do
      not leak; the replies and the expiry of a confd request come in order.
    - Remote API: a request reaches a handler exactly when its user may use it;
      roles; each method of the client is served by the resource it is meant for
      with the parameters it was given.
    - Disks: their creation is undone when it fails, lost calls included; on
      activation the primary is promoted only after all nodes assembled the
      devices and the secondaries completed the handshake.
    - Policies and changes: violations are reported exactly; modifications of
      disks and NICs refine edits of a list.
    - Watcher: restarts of an instance are bounded; after a reboot exactly the
      disks concerned are activated.
    - Queries: the names and the kinds of data a query asks for suffice; what it
      returns.
    - Resources: addresses, reservations, bus slots and user-ids are given out
      exclusively, and found again where they are rebuilt.
    - Types, texts, paths, retries, files: round trips, exact acceptance,
      termination and error cases.

    The modules named [..Demo] hold concrete runs; some show what the code does
    where a comment or its intention says otherwise.

    ** Fuel

    Loops that are not structural take fuel.  [find_first_pending_queue] and
    [WaitForTaskUnlocked] pass the size of the heap, and it is proved that this
    is enough; reading JSON passes twice the length of the text, and every text
    that [DumpJson] writes is read.  [Retry] and what uses it return [None] when
    fuel runs out; [Retry_terminates] gives the number of calls that suffices, and
    waiting for replies of confd likewise.  [Generate] finds a fresh value if one
    comes within its fuel.  Waiting for another process without time-out may be
    endless: the theorems on [Processor] and [FileLock] then say what holds when
    the call returns, and polling a job from the client goes on while the job does.

    ** Not modelled

    The logical units other than the parts above, the configuration daemon's own
    operations, the devices of storage/ and the hypervisors, the command line,
    daemons, tools, bootstrap, certificates and sockets: their code is mostly
    calls to other processes and machines.  In query.py the tables of fields; in
    ht.py checks that only name a generated constant; in jqueue the replication
    to other nodes; in cmdlib/instance_storage.py generating, growing, wiping and
    replacing disks; in the watcher daemons, status files and child processes;
    message texts throughout. *)

From Stdlib Require Export ZArith Lia.
From stdpp Require Export base tactics decidable option list numbers strings pretty gmap sets.

#[export] Set Warnings "-clear-no-such-hyp,-register-all,-notation-for-abbreviation".

(** ** Results: Python code that may raise *)

Inductive result (E A : Type) : Type :=
| Ok (val : A)
| Raise (err : E).
Arguments Ok {E A} val.
Arguments Raise {E A} err.

(** Sequencing: the first exception raised ends the computation. *)
Definition rbind {E A B} (r : result E A) (f : A → result E B) : result E B :=
  match r with Ok a => f a | Raise e => Raise e end.

Definition rmap {E A B} (f : A → B) (r : result E A) : result E B :=
  match r with Ok a => Ok (f a) | Raise e => Raise e end.

Declare Scope py_scope.
Delimit Scope py_scope with py.
#[global] Open Scope py_scope.

Notation "'let*' x := c 'in' k" := (rbind c (λ x, k))
  (at level 10, x name, c at level 200, k at level 200,
   format "'[v' 'let*'  x  :=  c  'in' '/' k ']'") : py_scope.
Notation "'let*' ' p := c 'in' k" := (rbind c (λ x, match x with p => k end))
  (at level 10, p strict pattern, c at level 200, k at level 200) : py_scope.
Notation "'do*' c 'in' k" := (rbind c (λ _, k))
  (at level 10, c at level 200, k at level 200) : py_scope.

Definition is_Ok {E A} (r : result E A) : bool :=
  match r with Ok _ => true | Raise _ => false end.

(** [py_assert b e] is the Python statement [assert b]; [e] is the exception
    value raised when [b] does not hold. *)
Definition py_assert {E} (e : E) (b : bool) : result E unit :=
  if b then Ok tt else Raise e.

Lemma rbind_Ok {E A B} (r : result E A) (f : A → result E B) (b : B) :
  rbind r f = Ok b ↔ ∃ a, r = Ok a ∧ f a = Ok b.
Proof. destruct r; simpl; naive_solver. Qed.

Lemma rbind_Raise {E A B} (r : result E A) (f : A → result E B) e :
  rbind r f = Raise e ↔ r = Raise e ∨ ∃ a, r = Ok a ∧ f a = Raise e.
Proof. destruct r; simpl; naive_solver. Qed.

Lemma rmap_Ok {E A B} (r : result E A) (f : A → B) (b : B) :
  rmap f r = Ok b ↔ ∃ a, r = Ok a ∧ f a = b.
Proof. destruct r; simpl; naive_solver. Qed.

Lemma py_assert_Ok {E} (e : E) b u : py_assert e b = Ok u ↔ b = true.
Proof. destruct u, b; simpl; naive_solver. Qed.

(** [[f(x) for x in xs]] *)
Fixpoint rmapM {E A B} (f : A → result E B) (xs : list A) : result E (list B) :=
  match xs with
  | [] => Ok []
  | x :: xs => rbind (f x) (λ y, rmap (cons y) (rmapM f xs))
  end.

Lemma rmapM_Ok {E A B} (f : A → result E B) xs ys :
  rmapM f xs = Ok ys ↔ Forall2 (λ x y, f x = Ok y) xs ys.
Proof.
  revert ys. induction xs as [|x xs IH]; intros ys; simpl.
  - split; [intros [= <-]; constructor|by inversion 1].
  - rewrite rbind_Ok. split.
    + intros (y & Hy & (ys' & Hys & <-)%rmap_Ok). constructor; [done|]. by apply IH.
    + inversion 1; subst. eexists. split; [done|]. apply rmap_Ok. eexists. by rewrite IH.
Qed.

Lemma rmapM_elem_l {E A B} (f : A → result E B) xs ys x :
  rmapM f xs = Ok ys → x ∈ xs → ∃ y, y ∈ ys ∧ f x = Ok y.
Proof.
  intros H%rmapM_Ok (i & Hi)%list_elem_of_lookup.
  destruct (Forall2_lookup_l _ _ _ _ _ H Hi) as (y & Hy & Hf). exists y.
  split; [by eapply list_elem_of_lookup_2|done].
Qed.

Lemma rmapM_elem_r {E A B} (f : A → result E B) xs ys y :
  rmapM f xs = Ok ys → y ∈ ys → ∃ x, x ∈ xs ∧ f x = Ok y.
Proof.
  intros H%rmapM_Ok (i & Hi)%list_elem_of_lookup.
  destruct (Forall2_lookup_r _ _ _ _ _ H Hi) as (x & Hx & Hf). exists x.
  split; [by eapply list_elem_of_lookup_2|done].
Qed.

(** [[f(x) for x in xs]] returns when every [f(x)] does. *)
Lemma rmapM_returns {E A B} (f : A → result E B) xs :
  (∃ ys, rmapM f xs = Ok ys) ↔ Forall (λ x, ∃ y, f x = Ok y) xs.
Proof.
  induction xs as [|x xs IH]; simpl; [split; [done|eauto]|]. rewrite Forall_cons, <-IH.
  destruct (f x) as [y|]; simpl; [|naive_solver].
  destruct (rmapM f xs) as [ys|]; simpl; naive_solver.
Qed.

(** [all(f(x) for x in xs)] and [any(f(x) for x in xs)] stop at the first
    element that decides, and at the first exception. *)
Fixpoint rall {E A} (f : A → result E bool) (xs : list A) : result E bool :=
  match xs with
  | [] => Ok true
  | x :: xs => rbind (f x) (λ b, if b then rall f xs else Ok false)
  end.

Fixpoint rany {E A} (f : A → result E bool) (xs : list A) : result E bool :=
  match xs with
  | [] => Ok false
  | x :: xs => rbind (f x) (λ b, if b then Ok true else rany f xs)
  end.

Lemma rall_true {E A} (f : A → result E bool) xs :
  rall f xs = Ok true ↔ Forall (λ x, f x = Ok true) xs.
Proof.
  induction xs as [|x xs IH]; simpl; [by split|].
  rewrite Forall_cons, <-IH. destruct (f x) as [[]|]; simpl; naive_solver.
Qed.

Lemma rall_total {E A} (f : A → result E bool) (g : A → bool) xs :
  Forall (λ x, f x = Ok (g x)) xs → rall f xs = Ok (forallb g xs).
Proof. induction 1 as [|x xs Hx Hxs IH]; simpl; [done|]. rewrite Hx. simpl. by destruct (g x). Qed.

Lemma rany_total {E A} (f : A → result E bool) (g : A → bool) xs :
  Forall (λ x, f x = Ok (g x)) xs → rany f xs = Ok (existsb g xs).
Proof. induction 1 as [|x xs Hx Hxs IH]; simpl; [done|]. rewrite Hx. simpl. by destruct (g x). Qed.

(** [any] is true from an element on that is, the ones before being false. *)
Lemma rany_true {E A} (f : A → result E bool) xs :
  rany f xs = Ok true ↔
  ∃ pre x post, xs = pre ++ x :: post ∧ Forall (λ y, f y = Ok false) pre ∧ f x = Ok true.
Proof.
  induction xs as [|x xs IH]; simpl.
  - split; [done|]. intros ([|] & y & post & ? & _); simplify_eq.
  - destruct (f x) as [[]|e] eqn:E1; simpl.
    + split; [|done]. intros _. by exists [], x, xs.
    + rewrite IH. split.
      * intros (pre & y & post & -> & Hpre & Hy). exists (x :: pre), y, post. auto.
      * intros ([|z pre] & y & post & ? & Hpre & Hy); simplify_eq/=; [congruence|].
        apply Forall_cons in Hpre as [_ Hpre]. eauto 10.
    + split; [done|]. intros ([|z pre] & y & post & ? & Hpre & Hy); simplify_eq/=; [congruence|].
      apply Forall_cons in Hpre as [? _]. congruence.
Qed.

(** ** Lists *)

(** [list.remove(x)] for an element of the list: the first occurrence goes. *)
Fixpoint remove1 {A} `{EqDecision A} (x : A) (xs : list A) : list A :=
  match xs with
  | [] => []
  | y :: xs => if decide (y = x) then xs else y :: remove1 x xs
  end.

Lemma remove1_perm {A} `{EqDecision A} (x : A) (xs : list A) :
  x ∈ xs → xs ≡ₚ x :: remove1 x xs.
Proof.
  induction xs as [|y xs IH]; simpl; [set_solver|]. intros Hx.
  case_decide; [by subst|]. rewrite IH at 1 by set_solver. apply Permutation_swap.
Qed.

(** Filters that keep everything or nothing. *)
Lemma list_filter_all {A} (P : A → Prop) `{∀ x, Decision (P x)} (l : list A) :
  Forall P l → filter P l = l.
Proof. induction 1 as [|x l Hx _ IH]; [done|]. by rewrite filter_cons_True, IH. Qed.

Lemma list_filter_none {A} (P : A → Prop) `{∀ x, Decision (P x)} (l : list A) :
  Forall (λ x, ¬ P x) l → filter P l = [].
Proof. induction 1 as [|x l Hx _ IH]; [done|]. by rewrite filter_cons_False. Qed.

Lemma filter_fmap_iff {A B} (f : A → B) (P : B → Prop) (Q : A → Prop)
    `{∀ x, Decision (P x)} `{∀ x, Decision (Q x)} (l : list A) :
  (∀ x, P (f x) ↔ Q x) → filter P (f <$> l) = f <$> filter Q l.
Proof.
  intros HPQ. induction l as [|x l IH]; csimpl; [done|].
  rewrite !filter_cons. specialize (HPQ x). repeat case_decide; csimpl; rewrite IH; tauto.
Qed.

(** ** Orders *)

(** A boolean strict weak order: the complement is a total preorder. *)
Class StrictWeakOrder {A} (lt : A → A → bool) : Prop := {
  lt_asym : ∀ a b, lt a b = true → lt b a = false;
  ge_trans : ∀ a b c, lt b a = false → lt c b = false → lt c a = false
}.

(** ** Stepping through results *)

(** Turns what is known about a successful computation into facts about its
    parts. *)
Ltac inv_result :=
  repeat match goal with
  | H : rbind _ _ = Ok _ |- _ => apply rbind_Ok in H as (? & ? & ?)
  | H : rmap _ _ = Ok _ |- _ => apply rmap_Ok in H as (? & ? & ?)
  | H : py_assert _ _ = Ok _ |- _ => apply py_assert_Ok in H
  | H : Ok _ = Ok _ |- _ => injection H as H
  | H : Raise _ = Ok _ |- _ => discriminate H
  | H : Ok _ = Raise _ |- _ => discriminate H
  end; simplify_eq.
