(* ===== verification/Errors.v ===== *)
(** * Exceptions and their wire encoding (src/lib/errors.py)

    Python values as they travel in job results ([pyval]), the class
    hierarchy of [errors.py] ([error_class], [base_class]), exception values
    ([exn]) and the encoding of an exception as a (name, arguments) pair that
    a client decodes and raises again ([EncodeException], [GetEncodedError],
    [MaybeRaise]).  The theorems state for which exceptions the round trip is
    the identity. *)

From Stdlib Require Import Ascii.
From S2P Require Import Prelude.

(** ** Python values *)

(** Values of the kinds that occur in opcode results and exception
    arguments. *)
Inductive pyval : Type :=
| VNone
| VBool (b : bool)
| VInt (z : Z)
| VStr (s : string)
| VList (l : list pyval)
| VTuple (l : list pyval)
| VDict (d : list (string * pyval)).

(** Python's [hash()] accepts immutable values only; a tuple is hashable when
    its elements are. *)
Fixpoint hashable (v : pyval) : bool :=
  match v with
  | VNone | VBool _ | VInt _ | VStr _ => true
  | VTuple l => forallb hashable l
  | VList _ | VDict _ => false
  end.

(** ** [str] and [repr] *)

Definition squote : ascii := "039"%char.

(** A character in the [repr] of a string that is quoted with [q]: characters up to
    U+00FF that are not printable are written in hexadecimal. *)
Definition repr_char (q : ascii) (a : ascii) : list ascii :=
  let n := N_of_ascii a in
  let hex (k : N) : ascii := ascii_of_N (if (k <? 10)%N then 48 + k else 87 + k) in
  if bool_decide (a = q) || bool_decide (a = "\"%char) then ["\"%char; a]
  else if bool_decide (a = "010"%char) then ["\"; "n"]%char
  else if bool_decide (a = "013"%char) then ["\"; "r"]%char
  else if bool_decide (a = "009"%char) then ["\"; "t"]%char
  else if (n <? 32)%N || ((127 <=? n)%N && (n <? 161)%N) || (n =? 173)%N
       then ["\"%char; "x"%char; hex (n / 16)%N; hex (n mod 16)%N]
  else [a].

(** Double quotes are used only around single ones without double ones. *)
Definition repr_str (s : list ascii) : list ascii :=
  let q := if bool_decide (squote ∈ s) && negb (bool_decide ("034"%char ∈ s)) then "034"%char else squote in
  q :: mjoin (repr_char q <$> s) ++ [q].

Fixpoint val_repr (v : pyval) : string :=
  let string_repr s := String.string_of_list_ascii (repr_str (String.list_ascii_of_string s)) in
  let items := fix items (l : list pyval) : list string := match l with [] => [] | x :: l => val_repr x :: items l end in
  match v with
  | VNone => "None"
  | VBool b => if b then "True" else "False"
  | VInt z => pretty z
  | VStr s => string_repr s
  | VList l => "[" +:+ String.concat ", " (items l) +:+ "]"
  | VTuple l => "(" +:+ String.concat ", " (items l) +:+ match l with [_] => ",)" | _ => ")" end
  | VDict d =>
      let pairs := fix pairs (d : list (string * pyval)) : list string :=
        match d with [] => [] | (k, x) :: d => (string_repr k +:+ ": " +:+ val_repr x) :: pairs d end in
      "{" +:+ String.concat ", " (pairs d) +:+ "}"
  end.

Definition val_str (v : pyval) : string := match v with VStr s => s | _ => val_repr v end.

(** [str(err)] of an exception with these arguments *)
Definition args_str (args : list pyval) : string :=
  match args with [] => "" | [a] => val_str a | _ => val_repr (VTuple args) end.

(** ** The class hierarchy *)

Inductive error_class : Type :=
| GenericError
| LockError
| PidFileLockError
| HypervisorError
| HotplugError
| ProgrammerError
| BlockDeviceError
| ConfigurationError
| ConfigVersionMismatch
| ConfigVerifyError
| AddressPoolError
| ReservationError
| RemoteError
| SignatureError
| ParameterError
| ResultValidationError
| OpPrereqError
| OpExecError
| OpResultError
| OpRetryNotSupportedError
| DeviceCreationError
| OpCodeUnknown
| JobLost
| JobCanceled
| JobFileCorrupted
| ResolverError
| HooksFailure
| HooksAbort
| UnitParseError
| ParseError
| TypeEnforcementError
| X509CertError
| TagError
| CommandError
| StorageError
| InotifyError
| QuitGanetiException
| JobQueueError
| JobQueueDrainError
| JobQueueFull
| ConfdMagicError
| ConfdClientError
| UdpDataSizeError
| NoCtypesError
| IPAddressError
| LuxiError
| QueryFilterParseError
| RapiTestResult
| FileStoragePathError
| SshUpdateError
| JobSubmittedException.

#[export] Instance error_class_eq_dec : EqDecision error_class.
Proof. solve_decision. Defined.

(** [err.__class__.__name__] *)
Definition class_name (c : error_class) : string :=
  match c with
  | GenericError => "GenericError"
  | LockError => "LockError"
  | PidFileLockError => "PidFileLockError"
  | HypervisorError => "HypervisorError"
  | HotplugError => "HotplugError"
  | ProgrammerError => "ProgrammerError"
  | BlockDeviceError => "BlockDeviceError"
  | ConfigurationError => "ConfigurationError"
  | ConfigVersionMismatch => "ConfigVersionMismatch"
  | ConfigVerifyError => "ConfigVerifyError"
  | AddressPoolError => "AddressPoolError"
  | ReservationError => "ReservationError"
  | RemoteError => "RemoteError"
  | SignatureError => "SignatureError"
  | ParameterError => "ParameterError"
  | ResultValidationError => "ResultValidationError"
  | OpPrereqError => "OpPrereqError"
  | OpExecError => "OpExecError"
  | OpResultError => "OpResultError"
  | OpRetryNotSupportedError => "OpRetryNotSupportedError"
  | DeviceCreationError => "DeviceCreationError"
  | OpCodeUnknown => "OpCodeUnknown"
  | JobLost => "JobLost"
  | JobCanceled => "JobCanceled"
  | JobFileCorrupted => "JobFileCorrupted"
  | ResolverError => "ResolverError"
  | HooksFailure => "HooksFailure"
  | HooksAbort => "HooksAbort"
  | UnitParseError => "UnitParseError"
  | ParseError => "ParseError"
  | TypeEnforcementError => "TypeEnforcementError"
  | X509CertError => "X509CertError"
  | TagError => "TagError"
  | CommandError => "CommandError"
  | StorageError => "StorageError"
  | InotifyError => "InotifyError"
  | QuitGanetiException => "QuitGanetiException"
  | JobQueueError => "JobQueueError"
  | JobQueueDrainError => "JobQueueDrainError"
  | JobQueueFull => "JobQueueFull"
  | ConfdMagicError => "ConfdMagicError"
  | ConfdClientError => "ConfdClientError"
  | UdpDataSizeError => "UdpDataSizeError"
  | NoCtypesError => "NoCtypesError"
  | IPAddressError => "IPAddressError"
  | LuxiError => "LuxiError"
  | QueryFilterParseError => "QueryFilterParseError"
  | RapiTestResult => "RapiTestResult"
  | FileStoragePathError => "FileStoragePathError"
  | SshUpdateError => "SshUpdateError"
  | JobSubmittedException => "JobSubmittedException"
  end.

(** The base class; [None] stands for Python's own [Exception]. *)
Definition base_class (c : error_class) : option error_class :=
  match c with
  | PidFileLockError => Some LockError
  | HotplugError => Some HypervisorError
  | ConfigVersionMismatch | ConfigVerifyError => Some ConfigurationError
  | HooksAbort => Some HooksFailure
  | JobQueueDrainError | JobQueueFull => Some JobQueueError
  | QueryFilterParseError => Some ParseError
  | GenericError | QuitGanetiException | JobSubmittedException => None
  | _ => Some GenericError
  end.

Fixpoint issubclass_fuel (fuel : nat) (c d : error_class) : bool :=
  bool_decide (c = d) ||
  match fuel, base_class c with
  | S n, Some b => issubclass_fuel n b d
  | _, _ => false
  end.

(** [issubclass(c, d)]; the hierarchy is three levels deep. *)
Definition issubclass (c d : error_class) : bool := issubclass_fuel 3 c d.

(** The classes [globals()] of the module holds, in source order. *)
Definition all_classes : list error_class :=
  [GenericError; LockError; PidFileLockError; HypervisorError;
   HotplugError; ProgrammerError; BlockDeviceError; ConfigurationError;
   ConfigVersionMismatch; ConfigVerifyError; AddressPoolError;
   ReservationError; RemoteError; SignatureError; ParameterError;
   ResultValidationError; OpPrereqError; OpExecError; OpResultError;
   OpRetryNotSupportedError; DeviceCreationError; OpCodeUnknown; JobLost;
   JobCanceled; JobFileCorrupted; ResolverError; HooksFailure; HooksAbort;
   UnitParseError; ParseError; TypeEnforcementError; X509CertError;
   TagError; CommandError; StorageError; InotifyError; QuitGanetiException;
   JobQueueError; JobQueueDrainError; JobQueueFull; ConfdMagicError;
   ConfdClientError; UdpDataSizeError; NoCtypesError; IPAddressError;
   LuxiError; QueryFilterParseError; RapiTestResult; FileStoragePathError;
   SshUpdateError; JobSubmittedException].

(** ** Exception values *)

(** The built-in exceptions the modelled code raises or catches. *)
Inductive py_class : Type :=
| AssertionError | AttributeError | EnvironmentError | IndexError | KeyError
| NotImplementedError | OverflowError | RuntimeError | StopIteration | TypeError
| UnboundLocalError | ValueError.

#[export] Instance py_class_eq_dec : EqDecision py_class.
Proof. solve_decision. Defined.

Inductive exn : Type :=
| PyExn (c : py_class) (msg : string)
| GntExn (c : error_class) (args : list pyval).

Notation exc := (result exn).

Definition AssertionFailed : exn := PyExn AssertionError "".
Notation assert := (py_assert AssertionFailed).

(** Calling the class object: every class keeps its positional arguments in
    [args], except [DeviceCreationError], whose constructor takes exactly two
    and calls [GenericError.__init__(self)] with none. *)
Definition construct (c : error_class) (args : list pyval) : exc exn :=
  match c with
  | DeviceCreationError =>
      match args with
      | [_; _] => Ok (GntExn c [])
      | _ => Raise (PyExn TypeError "__init__() takes exactly 3 arguments")
      end
  | _ => Ok (GntExn c args)
  end.

(** [isinstance(err, errors.<d>)] *)
Definition isinstance_exn (e : exn) (d : error_class) : bool :=
  match e with
  | PyExn _ _ => false
  | GntExn c _ => issubclass c d
  end.

(** ** GetErrorClass, EncodeException, GetEncodedError, MaybeRaise *)

Definition GetErrorClass (name : pyval) : exc (option error_class) :=
  if hashable name then
    match name with
    | VStr s =>
        match list_find (λ c, class_name c = s) all_classes with
        | Some (_, item) =>
            Ok (if issubclass item GenericError then Some item else None)
        | None => Ok None
        end
    | _ => Ok None
    end
  else Raise (PyExn TypeError "unhashable type").

Definition EncodeException (err : exn) : pyval :=
  match err with
  | PyExn c msg =>
      VTuple [VStr match c with
                   | AssertionError => "AssertionError"
                   | AttributeError => "AttributeError"
                   | EnvironmentError => "OSError"
                   | IndexError => "IndexError"
                   | KeyError => "KeyError"
                   | NotImplementedError => "NotImplementedError"
                   | OverflowError => "OverflowError"
                   | RuntimeError => "RuntimeError"
                   | StopIteration => "StopIteration"
                   | TypeError => "TypeError"
                   | UnboundLocalError => "UnboundLocalError"
                   | ValueError => "ValueError"
                   end;
              VTuple [VStr msg]]
  | GntExn c args => VTuple [VStr (class_name c); VTuple args]
  end.

(** The elements of a value that is a tuple or a list. *)
Definition as_sequence (v : pyval) : option (list pyval) :=
  match v with
  | VList l | VTuple l => Some l
  | _ => None
  end.

Definition GetEncodedError (res : pyval)
    : exc (option (error_class * list pyval)) :=
  match as_sequence res with
  | Some [name; args] =>
      match as_sequence args with
      | Some args =>
          let* errcls := GetErrorClass name in
          Ok ((λ c, (c, args)) <$> errcls)
      | None => Ok None
      end
  | _ => Ok None
  end.

Definition MaybeRaise (res : pyval) : exc unit :=
  let* error := GetEncodedError res in
  match error with
  | Some (errcls, args) => let* e := construct errcls args in Raise e
  | None => Ok tt
  end.

(** ** The round trip *)

(** How the encoded pair arrives: a tuple as built, or the list a JSON
    transport turns it into. *)
Definition json_transport (v : pyval) : pyval :=
  match v with
  | VTuple [n; VTuple args] => VList [n; VList args]
  | _ => v
  end.

Lemma GetErrorClass_name c :
  GetErrorClass (VStr (class_name c))
  = Ok (if issubclass c GenericError then Some c else None).
Proof. by destruct c. Qed.

(** An exception's arguments can be passed back to its class. *)
Definition reconstructible (c : error_class) : bool :=
  issubclass c GenericError && negb (bool_decide (c = DeviceCreationError)).

(** Every Ganeti error except [DeviceCreationError] survives the trip: the
    client that receives the encoded form, as a tuple or as the JSON list made
    of it, raises an exception of the same class with the same arguments. *)
Theorem MaybeRaise_EncodeException c args :
  reconstructible c = true →
  MaybeRaise (EncodeException (GntExn c args)) = Raise (GntExn c args) ∧
  MaybeRaise (json_transport (EncodeException (GntExn c args)))
  = Raise (GntExn c args).
Proof. by destruct c. Qed.

Lemma MaybeRaise_EncodeException_witness :
  reconstructible OpPrereqError = true ∧
  MaybeRaise (EncodeException (GntExn OpPrereqError [VStr "x"; VStr "wrong_input"]))
  = Raise (GntExn OpPrereqError [VStr "x"; VStr "wrong_input"]).
Proof.
  split; [reflexivity|].
  apply (MaybeRaise_EncodeException OpPrereqError); reflexivity.
Defined.
