(* ===== verification/PyDict.v ===== *)
(** * Python dictionaries

    A dictionary as the interpreter keeps it: an association list in insertion
    order, no key twice.  Assigning to a key that is there keeps its place.  Two
    dictionaries are equal ([==]) when they look up alike, whatever their order;
    the operations respect this equality. *)

From S2P Require Import Prelude.
#[local] Open Scope list_scope.
#[local] Open Scope stdpp_scope.

Section dict.
  Context {K : Type} {EqK : EqDecision K} {V : Type}.
  Implicit Types (d : list (K * V)) (k : K) (v : V).

Fixpoint dget k d : option V :=
  match d with
  | [] => None
  | (k', v) :: d => if decide (k' = k) then Some v else dget k d
  end.

(** [k in d] *)
Definition dhas k d : bool := bool_decide (is_Some (dget k d)).

(** [d[k] = v] *)
Fixpoint dset k v d : list (K * V) :=
  match d with
  | [] => [(k, v)]
  | (k', v') :: d => if decide (k' = k) then (k', v) :: d else (k', v') :: dset k v d
  end.

(** [del d[k]], [d.pop(k, None)] *)
Fixpoint ddel k d : list (K * V) :=
  match d with
  | [] => []
  | (k', v') :: d => if decide (k' = k) then d else (k', v') :: ddel k d
  end.

Definition dkeys d : list K := d.*1.
Definition dvalues d : list V := d.*2.

(** [d.update(d')] *)
Definition dupdate d d' : list (K * V) := foldl (λ d '(k, v), dset k v d) d d'.

(** [dict(kvs)] *)
Definition mk_dict (kvs : list (K * V)) : list (K * V) := dupdate [] kvs.

Definition dict_ok d : Prop := NoDup (dkeys d).

#[global] Instance dict_ok_dec d : Decision (dict_ok d).
Proof. unfold dict_ok. apply _. Defined.

(** ** Lookup *)

Lemma dget_Some_1 k v d : dget k d = Some v → (k, v) ∈ d.
Proof.
  induction d as [|[k' v'] d IH]; simpl; [done|]. case_decide; [intros [= ->]; subst; left|].
  intros Hin. right. auto.
Qed.

Lemma dget_None k d : dget k d = None ↔ k ∉ dkeys d.
Proof.
  induction d as [|[k' v'] d IH]; simpl; [set_solver|]. unfold dkeys in *. csimpl.
  case_decide; set_solver.
Qed.

Lemma dget_Some k v d : dict_ok d → dget k d = Some v ↔ (k, v) ∈ d.
Proof.
  intros Hd. split; [apply dget_Some_1|]. unfold dict_ok, dkeys in Hd.
  induction d as [|[k' v'] d IH]; simpl; [by intros ?%not_elem_of_nil|]. csimpl in Hd.
  apply NoDup_cons in Hd as [Hk Hd]. intros [[= -> ->]|H]%elem_of_cons; [by rewrite decide_True|].
  rewrite decide_False; [by apply IH|]. intros ->. apply Hk, list_elem_of_fmap. by exists (k, v).
Qed.

Lemma dget_is_Some k d : is_Some (dget k d) ↔ k ∈ dkeys d.
Proof. rewrite <-not_eq_None_Some, dget_None. destruct (decide (k ∈ dkeys d)); tauto. Qed.

Lemma dhas_true k d : dhas k d = true ↔ k ∈ dkeys d.
Proof. unfold dhas. by rewrite bool_decide_eq_true, dget_is_Some. Qed.

Lemma dhas_false k d : dhas k d = false ↔ k ∉ dkeys d.
Proof. by rewrite <-not_true_iff_false, dhas_true. Qed.

Lemma dget_dhas k v d : dget k d = Some v → dhas k d = true.
Proof. intros H. unfold dhas. by rewrite H. Qed.

Lemma elem_of_dvalues v d : dict_ok d → v ∈ dvalues d ↔ ∃ k, dget k d = Some v.
Proof.
  intros Hd. unfold dvalues. rewrite list_elem_of_fmap. split.
  - intros ([k v'] & -> & Hin). exists k. by apply dget_Some.
  - intros (k & Hk%dget_Some_1). by exists (k, v).
Qed.

(** ** Assignment and deletion *)

Lemma dget_dset k v d k' : dget k' (dset k v d) = if decide (k' = k) then Some v else dget k' d.
Proof.
  induction d as [|[k1 v1] d IH]; simpl; [by repeat case_decide; subst|].
  destruct (decide (k1 = k)) as [->|]; simpl.
  - by repeat case_decide; subst.
  - rewrite IH. by repeat case_decide; subst.
Qed.

Lemma dget_dset_eq k v d : dget k (dset k v d) = Some v.
Proof. by rewrite dget_dset, decide_True. Qed.

Lemma dget_dset_ne k v d k' : k' ≠ k → dget k' (dset k v d) = dget k' d.
Proof. intros. by rewrite dget_dset, decide_False. Qed.

Lemma dkeys_dset k v d :
  dkeys (dset k v d) = if decide (k ∈ dkeys d) then dkeys d else dkeys d ++ [k].
Proof.
  unfold dkeys. induction d as [|[k1 v1] d IH]; csimpl; [done|].
  destruct (decide (k1 = k)) as [->|Hne]; csimpl.
  - rewrite decide_True; [done|left].
  - rewrite IH. repeat case_decide; set_solver.
Qed.

Lemma elem_of_dkeys_dset k v d k' : k' ∈ dkeys (dset k v d) ↔ k' = k ∨ k' ∈ dkeys d.
Proof. rewrite dkeys_dset. case_decide; set_solver. Qed.

Lemma dict_ok_dset k v d : dict_ok d → dict_ok (dset k v d).
Proof.
  unfold dict_ok. rewrite dkeys_dset. case_decide; [done|]. intros.
  apply NoDup_app. split_and!; [done| |apply NoDup_singleton]. set_solver.
Qed.

Lemma dset_new k v d : k ∉ dkeys d → dset k v d = d ++ [(k, v)].
Proof.
  unfold dkeys. induction d as [|[k1 v1] d IH]; csimpl; [done|]. intros H.
  rewrite decide_False by set_solver. by rewrite IH by set_solver.
Qed.

Lemma ddel_not_in k d : k ∉ dkeys d → ddel k d = d.
Proof.
  unfold dkeys. induction d as [|[k1 v1] d IH]; csimpl; [done|]. intros H.
  rewrite decide_False by set_solver. by rewrite IH by set_solver.
Qed.

Lemma dkeys_ddel k d : dkeys (ddel k d) = remove1 k (dkeys d).
Proof.
  unfold dkeys. induction d as [|[k1 v1] d IH]; csimpl; [done|].
  case_decide; [done|]. csimpl. by rewrite IH.
Qed.

Lemma dget_ddel k d k' :
  dict_ok d → dget k' (ddel k d) = if decide (k' = k) then None else dget k' d.
Proof.
  unfold dict_ok, dkeys. induction d as [|[k1 v1] d IH]; csimpl; [by case_decide|].
  intros [Hk Hd]%NoDup_cons. destruct (decide (k1 = k)) as [->|Hne].
  - destruct (decide (k' = k)) as [->|]; [by apply dget_None|by rewrite decide_False].
  - simpl. rewrite IH by done. repeat case_decide; by subst.
Qed.

Lemma dget_ddel_eq k d : dict_ok d → dget k (ddel k d) = None.
Proof. intros. by rewrite dget_ddel, decide_True. Qed.

Lemma dget_ddel_ne k d k' : k' ≠ k → dget k' (ddel k d) = dget k' d.
Proof.
  intros Hne. induction d as [|[k1 v1] d IH]; simpl; [done|].
  destruct (decide (k1 = k)) as [->|]; [by rewrite decide_False|]. simpl. by rewrite IH.
Qed.

Lemma elem_of_remove1 {A} {EqA : EqDecision A} (x y : A) (l : list A) :
  NoDup l → y ∈ remove1 x l ↔ y ≠ x ∧ y ∈ l.
Proof.
  induction l as [|z l IH]; simpl; [set_solver|]. intros [Hz Hl]%NoDup_cons.
  case_decide; [set_solver|]. rewrite !elem_of_cons, IH by done. naive_solver.
Qed.

Lemma NoDup_remove1 {A} {EqA : EqDecision A} (x : A) (l : list A) : NoDup l → NoDup (remove1 x l).
Proof.
  induction l as [|z l IH]; simpl; [done|]. intros [Hz Hl]%NoDup_cons. case_decide; [done|].
  apply NoDup_cons. split; [|auto]. by intros [_ ?]%elem_of_remove1.
Qed.

Lemma elem_of_dkeys_ddel k d k' : dict_ok d → k' ∈ dkeys (ddel k d) ↔ k' ≠ k ∧ k' ∈ dkeys d.
Proof. intros. rewrite dkeys_ddel. by apply elem_of_remove1. Qed.

Lemma dict_ok_ddel k d : dict_ok d → dict_ok (ddel k d).
Proof. unfold dict_ok. rewrite dkeys_ddel. apply NoDup_remove1. Qed.

Lemma dset_Permutation k v v' d :
  dict_ok d → dget k d = Some v' → ∃ d', d ≡ₚ (k, v') :: d' ∧ dset k v d ≡ₚ (k, v) :: d'.
Proof.
  intros Hd. induction d as [|[k1 v1] d IH]; simpl; [done|].
  unfold dict_ok, dkeys in Hd. csimpl in Hd. apply NoDup_cons in Hd as [_ Hd].
  case_decide as E; [intros [= ->]; subst; by exists d|].
  intros (d' & E1 & E2)%(IH Hd). exists ((k1, v1) :: d'). rewrite E1 at 1. rewrite E2.
  split; apply Permutation_swap.
Qed.

(** ** Update *)

Lemma dict_ok_dupdate d d' : dict_ok d → dict_ok (dupdate d d').
Proof.
  unfold dupdate. revert d. induction d' as [|[k v] d' IH]; intros d Hd; simpl; [done|].
  apply IH. by apply dict_ok_dset.
Qed.

Lemma dict_ok_mk kvs : dict_ok (mk_dict kvs).
Proof. apply dict_ok_dupdate. constructor. Qed.

Lemma dget_dupdate k d d' :
  dict_ok d' → dget k (dupdate d d') = match dget k d' with Some v => Some v | None => dget k d end.
Proof.
  unfold dupdate, dict_ok, dkeys. revert d. induction d' as [|[k1 v1] d' IH]; intros d Hd; simpl; [done|].
  csimpl in Hd. apply NoDup_cons in Hd as [Hk Hd]. rewrite IH, dget_dset by done.
  destruct (decide (k1 = k)) as [->|]; [|by rewrite decide_False].
  by rewrite decide_True, (proj2 (dget_None k d')).
Qed.

Lemma elem_of_dkeys_dupdate k d d' : k ∈ dkeys (dupdate d d') ↔ k ∈ dkeys d ∨ k ∈ dkeys d'.
Proof.
  unfold dupdate. revert d. induction d' as [|[k1 v1] d' IH]; intros d; simpl; [set_solver|].
  rewrite IH, elem_of_dkeys_dset. unfold dkeys. csimpl. set_solver.
Qed.

(** ** Equality *)

(** [d == d'] *)
Definition dict_eq d d' : Prop := ∀ k, dget k d = dget k d'.

#[global] Instance dict_eq_equivalence : Equivalence dict_eq.
Proof. split; [by intros d k|by intros d d' H k|]. intros d1 d2 d3 H1 H2 k. by rewrite H1. Qed.

#[global] Instance dget_proper k : Proper (dict_eq ==> eq) (dget k).
Proof. intros d d' H. apply H. Qed.
#[global] Instance dhas_proper k : Proper (dict_eq ==> eq) (dhas k).
Proof. intros d d' H. unfold dhas. by rewrite H. Qed.
#[global] Instance dset_proper k v : Proper (dict_eq ==> dict_eq) (dset k v).
Proof. intros d d' H k'. by rewrite !dget_dset, H. Qed.

Lemma dict_eq_keys d d' k : dict_eq d d' → k ∈ dkeys d ↔ k ∈ dkeys d'.
Proof. intros H. by rewrite <-!dget_is_Some, H. Qed.
End dict.

(** ** Mapping over the values *)

Definition dmap {K V W} (f : V → W) (d : list (K * V)) : list (K * W) := prod_map id f <$> d.

Lemma dget_dmap {K V W} {EqK : EqDecision K} (f : V → W) (d : list (K * V)) k :
  dget k (dmap f d) = f <$> dget k d.
Proof. induction d as [|[k' v] d IH]; simpl; [done|]. by case_decide. Qed.

Lemma dkeys_dmap {K V W} (f : V → W) (d : list (K * V)) : dkeys (dmap f d) = dkeys d.
Proof. unfold dkeys, dmap. by rewrite <-list_fmap_compose. Qed.

(** [d[k]] after an assignment to an attribute of the object there *)
Definition dalter {K V} {EqK : EqDecision K} (f : V → V) (k : K) (d : list (K * V)) : list (K * V) :=
  match dget k d with Some v => dset k (f v) d | None => d end.

Lemma dget_dalter {K V} {EqK : EqDecision K} (f : V → V) (k k' : K) (d : list (K * V)) :
  dget k' (dalter f k d) = if decide (k' = k) then f <$> dget k d else dget k' d.
Proof.
  unfold dalter. destruct (dget k d) eqn:E; [by rewrite dget_dset|].
  case_decide; [by subst|done].
Qed.

Lemma dkeys_dalter {K V} {EqK : EqDecision K} (f : V → V) (k : K) (d : list (K * V)) :
  dkeys (dalter f k d) = dkeys d.
Proof.
  unfold dalter. destruct (dget k d) eqn:E; [|done]. rewrite dkeys_dset, decide_True; [done|].
  apply dget_is_Some. by rewrite E.
Qed.

Lemma dict_ok_dalter {K V} {EqK : EqDecision K} (f : V → V) (k : K) (d : list (K * V)) :
  dict_ok d → dict_ok (dalter f k d).
Proof. unfold dict_ok. by rewrite dkeys_dalter. Qed.

Lemma dalter_dset {K V} {EqK : EqDecision K} (f : V → V) (k : K) (v : V) (d : list (K * V)) :
  dget k d = Some v → dset k (f v) d = dalter f k d.
Proof. intros H. unfold dalter. by rewrite H. Qed.

Lemma dget_foldl_dalter {K V} {EqK : EqDecision K} (f : V → V) (ks : list K) (d : list (K * V)) (k : K) :
  NoDup ks →
  dget k (foldl (λ d k, dalter f k d) d ks) = if decide (k ∈ ks) then f <$> dget k d else dget k d.
Proof.
  revert d. induction ks as [|k' ks IH]; intros d; simpl.
  - done.
  - intros [Hk' Hnd]%NoDup_cons. rewrite IH, dget_dalter by done.
    destruct (decide (k = k')) as [->|Hne].
    + rewrite decide_False by done. rewrite decide_True by left. done.
    + destruct (decide (k ∈ ks)); [rewrite decide_True by (by right); done|].
      rewrite decide_False; [done|]. rewrite elem_of_cons. naive_solver.
Qed.

Lemma dkeys_foldl_dalter {K V} {EqK : EqDecision K} (f : V → V) (ks : list K) (d : list (K * V)) :
  dkeys (foldl (λ d k, dalter f k d) d ks) = dkeys d.
Proof. revert d. induction ks as [|k ks IH]; intros d; simpl; [done|]. by rewrite IH, dkeys_dalter. Qed.

Create HintDb dict.
#[export] Hint Resolve dict_ok_dset dict_ok_ddel dict_ok_dupdate dict_ok_dalter dict_ok_mk : dict.
