(* ===== verification/PyState.v ===== *)
(** * Methods that change an object

    A method of a stateful object: given the state it returns or raises, and
    leaves the state as it is at that point, whatever was changed before an
    exception included; [None] stands for a loop that has not ended within its
    fuel.  [preserves] is the invariant rule, with a lemma per construct. *)

From S2P Require Import Prelude Errors.
#[local] Open Scope list_scope.
#[local] Open Scope stdpp_scope.

Definition meth (S A : Type) : Type := S → option (exc A * S).

#[export] Instance meth_ret {S} : MRet (meth S) := λ A a s, Some (Ok a, s).
#[export] Instance meth_bind {S} : MBind (meth S) := λ A B k m s,
  match m s with
  | Some (Ok a, s) => k a s
  | Some (Raise e, s) => Some (Raise e, s)
  | None => None
  end.

Section meth.
  Context {S : Type}.

Definition raise {A} (e : exn) : meth S A := λ s, Some (Raise e, s).
Definition gets {A} (f : S → A) : meth S A := λ s, Some (Ok (f s), s).
Definition modify (f : S → S) : meth S unit := λ s, Some (Ok tt, f s).
(** An expression that may raise and changes nothing *)
Definition lift {A} (r : exc A) : meth S A := λ s, Some (r, s).
Definition reads {A} (f : S → exc A) : meth S A := λ s, Some (f s, s).
Definition diverges {A} : meth S A := λ s, None.

(** [for x in xs: body] *)
Fixpoint for_each {X} (xs : list X) (body : X → meth S unit) : meth S unit :=
  match xs with
  | [] => mret tt
  | x :: xs => body x ;; for_each xs body
  end.

(** [try: m except: h], where [h] gets every exception *)
Definition catch {A} (m : meth S A) (h : exn → meth S A) : meth S A := λ s,
  match m s with
  | Some (Raise e, s) => h e s
  | r => r
  end.

(** ** Invariants *)

Definition preserves (P : S → Prop) {A} (m : meth S A) : Prop :=
  ∀ s r s', P s → m s = Some (r, s') → P s'.

Section preserves.
  Context (P : S → Prop).

Lemma preserves_ret {A} (a : A) : preserves P (mret a).
Proof. by intros s r s' Hs [= _ <-]. Qed.
Lemma preserves_raise {A} e : preserves P (raise e : meth S A).
Proof. by intros s r s' Hs [= _ <-]. Qed.
Lemma preserves_gets {A} (f : S → A) : preserves P (gets f).
Proof. by intros s r s' Hs [= _ <-]. Qed.
Lemma preserves_reads {A} (f : S → exc A) : preserves P (reads f).
Proof. by intros s r s' Hs [= _ <-]. Qed.
Lemma preserves_lift {A} (r : exc A) : preserves P (lift r).
Proof. by intros s r' s' Hs [= _ <-]. Qed.
Lemma preserves_diverges {A} : preserves P (diverges : meth S A).
Proof. by intros s r s'. Qed.
Lemma preserves_modify f : (∀ s, P s → P (f s)) → preserves P (modify f).
Proof. intros Hf s r s' Hs [= _ <-]. auto. Qed.
Lemma preserves_bind {A B} (m : meth S A) (k : A → meth S B) :
  preserves P m → (∀ a, preserves P (k a)) → preserves P (m ≫= k).
Proof.
  intros Hm Hk s r s' Hs. unfold mbind, meth_bind.
  destruct (m s) as [[[a|e] s1]|] eqn:E; [|by intros [= <- <-]; eapply Hm|done].
  intros Hr. eapply Hk, Hr. by eapply Hm.
Qed.
(** The continuation may use what the first part returned and left. *)
Lemma preserves_bind' {A B} (m : meth S A) (k : A → meth S B) :
  preserves P m →
  (∀ s a s' r s'', P s → m s = Some (Ok a, s') → P s' → k a s' = Some (r, s'') → P s'') →
  preserves P (m ≫= k).
Proof.
  intros Hm Hk s r s' Hs. unfold mbind, meth_bind.
  destruct (m s) as [[[a|e] s1]|] eqn:E; [|by intros [= <- <-]; eapply Hm|done].
  intros Hr. eapply Hk; eauto.
Qed.
Lemma preserves_for_each {X} (xs : list X) body :
  (∀ x, x ∈ xs → preserves P (body x)) → preserves P (for_each xs body).
Proof.
  induction xs as [|x xs IH]; intros Hb; simpl; [apply preserves_ret|].
  apply preserves_bind; [apply Hb; left|]. intros _. apply IH. intros y Hy. apply Hb. by right.
Qed.
Lemma preserves_catch {A} (m : meth S A) h :
  preserves P m → (∀ e, preserves P (h e)) → preserves P (catch m h).
Proof.
  intros Hm Hh s r s' Hs. unfold catch. destruct (m s) as [[[a|e] s1]|] eqn:E; [| |done].
  - intros [= <- <-]. by eapply Hm.
  - intros Hr. eapply Hh, Hr. by eapply Hm.
Qed.
End preserves.

(** ** Results *)

Lemma meth_bind_eq {A B} (m : meth S A) (k : A → meth S B) s :
  (m ≫= k) s = match m s with
               | Some (Ok a, s) => k a s
               | Some (Raise e, s) => Some (Raise e, s)
               | None => None
               end.
Proof. done. Qed.

Lemma gets_bind_eq {A B} (f : S → A) (k : A → meth S B) s : (gets f ≫= k) s = k (f s) s.
Proof. done. Qed.

Lemma modify_bind_eq {B} f (k : unit → meth S B) s : (modify f ≫= k) s = k tt (f s).
Proof. done. Qed.

Lemma meth_bind_Ok {A B} (m : meth S A) (k : A → meth S B) s b s' :
  (m ≫= k) s = Some (Ok b, s') ↔ ∃ a s1, m s = Some (Ok a, s1) ∧ k a s1 = Some (Ok b, s').
Proof.
  unfold mbind, meth_bind. destruct (m s) as [[[a|e] s1]|]; naive_solver.
Qed.

Lemma meth_bind_Raise {A B} (m : meth S A) (k : A → meth S B) s e s' :
  (m ≫= k) s = Some (Raise e, s') ↔
  m s = Some (Raise e, s') ∨ ∃ a s1, m s = Some (Ok a, s1) ∧ k a s1 = Some (Raise e, s').
Proof.
  unfold mbind, meth_bind. destruct (m s) as [[[a|e'] s1]|]; naive_solver.
Qed.

Lemma for_each_Ok {X} (xs : list X) body (f : X → S → S) s :
  (∀ x s, x ∈ xs → body x s = Some (Ok tt, f x s)) →
  for_each xs body s = Some (Ok tt, foldl (λ s x, f x s) s xs).
Proof.
  revert s. induction xs as [|x xs IH]; intros s Hb; simpl; [done|].
  unfold mbind, meth_bind. rewrite Hb by left. apply IH. intros y s' Hy. apply Hb. by right.
Qed.
End meth.

(** Walks through a method, leaving the goals about its own steps. *)
Ltac keeps :=
  repeat match goal with
  | |- preserves _ (mret _) => apply preserves_ret
  | |- preserves _ (raise _) => apply preserves_raise
  | |- preserves _ (gets _) => apply preserves_gets
  | |- preserves _ (reads _) => apply preserves_reads
  | |- preserves _ (lift _) => apply preserves_lift
  | |- preserves _ diverges => apply preserves_diverges
  | |- preserves _ (mbind _ _) => apply preserves_bind; [|intros ?]
  | |- preserves _ (catch _ _) => apply preserves_catch; [|intros ?]
  | |- preserves _ (for_each _ _) => apply preserves_for_each; intros ? ?
  | |- preserves _ (match ?x with _ => _ end) => destruct x eqn:?
  end.

(** Splits what is known of a method that returned. *)
Ltac inv_meth :=
  repeat match goal with
  | H : (mbind _ _) _ = Some (Ok _, _) |- _ => apply meth_bind_Ok in H as (? & ? & ? & H)
  | H : mret _ _ = Some _ |- _ => injection H as ? ?
  | H : raise _ _ = Some (Ok _, _) |- _ => discriminate H
  | H : modify _ _ = Some _ |- _ => injection H as ? ?
  | H : gets _ _ = Some _ |- _ => injection H as ? ?
  end; simplify_eq/=.
