(* ===== verification/PySort.v ===== *)
(** * Sorting as in the Python standard library

    [sorted] and [list.sort] with an order given by [<]: the result is a
    permutation, sorted, and elements of equal rank keep their order. *)

From Stdlib Require Import Sorted.
From S2P Require Import Prelude.

Section sort.
  Context {A : Type} (lt : A → A → bool).

(** [x] goes before the elements that are not smaller. *)
Fixpoint insert_sorted (x : A) (l : list A) : list A :=
  match l with
  | [] => [x]
  | y :: l' => if lt y x then y :: insert_sorted x l' else x :: l
  end.

Definition py_sorted (l : list A) : list A := foldr insert_sorted [] l.

(** [b] may come after [a]. *)
Definition may_follow (a b : A) : Prop := lt b a = false.

Lemma insert_sorted_perm x l : insert_sorted x l ≡ₚ x :: l.
Proof.
  induction l as [|y l IH]; simpl; [done|]. destruct (lt y x); [|done].
  rewrite IH. apply Permutation_swap.
Qed.

Lemma py_sorted_perm l : py_sorted l ≡ₚ l.
Proof. induction l as [|x l IH]; simpl; [done|]. by rewrite insert_sorted_perm, IH. Qed.

Context `{!StrictWeakOrder lt}.

Lemma insert_sorted_sorted x l :
  StronglySorted may_follow l → StronglySorted may_follow (insert_sorted x l).
Proof.
  intros Hl. induction Hl as [|y l Hl IH Hy]; simpl; [by repeat constructor|].
  destruct (lt y x) eqn:Hyx.
  - constructor; [done|]. rewrite insert_sorted_perm. constructor; [|done].
    unfold may_follow. by apply lt_asym.
  - constructor; [by constructor|]. constructor; [done|].
    eapply Forall_impl; [exact Hy|]. intros z Hz. unfold may_follow in *.
    eapply ge_trans; [|exact Hz]. exact Hyx.
Qed.

Lemma py_sorted_sorted l : StronglySorted may_follow (py_sorted l).
Proof. induction l as [|x l IH]; simpl; [constructor|]. by apply insert_sorted_sorted. Qed.

(** A sorted list stays as it is. *)
Lemma py_sorted_id l : StronglySorted may_follow l → py_sorted l = l.
Proof.
  intros Hl. induction Hl as [|x l Hl IH Hx]; simpl; [done|]. rewrite IH.
  destruct Hx as [|y l Hy _]; simpl; [done|]. unfold may_follow in Hy. by rewrite Hy.
Qed.

Lemma py_sorted_idemp l : py_sorted (py_sorted l) = py_sorted l.
Proof. apply py_sorted_id, py_sorted_sorted. Qed.

(** ** Stability *)

(** Elements of the same rank as [x]. *)
Definition same_rank (x y : A) : bool := negb (lt x y) && negb (lt y x).

Lemma insert_sorted_rank x y l :
  StronglySorted may_follow l →
  filter (λ z, same_rank x z = true) (insert_sorted y l)
  = filter (λ z, same_rank x z = true) (y :: l).
Proof.
  intros Hl. induction Hl as [|z l Hl IH Hz]; simpl; [done|].
  destruct (lt z y) eqn:Hzy; [|done].
  rewrite !filter_cons. rewrite filter_cons in IH. rewrite IH.
  destruct (decide (same_rank x z = true)) as [Hxz|Hxz]; [|done].
  destruct (decide (same_rank x y = true)) as [Hxy|Hxy]; [|done]. exfalso.
  unfold same_rank in *. rewrite !andb_true_iff, !negb_true_iff in Hxz, Hxy.
  assert (lt z y = false) by (eapply ge_trans; [apply Hxy|apply Hxz]). congruence.
Qed.

Lemma py_sorted_stable x l :
  filter (λ z, same_rank x z = true) (py_sorted l) = filter (λ z, same_rank x z = true) l.
Proof.
  induction l as [|y l IH]; [done|]. cbn [py_sorted foldr].
  rewrite insert_sorted_rank by apply py_sorted_sorted.
  rewrite !filter_cons. unfold py_sorted in IH. by rewrite IH.
Qed.
End sort.

(** ** Orders made from orders *)

(** Sorting by a key. *)
#[export] Instance key_order {A B} (lt : B → B → bool) (key : A → B) :
  StrictWeakOrder lt → StrictWeakOrder (λ a b, lt (key a) (key b)).
Proof.
  intros Ho. split.
  - intros a b. apply lt_asym.
  - intros a b c. apply ge_trans.
Qed.

#[export] Instance Z_ltb_order : StrictWeakOrder Z.ltb.
Proof.
  split.
  - intros a b Hab%Z.ltb_lt. apply Z.ltb_ge. lia.
  - intros a b c ?%Z.ltb_ge ?%Z.ltb_ge. apply Z.ltb_ge. lia.
Qed.

(** Comparing sequences: the first elements that differ decide, and a proper
    prefix comes first. *)
Section lex.
  Context {A : Type} `{EqDecision A} (lt : A → A → bool).

Fixpoint list_lt (l k : list A) : bool :=
  match l, k with
  | _, [] => false
  | [], _ :: _ => true
  | x :: l, y :: k => if decide (x = y) then list_lt l k else lt x y
  end.

(** A total order: distinct elements are comparable. *)
Context `{!StrictWeakOrder lt} (lt_total : ∀ x y, x ≠ y → lt x y = true ∨ lt y x = true).

Lemma lt_irrefl x : lt x x = false.
Proof. destruct (lt x x) eqn:E; [|done]. by rewrite (lt_asym x x E) in E. Qed.

Lemma ge_neq_lt x y : x ≠ y → lt x y = false → lt y x = true.
Proof. intros Hne Hxy. destruct (lt_total x y Hne); congruence. Qed.

Lemma list_lt_order : StrictWeakOrder list_lt.
Proof.
  split.
  - intros l. induction l as [|x l IH]; intros [|y k]; simpl; try done.
    destruct (decide (x = y)) as [->|Hne].
    + rewrite decide_True by done. apply IH.
    + rewrite decide_False by congruence. apply lt_asym.
  - intros a. induction a as [|x a IH]; intros [|y b] [|z c]; simpl; try done.
    destruct (decide (y = x)) as [->|Hyx].
    + destruct (decide (z = x)); [apply IH|done].
    + intros Hb. destruct (decide (z = y)) as [->|Hzy].
      * intros _. by rewrite decide_False.
      * intros Hc. destruct (decide (z = x)) as [->|Hzx]; [|by eapply ge_trans].
        pose proof (ge_neq_lt _ _ Hyx Hb). congruence.
Qed.

Lemma list_lt_total l k : l ≠ k → list_lt l k = true ∨ list_lt k l = true.
Proof.
  revert k. induction l as [|x l IH]; intros [|y k] Hne; simpl; auto.
  destruct (decide (x = y)) as [->|Hxy].
  - rewrite decide_True by done. apply IH. congruence.
  - rewrite decide_False by congruence. by apply lt_total.
Qed.
End lex.

(** Only distinct elements are compared. *)
Lemma list_lt_ext {A} `{EqDecision A} (lt lt' : A → A → bool) :
  (∀ x y, x ≠ y → lt x y = lt' x y) → ∀ l k, list_lt lt l k = list_lt lt' l k.
Proof.
  intros Hlt l. induction l as [|x l IH]; intros [|y k]; simpl; try done.
  case_decide; [apply IH|by apply Hlt].
Qed.

(** An order may be replaced by one that agrees with it. *)
Lemma order_ext {A} (lt lt' : A → A → bool) :
  (∀ x y, lt x y = lt' x y) → StrictWeakOrder lt' → StrictWeakOrder lt.
Proof.
  intros E [Ha Hg]. split.
  - intros a b. rewrite !E. apply Ha.
  - intros a b c. rewrite !E. apply Hg.
Qed.

(** Elements that are related one by one, with orders that agree, are sorted
    alike. *)
Lemma py_sorted_Forall2 {A B} (R : A → B → Prop) (lt : A → A → bool) (lt' : B → B → bool) l k :
  (∀ a b a' b', R a b → R a' b' → lt a a' = lt' b b') →
  Forall2 R l k → Forall2 R (py_sorted lt l) (py_sorted lt' k).
Proof.
  intros Hlt. assert (∀ x y l k, R x y → Forall2 R l k →
    Forall2 R (insert_sorted lt x l) (insert_sorted lt' y k)) as Hins.
  { clear l k. intros x y l k Hxy. induction 1 as [|a b l k Hab Hlk IH]; simpl; [by repeat constructor|].
    rewrite (Hlt _ _ _ _ Hab Hxy). destruct (lt' b y); constructor; auto. }
  induction 1 as [|x y l k Hxy Hlk IH]; simpl; [constructor|]. by apply Hins.
Qed.

(** Breaking ties by position is sorting by the key alone. *)
Section indexed.
  Context {A B : Type} `{EqDecision B} (lt : B → B → bool) `{!StrictWeakOrder lt}.

Definition indexed_lt (a b : B * nat * A) : bool :=
  if decide (a.1.1 = b.1.1) then a.1.2 <? b.1.2 else lt a.1.1 b.1.1.

Lemma py_sorted_indexed (l : list (B * nat * A)) :
  StronglySorted (λ a b, a.1.2 < b.1.2) l →
  py_sorted indexed_lt l = py_sorted (λ a b, lt a.1.1 b.1.1) l.
Proof.
  induction 1 as [|x l Hl IH Hx]; [done|]. unfold py_sorted in *. cbn [foldr]. rewrite IH. clear IH.
  assert (Forall (λ b, x.1.2 < b.1.2) (foldr (insert_sorted (λ a b : B * nat * A, lt a.1.1 b.1.1)) [] l))
    as Hlt.
  { change (Forall (λ b, x.1.2 < b.1.2) (py_sorted (λ a b : B * nat * A, lt a.1.1 b.1.1) l)).
    by rewrite py_sorted_perm. }
  induction Hlt as [|y k Hy Hk IH]; simpl; [done|]. rewrite IH.
  assert (indexed_lt y x = lt y.1.1 x.1.1) as ->; [|done].
  unfold indexed_lt. case_decide as E; [|done]. rewrite E, (lt_irrefl lt). apply Nat.ltb_ge. lia.
Qed.
End indexed.
