(* ===== verification/Heapq.v ===== *)
(** * Priority queues: Python's [heapq] on a list

    [locking.SharedLock] and [workerpool.WorkerPool] keep their queues in
    lists ordered by the standard library's [heapq].  This file models
    [heappush] and [heappop] with a comparison that may raise, and proves that
    when it does not raise on the elements at hand both keep the heap
    property, neither loses nor duplicates an element, and the element popped
    is a smallest one. *)

From Stdlib Require Import ZifyNat.
From S2P Require Import Prelude Errors.

#[local] Ltac Zify.zify_post_hook ::= Z.div_mod_to_equations.

Definition parent (i : nat) : nat := (i - 1) / 2.

(** Exchange of two list positions. *)
Definition swap {A} (i j : nat) (h : list A) : list A :=
  match h !! i, h !! j with
  | Some a, Some b => <[i := b]> (<[j := a]> h)
  | _, _ => h
  end.

Section heapq.
  Context {A : Type} (cmp : A → A → exc bool).

(** [_siftdown(heap, 0, pos)]: move the item at [pos] towards the root while
    it is smaller than its parent.  The position decreases, so [length h]
    iterations are enough. *)
Fixpoint siftdown (fuel : nat) (h : list A) (pos : nat) : exc (list A) :=
  match fuel with
  | 0 => Ok h
  | S fuel =>
      match pos with
      | 0 => Ok h
      | _ =>
          match h !! pos, h !! parent pos with
          | Some newitem, Some par =>
              let* lt := cmp newitem par in
              if lt then siftdown fuel (swap pos (parent pos) h) (parent pos)
              else Ok h
          | _, _ => Raise (PyExn IndexError "list index out of range")
          end
      end
  end.

(** [_siftup(heap, pos)]: move the smaller child up until a leaf is reached,
    then sift the item down from there. *)
Fixpoint siftup (fuel : nat) (h : list A) (pos : nat) : exc (list A) :=
  let endpos := length h in
  if decide (pos < endpos / 2) then
    match fuel with
    | 0 => Ok h
    | S fuel =>
        let childpos := 2 * pos + 1 in
        match h !! childpos, h !! (childpos + 1) with
        | Some l, Some r =>
            let* lt := cmp l r in
            let c := if lt then childpos else childpos + 1 in
            siftup fuel (swap pos c h) c
        | Some _, None => siftup fuel (swap pos childpos h) childpos
        | None, _ => Raise (PyExn IndexError "list index out of range")
        end
    end
  else siftdown (length h) h pos.

Definition heappush (h : list A) (item : A) : exc (list A) :=
  let h' := h ++ [item] in
  siftdown (length h') h' (length h).

Definition heappop (h : list A) : exc (A * list A) :=
  match last h with
  | None => Raise (PyExn IndexError "index out of range")
  | Some lastelt =>
      let h' := take (length h - 1) h in
      match h' with
      | [] => Ok (lastelt, [])
      | returnitem :: rest =>
          let* h'' := siftup (length h) (lastelt :: rest) 0 in
          Ok (returnitem, h'')
      end
  end.

End heapq.

(** ** Exchanging positions *)

Section swap_facts.
  Context {A : Type}.
  Implicit Types h : list A.

Lemma length_swap i j h : length (swap i j h) = length h.
Proof. unfold swap. repeat case_match; by rewrite ?length_insert. Qed.

Lemma lookup_swap i j h k a b :
  h !! i = Some a → h !! j = Some b →
  swap i j h !! k = if decide (k = i) then Some b
                    else if decide (k = j) then Some a else h !! k.
Proof.
  intros Hi Hj. unfold swap. rewrite Hi, Hj.
  pose proof (lookup_lt_Some _ _ _ Hi). pose proof (lookup_lt_Some _ _ _ Hj).
  destruct (decide (k = i)) as [->|].
  { rewrite list_lookup_insert_eq; [done|]. by rewrite length_insert. }
  rewrite list_lookup_insert_ne by done.
  destruct (decide (k = j)) as [->|]; [by rewrite list_lookup_insert_eq|].
  by rewrite list_lookup_insert_ne.
Qed.

Lemma swap_perm i j h : swap i j h ≡ₚ h.
Proof.
  destruct (h !! i) as [a|] eqn:Hi; [|by unfold swap; rewrite Hi].
  destruct (h !! j) as [b|] eqn:Hj; [|by unfold swap; rewrite Hi, Hj].
  apply Permutation_inj. split; [apply length_swap|].
  exists (λ k, if decide (k = i) then j else if decide (k = j) then i else k).
  split.
  - intros k1 k2. repeat case_decide; congruence.
  - intros k. rewrite (lookup_swap _ _ _ _ a b) by done.
    repeat case_decide; simplify_eq; by rewrite ?Hi, ?Hj.
Qed.

End swap_facts.

(** ** Exceptions of the comparison *)

Section heapq_raises.
  Context {A : Type} (cmp : A → A → exc bool) (P : exn → Prop).

(** Moving an item towards the root raises only what comparing it with another
    item raises. *)
Lemma siftdown_raises fuel : ∀ h pos x e,
  NoDup h → h !! pos = Some x →
  (∀ y e', y ∈ h → y ≠ x → cmp x y = Raise e' → P e') →
  siftdown cmp fuel h pos = Raise e → P e.
Proof.
  induction fuel as [|fuel IH]; intros h pos x e Hnd Hx Hcmp; simpl; [done|].
  destruct pos as [|pos]; [done|]. rewrite Hx.
  assert (parent (S pos) < S pos) as Hlt by (unfold parent; lia).
  destruct (lookup_lt_is_Some_2 h (parent (S pos))) as [y Hy].
  { apply lookup_lt_Some in Hx. lia. }
  rewrite Hy.
  assert (y ≠ x) as Hne.
  { intros ->. pose proof (NoDup_lookup _ _ _ _ Hnd Hx Hy). lia. }
  destruct (cmp x y) as [b|e'] eqn:Hc; simpl.
  - destruct b; [|done]. apply IH with (x := x).
    + by rewrite swap_perm.
    + rewrite (lookup_swap _ _ _ _ x y) by done. rewrite decide_False by lia. by rewrite decide_True.
    + intros z e'. rewrite swap_perm. apply Hcmp.
  - intros [= <-]. eapply Hcmp; [|done|done]. by eapply list_elem_of_lookup_2.
Qed.

Lemma heappush_raises h x e :
  NoDup h → (x ∉ h) → (∀ y e', y ∈ h → cmp x y = Raise e' → P e') →
  heappush cmp h x = Raise e → P e.
Proof.
  intros Hnd Hx Hcmp. unfold heappush. apply siftdown_raises with (x := x).
  - apply NoDup_app. split_and!; [done|set_solver|apply NoDup_singleton].
  - rewrite lookup_app_r by lia. by rewrite Nat.sub_diag.
  - intros y e' [?| ->%list_elem_of_singleton]%elem_of_app; [|done]. eauto.
Qed.
End heapq_raises.

(** ** Correctness, relative to the order the comparison computes *)

Section heapq_correct.
  Context {A : Type} (cmp : A → A → exc bool) (lt : A → A → bool).
  Context `{!StrictWeakOrder lt}.

(** The comparison does not raise on two distinct positions of [h]. *)
Definition comparable (h : list A) : Prop :=
  ∀ i j a b, i ≠ j → h !! i = Some a → h !! j = Some b →
    cmp a b = Ok (lt a b).

(** The heap property: no item is smaller than its parent. *)
Definition heap_ok (h : list A) : Prop :=
  ∀ i a b, 0 < i → h !! i = Some a → h !! parent i = Some b → lt a b = false.

(** The heap property except for the edge above [pos], with the items below
    [pos] not smaller than the one above it. *)
Definition heap_but_up (h : list A) (pos : nat) : Prop :=
  (∀ i a b, 0 < i → i ≠ pos → h !! i = Some a → h !! parent i = Some b →
     lt a b = false) ∧
  (0 < pos → ∀ i a b, 0 < i → parent i = pos → h !! i = Some a →
     h !! parent pos = Some b → lt a b = false).

(** The same, with the edges below [pos] left out as well. *)
Definition heap_but_hole (h : list A) (pos : nat) : Prop :=
  (∀ i a b, 0 < i → i ≠ pos → parent i ≠ pos → h !! i = Some a →
     h !! parent i = Some b → lt a b = false) ∧
  (0 < pos → ∀ i a b, 0 < i → parent i = pos → h !! i = Some a →
     h !! parent pos = Some b → lt a b = false).

Lemma cmp_irrefl a : lt a a = false.
Proof. destruct (lt a a) eqn:E; [|done]. by rewrite (lt_asym a a E) in E. Qed.

Lemma comparable_perm h h' : h ≡ₚ h' → comparable h → comparable h'.
Proof.
  intros [_ (f & Hinj & Hf)]%symmetry%Permutation_inj Hc i j a b Hij Ha Hb.
  rewrite Hf in Ha, Hb. eapply (Hc (f i) (f j)); [|done..].
  intros He. by apply Hij, Hinj.
Qed.

Lemma comparable_cons x h : comparable (x :: h) → comparable h.
Proof. intros Hc i j a b Hij Ha Hb. eapply (Hc (S i) (S j)); [lia|done..]. Qed.

Lemma heap_but_up_swap h pos x p :
  0 < pos → h !! pos = Some x → h !! parent pos = Some p → lt x p = true →
  heap_but_up h pos → heap_but_up (swap pos (parent pos) h) (parent pos).
Proof.
  intros Hpos Hx Hp Hlt [Hh Hg].
  assert (parent pos < pos) by (unfold parent; lia).
  split; [|intros Hpp]; intros i a b Hi Hne;
    rewrite !(lookup_swap _ _ _ _ x p) by done.
  - repeat (let H := fresh "Hd" in case_decide as H); intros; simplify_eq; try lia; eauto 2 using lt_asym.
    eapply ge_trans; [apply lt_asym, Hlt|].
    eapply (Hh i); [done..|]. congruence.
  - assert (parent (parent pos) < parent pos) by (unfold parent in *; lia).
    assert (∀ b, h !! parent (parent pos) = Some b → lt p b = false) as Hpb.
    { intros b' ?. by eapply (Hh (parent pos)); [done|lia|..]. }
    repeat case_decide; intros; simplify_eq; try lia; eauto 2 using lt_asym.
    eapply ge_trans; [by apply Hpb|].
    eapply (Hh i); [done| |done|congruence]. lia.
Qed.

Lemma siftdown_correct fuel h pos :
  comparable h → heap_but_up h pos → pos < length h → pos ≤ fuel →
  ∃ h', siftdown cmp fuel h pos = Ok h' ∧ h' ≡ₚ h ∧ heap_ok h'.
Proof.
  revert h pos. induction fuel as [|fuel IH]; intros h pos Hc Hb Hl Hf.
  { assert (pos = 0) as -> by lia. exists h. split_and!; [done..|].
    intros i a b ?; apply (proj1 Hb); lia. }
  destruct pos as [|pos'] eqn:Epos.
  { exists h. split_and!; [done..|]. intros i a b ?; apply (proj1 Hb); lia. }
  rewrite <-Epos in *. assert (0 < pos) as Hpos by lia.
  assert (parent pos < pos) as Hpar by (unfold parent; lia).
  destruct (lookup_lt_is_Some_2 h pos) as [x Hx]; [lia|].
  destruct (lookup_lt_is_Some_2 h (parent pos)) as [p Hp]; [lia|].
  cbn [siftdown]. rewrite Epos. cbn iota beta. rewrite <-Epos, Hx, Hp.
  rewrite (Hc pos (parent pos)) by (done || lia). simpl.
  destruct (lt x p) eqn:Hlt.
  - destruct (IH (swap pos (parent pos) h) (parent pos)) as (h' & -> & Hperm & ?).
    + eapply comparable_perm; [symmetry; apply swap_perm|done].
    + by eapply heap_but_up_swap.
    + rewrite length_swap. lia.
    + lia.
    + exists h'. split_and!; [done| |done]. by rewrite Hperm, swap_perm.
  - exists h. split_and!; [done..|]. intros i a b Hi Ha Hpa.
    destruct (decide (i = pos)) as [->|]; [congruence|].
    by eapply (proj1 Hb).
Qed.

Lemma heap_but_hole_leaf h pos :
  length h / 2 ≤ pos → heap_but_hole h pos → heap_but_up h pos.
Proof.
  intros Hl [Hh Hg]. split; [|done]. intros i a b Hi Hne Ha Hb.
  apply (Hh i a b); try done. intros Hp.
  pose proof (lookup_lt_Some _ _ _ Ha). unfold parent in Hp. lia.
Qed.

(** Moving the smaller child [c] of [pos] up. *)
Lemma heap_but_hole_swap h pos c x y :
  0 < c → parent c = pos → h !! pos = Some x → h !! c = Some y →
  (∀ i a, 0 < i → parent i = pos → h !! i = Some a → lt a y = false) →
  heap_but_hole h pos → heap_but_hole (swap pos c h) c.
Proof.
  intros Hc Hpc Hx Hy Hmin [Hh Hg].
  split; [|intros _]; intros i a b Hi;
    [intros Hne Hne2|intros Hp]; rewrite !(lookup_swap _ _ _ _ x y) by done.
  - repeat case_decide; intros; simplify_eq; unfold parent in *; try lia.
    + by eapply Hg; [lia|exact Hc|..].
    + by eapply (Hmin i).
    + eapply (Hh i); [done| |lia|done|done]. done.
  - repeat case_decide; intros; simplify_eq; unfold parent in *; try lia.
    eapply (Hh i); [done|lia|lia|done|]. by rewrite Hy.
Qed.

Lemma siftup_correct fuel h pos :
  comparable h → heap_but_hole h pos → pos < length h →
  length h ≤ fuel + pos →
  ∃ h', siftup cmp fuel h pos = Ok h' ∧ h' ≡ₚ h ∧ heap_ok h'.
Proof.
  revert h pos. induction fuel as [|fuel IH]; intros h pos Hc Hb Hl Hf; [lia|].
  cbn [siftup]. case_decide as Hleaf; cycle 1.
  { apply siftdown_correct; [done| |done|lia].
    apply heap_but_hole_leaf; [lia|done]. }
  destruct (lookup_lt_is_Some_2 h pos) as [x Hx]; [lia|].
  destruct (lookup_lt_is_Some_2 h (2 * pos + 1)) as [l Hl1]; [lia|].
  rewrite Hl1.
  assert (∀ c y, (c = 2 * pos + 1 ∨ c = 2 * pos + 2) → h !! c = Some y →
    (∀ i a, 0 < i → parent i = pos → h !! i = Some a → lt a y = false) →
    ∃ h', siftup cmp fuel (swap pos c h) c = Ok h' ∧ h' ≡ₚ h ∧ heap_ok h')
    as Hgo.
  { intros c y Hcc Hy Hmin. pose proof (lookup_lt_Some _ _ _ Hy).
    assert (parent c = pos) by (unfold parent; lia).
    destruct (IH (swap pos c h) c) as (h' & -> & Hperm & ?).
    - eapply comparable_perm; [symmetry; apply swap_perm|done].
    - eapply heap_but_hole_swap; [lia|done..].
    - by rewrite length_swap.
    - rewrite length_swap. lia.
    - exists h'. split_and!; [done| |done]. by rewrite Hperm, swap_perm. }
  destruct (h !! (2 * pos + 1 + 1)) as [r|] eqn:Hr1.
  - rewrite (Hc (2 * pos + 1) (2 * pos + 1 + 1)) by (done || lia). simpl.
    assert (∀ i a, 0 < i → parent i = pos → h !! i = Some a → a = l ∨ a = r)
      as Hch.
    { intros i a Hi Hp Ha. unfold parent in Hp.
      assert (i = 2 * pos + 1 ∨ i = 2 * pos + 1 + 1) as [->| ->] by lia;
        naive_solver. }
    destruct (lt l r) eqn:Hlr.
    + eapply Hgo; [by left|done|]. intros i a ? ? [->| ->]%(Hch i a); try done.
      * apply cmp_irrefl.
      * by apply lt_asym.
    + eapply Hgo; [lia|done|]. intros i a ? ? [->| ->]%(Hch i a); try done.
      apply cmp_irrefl.
  - eapply Hgo; [by left|done|]. intros i a Hi Hp Ha.
    unfold parent in Hp. pose proof (lookup_lt_Some _ _ _ Ha).
    apply lookup_ge_None_1 in Hr1.
    assert (i = 2 * pos + 1) as -> by lia. simplify_eq. apply cmp_irrefl.
Qed.

Lemma heappush_correct h item :
  comparable (h ++ [item]) → heap_ok h →
  ∃ h', heappush cmp h item = Ok h' ∧ h' ≡ₚ item :: h ∧ heap_ok h'.
Proof.
  intros Hc Hh. unfold heappush.
  destruct (siftdown_correct (length (h ++ [item])) (h ++ [item]) (length h))
    as (h' & -> & Hp & ?); [done| |rewrite length_app; simpl; lia..|].
  - assert (∀ i, parent i ≤ i) as Hpi by (unfold parent; lia).
    split.
    + intros i a b Hi Hne Ha. pose proof (lookup_lt_Some _ _ _ Ha) as Hl.
      rewrite length_app in Hl. simpl in Hl. specialize (Hpi i).
      rewrite lookup_app_l in Ha by lia. rewrite lookup_app_l by lia.
      by eapply Hh.
    + intros _ i a b ? Hpa Ha. pose proof (lookup_lt_Some _ _ _ Ha) as Hl.
      rewrite length_app in Hl. simpl in Hl. unfold parent in Hpa. lia.
  - exists h'. split_and!; [done| |done].
    rewrite Hp. symmetry. apply Permutation_cons_append.
Qed.

Lemma heap_ok_root h r x : heap_ok h → h !! 0 = Some r → x ∈ h → lt x r = false.
Proof.
  clear cmp. intros Hh Hr [i Hi]%list_elem_of_lookup. revert x Hi.
  induction (Wf_nat.lt_wf i) as [i _ IH]; intros x Hi.
  destruct (decide (i = 0)) as [->|]; [simplify_eq; by apply cmp_irrefl|].
  assert (parent i < i) as Hp by (unfold parent; lia).
  pose proof (lookup_lt_Some _ _ _ Hi).
  destruct (lookup_lt_is_Some_2 h (parent i)) as [p Hpi]; [lia|].
  eapply ge_trans; [by eapply (IH (parent i))|]. by eapply (Hh i); [lia|..].
Qed.

Lemma heap_ok_take n h : heap_ok h → heap_ok (take n h).
Proof.
  intros Hh i a b Hi Ha%lookup_take_Some Hb%lookup_take_Some.
  by eapply Hh; [..|apply Ha|apply Hb].
Qed.

Lemma heappop_correct h :
  comparable h → heap_ok h → h ≠ [] →
  ∃ x h', heappop cmp h = Ok (x, h') ∧ h ≡ₚ x :: h' ∧ heap_ok h' ∧
          h !! 0 = Some x ∧ ∀ y, y ∈ h → lt y x = false.
Proof.
  intros Hc Hh Hne. unfold heappop.
  destruct (exists_last Hne) as (front & l & ->).
  rewrite last_snoc, length_app. simpl.
  replace (length front + 1 - 1) with (length front) by lia.
  rewrite take_app_length.
  destruct front as [|x rest].
  { exists l, []. split_and!; [done..|intros i a b ? Ha; by rewrite lookup_nil in Ha|done|].
    intros y ->%list_elem_of_singleton. by apply cmp_irrefl. }
  assert ((x :: rest) ++ [l] ≡ₚ x :: l :: rest) as Hpm.
  { simpl. by rewrite <-Permutation_cons_append. }
  destruct (siftup_correct (length (x :: rest) + 1) (l :: rest) 0)
    as (h' & -> & Hp & Hh').
  - eapply comparable_cons, comparable_perm; [exact Hpm|done].
  - split; [|lia]. intros i a b Hi ? Hne0 Ha Hb.
    apply (heap_ok_take (length (x :: rest))) in Hh.
    rewrite take_app_length in Hh.
    destruct i as [|i]; [lia|]. destruct (parent (S i)) eqn:Hpi; [lia|].
    apply (Hh (S i)); [done..|by rewrite Hpi].
  - simpl; lia.
  - simpl; lia.
  - exists x, h'. split_and!; [done|by rewrite Hpm, Hp|done|done|].
    intros y. by apply heap_ok_root.
Qed.

End heapq_correct.
