(* ===== verification/Condition.v ===== *)
(** * Pipe-based conditions (src/lib/locking.py, first part)

    [_SingleNotifyPipeConditionWaiter], [SingleNotifyPipeCondition] and
    [PipeCondition]: a waiter polls the read end of a pipe, notification closes
    the write end, the last waiter to leave closes what is still open.  The
    condition objects and the pipe ends live in one store ([cenv]) because a
    waiter keeps a reference to the single-use condition it started on while
    the [PipeCondition] moves on to a new one.

    [wait] blocks, so it is split where it releases the internal lock:
    [wait_begin] is the code before the poll, [wait_end] the code after it.
    Both, and [notify_all], run with the internal lock held.

    The invariant [cond_inv w e] relates the store to the map [w] of threads
    that are inside [wait]; it is what [SharedLock] relies on. *)

From S2P Require Import Prelude Errors.

(** A thread, a condition and a single-use condition, by identity. *)
Notation tid := nat (only parsing).
Notation cid := nat (only parsing).
Notation sid := nat (only parsing).

(** A pipe has two ends; a descriptor names one end of one pipe. *)
Inductive pipe_end := RD | WR.

#[export] Instance pipe_end_eq_dec : EqDecision pipe_end.
Proof. solve_decision. Defined.
#[export] Instance pipe_end_countable : Countable pipe_end.
Proof.
  refine (inj_countable' (λ e, match e with RD => false | WR => true end)
                         (λ b, if b then WR else RD) _).
  by intros [].
Defined.

Notation fd := (nat * pipe_end)%type.

(** [SingleNotifyPipeCondition]: its slots. *)
Record snpc := SNPC {
  sn_nwaiters : Z;
  sn_notified : bool;
  sn_read_fd : option fd;
  sn_write_fd : option fd
}.

(** [_PipeConditionWithMode]: its slots. *)
Record pcond := PCond {
  c_shared : bool;
  c_waiters : gset tid;
  c_single : sid
}.

(** The store: open descriptors, single-use conditions, conditions. *)
Record cenv := CEnv {
  e_open : gset fd;
  e_next_pipe : nat;
  e_singles : gmap sid snpc;
  e_next_single : nat;
  e_conds : gmap cid pcond;
  e_next_cond : nat
}.

Definition empty_cenv : cenv := CEnv ∅ 0 ∅ 0 ∅ 0.

Definition set_open (o : gset fd) (e : cenv) : cenv :=
  CEnv o (e_next_pipe e) (e_singles e) (e_next_single e) (e_conds e) (e_next_cond e).
Definition set_single (s : sid) (sn : snpc) (e : cenv) : cenv :=
  CEnv (e_open e) (e_next_pipe e) (<[s := sn]> (e_singles e)) (e_next_single e)
       (e_conds e) (e_next_cond e).
Definition set_cond (c : cid) (cd : pcond) (e : cenv) : cenv :=
  CEnv (e_open e) (e_next_pipe e) (e_singles e) (e_next_single e)
       (<[c := cd]> (e_conds e)) (e_next_cond e).

(** ** Operating system calls *)

(** [os.pipe()]; the pipe number is one never used before. *)
Definition os_pipe (e : cenv) : cenv * (fd * fd) :=
  let n := e_next_pipe e in
  (CEnv ({[(n, RD); (n, WR)]} ∪ e_open e) (S n) (e_singles e) (e_next_single e)
        (e_conds e) (e_next_cond e),
   ((n, RD), (n, WR))).

(** [os.close(fd)] *)
Definition os_close (f : fd) (e : cenv) : exc cenv :=
  if decide (f ∈ e_open e) then Ok (set_open (e_open e ∖ {[f]}) e)
  else Raise (PyExn EnvironmentError "Bad file descriptor").

(** Whether [poll] reports [POLLHUP] for the read end of a pipe: its write end
    is no longer open. *)
Definition pollhup (f : fd) (e : cenv) : bool := bool_decide ((f.1, WR) ∉ e_open e).

(** ** SingleNotifyPipeCondition *)

Definition lookup_single (s : sid) (e : cenv) : exc snpc :=
  match e_singles e !! s with
  | Some sn => Ok sn
  | None => Raise (PyExn AttributeError "no such condition")
  end.

Definition lookup_cond (c : cid) (e : cenv) : exc pcond :=
  match e_conds e !! c with
  | Some cd => Ok cd
  | None => Raise (PyExn AttributeError "no such condition")
  end.

(** [SingleNotifyPipeCondition.__init__] *)
Definition new_single (e : cenv) : cenv * sid :=
  let s := e_next_single e in
  (CEnv (e_open e) (e_next_pipe e)
        (<[s := SNPC 0 false None None]> (e_singles e)) (S s)
        (e_conds e) (e_next_cond e), s).

Definition check_unnotified (sn : snpc) : exc unit :=
  if sn_notified sn
  then Raise (PyExn RuntimeError "cannot use already notified condition")
  else Ok tt.

(** [_Cleanup] *)
Definition Cleanup (s : sid) (e : cenv) : exc cenv :=
  let* sn := lookup_single s e in
  let* e := match sn_read_fd sn with
            | Some f => os_close f e
            | None => Ok e
            end in
  let* e := match sn_write_fd sn with
            | Some f => os_close f e
            | None => Ok e
            end in
  Ok (set_single s (SNPC (sn_nwaiters sn) (sn_notified sn) None None) e).

(** [wait] up to the poll. *)
Definition single_wait_begin (s : sid) (e : cenv) : exc cenv :=
  let* sn := lookup_single s e in
  do* check_unnotified sn in
  let nw := (sn_nwaiters sn + 1)%Z in
  match sn_read_fd sn with
  | Some _ => Ok (set_single s (SNPC nw (sn_notified sn) (sn_read_fd sn)
                                     (sn_write_fd sn)) e)
  | None =>
      let '(e, (r, w)) := os_pipe e in
      Ok (set_single s (SNPC nw (sn_notified sn) (Some r) (Some w)) e)
  end.

(** [wait] after the poll, in its outer [finally]. *)
Definition single_wait_end (s : sid) (e : cenv) : exc cenv :=
  let* sn := lookup_single s e in
  let nw := (sn_nwaiters sn - 1)%Z in
  let e := set_single s (SNPC nw (sn_notified sn) (sn_read_fd sn)
                              (sn_write_fd sn)) e in
  if decide (nw = 0%Z) then Cleanup s e else Ok e.

(** [notify_all] *)
Definition single_notify_all (s : sid) (e : cenv) : exc cenv :=
  let* sn := lookup_single s e in
  do* check_unnotified sn in
  match sn_write_fd sn with
  | Some f =>
      let* e := os_close f e in
      Ok (set_single s (SNPC (sn_nwaiters sn) true (sn_read_fd sn) None) e)
  | None =>
      Ok (set_single s (SNPC (sn_nwaiters sn) true (sn_read_fd sn) None) e)
  end.

(** Whether the poll in [_SingleNotifyPipeConditionWaiter.__call__] has seen
    the notification. *)
Definition waiter_notified (s : sid) (e : cenv) : bool :=
  match e_singles e !! s with
  | Some sn => match sn_read_fd sn with Some f => pollhup f e | None => false end
  | None => false
  end.

(** ** PipeCondition *)

(** [_PipeConditionWithMode.__init__] *)
Definition new_cond (shared : bool) (e : cenv) : cenv * cid :=
  let '(e, s) := new_single e in
  let c := e_next_cond e in
  (CEnv (e_open e) (e_next_pipe e) (e_singles e) (e_next_single e)
        (<[c := PCond shared ∅ s]> (e_conds e)) (S c), c).

(** [wait] up to the poll; the result names the single-use condition the
    thread keeps a reference to. *)
Definition wait_begin (t : tid) (c : cid) (e : cenv) : exc (cenv * sid) :=
  let* cd := lookup_cond c e in
  let s := c_single cd in
  let e := set_cond c (PCond (c_shared cd) ({[t]} ∪ c_waiters cd) s) e in
  let* e := single_wait_begin s e in
  Ok (e, s).

(** [wait] after the poll. *)
Definition wait_end (t : tid) (c : cid) (s : sid) (e : cenv) : exc cenv :=
  let* e := single_wait_end s e in
  let* cd := lookup_cond c e in
  if decide (t ∈ c_waiters cd)
  then Ok (set_cond c (PCond (c_shared cd) (c_waiters cd ∖ {[t]}) (c_single cd)) e)
  else Raise (PyExn KeyError "").

Definition notify_all (c : cid) (e : cenv) : exc cenv :=
  let* cd := lookup_cond c e in
  let* e := single_notify_all (c_single cd) e in
  let '(e, s) := new_single e in
  Ok (set_cond c (PCond (c_shared cd) (c_waiters cd) s) e).

Definition has_waiting (c : cid) (e : cenv) : exc bool :=
  let* cd := lookup_cond c e in
  Ok (bool_decide (c_waiters cd ≠ ∅)).

Definition get_waiting (c : cid) (e : cenv) : exc (gset tid) :=
  let* cd := lookup_cond c e in
  Ok (c_waiters cd).

(** ** The invariant *)

(** How many threads of [w] wait on the single-use condition [s]. *)
Definition waiting_on (w : gmap tid (cid * sid)) (s : sid) : nat :=
  size (filter (λ x : tid * (cid * sid), x.2.2 = s) w).

(** The counter counts the waiters, the pipe exists exactly while there are
    any, and its write end is open exactly until the notification. *)
Definition single_ok (k : nat) (o : gset fd) (sn : snpc) : Prop :=
  sn_nwaiters sn = Z.of_nat k ∧
  match k with
  | 0 => sn_read_fd sn = None ∧ sn_write_fd sn = None
  | S _ => ∃ n, sn_read_fd sn = Some (n, RD) ∧ (n, RD) ∈ o ∧
      if sn_notified sn then sn_write_fd sn = None ∧ (n, WR) ∉ o
      else sn_write_fd sn = Some (n, WR) ∧ (n, WR) ∈ o
  end.

(** Descriptors: every open one belongs to exactly one condition. *)
Record fd_inv (w : gmap tid (cid * sid)) (e : cenv) : Prop := {
  fi_single : ∀ s sn, e_singles e !! s = Some sn →
    single_ok (waiting_on w s) (e_open e) sn;
  fi_open : ∀ n b, (n, b) ∈ e_open e →
    ∃ s sn, e_singles e !! s = Some sn ∧ sn_read_fd sn = Some (n, RD);
  fi_inj : ∀ s1 s2 sn1 sn2 n, e_singles e !! s1 = Some sn1 →
    e_singles e !! s2 = Some sn2 → sn_read_fd sn1 = Some (n, RD) →
    sn_read_fd sn2 = Some (n, RD) → s1 = s2;
  fi_fresh : ∀ n b, (n, b) ∈ e_open e → n < e_next_pipe e
}.

(** Conditions: the current single-use condition of each is its own and not yet
    notified, the waiters are the threads of [w], and a thread whose
    single-use condition is not notified waits on the current one. *)
Record cond_inv (w : gmap tid (cid * sid)) (e : cenv) : Prop := {
  ci_fd : fd_inv w e;
  ci_single : ∀ c cd, e_conds e !! c = Some cd →
    ∃ sn, e_singles e !! c_single cd = Some sn ∧ sn_notified sn = false;
  ci_single_inj : ∀ c1 c2 cd1 cd2, e_conds e !! c1 = Some cd1 →
    e_conds e !! c2 = Some cd2 → c_single cd1 = c_single cd2 → c1 = c2;
  ci_waiters : ∀ c cd t, e_conds e !! c = Some cd →
    t ∈ c_waiters cd ↔ ∃ s, w !! t = Some (c, s);
  ci_waiting : ∀ t c s, w !! t = Some (c, s) →
    ∃ cd sn, e_conds e !! c = Some cd ∧ e_singles e !! s = Some sn ∧
             (sn_notified sn = false → c_single cd = s);
  ci_fresh_single : ∀ s sn, e_singles e !! s = Some sn → s < e_next_single e;
  ci_fresh_cond : ∀ c cd, e_conds e !! c = Some cd → c < e_next_cond e
}.

(** Whether a single-use condition has been notified. *)
Definition notified (e : cenv) (s : sid) : bool :=
  match e_singles e !! s with Some sn => sn_notified sn | None => false end.

Lemma waiting_on_insert w t c s s' :
  w !! t = None →
  waiting_on (<[t := (c, s)]> w) s'
  = if decide (s = s') then S (waiting_on w s') else waiting_on w s'.
Proof.
  intros Ht. unfold waiting_on. case_decide as Hs.
  - rewrite map_filter_insert_True by done.
    rewrite map_size_insert_None; [done|].
    apply map_lookup_filter_None. by left.
  - rewrite map_filter_insert_False by done. by rewrite delete_id.
Qed.

Lemma waiting_on_delete w t c s s' :
  w !! t = Some (c, s) →
  waiting_on (delete t w) s'
  = if decide (s = s') then waiting_on w s' - 1 else waiting_on w s'.
Proof.
  intros Ht. unfold waiting_on. rewrite map_filter_delete. case_decide as Hs.
  - rewrite map_size_delete_Some; [lia|].
    eexists. apply map_lookup_filter_Some. by split.
  - rewrite delete_id; [done|]. apply map_lookup_filter_None. right.
    intros x. naive_solver.
Qed.

Lemma waiting_on_pos w t c s : w !! t = Some (c, s) → 0 < waiting_on w s.
Proof.
  intros Ht. unfold waiting_on.
  destruct (decide (size (filter (λ x : tid * (cid * sid), x.2.2 = s) w) = 0))
    as [Hz|]; [|lia].
  apply map_size_empty_inv in Hz. 
  assert (filter (λ x : tid * (cid * sid), x.2.2 = s) w !! t = Some (c, s)) as Hl
    by (by apply map_lookup_filter_Some).
  by rewrite Hz, lookup_empty in Hl.
Qed.

Lemma cond_inv_empty : cond_inv ∅ empty_cenv.
Proof.
  split; [split|..]; simpl; intros *; rewrite ?lookup_empty; set_solver.
Qed.

(** Waiters see the notification: what the poll reports for a waiting thread is
    whether its single-use condition has been notified. *)
Lemma waiter_notified_spec w e t c s :
  cond_inv w e → w !! t = Some (c, s) → waiter_notified s e = notified e s.
Proof.
  intros Hi Hw. unfold waiter_notified, notified, pollhup.
  destruct (ci_waiting _ _ Hi _ _ _ Hw) as (cd & sn & _ & Hs & _). rewrite Hs.
  pose proof (waiting_on_pos _ _ _ _ Hw).
  destruct (fi_single _ _ (ci_fd _ _ Hi) _ _ Hs) as [_ Hk].
  destruct (waiting_on w s) as [|k]; [lia|]. destruct Hk as (n & -> & _ & Hk). simpl.
  destruct (sn_notified sn); destruct Hk as [_ Hk];
    [by apply bool_decide_eq_true|]. by apply bool_decide_eq_false; intros [].
Qed.

(** The part of the store the single-use operations leave alone. *)
Definition single_step (s : sid) (sn' : snpc) (e e' : cenv) : Prop :=
  e_singles e' = <[s := sn']> (e_singles e) ∧ e_conds e' = e_conds e ∧
  e_next_single e' = e_next_single e ∧ e_next_cond e' = e_next_cond e.

Lemma single_ok_mono k o o' sn :
  (∀ n b, sn_read_fd sn = Some (n, RD) → (n, b) ∈ o' ↔ (n, b) ∈ o) →
  single_ok k o sn → single_ok k o' sn.
Proof.
  intros Ho [? Hk]. split; [done|]. destruct k as [|k]; [done|].
  destruct Hk as (n & Hr & ? & Hk). exists n.
  destruct (sn_notified sn); rewrite !(Ho n) by done; done.
Qed.

(** Replacing one single-use condition whose pipe keeps its number. *)
Lemma fd_inv_update w w' e e' s sn sn' :
  fd_inv w e → e_singles e !! s = Some sn → single_step s sn' e e' →
  e_next_pipe e' = e_next_pipe e →
  (∀ s', s' ≠ s → waiting_on w' s' = waiting_on w s') →
  (sn_read_fd sn' = sn_read_fd sn ∨ sn_read_fd sn' = None) →
  (∀ n b, (n, b) ∈ e_open e' → (n, b) ∈ e_open e ∧
     (sn_read_fd sn = Some (n, RD) → sn_read_fd sn' = Some (n, RD))) →
  (∀ n b, (n, b) ∈ e_open e → sn_read_fd sn ≠ Some (n, RD) →
     (n, b) ∈ e_open e') →
  single_ok (waiting_on w' s) (e_open e') sn' →
  fd_inv w' e'.
Proof.
  intros Hi Hs (Hss & _ & _ & _) Hnp Hw Hrd Ho1 Ho2 Hok. split.
  - intros s' sn''. rewrite Hss, lookup_insert.
    case_decide as Hd; [naive_solver|]. intros Hs''.
    rewrite Hw by done. eapply single_ok_mono; [|by eapply fi_single].
    intros n b Hr. split; [naive_solver|]. intros Hin. apply Ho2; [done|].
    intros Hr'. apply Hd. by eapply fi_inj.
  - intros n b Hin. destruct (Ho1 _ _ Hin) as [Hin0 Hr0].
    destruct (fi_open _ _ Hi _ _ Hin0) as (s0 & sn0 & Hs0 & Hr).
    rewrite Hss. destruct (decide (s = s0)) as [->|].
    + exists s0, sn'. rewrite lookup_insert_eq. naive_solver.
    + exists s0, sn0. by rewrite lookup_insert_ne.
  - intros s1 s2 sn1 sn2 n. rewrite Hss, !lookup_insert.
    pose proof (fi_inj _ _ Hi) as Hinj.
    repeat case_decide; intros; simplify_eq; try done.
    + eapply Hinj; [done..| |done]. destruct Hrd; congruence.
    + eapply Hinj; [done..|]. destruct Hrd; congruence.
    + by eapply Hinj.
  - intros n b [Hin _]%Ho1. rewrite Hnp. by eapply fi_fresh.
Qed.

(** A condition with waiters has an open pipe. *)
Lemma fd_inv_read w e s sn n :
  fd_inv w e → e_singles e !! s = Some sn → sn_read_fd sn = Some (n, RD) →
  n < e_next_pipe e.
Proof.
  intros Hi Hs Hr. destruct (fi_single _ _ Hi _ _ Hs) as [_ Hk].
  destruct (waiting_on w s) as [|k]; [destruct Hk; congruence|].
  destruct Hk as (n' & Hr' & Hin & _). simplify_eq. by eapply fi_fresh.
Qed.

(** The first waiter creates the pipe. *)
Lemma fd_inv_pipe w e t c s sn :
  fd_inv w e → e_singles e !! s = Some sn → w !! t = None →
  waiting_on w s = 0 →
  let n := e_next_pipe e in
  fd_inv (<[t := (c, s)]> w)
    (set_single s (SNPC 1 false (Some (n, RD)) (Some (n, WR))) (os_pipe e).1).
Proof.
  intros Hi Hs Ht Hz n.
  assert (∀ b, (n, b) ∉ e_open e) as Hfr.
  { intros b Hin%(fi_fresh _ _ Hi). unfold n in Hin. lia. }
  destruct (fi_single _ _ Hi _ _ Hs) as [_ Hk]. rewrite Hz in Hk.
  pose proof (λ s sn n, fd_inv_read w e s sn n Hi) as Hread. split; simpl.
  - intros s' sn'. rewrite lookup_insert, waiting_on_insert by done.
    case_decide; intros; simplify_eq.
    + rewrite Hz. split; simpl; [done|]. exists n. set_solver.
    + eapply single_ok_mono; [|by eapply fi_single].
      intros n' b Hr. eapply Hread in Hr; [|done..].
      rewrite elem_of_union, elem_of_union, !elem_of_singleton.
      unfold n. split; [|by right]. intros [[?|?]|?]; simplify_eq; [lia..|done].
  - intros n' b. rewrite !elem_of_union, !elem_of_singleton.
    intros [[?|?]|Hin]; simplify_eq;
      [eexists s, _; by rewrite lookup_insert_eq..|].
    destruct (fi_open _ _ Hi _ _ Hin) as (s0 & sn0 & Hs0 & Hr).
    exists s0, sn0. rewrite lookup_insert_ne; [done|]. intros ->.
    simplify_eq. destruct Hk; congruence.
  - intros s1 s2 sn1 sn2 n'. rewrite !lookup_insert.
    repeat case_decide; intros; simplify_eq/=; try done.
    + exfalso; eapply Nat.lt_irrefl, Hread; by eauto.
    + exfalso; eapply Nat.lt_irrefl, Hread; by eauto.
    + by eapply fi_inj.
  - intros n' b. rewrite !elem_of_union, !elem_of_singleton.
    intros [[?|?]|Hin%(fi_fresh _ _ Hi)]; simplify_eq; unfold n; lia.
Qed.

Lemma single_wait_begin_ok w e t c s sn :
  fd_inv w e → e_singles e !! s = Some sn → sn_notified sn = false →
  w !! t = None →
  ∃ e' sn', single_wait_begin s e = Ok e' ∧ single_step s sn' e e' ∧
            sn_notified sn' = false ∧ fd_inv (<[t := (c, s)]> w) e'.
Proof.
  intros Hi Hs Hn Ht. unfold single_wait_begin, lookup_single, check_unnotified.
  rewrite Hs. simpl. rewrite Hn. simpl.
  destruct (fi_single _ _ Hi _ _ Hs) as [Hnw Hk].
  destruct (waiting_on w s) as [|k] eqn:Ek.
  - destruct Hk as [-> Hwr]. eexists _, _. split; [done|]. rewrite Hnw.
    split; [by split_and!|]. split; [done|]. by eapply fd_inv_pipe.
  - destruct Hk as (n & Hr & Hin & Hk). rewrite Hr. rewrite Hn in Hk.
    eexists _, _. split; [done|]. split; [by split_and!|]. split; [done|].
    eapply fd_inv_update; [done..| | | | | |]; simpl; [done|..].
    + intros s' ?. rewrite waiting_on_insert by done. by rewrite decide_False.
    + left. by rewrite Hr.
    + naive_solver.
    + done.
    + rewrite waiting_on_insert, decide_True, Ek by done. split; simpl; [lia|].
      exists n. naive_solver.
Qed.

Lemma single_wait_end_ok w e t c s sn :
  fd_inv w e → e_singles e !! s = Some sn → w !! t = Some (c, s) →
  ∃ e' sn', single_wait_end s e = Ok e' ∧ single_step s sn' e e' ∧
            sn_notified sn' = sn_notified sn ∧ fd_inv (delete t w) e'.
Proof.
  intros Hi Hs Ht. unfold single_wait_end, lookup_single. rewrite Hs. simpl.
  pose proof (waiting_on_pos _ _ _ _ Ht) as Hpos.
  destruct (fi_single _ _ Hi _ _ Hs) as [Hnw Hk].
  destruct (waiting_on w s) as [|k] eqn:Ek; [lia|].
  destruct Hk as (n & Hr & Hin & Hk).
  assert (∀ s', s' ≠ s → waiting_on (delete t w) s' = waiting_on w s') as Hoth.
  { intros s' ?. rewrite (waiting_on_delete _ _ c s) by done. by rewrite decide_False. }
  assert (waiting_on (delete t w) s = k) as Hks.
  { rewrite (waiting_on_delete _ _ c s) by done. rewrite decide_True by done. lia. }
  case_decide as Hz.
  - assert (k = 0) as -> by lia.
    assert (∃ e', Cleanup s (set_single s (SNPC (sn_nwaiters sn - 1) (sn_notified sn)
                       (sn_read_fd sn) (sn_write_fd sn)) e) = Ok e' ∧
      single_step s (SNPC (sn_nwaiters sn - 1) (sn_notified sn) None None) e e' ∧
      e_next_pipe e' = e_next_pipe e ∧
      e_open e' = e_open e ∖ {[(n, RD); (n, WR)]})
      as (e' & -> & Hst & Hnp & Ho).
    { unfold Cleanup, lookup_single. simpl. rewrite lookup_insert_eq. simpl.
      rewrite Hr. unfold os_close at 1. simpl. rewrite decide_True by done. simpl.
      destruct (sn_notified sn); destruct Hk as [-> Hw]; simpl;
        [|unfold os_close; simpl; rewrite decide_True by set_solver; simpl].
      all: eexists; split; [done|]; unfold single_step; split_and!;
        simpl; [apply insert_insert_eq|done..|set_solver]. }
    eexists _, _. split; [done|]. split; [done|]. split; [done|].
    eapply fd_inv_update; [done..|by right| | |]; rewrite Ho.
    + intros n' []; rewrite Hr; set_solver.
    + intros n' b. rewrite Hr. set_solver.
    + rewrite Hks. split; simpl; [lia|done].
  - eexists _, _. split; [done|]. split; [by split_and!|]. split; [done|].
    eapply fd_inv_update; [done|done|by split_and!|done|done|by left|naive_solver|done|].
    rewrite Hks. split; simpl; [lia|].
    destruct k as [|k]; [lia|]. by exists n.
Qed.

Lemma single_notify_all_ok w e s sn :
  fd_inv w e → e_singles e !! s = Some sn → sn_notified sn = false →
  ∃ e' sn', single_notify_all s e = Ok e' ∧ single_step s sn' e e' ∧
            sn_notified sn' = true ∧ fd_inv w e'.
Proof.
  intros Hi Hs Hn. unfold single_notify_all, lookup_single, check_unnotified.
  rewrite Hs. simpl. rewrite Hn. simpl.
  destruct (fi_single _ _ Hi _ _ Hs) as [Hnw Hk].
  destruct (waiting_on w s) as [|k] eqn:Ek.
  - destruct Hk as [Hr ->]. eexists _, _. split; [done|].
    split; [by split_and!|]. split; [done|].
    eapply fd_inv_update; [done|done|by split_and!|done|done|by left|naive_solver|done|].
    rewrite Ek. by split.
  - destruct Hk as (n & Hr & Hin & Hk). rewrite Hn in Hk. destruct Hk as [-> Hw].
    unfold os_close. rewrite decide_True by done. simpl.
    eexists _, _. split; [done|]. split; [by split_and!|]. split; [done|].
    eapply fd_inv_update;
      [done|done|by split_and!|done|done|by left|set_solver| |]; simpl.
    + intros n' b ?. rewrite Hr. set_solver.
    + rewrite Ek. split; simpl; [done|]. exists n. set_solver.
Qed.

(** ** What the lock relies on *)

(** The mode a condition was created with. *)
Definition mode_of (e : cenv) (c : cid) : option bool := c_shared <$> e_conds e !! c.

Lemma notified_insert e e' s sn sn' :
  e_singles e !! s = Some sn → e_singles e' = <[s := sn']> (e_singles e) →
  sn_notified sn' = sn_notified sn → ∀ s', notified e' s' = notified e s'.
Proof.
  intros Hs He Hn s'. unfold notified. rewrite He, lookup_insert.
  case_decide; simplify_eq; [by rewrite Hs|done].
Qed.

Lemma mode_of_insert e e' c cd ws s :
  e_conds e !! c = Some cd →
  e_conds e' = <[c := PCond (c_shared cd) ws s]> (e_conds e) →
  ∀ c', mode_of e' c' = mode_of e c'.
Proof.
  intros Hc He c'. unfold mode_of. rewrite He, lookup_insert.
  case_decide; simplify_eq; [by rewrite Hc|done].
Qed.

Lemma wait_begin_ok w e t c :
  cond_inv w e → w !! t = None → is_Some (mode_of e c) →
  ∃ e' s, wait_begin t c e = Ok (e', s) ∧ cond_inv (<[t := (c, s)]> w) e' ∧
          (∀ c', mode_of e' c' = mode_of e c') ∧
          (∀ s', notified e' s' = notified e s').
Proof.
  intros Hi Ht [m Hm]. unfold mode_of in Hm.
  destruct (e_conds e !! c) as [cd|] eqn:Hc; [clear m Hm|done].
  destruct (ci_single _ _ Hi _ _ Hc) as (sn & Hs & Hn).
  unfold wait_begin, lookup_cond. rewrite Hc. simpl.
  set (e1 := set_cond c _ e).
  assert (fd_inv w e1) as Hfd by (destruct (ci_fd _ _ Hi); by split).
  destruct (single_wait_begin_ok w e1 t c (c_single cd) sn)
    as (e' & sn' & -> & (Hss & Hcc & Hns & Hnc) & Hn' & Hfd'); [done..|].
  eexists e', _. split; [done|]. split_and!.
  - split; [done|..]; rewrite ?Hss, ?Hcc, ?Hns, ?Hnc; unfold e1; simpl.
    + intros c' cd'. rewrite !lookup_insert.
      repeat case_decide; intros; simplify_eq/=; [by eauto..|].
      by eapply ci_single.
    + pose proof (ci_single_inj _ _ Hi) as Hinj. intros c1 c2 cd1 cd2.
      rewrite !lookup_insert. repeat case_decide; intros; simplify_eq/=; eauto.
    + pose proof (ci_waiters _ _ Hi) as Hw. intros c' cd' t'.
      rewrite !lookup_insert. repeat case_decide; intros; simplify_eq/=.
      * set_solver.
      * rewrite elem_of_union, elem_of_singleton, (Hw _ _ _ Hc). naive_solver.
      * rewrite (Hw c' cd') by done. rewrite Ht. naive_solver.
      * by apply Hw.
    + pose proof (ci_waiting _ _ Hi) as Hw. intros t' c' s'.
      rewrite !lookup_insert. repeat case_decide; intros Hw'; simplify_eq/=;
        try (by eauto 10); destruct (Hw _ _ _ Hw') as (? & ? & ? & ? & ?);
        naive_solver.
    + intros s' sn''. rewrite lookup_insert.
      case_decide; intros; simplify_eq; by eapply ci_fresh_single.
    + intros c' cd'. rewrite lookup_insert.
      case_decide; intros; simplify_eq; by eapply ci_fresh_cond.
  - eapply mode_of_insert; [done|]. by rewrite Hcc.
  - eapply (notified_insert e); [done..|]. by rewrite Hn', Hn.
Qed.

Lemma wait_end_ok w e t c s :
  cond_inv w e → w !! t = Some (c, s) →
  ∃ e', wait_end t c s e = Ok e' ∧ cond_inv (delete t w) e' ∧
        (∀ c', mode_of e' c' = mode_of e c') ∧
        (∀ s', notified e' s' = notified e s').
Proof.
  intros Hi Ht. destruct (ci_waiting _ _ Hi _ _ _ Ht) as (cd & sn & Hc & Hs & Hcs).
  unfold wait_end.
  destruct (single_wait_end_ok w e t c s sn)
    as (e1 & sn' & -> & (Hss & Hcc & Hns & Hnc) & Hn' & Hfd');
    [apply Hi|done..|]. simpl.
  unfold lookup_cond. rewrite Hcc, Hc. simpl.
  rewrite decide_True by (by apply (ci_waiters _ _ Hi _ _ _ Hc); eauto).
  eexists. split; [done|]. split_and!.
  - split; [destruct Hfd'; by split|..]; simpl; rewrite ?Hss, ?Hcc, ?Hns, ?Hnc.
    + intros c' cd'. rewrite !lookup_insert.
      repeat case_decide; intros; simplify_eq/=.
      * eexists; split; [done|]. destruct (ci_single _ _ Hi _ _ Hc) as (?&?&?).
        simplify_eq. congruence.
      * by eapply ci_single.
      * eexists; split; [done|].
        destruct (ci_single _ _ Hi c' cd') as (?&?&?); [done|].
        simplify_eq. congruence.
      * by eapply ci_single.
    + pose proof (ci_single_inj _ _ Hi) as Hinj. intros c1 c2 cd1 cd2.
      rewrite !lookup_insert. repeat case_decide; intros; simplify_eq/=; eauto.
    + pose proof (ci_waiters _ _ Hi) as Hw. intros c' cd' t'.
      rewrite lookup_insert, lookup_delete.
      repeat case_decide; intros; simplify_eq/=.
      * set_solver.
      * rewrite elem_of_difference, elem_of_singleton, (Hw _ _ _ Hc). naive_solver.
      * rewrite (Hw c' cd') by done. rewrite Ht. naive_solver.
      * by apply Hw.
    + pose proof (ci_waiting _ _ Hi) as Hw. intros t' c' s'.
      rewrite lookup_delete, !lookup_insert.
      repeat case_decide; intros Hw'; simplify_eq/=;
        destruct (Hw _ _ _ Hw') as (? & ? & ? & ? & ?); naive_solver congruence.
    + intros s' sn''. rewrite lookup_insert.
      case_decide; intros; simplify_eq; by eapply ci_fresh_single.
    + intros c' cd'. rewrite lookup_insert.
      case_decide; intros; simplify_eq; by eapply ci_fresh_cond.
  - eapply mode_of_insert; [done|]. simpl. by rewrite Hcc.
  - eapply (notified_insert e); [done| |done]. done.
Qed.

(** A fresh single-use condition. *)
Lemma fd_inv_new_single w e :
  fd_inv w e → (∀ t c s, w !! t = Some (c, s) → is_Some (e_singles e !! s)) →
  e_singles e !! e_next_single e = None → fd_inv w (new_single e).1.
Proof.
  intros Hi Hw Hfr.
  assert (waiting_on w (e_next_single e) = 0) as Hz.
  { unfold waiting_on. apply map_size_empty_iff, map_empty_filter_2.
    intros t [c s] Ht Hs. simpl in Hs. subst.
    destruct (Hw _ _ _ Ht) as [? Hs]. congruence. }
  split; simpl.
  - intros s sn. rewrite lookup_insert. case_decide; intros; simplify_eq.
    + by rewrite Hz.
    + by eapply fi_single.
  - intros n b (s & sn & Hs & Hr)%(fi_open _ _ Hi). exists s, sn.
    split; [|done]. by rewrite lookup_insert_ne by congruence.
  - intros s1 s2 sn1 sn2 n. rewrite !lookup_insert.
    repeat case_decide; intros; simplify_eq/=; try done. by eapply fi_inj.
  - apply Hi.
Qed.

Lemma ci_next_single w e :
  cond_inv w e → e_singles e !! e_next_single e = None.
Proof.
  intros Hi. destruct (e_singles e !! e_next_single e) eqn:E; [|done].
  apply (ci_fresh_single _ _ Hi) in E. lia.
Qed.

Lemma ci_next_cond w e : cond_inv w e → e_conds e !! e_next_cond e = None.
Proof.
  intros Hi. destruct (e_conds e !! e_next_cond e) eqn:E; [|done].
  apply (ci_fresh_cond _ _ Hi) in E. lia.
Qed.

Lemma new_cond_ok w e shared e' c :
  cond_inv w e → new_cond shared e = (e', c) →
  cond_inv w e' ∧ mode_of e c = None ∧
  (∀ c', mode_of e' c' = if decide (c = c') then Some shared else mode_of e c') ∧
  (∀ s', notified e' s' = notified e s').
Proof.
  intros Hi He. pose proof (ci_next_single _ _ Hi) as Hfs.
  pose proof (ci_next_cond _ _ Hi) as Hfc.
  unfold new_cond in He. simpl in He. simplify_eq. split_and!.
  - split; simpl.
    + assert (fd_inv w (new_single e).1) as [? ? ? ?]; [|by split].
      apply fd_inv_new_single; [apply Hi| |done].
      intros t c s (?&?&_&?&_)%(ci_waiting _ _ Hi). by eexists.
    + intros c cd. rewrite !lookup_insert. repeat case_decide; intros; simplify_eq/=;
        [by eauto..| |by eapply ci_single].
      by destruct (ci_single _ _ Hi c cd) as (?&?&?); [|congruence].
    + assert (∀ c cd, e_conds e !! c = Some cd → c_single cd ≠ e_next_single e) as Hne.
      { intros c cd (?&?&?)%(ci_single _ _ Hi) ?. congruence. }
      pose proof (ci_single_inj _ _ Hi) as Hinj. intros c1 c2 cd1 cd2.
      rewrite !lookup_insert. repeat case_decide; intros; simplify_eq/=;
        [done|by exfalso; eapply Hne|by exfalso; eapply Hne|by eauto].
    + intros c cd t. rewrite lookup_insert. case_decide; intros; simplify_eq/=.
      * split; [set_solver|]. intros [s (?&?&?&?)%(ci_waiting _ _ Hi)]. congruence.
      * by apply (ci_waiters _ _ Hi).
    + intros t c s (cd & sn & Hc & Hs & ?)%(ci_waiting _ _ Hi).
      exists cd, sn. by rewrite !lookup_insert_ne by congruence.
    + intros s sn. rewrite lookup_insert.
      case_decide; intros Hs; simplify_eq; [lia|].
      apply (ci_fresh_single _ _ Hi) in Hs. lia.
    + intros c cd. rewrite lookup_insert.
      case_decide; intros Hc; simplify_eq; [lia|].
      apply (ci_fresh_cond _ _ Hi) in Hc. lia.
  - unfold mode_of. by rewrite Hfc.
  - intros c'. unfold mode_of. simpl. rewrite lookup_insert. by case_decide.
  - intros s'. unfold notified. simpl. rewrite lookup_insert.
    case_decide; simplify_eq; [by rewrite Hfs|done].
Qed.

Lemma notify_all_ok w e c :
  cond_inv w e → is_Some (mode_of e c) →
  ∃ e', notify_all c e = Ok e' ∧ cond_inv w e' ∧
        (∀ c', mode_of e' c' = mode_of e c') ∧
        (∀ s', notified e s' = true → notified e' s' = true) ∧
        (∀ t s, w !! t = Some (c, s) → notified e' s = true).
Proof.
  intros Hi [m Hm]. unfold mode_of in Hm.
  destruct (e_conds e !! c) as [cd|] eqn:Hc; [clear m Hm|done].
  destruct (ci_single _ _ Hi _ _ Hc) as (sn & Hs & Hn).
  pose proof (ci_next_single _ _ Hi) as Hfs.
  unfold notify_all, lookup_cond. rewrite Hc. simpl.
  destruct (single_notify_all_ok w e (c_single cd) sn)
    as (e1 & sn' & -> & (Hss & Hcc & Hns & Hnc) & Hn' & Hfd');
    [apply Hi|done..|]. simpl.
  assert (e_next_single e ≠ c_single cd) as Hne by congruence.
  eexists. split; [done|].
  assert (∀ s', notified (set_cond c (PCond (c_shared cd) (c_waiters cd) (e_next_single e1))
      (new_single e1).1) s' = (bool_decide (s' = c_single cd) || notified e s')) as Hnot.
  { intros s'. unfold notified. simpl. rewrite Hss, Hns, !lookup_insert.
    repeat case_decide; simplify_eq.
    - rewrite bool_decide_false by done. by rewrite Hfs.
    - by rewrite bool_decide_true.
    - by rewrite bool_decide_false by done. }
  split_and!.
  - split; [|simpl; rewrite ?Hss, ?Hcc, ?Hns, ?Hnc..].
    + assert (fd_inv w (new_single e1).1) as [? ? ? ?]; [|by split].
      apply fd_inv_new_single; [done| |].
      * intros t c' s (?&?&_&?&_)%(ci_waiting _ _ Hi).
        rewrite Hss, lookup_insert. by case_decide.
      * by rewrite Hns, Hss, lookup_insert_ne.
    + intros c' cd'. rewrite !lookup_insert. repeat case_decide; intros; simplify_eq/=;
        try (by eauto).
      * exfalso. by eapply H, (ci_single_inj _ _ Hi).
      * by eapply ci_single.
    + assert (∀ c cd, e_conds e !! c = Some cd → c_single cd ≠ e_next_single e) as Hne'.
      { intros c' cd' (?&?&?)%(ci_single _ _ Hi) ?. congruence. }
      pose proof (ci_single_inj _ _ Hi) as Hinj. intros c1 c2 cd1 cd2.
      rewrite !lookup_insert. repeat case_decide; intros; simplify_eq/=;
        [done|by exfalso; eapply Hne'|by exfalso; eapply Hne'|by eauto].
    + intros c' cd' t. rewrite lookup_insert. case_decide; intros; simplify_eq/=;
        by apply (ci_waiters _ _ Hi).
    + intros t c' s Hw. destruct (ci_waiting _ _ Hi _ _ _ Hw) as (cd' & sn1 & Hc' & Hs' & Hcs).
      rewrite (lookup_insert_ne _ (e_next_single e)) by congruence.
      rewrite !lookup_insert. repeat case_decide; simplify_eq.
      * eexists _, _. split_and!; [done..|congruence].
      * eexists _, _. split_and!; [done..|]. intros. exfalso. naive_solver.
      * eexists _, _. split_and!; [done..|congruence].
      * eexists _, _. by split_and!.
    + intros s sn1. rewrite !lookup_insert.
      repeat case_decide; intros Hs'; simplify_eq; [lia|..];
        apply (ci_fresh_single _ _ Hi) in Hs' || apply (ci_fresh_single _ _ Hi) in Hs; lia.
    + intros c' cd'. rewrite lookup_insert.
      case_decide; intros; simplify_eq; by eapply ci_fresh_cond.
  - eapply mode_of_insert; [done|]. simpl. by rewrite Hcc.
  - intros s' Hs'. rewrite Hnot, Hs'. apply orb_true_r.
  - intros t s Hw. rewrite Hnot.
    destruct (ci_waiting _ _ Hi _ _ _ Hw) as (cd' & sn1 & Hc' & Hs' & Hcs).
    simplify_eq. case_bool_decide as Hd; [done|]. simpl. unfold notified.
    rewrite Hs'. destruct (sn_notified sn1); naive_solver.
Qed.

Lemma has_waiting_ok w e c :
  cond_inv w e → is_Some (mode_of e c) →
  ∃ b, has_waiting c e = Ok b ∧ (b = true ↔ ∃ t s, w !! t = Some (c, s)).
Proof.
  intros Hi [m Hm]. unfold mode_of in Hm. unfold has_waiting, lookup_cond.
  destruct (e_conds e !! c) as [cd|] eqn:Hc; [simpl|done].
  eexists. split; [done|]. rewrite bool_decide_eq_true.
  setoid_rewrite <-(ci_waiters _ _ Hi _ _ _ Hc).
  split; [apply set_choose_L|set_solver].
Qed.

Lemma cond_inv_mode w e t c s :
  cond_inv w e → w !! t = Some (c, s) → is_Some (mode_of e c).
Proof.
  intros Hi (cd & _ & Hc & _)%(ci_waiting _ _ Hi). unfold mode_of. by rewrite Hc.
Qed.

(** No descriptor is left open once nobody waits. *)
Lemma no_descriptor_leak e : cond_inv ∅ e → e_open e = ∅.
Proof.
  intros Hi. apply set_eq. intros [n b]. split; [|set_solver].
  intros (s & sn & Hs & Hr)%(fi_open _ _ (ci_fd _ _ Hi)).
  destruct (fi_single _ _ (ci_fd _ _ Hi) _ _ Hs) as [_ Hk].
  unfold waiting_on in Hk. rewrite map_filter_empty, map_size_empty in Hk.
  destruct Hk; congruence.
Qed.
