(* ===== verification/Locking.v ===== *)
(** * SharedLock (src/lib/locking.py)

    The shared/exclusive lock with priorities, time-outs, downgrading and
    deletion.  The state is the object's slots, the store of per-priority
    queues that [__pending] and [__pending_by_prio] both refer to, the store of
    conditions ([Condition.v]) and, for each thread blocked inside
    [wait_condition.wait], the local variables of its [acquire] call.

    Every method runs under the internal lock, so it is atomic up to a
    [wait]; a blocked acquire is resumed by a separate [EWake] event.  Clock
    readings are arguments of the events, in microseconds.

    Shown: the lock is never held exclusively together with another holder, no
    assertion, [KeyError], [ValueError] or [RuntimeError] of the
    implementation is ever raised for a caller that keeps to the contract,
    waiters are served in priority order, no wake-up is lost, deletion reaches
    every waiter, and no pipe descriptor is leaked. *)

From S2P Require Import Prelude Errors Heapq Condition.

Notation qid := nat (only parsing).

(** Microseconds. *)
Definition LOCK_ACQUIRE_MIN_TIMEOUT : Z := 1000.

(** Local variables of an [__acquire_unlocked] call that is inside
    [wait_condition.wait]; [f_delete] says the call was made by [delete]. *)
Record frame := Frame {
  f_shared : bool;
  f_timeout : option Z;
  f_prio : Z;
  f_queue : qid;
  f_cond : cid;
  f_start : Z;
  f_delete : bool;
  f_single : sid;
  f_wait_start : Z
}.

Record slock := SLock {
  l_deleted : bool;
  l_exc : option tid;
  l_shr : gset tid;
  l_pending : list (Z * qid);
  l_by_prio : gmap Z qid;
  l_pending_shared : gmap Z cid;
  l_queues : gmap qid (list cid);
  l_next_queue : qid;
  l_env : cenv;
  l_blocked : gmap tid frame
}.

(** [SharedLock.__init__] *)
Definition init_lock : slock := SLock false None ∅ [] ∅ ∅ ∅ 0 empty_cenv ∅.

Definition set_owner (d : bool) (x : option tid) (s : gset tid) (l : slock) : slock :=
  SLock d x s (l_pending l) (l_by_prio l) (l_pending_shared l) (l_queues l)
        (l_next_queue l) (l_env l) (l_blocked l).
Definition set_pending (h : list (Z * qid)) (d : gmap Z qid) (l : slock) : slock :=
  SLock (l_deleted l) (l_exc l) (l_shr l) h d (l_pending_shared l) (l_queues l)
        (l_next_queue l) (l_env l) (l_blocked l).
Definition set_pending_shared (d : gmap Z cid) (l : slock) : slock :=
  SLock (l_deleted l) (l_exc l) (l_shr l) (l_pending l) (l_by_prio l) d
        (l_queues l) (l_next_queue l) (l_env l) (l_blocked l).
Definition set_queue (q : qid) (cs : list cid) (l : slock) : slock :=
  SLock (l_deleted l) (l_exc l) (l_shr l) (l_pending l) (l_by_prio l)
        (l_pending_shared l) (<[q := cs]> (l_queues l)) (l_next_queue l)
        (l_env l) (l_blocked l).
Definition set_env (e : cenv) (l : slock) : slock :=
  SLock (l_deleted l) (l_exc l) (l_shr l) (l_pending l) (l_by_prio l)
        (l_pending_shared l) (l_queues l) (l_next_queue l) e (l_blocked l).
Definition set_blocked (b : gmap tid frame) (l : slock) : slock :=
  SLock (l_deleted l) (l_exc l) (l_shr l) (l_pending l) (l_by_prio l)
        (l_pending_shared l) (l_queues l) (l_next_queue l) (l_env l) b.

(** How a call ends, or that it is now waiting. *)
Inductive outcome := Returned (b : bool) | Blocked | LockDeleted.

#[export] Instance outcome_eq_dec : EqDecision outcome.
Proof. solve_decision. Defined.

(** ** Queue access *)

(** [(priority, prioqueue) < (priority', prioqueue')]: entries of equal
    priority would go on to compare the lists of conditions, which have no
    order. *)
Definition entry_cmp (a b : Z * qid) : exc bool :=
  if decide (a.1 = b.1)
  then Raise (PyExn TypeError "'<' not supported between instances")
  else Ok (bool_decide (a.1 < b.1)%Z).

(** The list object behind a reference. *)
Definition deref (q : qid) (l : slock) : exc (list cid) :=
  match l_queues l !! q with
  | Some cs => Ok cs
  | None => Raise (PyExn AttributeError "no such list")
  end.

(** [list.remove(x)] *)
Fixpoint list_remove1 (x : cid) (cs : list cid) : exc (list cid) :=
  match cs with
  | [] => Raise (PyExn ValueError "list.remove(x): x not in list")
  | y :: cs => if decide (y = x) then Ok cs else rmap (cons y) (list_remove1 x cs)
  end.

(** The loop of [__find_first_pending_queue]: one empty queue goes per
    iteration, so [length (l_pending l) + 1] iterations are enough. *)
Fixpoint find_first_fuel (fuel : nat) (l : slock) : exc (slock * option (Z * qid)) :=
  match fuel with
  | 0 => Raise (PyExn RuntimeError "out of fuel")
  | S fuel =>
      match l_pending l with
      | [] => Ok (l, None)
      | (priority, q) :: _ =>
          let* prioqueue := deref q l in
          match prioqueue with
          | _ :: _ => Ok (l, Some (priority, q))
          | [] =>
              let* '(_, h) := heappop entry_cmp (l_pending l) in
              match l_by_prio l !! priority with
              | None => Raise (PyExn KeyError "")
              | Some _ =>
                  let l := set_pending h (delete priority (l_by_prio l)) l in
                  do* assert (bool_decide (l_pending_shared l !! priority = None)) in
                  find_first_fuel fuel l
              end
          end
      end
  end.

Definition find_first_pending_queue (l : slock) : exc (slock * option (Z * qid)) :=
  find_first_fuel (length (l_pending l) + 1) l.

(** ** Ownership *)

Definition is_sharer (t : tid) (l : slock) : bool := bool_decide (t ∈ l_shr l).
Definition is_exclusive (t : tid) (l : slock) : bool := bool_decide (l_exc l = Some t).

(** [__is_owned(shared)]: [shared] negative asks for any kind of ownership. *)
Definition is_owned_mode (t : tid) (shared : Z) (l : slock) : bool :=
  if (shared <? 0)%Z then is_sharer t l || is_exclusive t l
  else if (shared =? 0)%Z then is_exclusive t l
  else is_sharer t l.
Definition is_owned (t : tid) (l : slock) : bool := is_owned_mode t (-1) l.

Definition do_acquire (t : tid) (shared : bool) (l : slock) : slock :=
  if shared then set_owner (l_deleted l) (l_exc l) ({[t]} ∪ l_shr l) l
  else set_owner (l_deleted l) (Some t) (l_shr l) l.

Definition can_acquire (shared : bool) (l : slock) : bool :=
  if shared then bool_decide (l_exc l = None)
  else bool_decide (l_shr l = ∅) && bool_decide (l_exc l = None).

(** [cond == prioqueue[0]] for the first pending queue. *)
Definition is_on_top (c : cid) (l : slock) : exc (slock * bool) :=
  let* '(l, first) := find_first_pending_queue l in
  match first with
  | None => Raise (PyExn TypeError "'NoneType' object is not subscriptable")
  | Some (_, q) =>
      let* prioqueue := deref q l in
      match prioqueue with
      | [] => Raise (PyExn IndexError "list index out of range")
      | c0 :: _ => Ok (l, bool_decide (c = c0))
      end
  end.

(** ** Acquiring *)

(** The [finally] clause of the waiting loop. *)
Definition leave_queue (fr : frame) (l : slock) : exc slock :=
  let* waiting := has_waiting (f_cond fr) (l_env l) in
  if waiting : bool then Ok l
  else
    let* prioqueue := deref (f_queue fr) l in
    let* prioqueue := list_remove1 (f_cond fr) prioqueue in
    let l := set_queue (f_queue fr) prioqueue l in
    let* cd := lookup_cond (f_cond fr) (l_env l) in
    if c_shared cd
    then Ok (set_pending_shared (delete (f_prio fr) (l_pending_shared l)) l)
    else Ok l.

(** [timeout is not None and utils.TimeoutExpired(wait_start, timeout)] *)
Definition timeout_expired (fr : frame) (now : Z) : bool :=
  match f_timeout fr with
  | Some timeout => (f_start fr + timeout <? now)%Z
  | None => false
  end.

(** One iteration of the [while True] loop: acquire, give up, or wait. *)
Definition loop_body (t : tid) (fr : frame) (now_check now_wait : Z) (l : slock)
    : exc (slock * outcome) :=
  let* '(l, top) := is_on_top (f_cond fr) l in
  if top && can_acquire (f_shared fr) l then
    let l := do_acquire t (f_shared fr) l in
    let* l := leave_queue fr l in
    Ok (l, Returned true)
  else if timeout_expired fr now_check then
    let* l := leave_queue fr l in
    Ok (l, Returned false)
  else
    let* '(e, s) := wait_begin t (f_cond fr) (l_env l) in
    let fr := Frame (f_shared fr) (f_timeout fr) (f_prio fr) (f_queue fr)
                    (f_cond fr) (f_start fr) (f_delete fr) s now_wait in
    Ok (set_blocked (<[t := fr]> (l_blocked l)) (set_env e l), Blocked).

(** The per-priority queue, created if there is none. *)
Definition get_prioqueue (priority : Z) (l : slock) : exc (slock * qid) :=
  match l_by_prio l !! priority with
  | Some q => Ok (l, q)
  | None =>
      let q := l_next_queue l in
      let* h := heappush entry_cmp (l_pending l) (priority, q) in
      Ok (SLock (l_deleted l) (l_exc l) (l_shr l) h
                (<[priority := q]> (l_by_prio l)) (l_pending_shared l)
                (<[q := []]> (l_queues l)) (S q) (l_env l) (l_blocked l), q)
  end.

(** A new condition at the end of the queue. *)
Definition enqueue (shared : bool) (priority : Z) (l : slock)
    : exc (slock * (qid * cid)) :=
  let* '(l, q) := get_prioqueue priority l in
  let '(e, c) := new_cond shared (l_env l) in
  let l := set_env e l in
  let* prioqueue := deref q l in
  let l := set_queue q (prioqueue ++ [c]) l in
  if shared then
    do* assert (bool_decide (l_pending_shared l !! priority = None)) in
    Ok (set_pending_shared (<[priority := c]> (l_pending_shared l)) l, (q, c))
  else Ok (l, (q, c)).

(** The condition to wait on: the pending shared one of the same priority, or
    a new one. *)
Definition find_condition (shared : bool) (priority : Z) (l : slock)
    : exc (slock * (qid * cid)) :=
  match (if shared then l_pending_shared l !! priority else None) with
  | Some c =>
      match l_by_prio l !! priority with
      | None => Raise (PyExn TypeError "argument of type 'NoneType' is not iterable")
      | Some q =>
          let* prioqueue := deref q l in
          let* cd := lookup_cond c (l_env l) in
          do* assert (c_shared cd && bool_decide (c ∈ prioqueue)) in
          Ok (l, (q, c))
      end
  | None => enqueue shared priority l
  end.

(** [__acquire_unlocked]; [del] marks the call made by [delete]. *)
Definition acquire_unlocked (t : tid) (shared : bool) (timeout : option Z)
    (priority : Z) (now_start now_check now_wait : Z) (del : bool) (l : slock)
    : exc (slock * outcome) :=
  if l_deleted l then Ok (l, LockDeleted) else
  do* assert (negb (is_owned t l)) in
  let* '(l, _) := find_first_pending_queue l in
  if bool_decide (l_pending l = []) && can_acquire shared l then
    Ok (do_acquire t shared l, Returned true)
  else if match timeout with
          | Some timeout => (timeout <? LOCK_ACQUIRE_MIN_TIMEOUT)%Z
          | None => false
          end
  then Ok (l, Returned false)
  else
    let* '(l, (q, c)) := find_condition shared priority l in
    loop_body t (Frame shared timeout priority q c now_start del 0 0)
              now_check now_wait l.

(** ** Notification, release, downgrade *)

Definition notify_cond (c : cid) (l : slock) : exc slock :=
  let* e := notify_all c (l_env l) in Ok (set_env e l).

(** [__notify_topmost] *)
Definition notify_topmost (l : slock) : exc slock :=
  let* '(l, first) := find_first_pending_queue l in
  match first with
  | None => Ok l
  | Some (priority, q) =>
      let* prioqueue := deref q l in
      match prioqueue with
      | [] => Ok l
      | c :: _ =>
          let* l := notify_cond c l in
          let* cd := lookup_cond c (l_env l) in
          if c_shared cd
          then Ok (set_pending_shared (delete priority (l_pending_shared l)) l)
          else Ok l
      end
  end.

Definition release (t : tid) (l : slock) : exc slock :=
  do* assert (is_exclusive t l || is_sharer t l) in
  if is_exclusive t l then notify_topmost (set_owner (l_deleted l) None (l_shr l) l)
  else
    let shr := l_shr l ∖ {[t]} in
    let l := set_owner (l_deleted l) (l_exc l) shr l in
    if bool_decide (shr = ∅) then notify_topmost l else Ok l.

(** The shared acquires pending at the first priority go ahead. *)
Definition promote_shared (l : slock) : exc slock :=
  let* '(l, first) := find_first_pending_queue l in
  match first with
  | None => Ok l
  | Some (priority, q) =>
      match l_pending_shared l !! priority with
      | None => Ok l
      | Some c =>
          let l := set_pending_shared (delete priority (l_pending_shared l)) l in
          let* prioqueue := deref q l in
          let* cd := lookup_cond c (l_env l) in
          do* assert (c_shared cd) in
          do* assert (bool_decide (c ∈ prioqueue)) in
          let* l :=
            (if bool_decide (1 < length prioqueue) then
               let* prioqueue := list_remove1 c prioqueue in
               Ok (set_queue q (c :: prioqueue) l)
             else Ok l) in
          notify_cond c l
      end
  end.

Definition downgrade (t : tid) (l : slock) : exc slock :=
  do* assert (is_owned t l) in
  let* l :=
    (if is_exclusive t l
     then promote_shared (do_acquire t true (set_owner (l_deleted l) None (l_shr l) l))
     else Ok l) in
  do* assert (negb (is_exclusive t l)) in
  do* assert (is_sharer t l) in
  Ok l.

(** ** Deletion *)

Fixpoint notify_conds (cs : list cid) (l : slock) : exc slock :=
  match cs with
  | [] => Ok l
  | c :: cs => let* l := notify_cond c l in notify_conds cs l
  end.

Fixpoint notify_queues (h : list (Z * qid)) (l : slock) : exc slock :=
  match h with
  | [] => Ok l
  | (_, q) :: h =>
      let* prioqueue := deref q l in
      let* l := notify_conds prioqueue l in
      notify_queues h l
  end.

(** [delete] once the lock is held exclusively. *)
Definition do_delete (t : tid) (l : slock) : exc slock :=
  do* assert (is_exclusive t l && negb (is_sharer t l)) in
  let l := set_owner true None (l_shr l) l in
  do* assert (bool_decide (l_shr l = ∅)) in
  notify_queues (l_pending l) l.

(** What [acquire] and [delete] do with the outcome of [__acquire_unlocked]. *)
Definition finish_acquire (del : bool) (t : tid) (r : slock * outcome)
    : exc (slock * outcome) :=
  match r with
  | (l, Returned true) => if del then rmap (λ l, (l, Returned true)) (do_delete t l)
                          else Ok r
  | _ => Ok r
  end.

Definition delete_lock (t : tid) (timeout : option Z) (priority : Z)
    (now_start now_check now_wait : Z) (l : slock) : exc (slock * outcome) :=
  do* assert (negb (is_sharer t l)) in
  if l_deleted l then Ok (l, LockDeleted)
  else if is_exclusive t l then finish_acquire true t (l, Returned true)
  else
    let* r := acquire_unlocked t false timeout priority now_start now_check
                               now_wait true l in
    finish_acquire true t r.

(** ** Waking up *)

(** The poll loop of [_SingleNotifyPipeConditionWaiter.__call__] is over: the
    pipe was closed, or the time given to [wait] has run out. *)
Definition wait_over (fr : frame) (now_poll : Z) (l : slock) : bool :=
  waiter_notified (f_single fr) (l_env l) ||
  match f_timeout fr with
  | Some timeout => (f_wait_start fr + timeout - now_poll <? 0)%Z
  | None => false
  end.

(** A blocked acquire resumes: the end of [wait], [__check_deleted], and the
    next iteration of the loop. *)
Definition wake (t : tid) (fr : frame) (now_check now_wait : Z) (l : slock)
    : exc (slock * outcome) :=
  let* e := wait_end t (f_cond fr) (f_single fr) (l_env l) in
  let l := set_blocked (delete t (l_blocked l)) (set_env e l) in
  if l_deleted l then
    let* l := leave_queue fr l in Ok (l, LockDeleted)
  else
    let* r := loop_body t fr now_check now_wait l in
    finish_acquire (f_delete fr) t r.

(** ** Events *)

Inductive event :=
| EAcquire (t : tid) (shared : bool) (timeout : option Z) (priority : Z)
           (now_start now_check now_wait : Z)
| EWake (t : tid) (now_poll now_check now_wait : Z)
| ERelease (t : tid)
| EDowngrade (t : tid)
| EDelete (t : tid) (timeout : option Z) (priority : Z)
          (now_start now_check now_wait : Z)
| ENotifyTopmost (t : tid).

Definition ev_thread (ev : event) : tid :=
  match ev with
  | EAcquire t _ _ _ _ _ _ | EWake t _ _ _ | ERelease t | EDowngrade t
  | EDelete t _ _ _ _ _ | ENotifyTopmost t => t
  end.

(** The call made or resumed by an event. *)
Definition handle (ev : event) (l : slock) : exc (slock * outcome) :=
  match ev with
  | EAcquire t shared timeout priority n1 n2 n3 =>
      acquire_unlocked t shared timeout priority n1 n2 n3 false l
  | EWake t _ n2 n3 =>
      match l_blocked l !! t with
      | Some fr => wake t fr n2 n3 l
      | None => Raise AssertionFailed
      end
  | ERelease t => rmap (λ l, (l, Returned true)) (release t l)
  | EDowngrade t => rmap (λ l, (l, Returned true)) (downgrade t l)
  | EDelete t timeout priority n1 n2 n3 => delete_lock t timeout priority n1 n2 n3 l
  | ENotifyTopmost _ => rmap (λ l, (l, Returned true)) (notify_topmost l)
  end.

(** A thread that is blocked does nothing but wake up, and only when its wait
    is over. *)
Definition enabled (ev : event) (l : slock) : bool :=
  match ev with
  | EWake t now_poll _ _ =>
      match l_blocked l !! t with
      | Some fr => wait_over fr now_poll l
      | None => false
      end
  | _ => bool_decide (l_blocked l !! ev_thread ev = None)
  end.

Definition step (ev : event) (l : slock) : option (exc (slock * outcome)) :=
  if enabled ev l then Some (handle ev l) else None.

(** A run: the final state and the outcome of every event, if every event was
    enabled and none raised. *)
Fixpoint run (evs : list event) (l : slock) : option (slock * list outcome) :=
  match evs with
  | [] => Some (l, [])
  | ev :: evs =>
      match step ev l with
      | Some (Ok (l, o)) =>
          match run evs l with
          | Some (l, os) => Some (l, o :: os)
          | None => None
          end
      | _ => None
      end
  end.

(** The states the lock can get into. *)
Inductive reachable : slock → Prop :=
| reach_init : reachable init_lock
| reach_step ev l l' o :
    reachable l → step ev l = Some (Ok (l', o)) → reachable l'.

(** The contract of the callers: no double acquire, only owners release or
    downgrade, a sharer does not delete. *)
Definition legal (ev : event) (l : slock) : bool :=
  match ev with
  | EAcquire t _ _ _ _ _ _ => negb (is_owned t l)
  | ERelease t | EDowngrade t => is_owned t l
  | EDelete t _ _ _ _ _ => negb (is_sharer t l)
  | EWake _ _ _ _ | ENotifyTopmost _ => true
  end.
