(* ===== verification/LockingInv.v ===== *)
(** * SharedLock: the invariant and that every method preserves it

    [lock_inv x lv l] describes a state of the lock.  Between two atomic
    sections [x = None] and [lv = true].  Inside one, the running thread's
    condition [x] may be queued without a waiter, and [lv = false] says that
    the notifications the section owes have not been sent yet. *)

From S2P Require Import Prelude Errors Heapq Condition Locking.

(** The conditions queued at a priority. *)
Definition queue_at (l : slock) (p : Z) : list cid :=
  match l_by_prio l !! p with
  | Some q => default [] (l_queues l !! q)
  | None => []
  end.

(** [c] heads the first non-empty queue. *)
Definition top (l : slock) (p : Z) (c : cid) : Prop :=
  (∃ cs, queue_at l p = c :: cs) ∧ ∀ p', (p' < p)%Z → queue_at l p' = [].

Definition free (l : slock) : Prop :=
  l_deleted l = false ∧ l_exc l = None ∧ l_shr l = ∅.

(** The threads inside [wait], as [Condition.v] sees them. *)
Definition waits (l : slock) : gmap tid (cid * sid) :=
  (λ fr, (f_cond fr, f_single fr)) <$> l_blocked l.

Definition owns (l : slock) (t : tid) : Prop := l_exc l = Some t ∨ t ∈ l_shr l.

Record owner_ok (l : slock) : Prop := {
  oo_exclusive : ∀ t, l_exc l = Some t → l_shr l = ∅;
  oo_deleted : l_deleted l = true → l_exc l = None ∧ l_shr l = ∅;
  oo_idle : ∀ t, owns l t → l_blocked l !! t = None
}.

Definition prio_lt (a b : Z * nat) : bool := bool_decide (a.1 < b.1)%Z.

#[export] Instance prio_lt_order : StrictWeakOrder prio_lt.
Proof.
  split; unfold prio_lt; intros *; rewrite ?bool_decide_eq_true, ?bool_decide_eq_false; lia.
Qed.

(** [__pending] and [__pending_by_prio] hold the same references. *)
Record queues_ok (l : slock) : Prop := {
  qo_heap : heap_ok prio_lt (l_pending l);
  qo_nodup : NoDup (l_pending l).*1;
  qo_dict : ∀ p q, (p, q) ∈ l_pending l ↔ l_by_prio l !! p = Some q;
  qo_inj : ∀ p1 p2 q, l_by_prio l !! p1 = Some q → l_by_prio l !! p2 = Some q → p1 = p2;
  qo_store : ∀ p q, l_by_prio l !! p = Some q → is_Some (l_queues l !! q);
  qo_fresh : ∀ q cs, l_queues l !! q = Some cs → q < l_next_queue l
}.

(** What the local variables of an acquire call refer to. *)
Definition frame_ok (l : slock) (fr : frame) : Prop :=
  l_by_prio l !! f_prio fr = Some (f_queue fr) ∧
  f_cond fr ∈ queue_at l (f_prio fr) ∧
  mode_of (l_env l) (f_cond fr) = Some (f_shared fr) ∧
  (f_delete fr = true → f_shared fr = false).

Record lock_inv (x : option cid) (lv : bool) (l : slock) : Prop := {
  li_owner : owner_ok l;
  li_queues : queues_ok l;
  li_cond : cond_inv (waits l) (l_env l);
  li_nodup : ∀ p, NoDup (queue_at l p);
  li_disj : ∀ p1 p2 c, c ∈ queue_at l p1 → c ∈ queue_at l p2 → p1 = p2;
  li_entry : ∀ p c, c ∈ queue_at l p →
    x = Some c ∨ ∃ t fr, l_blocked l !! t = Some fr ∧ f_cond fr = c;
  li_mode : ∀ p c, c ∈ queue_at l p → is_Some (mode_of (l_env l) c);
  li_frame : ∀ t fr, l_blocked l !! t = Some fr → frame_ok l fr;
  li_shared : ∀ p c, l_pending_shared l !! p = Some c →
    c ∈ queue_at l p ∧ mode_of (l_env l) c = Some true;
  li_live : lv = true → free l → ∀ p c t fr, top l p c → l_blocked l !! t = Some fr →
    f_cond fr = c → notified (l_env l) (f_single fr) = true;
  li_dead : lv = true → l_deleted l = true → ∀ t fr, l_blocked l !! t = Some fr →
    notified (l_env l) (f_single fr) = true
}.

(** ** Reading the queues *)

Lemma pending_comparable (h : list (Z * nat)) :
  NoDup h.*1 → comparable entry_cmp prio_lt h.
Proof.
  intros Hnd i j a b Hij Ha Hb. unfold entry_cmp, prio_lt.
  rewrite decide_False; [done|]. intros He. apply Hij.
  eapply NoDup_lookup; [exact Hnd|..]; rewrite list_lookup_fmap.
  - by rewrite Ha.
  - rewrite Hb. simpl. by rewrite He.
Qed.

Lemma deref_queue_at l p q :
  queues_ok l → l_by_prio l !! p = Some q → deref q l = Ok (queue_at l p).
Proof.
  intros Hq Hp. unfold deref, queue_at. rewrite Hp.
  destruct (qo_store _ Hq _ _ Hp) as [cs ->]. done.
Qed.

Lemma queue_at_set_queue l p q cs p' :
  queues_ok l → l_by_prio l !! p = Some q →
  queue_at (set_queue q cs l) p' = if decide (p = p') then cs else queue_at l p'.
Proof.
  intros Hq Hp. unfold queue_at. simpl. case_decide; simplify_eq.
  - by rewrite Hp, lookup_insert_eq.
  - destruct (l_by_prio l !! p') as [q'|] eqn:Hp'; [|done].
    rewrite lookup_insert_ne; [done|]. intros ->. by eapply H, qo_inj.
Qed.

(** States that differ only in which empty queues are still listed. *)
Record same_queues (l l' : slock) : Prop := {
  sq_deleted : l_deleted l' = l_deleted l;
  sq_exc : l_exc l' = l_exc l;
  sq_shr : l_shr l' = l_shr l;
  sq_shared : l_pending_shared l' = l_pending_shared l;
  sq_queues : l_queues l' = l_queues l;
  sq_env : l_env l' = l_env l;
  sq_blocked : l_blocked l' = l_blocked l;
  sq_next : l_next_queue l' = l_next_queue l;
  sq_at : ∀ p, queue_at l' p = queue_at l p;
  sq_dict : ∀ p q, l_by_prio l !! p = Some q → queue_at l p ≠ [] →
                   l_by_prio l' !! p = Some q
}.

Lemma same_queues_refl l : same_queues l l.
Proof. by split. Qed.

Lemma same_queues_trans l1 l2 l3 :
  same_queues l1 l2 → same_queues l2 l3 → same_queues l1 l3.
Proof.
  intros [] []. split; try congruence.
  intros p q Hp Hne. apply sq_dict1; [by apply sq_dict0|]. by rewrite sq_at0.
Qed.

Lemma same_queues_top l l' p c : same_queues l l' → top l' p c ↔ top l p c.
Proof. intros H. unfold top. by setoid_rewrite (sq_at _ _ H). Qed.

Lemma same_queues_frame l l' fr :
  same_queues l l' → frame_ok l fr → frame_ok l' fr.
Proof.
  intros Hs (Hp & Hc & Hm & Hd). unfold frame_ok.
  rewrite (sq_at _ _ Hs), (sq_env _ _ Hs). split_and!; [|done..].
  apply (sq_dict _ _ Hs); [done|]. intros E. rewrite E in Hc. set_solver.
Qed.

Lemma same_queues_inv x lv l l' :
  same_queues l l' → queues_ok l' → lock_inv x lv l → lock_inv x lv l'.
Proof.
  intros Hs Hq Hi. pose proof (λ fr, same_queues_frame l l' fr Hs) as Hfr.
  pose proof (λ p c, same_queues_top l l' p c Hs) as Htop.
  destruct Hs, Hi as [[] ? ? ? ? ? ? ? ? Hlive ?]. unfold free in Hlive.
  split; [split|..]; unfold owns, waits, free in *;
    rewrite ?sq_deleted0, ?sq_exc0, ?sq_shr0, ?sq_shared0, ?sq_env0, ?sq_blocked0 in *;
    try done; intros *; rewrite ?sq_at0; eauto.
  setoid_rewrite Htop. eauto.
Qed.

(** Dropping an empty queue. *)
Lemma drop_empty_queue l p q h :
  queues_ok l → l_by_prio l !! p = Some q → queue_at l p = [] →
  l_pending l ≡ₚ (p, q) :: h → heap_ok prio_lt h →
  let l' := set_pending h (delete p (l_by_prio l)) l in
  queues_ok l' ∧ same_queues l l'.
Proof.
  intros Hq Hp He Hperm Hh l'.
  pose proof (qo_nodup _ Hq) as Hnd. rewrite Hperm in Hnd.
  apply NoDup_cons in Hnd as [Hnin Hnd]. split.
  - split; simpl; [done|done|..]; intros *; rewrite ?lookup_delete_Some.
    + rewrite <-(qo_dict _ Hq), Hperm, elem_of_cons. split.
      * intros Hin. split; [|by right]. intros ->. apply Hnin.
        apply list_elem_of_fmap. by exists (p0, q0).
      * intros [? [?|?]]; [congruence|done].
    + intros [_ ?] [_ ?]. by eapply qo_inj.
    + intros [_ ?]. by eapply qo_store.
    + by eapply qo_fresh.
  - split; try done.
    + intros p'. unfold queue_at. simpl. rewrite lookup_delete.
      case_decide; simplify_eq; [|done].
      by unfold queue_at in He.
    + intros p' q' Hp' Hne. simpl. rewrite lookup_delete_ne; [done|].
      by intros ->.
Qed.

(** What [__find_first_pending_queue] returns. *)
Definition first_queue (l : slock) (first : option (Z * nat)) : Prop :=
  match first with
  | None => l_pending l = [] ∧ ∀ p, queue_at l p = []
  | Some (p, q) => l_by_prio l !! p = Some q ∧ ∃ c, top l p c
  end.

Lemma pending_head l p q rest p' q' :
  queues_ok l → l_pending l = (p, q) :: rest → l_by_prio l !! p' = Some q' →
  (p ≤ p')%Z.
Proof.
  intros Hq Hl Hp'. apply (qo_dict _ Hq) in Hp'.
  assert (prio_lt (p', q') (p, q) = false) as Hlt.
  { eapply heap_ok_root; [apply _|by apply Hq|by rewrite Hl|done]. }
  unfold prio_lt in Hlt. apply bool_decide_eq_false in Hlt. simpl in Hlt. lia.
Qed.

Lemma find_first_fuel_ok x lv fuel l :
  lock_inv x lv l → length (l_pending l) < fuel →
  ∃ l' first, find_first_fuel fuel l = Ok (l', first) ∧ lock_inv x lv l' ∧
              same_queues l l' ∧ first_queue l' first.
Proof.
  revert l. induction fuel as [|fuel IH]; intros l Hi Hlen; [lia|]. simpl.
  pose proof (li_queues _ _ _ Hi) as Hq.
  destruct (l_pending l) as [|[p q] rest] eqn:Hl.
  { exists l, None. split_and!; [done..|apply same_queues_refl|].
    split; [done|]. intros p. unfold queue_at.
    destruct (l_by_prio l !! p) as [q|] eqn:Hp; [|done].
    apply (qo_dict _ Hq) in Hp. rewrite Hl in Hp. set_solver. }
  assert (l_by_prio l !! p = Some q) as Hp.
  { apply (qo_dict _ Hq). rewrite Hl. set_solver. }
  rewrite (deref_queue_at _ p) by done. simpl.
  destruct (queue_at l p) as [|c cs] eqn:Hat.
  - destruct (heappop_correct entry_cmp prio_lt (l_pending l))
      as (e & h & Hpop & Hperm & Hh & He & _);
      [apply pending_comparable, Hq|apply Hq|by rewrite Hl|].
    rewrite Hl in He. simplify_eq/=. rewrite <-Hl, Hpop. simpl. rewrite Hp.
    destruct (drop_empty_queue l p q h) as [Hq' Hs]; [done..|].
    rewrite bool_decide_true; simpl.
    + destruct (IH (set_pending h (delete p (l_by_prio l)) l)) as (l' & r & -> & ? & ? & ?).
      * by eapply same_queues_inv.
      * simpl. apply Permutation_length in Hperm. rewrite Hl in Hperm.
        simpl in *. lia.
      * exists l', r. split_and!; [done..| |done]. by eapply same_queues_trans.
    + destruct (l_pending_shared l !! p) as [c|] eqn:Hc; [|done].
      apply (li_shared _ _ _ Hi) in Hc as [Hc _]. rewrite Hat in Hc. set_solver.
  - exists l, (Some (p, q)). split_and!; [done..|apply same_queues_refl|].
    split; [done|]. exists c. split; [by eexists|].
    intros p' Hlt. unfold queue_at.
    destruct (l_by_prio l !! p') as [q'|] eqn:Hp'; [|done].
    eapply pending_head in Hp'; [|done..]. lia.
Qed.

Lemma find_first_ok x lv l :
  lock_inv x lv l →
  ∃ l' first, find_first_pending_queue l = Ok (l', first) ∧ lock_inv x lv l' ∧
              same_queues l l' ∧ first_queue l' first.
Proof. intros Hi. apply find_first_fuel_ok; [done|lia]. Qed.

Lemma top_unique l p1 c1 p2 c2 : top l p1 c1 → top l p2 c2 → p1 = p2 ∧ c1 = c2.
Proof.
  intros [[cs1 H1] Hlt1] [[cs2 H2] Hlt2].
  destruct (Z.lt_trichotomy p1 p2) as [Hlt|[->|Hlt]].
  - rewrite (Hlt2 _ Hlt) in H1. done.
  - rewrite H1 in H2. by simplify_eq.
  - rewrite (Hlt1 _ Hlt) in H2. done.
Qed.

(** [__is_on_top] decides [top]. *)
Lemma is_on_top_ok x lv l p c :
  lock_inv x lv l → c ∈ queue_at l p →
  ∃ l' b, is_on_top c l = Ok (l', b) ∧ lock_inv x lv l' ∧ same_queues l l' ∧
          (b = true ↔ ∃ p', top l' p' c).
Proof.
  intros Hi Hc. unfold is_on_top.
  destruct (find_first_ok _ _ _ Hi) as (l' & first & -> & Hi' & Hs & Hf). simpl.
  destruct first as [[p0 q0]|]; simpl in Hf.
  - destruct Hf as [Hp0 [c0 Htop]].
    rewrite (deref_queue_at _ p0); [|apply Hi'|done]. simpl.
    destruct (id Htop) as [[cs Hat] _]. rewrite Hat.
    eexists l', _. split_and!; [done..|]. rewrite bool_decide_eq_true. split.
    + intros ->. by exists p0.
    + intros [p' Htop']. by destruct (top_unique _ _ _ _ _ Htop Htop').
  - destruct Hf as [_ Hf]. rewrite <-(sq_at _ _ Hs), Hf in Hc. set_solver.
Qed.

(** ** Leaving the queue *)

Lemma list_remove1_ok c cs :
  c ∈ cs → ∃ cs', list_remove1 c cs = Ok cs' ∧ cs ≡ₚ c :: cs' ∧
    (∀ d ds, cs = d :: ds → d = c ∧ cs' = ds ∨ d ≠ c ∧ ∃ ds', cs' = d :: ds').
Proof.
  induction cs as [|d cs IH]; [set_solver|]. intros Hc. simpl.
  case_decide as Hd; [subst; exists cs; naive_solver|].
  destruct IH as (cs' & -> & Hp & _); [set_solver|]. simpl.
  exists (d :: cs'). split_and!; [done|by rewrite Hp, Permutation_swap|].
  intros ? ? [= <- <-]. right. by eauto.
Qed.

Lemma queues_ok_set_queue l p q cs :
  queues_ok l → l_by_prio l !! p = Some q → queues_ok (set_queue q cs l).
Proof.
  intros Hq Hp. destruct (qo_store _ Hq _ _ Hp) as [cs0 Hcs0].
  pose proof (qo_fresh _ Hq _ _ Hcs0). destruct Hq.
  split; try done; simpl; intros *.
  - intros ?%qo_store0. rewrite lookup_insert. by case_decide.
  - rewrite lookup_insert. case_decide; naive_solver.
Qed.

Lemma blocked_waits l t fr :
  l_blocked l !! t = Some fr → waits l !! t = Some (f_cond fr, f_single fr).
Proof. intros H. unfold waits. by rewrite lookup_fmap, H. Qed.

Lemma waits_blocked l t c s :
  waits l !! t = Some (c, s) →
  ∃ fr, l_blocked l !! t = Some fr ∧ f_cond fr = c ∧ f_single fr = s.
Proof.
  unfold waits. rewrite lookup_fmap, fmap_Some. intros (fr & ? & ?).
  simplify_eq. by eauto.
Qed.

(** The fields an operation on the queues leaves alone. *)
Definition same_threads (l l' : slock) : Prop :=
  l_deleted l' = l_deleted l ∧ l_exc l' = l_exc l ∧ l_shr l' = l_shr l ∧
  l_blocked l' = l_blocked l.

Lemma same_queues_threads l l' : same_queues l l' → same_threads l l'.
Proof. intros []. by split_and!. Qed.

Lemma same_threads_trans l1 l2 l3 :
  same_threads l1 l2 → same_threads l2 l3 → same_threads l1 l3.
Proof. unfold same_threads. naive_solver congruence. Qed.

Lemma same_threads_owner l l' : same_threads l l' → owner_ok l → owner_ok l'.
Proof.
  intros (H1 & H2 & H3 & H4) []. split; unfold owns in *;
    by rewrite ?H1, ?H2, ?H3, ?H4.
Qed.

Lemma same_threads_free l l' : same_threads l l' → free l' ↔ free l.
Proof. intros (H1 & H2 & H3 & H4). unfold free. by rewrite H1, H2, H3. Qed.

(** Removing a condition that does not head the first queue leaves the first
    queue's head in place. *)
Lemma top_remove l l' p c cs' :
  (∀ p', queue_at l' p' = if decide (p = p') then cs' else queue_at l p') →
  (∀ d ds, queue_at l p = d :: ds → d = c ∧ cs' = ds ∨ d ≠ c ∧ ∃ ds', cs' = d :: ds') →
  queue_at l p ≠ [] → ¬ top l p c →
  ∀ p0 c0, top l' p0 c0 → top l p0 c0.
Proof.
  intros Hat Hhd Hne Hnt p0 c0 [[ds0 H0] Hlt].
  destruct (queue_at l p) as [|d ds] eqn:Hp; [done|].
  assert ((p ≤ p0)%Z → d ≠ c) as Hdc.
  { intros Hle ->. apply Hnt. split; [by eexists|]. intros p' Hp'.
    specialize (Hlt p' ltac:(lia)). by rewrite Hat, decide_False in Hlt by lia. }
  destruct (Hhd d ds eq_refl) as [[-> ->]|[Hd [ds' ->]]].
  - assert (p0 < p)%Z by (destruct (decide (p ≤ p0)%Z); [by destruct Hdc|lia]).
    rewrite Hat, decide_False in H0 by lia. split; [by eexists|].
    intros p' Hp'. specialize (Hlt p' Hp'). by rewrite Hat, decide_False in Hlt by lia.
  - split.
    + rewrite Hat in H0. case_decide; simplify_eq; eauto.
    + intros p' Hp'. specialize (Hlt p' Hp'). rewrite Hat in Hlt. by case_decide.
Qed.

(** Taking a condition nobody waits on out of its queue. *)
Lemma remove_cond_inv lv l p q c cs' m :
  lock_inv (Some c) lv l → l_by_prio l !! p = Some q → queue_at l p ≡ₚ c :: cs' →
  (∀ d ds, queue_at l p = d :: ds → d = c ∧ cs' = ds ∨ d ≠ c ∧ ∃ ds', cs' = d :: ds') →
  (∀ t fr, l_blocked l !! t = Some fr → f_cond fr ≠ c) →
  (free l → ¬ top l p c) →
  (∀ p' c', m !! p' = Some c' → l_pending_shared l !! p' = Some c' ∧ c' ≠ c) →
  lock_inv None lv (set_pending_shared m (set_queue q cs' l)).
Proof.
  intros Hi Hp Hperm Hhd Hno Hnt Hms. pose proof (li_queues _ _ _ Hi) as Hq.
  set (l1 := set_pending_shared m (set_queue q cs' l)).
  assert (∀ p', queue_at l1 p' = if decide (p = p') then cs' else queue_at l p')
    as Hat by (intros; by apply (queue_at_set_queue l)).
  assert (c ∈ queue_at l p) as Hc by (rewrite Hperm; set_solver).
  pose proof (li_nodup _ _ _ Hi p) as Hnd. rewrite Hperm in Hnd.
  apply NoDup_cons in Hnd as [Hnin Hnd].
  assert (∀ p' d, d ∈ queue_at l1 p' ↔ d ∈ queue_at l p' ∧ d ≠ c) as Hin.
  { intros p' d. rewrite Hat. case_decide as Hd.
    - subst. rewrite Hperm. set_solver.
    - split; [|naive_solver]. intros ?. split; [done|]. intros ->.
      by eapply Hd, (li_disj _ _ _ Hi). }
  split; simpl; try apply Hi.
  - destruct (li_owner _ _ _ Hi); by split.
  - assert (queues_ok (set_queue q cs' l)) as [] by (by eapply queues_ok_set_queue).
    by split.
  - intros p'. rewrite Hat. case_decide; [done|apply Hi].
  - intros p1 p2 d [? _]%Hin [? _]%Hin. by eapply (li_disj _ _ _ Hi).
  - intros p' d [Hd Hne]%Hin. right.
    destruct (li_entry _ _ _ Hi _ _ Hd) as [E|?]; [by injection E as <-|done].
  - intros p' d [Hd _]%Hin. by eapply (li_mode _ _ _ Hi).
  - intros t fr Hfr. pose proof (Hno _ _ Hfr).
    destruct (li_frame _ _ _ Hi _ _ Hfr) as (? & ? & ? & ?).
    split_and!; try done. by apply Hin.
  - intros p' d [Hd ?]%Hms. rewrite Hin. apply (li_shared _ _ _ Hi) in Hd as []. by split_and!.
  - intros Hlv Hfree p' d t fr Htop. eapply (li_live _ _ _ Hi); [done..|].
    eapply (top_remove _ l1); [done..| |by apply Hnt|done].
    intros E. rewrite E in Hc. set_solver.
Qed.

(** The [finally] clause restores the invariant, if the thread got the lock or
    its condition is not the one a free lock waits for. *)
Lemma leave_queue_ok lv l fr :
  lock_inv (Some (f_cond fr)) lv l → frame_ok l fr →
  (free l → ¬ top l (f_prio fr) (f_cond fr)) →
  ∃ l', leave_queue fr l = Ok l' ∧ lock_inv None lv l' ∧ same_threads l l'.
Proof.
  intros Hi (Hp & Hc & Hm & _) Hnt. unfold leave_queue.
  destruct (has_waiting_ok (waits l) (l_env l) (f_cond fr)) as (b & -> & Hb);
    [apply Hi|by rewrite Hm|]. simpl. destruct b.
  { exists l. split_and!; [done| |by split_and!].
    destruct (proj1 Hb eq_refl) as (t & s & (fr' & ? & ? & ?)%waits_blocked).
    destruct Hi as [? ? ? ? ? Hent ? ? ? ? ?]. split; try done.
    intros p c Hin. right. destruct (Hent _ _ Hin) as [[= <-]|?]; [by eauto|done]. }
  rewrite (deref_queue_at _ (f_prio fr)); [simpl|apply Hi|done].
  destruct (list_remove1_ok _ _ Hc) as (cs' & -> & Hperm & Hhd). simpl.
  assert (∀ t fr', l_blocked l !! t = Some fr' → f_cond fr' ≠ f_cond fr) as Hno.
  { intros t fr' Hfr' He. assert (false = true); [|done].
    apply Hb. exists t, (f_single fr'). rewrite <-He. by apply blocked_waits. }
  pose proof (λ m, remove_cond_inv _ _ _ _ _ _ m Hi Hp Hperm Hhd Hno Hnt) as Hfin.
  unfold lookup_cond. unfold mode_of in Hm.
  destruct (e_conds (l_env l) !! f_cond fr) as [cd|] eqn:Hcd; [|done].
  simpl in Hm. injection Hm as Hm. simpl. rewrite Hm.
  destruct (f_shared fr) eqn:Hsh; (eexists; split; [done|split; [|by split_and!]]).
  - apply Hfin. intros p c. rewrite lookup_delete_Some. intros [Hne Hin].
    split; [done|]. intros ->. apply (li_shared _ _ _ Hi) in Hin as [Hin _].
    by eapply Hne, (li_disj _ _ _ Hi).
  - specialize (Hfin (l_pending_shared l)). destruct l; apply Hfin.
    intros p c Hin. split; [done|]. intros ->.
    apply (li_shared _ _ _ Hi) in Hin as [_ Hmc].
    unfold mode_of in Hmc. rewrite Hcd in Hmc. simpl in Hmc. congruence.
Qed.

(** ** Acquiring *)

(** [t] has become an owner and nothing else changed for the threads. *)
Definition acquired (t : tid) (shared : bool) (l l' : slock) : Prop :=
  can_acquire shared l = true ∧ same_threads (do_acquire t shared l) l'.

(** What an acquire attempt may do to the lock. *)
Definition acquire_post (t : tid) (shared : bool) (p : Z) (l l' : slock)
    (o : outcome) : Prop :=
  match o with
  | Returned true =>
      acquired t shared l l' ∧
      ∀ t' fr', l_blocked l !! t' = Some fr' → (p ≤ f_prio fr')%Z
  | Returned false => same_threads l l'
  | Blocked => ∃ fr, f_prio fr = p ∧ f_shared fr = shared ∧
      same_threads (set_blocked (<[t := fr]> (l_blocked l)) l) l'
  | LockDeleted => l_deleted l = true ∧ same_threads l l'
  end.

Lemma acquire_post_threads t shared p l1 l2 l3 o :
  same_threads l1 l2 → acquire_post t shared p l2 l3 o →
  acquire_post t shared p l1 l3 o.
Proof.
  intros (H1 & H2 & H3 & H4). unfold acquire_post, acquired, can_acquire,
    do_acquire, same_threads, set_owner, set_blocked.
  destruct o as [[]| |], shared; simpl; by rewrite H1, H2, H3, H4.
Qed.

Lemma can_acquire_excl l : can_acquire false l = true → l_exc l = None ∧ l_shr l = ∅.
Proof.
  unfold can_acquire. rewrite andb_true_iff, !bool_decide_eq_true. tauto.
Qed.

Lemma free_can_acquire shared l : free l → can_acquire shared l = true.
Proof.
  intros (_ & Hx & Hs). unfold can_acquire. rewrite Hx, Hs. by destruct shared.
Qed.

(** Taking the lock keeps the invariant. *)
Lemma do_acquire_inv x lv l t shared :
  lock_inv x lv l → can_acquire shared l = true → l_deleted l = false →
  l_blocked l !! t = None → lock_inv x lv (do_acquire t shared l).
Proof.
  intros Hi Hcan Hd Ht.
  assert (¬ free (do_acquire t shared l)) as Hnf.
  { unfold free, do_acquire. destruct shared; simpl; [|naive_solver].
    intros (_ & _ & ?). set_solver. }
  assert (owner_ok (do_acquire t shared l)) as Ho.
  { destruct (li_owner _ _ _ Hi) as [Hx Hdel Hidle]. unfold can_acquire in Hcan.
    destruct shared; split; simpl; unfold owns; simpl.
    - apply bool_decide_eq_true in Hcan. by rewrite Hcan.
    - congruence.
    - intros t' [?|[->%elem_of_singleton|?]%elem_of_union]; [|done|];
        apply Hidle; unfold owns; auto.
    - intros _ _. by apply andb_true_iff in Hcan as [Hs%bool_decide_eq_true _].
    - congruence.
    - intros t' [[= ->]|?]; [done|]. apply Hidle. unfold owns; auto. }
  destruct Hi as [_ [] ? ? ? ? ? ? ? ? ?].
  destruct shared; (split; [exact Ho|by split|done..|
    intros ? Hf; by destruct Hnf|done]).
Qed.

(** Blocking on the condition. *)
Lemma block_inv l t fr s n e :
  lock_inv (Some (f_cond fr)) true l → frame_ok l fr → l_deleted l = false →
  l_blocked l !! t = None → ¬ owns l t →
  (free l → ¬ top l (f_prio fr) (f_cond fr)) →
  cond_inv (<[t := (f_cond fr, s)]> (waits l)) e →
  (∀ c', mode_of e c' = mode_of (l_env l) c') →
  (∀ s', notified e s' = notified (l_env l) s') →
  lock_inv None true
    (set_blocked (<[t := Frame (f_shared fr) (f_timeout fr) (f_prio fr) (f_queue fr)
                               (f_cond fr) (f_start fr) (f_delete fr) s n]>
                    (l_blocked l)) (set_env e l)).
Proof.
  intros Hi Hfr Hdel Ht Hown Hnt Hci Hmode Hnot.
  set (fr' := Frame _ _ _ _ _ _ _ _ _). set (l' := set_blocked _ _).
  assert (∀ p, queue_at l' p = queue_at l p) as Hat by done.
  assert (∀ fr, frame_ok l fr → frame_ok l' fr) as Hfok.
  { intros f (? & ? & ? & ?). split_and!; try done. simpl. by rewrite Hmode. }
  split.
  - destruct (li_owner _ _ _ Hi) as [? ? Hidle]. split; [done..|]. simpl.
    intros t' Ht'. rewrite lookup_insert_ne; [by apply Hidle|].
    intros <-. by apply Hown.
  - destruct (li_queues _ _ _ Hi). by split.
  - unfold waits. simpl. by rewrite fmap_insert.
  - apply Hi.
  - apply Hi.
  - intros p c Hc. right. simpl.
    destruct (li_entry _ _ _ Hi _ _ Hc) as [[= <-]|(t' & fr0 & Ht' & ?)].
    + exists t, fr'. by rewrite lookup_insert_eq.
    + exists t', fr0. rewrite lookup_insert_ne by congruence. done.
  - intros p c Hc. simpl. rewrite Hmode. by eapply (li_mode _ _ _ Hi).
  - intros t' fr0. simpl. rewrite lookup_insert.
    case_decide; intros; simplify_eq; [by apply (Hfok fr)|].
    by eapply Hfok, (li_frame _ _ _ Hi).
  - intros p c Hc. simpl. rewrite Hmode. by apply (li_shared _ _ _ Hi).
  - intros _ Hf p c t' fr0 Htop. simpl. rewrite Hnot, lookup_insert.
    case_decide; intros; simplify_eq; [|by eapply (li_live _ _ _ Hi)].
    exfalso. apply Hnt; [done|].
    assert (p = f_prio fr) as ->; [|done].
    eapply (li_disj _ _ _ Hi); [|apply Hfr].
    destruct Htop as [[cs Hq] _]. rewrite Hat in Hq. rewrite Hq. set_solver.
  - intros _. simpl. congruence.
Qed.

(** The waiting loop: acquire, give up or block. *)
Lemma loop_body_ok l t fr n1 n2 :
  lock_inv (Some (f_cond fr)) true l → frame_ok l fr → l_deleted l = false →
  l_blocked l !! t = None → ¬ owns l t →
  ∃ l' o, loop_body t fr n1 n2 l = Ok (l', o) ∧ lock_inv None true l' ∧
          acquire_post t (f_shared fr) (f_prio fr) l l' o ∧ o ≠ LockDeleted ∧
          (free l → top l (f_prio fr) (f_cond fr) → o = Returned true).
Proof.
  intros Hi Hfr Hdel Ht Hown. unfold loop_body.
  destruct (is_on_top_ok _ _ _ (f_prio fr) (f_cond fr) Hi) as
    (l1 & b & -> & Hi1 & Hs & Hb); [apply Hfr|]. simpl.
  pose proof (same_queues_frame _ _ _ Hs Hfr) as Hfr1.
  pose proof (same_queues_threads _ _ Hs) as Hst.
  assert (l_deleted l1 = false) as Hdel1 by (by rewrite (sq_deleted _ _ Hs)).
  assert (¬ owns l1 t) as Hown1.
  { unfold owns. by rewrite (sq_exc _ _ Hs), (sq_shr _ _ Hs). }
  assert (l_blocked l1 !! t = None) as Ht1 by (by rewrite (sq_blocked _ _ Hs)).
  destruct (b && can_acquire (f_shared fr) l1) eqn:Hgo.
  { apply andb_true_iff in Hgo as [-> Hcan].
    destruct (proj1 Hb eq_refl) as [p Htop].
    destruct (leave_queue_ok true (do_acquire t (f_shared fr) l1) fr)
      as (l2 & -> & Hi2 & Hst2).
    - by apply do_acquire_inv.
    - by destruct (f_shared fr).
    - unfold free, do_acquire. destruct (f_shared fr); simpl; [|naive_solver].
      intros (_ & _ & ?). set_solver.
    - eexists _, _. split; [done|]. split; [done|]. split; [|done].
      eapply acquire_post_threads; [done|]. split; [done|].
      intros t' fr' Hfr'.
      destruct (li_frame _ _ _ Hi1 _ _ Hfr') as (_ & Hc' & _).
      destruct (decide (f_prio fr ≤ f_prio fr')%Z); [done|exfalso].
      destruct Htop as [[cs Hat] Hlt].
      assert (p = f_prio fr) as ->.
      { eapply (li_disj _ _ _ Hi1); [|apply Hfr1]. rewrite Hat. set_solver. }
      rewrite Hlt in Hc' by lia. set_solver. }
  assert (free l1 → ¬ top l1 (f_prio fr) (f_cond fr)) as Hnt.
  { intros Hf Htop. rewrite (free_can_acquire _ _ Hf), andb_true_r in Hgo.
    subst b. assert (false = true); [|done]. apply Hb. eauto. }
  assert (free l → top l (f_prio fr) (f_cond fr) → False) as Hnt0.
  { intros Hf%(same_threads_free _ _ Hst) Htop%(same_queues_top _ _ _ _ Hs).
    by apply Hnt. }
  destruct (timeout_expired fr n1).
  { destruct (leave_queue_ok true l1 fr) as (l2 & -> & Hi2 & Hst2); [done..|].
    eexists _, _. split; [done|]. split; [done|].
    split_and!; [by eapply acquire_post_threads|done|by intros; exfalso; eauto]. }
  destruct (wait_begin_ok (waits l1) (l_env l1) t (f_cond fr))
    as (e' & s & -> & Hci & Hmode & Hnot);
    [apply Hi1|unfold waits; by rewrite lookup_fmap, Ht1|
     destruct Hfr1 as (_ & _ & -> & _); done|]. simpl.
  eexists _, _. split; [done|]. split_and!.
  - by apply block_inv.
  - eapply acquire_post_threads; [done|].
    eexists (Frame _ _ _ _ _ _ _ _ _). unfold same_threads. by split_and!.
  - done.
  - intros; exfalso; eauto.
Qed.

(** ** Queueing *)

Lemma get_prioqueue_ok x lv l p :
  lock_inv x lv l →
  ∃ l' q, get_prioqueue p l = Ok (l', q) ∧ lock_inv x lv l' ∧
          same_threads l l' ∧ l_by_prio l' !! p = Some q ∧
          l_env l' = l_env l ∧ l_pending_shared l' = l_pending_shared l ∧
          ∀ p', queue_at l' p' = queue_at l p'.
Proof.
  intros Hi. pose proof (li_queues _ _ _ Hi) as Hq. unfold get_prioqueue.
  destruct (l_by_prio l !! p) as [q|] eqn:Hp.
  { exists l, q. by split_and!. }
  set (q := l_next_queue l).
  assert (NoDup ((l_pending l ++ [(p, q)]).*1)) as Hnd.
  { rewrite fmap_app. apply NoDup_app. split_and!; [apply Hq| |apply NoDup_singleton].
    intros p' [[p0 q'] [Hp0 Hin]]%list_elem_of_fmap Hp'%list_elem_of_singleton.
    simpl in *. apply (qo_dict _ Hq) in Hin. congruence. }
  destruct (heappush_correct entry_cmp prio_lt (l_pending l) (p, q))
    as (h & -> & Hperm & Hh); [by apply pending_comparable|apply Hq|]. simpl.
  eexists _, _. split; [done|].
  assert (∀ p' q', l_by_prio l !! p' = Some q' → q' ≠ q) as Hne.
  { intros p' q' Hp' ->. destruct (qo_store _ Hq _ _ Hp') as [cs Hcs].
    apply (qo_fresh _ Hq) in Hcs. unfold q in Hcs. lia. }
  set (l' := SLock _ _ _ _ _ _ _ _ _ _).
  assert (∀ p', queue_at l' p' = queue_at l p') as Hat.
  { intros p'. unfold queue_at, l'. simpl. rewrite lookup_insert. case_decide.
    - subst. by rewrite Hp, lookup_insert_eq.
    - destruct (l_by_prio l !! p') as [q'|] eqn:Hp'; [|done].
      rewrite lookup_insert_ne; [done|]. by apply not_eq_sym, (Hne p'). }
  split; [|split_and!; try done; simpl; by rewrite lookup_insert_eq].
  assert (queues_ok l') as Hq'.
  { split; simpl; [done| |..].
    - rewrite Hperm. by rewrite fmap_app, Permutation_app_comm in Hnd.
    - intros p' q'. rewrite Hperm, elem_of_cons, (qo_dict _ Hq), lookup_insert.
      case_decide; naive_solver congruence.
    - intros p1 p2 q'. rewrite !lookup_insert.
      pose proof (qo_inj _ Hq p1 p2 q'). repeat case_decide; naive_solver.
    - intros p' q'. rewrite !lookup_insert. repeat case_decide; try done.
      + naive_solver.
      + apply Hq.
    - intros q' cs. rewrite lookup_insert. case_decide; intros Hcs; [subst; lia|].
      apply (qo_fresh _ Hq) in Hcs. lia. }
  destruct Hi as [[] _ ? ? ? ? ? Hfr ? Hlive ?].
  split; [by split|done|done|..]; intros *; rewrite ?Hat; simpl; eauto.
  - intros (? & ? & ? & ?)%Hfr. split_and!; simpl; rewrite ?Hat; try done.
    rewrite lookup_insert_ne; [done|]. congruence.
  - unfold top. setoid_rewrite Hat. eauto.
Qed.

(** The running thread's condition is queued at its priority. *)
Definition queued (shared : bool) (p : Z) (q c : nat) (l : slock) : Prop :=
  l_by_prio l !! p = Some q ∧ c ∈ queue_at l p ∧
  mode_of (l_env l) c = Some shared.

(** A new condition at the end of a queue. *)
Lemma append_cond_inv lv l p q c shared e m :
  lock_inv None lv l → l_by_prio l !! p = Some q →
  cond_inv (waits l) e → mode_of (l_env l) c = None →
  (∀ c', mode_of e c' = if decide (c = c') then Some shared else mode_of (l_env l) c') →
  (∀ s', notified e s' = notified (l_env l) s') →
  (∀ p' c', m !! p' = Some c' → l_pending_shared l !! p' = Some c' ∨
     p' = p ∧ c' = c ∧ shared = true) →
  lock_inv (Some c) lv
    (set_pending_shared m (set_queue q (queue_at l p ++ [c]) (set_env e l))).
Proof.
  intros Hi Hp Hci Hfresh Hmode Hnot Hms. pose proof (li_queues _ _ _ Hi) as Hq.
  set (l' := set_pending_shared _ _).
  assert (∀ p', queue_at l' p' = if decide (p = p') then queue_at l p ++ [c]
                                 else queue_at l p') as Hat.
  { intros p'. apply (queue_at_set_queue l); done. }
  assert (∀ p' d, d ∈ queue_at l p' → c ≠ d ∧ mode_of e d = mode_of (l_env l) d) as Hold.
  { intros p' d Hd. destruct (li_mode _ _ _ Hi _ _ Hd) as [b Hb].
    assert (c ≠ d) by congruence. split; [done|]. by rewrite Hmode, decide_False. }
  assert (∀ p' d, d ∈ queue_at l' p' ↔ d ∈ queue_at l p' ∨ p' = p ∧ d = c) as Hin.
  { intros p' d. rewrite Hat. case_decide; [|naive_solver]. subst.
    rewrite elem_of_app, list_elem_of_singleton. naive_solver. }
  split; simpl.
  - destruct (li_owner _ _ _ Hi). by split.
  - assert (queues_ok (set_queue q (queue_at l p ++ [c]) l)) as []
      by (by eapply queues_ok_set_queue). by split.
  - done.
  - intros p'. rewrite Hat. case_decide; [|apply Hi]. subst.
    apply NoDup_app. split_and!; [apply Hi| |apply NoDup_singleton].
    intros d Hd ->%list_elem_of_singleton. by destruct (Hold _ _ Hd).
  - intros p1 p2 d. rewrite !Hin. intros [H1|[-> ->]] [H2|[-> He]]; subst; try done.
    + by eapply (li_disj _ _ _ Hi).
    + by destruct (Hold _ _ H1).
    + by destruct (Hold _ _ H2).
  - intros p' d [Hd|[-> ->]]%Hin; [right|by left].
    by destruct (li_entry _ _ _ Hi _ _ Hd).
  - intros p' d [Hd|[-> ->]]%Hin.
    + destruct (Hold _ _ Hd) as [_ ->]. by eapply (li_mode _ _ _ Hi).
    + by rewrite Hmode, decide_True.
  - intros t fr (? & Hd & ? & ?)%(li_frame _ _ _ Hi). split_and!; try done.
    + apply Hin. by left.
    + simpl. by destruct (Hold _ _ Hd) as [_ ->].
  - intros p' c' [Hs|(-> & -> & ->)]%Hms.
    + apply (li_shared _ _ _ Hi) in Hs as [Hd ?]. split; [apply Hin; by left|].
      by destruct (Hold _ _ Hd) as [_ ->].
    + split; [apply Hin; by right|]. by rewrite Hmode, decide_True.
  - intros Hlv Hf p' d t fr [[ds Hd] Hlt] Ht He. rewrite Hnot.
    destruct (li_frame _ _ _ Hi _ _ Ht) as (_ & Hfd & _). rewrite He in Hfd.
    eapply (li_live _ _ _ Hi); [done|done| |done|done]. instantiate (1 := p').
    split.
    + rewrite Hat in Hd. case_decide; [subst|by eexists].
      destruct (queue_at l p'); simplify_eq/=; [|by eexists].
      by destruct (Hold _ _ Hfd).
    + intros p0 Hp0. specialize (Hlt p0 Hp0). rewrite Hat in Hlt.
      case_decide; [|done]. by apply app_eq_nil in Hlt as [].
  - intros Hlv Hd t fr Ht. rewrite Hnot. by eapply (li_dead _ _ _ Hi).
Qed.

Lemma lock_inv_weaken x lv l : lock_inv None lv l → lock_inv x lv l.
Proof.
  intros [? ? ? ? ? Hent ? ? ? ? ?]. split; try done.
  intros p c Hc. right. by destruct (Hent _ _ Hc).
Qed.

Lemma find_condition_ok lv l shared p :
  lock_inv None lv l →
  ∃ l' q c, find_condition shared p l = Ok (l', (q, c)) ∧
            lock_inv (Some c) lv l' ∧ queued shared p q c l' ∧ same_threads l l'.
Proof.
  intros Hi. unfold find_condition.
  destruct (if shared then _ else _) as [c|] eqn:Hc.
  - destruct shared; [|done].
    destruct (li_shared _ _ _ Hi _ _ Hc) as [Hin Hm].
    destruct (l_by_prio l !! p) as [q|] eqn:Hp;
      [|unfold queue_at in Hin; rewrite Hp in Hin; set_solver].
    rewrite (deref_queue_at _ p) by (done || apply Hi). simpl.
    pose proof Hm as Hm'. unfold mode_of in Hm'. unfold lookup_cond.
    destruct (e_conds (l_env l) !! c) as [cd|]; [|done]. simpl in *.
    injection Hm' as ->. rewrite bool_decide_true by done. simpl.
    exists l, q, c. split_and!; [done|by apply lock_inv_weaken|done..].
  - unfold enqueue.
    destruct (get_prioqueue_ok _ _ _ p Hi) as
      (l1 & q & -> & Hi1 & Hst & Hp & Henv & Hsh & Hat). cbn [rbind].
    destruct (new_cond shared (l_env l1)) as [e c] eqn:Hnew.
    destruct (new_cond_ok (waits l1) _ _ _ _ (li_cond _ _ _ Hi1) Hnew)
      as (Hci & Hfresh & Hmode & Hnot).
    change (deref q (set_env e l1)) with (deref q l1).
    rewrite (deref_queue_at _ p) by (done || apply Hi1). cbn [rbind].
    pose proof (λ m, append_cond_inv lv l1 p q c shared e m Hi1 Hp Hci Hfresh Hmode Hnot)
      as Hfin.
    assert (∀ m, queued shared p q c (set_pending_shared m
      (set_queue q (queue_at l1 p ++ [c]) (set_env e l1)))) as Hqd.
    { intros m. split; [done|]. split; [|simpl; by rewrite Hmode, decide_True].
      unfold queue_at at 1. simpl. rewrite Hp, lookup_insert_eq. simpl. set_solver. }
    destruct shared.
    + simpl. rewrite Hsh, bool_decide_true by done. simpl.
      eexists _, _, _. split; [done|]. split_and!; [|apply Hqd|done].
      apply Hfin. intros p' c'. rewrite Hsh, lookup_insert_Some. naive_solver.
    + eexists _, _, _. split; [done|].
      specialize (Hfin (l_pending_shared l1)). specialize (Hqd (l_pending_shared l1)).
      split_and!; [destruct l1; apply Hfin; auto|by destruct l1|done].
Qed.

Lemma not_owns t l : is_owned t l = false ↔ ¬ owns l t.
Proof.
  unfold is_owned, is_owned_mode, is_sharer, is_exclusive, owns. simpl.
  rewrite orb_false_iff, !bool_decide_eq_false. tauto.
Qed.

(** [__acquire_unlocked] for a thread that does not own the lock. *)
Lemma acquire_unlocked_ok l t shared timeout p n1 n2 n3 del :
  lock_inv None true l → l_blocked l !! t = None → is_owned t l = false →
  (del = true → shared = false) →
  ∃ l' o, acquire_unlocked t shared timeout p n1 n2 n3 del l = Ok (l', o) ∧
          lock_inv None true l' ∧ acquire_post t shared p l l' o.
Proof.
  intros Hi Ht Hown Hdelsh. unfold acquire_unlocked.
  destruct (l_deleted l) eqn:Hdel; [by exists l, LockDeleted|].
  rewrite Hown. simpl.
  destruct (find_first_ok _ _ _ Hi) as (l1 & first & -> & Hi1 & Hs & Hf). simpl.
  pose proof (same_queues_threads _ _ Hs) as Hst.
  apply not_owns in Hown.
  assert (l_deleted l1 = false) as Hdel1 by (by rewrite (sq_deleted _ _ Hs)).
  assert (l_blocked l1 !! t = None) as Ht1 by (by rewrite (sq_blocked _ _ Hs)).
  destruct (bool_decide _ && _) eqn:Hgo.
  { apply andb_true_iff in Hgo as [Hpend%bool_decide_eq_true Hcan].
    eexists _, _. split; [done|]. split; [by apply do_acquire_inv|].
    eapply acquire_post_threads; [done|]. split; [by split|].
    intros t' fr' (Hq & _)%(li_frame _ _ _ Hi1).
    apply (qo_dict _ (li_queues _ _ _ Hi1)) in Hq. rewrite Hpend in Hq. set_solver. }
  destruct (match timeout with Some _ => _ | None => _ end).
  { eexists _, _. split; [done|]. by split. }
  destruct (find_condition_ok true l1 shared p Hi1) as
    (l2 & q & c & -> & Hi2 & (Hq & Hc & Hm) & Hst2). simpl.
  set (fr := Frame _ _ _ _ _ _ _ _ _).
  pose proof (same_threads_trans _ _ _ Hst Hst2) as (Hd2 & Hx2 & Hs2 & Hb2).
  destruct (loop_body_ok l2 t fr n2 n3) as (l3 & o & -> & Hi3 & Hpost & _ & _).
  - done.
  - by split_and!.
  - congruence.
  - by rewrite Hb2.
  - unfold owns. by rewrite Hx2, Hs2.
  - exists l3, o. split_and!; [done..|].
    eapply acquire_post_threads; [|done]. by split_and!.
Qed.

(** ** Notifying *)

(** Only the condition store changed, and no notification was lost. *)
Definition env_step (l l' : slock) : Prop :=
  l' = set_env (l_env l') l ∧
  (∀ c, mode_of (l_env l') c = mode_of (l_env l) c) ∧
  (∀ s, notified (l_env l) s = true → notified (l_env l') s = true).

Lemma env_step_refl l : env_step l l.
Proof. split_and!; [by destruct l|done|done]. Qed.

Lemma env_step_trans l1 l2 l3 : env_step l1 l2 → env_step l2 l3 → env_step l1 l3.
Proof.
  intros (H1 & H2 & H3) (H1' & H2' & H3'). split_and!.
  - rewrite H1' at 1. rewrite H1 at 1. done.
  - intros c. by rewrite H2'.
  - auto.
Qed.

Lemma env_step_threads l l' : env_step l l' → same_threads l l'.
Proof. intros (-> & _). by split_and!. Qed.

(** The threads waiting on [c] have all been notified. *)
Definition all_notified (c : cid) (l : slock) : Prop :=
  ∀ t fr, l_blocked l !! t = Some fr → f_cond fr = c →
          notified (l_env l) (f_single fr) = true.

Lemma all_notified_step c l l' : env_step l l' → all_notified c l → all_notified c l'.
Proof.
  intros (-> & _ & Hn) Hc t fr Ht Hfr. simpl in *. eapply Hn, Hc; done.
Qed.

Lemma env_step_inv x lv l l' :
  env_step l l' → cond_inv (waits l) (l_env l') → lock_inv x lv l → lock_inv x lv l'.
Proof.
  intros (He & Hmode & Hn) Hci Hi. rewrite He. clear He.
  set (e := l_env l') in *.
  assert (∀ fr, frame_ok l fr → frame_ok (set_env e l) fr) as Hfok.
  { intros fr (? & ? & ? & ?). split_and!; try done. simpl. by rewrite Hmode. }
  destruct Hi as [[] [] ? ? ? ? Hm ? Hsh Hlive ?].
  split; [by split|by split|done..| | | | |]; simpl; intros *; rewrite ?Hmode.
  - apply Hm.
  - intros ?. eapply Hfok; eauto.
  - apply Hsh.
  - intros. by eapply Hn, Hlive.
  - intros. by eapply Hn, li_dead0.
Qed.

Lemma notify_cond_ok x lv l c :
  lock_inv x lv l → is_Some (mode_of (l_env l) c) →
  ∃ l', notify_cond c l = Ok l' ∧ lock_inv x lv l' ∧ env_step l l' ∧ all_notified c l'.
Proof.
  intros Hi Hm. unfold notify_cond.
  destruct (notify_all_ok (waits l) (l_env l) c) as (e & -> & Hci & Hmode & Hn & Hc);
    [apply Hi|done|]. simpl.
  assert (env_step l (set_env e l)) as Hs by (by split_and!).
  eexists. split; [done|]. split_and!; [by eapply env_step_inv|done|].
  intros t fr Ht <-. eapply Hc. by apply blocked_waits.
Qed.

Lemma drop_shared_inv x lv l p :
  lock_inv x lv l →
  lock_inv x lv (set_pending_shared (delete p (l_pending_shared l)) l).
Proof.
  intros [[] [] ? ? ? ? ? ? Hs ? ?]. split; try done.
  simpl. intros p' c [_ ?]%lookup_delete_Some. by apply Hs.
Qed.

(** [__notify_topmost] sends the notification a free lock owes. *)
Lemma notify_topmost_ok lv l :
  lock_inv None lv l → lv = true ∨ l_deleted l = false →
  ∃ l', notify_topmost l = Ok l' ∧ lock_inv None true l' ∧ same_threads l l'.
Proof.
  intros Hi Hlv. unfold notify_topmost.
  destruct (find_first_ok _ _ _ Hi) as (l1 & first & -> & Hi1 & Hs & Hf). simpl.
  pose proof (same_queues_threads _ _ Hs) as Hst.
  assert (∀ l2, lock_inv None lv l2 → same_threads l l2 →
    (∀ p c, top l2 p c → all_notified c l2) → lock_inv None true l2) as Hfin.
  { intros l2 Hi2 (Hd & _) Hall.
    pose proof (li_dead _ _ _ Hi2) as Hdead. destruct Hi2. split; try done.
    - intros _ _ p c t fr Htop Ht Hc. by eapply (Hall p c).
    - intros _ Hd2. destruct Hlv as [->|]; [by apply Hdead|congruence]. }
  destruct first as [[p q]|]; cycle 1.
  { exists l1. split_and!; [done| |done]. apply Hfin; [done..|].
    intros p c [[cs Hat] _]. destruct Hf as [_ Hf]. by rewrite Hf in Hat. }
  destruct Hf as [Hp [c Htop]].
  rewrite (deref_queue_at _ p) by (done || apply Hi1). simpl.
  destruct (id Htop) as [[cs Hat] _]. rewrite Hat.
  destruct (notify_cond_ok _ _ _ c Hi1) as (l2 & -> & Hi2 & He & Hall).
  { eapply (li_mode _ _ _ Hi1 p). rewrite Hat. set_solver. }
  simpl. pose proof (same_threads_trans _ _ _ Hst (env_step_threads _ _ He)) as Hst2.
  assert (lock_inv None true l2) as Hi2'.
  { apply Hfin; [done..|]. intros p' c' Htop'.
    assert (top l1 p' c') as Htop1 by (by rewrite (proj1 He) in Htop').
    by destruct (top_unique _ _ _ _ _ Htop Htop1) as [-> ->]. }
  unfold lookup_cond. destruct (li_mode _ _ _ Hi2 p c) as [b Hb].
  { rewrite (proj1 He). change (c ∈ queue_at l1 p). rewrite Hat. set_solver. }
  unfold mode_of in Hb. destruct (e_conds (l_env l2) !! c) as [cd|]; [|done].
  simpl. destruct (c_shared cd); (eexists; split; [done|]; split); try done.
  by apply drop_shared_inv.
Qed.

(** ** Release *)

(** Giving up ownership; the notification is still owed. *)
Lemma set_owner_inv l d x s :
  lock_inv None true l → (∀ t, x = Some t → s = ∅) → (d = true → x = None ∧ s = ∅) →
  (∀ t, x = Some t ∨ t ∈ s → owns l t) → lock_inv None false (set_owner d x s l).
Proof.
  intros [[] [] ? ? ? ? ? ? ? ? ?] Hx Hd Hsub.
  split; try done. split; try done.
  intros t Ht%Hsub. auto.
Qed.

Lemma lock_inv_lv l :
  lock_inv None false l → (l_deleted l = false ∧ ¬ free l) → lock_inv None true l.
Proof.
  intros Hi [Hd Hf]. destruct Hi. split; try done. intros. congruence.
Qed.

(** The abstract effect of [release]. *)
Definition released (t : tid) (l l' : slock) : Prop :=
  l_deleted l' = l_deleted l ∧ l_blocked l' = l_blocked l ∧
  if bool_decide (l_exc l = Some t) then l_exc l' = None ∧ l_shr l' = l_shr l
  else l_exc l' = l_exc l ∧ l_shr l' = l_shr l ∖ {[t]}.

Lemma owned_not_deleted x lv l t : lock_inv x lv l → owns l t → l_deleted l = false.
Proof.
  intros Hi Ht. destruct (l_deleted l) eqn:Hd; [|done].
  destruct (oo_deleted _ (li_owner _ _ _ Hi) Hd) as [Hx Hs].
  destruct Ht; [congruence|set_solver].
Qed.

Lemma release_ok l t :
  lock_inv None true l → owns l t →
  ∃ l', release t l = Ok l' ∧ lock_inv None true l' ∧ released t l l'.
Proof.
  intros Hi Ht. pose proof (owned_not_deleted _ _ _ _ Hi Ht) as Hdel.
  pose proof (li_owner _ _ _ Hi) as [Hox _ _].
  unfold release, is_exclusive, is_sharer, released.
  assert (bool_decide (l_exc l = Some t) || bool_decide (t ∈ l_shr l) = true) as ->.
  { apply orb_true_iff. rewrite !bool_decide_eq_true. done. }
  simpl. case_bool_decide as Hx.
  - destruct (notify_topmost_ok false (set_owner (l_deleted l) None (l_shr l) l))
      as (l' & -> & Hi' & (? & ? & ? & ?)).
    + apply set_owner_inv; [done|done|congruence|]. intros t' [?|?]; [done|by right].
    + by right.
    + exists l'. by split_and!.
  - assert (lock_inv None false
      (set_owner (l_deleted l) (l_exc l) (l_shr l ∖ {[t]}) l)) as Hi1.
    { apply set_owner_inv; [done| |congruence|].
      - intros t' Hx'. rewrite (Hox t' Hx'). set_solver.
      - intros t' [?|?]; [by left|right; set_solver]. }
    case_bool_decide as He.
    + destruct (notify_topmost_ok false _ Hi1) as (l' & -> & Hi' & (? & ? & ? & ?));
        [by right|]. exists l'. by split_and!.
    + eexists. split; [done|]. split; [|by split_and!].
      apply lock_inv_lv; [done|]. split; [done|]. intros (_ & _ & ?). done.
Qed.

(** ** Downgrade *)

Lemma reorder_queue_inv lv l p q cs :
  lock_inv None lv l → l_by_prio l !! p = Some q → cs ≡ₚ queue_at l p →
  ¬ free l → lock_inv None lv (set_queue q cs l).
Proof.
  intros Hi Hp Hperm Hf. pose proof (li_queues _ _ _ Hi) as Hq.
  assert (∀ p', queue_at (set_queue q cs l) p' ≡ₚ queue_at l p') as Hat.
  { intros p'. rewrite (queue_at_set_queue _ p) by done. by case_decide; subst. }
  assert (queues_ok (set_queue q cs l)) by (by eapply queues_ok_set_queue).
  destruct Hi as [[] _ ? ? ? ? ? Hfr ? ? ?].
  split; [by split|done|done|..]; simpl; try setoid_rewrite Hat; try done.
  intros t fr (? & ? & ? & ?)%Hfr. split_and!; try done. by rewrite Hat.
Qed.

Lemma promote_shared_ok l :
  lock_inv None true l → ¬ free l →
  ∃ l', promote_shared l = Ok l' ∧ lock_inv None true l' ∧ same_threads l l'.
Proof.
  intros Hi Hnf. unfold promote_shared.
  destruct (find_first_ok _ _ _ Hi) as (l1 & first & -> & Hi1 & Hs & Hf). simpl.
  pose proof (same_queues_threads _ _ Hs) as Hst.
  rewrite <-(same_threads_free _ _ Hst) in Hnf.
  destruct first as [[p q]|]; [|by exists l1]. destruct Hf as [Hp _].
  destruct (l_pending_shared l1 !! p) as [c|] eqn:Hc; [|by exists l1].
  destruct (li_shared _ _ _ Hi1 _ _ Hc) as [Hin Hm].
  apply (drop_shared_inv _ _ _ p) in Hi1.
  set (l2 := set_pending_shared _ l1) in *.
  rewrite (deref_queue_at _ p) by (done || apply Hi1). simpl.
  pose proof Hm as Hm'. unfold mode_of in Hm'. unfold lookup_cond.
  destruct (e_conds (l_env l1) !! c) as [cd|]; [|done]. simpl in *.
  injection Hm' as ->. change (queue_at l2 p) with (queue_at l1 p).
  rewrite (bool_decide_true (c ∈ _)) by done. simpl.
  assert (∃ l3, (if bool_decide (1 < length (queue_at l1 p))
    then let* prioqueue := list_remove1 c (queue_at l1 p) in
         Ok (set_queue q (c :: prioqueue) l2)
    else Ok l2) = Ok l3 ∧ lock_inv None true l3 ∧ same_threads l1 l3 ∧
    mode_of (l_env l3) c = Some true) as (l3 & -> & Hi3 & Hst3 & Hm3).
  { case_bool_decide; [|by exists l2].
    destruct (list_remove1_ok _ _ Hin) as (cs' & -> & Hperm & _). simpl.
    eexists. split; [done|]. split_and!; [|done..].
    by apply (reorder_queue_inv _ _ p). }
  simpl. destruct (notify_cond_ok _ _ _ c Hi3) as (l4 & -> & Hi4 & He & _);
    [by rewrite Hm3|].
  exists l4. split_and!; [done..|].
  eapply same_threads_trans; [done|].
  eapply same_threads_trans; [done|]. by apply env_step_threads.
Qed.

(** The abstract effect of [downgrade]. *)
Definition downgraded (t : tid) (l l' : slock) : Prop :=
  l_deleted l' = l_deleted l ∧ l_blocked l' = l_blocked l ∧ l_exc l' = None ∧
  l_shr l' = {[t]} ∪ l_shr l.

Lemma downgrade_ok l t :
  lock_inv None true l → owns l t →
  ∃ l', downgrade t l = Ok l' ∧ lock_inv None true l' ∧ downgraded t l l'.
Proof.
  intros Hi Ht. pose proof (owned_not_deleted _ _ _ _ Hi Ht) as Hdel.
  pose proof (li_owner _ _ _ Hi) as [Hox _ Hidle].
  unfold downgrade. destruct (is_owned t l) eqn:Ho; [|by apply not_owns in Ho].
  cbn [py_assert rbind].
  unfold is_exclusive at 1. case_bool_decide as Hx.
  - assert (l_shr l = ∅) as Hshr by (by eapply Hox).
    set (l1 := do_acquire t true _).
    assert (lock_inv None false l1) as Hi1.
    { change l1 with (set_owner (l_deleted l) None ({[t]} ∪ l_shr l) l).
      apply set_owner_inv; [done|done|congruence|].
      intros t' [?|[->%elem_of_singleton|?]%elem_of_union]; [done|by left|by right]. }
    assert (¬ free l1) as Hnf by (unfold free; simpl; set_solver).
    destruct (promote_shared_ok l1) as (l2 & -> & Hi2 & (Hd2 & Hx2 & Hs2 & Hb2)).
    + apply lock_inv_lv; [done|]. by split.
    + done.
    + simpl in *. unfold is_exclusive, is_sharer. rewrite Hx2, Hs2.
      rewrite (bool_decide_false (None = _)), (bool_decide_true (t ∈ _)) by set_solver.
      exists l2. by split_and!.
  - destruct Ht as [?|Ht]; [done|]. simpl. unfold is_exclusive, is_sharer.
    rewrite bool_decide_false, bool_decide_true by done. simpl.
    exists l. split; [done|]. split; [done|].
    unfold downgraded. split_and!; [done..| |set_solver]. destruct (l_exc l) eqn:E; [|done].
    rewrite (Hox _ eq_refl) in Ht. set_solver.
Qed.

(** ** Deletion *)

Lemma notify_conds_ok lv l cs :
  lock_inv None lv l → (∀ c, c ∈ cs → is_Some (mode_of (l_env l) c)) →
  ∃ l', notify_conds cs l = Ok l' ∧ lock_inv None lv l' ∧ env_step l l' ∧
        ∀ c, c ∈ cs → all_notified c l'.
Proof.
  revert l. induction cs as [|c cs IH]; intros l Hi Hm; simpl.
  { exists l. split_and!; [done..|apply env_step_refl|set_solver]. }
  destruct (notify_cond_ok _ _ _ c Hi) as (l1 & -> & Hi1 & He1 & Hall);
    [apply Hm; set_solver|]. simpl.
  destruct (IH l1 Hi1) as (l2 & -> & Hi2 & He2 & Hall2).
  { intros c' Hc'. destruct He1 as (_ & -> & _). apply Hm. set_solver. }
  exists l2. split_and!; [done..|by eapply env_step_trans|].
  intros c' [->|?]%elem_of_cons; [by eapply all_notified_step|by apply Hall2].
Qed.

Lemma notify_queues_ok lv l h :
  lock_inv None lv l → (∀ p q, (p, q) ∈ h → l_by_prio l !! p = Some q) →
  ∃ l', notify_queues h l = Ok l' ∧ lock_inv None lv l' ∧ env_step l l' ∧
        ∀ p q c, (p, q) ∈ h → c ∈ queue_at l p → all_notified c l'.
Proof.
  revert l. induction h as [|[p q] h IH]; intros l Hi Hp; simpl.
  { exists l. split_and!; [done..|apply env_step_refl|set_solver]. }
  rewrite (deref_queue_at _ p); [|apply Hi|apply Hp; set_solver]. simpl.
  destruct (notify_conds_ok _ _ (queue_at l p) Hi) as (l1 & -> & Hi1 & He1 & Hall).
  { intros c. apply (li_mode _ _ _ Hi). }
  simpl. destruct (IH l1 Hi1) as (l2 & -> & Hi2 & He2 & Hall2).
  { intros p' q' Hin. rewrite (proj1 He1). simpl. apply Hp. set_solver. }
  exists l2. split_and!; [done..|by eapply env_step_trans|].
  intros p' q' c [?|Hin]%elem_of_cons Hc; simplify_eq.
  - eapply all_notified_step; [done|]. by apply Hall.
  - eapply Hall2; [done|]. by rewrite (proj1 He1).
Qed.

(** The abstract effect of a successful [delete]. *)
Definition deleted (l l' : slock) : Prop :=
  l_deleted l' = true ∧ l_exc l' = None ∧ l_shr l' = ∅ ∧ l_blocked l' = l_blocked l.

Lemma do_delete_ok l t :
  lock_inv None true l → l_exc l = Some t →
  ∃ l', do_delete t l = Ok l' ∧ lock_inv None true l' ∧ deleted l l'.
Proof.
  intros Hi Hx. pose proof (oo_exclusive _ (li_owner _ _ _ Hi) _ Hx) as Hs.
  unfold do_delete, is_exclusive, is_sharer. rewrite Hx, Hs.
  rewrite bool_decide_true, bool_decide_false by set_solver. simpl.
  destruct (notify_queues_ok false (set_owner true None ∅ l) (l_pending l))
    as (l' & -> & Hi' & He & Hall).
  - apply set_owner_inv; [done..|]. set_solver.
  - intros p q. simpl. apply (qo_dict _ (li_queues _ _ _ Hi)).
  - destruct (env_step_threads _ _ He) as (Hd' & Hx' & Hs' & Hb'). simpl in *.
    exists l'. split_and!; [done| |done].
    destruct Hi' as [? ? ? ? ? ? ? Hfr ? ? ?]. split; try done.
    + intros _ (? & _). congruence.
    + intros _ _ t' fr Ht'. rewrite Hb' in Ht'.
      destruct (li_frame _ _ _ Hi _ _ Ht') as (Hp & Hc & _).
      eapply (Hall (f_prio fr) (f_queue fr)); [|done| |done].
      * by apply (qo_dict _ (li_queues _ _ _ Hi)).
      * by rewrite Hb'.
Qed.

(** What [delete] may do to the lock. *)
Definition delete_post (t : tid) (p : Z) (l l' : slock) (o : outcome) : Prop :=
  match o with
  | Returned true =>
      deleted l l' ∧ (l_exc l = Some t ∨ can_acquire false l = true)
  | _ => acquire_post t false p l l' o
  end.

Lemma finish_acquire_ok l t p l1 o :
  lock_inv None true l1 → acquire_post t false p l l1 o →
  ∃ l', finish_acquire true t (l1, o) = Ok (l', o) ∧ lock_inv None true l' ∧
        delete_post t p l l' o.
Proof.
  intros Hi Hpost. destruct o as [[]| |]; try by exists l1. simpl in Hpost.
  destruct Hpost as [[Hcan (Hd & Hx & Hs & Hb)] _].
  destruct (do_delete_ok l1 t) as (l' & He & Hi' & (? & ? & ? & ?)); [done..|].
  simpl. rewrite He. exists l'. split; [done|]. split; [done|].
  split; [|by right]. unfold deleted. split_and!; [done..|]. by rewrite H2, Hb.
Qed.

Lemma delete_lock_ok l t timeout p n1 n2 n3 :
  lock_inv None true l → l_blocked l !! t = None → is_sharer t l = false →
  ∃ l' o, delete_lock t timeout p n1 n2 n3 l = Ok (l', o) ∧
          lock_inv None true l' ∧ delete_post t p l l' o.
Proof.
  intros Hi Ht Hsh. unfold delete_lock. rewrite Hsh. simpl.
  destruct (l_deleted l) eqn:Hdel; [by exists l, LockDeleted|].
  unfold is_exclusive. case_bool_decide as Hx.
  - destruct (do_delete_ok l t) as (l' & -> & Hi' & ?); [done..|].
    exists l', (Returned true). split; [done|]. split; [done|]. split; [done|by left].
  - destruct (acquire_unlocked_ok l t false timeout p n1 n2 n3 true)
      as (l1 & o & -> & Hi1 & Hpost); [done..| |done|].
    { apply not_owns. intros [?|?]; [done|]. apply bool_decide_eq_false in Hsh. done. }
    destruct (finish_acquire_ok l t p l1 o) as (l' & He & ?); [done..|].
    exists l', o. done.
Qed.

(** ** Waking up *)

(** The end of [wait] puts the thread back into its loop. *)
Lemma unblock_inv l t fr e :
  lock_inv None true l → l_blocked l !! t = Some fr →
  cond_inv (delete t (waits l)) e →
  (∀ c', mode_of e c' = mode_of (l_env l) c') →
  (∀ s', notified e s' = notified (l_env l) s') →
  let l' := set_blocked (delete t (l_blocked l)) (set_env e l) in
  lock_inv (Some (f_cond fr)) true l' ∧ frame_ok l' fr.
Proof.
  intros Hi Ht Hci Hmode Hnot l'.
  assert (∀ f, frame_ok l f → frame_ok l' f) as Hfok.
  { intros f (? & ? & ? & ?). split_and!; try done. simpl. by rewrite Hmode. }
  split; [|by eapply Hfok, (li_frame _ _ _ Hi)].
  destruct Hi as [[] [] ? ? ? Hent Hm ? Hsh Hlive ?].
  split; [split; try done|by split|unfold waits; simpl; by rewrite fmap_delete|done..| | | | | |];
    simpl; try setoid_rewrite Hmode; try setoid_rewrite Hnot; try done.
  - intros t' Ho. rewrite lookup_delete_None. right. by apply oo_idle0.
  - intros p c Hc. destruct (Hent _ _ Hc) as [?|(t' & fr' & Ht' & <-)]; [done|].
    destruct (decide (t = t')) as [->|]; [left; congruence|].
    right. exists t', fr'. by rewrite lookup_delete_ne.
  - intros t' fr' [_ ?]%lookup_delete_Some. eapply Hfok; eauto.
  - intros Hlv Hf p c t' fr' Htop [_ ?]%lookup_delete_Some. by eapply Hlive.
  - intros Hlv Hd t' fr' [_ ?]%lookup_delete_Some. by eapply li_dead0.
Qed.

(** What a resumed call may do; [l] is the state with [t] still blocked. *)
Definition wake_post (t : tid) (fr : frame) (l l' : slock) (o : outcome) : Prop :=
  let l1 := set_blocked (delete t (l_blocked l)) l in
  if f_delete fr then delete_post t (f_prio fr) l1 l' o
  else acquire_post t (f_shared fr) (f_prio fr) l1 l' o.

Lemma wake_ok l t fr n1 n2 :
  lock_inv None true l → l_blocked l !! t = Some fr →
  ∃ l' o, wake t fr n1 n2 l = Ok (l', o) ∧ lock_inv None true l' ∧
          wake_post t fr l l' o ∧ (l_deleted l = true → o = LockDeleted) ∧
          (free l → top l (f_prio fr) (f_cond fr) → o = Returned true).
Proof.
  intros Hi Ht. unfold wake.
  destruct (wait_end_ok (waits l) (l_env l) t (f_cond fr) (f_single fr))
    as (e & -> & Hci & Hmode & Hnot); [apply Hi|by apply blocked_waits|]. simpl.
  destruct (unblock_inv l t fr e) as [Hi1 Hfr1]; [done..|].
  set (l1 := set_blocked _ _) in *.
  assert (same_threads (set_blocked (delete t (l_blocked l)) l) l1) as Hst
    by (by split_and!).
  assert (f_delete fr = true → f_shared fr = false) as Hds
    by apply (li_frame _ _ _ Hi _ _ Ht).
  destruct (l_deleted l) eqn:Hdel.
  - destruct (leave_queue_ok true l1 fr) as (l2 & -> & Hi2 & Hst2); [done..| |].
    { intros (? & _). simpl in *. congruence. }
    exists l2, LockDeleted. split; [done|]. split; [done|].
    split; [|split; [done|by intros (? & _); congruence]].
    unfold wake_post. destruct (f_delete fr);
      (split; [done|by eapply same_threads_trans]).
  - destruct (loop_body_ok l1 t fr n1 n2) as (l2 & o & -> & Hi2 & Hpost & Ho & Htop).
    + done.
    + done.
    + done.
    + simpl. by rewrite lookup_delete_eq.
    + intros Hown. pose proof (oo_idle _ (li_owner _ _ _ Hi) t Hown). congruence.
    + simpl. eapply acquire_post_threads in Hpost; [|done]. unfold wake_post.
      destruct (f_delete fr).
      * rewrite Hds in Hpost by done.
        destruct (finish_acquire_ok _ t (f_prio fr) l2 o Hi2 Hpost) as (l' & He & ? & ?).
        exists l', o. by split_and!.
      * exists l2, o. destruct o as [[]| |]; by split_and!.
Qed.

(** ** All events *)

Definition handle_post (ev : event) (l l' : slock) (o : outcome) : Prop :=
  match ev with
  | EAcquire t shared _ p _ _ _ => acquire_post t shared p l l' o
  | EWake t _ _ _ => ∃ fr, l_blocked l !! t = Some fr ∧ wake_post t fr l l' o ∧
      (l_deleted l = true → o = LockDeleted)
  | ERelease t => released t l l' ∧ o = Returned true
  | EDowngrade t => downgraded t l l' ∧ o = Returned true
  | EDelete t _ p _ _ _ => delete_post t p l l' o
  | ENotifyTopmost _ => same_threads l l' ∧ o = Returned true
  end.

Lemma is_owned_owns t l : is_owned t l = true ↔ owns l t.
Proof.
  unfold is_owned, is_owned_mode, is_sharer, is_exclusive, owns. simpl.
  rewrite orb_true_iff, !bool_decide_eq_true. tauto.
Qed.

(** Every event a caller may issue is handled without an exception, keeps the
    invariant and has the effect described. *)
Lemma handle_ok ev l :
  lock_inv None true l → enabled ev l = true → legal ev l = true →
  ∃ l' o, handle ev l = Ok (l', o) ∧ lock_inv None true l' ∧ handle_post ev l l' o.
Proof.
  intros Hi Hen Hle. destruct ev; simpl in *.
  - apply bool_decide_eq_true in Hen. apply negb_true_iff in Hle.
    by apply acquire_unlocked_ok.
  - destruct (l_blocked l !! t) as [fr|] eqn:Ht; [|done].
    destruct (wake_ok l t fr now_check now_wait) as (l' & o & ? & ? & ? & ? & _); [done..|].
    exists l', o. eauto 10.
  - destruct (release_ok l t) as (l' & -> & ? & ?);
      [done|by apply is_owned_owns|]. by exists l', (Returned true).
  - destruct (downgrade_ok l t) as (l' & -> & ? & ?);
      [done|by apply is_owned_owns|]. by exists l', (Returned true).
  - apply bool_decide_eq_true in Hen. apply negb_true_iff in Hle.
    by apply delete_lock_ok.
  - destruct (notify_topmost_ok true l Hi) as (l' & -> & ? & ?); [by left|].
    by exists l', (Returned true).
Qed.

(** A call that breaks the contract fails an assertion. *)
Lemma handle_illegal ev l :
  lock_inv None true l → legal ev l = false → handle ev l = Raise AssertionFailed.
Proof.
  intros Hi Hle. destruct ev; simpl in *; try done.
  - apply negb_false_iff in Hle. unfold acquire_unlocked. rewrite Hle.
    apply is_owned_owns in Hle.
    by rewrite (owned_not_deleted _ _ _ _ Hi Hle).
  - unfold release. unfold is_owned, is_owned_mode in Hle. simpl in Hle.
    rewrite orb_comm in Hle. by rewrite Hle.
  - unfold downgrade. by rewrite Hle.
  - apply negb_false_iff in Hle. unfold delete_lock. by rewrite Hle.
Qed.

Lemma init_lock_inv : lock_inv None true init_lock.
Proof.
  assert (∀ p, queue_at init_lock p = []) as Hat by done.
  split.
  - by split.
  - split; try done; [constructor|]. intros p q. by rewrite elem_of_nil.
  - unfold waits. simpl. rewrite fmap_empty. apply cond_inv_empty.
  - intros p. rewrite Hat. constructor.
  - intros *. rewrite Hat. set_solver.
  - intros *. rewrite Hat. set_solver.
  - intros *. rewrite Hat. set_solver.
  - done.
  - done.
  - done.
  - done.
Qed.

Lemma reachable_inv l : reachable l → lock_inv None true l.
Proof.
  induction 1 as [|ev l l' o Hr IH Hstep]; [apply init_lock_inv|].
  unfold step in Hstep. destruct (enabled ev l) eqn:Hen; [|done].
  injection Hstep as Hstep. destruct (legal ev l) eqn:Hle.
  - destruct (handle_ok ev l) as (l1 & o1 & He & ? & _); [done..|]. congruence.
  - rewrite handle_illegal in Hstep; done.
Qed.

Lemma run_reachable evs l l' os :
  reachable l → run evs l = Some (l', os) → reachable l'.
Proof.
  revert l os. induction evs as [|ev evs IH]; intros l os Hr; simpl; [naive_solver|].
  destruct (step ev l) as [[[l1 o]|]|] eqn:Hs; [|done..].
  destruct (run evs l1) as [[l2 os2]|] eqn:Hrun; [|done].
  intros [= <- <-]. eapply IH; [|done]. by eapply reach_step.
Qed.
