(* ===== verification/LockingProps.v ===== *)
(** * SharedLock: what callers may rely on

    The theorems about the reachable states of the lock, and the refinement of
    the lock by an abstract reader/writer lock without queues, conditions or
    time. *)

From S2P Require Import Prelude Errors Heapq Condition Locking LockingInv.

(** ** The abstract lock *)

Record rwlock := RW {
  rw_deleted : bool;
  rw_exc : option tid;
  rw_shr : gset tid
}.

Inductive rw_op :=
| OpSkip
| OpAcquire (shared : bool) (t : tid)
| OpRelease (t : tid)
| OpDowngrade (t : tid)
| OpDelete (t : tid).

Definition rw_unowned (a : rwlock) : bool :=
  negb (rw_deleted a) && bool_decide (rw_exc a = None) && bool_decide (rw_shr a = ∅).

(** The abstract lock's transitions; [None] is a transition it does not have. *)
Definition rw_step (op : rw_op) (a : rwlock) : option rwlock :=
  match op with
  | OpSkip => Some a
  | OpAcquire true t =>
      if negb (rw_deleted a) && bool_decide (rw_exc a = None)
      then Some (RW false None ({[t]} ∪ rw_shr a)) else None
  | OpAcquire false t =>
      if rw_unowned a then Some (RW false (Some t) ∅) else None
  | OpRelease t =>
      if bool_decide (rw_exc a = Some t) then Some (RW (rw_deleted a) None (rw_shr a))
      else if bool_decide (t ∈ rw_shr a)
      then Some (RW (rw_deleted a) (rw_exc a) (rw_shr a ∖ {[t]})) else None
  | OpDowngrade t =>
      if bool_decide (rw_exc a = Some t) || bool_decide (t ∈ rw_shr a)
      then Some (RW (rw_deleted a) None ({[t]} ∪ rw_shr a)) else None
  | OpDelete t =>
      if bool_decide (rw_exc a = Some t) || rw_unowned a
      then Some (RW true None ∅) else None
  end.

Definition abs (l : slock) : rwlock := RW (l_deleted l) (l_exc l) (l_shr l).

(** The abstract transition an event with a given outcome performs. *)
Definition abs_op (ev : event) (o : outcome) (l : slock) : rw_op :=
  match ev, o with
  | EAcquire t shared _ _ _ _ _, Returned true => OpAcquire shared t
  | EWake t _ _ _, Returned true =>
      match l_blocked l !! t with
      | Some fr => if f_delete fr then OpDelete t else OpAcquire (f_shared fr) t
      | None => OpSkip
      end
  | ERelease t, _ => OpRelease t
  | EDowngrade t, _ => OpDowngrade t
  | EDelete t _ _ _ _ _, Returned true => OpDelete t
  | _, _ => OpSkip
  end.

(** ** Steps of reachable states *)

Lemma step_inv ev l l' o :
  reachable l → step ev l = Some (Ok (l', o)) →
  lock_inv None true l ∧ lock_inv None true l' ∧ enabled ev l = true ∧
  legal ev l = true ∧ handle_post ev l l' o.
Proof.
  intros Hr%reachable_inv Hs. unfold step in Hs.
  destruct (enabled ev l) eqn:Hen; [|done]. injection Hs as Hs.
  destruct (legal ev l) eqn:Hle; [|rewrite handle_illegal in Hs; done].
  destruct (handle_ok ev l) as (l1 & o1 & He & ? & ?); [done..|].
  rewrite Hs in He. injection He as <- <-. done.
Qed.

Lemma abs_same l l' : same_threads l l' → abs l' = abs l.
Proof. intros (H1 & H2 & H3 & _). unfold abs. by rewrite H1, H2, H3. Qed.

Lemma acquire_refines t shared p l l' o :
  l_deleted l = false ∨ o = LockDeleted → acquire_post t shared p l l' o →
  rw_step (if decide (o = Returned true) then OpAcquire shared t else OpSkip) (abs l)
  = Some (abs l').
Proof.
  intros Hd. destruct o as [[]| |]; simpl.
  - intros [[Hcan (H1 & H2 & H3 & _)] _]. destruct Hd as [Hd|?]; [|done].
    unfold abs. rewrite H1, H2, H3. unfold can_acquire in Hcan.
    unfold rw_unowned. destruct shared; simpl.
    + apply bool_decide_eq_true in Hcan.
      rewrite Hd, bool_decide_true by done. simpl. by rewrite Hcan.
    + apply andb_true_iff in Hcan as [Hs%bool_decide_eq_true Hx%bool_decide_eq_true].
      rewrite Hd, !bool_decide_true by done. simpl. by rewrite Hs.
  - intros Hst. f_equal. symmetry. by apply abs_same.
  - intros (fr & _ & _ & H1 & H2 & H3 & _). unfold abs. by rewrite H1, H2, H3.
  - intros [_ Hst]. f_equal. symmetry. by apply abs_same.
Qed.

Lemma delete_refines t p l l' o :
  l_deleted l = false ∨ o = LockDeleted → delete_post t p l l' o →
  rw_step (if decide (o = Returned true) then OpDelete t else OpSkip) (abs l)
  = Some (abs l').
Proof.
  intros Hd Hp. destruct (decide (o = Returned true)) as [->|Hne].
  - destruct Hp as [(H1 & H2 & H3 & _) Hcan]. destruct Hd as [Hd|?]; [|done].
    simpl. unfold abs, rw_unowned. simpl. rewrite H1, H2, H3, Hd.
    destruct Hcan as [Hx|[Hx Hs]%can_acquire_excl].
    + by rewrite bool_decide_true.
    + rewrite (bool_decide_true (l_exc l = None)), (bool_decide_true (_ = ∅)) by done.
      by rewrite orb_true_r.
  - assert (acquire_post t false p l l' o) as Ha by (by destruct o as [[]| |]).
    apply acquire_refines in Ha; [|done]. by rewrite decide_False in Ha.
Qed.

Lemma acquire_deleted t shared timeout p n1 n2 n3 del l l' o :
  acquire_unlocked t shared timeout p n1 n2 n3 del l = Ok (l', o) →
  l_deleted l = false ∨ o = LockDeleted.
Proof.
  unfold acquire_unlocked. destruct (l_deleted l); [right; congruence|by left].
Qed.

(** The simulation step. *)
Lemma step_refines ev l l' o :
  reachable l → step ev l = Some (Ok (l', o)) →
  rw_step (abs_op ev o l) (abs l) = Some (abs l').
Proof.
  intros Hr Hs. destruct (step_inv _ _ _ _ Hr Hs) as (Hi & Hi' & Hen & Hle & Hp).
  unfold step in Hs. rewrite Hen in Hs. injection Hs as Hs.
  destruct ev; simpl in *.
  - apply acquire_deleted in Hs. apply acquire_refines in Hp; [|done].
    by destruct o as [[]| |].
  - destruct Hp as (fr & Ht & Hp & Hd). rewrite Ht.
    assert (l_deleted l = false ∨ o = LockDeleted) as Hd'.
    { destruct (l_deleted l); [right; by apply Hd|by left]. }
    unfold wake_post in Hp. destruct (f_delete fr).
    + apply delete_refines in Hp; [|done]. by destruct o as [[]| |].
    + apply acquire_refines in Hp; [|done]. by destruct o as [[]| |].
  - destruct Hp as [(Hd & _ & Hrel) ->]. apply is_owned_owns in Hle.
    unfold abs. simpl. rewrite Hd. case_bool_decide as Hx.
    + destruct Hrel as [-> ->]. done.
    + destruct Hrel as [-> ->]. rewrite bool_decide_true; [done|]. by destruct Hle.
  - destruct Hp as [(Hd & _ & Hx & Hsh) ->]. apply is_owned_owns in Hle.
    unfold abs. simpl. rewrite Hd, Hx, Hsh.
    assert (bool_decide (l_exc l = Some t) || bool_decide (t ∈ l_shr l) = true) as ->;
      [|done]. rewrite orb_true_iff, !bool_decide_eq_true. done.
  - assert (l_deleted l = false ∨ o = LockDeleted) as Hd.
    { unfold delete_lock in Hs. destruct (is_sharer t l); [done|]. simpl in Hs.
      destruct (l_deleted l); [right; congruence|by left]. }
    apply delete_refines in Hp; [|done]. by destruct o as [[]| |].
  - destruct Hp as [Hst ->]. f_equal. symmetry. by apply abs_same.
Qed.

Lemma rw_deleted_stays op a a' :
  rw_step op a = Some a' → rw_deleted a = true → rw_deleted a' = true.
Proof.
  unfold rw_step, rw_unowned. intros Hs Hd. rewrite Hd in Hs.
  destruct op as [|[]| | |]; simpl in Hs; repeat case_bool_decide; by simplify_eq/=.
Qed.

(** C1: the lock refines the abstract reader/writer lock: every step from a
    reachable state is the abstract transition named by its event and outcome,
    so ownership changes only as the abstract lock allows, whatever the queues,
    notifications and time-outs do. *)
Theorem lock_refines_rwlock ev l l' o :
  reachable l → step ev l = Some (Ok (l', o)) →
  rw_step (abs_op ev o l) (abs l) = Some (abs l').
Proof. apply step_refines. Qed.

(** A first run used by the witnesses: thread 1 holds the lock, 2 (shared) and 3
    (exclusive, more urgent) wait, 1 releases. *)
Definition demo_events : list event :=
  [EAcquire 1 false None 0 0 0 0; EAcquire 2 true None 0 1 1 1;
   EAcquire 3 false (Some 5000000%Z) (-10) 2 2 2; ERelease 1].

Definition demo_lock : slock := from_option fst init_lock (run demo_events init_lock).

Lemma demo_run : ∃ os, run demo_events init_lock = Some (demo_lock, os).
Proof. eexists. vm_compute. reflexivity. Qed.

Lemma demo_reachable : reachable demo_lock.
Proof. destruct demo_run as [os H]. eapply run_reachable; [apply reach_init|exact H]. Qed.

(** The state after an event of the demonstration. *)
Definition after (ev : event) (l : slock) : slock :=
  match step ev l with Some (Ok (l', _)) => l' | _ => l end.

Lemma lock_refines_rwlock_witness :
  step (EWake 3 3 3 3) demo_lock = Some (Ok (after (EWake 3 3 3 3) demo_lock, Returned true)) ∧
  rw_step (abs_op (EWake 3 3 3 3) (Returned true) demo_lock) (abs demo_lock)
  = Some (abs (after (EWake 3 3 3 3) demo_lock)).
Proof.
  assert (step (EWake 3 3 3 3) demo_lock
          = Some (Ok (after (EWake 3 3 3 3) demo_lock, Returned true))) as H
    by (vm_compute; reflexivity).
  split; [exact H|]. apply (lock_refines_rwlock _ _ _ _ demo_reachable H).
Defined.

(** C14: in every reachable state two distinct owners are both sharers, an
    exclusive owner excludes sharers, a deleted lock has no owner, and an owner
    is not waiting for the lock. *)
Theorem lock_exclusion l t1 t2 :
  reachable l → owns l t1 →
  l_deleted l = false ∧ l_blocked l !! t1 = None ∧
  (l_exc l = Some t1 → l_shr l = ∅) ∧
  (owns l t2 → t1 ≠ t2 → t1 ∈ l_shr l ∧ t2 ∈ l_shr l ∧ l_exc l = None).
Proof.
  intros Hi%reachable_inv H1. split_and!.
  - by eapply owned_not_deleted.
  - by apply Hi.
  - by apply Hi.
  - intros H2 Hne. pose proof (oo_exclusive _ (li_owner _ _ _ Hi)) as Hx.
    destruct (l_exc l) as [t|] eqn:He.
    + rewrite (Hx t eq_refl) in *. unfold owns in *. rewrite He, (Hx t eq_refl) in *.
      set_solver.
    + unfold owns in *. rewrite He in *. naive_solver.
Qed.

Definition sharers_lock : slock :=
  from_option fst init_lock
    (run [EAcquire 1 true None 0 0 0 0; EAcquire 2 true None 0 0 0 0] init_lock).

Lemma lock_exclusion_witness : 1 ∈ l_shr sharers_lock ∧ 2 ∈ l_shr sharers_lock.
Proof.
  assert (reachable sharers_lock) as Hr.
  { eapply (run_reachable [EAcquire 1 true None 0 0 0 0; EAcquire 2 true None 0 0 0 0]);
      [apply reach_init|vm_compute; reflexivity]. }
  destruct (lock_exclusion sharers_lock 1 2 Hr) as (_ & _ & _ & H).
  - right. apply (bool_decide_unpack _). vm_compute. exact I.
  - destruct H as (H1 & H2 & _);
      [right; apply (bool_decide_unpack _); vm_compute; exact I|done|by split].
Defined.

(** C32: in a reachable state an event that can happen is handled without any
    internal error if the caller keeps to the contract, and otherwise fails
    with the documented assertion and nothing else. *)
Theorem lock_no_internal_error ev l :
  reachable l → enabled ev l = true →
  if legal ev l then ∃ l' o, step ev l = Some (Ok (l', o)) ∧ reachable l'
  else step ev l = Some (Raise AssertionFailed).
Proof.
  intros Hr Hen. pose proof (reachable_inv _ Hr) as Hi.
  destruct (legal ev l) eqn:Hle.
  - destruct (handle_ok ev l) as (l' & o & He & _); [done..|].
    assert (step ev l = Some (Ok (l', o))) by (unfold step; by rewrite Hen, He).
    exists l', o. split; [done|]. by eapply reach_step.
  - unfold step. by rewrite Hen, handle_illegal.
Qed.

Lemma lock_no_internal_error_witness :
  enabled (ERelease 2) demo_lock = false ∧ enabled (ERelease 1) demo_lock = true ∧
  step (ERelease 1) demo_lock = Some (Raise AssertionFailed).
Proof.
  split; [vm_compute; reflexivity|]. split; [vm_compute; reflexivity|].
  exact (lock_no_internal_error (ERelease 1) demo_lock demo_reachable
           ltac:(vm_compute; reflexivity)).
Defined.

(** ** Progress *)

Lemma top_exists x lv l t fr :
  lock_inv x lv l → l_blocked l !! t = Some fr → ∃ p c, top l p c.
Proof.
  intros Hi Ht. destruct (find_first_ok _ _ _ Hi) as (l' & first & _ & _ & Hs & Hf).
  destruct (li_frame _ _ _ Hi _ _ Ht) as (_ & Hin & _).
  destruct first as [[p q]|].
  - destruct Hf as [_ [c Htop]]. exists p, c. by apply (same_queues_top _ _ _ _ Hs).
  - destruct Hf as [_ Hf]. rewrite <-(sq_at _ _ Hs), Hf in Hin. set_solver.
Qed.

Lemma top_prio_le l p c p' c' : top l p c → c' ∈ queue_at l p' → (p ≤ p')%Z.
Proof.
  intros [_ Hlt] Hc'. destruct (decide (p ≤ p')%Z); [done|].
  rewrite Hlt in Hc' by lia. set_solver.
Qed.

Lemma notified_enabled l t fr n1 n2 n3 :
  lock_inv None true l → l_blocked l !! t = Some fr →
  notified (l_env l) (f_single fr) = true → enabled (EWake t n1 n2 n3) l = true.
Proof.
  intros Hi Ht Hn. simpl. rewrite Ht. unfold wait_over.
  rewrite (waiter_notified_spec (waits l) _ t (f_cond fr)), Hn;
    [done|apply Hi|by apply blocked_waits].
Qed.

Lemma wake_step l t fr n1 n2 n3 :
  lock_inv None true l → l_blocked l !! t = Some fr →
  notified (l_env l) (f_single fr) = true →
  step (EWake t n1 n2 n3) l = Some (wake t fr n2 n3 l).
Proof.
  intros Hi Ht Hn. unfold step. rewrite (notified_enabled _ _ fr) by done.
  simpl. by rewrite Ht.
Qed.



(** The mode and priority an acquiring event asks for; [delete] is not one. *)
Definition request (ev : event) (l : slock) : option (bool * Z) :=
  match ev with
  | EAcquire _ shared _ p _ _ _ => Some (shared, p)
  | EWake t _ _ _ =>
      match l_blocked l !! t with
      | Some fr => if f_delete fr then None else Some (f_shared fr, f_prio fr)
      | None => None
      end
  | _ => None
  end.

(** C18: priority order.  When an acquire succeeds, at once or after waiting,
    no thread that goes on waiting has a more urgent priority. *)
Theorem lock_priority_order ev shared p l l' t fr :
  reachable l → step ev l = Some (Ok (l', Returned true)) →
  request ev l = Some (shared, p) → l_blocked l' !! t = Some fr → (p ≤ f_prio fr)%Z.
Proof.
  intros Hr Hs Hq Ht. destruct (step_inv _ _ _ _ Hr Hs) as (_ & _ & _ & _ & Hp).
  destruct ev as [t0 sh ? p0| t0 | | | | ]; simpl in *; simplify_eq.
  - destruct Hp as [[_ (_ & _ & _ & Hb)] Hp]. apply (Hp t). rewrite Hb in Ht.
    by destruct shared.
  - destruct Hp as (fr0 & Ht0 & Hp & _). rewrite Ht0 in Hq. unfold wake_post in Hp.
    destruct (f_delete fr0); simplify_eq. destruct Hp as [[_ (_ & _ & _ & Hb)] Hp].
    apply (Hp t). rewrite Hb in Ht. by destruct (f_shared fr0).
Qed.

Lemma lock_priority_order_witness :
  request (EWake 3 3 3 3) demo_lock = Some (false, (-10)%Z) ∧
  ∀ fr, l_blocked (after (EWake 3 3 3 3) demo_lock) !! 2 = Some fr → (-10 ≤ f_prio fr)%Z.
Proof.
  assert (request (EWake 3 3 3 3) demo_lock = Some (false, (-10)%Z)) as Hq
    by (vm_compute; reflexivity).
  split; [exact Hq|]. intros fr Hfr.
  apply (lock_priority_order (EWake 3 3 3 3) false (-10) demo_lock
           (after (EWake 3 3 3 3) demo_lock) 2 fr); [apply demo_reachable| |exact Hq|exact Hfr].
  vm_compute. reflexivity.
Defined.

(** Deletion is final and reaches everybody.  A deleted lock has no owner,
    every thread still waiting can resume at any time and is told so, every new
    acquire or delete is told so, and the lock never becomes undeleted. *)
Theorem lock_deletion l :
  reachable l → l_deleted l = true →
  (∀ t, ¬ owns l t) ∧
  (∀ t fr n1 n2 n3, l_blocked l !! t = Some fr →
     ∃ l', step (EWake t n1 n2 n3) l = Some (Ok (l', LockDeleted))) ∧
  (∀ t shared timeout p n1 n2 n3, l_blocked l !! t = None →
     step (EAcquire t shared timeout p n1 n2 n3) l = Some (Ok (l, LockDeleted)) ∧
     step (EDelete t timeout p n1 n2 n3) l = Some (Ok (l, LockDeleted))) ∧
  (∀ ev l' o, step ev l = Some (Ok (l', o)) → l_deleted l' = true).
Proof.
  intros Hr Hd. pose proof (reachable_inv _ Hr) as Hi.
  destruct (oo_deleted _ (li_owner _ _ _ Hi) Hd) as [Hx Hsh]. split_and!.
  - intros t [?|?]; [congruence|set_solver].
  - intros t fr n1 n2 n3 Ht. rewrite (wake_step _ _ fr);
      [|done..|by eapply (li_dead _ _ _ Hi)].
    destruct (wake_ok l t fr n2 n3) as (l' & o & -> & _ & _ & Ho & _); [done..|].
    exists l'. by rewrite (Ho Hd).
  - intros t shared timeout p n1 n2 n3 Ht. unfold step. simpl.
    rewrite bool_decide_true by done.
    unfold acquire_unlocked, delete_lock, is_sharer. rewrite Hd, Hsh.
    rewrite bool_decide_false by set_solver. done.
  - intros ev l' o Hs. by apply (rw_deleted_stays _ _ _ (step_refines _ _ _ _ Hr Hs)).
Qed.

(** A waiter of a lock that its holder deletes. *)
Definition deleted_lock : slock :=
  from_option fst init_lock
    (run [EAcquire 1 false None 0 0 0 0; EAcquire 2 true None 0 0 0 0;
          EDelete 1 None 0 0 0 0] init_lock).

Lemma lock_deletion_witness :
  ∃ l', step (EWake 2 7 7 7) deleted_lock = Some (Ok (l', LockDeleted)).
Proof.
  assert (reachable deleted_lock) as Hr.
  { eapply (run_reachable [EAcquire 1 false None 0 0 0 0; EAcquire 2 true None 0 0 0 0;
                           EDelete 1 None 0 0 0 0]);
      [apply reach_init|vm_compute; reflexivity]. }
  destruct (lock_deletion deleted_lock Hr) as (_ & H & _); [vm_compute; reflexivity|].
  destruct (l_blocked deleted_lock !! 2) as [fr|] eqn:Ht; [|vm_compute in Ht; discriminate Ht].
  exact (H 2 fr 7%Z 7%Z 7%Z Ht).
Defined.

(** The pipes of the conditions are all closed once nobody waits. *)
Theorem lock_no_fd_leak l :
  reachable l → l_blocked l = ∅ → e_open (l_env l) = ∅.
Proof.
  intros Hi%reachable_inv Hb. apply no_descriptor_leak.
  pose proof (li_cond _ _ _ Hi) as Hc. unfold waits in Hc.
  by rewrite Hb, fmap_empty in Hc.
Qed.

Lemma lock_no_fd_leak_witness :
  ∃ l, reachable l ∧ 0 < e_next_cond (l_env l) ∧ e_open (l_env l) = ∅.
Proof.
  set (l := from_option fst init_lock
              (run (demo_events ++ [EWake 3 3 3 3; ERelease 3; EWake 2 4 4 4; ERelease 2])
                   init_lock)).
  assert (reachable l) as Hr.
  { eapply (run_reachable
      (demo_events ++ [EWake 3 3 3 3; ERelease 3; EWake 2 4 4 4; ERelease 2]));
      [apply reach_init|vm_compute; reflexivity]. }
  exists l. split; [exact Hr|]. split; [vm_compute; lia|].
  apply (lock_no_fd_leak l Hr). vm_compute. reflexivity.
Defined.

(** ** Time-outs *)

Lemma loop_body_timeout t fr n1 n2 l l' o :
  loop_body t fr n1 n2 l = Ok (l', o) →
  (o = Returned false → timeout_expired fr n1 = true) ∧
  (timeout_expired fr n1 = true → o ≠ Blocked).
Proof.
  unfold loop_body. destruct (is_on_top _ _) as [[l1 b]|]; [|done]. simpl.
  destruct (b && _).
  { destruct (leave_queue _ _); simpl; [|done]. intros [= <- <-]. by split. }
  destruct (timeout_expired fr n1).
  - destruct (leave_queue _ _); simpl; [|done]. intros [= <- <-]. by split.
  - destruct (wait_begin _ _ _) as [[]|]; simpl; [|done]. intros [= <- <-]. by split.
Qed.

(** A waiting acquire gives up only after the time its caller allowed,
    counted from the start of the call; after that time it can always resume,
    and when it does the call ends. *)
Theorem lock_timeout l t fr n_poll n_check n_wait :
  reachable l → l_blocked l !! t = Some fr →
  (∀ l', step (EWake t n_poll n_check n_wait) l = Some (Ok (l', Returned false)) →
     ∃ timeout, f_timeout fr = Some timeout ∧ (f_start fr + timeout < n_check)%Z) ∧
  (∀ timeout, f_timeout fr = Some timeout →
     (f_start fr + timeout < n_check)%Z → (f_wait_start fr + timeout < n_poll)%Z →
     ∃ l' o, step (EWake t n_poll n_check n_wait) l = Some (Ok (l', o)) ∧ o ≠ Blocked).
Proof.
  intros Hi%reachable_inv Ht. unfold step. simpl. rewrite Ht.
  assert (∀ l' o, wake t fr n_check n_wait l = Ok (l', o) → 
    (o = Returned false → timeout_expired fr n_check = true) ∧
    (timeout_expired fr n_check = true → o ≠ Blocked)) as Hw.
  { intros l' o. unfold wake. destruct (wait_end _ _ _ _); [|done]. simpl.
    destruct (l_deleted l).
    { destruct (leave_queue _ _); simpl; [|done]. intros [= <- <-]. done. }
    destruct (loop_body _ _ _ _ _) as [[l2 o2]|] eqn:Hl; [|done].
    apply loop_body_timeout in Hl. simpl. destruct o2 as [[]| |]; simpl.
    1: destruct (f_delete fr); [destruct (do_delete _ _); simpl|].
    all: by intros [= <- <-]. }
  split.
  - intros l'. destruct (wait_over _ _ _); [|done]. intros [= [Hexp _]%Hw].
    specialize (Hexp eq_refl). unfold timeout_expired in Hexp.
    destruct (f_timeout fr) as [d|]; [|done]. exists d. split; [done|]. lia.
  - intros d Hd Hchk Hpoll. unfold wait_over. rewrite Hd, orb_true_intro by (right; lia).
    destruct (wake_ok l t fr n_check n_wait) as (l' & o & He & _); [done..|].
    exists l', o. rewrite He. split; [done|]. apply (Hw _ _ He).
    unfold timeout_expired. rewrite Hd. lia.
Qed.

(** Thread 3 of the demonstration, while thread 1 still holds the lock. *)
Lemma lock_timeout_witness :
  ∃ l' o, step (EWake 3 5000003 5000003 5000003)
               (from_option fst init_lock (run (take 3 demo_events) init_lock))
          = Some (Ok (l', o)) ∧ o ≠ Blocked.
Proof.
  set (l := from_option fst init_lock _).
  assert (reachable l) as Hr.
  { eapply (run_reachable (take 3 demo_events)); [apply reach_init|vm_compute; reflexivity]. }
  destruct (l_blocked l !! 3) as [fr|] eqn:Ht; [|vm_compute in Ht; discriminate Ht].
  destruct (lock_timeout l 3 fr 5000003 5000003 5000003 Hr Ht) as [_ H].
  vm_compute in Ht. injection Ht as <-.
  apply (H 5000000%Z); [reflexivity|simpl; lia..].
Defined.

(** ** The shared waiters that [downgrade] misses *)

(** 2 waits for a shared lock and is notified by the release of 1; before it
    resumes, 3 (exclusive) and 4 (shared) queue up behind it.  When 2 leaves the
    queue it drops the reference to 4's condition, so that the downgrade of 3
    does not let 4 go ahead, although the lock is now only shared. *)
Definition downgrade_events : list event :=
  [EAcquire 1 false None 0 0 0 0; EAcquire 2 true None 0 0 0 0; ERelease 1;
   EAcquire 3 false None 0 0 0 0; EAcquire 4 true None 0 0 0 0;
   EWake 2 0 0 0; ERelease 2; EWake 3 0 0 0; EDowngrade 3].

Lemma downgrade_misses_shared_waiter :
  ∃ l os, run downgrade_events init_lock = Some (l, os) ∧
    l_exc l = None ∧ l_shr l = {[3]} ∧
    (f_shared <$> l_blocked l !! 4) = Some true ∧
    enabled (EWake 4 1 1 1) l = false.
Proof. eexists _, _. split; [vm_compute; reflexivity|]. split_and!; vm_compute; reflexivity. Qed.
