(* ===== verification/LockInfo.v ===== *)
(** * SharedLock: the query methods

    [GetLockInfo], [_count_pending], [_check_empty], [is_owned], [locked] and
    the two methods [threading.Condition] uses.  Threads are named by their
    identity.  Shown: in a reachable state the queries never fail an assertion,
    [GetLockInfo] lists every waiting thread exactly where its priority puts it,
    and [_check_empty] is true exactly when nobody waits. *)

From Stdlib Require Import Sorted.
From S2P Require Import Prelude Errors Heapq Condition Locking LockingInv.

Inductive lock_mode := DELETED_TEXT | EXCLUSIVE_TEXT | SHARED_TEXT.

#[export] Instance lock_mode_eq_dec : EqDecision lock_mode.
Proof. solve_decision. Defined.

(** The members of [query.LQ_*] that matter here. *)
Inductive lock_query := LQ_MODE | LQ_OWNER | LQ_PENDING.

#[export] Instance lock_query_eq_dec : EqDecision lock_query.
Proof. solve_decision. Defined.

Record lock_info := LockInfo {
  li_mode_text : option lock_mode;
  li_owner_names : option (list tid);
  li_pending_list : option (list (lock_mode * list tid))
}.

(** Insertion into a sorted list, after the entries that are not larger. *)
Fixpoint insort (x : Z * qid) (h : list (Z * qid)) : exc (list (Z * qid)) :=
  match h with
  | [] => Ok [x]
  | y :: h' =>
      let* lt := entry_cmp x y in
      if lt : bool then Ok (x :: h) else rmap (cons y) (insort x h')
  end.

(** [sorted(self.__pending)] *)
Fixpoint sorted_pending (acc h : list (Z * qid)) : exc (list (Z * qid)) :=
  match h with
  | [] => Ok acc
  | x :: h => let* acc := insort x acc in sorted_pending acc h
  end.

Definition mode_text (shared : bool) : lock_mode :=
  if shared then SHARED_TEXT else EXCLUSIVE_TEXT.

Fixpoint pending_conds (cs : list cid) (e : cenv) : exc (list (lock_mode * list tid)) :=
  match cs with
  | [] => Ok []
  | c :: cs =>
      let* cd := lookup_cond c e in
      let* ws := get_waiting c e in
      rmap (cons (mode_text (c_shared cd), elements ws)) (pending_conds cs e)
  end.

Fixpoint pending_queues (h : list (Z * qid)) (l : slock)
    : exc (list (lock_mode * list tid)) :=
  match h with
  | [] => Ok []
  | (_, q) :: h =>
      let* prioqueue := deref q l in
      let* here := pending_conds prioqueue (l_env l) in
      rmap (app here) (pending_queues h l)
  end.

Definition info_mode (l : slock) : exc (option lock_mode) :=
  if l_deleted l then
    do* assert (bool_decide (l_exc l = None) && bool_decide (l_shr l = ∅)) in
    Ok (Some DELETED_TEXT)
  else if bool_decide (l_exc l ≠ None) then Ok (Some EXCLUSIVE_TEXT)
  else if bool_decide (l_shr l ≠ ∅) then Ok (Some SHARED_TEXT)
  else Ok None.

Definition info_owner (l : slock) : exc (option (list tid)) :=
  let owner := match l_exc l with Some t => [t] | None => elements (l_shr l) end in
  match owner with
  | [] => Ok None
  | _ => do* assert (negb (l_deleted l)) in Ok (Some owner)
  end.

Definition GetLockInfo (requested : list lock_query) (l : slock) : exc lock_info :=
  let* mode := (if bool_decide (LQ_MODE ∈ requested) then info_mode l else Ok None) in
  let* owner_names :=
    (if bool_decide (LQ_OWNER ∈ requested) then info_owner l else Ok None) in
  let* pending :=
    (if bool_decide (LQ_PENDING ∈ requested) then
       let* h := sorted_pending [] (l_pending l) in
       rmap Some (pending_queues h l)
     else Ok None) in
  Ok (LockInfo mode owner_names pending).

(** [_count_pending] *)
Fixpoint count_queues (h : list (Z * qid)) (l : slock) : exc nat :=
  match h with
  | [] => Ok 0
  | (_, q) :: h =>
      let* prioqueue := deref q l in
      rmap (Nat.add (length prioqueue)) (count_queues h l)
  end.

Definition count_pending (l : slock) : exc nat := count_queues (l_pending l) l.

(** [_check_empty] *)
Definition check_empty (l : slock) : exc (slock * bool) :=
  let* '(l, first) := find_first_pending_queue l in
  let* prioqueue := match first with Some (_, q) => deref q l | None => Ok [] end in
  Ok (l, negb (bool_decide (prioqueue ≠ []) || bool_decide (l_pending l ≠ []) ||
               bool_decide (l_by_prio l ≠ ∅) || bool_decide (l_pending_shared l ≠ ∅))).

(** [locked] *)
Definition locked (l : slock) : bool :=
  bool_decide (l_exc l ≠ None) || bool_decide (l_shr l ≠ ∅).

(** [_release_save] and [_acquire_restore] *)
Definition release_save (t : tid) (l : slock) : exc (slock * bool) :=
  let shared := is_sharer t l in
  let* l := release t l in Ok (l, shared).

Definition acquire_restore (t : tid) (shared : bool) (n1 n2 n3 : Z) (l : slock)
    : exc (slock * outcome) :=
  acquire_unlocked t shared None 0 n1 n2 n3 false l.

(** ** Sorting *)

Notation prio_le := (λ a b : Z * qid, (a.1 ≤ b.1)%Z).

Lemma insort_ok x h :
  x.1 ∉ h.*1 → StronglySorted prio_le h →
  ∃ h', insort x h = Ok h' ∧ h' ≡ₚ x :: h ∧ StronglySorted prio_le h'.
Proof.
  induction h as [|y h IH]; intros Hx Hs; simpl in *.
  { exists [x]. split_and!; [done..|]. repeat constructor. }
  apply StronglySorted_inv in Hs as [Hs Hy]. unfold entry_cmp.
  rewrite decide_False by set_solver. simpl. case_bool_decide as Hlt.
  - exists (x :: y :: h). split_and!; [done..|]. constructor; [by constructor|].
    constructor; [lia|]. eapply Forall_impl; [exact Hy|]. simpl. lia.
  - destruct IH as (h' & -> & Hp & Hs'); [set_solver|done|]. simpl.
    exists (y :: h'). split_and!; [done|by rewrite Hp, Permutation_swap|].
    constructor; [done|]. rewrite Hp. constructor; [lia|done].
Qed.

Lemma sorted_pending_ok acc h :
  NoDup (acc ++ h).*1 → StronglySorted prio_le acc →
  ∃ h', sorted_pending acc h = Ok h' ∧ h' ≡ₚ acc ++ h ∧ StronglySorted prio_le h'.
Proof.
  revert acc. induction h as [|x h IH]; intros acc Hnd Hs; simpl.
  { exists acc. by rewrite app_nil_r. }
  assert (acc ++ x :: h ≡ₚ (x :: acc) ++ h) as Hp by (by rewrite <-Permutation_middle).
  rewrite Hp in Hnd. destruct (insort_ok x acc) as (acc' & -> & Hp' & Hs').
  { simpl in Hnd. apply NoDup_cons in Hnd as [Hnin _]. rewrite fmap_app in Hnin.
    set_solver. }
  { done. }
  simpl. destruct (IH acc') as (h' & -> & Hp2 & ?); [by rewrite Hp'|done|].
  exists h'. split_and!; [done| |done]. by rewrite Hp2, Hp, Hp'.
Qed.

(** ** The list of pending acquires *)

(** The condition [c] is listed as entry [i]. *)
Definition lists (l : slock) (c : cid) (ent : lock_mode * list tid) : Prop :=
  (mode_of (l_env l) c = Some true ∧ ent.1 = SHARED_TEXT ∨
   mode_of (l_env l) c = Some false ∧ ent.1 = EXCLUSIVE_TEXT) ∧
  ∀ t, t ∈ ent.2 ↔ ∃ fr, l_blocked l !! t = Some fr ∧ f_cond fr = c.

Lemma pending_conds_ok x lv l cs :
  lock_inv x lv l → (∀ c, c ∈ cs → is_Some (mode_of (l_env l) c)) →
  ∃ ents, pending_conds cs (l_env l) = Ok ents ∧ Forall2 (lists l) cs ents.
Proof.
  intros Hi. induction cs as [|c cs IH]; intros Hm; simpl; [by eauto|].
  destruct IH as (ents & -> & Hf); [set_solver|].
  destruct (Hm c) as [b Hb]; [set_solver|].
  pose proof Hb as Hb'. unfold mode_of in Hb'. unfold get_waiting, lookup_cond.
  destruct (e_conds (l_env l) !! c) as [cd|] eqn:Hcd; [|done]. simpl in *.
  eexists. split; [done|]. constructor; [|done]. simplify_eq. split.
  - rewrite Hb. destruct (c_shared cd); naive_solver.
  - intros t. simpl. rewrite elem_of_elements, (ci_waiters _ _ (li_cond _ _ _ Hi) _ _ _ Hcd).
    split.
    + intros (s & (fr & ? & ? & ?)%waits_blocked). eauto.
    + intros (fr & Ht & <-). exists (f_single fr). by apply blocked_waits.
Qed.

Lemma pending_queues_ok x lv l h :
  lock_inv x lv l → (∀ p q, (p, q) ∈ h → l_by_prio l !! p = Some q) →
  ∃ ents, pending_queues h l = Ok ents ∧
    Forall2 (lists l) (concat ((queue_at l) <$> h.*1)) ents.
Proof.
  intros Hi. induction h as [|[p q] h IH]; intros Hp; simpl; [by eauto|].
  rewrite (deref_queue_at _ p); [|apply Hi|apply Hp; set_solver]. simpl.
  destruct (pending_conds_ok _ _ _ (queue_at l p) Hi) as (here & -> & Hh).
  { intros c. apply (li_mode _ _ _ Hi). }
  destruct IH as (ents & -> & Hf); [set_solver|]. simpl.
  eexists. split; [done|]. by apply Forall2_app.
Qed.

(** [c] does not come after [c'] in the order of service by priority. *)
Definition before (l : slock) (c c' : cid) : Prop :=
  ∀ p p', c ∈ queue_at l p → c' ∈ queue_at l p' → (p ≤ p')%Z.

Lemma concat_queues_sorted x lv l h :
  lock_inv x lv l → StronglySorted prio_le h →
  StronglySorted (before l) (concat ((queue_at l) <$> h.*1)).
Proof.
  intros Hi. induction 1 as [|[p q] h Hs IH Hall]; simpl; [constructor|].
  assert (∀ c, c ∈ queue_at l p → Forall (before l c) (concat (queue_at l <$> h.*1)))
    as Hrest.
  { intros c Hc. apply Forall_forall. intros c' Hc' p1 p2 H1 H2.
    apply list_elem_of_In, in_concat in Hc' as (cs & Hcs & Hc').
    apply list_elem_of_In, list_elem_of_fmap in Hcs as (p3 & -> & Hp3).
    apply list_elem_of_In in Hc'. apply list_elem_of_fmap in Hp3 as ([p4 q4] & -> & Hin).
    rewrite Forall_forall in Hall. specialize (Hall _ Hin). simpl in *.
    rewrite (li_disj _ _ _ Hi p1 p c), (li_disj _ _ _ Hi p2 p4 c'); done. }
  assert (∀ c c', c ∈ queue_at l p → c' ∈ queue_at l p → before l c c') as Hin.
  { intros c c' Hc Hc' p1 p2 H1 H2.
    rewrite (li_disj _ _ _ Hi p1 p c), (li_disj _ _ _ Hi p2 p c'); done. }
  induction (queue_at l p) as [|c cs IHc]; simpl; [done|].
  constructor; [apply IHc; set_solver|]. apply Forall_app. split.
  - apply Forall_forall. intros c' Hc'. apply Hin; set_solver.
  - apply Hrest. set_solver.
Qed.

Lemma strongly_sorted_lookup {A} (R : A → A → Prop) (xs : list A) i j x y :
  StronglySorted R xs → xs !! i = Some x → xs !! j = Some y → i < j → R x y.
Proof.
  intros Hs. revert i j. induction Hs as [|z xs Hs IH Hall]; intros i j Hi Hj Hlt; [done|].
  destruct j as [|j]; [lia|]. destruct i as [|i]; simpl in *.
  - simplify_eq. rewrite Forall_forall in Hall. apply Hall. by eapply list_elem_of_lookup_2.
  - eapply IH; [done..|lia].
Qed.

(** The pending list describes the waiting threads: each is listed, under its
    mode, nobody else is, and the more urgent ones come first. *)
Record pending_ok (l : slock) (ents : list (lock_mode * list tid)) : Prop := {
  po_listed : ∀ t fr, l_blocked l !! t = Some fr →
    ∃ i ent, ents !! i = Some ent ∧ ent.1 = mode_text (f_shared fr) ∧ t ∈ ent.2;
  po_only : ∀ i ent t, ents !! i = Some ent → t ∈ ent.2 → is_Some (l_blocked l !! t);
  po_order : ∀ i j ent ent' t t' fr fr',
    ents !! i = Some ent → t ∈ ent.2 → l_blocked l !! t = Some fr →
    ents !! j = Some ent' → t' ∈ ent'.2 → l_blocked l !! t' = Some fr' →
    (f_prio fr < f_prio fr')%Z → i < j
}.

Lemma pending_list_ok l cs ents :
  lock_inv None true l → (∀ p c, c ∈ queue_at l p → c ∈ cs) →
  StronglySorted (before l) cs → Forall2 (lists l) cs ents → pending_ok l ents.
Proof.
  intros Hi Hall Hs Hf. split.
  - intros t fr Ht. destruct (li_frame _ _ _ Hi _ _ Ht) as (_ & Hin & Hm & _).
    apply Hall, list_elem_of_lookup_1 in Hin as [i Hc].
    destruct (Forall2_lookup_l _ _ _ _ _ Hf Hc) as (ent & He & Hmode & Hmem).
    exists i, ent. split_and!; [done| |].
    + rewrite Hm in Hmode. destruct Hmode as [[[=] ->]|[[=] ->]]; by rewrite H0.
    + apply Hmem. eauto.
  - intros i ent t He Ht. destruct (Forall2_lookup_r _ _ _ _ _ Hf He) as (c & _ & _ & Hmem).
    destruct (proj1 (Hmem t) Ht) as (fr & Hb & _). by rewrite Hb.
  - intros i j ent ent' t t' fr fr' He Ht Hfr He' Ht' Hfr' Hlt.
    destruct (Forall2_lookup_r _ _ _ _ _ Hf He) as (c & Hc & _ & Hmem).
    destruct (Forall2_lookup_r _ _ _ _ _ Hf He') as (c' & Hc' & _ & Hmem').
    destruct (proj1 (Hmem t) Ht) as (x & Hx & Hxc).
    destruct (proj1 (Hmem' t') Ht') as (x0 & Hx0 & Hxc0).
    rewrite Hfr in Hx. rewrite Hfr' in Hx0. injection Hx as <-. injection Hx0 as <-.
    rewrite <-Hxc in Hc. rewrite <-Hxc0 in Hc'.
    destruct (li_frame _ _ _ Hi _ _ Hfr) as (_ & Hin & _).
    destruct (li_frame _ _ _ Hi _ _ Hfr') as (_ & Hin' & _).
    destruct (lt_eq_lt_dec i j) as [[Hl|Heq]|Hji]; [done|subst j|].
    + rewrite Hc in Hc'. injection Hc' as Hcc. rewrite Hcc in Hin.
      rewrite (li_disj _ _ _ Hi (f_prio fr) (f_prio fr') (f_cond fr')) in Hlt by done. lia.
    + pose proof (strongly_sorted_lookup _ _ _ _ _ _ Hs Hc' Hc Hji) as Hb.
      specialize (Hb _ _ Hin' Hin). lia.
Qed.

Definition mode_ok (l : slock) (mode : option lock_mode) : Prop :=
  match mode with
  | Some DELETED_TEXT => l_deleted l = true
  | Some EXCLUSIVE_TEXT => l_deleted l = false ∧ is_Some (l_exc l)
  | Some SHARED_TEXT => l_deleted l = false ∧ l_exc l = None ∧ l_shr l ≠ ∅
  | None => free l
  end.

Lemma info_mode_ok l : owner_ok l → ∃ m, info_mode l = Ok m ∧ mode_ok l m.
Proof.
  intros Ho. unfold info_mode. destruct (l_deleted l) eqn:Hd.
  - destruct (oo_deleted _ Ho Hd) as [-> ->]. simpl. eauto.
  - case_bool_decide as Hx.
    { eexists. split; [done|]. split; [done|]. by destruct (l_exc l). }
    assert (l_exc l = None) as Hx' by (by destruct (l_exc l); [destruct Hx|]).
    case_bool_decide as Hs; eexists; (split; [done|]); simpl; [by split_and!|].
    unfold free. split_and!; [done..|]. by destruct (decide (l_shr l = ∅)).
Qed.

Lemma info_owner_ok l :
  owner_ok l → ∃ os, info_owner l = Ok os ∧ ∀ t, t ∈ default [] os ↔ owns l t.
Proof.
  intros Ho. unfold info_owner, owns. destruct (l_exc l) as [t0|] eqn:Hx.
  - destruct (l_deleted l) eqn:Hd; [by destruct (oo_deleted _ Ho Hd); congruence|].
    eexists. split; [done|]. intros t. simpl. rewrite (oo_exclusive _ Ho _ Hx). set_solver.
  - destruct (elements (l_shr l)) as [|t0 ts] eqn:He.
    + exists None. split; [done|]. intros t. rewrite <-(elem_of_elements (l_shr l)), He. set_solver.
    + destruct (l_deleted l) eqn:Hd.
      { destruct (oo_deleted _ Ho Hd) as [_ Hs]. rewrite Hs, elements_empty in He. done. }
      eexists. split; [done|]. intros t. rewrite <-(elem_of_elements (l_shr l)), He. set_solver.
Qed.

(** [GetLockInfo] never fails an assertion; the mode and owners it reports
    are the lock's, and the pending list holds exactly the waiting threads,
    each under its own mode, the more urgent first. *)
Theorem GetLockInfo_correct requested l :
  reachable l →
  ∃ info, GetLockInfo requested l = Ok info ∧
    (if bool_decide (LQ_MODE ∈ requested) then mode_ok l (li_mode_text info)
     else li_mode_text info = None) ∧
    (if bool_decide (LQ_OWNER ∈ requested)
     then ∀ t, t ∈ default [] (li_owner_names info) ↔ owns l t
     else li_owner_names info = None) ∧
    (if bool_decide (LQ_PENDING ∈ requested)
     then ∃ ents, li_pending_list info = Some ents ∧ pending_ok l ents
     else li_pending_list info = None).
Proof.
  intros Hi%reachable_inv. unfold GetLockInfo.
  destruct (info_mode_ok l) as (m & Hm & ?); [apply Hi|].
  destruct (info_owner_ok l) as (os & Hos & ?); [apply Hi|].
  destruct (sorted_pending_ok [] (l_pending l)) as (h & Hh & Hp & Hs);
    [apply Hi|constructor|].
  destruct (pending_queues_ok _ _ _ h Hi) as (ents & He & Hf).
  { intros p q. rewrite Hp. apply (qo_dict _ (li_queues _ _ _ Hi)). }
  assert (pending_ok l ents).
  { eapply pending_list_ok; [done| |by eapply concat_queues_sorted|exact Hf].
    intros p c Hc. apply list_elem_of_In, in_concat. exists (queue_at l p).
    split; [|by apply list_elem_of_In]. apply list_elem_of_In, list_elem_of_fmap_2.
    unfold queue_at in Hc. destruct (l_by_prio l !! p) as [q|] eqn:Hq; [|set_solver].
    apply (qo_dict _ (li_queues _ _ _ Hi)) in Hq. rewrite <-(app_nil_l (l_pending l)), <-Hp in Hq.
    by apply (list_elem_of_fmap_2 fst) in Hq. }
  rewrite Hm, Hos, Hh. simpl. rewrite He.
  do 3 case_bool_decide; (eexists; split; [done|]); simpl; eauto 10.
Qed.

Lemma GetLockInfo_correct_witness :
  ∃ l info ents, reachable l ∧ GetLockInfo [LQ_PENDING] l = Ok info ∧
    li_pending_list info = Some ents ∧ length ents = 2 ∧ pending_ok l ents.
Proof.
  set (evs := [EAcquire 1 false None 0 0 0 0; EAcquire 2 true None 0 1 1 1;
               EAcquire 3 false None (-10) 2 2 2]).
  destruct (run evs init_lock) as [[l os]|] eqn:Hrun; [|vm_compute in Hrun; discriminate].
  assert (reachable l) as Hr by (eapply run_reachable; [apply reach_init|exact Hrun]).
  destruct (GetLockInfo_correct [LQ_PENDING] l Hr) as (info & H1 & _ & _ & ents & H2 & H3).
  exists l, info, ents. split; [exact Hr|]. split; [exact H1|]. split; [exact H2|].
  split; [|exact H3]. vm_compute in Hrun. injection Hrun as <- <-.
  vm_compute in H1. injection H1 as <-. simpl in H2. injection H2 as <-. reflexivity.
Defined.

(** [_check_empty] is true exactly when no acquire is pending, and it
    leaves nothing but empty queues behind. *)
Theorem check_empty_correct l :
  reachable l →
  ∃ l' b, check_empty l = Ok (l', b) ∧ (b = true ↔ l_blocked l = ∅) ∧
          lock_inv None true l' ∧ same_queues l l'.
Proof.
  intros Hi%reachable_inv. unfold check_empty.
  destruct (find_first_ok _ _ _ Hi) as (l' & first & -> & Hi' & Hs & Hf). simpl.
  destruct first as [[p q]|]; simpl in Hf.
  - destruct Hf as (Hp & c & [cs Hat] & _).
    rewrite (deref_queue_at _ p); [|apply Hi'|done]. rewrite Hat. simpl.
    eexists _, _. split; [done|]. split; [|done]. split; [done|].
    intros Hb. assert (c ∈ queue_at l' p) as Hc by (rewrite Hat; set_solver).
    destruct (li_entry _ _ _ Hi' _ _ Hc) as [|(t & fr & Ht & _)]; [done|].
    by rewrite (sq_blocked _ _ Hs), Hb, lookup_empty in Ht.
  - destruct Hf as [Hnil Hat]. simpl. rewrite Hnil.
    assert (l_by_prio l' = ∅) as Hbp.
    { apply map_empty. intros p. apply eq_None_not_Some. intros [q Hq].
      apply (qo_dict _ (li_queues _ _ _ Hi')) in Hq. rewrite Hnil in Hq. set_solver. }
    assert (l_pending_shared l' = ∅) as Hps.
    { apply map_empty. intros p. apply eq_None_not_Some. intros [c Hc].
      apply (li_shared _ _ _ Hi') in Hc as [Hc _]. rewrite Hat in Hc. set_solver. }
    rewrite Hbp, Hps. simpl. eexists _, _. split; [done|]. split; [|done].
    split; [intros _|done]. apply map_empty. intros t. apply eq_None_not_Some.
    intros [fr Ht]. destruct (li_frame _ _ _ Hi _ _ Ht) as (_ & Hin & _).
    rewrite <-(sq_at _ _ Hs), Hat in Hin. set_solver.
Qed.

Lemma check_empty_correct_witness :
  ∃ l l' b, reachable l ∧ check_empty l = Ok (l', b) ∧ b = false.
Proof.
  set (evs := [EAcquire 1 false None 0 0 0 0; EAcquire 2 true None 0 1 1 1]).
  destruct (run evs init_lock) as [[l os]|] eqn:Hrun; [|vm_compute in Hrun; discriminate].
  assert (reachable l) as Hr by (eapply run_reachable; [apply reach_init|exact Hrun]).
  destruct (check_empty_correct l Hr) as (l' & b & H1 & H2 & _).
  exists l, l', b. split; [exact Hr|]. split; [exact H1|].
  vm_compute in Hrun. injection Hrun as <- <-. vm_compute in H1. by injection H1 as <- <-.
Defined.
