(* ===== verification/WorkerPool.v ===== *)
(** * Worker pools (src/lib/workerpool.py)

    [WorkerPool] and [BaseWorker]: a heap of task entries served by worker
    threads.  Entries are mutable lists shared between [_tasks] and [_taskdata]
    (changing a priority marks the old entry as abandoned through the second
    reference), so they live in a store and the heap holds references.

    Every method runs under the pool's lock and is atomic up to a [wait] on one
    of the three conditions.  A thread waiting on a condition is recorded as a
    waiter; [notify] wakes the one that has waited longest, as
    [threading.Condition] does. *)

From S2P Require Import Prelude Errors Heapq.

Section workerpool.
  Context {A : Type}.
  (** [args < args'] for the arguments of two tasks, which the pool's users
      choose. *)
  Context (args_lt : A → A → exc bool).

(** [[priority, order, task_id, args]]; [None] arguments: abandoned. *)
Record entry := Entry {
  t_prio : Z;
  t_order : nat;
  t_id : option Z;
  t_args : option A
}.

(** A worker thread: inside [_WaitForTaskUnlocked] or about to call it,
    running a task, or ended. *)
Inductive wstate := WIdle | WRunning (task : nat) | WDead.

(** A client blocked in [_WaitWhileQuiescingUnlocked], with the tasks it will
    add, or in [Quiesce]. *)
Inductive client := CAdd (tasks : list (A * Z * option Z)) | CQuiesce.

Record pool := Pool {
  p_store : gmap nat entry;
  p_next_entry : nat;
  p_counter : nat;
  p_tasks : list nat;
  p_taskdata : gmap Z nat;
  p_workers : list nat;
  p_termworkers : list nat;
  p_last_worker_id : nat;
  p_threads : gmap nat wstate;
  p_waiting : list nat;
  p_quiescing : bool;
  p_clients : gmap nat (client * bool)
}.

(** [WorkerPool.__init__] before its call of [Resize]. *)
Definition empty_pool : pool := Pool ∅ 0 0 [] ∅ [] [] 0 ∅ [] false ∅.

Definition set_tasks (store : gmap nat entry) (tasks : list nat) (td : gmap Z nat)
    (p : pool) : pool :=
  Pool store (p_next_entry p) (p_counter p) tasks td (p_workers p) (p_termworkers p)
       (p_last_worker_id p) (p_threads p) (p_waiting p) (p_quiescing p) (p_clients p).
Definition set_threads (threads : gmap nat wstate) (waiting : list nat) (p : pool) : pool :=
  Pool (p_store p) (p_next_entry p) (p_counter p) (p_tasks p) (p_taskdata p)
       (p_workers p) (p_termworkers p) (p_last_worker_id p) threads waiting
       (p_quiescing p) (p_clients p).
Definition set_clients (q : bool) (clients : gmap nat (client * bool)) (p : pool) : pool :=
  Pool (p_store p) (p_next_entry p) (p_counter p) (p_tasks p) (p_taskdata p)
       (p_workers p) (p_termworkers p) (p_last_worker_id p) (p_threads p) (p_waiting p)
       q clients.
Definition set_workers (workers term : list nat) (p : pool) : pool :=
  Pool (p_store p) (p_next_entry p) (p_counter p) (p_tasks p) (p_taskdata p)
       workers term (p_last_worker_id p) (p_threads p) (p_waiting p)
       (p_quiescing p) (p_clients p).

(** ** Comparing entries *)

Definition entry_of (store : gmap nat entry) (e : nat) : exc entry :=
  match store !! e with
  | Some t => Ok t
  | None => Raise (PyExn AttributeError "no such list")
  end.

(** Comparison of two task IDs, or of two argument lists, that are known to
    differ; [None] has no order. *)
Definition opt_lt {B} (lt : B → B → exc bool) (a b : option B) : exc bool :=
  match a, b with
  | Some a, Some b => lt a b
  | _, _ => Raise (PyExn TypeError "'<' not supported between instances")
  end.

(** [task < task'] for two lists: the first elements that differ decide. *)
Definition task_lt (x y : entry) : exc bool :=
  if decide (t_prio x ≠ t_prio y) then Ok (bool_decide (t_prio x < t_prio y)%Z)
  else if decide (t_order x ≠ t_order y) then Ok (bool_decide (t_order x < t_order y))
  else if decide (t_id x ≠ t_id y)
       then opt_lt (λ a b, Ok (bool_decide (a < b)%Z)) (t_id x) (t_id y)
  else match t_args x, t_args y with
       | None, None => Ok false
       | x, y => opt_lt args_lt x y
       end.

Definition ref_lt (store : gmap nat entry) (a b : nat) : exc bool :=
  let* x := entry_of store a in
  let* y := entry_of store b in
  task_lt x y.

(** ** Conditions *)

(** [_pool_to_worker.notify()]: the first waiter is no longer waiting. *)
Definition notify_worker (p : pool) : pool :=
  set_threads (p_threads p) (tail (p_waiting p)) p.

(** [_pool_to_worker.notify_all()] *)
Definition notify_all_workers (p : pool) : pool := set_threads (p_threads p) [] p.

(** [_worker_to_pool.notify_all()]: the threads waiting in [Quiesce]. *)
Definition notify_quiesce (p : pool) : pool :=
  set_clients (p_quiescing p)
    ((λ c, match c with (CQuiesce, _) => (CQuiesce, true) | c => c end) <$> p_clients p) p.

(** [_pool_to_pool.notify_all()]: the threads waiting for the end of a
    [Quiesce]. *)
Definition notify_adders (p : pool) : pool :=
  set_clients (p_quiescing p)
    ((λ c, match c with (CAdd ts, _) => (CAdd ts, true) | c => c end) <$> p_clients p) p.

(** ** Adding tasks *)

Definition AddTaskUnlocked (args : A) (priority : Z) (task_id : option Z) (p : pool)
    : exc pool :=
  let e := p_next_entry p in
  let store := <[e := Entry priority (p_counter p) task_id (Some args)]> (p_store p) in
  let* td := match task_id with
             | None => Ok (p_taskdata p)
             | Some k =>
                 do* assert (bool_decide (p_taskdata p !! k = None)) in
                 Ok (<[k := e]> (p_taskdata p))
             end in
  let* tasks := heappush (ref_lt store) (p_tasks p) e in
  Ok (notify_worker
        (Pool store (S e) (S (p_counter p)) tasks td (p_workers p) (p_termworkers p)
              (p_last_worker_id p) (p_threads p) (p_waiting p) (p_quiescing p)
              (p_clients p))).

(** The loop of [AddManyTasks]; [AddTask] adds a single one. *)
Fixpoint AddTasksUnlocked (tasks : list (A * Z * option Z)) (p : pool) : exc pool :=
  match tasks with
  | [] => Ok p
  | (args, priority, task_id) :: tasks =>
      let* p := AddTaskUnlocked args priority task_id p in
      AddTasksUnlocked tasks p
  end.

(** The arguments of [AddManyTasks]: one priority or one per task, no IDs or
    one per task. *)
Definition AddManyTasks_args (tasks : list A) (priority : Z + list Z)
    (task_id : option (list (option Z))) : exc (list (A * Z * option Z)) :=
  let* priority :=
    match priority with
    | inl prio => Ok (replicate (length tasks) prio)
    | inr prios =>
        if decide (length prios ≠ length tasks)
        then Raise (GntExn ProgrammerError []) else Ok prios
    end in
  let* task_id :=
    match task_id with
    | None => Ok (replicate (length tasks) None)
    | Some ids =>
        if decide (length ids ≠ length tasks)
        then Raise (GntExn ProgrammerError []) else Ok ids
    end in
  do* assert (bool_decide (length tasks = length priority)) in
  do* assert (bool_decide (length tasks = length task_id)) in
  Ok (zip (zip tasks priority) task_id).

(** What a call did: it returned, it waits, or it raised [NoSuchTask] or
    [NotImplementedError]. *)
Inductive outcome :=
| Returned | Waits | NoSuchTask | NotImplemented.

(** [AddTask] and [AddManyTasks] once the lock is held: wait while the pool is
    quiescing, then add. *)
Definition add_tasks (c : nat) (tasks : list (A * Z * option Z)) (p : pool)
    : exc (pool * outcome) :=
  if p_quiescing p
  then Ok (set_clients (p_quiescing p) (<[c := (CAdd tasks, false)]> (p_clients p)) p, Waits)
  else
    let p := set_clients (p_quiescing p) (delete c (p_clients p)) p in
    rmap (λ p, (p, Returned)) (AddTasksUnlocked tasks p).

Definition ChangeTaskPriority (task_id : Z) (priority : Z) (p : pool)
    : exc (pool * outcome) :=
  match p_taskdata p !! task_id with
  | None => Ok (p, NoSuchTask)
  | Some old =>
      let* oldtask := entry_of (p_store p) old in
      let new := p_next_entry p in
      let newtask := Entry priority (t_order oldtask) (t_id oldtask) (t_args oldtask) in
      let abandoned := Entry (t_prio oldtask) (t_order oldtask) (t_id oldtask) None in
      let store := <[new := newtask]> (<[old := abandoned]> (p_store p)) in
      let* tasks := heappush (ref_lt store) (p_tasks p) new in
      Ok (notify_worker
            (Pool store (S new) (p_counter p) tasks (<[task_id := new]> (p_taskdata p))
                  (p_workers p) (p_termworkers p) (p_last_worker_id p) (p_threads p)
                  (p_waiting p) (p_quiescing p) (p_clients p)), Returned)
  end.

(** ** Workers *)

Definition ShouldWorkerTerminateUnlocked (w : nat) (p : pool) : bool :=
  bool_decide (w ∈ p_termworkers p).

(** The loop of [_WaitForTaskUnlocked] up to a [wait] or a return; each
    iteration that goes round takes an abandoned entry off the heap, so
    [length (p_tasks p) + 1] iterations are enough. *)
Inductive wait_result := Terminate | Task (e : nat) | Wait.

Fixpoint WaitForTask_fuel (fuel : nat) (w : nat) (p : pool) : exc (pool * wait_result) :=
  match fuel with
  | 0 => Raise (PyExn RuntimeError "out of fuel")
  | S fuel =>
      if ShouldWorkerTerminateUnlocked w p then Ok (p, Terminate)
      else match p_tasks p with
      | [] => Ok (set_threads (p_threads p) (p_waiting p ++ [w]) p, Wait)
      | _ =>
          let* '(e, tasks) := heappop (ref_lt (p_store p)) (p_tasks p) in
          let p := notify_quiesce (set_tasks (p_store p) tasks (p_taskdata p) p) in
          let* task := entry_of (p_store p) e in
          match t_args task with
          | None => WaitForTask_fuel fuel w p
          | Some _ =>
              match t_id task with
              | None => Ok (p, Task e)
              | Some k =>
                  match p_taskdata p !! k with
                  | None => Raise (PyExn KeyError "")
                  | Some _ =>
                      Ok (set_tasks (p_store p) (p_tasks p) (delete k (p_taskdata p)) p,
                          Task e)
                  end
              end
          end
      end
  end.

Definition WaitForTaskUnlocked (w : nat) (p : pool) : exc (pool * wait_result) :=
  WaitForTask_fuel (length (p_tasks p) + 1) w p.

(** First half of an iteration of [BaseWorker.run]: the worker takes the lock,
    or is woken up, and gets something to do.  [worker_state] is its
    [_current_task]. *)
Definition worker_fetch (w : nat) (p : pool) : exc pool :=
  let* '(p, r) := WaitForTaskUnlocked w p in
  Ok match r with
     | Terminate => set_threads (<[w := WDead]> (p_threads p)) (p_waiting p) p
     | Task e => set_threads (<[w := WRunning e]> (p_threads p)) (p_waiting p) p
     | Wait => p
     end.

(** How [RunTask] ends: normally or with an exception that is logged, or with
    [DeferTask]. *)
Inductive run_result := RunDone | RunDefer (priority : option Z).

(** Second half of the iteration, after [RunTask]. *)
Definition worker_finish (w : nat) (e : nat) (r : run_result) (p : pool) : exc pool :=
  let* current := entry_of (p_store p) e in
  let* p :=
    match r with
    | RunDone => Ok p
    | RunDefer prio =>
        match t_args current with
        | None => Raise (PyExn TypeError "argument after * must be an iterable")
        | Some args =>
            AddTaskUnlocked args (default (t_prio current) prio) (t_id current) p
        end
    end in
  Ok (notify_quiesce (set_threads (<[w := WIdle]> (p_threads p)) (p_waiting p) p)).

Definition GetCurrentPriority (w : nat) (p : pool) : exc Z :=
  match p_threads p !! w with
  | Some (WRunning e) => rmap t_prio (entry_of (p_store p) e)
  | _ => Raise AssertionFailed
  end.

Definition GetCurrentOrderAndTaskId (w : nat) (p : pool) : exc (nat * option Z) :=
  match p_threads p !! w with
  | Some (WRunning e) => rmap (λ t, (t_order t, t_id t)) (entry_of (p_store p) e)
  | _ => Raise AssertionFailed
  end.

Definition ShouldTerminate (w : nat) (p : pool) : exc bool :=
  match p_threads p !! w with
  | Some (WRunning _) => Ok (ShouldWorkerTerminateUnlocked w p)
  | _ => Raise AssertionFailed
  end.

(** ** Quiescing *)

Definition is_running (p : pool) (w : nat) : bool :=
  match p_threads p !! w with Some (WRunning _) => true | _ => false end.

Definition HasRunningTasksUnlocked (p : pool) : bool :=
  existsb (is_running p) (p_workers p ++ p_termworkers p).

(** The loop of [Quiesce]: wait, or go on to its [finally] clause. *)
Definition quiesce_loop (c : nat) (p : pool) : pool * outcome :=
  if bool_decide (p_tasks p ≠ []) || HasRunningTasksUnlocked p
  then (set_clients (p_quiescing p) (<[c := (CQuiesce, false)]> (p_clients p)) p, Waits)
  else (notify_adders (set_clients false (delete c (p_clients p)) p), Returned).

Definition Quiesce (c : nat) (p : pool) : pool * outcome :=
  quiesce_loop c (set_clients true (p_clients p) p).

(** ** Resizing *)

Fixpoint start_workers (n : nat) (p : pool) : pool :=
  match n with
  | 0 => p
  | S n =>
      let w := S (p_last_worker_id p) in
      start_workers n
        (Pool (p_store p) (p_next_entry p) (p_counter p) (p_tasks p) (p_taskdata p)
              (p_workers p ++ [w]) (p_termworkers p) w (<[w := WIdle]> (p_threads p))
              (p_waiting p) (p_quiescing p) (p_clients p))
  end.

(** [_ResizeUnlocked] up to the join of the workers that are to end. *)
Definition resize_begin (num_workers : nat) (p : pool) : pool * outcome :=
  let current_count := length (p_workers p) in
  if decide (current_count = num_workers) then (p, Returned)
  else if decide (num_workers < current_count) then
    if decide (num_workers = 0)
    then (notify_all_workers (set_workers [] (p_termworkers p ++ p_workers p) p), Waits)
    else (p, NotImplemented)
  else (start_workers (num_workers - current_count) p, Returned).

(** [_ResizeUnlocked] after the join. *)
Fixpoint remove_terminated (ws : list nat) (p : pool) : exc pool :=
  match ws with
  | [] => Ok p
  | w :: ws =>
      do* assert (bool_decide (w ∈ p_termworkers p)) in
      let p := match p_threads p !! w with
               | Some WDead =>
                   set_workers (p_workers p)
                     (remove1 w (p_termworkers p)) p
               | _ => p
               end in
      remove_terminated ws p
  end.

Definition resize_end (termworkers : list nat) (p : pool) : exc pool :=
  let* p := remove_terminated termworkers p in
  do* assert (bool_decide (p_termworkers p = [])) in
  Ok p.

(** ** Steps *)

Inductive event :=
| EAdd (c : nat) (tasks : list (A * Z * option Z))
| EChangePriority (task_id priority : Z)
| EFetch (w : nat)
| EFinish (w : nat) (r : run_result)
| EQuiesce (c : nat)
| EClientWake (c : nat)
| EResize (num_workers : nat)
| EResizeEnd (termworkers : list nat).

Definition client_wake (c : nat) (p : pool) : exc (pool * outcome) :=
  match p_clients p !! c with
  | Some (CAdd tasks, _) => add_tasks c tasks p
  | Some (CQuiesce, _) => Ok (quiesce_loop c p)
  | None => Raise AssertionFailed
  end.

Definition handle (ev : event) (p : pool) : exc (pool * outcome) :=
  match ev with
  | EAdd c tasks => add_tasks c tasks p
  | EChangePriority k prio => ChangeTaskPriority k prio p
  | EFetch w => rmap (λ p, (p, Returned)) (worker_fetch w p)
  | EFinish w r =>
      match p_threads p !! w with
      | Some (WRunning e) => rmap (λ p, (p, Returned)) (worker_finish w e r p)
      | _ => Raise AssertionFailed
      end
  | EQuiesce c => Ok (Quiesce c p)
  | EClientWake c => client_wake c p
  | EResize n => Ok (resize_begin n p)
  | EResizeEnd ws => rmap (λ p, (p, Returned)) (resize_end ws p)
  end.

(** A waiting thread does nothing until it is notified; [join] returns when the
    threads have ended. *)
Definition enabled (ev : event) (p : pool) : bool :=
  match ev with
  | EAdd c _ | EQuiesce c => bool_decide (p_clients p !! c = None)
  | EChangePriority _ _ | EResize _ => true
  | EFetch w => match p_threads p !! w with
                | Some WIdle => bool_decide (w ∉ p_waiting p)
                | _ => false
                end
  | EFinish w _ => is_running p w
  | EClientWake c => match p_clients p !! c with Some (_, b) => b | None => false end
  | EResizeEnd ws => forallb (λ w, match p_threads p !! w with
                                   | Some WDead => true | _ => false end) ws
  end.

Definition step (ev : event) (p : pool) : option (exc (pool * outcome)) :=
  if enabled ev p then Some (handle ev p) else None.

Fixpoint run (evs : list event) (p : pool) : option (pool * list outcome) :=
  match evs with
  | [] => Some (p, [])
  | ev :: evs =>
      match step ev p with
      | Some (Ok (p, o)) =>
          match run evs p with
          | Some (p, os) => Some (p, o :: os)
          | None => None
          end
      | _ => None
      end
  end.

End workerpool.

Arguments entry : clear implicits.
Arguments client : clear implicits.
Arguments pool : clear implicits.
Arguments event : clear implicits.
