(* ===== verification/WorkerPoolInv.v ===== *)
(** * Worker pools: the invariant

    [tasks_inv] describes the heap, the dictionary and the entries together
    with the map from workers to the entries they run; [pool_inv] adds the
    worker threads, the waiters of the three conditions and the clients. *)

From S2P Require Import Prelude Errors Heapq WorkerPool.

Section tasks.
  Context {A : Type} (args_lt : A → A → exc bool).
  Implicit Types (store : gmap nat (entry A)) (run : gmap nat nat).

(** The sort key of an entry. *)
Definition key store (e : nat) : Z * nat :=
  match store !! e with Some t => (t_prio t, t_order t) | None => (0%Z, 0) end.

Definition key_lt (a b : Z * nat) : bool :=
  bool_decide (a.1 < b.1)%Z || bool_decide (a.1 = b.1) && bool_decide (a.2 < b.2).

Definition ref_ltb store (a b : nat) : bool := key_lt (key store a) (key store b).

Lemma key_lt_spec a b :
  key_lt a b = true ↔ (a.1 < b.1)%Z ∨ a.1 = b.1 ∧ a.2 < b.2.
Proof.
  unfold key_lt. rewrite orb_true_iff, andb_true_iff, !bool_decide_eq_true. tauto.
Qed.

Lemma key_lt_false a b :
  key_lt a b = false ↔ (b.1 < a.1)%Z ∨ a.1 = b.1 ∧ b.2 ≤ a.2.
Proof. rewrite <-not_true_iff_false, key_lt_spec. lia. Qed.

#[export] Instance ref_ltb_order store : StrictWeakOrder (ref_ltb store).
Proof.
  split; unfold ref_ltb; intros *; rewrite ?key_lt_spec, ?key_lt_false; lia.
Qed.

(** No two entries of [h] have the same key. *)
Definition keys_differ store (h : list nat) : Prop :=
  NoDup h ∧ (∀ e, e ∈ h → is_Some (store !! e)) ∧
  ∀ e1 e2, e1 ∈ h → e2 ∈ h → key store e1 = key store e2 → e1 = e2.

Lemma keys_differ_comparable store h :
  keys_differ store h → comparable (ref_lt args_lt store) (ref_ltb store) h.
Proof.
  intros (Hnd & Hst & Hinj) i j a b Hij Ha Hb.
  pose proof (list_elem_of_lookup_2 _ _ _ Ha) as Hina.
  pose proof (list_elem_of_lookup_2 _ _ _ Hb) as Hinb.
  assert (key store a ≠ key store b) as Hk.
  { intros He. apply Hij. eapply NoDup_lookup; [done|done|].
    by rewrite (Hinj a b) by done. }
  unfold ref_lt, entry_of, ref_ltb, task_lt, key_lt, key in *.
  destruct (Hst a Hina) as [ta Hta]. destruct (Hst b Hinb) as [tb Htb].
  rewrite Hta, Htb in *. simpl in *. case_decide as Hp.
  - rewrite (bool_decide_false (t_prio ta = t_prio tb)) by done. by rewrite orb_false_r.
  - assert (t_prio ta = t_prio tb) as E by (by destruct (decide (t_prio ta = t_prio tb))).
    rewrite E in *. rewrite decide_True by (intros ?; congruence).
    rewrite (bool_decide_false (t_prio tb < t_prio tb)%Z) by lia.
    by rewrite (bool_decide_true (t_prio tb = t_prio tb)).
Qed.

Lemma heap_ok_keys store store' h :
  (∀ e, e ∈ h → key store' e = key store e) →
  heap_ok (ref_ltb store) h → heap_ok (ref_ltb store') h.
Proof.
  intros Hk Hh i a b Hi Ha Hb. unfold ref_ltb.
  rewrite !Hk by (by eapply list_elem_of_lookup_2). by apply (Hh i).
Qed.

Definition is_live (t : entry A) : bool := bool_decide (is_Some (t_args t)).

(** Entry [e] is a task waiting in the heap or being run. *)
Definition known (tasks : list nat) run (e : nat) : Prop :=
  e ∈ tasks ∨ ∃ w, run !! w = Some e.

Record tasks_inv store (next counter : nat) (tasks : list nat) (td : gmap Z nat)
    run : Prop := {
  ti_heap : heap_ok (ref_ltb store) tasks;
  ti_keys : keys_differ store tasks;
  ti_fresh : ∀ e t, store !! e = Some t → e < next ∧ t_order t < counter;
  ti_td : ∀ k e, td !! k = Some e ↔
    e ∈ tasks ∧ ∃ t, store !! e = Some t ∧ t_id t = Some k ∧ is_live t = true;
  ti_run : ∀ w e, run !! w = Some e → (e ∉ tasks) ∧
    ∃ t, store !! e = Some t ∧ is_live t = true ∧
         ∀ k, t_id t = Some k → td !! k = None;
  ti_inj : ∀ w1 w2 e, run !! w1 = Some e → run !! w2 = Some e → w1 = w2;
  ti_ids : ∀ w1 w2 e1 e2 t1 t2 k, run !! w1 = Some e1 → run !! w2 = Some e2 →
    store !! e1 = Some t1 → store !! e2 = Some t2 →
    t_id t1 = Some k → t_id t2 = Some k → w1 = w2
}.

(** The task ID is not in use by a waiting or running task. *)
Definition id_fresh store (td : gmap Z nat) run (id : option Z) : Prop :=
  ∀ k, id = Some k → td !! k = None ∧
    ∀ w e t, run !! w = Some e → store !! e = Some t → t_id t ≠ Some k.

Lemma tasks_inv_known store next counter tasks td run e :
  tasks_inv store next counter tasks td run → known tasks run e → is_Some (store !! e).
Proof.
  intros Hi [Hin|[w Hw]]; [by apply (ti_keys _ _ _ _ _ _ Hi)|].
  destruct (ti_run _ _ _ _ _ _ Hi _ _ Hw) as (_ & t & -> & _). done.
Qed.

(** Pushing an entry whose key is new. *)
Lemma push_ok store store' tasks e t :
  keys_differ store tasks → heap_ok (ref_ltb store) tasks →
  (∀ e', e' ∈ tasks → is_Some (store' !! e') ∧ key store' e' = key store e') →
  store' !! e = Some t → e ∉ tasks →
  (∀ e', e' ∈ tasks → key store' e' ≠ (t_prio t, t_order t)) →
  ∃ tasks', heappush (ref_lt args_lt store') tasks e = Ok tasks' ∧
    tasks' ≡ₚ e :: tasks ∧ heap_ok (ref_ltb store') tasks' ∧ keys_differ store' tasks'.
Proof.
  intros (Hnd & _ & Hinj) Hh Hst He Hnin Hkey.
  assert (key store' e = (t_prio t, t_order t)) as Hke by (unfold key; by rewrite He).
  assert (keys_differ store' (e :: tasks)) as Hkd.
  { split_and!.
    - by constructor.
    - intros e' [->|?]%elem_of_cons; [by rewrite He|by apply Hst].
    - intros e1 e2 [->|H1]%elem_of_cons [->|H2]%elem_of_cons Heq; [done|..].
      + rewrite Hke in Heq. by edestruct (Hkey e2).
      + rewrite Hke in Heq. by edestruct (Hkey e1).
      + destruct (Hst _ H1) as [_ E1], (Hst _ H2) as [_ E2]. apply Hinj; congruence. }
  assert (tasks ++ [e] ≡ₚ e :: tasks) as Hp by (by rewrite Permutation_app_comm).
  destruct (heappush_correct (ref_lt args_lt store') (ref_ltb store') tasks e)
    as (tasks' & ? & Hp' & ?).
  - eapply comparable_perm; [by symmetry|]. by apply keys_differ_comparable.
  - eapply heap_ok_keys; [|done]. intros e' He'. by apply Hst.
  - exists tasks'. split_and!; [done..|]. destruct Hkd as (Hnd' & Hst' & Hinj').
    split; [by rewrite Hp'|]. setoid_rewrite Hp'. by split.
Qed.

(** A new entry does not disturb the known ones. *)
Lemma known_old store next counter tasks td run t e :
  tasks_inv store next counter tasks td run → known tasks run e →
  e ≠ next ∧ <[next := t]> store !! e = store !! e.
Proof.
  intros Hi He. destruct (tasks_inv_known _ _ _ _ _ _ _ Hi He) as [t' Ht'].
  assert (e ≠ next) by (apply (ti_fresh _ _ _ _ _ _ Hi) in Ht'; lia).
  split; [done|]. by rewrite lookup_insert_ne.
Qed.

Lemma td_add store next counter tasks td run id t k e :
  tasks_inv store next counter tasks td run → id_fresh store td run id →
  t_id t = id → is_live t = true →
  match id with Some k => <[k := next]> td | None => td end !! k = Some e ↔
  (e ∈ next :: tasks ∧
   ∃ t', <[next := t]> store !! e = Some t' ∧ t_id t' = Some k ∧ is_live t' = true).
Proof.
  intros Hi Hid Ht Hlive. rewrite elem_of_cons.
  transitivity (e = next ∧ id = Some k ∨ td !! k = Some e).
  { destruct id as [k'|]; [|naive_solver].
    destruct (Hid k' eq_refl) as [Hnone _]. rewrite lookup_insert_Some.
    naive_solver congruence. }
  rewrite (ti_td _ _ _ _ _ _ Hi). split.
  - intros [[-> ->]|(Hin & t' & Ht')].
    + split; [by left|]. exists t. by rewrite lookup_insert_eq.
    + split; [by right|]. exists t'. destruct (known_old _ _ _ _ _ _ t e Hi) as [_ ->]; [by left|done].
  - intros [[->|Hin] (t' & Ht' & Hk & Hl)].
    + rewrite lookup_insert_eq in Ht'. left. by simplify_eq/=.
    + right. split; [done|]. destruct (known_old _ _ _ _ _ _ t e Hi) as [_ E]; [by left|].
      rewrite E in Ht'. eauto.
Qed.

Lemma tasks_inv_add store next counter tasks td run id prio args :
  tasks_inv store next counter tasks td run → id_fresh store td run id →
  let t := Entry prio counter id (Some args) in
  let store' := <[next := t]> store in
  let td' := match id with Some k => <[k := next]> td | None => td end in
  ∃ tasks', heappush (ref_lt args_lt store') tasks next = Ok tasks' ∧
    tasks' ≡ₚ next :: tasks ∧ tasks_inv store' (S next) (S counter) tasks' td' run.
Proof.
  intros Hi Hid t store' td'. pose proof (ti_fresh _ _ _ _ _ _ Hi) as Hfr.
  assert (∀ e, known tasks run e → e ≠ next ∧ store' !! e = store !! e) as Hold
    by (intros e; by apply known_old with (1 := Hi)).
  assert (∀ e, e ∈ tasks → key store' e = key store e) as Hkey.
  { intros e He. unfold key. destruct (Hold e) as [_ ->]; [by left|done]. }
  destruct (push_ok store store' tasks next t) as (tasks' & Hpush & Hp & Hh & Hkd).
  { apply Hi. } { apply Hi. }
  { intros e He. split; [|by apply Hkey].
    destruct (Hold e) as [_ ->]; [by left|]. by apply Hi. }
  { apply lookup_insert_eq. }
  { intros Hin. by destruct (Hold next) as [? _]; [left|]. }
  { intros e He. rewrite Hkey by done. unfold key.
    destruct (proj1 (proj2 (ti_keys _ _ _ _ _ _ Hi)) e He) as [t' Ht'].
    rewrite Ht'. apply Hfr in Ht'. simpl. intros [=]. lia. }
  exists tasks'. split; [done|]. split; [done|]. split; [done|done|..].
  - intros e t'. unfold store'. rewrite lookup_insert_Some.
    intros [[<- <-]|[_ ?%Hfr]]; simpl; lia.
  - intros k e. rewrite Hp. by apply (td_add store next counter tasks td run).
  - intros w e Hw. destruct (ti_run _ _ _ _ _ _ Hi _ _ Hw) as (Hnin & t' & Ht' & Hl & Hk).
    destruct (Hold e) as [Hne Hst]; [right; by eauto|]. split; [rewrite Hp; set_solver|].
    exists t'. rewrite Hst. split_and!; [done..|]. intros k Hkk.
    specialize (Hk k Hkk). unfold td'. destruct id as [k'|]; [|done].
    rewrite lookup_insert_ne; [done|].
    intros ->. destruct (Hid k eq_refl) as [_ Hf]. by eapply Hf.
  - apply Hi.
  - intros w1 w2 e1 e2 t1 t2 k Hw1 Hw2.
    destruct (Hold e1) as [_ ->]; [right; by eauto|].
    destruct (Hold e2) as [_ ->]; [right; by eauto|]. by apply (ti_ids _ _ _ _ _ _ Hi).
Qed.

(** Replacing the entry of a task: the old one is abandoned. *)
Section change.
  Context store (next counter : nat) (tasks : list nat) (td : gmap Z nat) run.
  Context (k : Z) (old : nat) (t : entry A) (prio : Z).
  Hypothesis Hi : tasks_inv store next counter tasks td run.
  Hypothesis Hk : td !! k = Some old.
  Hypothesis Ht : store !! old = Some t.

Let t_new := Entry prio (t_order t) (t_id t) (t_args t).
Let t_old := Entry (t_prio t) (t_order t) (t_id t) (@None A).
Let store' := <[next := t_new]> (<[old := t_old]> store).

Lemma change_old_facts : old ∈ tasks ∧ t_id t = Some k ∧ is_live t = true ∧ old ≠ next.
Proof using Hi Hk Ht.
  apply (ti_td _ _ _ _ _ _ Hi) in Hk as (Hin & t' & Ht' & ? & ?).
  assert (t' = t) by congruence. subst t'. split_and!; [done..|].
  apply (ti_fresh _ _ _ _ _ _ Hi) in Ht. lia.
Qed.

Lemma change_lookup e : known tasks run e → e ≠ next ∧
  store' !! e = if decide (e = old) then Some t_old else store !! e.
Proof using Hi Ht.
  intros He. destruct (tasks_inv_known _ _ _ _ _ _ _ Hi He) as [t' Ht'].
  assert (e ≠ next) by (apply (ti_fresh _ _ _ _ _ _ Hi) in Ht'; lia).
  split; [done|]. unfold store'. rewrite lookup_insert_ne by done.
  rewrite lookup_insert. repeat case_decide; congruence.
Qed.

Lemma change_key e : e ∈ tasks → key store' e = key store e.
Proof using Hi Ht.
  intros He. unfold key. destruct (change_lookup e) as [_ ->]; [by left|].
  case_decide; [subst; by rewrite Ht|done].
Qed.

Lemma td_change k' e :
  <[k := next]> td !! k' = Some e ↔
  (e ∈ next :: tasks ∧
   ∃ t', store' !! e = Some t' ∧ t_id t' = Some k' ∧ is_live t' = true).
Proof using Hi Hk Ht.
  destruct change_old_facts as (Hin & Hid & Hlive & Hne).
  rewrite elem_of_cons, lookup_insert_Some, (ti_td _ _ _ _ _ _ Hi). split.
  - intros [[<- <-]|(Hkk & Hin' & t' & Ht' & Hid' & Hl')].
    + split; [by left|]. exists t_new. unfold store'. by rewrite lookup_insert_eq.
    + split; [by right|]. exists t'. destruct (change_lookup e) as [_ ->]; [by left|].
      rewrite decide_False; [done|]. intros ->. congruence.
  - intros [[->|Hin'] (t' & Ht' & Hid' & Hl')].
    + unfold store' in Ht'. rewrite lookup_insert_eq in Ht'. left.
      injection Ht' as <-. simpl in Hid'. by split; congruence.
    + destruct (change_lookup e) as [_ E]; [by left|]. rewrite E in Ht'.
      case_decide as He; [by injection Ht' as <-|]. right. split; [|by eauto].
      intros <-. apply He.
      assert (td !! k = Some e) by (apply (ti_td _ _ _ _ _ _ Hi); eauto). congruence.
Qed.

Lemma tasks_inv_change :
  (∀ e t', e ∈ tasks → store !! e = Some t' → t_order t' = t_order t → t_prio t' ≠ prio) →
  ∃ tasks', heappush (ref_lt args_lt store') tasks next = Ok tasks' ∧
    tasks' ≡ₚ next :: tasks ∧
    tasks_inv store' (S next) counter tasks' (<[k := next]> td) run.
Proof using Hi Hk Ht.
  intros Hprio. destruct change_old_facts as (Hin & Hid & Hlive & Hne).
  pose proof (ti_fresh _ _ _ _ _ _ Hi) as Hfr.
  destruct (push_ok store store' tasks next t_new) as (tasks' & Hpush & Hp & Hh & Hkd).
  { apply Hi. } { apply Hi. }
  { intros e He. split; [|by apply change_key].
    destruct (change_lookup e) as [_ ->]; [by left|]. case_decide; [done|by apply Hi]. }
  { apply lookup_insert_eq. }
  { intros Hn. by destruct (change_lookup next) as [? _]; [left|]. }
  { intros e He. rewrite change_key by done. unfold key.
    destruct (proj1 (proj2 (ti_keys _ _ _ _ _ _ Hi)) e He) as [t' Ht'].
    rewrite Ht'. simpl. intros [= Hpr Hor]. by eapply (Hprio e). }
  exists tasks'. split; [done|]. split; [done|]. split; [done|done|..].
  - intros e t'. unfold store'. rewrite lookup_insert_Some, lookup_insert_Some.
    intros [[<- <-]|[_ [[<- <-]|[_ ?%Hfr]]]]; simpl; apply Hfr in Ht; lia.
  - intros k' e. rewrite Hp. apply td_change.
  - intros w e Hw. destruct (ti_run _ _ _ _ _ _ Hi _ _ Hw) as (Hnin & t' & Ht' & Hl & Hid').
    destruct (change_lookup e) as [Hne' Hst]; [right; by eauto|].
    split; [rewrite Hp; set_solver|]. exists t'.
    rewrite Hst, decide_False by (by intros ->). split_and!; [done..|].
    intros k' Hk'. specialize (Hid' k' Hk'). rewrite lookup_insert_ne; congruence.
  - apply Hi.
  - intros w1 w2 e1 e2 t1 t2 k' Hw1 Hw2.
    destruct (change_lookup e1) as [_ ->]; [right; by eauto|].
    destruct (change_lookup e2) as [_ ->]; [right; by eauto|].
    destruct (ti_run _ _ _ _ _ _ Hi _ _ Hw1) as [Hn1 _].
    destruct (ti_run _ _ _ _ _ _ Hi _ _ Hw2) as [Hn2 _].
    rewrite !decide_False by (by intros ->). by apply (ti_ids _ _ _ _ _ _ Hi).
Qed.
End change.

(** Removing an entry that is abandoned, or whose ID is forgotten with it. *)
Lemma tasks_inv_remove store next counter tasks tasks' td run e t :
  tasks_inv store next counter tasks td run → tasks ≡ₚ e :: tasks' →
  heap_ok (ref_ltb store) tasks' → store !! e = Some t →
  tasks_inv store next counter tasks'
    (if is_live t then match t_id t with Some k => delete k td | None => td end else td) run.
Proof.
  intros Hi Hp Hh Ht. destruct (ti_keys _ _ _ _ _ _ Hi) as (Hnd & Hst & Hinj).
  rewrite Hp in Hnd. apply NoDup_cons in Hnd as [Hnin Hnd].
  set (td' := if is_live t then _ else td).
  assert (∀ k, td' !! k = if decide (td !! k = Some e) then None else td !! k) as Htd.
  { intros k. pose proof (ti_td _ _ _ _ _ _ Hi k e) as Hke. unfold td'.
    case_decide as Hd.
    - destruct (proj1 Hke Hd) as (_ & t' & Ht' & Hid & Hl).
      assert (t' = t) as -> by congruence. rewrite Hl, Hid. by rewrite lookup_delete_eq.
    - destruct (is_live t) eqn:Hl; [|done]. destruct (t_id t) as [k'|] eqn:Hid; [|done].
      rewrite lookup_delete_ne; [done|]. intros ->. apply Hd, Hke.
      split; [rewrite Hp; set_solver|]. by exists t. }
  split.
  - done.
  - split_and!; [done| |]; setoid_rewrite Hp in Hst; setoid_rewrite Hp in Hinj;
      set_solver.
  - apply Hi.
  - intros k e'. rewrite Htd. pose proof (ti_td _ _ _ _ _ _ Hi k) as Hke. split.
    + case_decide as Hd; [done|]. intros Hk. apply Hke in Hk as [Hin Ht'].
      rewrite Hp in Hin. split; [|done]. apply elem_of_cons in Hin as [->|]; [|done].
      destruct Hd. apply Hke. split; [rewrite Hp; set_solver|done].
    + intros [Hin Ht']. assert (td !! k = Some e') as Hk.
      { apply Hke. split; [rewrite Hp; set_solver|done]. }
      rewrite decide_False; [done|]. intros Hk'. assert (e' = e) by congruence. by subst.
  - intros w e' Hw. destruct (ti_run _ _ _ _ _ _ Hi _ _ Hw) as (Hn & t' & Ht' & Hl & Hk).
    rewrite Hp in Hn. split; [set_solver|]. exists t'. split_and!; [done..|].
    intros k Hid. rewrite Htd, (Hk k Hid). by case_decide.
  - apply Hi.
  - apply Hi.
Qed.

(** Taking the first entry off the heap. *)
Lemma tasks_inv_pop store next counter tasks td run :
  tasks_inv store next counter tasks td run → tasks ≠ [] →
  ∃ e tasks' t, heappop (ref_lt args_lt store) tasks = Ok (e, tasks') ∧
    tasks ≡ₚ e :: tasks' ∧ store !! e = Some t ∧
    (∀ e', e' ∈ tasks → ref_ltb store e' e = false) ∧
    tasks_inv store next counter tasks'
      (if is_live t then match t_id t with Some k => delete k td | None => td end
       else td) run.
Proof.
  intros Hi Hne. pose proof (ti_keys _ _ _ _ _ _ Hi) as Hkd.
  destruct (heappop_correct (ref_lt args_lt store) (ref_ltb store) tasks)
    as (e & tasks' & Hpop & Hp & Hh & _ & Hmin);
    [by apply keys_differ_comparable|apply Hi|done|].
  destruct Hkd as (_ & Hst & _). destruct (Hst e) as [t Ht]; [rewrite Hp; set_solver|].
  exists e, tasks', t. split_and!; [done..|]. by eapply tasks_inv_remove.
Qed.

(** A worker starts on an entry that has left the heap. *)
Lemma tasks_inv_start store next counter tasks td run w e t :
  tasks_inv store next counter tasks td run → (e ∉ tasks) → store !! e = Some t →
  is_live t = true → id_fresh store td run (t_id t) → (∀ w', run !! w' ≠ Some e) →
  tasks_inv store next counter tasks td (<[w := e]> run).
Proof.
  intros Hi Hnin Ht Hlive Hid Hrun. split; try apply Hi.
  - intros w' e'. rewrite lookup_insert_Some. intros [[<- <-]|[_ Hw']];
      [|by apply (ti_run _ _ _ _ _ _ Hi) in Hw'].
    split; [done|]. exists t. split_and!; [done..|]. intros k Hk. by apply Hid.
  - intros w1 w2 e'. rewrite !lookup_insert_Some.
    intros [[<- <-]|[? H1]] [[<- ?]|[? H2]]; subst; [done|..];
      [by destruct (Hrun w2)|by destruct (Hrun w1)|by eapply (ti_inj _ _ _ _ _ _ Hi)].
  - intros w1 w2 e1 e2 t1 t2 k. rewrite !lookup_insert_Some.
    intros [[<- <-]|[? H1]] [[<- <-]|[? H2]] Ht1 Ht2 Hk1 Hk2; simplify_eq; [done|..].
    + by destruct (proj2 (Hid k Hk1) w2 e2 t2 H2 Ht2).
    + by destruct (proj2 (Hid k Hk2) w1 e1 t1 H1 Ht1).
    + by eapply (ti_ids _ _ _ _ _ _ Hi w1 w2).
Qed.

(** A worker is done with its entry, whose ID is then free again. *)
Lemma tasks_inv_stop store next counter tasks td run w e t :
  tasks_inv store next counter tasks td run → run !! w = Some e → store !! e = Some t →
  tasks_inv store next counter tasks td (delete w run) ∧
  id_fresh store td (delete w run) (t_id t).
Proof.
  intros Hi Hw Ht. split.
  - split; try apply Hi; intros *; rewrite ?lookup_delete_Some.
    + intros [_ ?]. by apply (ti_run _ _ _ _ _ _ Hi) in H.
    + intros [_ ?] [_ ?]. by eapply (ti_inj _ _ _ _ _ _ Hi).
    + intros [_ ?] [_ ?]. by eapply (ti_ids _ _ _ _ _ _ Hi).
  - intros k Hk. destruct (ti_run _ _ _ _ _ _ Hi _ _ Hw) as (_ & t' & Ht' & _ & Hnone).
    assert (t' = t) as -> by congruence. split; [by apply Hnone|].
    intros w' e' t' [Hne Hw']%lookup_delete_Some He' Hk'. apply Hne.
    by eapply (ti_ids _ _ _ _ _ _ Hi w w').
Qed.
End tasks.
