(* ===== verification/WorkerPoolOps.v ===== *)
(** * Worker pools: every operation against the abstract pool

    The pool refines an abstract one that knows only which tasks are pending,
    which are running and how many have been added ([aspool], [pool_spec]).
    For each operation: it does not raise as long as its caller keeps to the
    contract ([legal]), it preserves [pool_inv], and it has the abstract
    effect. *)

From S2P Require Import Prelude Errors Heapq WorkerPool WorkerPoolInv.

Section pool.
  Context {A : Type} (args_lt : A → A → exc bool).
  Implicit Types p : pool A.

(** The entry each worker runs. *)
Definition runs p : gmap nat nat :=
  omap (λ s, match s with WRunning e => Some e | _ => None end) (p_threads p).

Lemma runs_lookup p w e : runs p !! w = Some e ↔ p_threads p !! w = Some (WRunning e).
Proof.
  unfold runs. rewrite lookup_omap. destruct (p_threads p !! w) as [[]|]; naive_solver.
Qed.

(** The workers among [ws] that are idle, asleep or not. *)
Definition is_idle (threads : gmap nat wstate) (w : nat) : bool :=
  match threads !! w with Some WIdle => true | _ => false end.
Definition idle_workers (threads : gmap nat wstate) (ws : list nat) : list nat :=
  filter (λ w, is_idle threads w = true) ws.

Lemma is_idle_spec threads w : is_idle threads w = true ↔ threads !! w = Some WIdle.
Proof. unfold is_idle. destruct (threads !! w) as [[]|]; naive_solver. Qed.

Lemma is_idle_insert threads w s w' :
  is_idle (<[w := s]> threads) w' =
  if decide (w = w') then (match s with WIdle => true | _ => false end) else is_idle threads w'.
Proof. unfold is_idle. rewrite lookup_insert. by case_decide. Qed.

Lemma idle_stop threads ws w :
  length (idle_workers threads ws) ≤ length (idle_workers (<[w := WIdle]> threads) ws).
Proof.
  unfold idle_workers. induction ws as [|w' ws IH]; [done|].
  rewrite !filter_cons, is_idle_insert. repeat case_decide; simpl; try lia; done.
Qed.

Lemma idle_other threads ws w s :
  (w ∉ ws) → idle_workers (<[w := s]> threads) ws = idle_workers threads ws.
Proof.
  intros Hn. unfold idle_workers. induction ws as [|w' ws IH]; [done|].
  rewrite !filter_cons, is_idle_insert, IH by set_solver. by rewrite (decide_False (P := w = w')) by set_solver.
Qed.

Lemma idle_start threads ws w s :
  NoDup ws →
  length (idle_workers threads ws) ≤ S (length (idle_workers (<[w := s]> threads) ws)).
Proof.
  induction 1 as [|w' ws Hn _ IH]; [simpl; lia|]. unfold idle_workers in *.
  rewrite !filter_cons, is_idle_insert. destruct (decide (w = w')) as [->|Hne].
  - fold (idle_workers (<[w' := s]> threads) ws). rewrite (idle_other _ _ _ _ Hn).
    unfold idle_workers. repeat case_decide; simpl; lia.
  - repeat case_decide; simpl; lia.
Qed.

Record pool_inv p : Prop := {
  pi_tasks : tasks_inv (p_store p) (p_next_entry p) (p_counter p) (p_tasks p)
                       (p_taskdata p) (runs p);
  pi_workers : NoDup (p_workers p ++ p_termworkers p);
  pi_threads : ∀ w, w ∈ p_workers p ++ p_termworkers p → is_Some (p_threads p !! w);
  pi_member : ∀ w s, p_threads p !! w = Some s →
    w ≤ p_last_worker_id p ∧ (s = WDead ∨ w ∈ p_workers p ++ p_termworkers p);
  pi_alive : ∀ w, w ∈ p_workers p → p_threads p !! w ≠ Some WDead;
  pi_waiting : NoDup (p_waiting p) ∧
    ∀ w, w ∈ p_waiting p → p_threads p !! w = Some WIdle ∧ w ∈ p_workers p;
  pi_progress : p_waiting p = [] ∨
    length (p_tasks p) + length (p_waiting p) ≤ length (idle_workers (p_threads p) (p_workers p));
  pi_quiesce : ∀ c, p_clients p !! c = Some (CQuiesce, false) →
    p_tasks p ≠ [] ∨ HasRunningTasksUnlocked p = true;
  pi_adders : ∀ c ts, p_clients p !! c = Some (CAdd ts, false) → p_quiescing p = true;
  pi_quiescing : p_quiescing p = true → ∃ c b, p_clients p !! c = Some (CQuiesce, b)
}.

Lemma HasRunning_spec p :
  HasRunningTasksUnlocked p = true ↔
  ∃ w e, w ∈ p_workers p ++ p_termworkers p ∧ p_threads p !! w = Some (WRunning e).
Proof.
  unfold HasRunningTasksUnlocked, is_running. rewrite existsb_exists.
  setoid_rewrite <-list_elem_of_In. split.
  - intros (w & Hw & H). destruct (p_threads p !! w) as [[]|] eqn:E; try done. eauto.
  - intros (w & e & Hw & E). exists w. by rewrite E.
Qed.

(** ** The abstract pool *)

(** Priority, order of addition, ID and arguments of a task. *)
Notation tview := (Z * nat * option Z * A)%type.

Definition view (store : gmap nat (entry A)) (e : nat) : option tview :=
  t ← store !! e; a ← t_args t; Some (t_prio t, t_order t, t_id t, a).

Record aspool := ASPool {
  a_pending : list tview;
  a_running : gmap nat tview;
  a_counter : nat
}.

Definition abs p : aspool :=
  ASPool (omap (view (p_store p)) (p_tasks p)) (omap (view (p_store p)) (runs p))
         (p_counter p).

Definition view_key (x : tview) : Z * nat := (x.1.1.1, x.1.1.2).
Definition view_id (x : tview) : option Z := x.1.2.

(** The tasks of one call are numbered from the counter on. *)
Fixpoint number (n : nat) (ts : list (A * Z * option Z)) : list tview :=
  match ts with
  | [] => []
  | (args, prio, id) :: ts => (prio, n, id, args) :: number (S n) ts
  end.

Definition same (s s' : aspool) : Prop :=
  a_pending s' ≡ₚ a_pending s ∧ a_running s' = a_running s ∧ a_counter s' = a_counter s.

Definition added (ts : list (A * Z * option Z)) (s s' : aspool) : Prop :=
  a_pending s' ≡ₚ number (a_counter s) ts ++ a_pending s ∧
  a_running s' = a_running s ∧ a_counter s' = a_counter s + length ts.

Definition pool_spec (ev : event A) (o : outcome) p (s s' : aspool) : Prop :=
  match ev, o with
  | EAdd _ ts, Returned => added ts s s'
  | EClientWake c, Returned =>
      match p_clients p !! c with
      | Some (CAdd ts, _) => added ts s s'
      | _ => same s s'
      end
  | EChangePriority k prio, Returned =>
      ∃ q n a rest, a_pending s ≡ₚ (q, n, Some k, a) :: rest ∧
        a_pending s' ≡ₚ (prio, n, Some k, a) :: rest ∧
        a_running s' = a_running s ∧ a_counter s' = a_counter s
  | EChangePriority k _, _ =>
      same s s' ∧ ∀ x, x ∈ a_pending s → view_id x ≠ Some k
  | EFetch w, _ =>
      (∃ x, a_pending s ≡ₚ x :: a_pending s' ∧
         (∀ y, y ∈ a_pending s → key_lt (view_key y) (view_key x) = false) ∧
         a_running s' = <[w := x]> (a_running s) ∧ a_counter s' = a_counter s) ∨
      same s s' ∧ (a_pending s = [] ∨ w ∈ p_termworkers p)
  | EFinish w RunDone, _ =>
      a_pending s' ≡ₚ a_pending s ∧ is_Some (a_running s !! w) ∧
      a_running s' = delete w (a_running s) ∧ a_counter s' = a_counter s
  | EFinish w (RunDefer prio), _ =>
      ∃ q n id a, a_running s !! w = Some (q, n, id, a) ∧
        a_pending s' ≡ₚ (default q prio, a_counter s, id, a) :: a_pending s ∧
        a_running s' = delete w (a_running s) ∧ a_counter s' = S (a_counter s)
  | _, _ => same s s'
  end.

(** ** Adding *)

Lemma omap_view_old store e t (h : list nat) :
  (e ∉ h) → omap (view (<[e := t]> store)) h = omap (view store) h.
Proof.
  intros Hn. apply list_omap_ext, Forall_Forall2_diag, Forall_forall.
  intros e' He'. unfold view. by rewrite lookup_insert_ne by set_solver.
Qed.

Lemma omap_cons_eq {B C} (f : B → option C) x xs :
  omap f (x :: xs) = match f x with Some y => y :: omap f xs | None => omap f xs end.
Proof. done. Qed.

Lemma run_view_old store e t (run : gmap nat nat) :
  (∀ w, run !! w ≠ Some e) → omap (view (<[e := t]> store)) run = omap (view store) run.
Proof.
  intros Hr. apply map_eq. intros w. rewrite !lookup_omap.
  destruct (run !! w) as [e'|] eqn:E; [|done]. simpl. unfold view.
  rewrite lookup_insert_ne; [done|]. intros ->. by destruct (Hr w).
Qed.

Lemma next_not_known p e :
  pool_inv p → known (p_tasks p) (runs p) e → e ≠ p_next_entry p.
Proof.
  intros Hi He. destruct (tasks_inv_known _ _ _ _ _ _ _ (pi_tasks _ Hi) He) as [t Ht].
  apply (ti_fresh _ _ _ _ _ _ (pi_tasks _ Hi)) in Ht. lia.
Qed.

Lemma progress_notify (waiting : list nat) (n m : nat) :
  waiting = [] ∨ n + length waiting ≤ m →
  tail waiting = [] ∨ S n + length (tail waiting) ≤ m.
Proof. destruct waiting; simpl; [by left|]. intros [|]; [done|right; lia]. Qed.

Lemma waiting_notify (P : nat → Prop) (waiting : list nat) :
  NoDup waiting ∧ (∀ w, w ∈ waiting → P w) →
  NoDup (tail waiting) ∧ ∀ w, w ∈ tail waiting → P w.
Proof.
  destruct waiting as [|w ws]; [done|]. simpl. intros [[_ ?]%NoDup_cons Hw].
  split; [done|]. set_solver.
Qed.

(** The fields that adding a task, changing a priority or popping leaves alone. *)
Definition same_threads p p' : Prop :=
  p_workers p' = p_workers p ∧ p_termworkers p' = p_termworkers p ∧
  p_threads p' = p_threads p ∧ p_last_worker_id p' = p_last_worker_id p ∧
  p_quiescing p' = p_quiescing p.

Lemma pool_inv_push p p' :
  pool_inv p → same_threads p p' → p_clients p' = p_clients p →
  p_waiting p' = tail (p_waiting p) →
  length (p_tasks p') = S (length (p_tasks p)) →
  tasks_inv (p_store p') (p_next_entry p') (p_counter p') (p_tasks p')
            (p_taskdata p') (runs p) →
  pool_inv p'.
Proof.
  intros [] (Hw & Ht & Hth & Hl & Hq) Hc Hwait Hlen Hti.
  assert (runs p' = runs p) as Hr by (unfold runs; by rewrite Hth).
  split; rewrite ?Hr, ?Hw, ?Ht, ?Hth, ?Hl, ?Hq, ?Hc, ?Hwait, ?Hlen; try done.
  - by apply waiting_notify.
  - by apply progress_notify.
  - intros c Hcc. left. intros E. by rewrite E in Hlen.
Qed.

Lemma AddTaskUnlocked_ok p args prio id :
  pool_inv p → id_fresh (p_store p) (p_taskdata p) (runs p) id →
  ∃ p', AddTaskUnlocked args_lt args prio id p = Ok p' ∧ pool_inv p' ∧
        added [(args, prio, id)] (abs p) (abs p') ∧ same_threads p p' ∧
        p_clients p' = p_clients p ∧
        (∀ k, p_taskdata p' !! k = None ↔ p_taskdata p !! k = None ∧ id ≠ Some k) ∧
        (∀ e, known (p_tasks p) (runs p) e → p_store p' !! e = p_store p !! e).
Proof.
  intros Hi Hid. unfold AddTaskUnlocked.
  destruct (tasks_inv_add args_lt _ _ _ _ _ _ id prio args (pi_tasks _ Hi) Hid)
    as (tasks' & Hpush & Hp & Hti). cbv zeta in Hpush.
  pose proof (next_not_known p) as Hnext.
  set (td' := match id with Some k => _ | None => _ end) in Hti.
  assert (match id with
          | None => Ok (p_taskdata p)
          | Some k => do* assert (bool_decide (p_taskdata p !! k = None)) in
                      Ok (<[k := p_next_entry p]> (p_taskdata p))
          end = Ok (E := exn) td') as ->.
  { destruct id as [k|]; [|done]. destruct (Hid k eq_refl) as [-> _]. done. }
  simpl. rewrite Hpush. simpl. eexists. split; [done|].
  split.
  { eapply pool_inv_push; [exact Hi|by split_and!|done|done| |exact Hti].
    simpl. by rewrite Hp. }
  split; [split; [|split]|split_and!]; simpl; [|try done..].
  - rewrite Hp, omap_cons_eq. unfold view at 1. rewrite lookup_insert_eq. simpl.
    rewrite omap_view_old; [done|]. intros Hin. by apply (Hnext (p_next_entry p) Hi (or_introl Hin)).
  - apply (run_view_old _ _ _ (runs p)). intros w Hw. by apply (Hnext (p_next_entry p) Hi (or_intror (ex_intro _ _ Hw))).
  - lia.
  - intros k. unfold td'. destruct id as [k'|]; [|naive_solver].
    rewrite lookup_insert_None. naive_solver.
  - intros e He. rewrite lookup_insert_ne; [done|]. intros <-. by apply (Hnext (p_next_entry p)).
Qed.

(** ** The callers' contract *)

Definition task_ids (ts : list (A * Z * option Z)) : list Z := omap snd ts.

Definition running_ids p : list Z :=
  omap (λ e, t ← p_store p !! e; t_id t) (map_to_list (runs p)).*2.

(** The IDs are distinct and not in use by a pending or a running task. *)
Definition ids_ok (ts : list (A * Z * option Z)) p : bool :=
  bool_decide (NoDup (task_ids ts)) &&
  forallb (λ k, bool_decide (p_taskdata p !! k = None) && bool_decide (k ∉ running_ids p))
          (task_ids ts).

Lemma running_ids_spec p k :
  k ∈ running_ids p ↔
  ∃ w e t, runs p !! w = Some e ∧ p_store p !! e = Some t ∧ t_id t = Some k.
Proof.
  unfold running_ids. rewrite list_elem_of_omap. split.
  - intros (e & ([w e'] & -> & Hin)%list_elem_of_fmap & Hk).
    apply elem_of_map_to_list in Hin. apply bind_Some in Hk as (t & Ht & Hk). simpl in *. eauto 10.
  - intros (w & e & t & Hw & Ht & Hk). exists e. split; [|by rewrite Ht].
    apply list_elem_of_fmap. exists (w, e). split; [done|]. by apply elem_of_map_to_list.
Qed.

Lemma ids_ok_spec ts p :
  ids_ok ts p = true ↔
  NoDup (task_ids ts) ∧
  ∀ k, k ∈ task_ids ts → id_fresh (p_store p) (p_taskdata p) (runs p) (Some k).
Proof.
  unfold ids_ok. rewrite andb_true_iff, bool_decide_eq_true, forallb_forall.
  setoid_rewrite <-list_elem_of_In. setoid_rewrite andb_true_iff.
  setoid_rewrite bool_decide_eq_true. setoid_rewrite running_ids_spec.
  apply and_iff_compat_l, forall_proper. intros k. apply imp_iff_compat_l.
  unfold id_fresh. naive_solver.
Qed.

Lemma ids_ok_cons a prio id ts p :
  ids_ok ((a, prio, id) :: ts) p = true →
  id_fresh (p_store p) (p_taskdata p) (runs p) id ∧ ids_ok ts p = true ∧
  ∀ k, id = Some k → k ∉ task_ids ts.
Proof.
  rewrite !ids_ok_spec. unfold task_ids. rewrite omap_cons_eq. simpl.
  destruct id as [k|]; intros [Hnd Hall].
  - apply NoDup_cons in Hnd as [Hn Hnd]. split_and!; [apply Hall; set_solver|done|set_solver|].
    intros ? [= <-]. done.
  - split_and!; [done..|]. done.
Qed.

(** The entries with the order number of a task in the heap do not have the
    priority it is given. *)
Definition new_priority (k prio : Z) p : bool :=
  match p_taskdata p !! k with
  | None => true
  | Some old =>
      match p_store p !! old with
      | None => true
      | Some t =>
          forallb (λ e, match p_store p !! e with
                        | None => true
                        | Some t' => negb (bool_decide (t_order t' = t_order t) &&
                                           bool_decide (t_prio t' = prio))
                        end) (p_tasks p)
      end
  end.

(** IDs are unique, a task is not given a priority it has had since it was
    added, one resize at a time. *)
Definition legal (ev : event A) p : bool :=
  match ev with
  | EAdd _ ts => p_quiescing p || ids_ok ts p
  | EClientWake c =>
      match p_clients p !! c with
      | Some (CAdd ts, _) => p_quiescing p || ids_ok ts p
      | _ => true
      end
  | EChangePriority k prio => new_priority k prio p
  | EResizeEnd ws => bool_decide (ws = p_termworkers p)
  | _ => true
  end.

Inductive reachable : pool A → Prop :=
| reach_init : reachable empty_pool
| reach_step ev p p' o :
    reachable p → legal ev p = true → step args_lt ev p = Some (Ok (p', o)) → reachable p'.

(** ** The operations preserve the invariant and refine the abstract ones *)

Lemma same_refl s : same s s.
Proof. done. Qed.

Lemma same_trans s1 s2 s3 : same s1 s2 → same s2 s3 → same s1 s3.
Proof.
  intros (H1 & H2 & H3) (H1' & H2' & H3'). split; [by rewrite H1', H1|]. split; congruence.
Qed.

Lemma added_cons x ts s1 s2 s3 :
  added [x] s1 s2 → added ts s2 s3 → added (x :: ts) s1 s3.
Proof.
  destruct x as [[a prio] id]. intros (Hp & Hr & Hc) (Hp' & Hr' & Hc'). simpl in *.
  split_and!; [|congruence|simpl; lia].
  rewrite Hp', Hp, Hc. simpl. replace (a_counter s1 + 1) with (S (a_counter s1)) by lia.
  by rewrite <-Permutation_middle.
Qed.

Lemma same_threads_runs p p' : same_threads p p' → runs p' = runs p.
Proof. intros (_ & _ & H & _). unfold runs. by rewrite H. Qed.

Lemma pool_same_threads_trans p1 p2 p3 :
  same_threads p1 p2 → same_threads p2 p3 → same_threads p1 p3.
Proof. unfold same_threads. intuition congruence. Qed.

Lemma AddTasksUnlocked_ok ts p :
  pool_inv p → ids_ok ts p = true →
  ∃ p', AddTasksUnlocked args_lt ts p = Ok p' ∧ pool_inv p' ∧ added ts (abs p) (abs p').
Proof.
  revert p. induction ts as [|[[a prio] id] ts IH]; intros p Hi Hids; simpl.
  { exists p. split_and!; [done..|]. unfold added. simpl. split_and!; [done..|lia]. }
  apply ids_ok_cons in Hids as (Hid & Hids & Hk).
  destruct (AddTaskUnlocked_ok p a prio id Hi Hid)
    as (p1 & -> & Hi1 & Ha & Hst & _ & Htd & Hold). simpl.
  destruct (IH p1 Hi1) as (p2 & -> & Hi2 & Ha2).
  { apply ids_ok_spec in Hids as [Hnd Hall]. apply ids_ok_spec. split; [done|].
    intros k Hin k' [= <-]. destruct (Hall k Hin k eq_refl) as [Hnone Hrun].
    rewrite (same_threads_runs _ _ Hst). split.
    - apply Htd. split; [done|]. intros ->. by eapply Hk.
    - intros w e t Hw. rewrite Hold by (right; by exists w). by apply (Hrun w). }
  exists p2. split_and!; [done..|]. by eapply added_cons.
Qed.

(** Changes to the clients that keep the promises made to them. *)
Lemma pool_inv_clients p q m :
  pool_inv p →
  (∀ c, m !! c = Some (CQuiesce, false) → p_tasks p ≠ [] ∨ HasRunningTasksUnlocked p = true) →
  (∀ c ts, m !! c = Some (CAdd ts, false) → q = true) →
  (q = true → ∃ c b, m !! c = Some (CQuiesce, b)) →
  pool_inv (set_clients q m p).
Proof. intros [] H1 H2 H3. by split. Qed.

Lemma add_tasks_ok c ts p :
  pool_inv p → (∀ b, p_clients p !! c ≠ Some (CQuiesce, b)) →
  p_quiescing p || ids_ok ts p = true →
  ∃ p' o, add_tasks args_lt c ts p = Ok (p', o) ∧ pool_inv p' ∧
          match o with Returned => added ts (abs p) (abs p') | _ => same (abs p) (abs p') end.
Proof.
  intros Hi Hc Hok. unfold add_tasks. destruct (p_quiescing p) eqn:Hq.
  - eexists _, _. split; [done|]. split; [|done]. apply pool_inv_clients; [done|..].
    + intros c'. rewrite lookup_insert_Some. intros [[_ [=]]|[_ ?]]. by eapply pi_quiesce.
    + done.
    + intros _. destruct (pi_quiescing _ Hi Hq) as (c' & b & Hc').
      exists c', b. rewrite lookup_insert_ne; [done|]. intros ->. by eapply Hc.
  - simpl in Hok. set (p1 := set_clients _ _ p).
    assert (pool_inv p1) as Hi1.
    { apply pool_inv_clients; [done|..|done].
      - intros c' [_ ?]%lookup_delete_Some. by eapply pi_quiesce.
      - intros c' ts' [_ Hc']%lookup_delete_Some. apply (pi_adders _ Hi) in Hc'. congruence. }
    destruct (AddTasksUnlocked_ok ts p1 Hi1 Hok) as (p2 & -> & Hi2 & Ha).
    by eexists _, _.
Qed.

Lemma view_Some store e x :
  view store e = Some x ↔
  ∃ t a, store !! e = Some t ∧ t_args t = Some a ∧ x = (t_prio t, t_order t, t_id t, a).
Proof.
  unfold view. rewrite bind_Some. split.
  - intros (t & Ht & (a & Ha & [= <-])%bind_Some). eauto.
  - intros (t & a & Ht & Ha & ->). exists t. rewrite Ha. done.
Qed.

Lemma pending_no_id p k :
  pool_inv p → p_taskdata p !! k = None →
  ∀ x, x ∈ a_pending (abs p) → view_id x ≠ Some k.
Proof.
  intros Hi Hk x (e & He & (t & a & Ht & Ha & ->)%view_Some)%list_elem_of_omap Hid.
  assert (p_taskdata p !! k = Some e); [|congruence].
  apply (ti_td _ _ _ _ _ _ (pi_tasks _ Hi)). split; [done|]. exists t.
  split_and!; [done..|]. unfold is_live. by rewrite Ha.
Qed.

(** Replacing a pending entry by another, in terms of the abstract pool. *)
Lemma change_views p old t a prio tasks' :
  pool_inv p → old ∈ p_tasks p → p_store p !! old = Some t → t_args t = Some a →
  tasks' ≡ₚ p_next_entry p :: p_tasks p →
  let store' := <[p_next_entry p := Entry prio (t_order t) (t_id t) (t_args t)]>
    (<[old := Entry (t_prio t) (t_order t) (t_id t) None]> (p_store p)) in
  (∃ rest, a_pending (abs p) ≡ₚ (t_prio t, t_order t, t_id t, a) :: rest ∧
           omap (view store') tasks' ≡ₚ (prio, t_order t, t_id t, a) :: rest) ∧
  omap (view store') (runs p) = a_running (abs p).
Proof.
  intros Hi Hin Ht Ha Hp store'. pose proof (pi_tasks _ Hi) as Hti.
  destruct (proj1 (elem_of_Permutation (p_tasks p) old) Hin) as [rest Hrest].
  pose proof (proj1 (ti_keys _ _ _ _ _ _ Hti)) as Hnd. rewrite Hrest in Hnd.
  apply NoDup_cons in Hnd as [Hnold Hnd].
  pose proof (λ e, next_not_known p e Hi) as Hnext. split.
  - exists (omap (view (p_store p)) rest). simpl. split.
    + rewrite Hrest, omap_cons_eq.
      rewrite (proj2 (view_Some _ _ _) (ex_intro _ t (ex_intro _ a (conj Ht (conj Ha eq_refl))))).
      done.
    + rewrite Hp, omap_cons_eq. unfold view at 1, store' at 1. rewrite lookup_insert_eq. simpl.
      rewrite Ha. simpl. apply Permutation_skip. unfold store'.
      rewrite Hrest, omap_view_old, omap_cons_eq.
      * unfold view at 1. rewrite lookup_insert_eq. simpl. by rewrite omap_view_old.
      * rewrite <-Hrest. intros Hn. by apply (Hnext (p_next_entry p) (or_introl Hn)).
  - unfold store'. rewrite !run_view_old; [done|..]; intros w Hw.
    + by destruct (ti_run _ _ _ _ _ _ Hti _ _ Hw).
    + by apply (Hnext (p_next_entry p) (or_intror (ex_intro _ _ Hw))).
Qed.

Lemma ChangeTaskPriority_ok k prio p :
  pool_inv p → new_priority k prio p = true →
  ∃ p' o, ChangeTaskPriority args_lt k prio p = Ok (p', o) ∧ pool_inv p' ∧
          pool_spec (EChangePriority k prio) o p (abs p) (abs p').
Proof.
  intros Hi Hnew. pose proof (pi_tasks _ Hi) as Hti.
  unfold ChangeTaskPriority, new_priority in *.
  destruct (p_taskdata p !! k) as [old|] eqn:Hk; cycle 1.
  { exists p, NoSuchTask. split; [done|]. split; [done|]. split; [apply same_refl|].
    by apply pending_no_id. }
  destruct (proj1 (ti_td _ _ _ _ _ _ Hti k old) Hk) as (Hin & t & Ht & Hid & Hlive).
  unfold entry_of. rewrite Ht in *. simpl.
  destruct (tasks_inv_change args_lt _ _ _ _ _ _ k old t prio Hti Hk Ht)
    as (tasks' & -> & Hp & Hti').
  { intros e t' He Ht' Hor Hpr. rewrite forallb_forall in Hnew.
    specialize (Hnew e (proj1 (list_elem_of_In _ _) He)). rewrite Ht' in Hnew.
    by rewrite Hor, Hpr, !bool_decide_true in Hnew. }
  eexists _, Returned. split; [done|]. split.
  { eapply pool_inv_push; [exact Hi|by split_and!|done|done| |exact Hti'].
    simpl. by rewrite Hp. }
  unfold is_live in Hlive. apply bool_decide_eq_true in Hlive as [a Ha].
  destruct (change_views p old t a prio tasks') as [(rest & H1 & H2) Hr]; [done..|].
  rewrite Hid in H1. cbv zeta in H2, Hr. rewrite Hid in H2, Hr.
  exists (t_prio t), (t_order t), a, rest. simpl. rewrite Hid. by split_and!.
Qed.

(** ** Fetching *)

Lemma pool_inv_pop p tasks td :
  pool_inv p →
  tasks_inv (p_store p) (p_next_entry p) (p_counter p) tasks td (runs p) →
  length tasks ≤ length (p_tasks p) →
  pool_inv (notify_quiesce (set_tasks (p_store p) tasks td p)).
Proof.
  intros [] Hti Hlen. split; try done; simpl.
  - destruct pi_progress0 as [?|?]; [by left|right; lia].
  - intros c. rewrite lookup_fmap. by destruct (p_clients p !! c) as [[[] []]|].
  - intros c ts. rewrite lookup_fmap, fmap_Some. intros ([[] b] & Hc & [=]). subst.
    by eapply pi_adders0.
  - intros (c & b & Hc)%pi_quiescing0. exists c, true. by rewrite lookup_fmap, Hc.
Qed.

(** What taking the entry of a live task gives. *)
Definition fetched (w e : nat) p p' : Prop :=
  ∃ x, a_pending (abs p) ≡ₚ x :: a_pending (abs p') ∧
    (∀ y, y ∈ a_pending (abs p) → key_lt (view_key y) (view_key x) = false) ∧
    view (p_store p') e = Some x ∧ (e ∉ p_tasks p') ∧ (∀ w', runs p' !! w' ≠ Some e) ∧
    (∀ t, p_store p' !! e = Some t →
       id_fresh (p_store p') (p_taskdata p') (runs p') (t_id t)).

Definition fetch_post (w : nat) (r : wait_result) p p' : Prop :=
  pool_inv p' ∧ same_threads p p' ∧ p_counter p' = p_counter p ∧ p_store p' = p_store p ∧
  match r with
  | Terminate => w ∈ p_termworkers p ∧ p_waiting p' = p_waiting p ∧ same (abs p) (abs p')
  | Wait => same (abs p) (abs p') ∧ a_pending (abs p) = []
  | Task e => p_waiting p' = p_waiting p ∧ length (p_tasks p') < length (p_tasks p) ∧
      fetched w e p p'
  end.

Lemma fetch_post_trans w r p1 p2 p3 :
  same_threads p1 p2 → p_counter p2 = p_counter p1 → p_store p2 = p_store p1 →
  p_waiting p2 = p_waiting p1 → length (p_tasks p2) ≤ length (p_tasks p1) →
  a_pending (abs p2) ≡ₚ a_pending (abs p1) →
  fetch_post w r p2 p3 → fetch_post w r p1 p3.
Proof.
  intros Hst Hc Hs Hw Hl Hp (Hi & Hst' & Hc' & Hs' & Hr).
  assert (same (abs p1) (abs p2)) as Hsame.
  { split_and!; [done| |done]. simpl. by rewrite Hs, (same_threads_runs _ _ Hst). }
  split_and!; [done|by eapply pool_same_threads_trans|congruence|congruence|].
  destruct r.
  - destruct Hr as (? & ? & Hr). destruct Hst as (_ & <- & _).
    split; [done|]. split; [congruence|]. by eapply same_trans.
  - destruct Hr as (? & ? & x & Hx & Hmin & ?). split; [congruence|]. split; [lia|]. exists x.
    rewrite <-Hp. split; [done|]. split; [|done]. intros y. rewrite <-Hp. apply Hmin.
  - destruct Hr as [Hr Hnil]. split; [by eapply same_trans|].
    apply Permutation_nil. by rewrite <-Hnil, Hp.
Qed.

Lemma view_dead store e t : store !! e = Some t → is_live t = false → view store e = None.
Proof.
  intros Ht Hl. unfold view. rewrite Ht. simpl. unfold is_live in Hl.
  apply bool_decide_eq_false in Hl. by destruct (t_args t); [destruct Hl|].
Qed.

(** Popping the entry of a live task. *)
Lemma fetched_pop w e t tasks p :
  pool_inv p → p_tasks p ≡ₚ e :: tasks → p_store p !! e = Some t → is_live t = true →
  (∀ e', e' ∈ p_tasks p → ref_ltb (p_store p) e' e = false) →
  fetched w e p
    (notify_quiesce (set_tasks (p_store p) tasks
       (match t_id t with Some k => delete k (p_taskdata p) | None => p_taskdata p end) p)).
Proof.
  intros Hi Hp Ht Hlive Hmin. pose proof (pi_tasks _ Hi) as Hti.
  pose proof (proj1 (ti_keys _ _ _ _ _ _ Hti)) as Hnd. rewrite Hp in Hnd.
  apply NoDup_cons in Hnd as [Hnin _].
  assert (e ∈ p_tasks p) as Hin by (rewrite Hp; set_solver).
  unfold is_live in Hlive. pose proof Hlive as Hl. apply bool_decide_eq_true in Hl as [a Ha].
  exists (t_prio t, t_order t, t_id t, a).
  assert (view (p_store p) e = Some (t_prio t, t_order t, t_id t, a)) as Hv
    by (apply view_Some; eauto). split_and!.
  - simpl. by rewrite Hp, omap_cons_eq, Hv.
  - intros y (e' & He' & (t' & a' & Ht' & _ & ->)%view_Some)%list_elem_of_omap.
    specialize (Hmin e' He'). unfold ref_ltb, key in Hmin. by rewrite Ht, Ht' in Hmin.
  - done.
  - done.
  - intros w' Hw'. by destruct (ti_run _ _ _ _ _ _ Hti w' e Hw').
  - intros t' Ht'. assert (t' = t) as -> by (simpl in Ht'; congruence).
    intros k Hk. simpl. rewrite Hk, lookup_delete_eq. split; [done|].
    intros w' e' t' Hw' Ht'' Hid.
    destruct (ti_run _ _ _ _ _ _ Hti w' e' Hw') as (_ & t0 & Ht0 & _ & Hnone).
    assert (t0 = t') as -> by congruence. specialize (Hnone k Hid).
    assert (p_taskdata p !! k = Some e); [|congruence].
    apply (ti_td _ _ _ _ _ _ Hti). split; [done|]. by exists t.
Qed.

Lemma pool_inv_wait w p :
  pool_inv p → p_threads p !! w = Some WIdle → (w ∉ p_waiting p) →
  (w ∉ p_termworkers p) → p_tasks p = [] →
  pool_inv (set_threads (p_threads p) (p_waiting p ++ [w]) p).
Proof.
  intros Hi Hw Hnw Hnt Hnil. destruct (pi_member _ Hi _ _ Hw) as [_ [|Hmem]]; [done|].
  assert (w ∈ p_workers p) as Hmw by (apply elem_of_app in Hmem as []; done).
  destruct (pi_waiting _ Hi) as [Hnd Hall].
  assert (NoDup (p_waiting p ++ [w])) as Hnd'.
  { apply NoDup_app. split_and!; [done|set_solver|apply NoDup_singleton]. }
  destruct Hi. split; try done; simpl.
  - split; [done|]. intros w' [?| ->%list_elem_of_singleton]%elem_of_app; [by apply Hall|done].
  - right. rewrite Hnil. simpl. apply submseteq_length, NoDup_submseteq; [done|].
    unfold idle_workers. setoid_rewrite list_elem_of_filter. setoid_rewrite is_idle_spec.
    intros w' [?%Hall| ->%list_elem_of_singleton]%elem_of_app; done.
Qed.

Lemma WaitForTask_fuel_ok fuel w p :
  pool_inv p → p_threads p !! w = Some WIdle → (w ∉ p_waiting p) →
  length (p_tasks p) < fuel →
  ∃ p' r, WaitForTask_fuel args_lt fuel w p = Ok (p', r) ∧ fetch_post w r p p'.
Proof.
  revert p. induction fuel as [|fuel IH]; intros p Hi Hw Hnw Hlen; [lia|]. simpl.
  unfold ShouldWorkerTerminateUnlocked. case_bool_decide as Hterm.
  { exists p, Terminate. split; [done|]. by split_and!. }
  destruct (p_tasks p) as [|e0 es] eqn:Htasks.
  { eexists _, Wait. split; [done|]. split; [by apply pool_inv_wait|].
    split_and!; try done. simpl. by rewrite Htasks. }
  rewrite <-Htasks in *.
  destruct (tasks_inv_pop args_lt _ _ _ _ _ _ (pi_tasks _ Hi))
    as (e & tasks & t & -> & Hp & Ht & Hmin & Hti); [by rewrite Htasks|].
  simpl. unfold entry_of. rewrite Ht. simpl.
  assert (length (p_tasks p) = S (length tasks)) as Hl by (by rewrite Hp).
  pose proof (pool_inv_pop p _ _ Hi Hti ltac:(lia)) as Hi'.
  destruct (is_live t) eqn:Hlive; rewrite ?Hlive in *.
  - pose proof (fetched_pop w e t tasks p Hi Hp Ht Hlive Hmin) as Hf.
    pose proof Hlive as Ha. apply bool_decide_eq_true in Ha as [a ->].
    destruct (t_id t) as [k|] eqn:Hid.
    + assert (p_taskdata p !! k = Some e) as ->.
      { apply (ti_td _ _ _ _ _ _ (pi_tasks _ Hi)). split; [rewrite Hp; set_solver|].
        by exists t. }
      eexists _, (Task e). split; [done|]. split; [exact Hi'|]. split_and!; try done. simpl; lia.
    + eexists _, (Task e). split; [done|]. split; [exact Hi'|]. split_and!; try done. simpl; lia.
  - pose proof (view_dead _ _ _ Ht Hlive) as Hv. unfold is_live in Hlive.
    apply bool_decide_eq_false in Hlive.
    destruct (t_args t) as [|] eqn:Ha; [by destruct Hlive|].
    destruct (IH (notify_quiesce (set_tasks (p_store p) tasks (p_taskdata p) p)))
      as (p' & r & -> & Hpost); [done..|simpl; lia|].
    exists p', r. split; [done|]. eapply fetch_post_trans; [..|exact Hpost]; try done; [simpl; lia|].
    simpl. by rewrite Hp, omap_cons_eq, Hv.
Qed.

(** ** Changing the state of a worker *)

Lemma runs_set_running p w e ws :
  runs (set_threads (<[w := WRunning e]> (p_threads p)) ws p) = <[w := e]> (runs p).
Proof.
  apply map_eq. intros w'. unfold runs. simpl. rewrite lookup_omap, !lookup_insert.
  case_decide; [done|]. by rewrite lookup_omap.
Qed.

Lemma runs_set_other p w s ws :
  match s with WRunning _ => False | _ => True end →
  runs (set_threads (<[w := s]> (p_threads p)) ws p) = delete w (runs p).
Proof.
  intros Hs. apply map_eq. intros w'. unfold runs. simpl.
  rewrite lookup_omap, lookup_insert, lookup_delete.
  case_decide; [by destruct s|]. by rewrite lookup_omap.
Qed.

(** A live worker changes state; the tasks are dealt with separately. *)
Lemma pool_inv_thread p w s :
  pool_inv p → is_Some (p_threads p !! w) → w ∈ p_workers p ++ p_termworkers p →
  (w ∉ p_waiting p) → (s = WDead → w ∈ p_termworkers p) →
  let p' := set_threads (<[w := s]> (p_threads p)) (p_waiting p) p in
  tasks_inv (p_store p) (p_next_entry p) (p_counter p) (p_tasks p) (p_taskdata p) (runs p') →
  (∀ c, p_clients p !! c = Some (CQuiesce, false) →
        p_tasks p ≠ [] ∨ HasRunningTasksUnlocked p' = true) →
  (p_waiting p = [] ∨ length (p_tasks p) + length (p_waiting p) ≤
     length (idle_workers (<[w := s]> (p_threads p)) (p_workers p))) →
  pool_inv p'.
Proof.
  intros Hi [s0 Hs0] Hmem Hnw Hdead p' Hti Hq Hprog. split; simpl; try apply Hi; try done.
  - intros w' Hw'. rewrite lookup_insert. case_decide; [done|by apply Hi].
  - intros w' s' [[<- <-]|[_ H]]%lookup_insert_Some; [|by apply Hi].
    split; [by eapply (pi_member _ Hi)|by right].
  - intros w' Hw' [[<- ->]|[_ H]]%lookup_insert_Some; [|by eapply (pi_alive _ Hi)].
    specialize (Hdead eq_refl). pose proof (pi_workers _ Hi) as Hnd.
    apply NoDup_app in Hnd as (_ & Hd & _). by eapply Hd.
  - destruct (pi_waiting _ Hi) as [Hnd Hall]. split; [done|]. intros w' Hw'.
    rewrite lookup_insert_ne by (by intros ->). by apply Hall.
Qed.

Lemma worker_fetch_ok w p :
  pool_inv p → p_threads p !! w = Some WIdle → (w ∉ p_waiting p) →
  ∃ p', worker_fetch args_lt w p = Ok p' ∧ pool_inv p' ∧
        ∀ o, pool_spec (EFetch w) o p (abs p) (abs p').
Proof.
  intros Hi Hw Hnw. unfold worker_fetch, WaitForTaskUnlocked.
  destruct (WaitForTask_fuel_ok (length (p_tasks p) + 1) w p)
    as (p1 & r & -> & Hi1 & Hst & Hc & Hs & Hr); [done..|lia|]. simpl.
  pose proof (same_threads_runs _ _ Hst) as Hruns.
  destruct (pi_member _ Hi _ _ Hw) as [_ [|Hmem]]; [done|].
  destruct (id Hst) as (Hwk & Htm & Hth & _).
  assert (runs p1 !! w = None) as Hnr.
  { apply eq_None_not_Some. intros [e He%runs_lookup]. congruence. }
  destruct r as [|e|].
  - destruct Hr as (Hterm & Hwait & Hsame). set (p2 := set_threads _ _ p1).
    assert (runs p2 = runs p1) as Hr2.
    { unfold p2. rewrite runs_set_other by done. by rewrite delete_id. }
    exists p2. split; [done|]. split.
    + apply pool_inv_thread; [done|by rewrite Hth, Hw|by rewrite Hwk, Htm|by rewrite Hwait
        |by rewrite Htm|..].
      * change (tasks_inv (p_store p1) (p_next_entry p1) (p_counter p1) (p_tasks p1)
                  (p_taskdata p1) (runs p2)). rewrite Hr2. apply Hi1.
      * intros c Hcc. destruct (pi_quiesce _ Hi1 c Hcc) as [|Hrun]; [by left|right].
        apply HasRunning_spec in Hrun as (w' & e & Hin & He). apply HasRunning_spec.
        exists w', e. split; [done|]. simpl. rewrite lookup_insert_ne; [done|].
        intros ->. congruence.
      * rewrite idle_other; [apply Hi1|]. intros Hin. pose proof (pi_workers _ Hi) as Hnd.
        apply NoDup_app in Hnd as (_ & Hd & _). rewrite Hwk in Hin. by eapply Hd.
    + intros o. right. split; [|by right]. destruct Hsame as (H1 & H2 & H3).
      split; [exact H1|]. split; [|exact H3].
      unfold abs. simpl. rewrite Hr2, Hruns, Hs. done.
  - destruct Hr as (Hwait & Hlt & x & Hx & Hmin & Hv & Hne & Hrun & Hid).
    destruct (proj1 (view_Some _ _ _) Hv) as (t & a & Ht & Ha & _).
    eexists. split; [done|].
    assert (is_live t = true) as Hlive by (unfold is_live; by rewrite Ha). split.
    + apply pool_inv_thread; [done|by rewrite Hth, Hw|by rewrite Hwk, Htm|by rewrite Hwait
        |by rewrite Htm|..].
      * rewrite runs_set_running. eapply tasks_inv_start; eauto. apply Hi1.
      * intros c _. right. apply HasRunning_spec. exists w, e. simpl.
        rewrite Hwk, Htm, lookup_insert_eq. done.
      * rewrite Hwait, Hth, Hwk. pose proof (pi_workers _ Hi) as [Hnd _]%NoDup_app.
        pose proof (idle_start (p_threads p) (p_workers p) w (WRunning e) Hnd).
        destruct (pi_progress _ Hi); [by left|right; lia].
    + intros o. left. exists x. split_and!; [done|done| |done].
      change (omap (view (p_store p1))
        (runs (set_threads (<[w := WRunning e]> (p_threads p1)) (p_waiting p1) p1))
        = <[w := x]> (omap (view (p_store p)) (runs p))).
      rewrite runs_set_running, Hruns, <-Hs. apply map_eq. intros w'.
      rewrite lookup_omap, !lookup_insert. case_decide; [done|]. by rewrite lookup_omap.
  - exists p1. split; [done|]. split; [done|]. intros o. right. naive_solver.
Qed.

(** ** Finishing *)

(** What [run] does with its task, whatever became of it. *)
Definition stop (w : nat) p : pool A :=
  notify_quiesce (set_threads (<[w := WIdle]> (p_threads p)) (p_waiting p) p).

Lemma AddTaskUnlocked_stop w args prio id p :
  AddTaskUnlocked args_lt args prio id (stop w p)
  = rmap (stop w) (AddTaskUnlocked args_lt args prio id p).
Proof.
  unfold AddTaskUnlocked. simpl. destruct id as [k|]; simpl.
  - case_bool_decide; simpl; [|done]. by destruct (heappush _ _ _).
  - by destruct (heappush _ _ _).
Qed.

Lemma pool_inv_notify p : pool_inv p → pool_inv (notify_quiesce p).
Proof. intros Hi. apply (pool_inv_pop p (p_tasks p) (p_taskdata p) Hi); [apply Hi|done]. Qed.

Lemma notified_clients p c :
  p_clients (notify_quiesce p) !! c ≠ Some (CQuiesce, false).
Proof. simpl. rewrite lookup_fmap. by destruct (p_clients p !! c) as [[[] []]|]. Qed.

Lemma stop_ok w e t p :
  pool_inv p → p_threads p !! w = Some (WRunning e) → p_store p !! e = Some t →
  pool_inv (stop w p) ∧
  id_fresh (p_store (stop w p)) (p_taskdata (stop w p)) (runs (stop w p)) (t_id t) ∧
  a_pending (abs (stop w p)) = a_pending (abs p) ∧
  a_running (abs (stop w p)) = delete w (a_running (abs p)) ∧
  a_counter (abs (stop w p)) = a_counter (abs p).
Proof.
  intros Hi Hw Ht. pose proof (pool_inv_notify p Hi) as Hi'.
  assert (runs (stop w p) = delete w (runs p)) as Hr
    by (change (runs (stop w p)) with
          (runs (set_threads (<[w := WIdle]> (p_threads p)) (p_waiting p) p));
        by apply runs_set_other).
  destruct (tasks_inv_stop _ _ _ _ _ _ w e t (pi_tasks _ Hi)) as [Hti Hid];
    [by apply runs_lookup|done|].
  destruct (pi_member _ Hi _ _ Hw) as [_ [|Hmem]]; [done|].
  rewrite Hr. split; [|split; [done|split; [done|split; [|done]]]].
  - apply (pool_inv_thread (notify_quiesce p) w WIdle); [done|by eexists|done| |done| | |].
    + simpl. intros Hin. apply (pi_waiting _ Hi) in Hin as [? _]. congruence.
    + change (tasks_inv (p_store p) (p_next_entry p) (p_counter p) (p_tasks p)
                (p_taskdata p) (runs (stop w p))). by rewrite Hr.
    + intros c Hc. by apply notified_clients in Hc.
    + simpl. pose proof (idle_stop (p_threads p) (p_workers p) w).
      destruct (pi_progress _ Hi); [by left|right; lia].
  - change (omap (view (p_store p)) (runs (stop w p))
            = delete w (omap (view (p_store p)) (runs p))).
    rewrite Hr. apply map_eq. intros w'. rewrite lookup_omap, !lookup_delete.
    case_decide; [done|]. by rewrite lookup_omap.
Qed.

Lemma worker_finish_ok w e r p :
  pool_inv p → p_threads p !! w = Some (WRunning e) →
  ∃ p', worker_finish args_lt w e r p = Ok p' ∧ pool_inv p' ∧
        ∀ o, pool_spec (EFinish w r) o p (abs p) (abs p').
Proof.
  intros Hi Hw.
  destruct (ti_run _ _ _ _ _ _ (pi_tasks _ Hi) w e) as (_ & t & Ht & Hlive & _);
    [by apply runs_lookup|].
  apply bool_decide_eq_true in Hlive as [a Ha].
  assert (a_running (abs p) !! w = Some (t_prio t, t_order t, t_id t, a)) as Hrun.
  { simpl. rewrite lookup_omap, (proj2 (runs_lookup p w e) Hw). simpl.
    apply view_Some. eauto. }
  destruct (stop_ok w e t p) as (Hi' & Hid & Hpend & Hr & Hc); [done..|].
  unfold worker_finish, entry_of. rewrite Ht. simpl. destruct r as [|prio].
  - exists (stop w p). split; [done|]. split; [done|]. intros o.
    split; [done|]. split; [by eexists|]. by split.
  - rewrite Ha.
    destruct (AddTaskUnlocked_ok (stop w p) a (default (t_prio t) prio) (t_id t) Hi' Hid)
      as (p1 & Hadd & Hi1 & (Hp1 & Hr1 & Hc1) & _).
    rewrite AddTaskUnlocked_stop in Hadd.
    destruct (AddTaskUnlocked args_lt a _ _ p) as [p0|]; [|done].
    simpl in *. injection Hadd as <-. exists (stop w p0).
    split; [done|]. split; [done|]. intros o.
    exists (t_prio t), (t_order t), (t_id t), a. split; [done|].
    unfold abs in Hr1, Hp1 |- *; cbn [a_pending a_running a_counter] in *.
    split; [exact Hp1|]. split; [|simpl in Hc1 |- *; lia].
    rewrite Hr1. exact Hr.
Qed.

(** ** Quiescing *)

(** The loop of [Quiesce], right after it set the flag or later. *)
Lemma quiesce_loop_ok c q p :
  pool_inv p → q = true ∨ q = p_quiescing p →
  let r := quiesce_loop c (set_clients q (p_clients p) p) in
  pool_inv r.1 ∧ same (abs p) (abs r.1) ∧
  (r.2 = Returned → p_tasks p = [] ∧ HasRunningTasksUnlocked p = false).
Proof.
  intros Hi Hq. unfold quiesce_loop. simpl.
  change (HasRunningTasksUnlocked (set_clients q (p_clients p) p))
    with (HasRunningTasksUnlocked p).
  destruct (bool_decide (p_tasks p ≠ []) || _) eqn:Hb; simpl.
  - split_and!; [|done..]. apply (pool_inv_clients p); [done|..].
    + intros c' _. apply orb_true_iff in Hb as [?%bool_decide_eq_true|?]; auto.
    + intros c' ts. rewrite lookup_insert_Some. intros [[_ [=]]|[_ Hc']].
      destruct Hq as [->| ->]; [done|]. by eapply pi_adders.
    + intros _. exists c, false. apply lookup_insert_eq.
  - apply orb_false_iff in Hb as [Hb1%bool_decide_eq_false Hb2].
    assert (p_tasks p = []) as Hnil by (by destruct (decide (p_tasks p = []))).
    split_and!; [|done..]. apply (pool_inv_clients p); [done|..|done].
    + intros c'. rewrite lookup_fmap, fmap_Some. intros ([[] b] & Hd & [=]). subst.
      simpl in Hd. apply lookup_delete_Some in Hd as [_ Hd]. by eapply pi_quiesce.
    + intros c' ts. rewrite lookup_fmap. simpl. by destruct (delete c (p_clients p) !! c') as [[[] []]|].
Qed.

(** ** Resizing *)

Lemma start_workers_ok n p :
  pool_inv p → pool_inv (start_workers n p) ∧ same (abs p) (abs (start_workers n p)).
Proof.
  revert p. induction n as [|n IH]; intros p Hi; simpl; [by split; [|apply same_refl]|].
  set (p1 := Pool _ _ _ _ _ _ _ _ _ _ _ _).
  set (w := S (p_last_worker_id p)).
  assert (p_threads p !! w = None) as Hnone.
  { apply eq_None_not_Some. intros [s Hs]. apply (pi_member _ Hi) in Hs as [Hle _].
    unfold w in Hle. lia. }
  assert (runs p1 = runs p) as Hr.
  { change (runs p1) with (runs (set_threads (<[w := WIdle]> (p_threads p)) (p_waiting p) p)).
    rewrite runs_set_other by done. apply delete_id. apply eq_None_not_Some.
    intros [e He%runs_lookup]. congruence. }
  assert (w ∉ p_workers p ++ p_termworkers p) as Hnew.
  { intros [s Hs]%(pi_threads _ Hi). congruence. }
  assert (p_workers p1 ++ p_termworkers p1 ≡ₚ w :: p_workers p ++ p_termworkers p) as Hperm.
  { simpl. rewrite <-app_assoc. simpl. by rewrite <-Permutation_middle. }
  destruct (IH p1) as [Hi2 Hs2].
  - split.
    + rewrite Hr. apply Hi.
    + rewrite Hperm. constructor; [done|apply Hi].
    + intros w'. rewrite Hperm. simpl. rewrite lookup_insert. case_decide; [done|].
      intros [->|?]%elem_of_cons; [done|by apply Hi].
    + intros w' s Hs. rewrite Hperm. simpl in *.
      apply lookup_insert_Some in Hs as [[<- <-]|[_ [Hle Hm]%(pi_member _ Hi)]];
        [split; [lia|set_solver]|]. split; [lia|set_solver].
    + intros w'. simpl. rewrite elem_of_app, list_elem_of_singleton, lookup_insert.
      case_decide; [done|]. intros [?| ->]; [by eapply pi_alive|done].
    + destruct (pi_waiting _ Hi) as [Hnd Hall]. split; [done|]. simpl.
      intros w' [Hw' Hin]%Hall. split; [|set_solver].
      rewrite lookup_insert_ne; [done|]. intros E. rewrite <-E in Hw'.
      unfold w in Hnone. congruence.
    + simpl. unfold idle_workers. rewrite filter_app, length_app.
      pose proof (idle_stop (p_threads p) (p_workers p) w) as Hle. unfold idle_workers, w in Hle.
      destruct (pi_progress _ Hi) as [?|Hp]; [by left|right]. unfold idle_workers in Hp. lia.
    + intros c Hc. destruct (pi_quiesce _ Hi c Hc) as [|Hrun]; [by left|right].
      apply HasRunning_spec in Hrun as (w' & e & Hin & He). apply HasRunning_spec.
      exists w', e. rewrite Hperm. simpl. split; [set_solver|].
      rewrite lookup_insert_ne; [done|]. intros E. rewrite <-E in He.
      unfold w in Hnone. congruence.
    + apply Hi.
    + apply Hi.
  - split; [done|]. eapply same_trans; [|exact Hs2].
    unfold same, abs. cbn [a_pending a_running a_counter]. by rewrite Hr.
Qed.

Lemma resize_begin_ok n p :
  pool_inv p →
  let r := resize_begin n p in pool_inv r.1 ∧ same (abs p) (abs r.1).
Proof.
  intros Hi. unfold resize_begin. case_decide; [by split; [|apply same_refl]|].
  case_decide; [|by apply start_workers_ok]. case_decide; [|by split; [|apply same_refl]].
  simpl. split; [|done]. assert (p_termworkers p ++ p_workers p ≡ₚ p_workers p ++ p_termworkers p)
    as Hperm by apply Permutation_app_comm.
  destruct Hi. split; simpl; try done.
  - by rewrite Hperm.
  - intros w. rewrite Hperm. apply pi_threads0.
  - intros w s. rewrite Hperm. apply pi_member0.
  - set_solver.
  - split; [constructor|set_solver].
  - by left.
  - intros c Hc. destruct (pi_quiesce0 c Hc) as [|Hrun]; [by left|right].
    apply HasRunning_spec in Hrun as (w' & e & Hin & He). apply HasRunning_spec.
    exists w', e. simpl. by rewrite Hperm.
Qed.

(** Removing the workers that have ended. *)
Lemma remove_terminated_ok ws p :
  (∀ w, w ∈ ws → p_threads p !! w = Some WDead) → NoDup ws → ws ⊆+ p_termworkers p →
  ∃ term, remove_terminated ws p = Ok (set_workers (p_workers p) term p) ∧
          p_termworkers p ≡ₚ ws ++ term.
Proof.
  revert p. induction ws as [|w ws IH]; intros p Hd Hnd Hsub; simpl.
  { exists (p_termworkers p). by destruct p. }
  assert (w ∈ p_termworkers p) as Hin by (eapply elem_of_submseteq; [|done]; set_solver).
  rewrite bool_decide_true by done. simpl. rewrite Hd by set_solver.
  pose proof (remove1_perm w _ Hin) as Hp. apply NoDup_cons in Hnd as [Hn Hnd].
  destruct (IH (set_workers (p_workers p) (remove1 w (p_termworkers p)) p))
    as (term & -> & Hp').
  - intros w' Hw'. apply Hd. set_solver.
  - done.
  - simpl. apply NoDup_submseteq; [done|]. intros w' Hw'.
    assert (w' ∈ p_termworkers p) as Hin' by (eapply elem_of_submseteq; [|done]; set_solver).
    rewrite Hp in Hin'. set_solver.
  - exists term. split; [done|]. simpl in *. by rewrite Hp, Hp'.
Qed.

Lemma resize_end_ok p :
  pool_inv p → (∀ w, w ∈ p_termworkers p → p_threads p !! w = Some WDead) →
  ∃ p', resize_end (p_termworkers p) p = Ok p' ∧ pool_inv p' ∧ same (abs p) (abs p').
Proof.
  intros Hi Hd. unfold resize_end.
  destruct (remove_terminated_ok (p_termworkers p) p) as (term & -> & Hp);
    [done| |done|].
  { by destruct (proj1 (NoDup_app _ _) (pi_workers _ Hi)) as (_ & _ & ?). }
  assert (term = []) as ->.
  { apply Permutation_length in Hp. rewrite length_app in Hp.
    destruct term; [done|simpl in Hp; lia]. }
  simpl. eexists. split; [done|]. split; [|done]. destruct Hi. split; simpl; try done.
  - rewrite app_nil_r. by apply NoDup_app in pi_workers0 as (? & _).
  - intros w. rewrite app_nil_r. intros ?. apply pi_threads0. set_solver.
  - intros w s Hs. rewrite app_nil_r. destruct (pi_member0 w s Hs) as [? [->|Hin]]; [by auto|].
    split; [done|]. apply elem_of_app in Hin as [?|?]; [by right|left].
    specialize (Hd w). naive_solver.
  - intros c Hc. destruct (pi_quiesce0 c Hc) as [|Hrun]; [by left|right].
    apply HasRunning_spec in Hrun as (w' & e & Hin & He). apply HasRunning_spec.
    exists w', e. simpl. rewrite app_nil_r. split; [|done].
    apply elem_of_app in Hin as [?|?]; [done|]. specialize (Hd w'). naive_solver.
Qed.
End pool.
