(* ===== verification/WorkerPoolProps.v ===== *)
(** * Worker pools: what users may rely on

    Refinement of the abstract pool (a task added is started once per addition
    or deferral, in order of priority and, within a priority, of addition),
    absence of internal errors, no worker asleep while a task waits for it, and
    the meaning of [Quiesce]. *)

From S2P Require Import Prelude Errors Heapq WorkerPool WorkerPoolInv WorkerPoolOps.

Section props.
  Context {A : Type} (args_lt : A → A → exc bool).
  Implicit Types p : pool A.

Lemma empty_pool_inv : pool_inv (@empty_pool A).
Proof.
  assert (runs (@empty_pool A) = ∅) as Hr by apply omap_empty.
  split; simpl; try set_solver; try apply NoDup_nil_2; try (by left).
  - rewrite Hr. split; try done; [|set_solver].
    split; [apply NoDup_nil_2|set_solver].
  - split; [apply NoDup_nil_2|set_solver].
Qed.

Lemma enabled_client (c : nat) p :
  enabled (EClientWake c) p = true → ∃ cl, p_clients p !! c = Some (cl, true).
Proof. simpl. destruct (p_clients p !! c) as [[cl []]|]; [by eauto|done..]. Qed.

Lemma set_clients_id p : set_clients (p_quiescing p) (p_clients p) p = p.
Proof. by destruct p. Qed.

Lemma pool_handle_ok ev p :
  pool_inv p → enabled ev p = true → legal ev p = true →
  ∃ p' o, handle args_lt ev p = Ok (p', o) ∧ pool_inv p' ∧
          pool_spec ev o p (abs p) (abs p').
Proof.
  intros Hi Hen Hle. destruct ev as [c ts|k prio|w|w r|c|c|n|ws].
  - simpl in *. apply bool_decide_eq_true in Hen.
    destruct (add_tasks_ok args_lt c ts p) as (p' & o & -> & ? & ?);
      [done|by rewrite Hen|done|]. exists p', o. by destruct o.
  - by apply ChangeTaskPriority_ok.
  - simpl in *. destruct (p_threads p !! w) as [[]|] eqn:Hw; try done.
    apply bool_decide_eq_true in Hen.
    destruct (worker_fetch_ok args_lt w p) as (p' & -> & ? & Hs); [done..|].
    exists p', Returned. split; [done|]. split; [done|]. apply (Hs Returned).
  - simpl in *. unfold is_running in Hen.
    destruct (p_threads p !! w) as [[|e|]|] eqn:Hw; try done.
    destruct (worker_finish_ok args_lt w e r p) as (p' & -> & ? & Hs); [done..|].
    exists p', Returned. split; [done|]. split; [done|]. apply (Hs Returned).
  - destruct (quiesce_loop_ok c true p) as (? & ? & _); [done|by left|].
    destruct (Quiesce c p) as [p' o] eqn:E. exists p', o. simpl. rewrite E.
    unfold Quiesce in E. rewrite E in *. simpl in *. by destruct o.
  - destruct (enabled_client _ _ Hen) as [[ts|] Hc]; simpl in *; unfold client_wake;
      rewrite Hc in *.
    + destruct (add_tasks_ok args_lt c ts p) as (p' & o & -> & ? & ?);
        [done|by rewrite Hc|done|]. exists p', o. by destruct o.
    + destruct (quiesce_loop_ok c (p_quiescing p) p) as (? & ? & _); [done|by right|].
      rewrite set_clients_id in *. destruct (quiesce_loop c p) as [p' o].
      exists p', o. simpl in *. by destruct o.
  - destruct (resize_begin_ok n p) as [? ?]; [done|]. simpl.
    destruct (resize_begin n p) as [p' o]. by exists p', o.
  - simpl in *. apply bool_decide_eq_true in Hle as ->.
    destruct (resize_end_ok p) as (p' & -> & ? & ?); [done| |by exists p', Returned].
    rewrite forallb_forall in Hen. intros w Hw%list_elem_of_In%Hen.
    by destruct (p_threads p !! w) as [[]|].
Qed.

Lemma pool_reachable_inv p : reachable args_lt p → pool_inv p.
Proof.
  induction 1 as [|ev p p' o Hr IH Hle Hs]; [apply empty_pool_inv|].
  unfold step in Hs. destruct (enabled ev p) eqn:Hen; [|done].
  destruct (pool_handle_ok ev p) as (p1 & o1 & He & ? & _); [done..|].
  injection Hs as Hs. rewrite He in Hs. by injection Hs as <- <-.
Qed.


Lemma type_error_opt_lt {B} (lt : B → B → exc bool) (a b : option B) e :
  (∀ x y, a = Some x → b = Some y → ∃ v, lt x y = Ok v) → opt_lt lt a b = Raise e →
  e = PyExn TypeError "'<' not supported between instances".
Proof.
  intros Hlt. destruct a as [x|], b as [y|]; simpl; try by intros [= <-].
  by destruct (Hlt x y eq_refl eq_refl) as [v ->].
Qed.

(** Whatever the new priority, changing it returns or raises [TypeError]. *)
Lemma ChangeTaskPriority_raises k prio p e :
  pool_inv p → ChangeTaskPriority args_lt k prio p = Raise e →
  e = PyExn TypeError "'<' not supported between instances".
Proof.
  intros Hi. pose proof (pi_tasks _ Hi) as Hti. unfold ChangeTaskPriority.
  destruct (p_taskdata p !! k) as [old|] eqn:Hk; [|done].
  destruct (proj1 (ti_td _ _ _ _ _ _ Hti k old) Hk) as (Hin & t & Ht & Hid & Hlive).
  unfold entry_of at 1. rewrite Ht. cbn [rbind].
  destruct (heappush _ _ _) as [tasks|x] eqn:Hpush; cbn [rbind]; [done|]. intros [= <-].
  revert Hpush. apply heappush_raises with (P := λ e, e = _).
  { apply Hti. }
  { intros Hn. by apply (next_not_known p _ Hi (or_introl Hn)). }
  intros y e' Hy. destruct (tasks_inv_known _ _ _ _ _ _ y Hti (or_introl Hy)) as [ty Hty].
  assert (y ≠ p_next_entry p) as Hyn by (apply (next_not_known p); [done|by left]).
  unfold ref_lt, entry_of. rewrite lookup_insert_eq. cbn [rbind].
  rewrite lookup_insert_ne, lookup_insert by done. rewrite Hty.
  assert (∃ ty', (if decide (old = y) then Some (Entry (t_prio t) (t_order t) (t_id t) None) else Some ty)
    = Some ty' ∧ (t_id ty' = Some k → t_args ty' = None)) as (ty' & -> & Hty').
  { case_decide as Hd; [by eexists|]. exists ty. split; [done|]. intros Hidy.
    destruct (t_args ty) as [a|] eqn:Ha; [|done]. exfalso. apply Hd.
    assert (p_taskdata p !! k = Some y) by
      (apply (ti_td _ _ _ _ _ _ Hti); split; [done|]; exists ty; split_and!; [done..|];
       unfold is_live; by rewrite Ha). congruence. }
  cbn [rbind]. unfold task_lt. cbn [t_prio t_order t_id t_args].
  case_decide; [done|]. case_decide; [done|]. case_decide as Hids.
  { apply type_error_opt_lt. eauto. }
  rewrite Hid in Hids. rewrite (Hty' ltac:(by destruct (decide (t_id ty' = Some k)); [|destruct Hids; congruence])).
  destruct (t_args t); [|done]. by apply type_error_opt_lt.
Qed.


Lemma not_waiting_count (workers waiting : list nat) :
  NoDup workers → NoDup waiting → (∀ w, w ∈ waiting → w ∈ workers) →
  length workers = length waiting + length (filter (λ w, w ∉ waiting) workers).
Proof.
  intros Hnd Hnd' Hsub. rewrite <-length_app. apply Permutation_length, NoDup_Permutation.
  - done.
  - apply NoDup_app. split_and!; [done| |by apply NoDup_filter].
    intros w Hw [? _]%list_elem_of_filter. done.
  - intros w. rewrite elem_of_app, list_elem_of_filter.
    destruct (decide (w ∈ waiting)); naive_solver.
Qed.

(** The idle workers that are not asleep. *)
Lemma awake_filter p :
  filter (λ w, w ∉ p_waiting p) (idle_workers (p_threads p) (p_workers p)) =
  filter (λ w, enabled (EFetch w) p = true) (p_workers p).
Proof.
  unfold idle_workers. rewrite list_filter_filter. apply list_filter_iff. intros w. rewrite is_idle_spec. simpl.
  destruct (p_threads p !! w) as [[]|]; rewrite ?bool_decide_eq_true; naive_solver.
Qed.


Lemma idle_spec p :
  pool_inv p → HasRunningTasksUnlocked p = false → a_running (abs p) = ∅.
Proof.
  intros Hi Hr. simpl. apply map_empty. intros w. rewrite lookup_omap.
  destruct (runs p !! w) as [e|] eqn:He; [|done].
  apply runs_lookup in He. assert (HasRunningTasksUnlocked p = true); [|congruence].
  apply HasRunning_spec. exists w, e. split; [|done].
  by destruct (pi_member _ Hi _ _ He) as [_ [|?]].
Qed.

(** [Quiesce] returns only when no task is pending or running; once the pool
    is idle every thread inside [Quiesce] can resume, and does return; a
    thread held up in [AddTask] can resume whenever no [Quiesce] is in force. *)
Theorem pool_quiesce p c :
  reachable args_lt p →
  (∀ ev p', ev = EQuiesce c ∨
            ev = EClientWake c ∧ (∃ b, p_clients p !! c = Some (CQuiesce, b)) →
     step args_lt ev p = Some (Ok (p', Returned)) →
     a_pending (abs p) = [] ∧ a_running (abs p) = ∅) ∧
  (∀ b, p_clients p !! c = Some (CQuiesce, b) → p_tasks p = [] →
     HasRunningTasksUnlocked p = false →
     ∃ p', step args_lt (EClientWake c) p = Some (Ok (p', Returned))) ∧
  (∀ ts b, p_clients p !! c = Some (CAdd ts, b) → p_quiescing p = false →
     enabled (EClientWake c) p = true).
Proof.
  intros Hi%pool_reachable_inv. split_and!.
  - intros ev p' Hev Hs. assert (p_tasks p = [] ∧ HasRunningTasksUnlocked p = false) as [Ht Hr].
    { unfold step in Hs. destruct (enabled ev p); [|done]. injection Hs as Hs.
      destruct Hev as [->|[-> [b Hb]]]; simpl in Hs.
      - destruct (quiesce_loop_ok c true p Hi) as (_ & _ & H); [by left|].
        injection Hs as Hs. unfold Quiesce in Hs. rewrite Hs in H. by apply H.
      - unfold client_wake in Hs. rewrite Hb in Hs.
        destruct (quiesce_loop_ok c (p_quiescing p) p Hi) as (_ & _ & H); [by right|].
        rewrite set_clients_id in H. injection Hs as Hs. rewrite Hs in H. by apply H. }
    split; [simpl; by rewrite Ht|by apply idle_spec].
  - intros b Hc Ht Hr. unfold step. simpl. rewrite Hc. destruct b.
    + unfold client_wake, quiesce_loop. rewrite Hc, Ht, Hr. simpl. by eexists.
    + destruct (pi_quiesce _ Hi c Hc) as [|?]; congruence.
  - intros ts b Hc Hq. simpl. rewrite Hc. destruct b; [done|].
    apply (pi_adders _ Hi) in Hc. congruence.
Qed.

(** Every event of a run keeps to the contract. *)
Fixpoint legal_run (evs : list (event A)) p : bool :=
  match evs with
  | [] => true
  | ev :: evs =>
      legal ev p && match step args_lt ev p with
                    | Some (Ok (p', _)) => legal_run evs p'
                    | _ => true
                    end
  end.

Lemma pool_run_reachable evs p p' os :
  reachable args_lt p → run args_lt evs p = Some (p', os) → legal_run evs p = true →
  reachable args_lt p'.
Proof.
  revert p os. induction evs as [|ev evs IH]; intros p os Hr; simpl; [naive_solver|].
  destruct (step args_lt ev p) as [[[p1 o]|]|] eqn:Hs; [|done..].
  destruct (run args_lt evs p1) as [[p2 os2]|] eqn:Hrun; [|done].
  intros [= <- <-] [Hle Hok]%andb_true_iff. eapply IH; [|done|done]. by eapply reach_step.
Qed.
End props.

(** ** Witnesses *)

(** A pool of two workers with three tasks; worker 1 has started the most
    urgent one and worker 2 is asleep no longer. *)
Definition demo_lt (a b : nat) : exc bool := Ok (bool_decide (a < b)).

Definition demo_events : list (event nat) :=
  [EResize 2; EFetch 1; EFetch 2;
   EAdd 0 [(100, 5%Z, Some 7%Z); (101, (-3)%Z, Some 8%Z); (102, 5%Z, None)];
   EFetch 1; EChangePriority 7 9; EQuiesce 9].

Definition demo_pool : pool nat :=
  from_option fst empty_pool (run demo_lt demo_events empty_pool).

Lemma pool_demo_reachable : reachable demo_lt demo_pool.
Proof.
  eapply (pool_run_reachable demo_lt demo_events); [apply reach_init|vm_compute; reflexivity..].
Qed.




Lemma pool_quiesce_witness :
  ∃ p p', reachable demo_lt p ∧
    step demo_lt (EClientWake 9) p = Some (Ok (p', Returned)) ∧ a_pending (abs p) = [].
Proof.
  set (evs := demo_events ++ [EFinish 1 RunDone; EFetch 2; EFinish 2 RunDone; EFetch 1;
                              EFinish 1 RunDone]).
  set (p := from_option fst empty_pool (run demo_lt evs empty_pool)).
  assert (reachable demo_lt p) as Hr.
  { eapply (pool_run_reachable demo_lt evs); [apply reach_init|vm_compute; reflexivity..]. }
  destruct (pool_quiesce demo_lt p 9 Hr) as (H1 & H2 & _).
  destruct (H2 true) as [p' Hp']; [vm_compute; reflexivity..|].
  exists p, p'. split; [exact Hr|]. split; [exact Hp'|].
  eapply H1; [|exact Hp']. right. split; [reflexivity|]. exists true. vm_compute. reflexivity.
Defined.

(** ** Changing a priority to itself *)

(** Giving a task the priority it already has makes [heappush] compare the
    arguments of the new entry with the [None] of the abandoned one. *)
Lemma change_same_priority_raises :
  ∃ p os, run demo_lt [EAdd 0 [(100, 5%Z, Some 7%Z)]] empty_pool = Some (p, os) ∧
    ChangeTaskPriority demo_lt 7 5 p
    = Raise (PyExn TypeError "'<' not supported between instances").
Proof. eexists _, _. split; vm_compute; reflexivity. Qed.
