(* ===== verification/PyStr.v ===== *)
(** * Strings of the Python standard library

    What the text-handling modules use of [str], [int] and [re], on strings as
    lists of characters: [split], [join], [strip], decimal conversion, and the
    anchor [$] of regular expressions, which also matches before a newline at
    the very end.  Character classes are those of ASCII. *)

From Stdlib Require Export Ascii.
From S2P Require Import Prelude PySort.

Notation str := (list ascii).
Notation lit := String.list_ascii_of_string.

Definition newline : ascii := "010"%char.

(** ** Character classes *)

Definition code (a : ascii) : nat := nat_of_ascii a.

Definition between_chars (lo hi : ascii) (a : ascii) : bool :=
  (code lo <=? code a) && (code a <=? code hi).

Definition is_digit (a : ascii) : bool := between_chars "0" "9" a.
Definition is_lower (a : ascii) : bool := between_chars "a" "z" a.
Definition is_upper (a : ascii) : bool := between_chars "A" "Z" a.
Definition is_alpha (a : ascii) : bool := is_lower a || is_upper a.
Definition is_alnum (a : ascii) : bool := is_alpha a || is_digit a.

(** Tab to carriage return, the separators 28 to 31, and space. *)
Definition is_space (a : ascii) : bool :=
  (9 <=? code a) && (code a <=? 13) || (28 <=? code a) && (code a <=? 32).

Definition char_in (cs : str) (a : ascii) : bool := bool_decide (a ∈ cs).

Definition lower_char (a : ascii) : ascii :=
  if is_upper a then ascii_of_nat (code a + 32) else a.
Definition upper_char (a : ascii) : ascii :=
  if is_lower a then ascii_of_nat (code a - 32) else a.

Definition lower (s : str) : str := map lower_char s.
Definition upper (s : str) : str := map upper_char s.

(** ** Splitting and joining *)

(** [s.split(sep)] for a separator of one character. *)
Fixpoint split (sep : ascii) (s : str) : list str :=
  match s with
  | [] => [[]]
  | a :: s =>
      if decide (a = sep) then [] :: split sep s
      else match split sep s with
           | [] => [[a]]
           | w :: ws => (a :: w) :: ws
           end
  end.

(** [sep.join(ws)] *)
Fixpoint join (sep : str) (ws : list str) : str :=
  match ws with
  | [] => []
  | [w] => w
  | w :: ws => w ++ sep ++ join sep ws
  end.

Definition drop_while (P : ascii → bool) : str → str :=
  fix go s := match s with [] => [] | a :: s' => if P a then go s' else s end.

(** The longest prefix of characters of a class, and the rest. *)
Definition span (P : ascii → bool) : str → str * str :=
  fix go s := match s with
              | [] => ([], [])
              | a :: s' => if P a then let '(x, y) := go s' in (a :: x, y) else ([], s)
              end.

(** [s.rstrip(cs)] and [s.strip()] *)
Definition rstrip (P : ascii → bool) (s : str) : str := reverse (drop_while P (reverse s)).
Definition strip (s : str) : str := rstrip is_space (drop_while is_space s).

(** [s.endswith(c)] for one character *)
Definition ends_with (c : ascii) (s : str) : bool := bool_decide (last s = Some c).

(** What [$] accepts as the rest of the string. *)
Definition dollar (s : str) : bool := bool_decide (s ∈ [[]; [newline]]).

(** [re.compile("^[...]+$").match(s)] for a class of characters. *)
Definition class_match (P : ascii → bool) (s : str) : bool :=
  match s with
  | a :: s' => P a && dollar (drop_while P s')
  | [] => false
  end.

(** ** Order *)

Definition char_lt (a b : ascii) : bool := code a <? code b.
Definition str_lt : str → str → bool := list_lt char_lt.

#[export] Instance char_lt_order : StrictWeakOrder char_lt.
Proof.
  unfold char_lt. split.
  - intros a b Hab%Nat.ltb_lt. apply Nat.ltb_ge. lia.
  - intros a b c ?%Nat.ltb_ge ?%Nat.ltb_ge. apply Nat.ltb_ge. lia.
Qed.

Lemma char_lt_total a b : a ≠ b → char_lt a b = true ∨ char_lt b a = true.
Proof.
  intros Hne. unfold char_lt, code. rewrite !Nat.ltb_lt.
  assert (nat_of_ascii a ≠ nat_of_ascii b); [|lia].
  intros E. apply Hne. by rewrite <-(ascii_nat_embedding a), <-(ascii_nat_embedding b), E.
Qed.

#[export] Instance str_lt_order : StrictWeakOrder str_lt.
Proof. apply list_lt_order; [apply _|apply char_lt_total]. Qed.

Lemma str_lt_total s t : s ≠ t → str_lt s t = true ∨ str_lt t s = true.
Proof. apply list_lt_total, char_lt_total. Qed.

(** ** Decimal numbers *)

Definition digit (n : N) : ascii := ascii_of_N (48 + n).
Definition digit_val (a : ascii) : N := (N_of_ascii a - 48)%N.

Fixpoint dec_fuel (fuel : nat) (n : N) (acc : str) : str :=
  match fuel with
  | 0 => acc
  | S fuel =>
      let acc := digit (n mod 10) :: acc in
      if (n <? 10)%N then acc else dec_fuel fuel (n / 10) acc
  end.

(** [str(n)]; a number has at most as many decimal as binary digits. *)
Definition dec (n : N) : str := dec_fuel (S (N.size_nat n)) n [].

Definition str_of_Z (z : Z) : str :=
  if (z <? 0)%Z then "-"%char :: dec (Z.abs_N z) else dec (Z.abs_N z).

Definition val_from (acc : N) (s : str) : N :=
  foldl (λ n a, 10 * n + digit_val a)%N acc s.

(** The digits of an integer literal: underscores may stand between digits. *)
Fixpoint digits_only (s : str) : option str :=
  match s with
  | [] => Some []
  | a :: s' =>
      if is_digit a then cons a <$> digits_only s'
      else if decide (a = "_"%char) then
        match s' with
        | b :: _ => if is_digit b then digits_only s' else None
        | [] => None
        end
      else None
  end.

Definition parse_digits (s : str) : option N :=
  match s with
  | a :: _ => if is_digit a then val_from 0 <$> digits_only s else None
  | [] => None
  end.

(** [int(s)]; [None] stands for [ValueError]. *)
Definition py_int (s : str) : option Z :=
  match strip s with
  | a :: s' =>
      if decide (a = "-"%char) then Z.opp <$> (Z.of_N <$> parse_digits s')
      else if decide (a = "+"%char) then Z.of_N <$> parse_digits s'
      else Z.of_N <$> parse_digits (a :: s')
  | [] => None
  end.

(** ** Hexadecimal digits *)

Definition hex_char (n : N) : ascii :=
  if (n <? 10)%N then ascii_of_N (48 + n) else ascii_of_N (87 + n).

Definition hex_value (a : ascii) : option N :=
  let c := N_of_ascii a in
  if is_digit a then Some (c - 48)%N
  else if between_chars "a" "f" a then Some (c - 87)%N
  else if between_chars "A" "F" a then Some (c - 55)%N
  else None.

(** ** Lemmas *)

Lemma split_nonnil sep s : split sep s ≠ [].
Proof. destruct s as [|a s]; simpl; [done|]. by case_decide; [|destruct (split sep s)]. Qed.

Lemma split_no_sep sep w s :
  sep ∉ w → split sep (w ++ s) = match split sep s with
                                 | [] => [w]
                                 | v :: ws => (w ++ v) :: ws
                                 end.
Proof.
  intros Hw. induction w as [|a w IH]; simpl.
  - pose proof (split_nonnil sep s). by destruct (split sep s).
  - rewrite decide_False by set_solver. rewrite IH by set_solver.
    by destruct (split sep s).
Qed.

(** Splitting undoes joining when no element contains the separator. *)
Lemma split_join sep ws :
  ws ≠ [] → Forall (λ w, sep ∉ w) ws → split sep (join [sep] ws) = ws.
Proof.
  intros Hne Hws. induction Hws as [|w ws Hw Hws IH]; [done|].
  destruct ws as [|w' ws].
  - simpl. rewrite <-(app_nil_r w) at 1. rewrite split_no_sep by done. simpl.
    by rewrite app_nil_r.
  - change (join [sep] (w :: w' :: ws)) with (w ++ sep :: join [sep] (w' :: ws)).
    rewrite split_no_sep by done. cbn [split]. rewrite decide_True by done.
    rewrite IH by done. by rewrite app_nil_r.
Qed.

Lemma join_split sep s : join [sep] (split sep s) = s.
Proof.
  induction s as [|a s IH]; simpl; [done|]. pose proof (split_nonnil sep s) as Hne.
  case_decide as Ha.
  - subst a. destruct (split sep s) as [|w ws]; [done|]. by simpl in *; rewrite IH.
  - destruct (split sep s) as [|w ws]; [done|]. rewrite <-IH. by destruct ws.
Qed.

Lemma split_app sep a b :
  split sep (a ++ b) =
  removelast (split sep a) ++ split sep (default [] (last (split sep a)) ++ b).
Proof.
  induction a as [|c a IH]; [done|]. cbn [app split]. case_decide as E.
  - pose proof (split_nonnil sep a) as Hne. rewrite IH.
    destruct (split sep a) as [|w ws]; [done|]. done.
  - rewrite IH. pose proof (split_nonnil sep a) as Hne.
    destruct (split sep a) as [|w [|w' ws]]; [done| |done].
    simpl. by rewrite decide_False.
Qed.

Lemma drop_while_none P s : Forall (λ a, P a = false) s → drop_while P s = s.
Proof. destruct 1 as [|a s Ha _]; simpl; [done|]. by rewrite Ha. Qed.

Lemma span_app P w s :
  Forall (λ a, P a = true) w → match s with a :: _ => P a = false | [] => True end →
  span P (w ++ s) = (w, s).
Proof.
  intros Hw Hs. induction Hw as [|a w Ha Hw IH]; simpl.
  - destruct s as [|a s]; [done|]. simpl. by rewrite Hs.
  - rewrite Ha. by rewrite IH.
Qed.

Lemma strip_none s : Forall (λ a, is_space a = false) s → strip s = s.
Proof.
  intros Hs. unfold strip, rstrip. rewrite (drop_while_none _ s) by done.
  rewrite drop_while_none; [apply reverse_involutive|]. by apply Forall_reverse.
Qed.

Lemma digit_ok (n : N) :
  (n < 10)%N → is_digit (digit n) = true ∧ digit_val (digit n) = n.
Proof.
  intros Hn. assert (n ∈ [0; 1; 2; 3; 4; 5; 6; 7; 8; 9]%N) as Hin.
  { destruct (decide (n ∈ [0; 1; 2; 3; 4; 5; 6; 7; 8; 9]%N)) as [?|Hno]; [done|].
    exfalso. rewrite !not_elem_of_cons in Hno. lia. }
  repeat (apply elem_of_cons in Hin as [-> |Hin]; [done|]). by apply not_elem_of_nil in Hin.
Qed.

Lemma dec_fuel_ok fuel n acc :
  (n < 2 ^ N.of_nat fuel)%N → Forall (λ a, is_digit a = true) acc →
  Forall (λ a, is_digit a = true) (dec_fuel fuel n acc) ∧
  ∀ k, val_from k (dec_fuel fuel n acc)
       = val_from (if decide (fuel = 0%nat) then k
                   else k * 10 ^ N.of_nat (length (dec_fuel fuel n acc) - length acc) + n)%N acc ∧
       length acc ≤ length (dec_fuel fuel n acc).
Proof.
  revert n acc. induction fuel as [|fuel IH]; intros n acc Hn Hacc; [done|].
  cbn [dec_fuel]. destruct (digit_ok (n mod 10)) as [Hd Hv]; [by apply N.mod_lt|].
  destruct (N.ltb_spec n 10) as [Hlt|Hge].
  - split; [by constructor|]. intros k. split; [|simpl; lia].
    cbn [val_from foldl]. rewrite Hv, N.mod_small by done.
    rewrite decide_False by done. cbn [length].
    replace (S (length acc) - length acc) with 1 by lia.
    unfold val_from. f_equal. simpl. lia.
  - assert (n / 10 < 2 ^ N.of_nat fuel)%N as Hq.
    { apply N.Div0.div_lt_upper_bound. rewrite Nat2N.inj_succ, N.pow_succ_r' in Hn. lia. }
    destruct (IH (n / 10)%N (digit (n mod 10) :: acc) Hq) as [Hall Hval]; [by constructor|].
    split; [done|]. intros k. destruct (Hval k) as [Hk Hlen]. simpl in Hlen.
    assert (fuel ≠ 0) as Hf.
    { intros ->. simpl in Hq. assert (1 ≤ n / 10)%N by (apply N.div_le_lower_bound; lia). lia. }
    rewrite decide_False in Hk by done. rewrite decide_False by done. rewrite Hk. split; [|lia].
    cbn [val_from foldl]. rewrite Hv. f_equal.
    set (l := length (dec_fuel fuel (n / 10) (digit (n mod 10) :: acc))) in *.
    cbn [length]. replace (l - length acc) with (S (l - S (length acc))) by lia.
    rewrite Nat2N.inj_succ, N.pow_succ_r'.
    pose proof (N.div_mod n 10 ltac:(done)). lia.
Qed.

Lemma dec_fuel_enough n : (n < 2 ^ N.of_nat (S (N.size_nat n)))%N.
Proof.
  etrans; [apply N.size_gt|]. apply N.pow_lt_mono_r; [lia|]. rewrite Nat2N.inj_succ.
  enough (N.size n = N.of_nat (N.size_nat n)) by lia.
  destruct n as [|p]; [done|]. simpl. induction p as [p IH|p IH|]; simpl; [|..|done];
    rewrite ?Nat2N.inj_succ; simpl in IH; lia.
Qed.

Lemma dec_digits n : Forall (λ a, is_digit a = true) (dec n).
Proof. apply dec_fuel_ok; [apply dec_fuel_enough|constructor]. Qed.

Lemma dec_val n : val_from 0 (dec n) = n.
Proof.
  destruct (dec_fuel_ok (S (N.size_nat n)) n [] (dec_fuel_enough n)) as [_ Hv]; [constructor|].
  unfold dec. by rewrite (proj1 (Hv 0%N)).
Qed.

Lemma dec_nonnil n : dec n ≠ [].
Proof.
  intros E. unfold dec in E. simpl in E. destruct (n <? 10)%N; [done|].
  destruct (dec_fuel_ok (N.size_nat n) (n / 10) [digit (n mod 10)]) as [_ Hv].
  - apply N.Div0.div_lt_upper_bound. pose proof (dec_fuel_enough n) as Hn.
    rewrite Nat2N.inj_succ, N.pow_succ_r' in Hn. lia.
  - constructor; [|constructor]. apply digit_ok. by apply N.mod_lt.
  - destruct (Hv 0%N) as [_ Hlen]. rewrite E in Hlen. simpl in Hlen. lia.
Qed.

Lemma digits_only_digits s : Forall (λ a, is_digit a = true) s → digits_only s = Some s.
Proof. induction 1 as [|a s Ha _ IH]; simpl; [done|]. by rewrite Ha, IH. Qed.

Lemma parse_dec n : parse_digits (dec n) = Some n.
Proof.
  unfold parse_digits. pose proof (dec_nonnil n) as Hne. pose proof (dec_digits n) as Hd.
  pose proof (dec_val n) as Hv. destruct (dec n) as [|a s]; [done|].
  inversion Hd as [|? ? Ha Hs]; subst. rewrite Ha, digits_only_digits by done.
  done.
Qed.

Lemma digit_not_space a : is_digit a = true → is_space a = false.
Proof.
  unfold is_digit, is_space, between_chars. intros [?%Nat.leb_le ?%Nat.leb_le]%andb_true_iff.
  change (code "0") with 48 in *. change (code "9") with 57 in *.
  apply orb_false_iff. rewrite !andb_false_iff, !Nat.leb_gt. lia.
Qed.

Lemma digit_neq a c : is_digit a = true → is_digit c = false → a ≠ c.
Proof. congruence. Qed.

(** [int(str(z)) == z] *)
Lemma py_int_str z : py_int (str_of_Z z) = Some z.
Proof.
  unfold py_int, str_of_Z.
  assert (∀ n, Forall (λ a, is_space a = false) (dec n)) as Hns.
  { intros n. eapply Forall_impl; [apply dec_digits|]. apply digit_not_space. }
  destruct (Z.ltb_spec z 0).
  - rewrite strip_none by (by constructor). rewrite decide_True by done.
    rewrite parse_dec. simpl. f_equal. lia.
  - rewrite strip_none by done. pose proof (parse_dec (Z.abs_N z)) as Hp.
    pose proof (dec_digits (Z.abs_N z)) as Hd. destruct (dec (Z.abs_N z)) as [|a s]; [done|].
    inversion Hd; subst.
    rewrite !decide_False by (by apply digit_neq). rewrite Hp. simpl. f_equal. lia.
Qed.
