(* ===== verification/Text.v ===== *)
(** * Text utilities (src/lib/utils/text.py)

    Name matching, units, shell quoting, MAC addresses, safe encoding, escaped
    lists and line splitting.  [FormatUnit] and [FormatTime] (floating-point and
    local-time formatting) and [GenerateSecret] are left out;
    [DnsNameGlobPattern] is in Qlang.v. *)

From S2P Require Import Prelude Errors PySort PyStr.
#[local] Open Scope list_scope.
#[local] Open Scope stdpp_scope.

Definition backslash : ascii := "\"%char.
Definition quote : ascii := "'"%char.
Definition return_char : ascii := "013"%char.

(** The regular expressions of the module. *)
Definition shell_unquoted (a : ascii) : bool := is_alnum a || char_in (lit "-.,=:/_+@") a.
Definition shell_param (a : ascii) : bool := is_alnum a || char_in (lit "-._+/:%@") a.

(** ** MatchNameComponent *)

(** The part of [s] after a prefix that matches [p] character by character. *)
Fixpoint after_prefix (eq : ascii → ascii → bool) (p s : str) : option str :=
  match p, s with
  | [], _ => Some s
  | a :: p, b :: s => if eq a b then after_prefix eq p s else None
  | _ :: _, [] => None
  end.

Definition eq_char (case_sensitive : bool) (a b : ascii) : bool :=
  if case_sensitive then bool_decide (a = b) else bool_decide (upper_char a = upper_char b).

(** The regular expression: the key, then nothing or a dot and more. *)
Definition name_re (case_sensitive : bool) (key name : str) : bool :=
  match after_prefix (eq_char case_sensitive) key name with
  | None => false
  | Some rest =>
      dollar rest ||
      match rest with
      | a :: rest => bool_decide (a = "."%char)
                     && dollar (drop_while (λ b, negb (bool_decide (b = newline))) rest)
      | [] => false
      end
  end.

Definition MatchNameComponent (key : str) (name_list : list str) (case_sensitive : bool)
    : option str :=
  if decide (key ∈ name_list) then Some key
  else
    let key := if case_sensitive then key else upper key in
    let names_filtered := filter (λ n, name_re case_sensitive key n = true) name_list in
    let string_matches :=
      if case_sensitive then [] else filter (λ n, key = upper n) names_filtered in
    match string_matches with
    | [n] => Some n
    | _ => match names_filtered with [n] => Some n | _ => None end
    end.

(** ** ParseUnit *)

(** [float(s)] for a string of digits and dots: the digits without the dot and
    how many of them stand behind it. *)
Definition parse_float (s : str) : option (N * nat) :=
  match split "."%char s with
  | [w] => if decide (w = []) then None else Some (val_from 0 w, 0)
  | [w; v] => if decide (w ++ v = []) then None else Some (val_from 0 (w ++ v), length v)
  | _ => None
  end.

(** The factor of a unit in lower case. *)
Definition unit_factor (u : str) : option N :=
  if decide (u ∈ [lit "m"; lit "mb"; lit "mib"]) then Some 1%N
  else if decide (u ∈ [lit "g"; lit "gb"; lit "gib"]) then Some 1024%N
  else if decide (u ∈ [lit "t"; lit "tb"; lit "tib"]) then Some (1024 * 1024)%N
  else None.

Definition is_float_char (a : ascii) : bool := is_digit a || bool_decide (a = "."%char).

(** The number is exact here, [num / 10 ^ dec], where Python rounds it to a
    double. *)
Definition ParseUnit (input_string : str) : exc N :=
  let '(number, rest) := span is_float_char input_string in
  let '(_, rest) := span is_space rest in
  let '(unit, rest) := span is_alpha rest in
  if decide (number = []) then Raise (GntExn UnitParseError [VStr "Invalid format"])
  else if negb (dollar rest) then Raise (GntExn UnitParseError [VStr "Invalid format"])
  else
    match parse_float number with
    | None => Raise (PyExn ValueError "could not convert string to float")
    | Some (num, decimals) =>
        let lcunit := if decide (unit = []) then lit "m" else lower unit in
        match unit_factor lcunit with
        | None => Raise (GntExn UnitParseError [VStr "Unknown unit"])
        | Some factor =>
            let num := (num * factor)%N in
            let den := (10 ^ N.of_nat decimals)%N in
            let value := (if num mod den =? 0 then num / den else num / den + 1)%N in
            Ok (if (value mod 4 =? 0)%N then value else value + (4 - value mod 4))%N
        end
    end.

(** ** Shell quoting *)

Definition ShellQuote (value : str) : str :=
  if class_match shell_unquoted value then value
  else lit "'" ++ flat_map (λ a, if decide (a = quote) then lit "'\''" else [a]) value ++ lit "'".

Definition ShellQuoteArgs (args : list str) : str := join (lit " ") (map ShellQuote args).

Definition ShellCombineCommands (cmdlist : list (list str)) : list str :=
  [lit "/bin/sh"; lit "-c"; join (lit " && ") (map ShellQuoteArgs cmdlist)].

Definition IsValidShellParam (word : str) : bool := class_match shell_param word.

(** [template % args] with the directives [%s] and [%%]. *)
Fixpoint format (template : str) (args : list str) : exc str :=
  match template with
  | [] => match args with
          | [] => Ok []
          | _ => Raise (PyExn TypeError "not all arguments converted")
          end
  | a :: t =>
      if decide (a = "%"%char) then
        match t with
        | b :: t =>
            if decide (b = "s"%char) then
              match args with
              | w :: args => rmap (app w) (format t args)
              | [] => Raise (PyExn TypeError "not enough arguments")
              end
            else if decide (b = "%"%char) then rmap (cons b) (format t args)
            else Raise (PyExn ValueError "unsupported format character")
        | [] => Raise (PyExn ValueError "incomplete format")
        end
      else rmap (cons a) (format t args)
  end.

Definition BuildShellCmd (template : str) (args : list str) : exc str :=
  if forallb IsValidShellParam args then format template args
  else Raise (GntExn ProgrammerError [VStr "Shell argument contains invalid characters"]).

(** ** ShellWriter *)

Record shell_writer := ShellWriter {
  sw_out : str;
  sw_indent_enabled : bool;
  sw_indent : nat
}.

Definition new_writer (indent : bool) : shell_writer := ShellWriter [] indent 0.

Definition IncIndent (w : shell_writer) : shell_writer :=
  ShellWriter (sw_out w) (sw_indent_enabled w) (S (sw_indent w)).

Definition DecIndent (w : shell_writer) : exc shell_writer :=
  do* assert (bool_decide (0 < sw_indent w)) in
  Ok (ShellWriter (sw_out w) (sw_indent_enabled w) (sw_indent w - 1)).

(** [line] is the text with its arguments filled in. *)
Definition Write (line : str) (w : shell_writer) : shell_writer :=
  let indent := if bool_decide (line ≠ []) && sw_indent_enabled w
                then concat (replicate (sw_indent w) (lit "  ")) else [] in
  ShellWriter (sw_out w ++ indent ++ line ++ [newline]) (sw_indent_enabled w) (sw_indent w).

(** ** MAC addresses *)

Definition is_hex (a : ascii) : bool :=
  is_digit a || between_chars "a" "f" a || between_chars "A" "F" a.

(** [^[0-9a-f]{2}(:[0-9a-f]{2})*$] with the given number of octets *)
Fixpoint mac_re (octets : nat) (s : str) : bool :=
  match octets, s with
  | 1, a :: b :: s => is_hex a && is_hex b && dollar s
  | S n, a :: b :: c :: s => is_hex a && is_hex b && bool_decide (c = ":"%char) && mac_re n s
  | _, _ => false
  end.

Definition MacAddressCheck (octets : nat) (mac : str) : exc str :=
  if mac_re octets mac then Ok (lower mac)
  else Raise (GntExn OpPrereqError [VStr "Invalid MAC address"; VStr "wrong_input"]).

Definition NormalizeAndValidateMac (mac : str) : exc str := MacAddressCheck 6 mac.
Definition NormalizeAndValidateThreeOctetMacPrefix (mac : str) : exc str :=
  MacAddressCheck 3 mac.

(** ** SafeEncode *)

Definition hex_digit (n : nat) : ascii :=
  ascii_of_nat (if n <? 10 then 48 + n else 87 + n).

(** ["\\x%02x"] *)
Definition hex_escape (a : ascii) : str :=
  [backslash; "x"%char; hex_digit (code a / 16); hex_digit (code a mod 16)].

(** [text.encode("ascii", "backslashreplace")] *)
Definition backslashreplace (s : str) : str :=
  flat_map (λ a, if 128 <=? code a then hex_escape a else [a]) s.

Definition safe_char (a : ascii) : str :=
  if decide (a = "009"%char) then lit "\t"
  else if decide (a = newline) then lit "\n"
  else if decide (a = return_char) then lit "\'r"
  else if (code a <? 32) || (127 <=? code a) then hex_escape a
  else [a].

Definition SafeEncode (text : str) : str := flat_map safe_char (backslashreplace text).

(** ** Escaped lists *)

(** [len(e) - len(e.rstrip("\\"))] *)
Definition num_backslashes (e : str) : nat :=
  length e - length (rstrip (λ a, bool_decide (a = backslash)) e).

Definition ends_odd (e : str) : bool :=
  ends_with backslash e && (num_backslashes e mod 2 =? 1).

(** The loop over the split list, with [e1] just taken from its front. *)
Fixpoint merge (sep : ascii) (e1 : str) (slist : list str) : list str :=
  match slist with
  | [] => [e1]
  | e2 :: slist =>
      if ends_odd e1 then merge sep (e1 ++ sep :: e2) slist
      else e1 :: merge sep e2 slist
  end.

(** [re.sub(r"\\(.)", r"\1", v)]: the dot does not match a newline. *)
Fixpoint unescape (s : str) : str :=
  match s with
  | a :: s' =>
      if decide (a = backslash) then
        match s' with
        | b :: s'' => if decide (b = newline) then a :: unescape s' else b :: unescape s''
        | [] => [a]
        end
      else a :: unescape s'
  | [] => []
  end.

Definition UnescapeAndSplit (text : str) (sep : ascii) : list str :=
  match split sep text with
  | [] => []
  | e1 :: slist => map unescape (merge sep e1 slist)
  end.

(** The two substitutions for one element; [sep] is not alphanumeric, so that
    a backslash before it stands for the character itself. *)
Definition double_backslashes (v : str) : str :=
  flat_map (λ a, if decide (a = backslash) then [backslash; backslash] else [a]) v.
Definition escape_sep (sep : ascii) (v : str) : str :=
  flat_map (λ a, if decide (a = sep) then [backslash; sep] else [a]) v.

Definition EscapeAndJoin (slist : list str) (sep : ascii) : str :=
  join [sep] (map (λ v, escape_sep sep (double_backslashes v)) slist).

Definition CommaJoin (names : list str) : str := join (lit ", ") names.

(** ** Numbers *)

(** The loop of [FormatSeconds] over days, hours and minutes. *)
Fixpoint format_parts (units : list (ascii * Z)) (secs : Z) (parts : list str) : list str * Z :=
  match units with
  | [] => (parts, secs)
  | (unit, one) :: units =>
      let complete := (secs / one)%Z in
      let parts := if decide (complete ≠ 0%Z ∨ parts ≠ [])
                   then parts ++ [str_of_Z complete ++ [unit]] else parts in
      format_parts units (secs mod one)%Z parts
  end.

Definition time_units : list (ascii * Z) :=
  [("d"%char, 24 * 60 * 60); ("h"%char, 60 * 60); ("m"%char, 60)]%Z.

(** [secs] is the number after rounding. *)
Definition FormatSeconds (secs : Z) : str :=
  let '(parts, secs) := if (0 <? secs)%Z then format_parts time_units secs [] else ([], secs) in
  join (lit " ") (parts ++ [str_of_Z secs ++ lit "s"]).

Definition FormatOrdinal (value : Z) : str :=
  let tens := (value mod 10)%Z in
  let suffix := if (10 <? value)%Z && (value <? 20)%Z then lit "th"
                else if (tens =? 1)%Z then lit "st"
                else if (tens =? 2)%Z then lit "nd"
                else if (tens =? 3)%Z then lit "rd"
                else lit "th" in
  str_of_Z value ++ suffix.

Definition Truncate (text : str) (len : nat) : exc str :=
  do* assert (3 <? len) in
  Ok (if length text <=? len then text else take (len - 3) text ++ lit "...").

(** ** Lines *)

(** [LineSplitter]: complete lines not yet passed on, the rest, and the lines
    passed to [line_fn] so far. *)
Record splitter := LineSplitter {
  ls_lines : list str;
  ls_buffer : str;
  ls_calls : list str
}.

Definition new_splitter : splitter := LineSplitter [] [] [].

Definition is_crlf (a : ascii) : bool := char_in [return_char; newline] a.

Definition ls_write (data : str) (s : splitter) : splitter :=
  let parts := split newline (ls_buffer s ++ data) in
  LineSplitter (ls_lines s ++ removelast parts) (List.last parts []) (ls_calls s).

Definition ls_flush (s : splitter) : splitter :=
  LineSplitter [] (ls_buffer s) (ls_calls s ++ map (rstrip is_crlf) (ls_lines s)).

Definition ls_close (s : splitter) : splitter :=
  let s := ls_flush s in
  LineSplitter (ls_lines s) (ls_buffer s)
    (ls_calls s ++ if decide (ls_buffer s = []) then [] else [ls_buffer s]).

(** [s.splitlines()] *)
Definition is_linebreak (a : ascii) : bool :=
  char_in [newline; "011"%char; "012"%char; return_char; "028"%char; "029"%char; "030"%char;
           "133"%char] a.

Fixpoint splitlines (s : str) : list str :=
  match s with
  | [] => []
  | a :: s' =>
      if decide (a = return_char) then
        match s' with
        | b :: s'' => if decide (b = newline) then [] :: splitlines s'' else [] :: splitlines s'
        | [] => [[]]
        end
      else if is_linebreak a then [] :: splitlines s'
      else match s' with
           | [] => [[a]]
           | _ => match splitlines s' with
                  | [] => [[a]]
                  | l :: ls => (a :: l) :: ls
                  end
           end
  end.

Definition FilterEmptyLinesAndComments (text : str) : list str :=
  filter (λ l, l ≠ [] ∧ head l ≠ Some "#"%char) (map strip (splitlines text)).

(** ** FormatKeyValue *)

(** [sorted(data.items())]; the keys are distinct. *)
Definition FormatKeyValue (data : list (str * str)) : list str :=
  map (λ kv : str * str, kv.1 ++ lit "=" ++ kv.2) 
      (py_sorted (λ a b : str * str, str_lt a.1 b.1) data).
