(* ===== verification/TextProps.v ===== *)
(** * Text utilities: what they guarantee

    Escaped lists are read back as they were; a POSIX shell sees the quoted
    arguments as the words they came from; lines come out of a [LineSplitter]
    however the data was cut; encoding is stable; units are rounded up.  Also
    what the anchor [$] lets through. *)

From S2P Require Import Prelude Errors PyStr Text.
#[local] Open Scope list_scope.
#[local] Open Scope stdpp_scope.

(** ** Escaped lists *)

Section escape.
  Context (sep : ascii).

(** Splitting at the separators before which the run of backslashes is even. *)
Fixpoint usplit (odd : bool) (cur s : str) : list str :=
  match s with
  | [] => [cur]
  | a :: s =>
      if decide (a = sep ∧ odd = false) then cur :: usplit false [] s
      else usplit (if decide (a = backslash) then negb odd else false) (cur ++ [a]) s
  end.

Lemma num_backslashes_snoc e a :
  num_backslashes (e ++ [a]) = if decide (a = backslash) then S (num_backslashes e) else 0.
Proof.
  unfold num_backslashes, rstrip. rewrite reverse_snoc. simpl. case_decide as Ha.
  - rewrite bool_decide_true by done. rewrite length_app. simpl.
    enough (length (reverse (drop_while (λ a, bool_decide (a = backslash)) (reverse e)))
            ≤ length e) by lia.
    rewrite length_reverse, <-(length_reverse e). generalize (reverse e). clear.
    intros s. induction s as [|b s IH]; simpl; [done|]. case_bool_decide; simpl; lia.
  - rewrite bool_decide_false by done. rewrite length_reverse. simpl.
    rewrite length_reverse, length_app. simpl. lia.
Qed.

Lemma ends_odd_snoc e a :
  ends_odd (e ++ [a]) = if decide (a = backslash) then negb (ends_odd e) else false.
Proof.
  unfold ends_odd, ends_with. rewrite last_snoc, num_backslashes_snoc.
  case_decide as Ha; [|by rewrite bool_decide_false by congruence].
  rewrite bool_decide_true by congruence. cbn [andb].
  assert (last e ≠ Some backslash → num_backslashes e = 0) as Hz.
  { destruct e as [|b e _] using rev_ind; [done|]. rewrite last_snoc, num_backslashes_snoc.
    intros ?. by rewrite decide_False by congruence. }
  assert ((S (num_backslashes e) mod 2 =? 1) = negb (num_backslashes e mod 2 =? 1)) as ->.
  { rewrite <-Nat.add_1_r, <-Nat.Div0.add_mod_idemp_l.
    pose proof (Nat.mod_upper_bound (num_backslashes e) 2 ltac:(done)).
    destruct (num_backslashes e mod 2) as [|[|k]]; [done..|lia]. }
  case_bool_decide as Hl; [done|]. by rewrite Hz.
Qed.

Lemma usplit_merge cur s :
  sep ≠ backslash →
  usplit (ends_odd cur) cur s
  = match split sep s with [] => [] | w :: ws => merge sep (cur ++ w) ws end.
Proof.
  intros Hsep. revert cur. induction s as [|a s IH]; intros cur; simpl.
  { by rewrite app_nil_r. }
  pose proof (split_nonnil sep s) as Hne. destruct (decide (a = sep)) as [->|Ha].
  - destruct (split sep s) as [|w ws]; [done|]. simpl. rewrite app_nil_r.
    destruct (ends_odd cur) eqn:Ho.
    + rewrite decide_False by naive_solver. rewrite decide_False by done.
      specialize (IH (cur ++ [sep])). rewrite ends_odd_snoc, decide_False in IH by done.
      by rewrite IH, <-app_assoc.
    + rewrite decide_True by done. f_equal. apply (IH []).
  - rewrite decide_False by naive_solver.
    specialize (IH (cur ++ [a])). rewrite ends_odd_snoc in IH. rewrite IH.
    destruct (split sep s) as [|w ws]; [done|]. by rewrite <-app_assoc.
Qed.

Definition escape (v : str) : str := escape_sep sep (double_backslashes v).

Lemma escape_cons a v :
  sep ≠ backslash →
  escape (a :: v) = (if decide (a = backslash) then [backslash; backslash]
                     else if decide (a = sep) then [backslash; sep] else [a]) ++ escape v.
Proof.
  intros Hsep. unfold escape, escape_sep, double_backslashes. simpl.
  rewrite flat_map_app. f_equal. destruct (decide (a = backslash)) as [->|Ha]; simpl.
  - by rewrite decide_False by done.
  - destruct (decide (a = sep)) as [->|]; simpl; by rewrite ?app_nil_r.
Qed.

Lemma usplit_escape v cur s :
  sep ≠ backslash → usplit false cur (escape v ++ s) = usplit false (cur ++ escape v) s.
Proof.
  intros Hsep. revert cur. induction v as [|a v IH]; intros cur; simpl.
  { by rewrite app_nil_r. }
  rewrite escape_cons by done.
  destruct (decide (a = backslash)) as [->|Hb]; [|destruct (decide (a = sep)) as [->|Ha]]; simpl.
  - rewrite decide_False by naive_solver. simpl. rewrite decide_False by naive_solver.
    rewrite IH. by rewrite <-!app_assoc.
  - rewrite decide_False by naive_solver. simpl. rewrite decide_False by naive_solver.
    rewrite decide_False by done.
    rewrite IH. by rewrite <-!app_assoc.
  - rewrite decide_False by naive_solver. rewrite decide_False by done.
    rewrite IH. by rewrite <-!app_assoc.
Qed.

Lemma usplit_join vs :
  sep ≠ backslash → vs ≠ [] → usplit false [] (join [sep] (map escape vs)) = map escape vs.
Proof.
  intros Hsep. induction vs as [|v vs IH]; intros Hne; [done|].
  destruct vs as [|v' vs].
  - simpl. rewrite <-(app_nil_r (escape v)) at 1. by rewrite usplit_escape.
  - change (join [sep] (map escape (v :: v' :: vs)))
      with (escape v ++ sep :: join [sep] (map escape (v' :: vs))).
    rewrite usplit_escape by done. cbn [usplit]. rewrite decide_True by done.
    by rewrite IH.
Qed.

Lemma unescape_escape v : sep ≠ backslash → sep ≠ newline → unescape (escape v) = v.
Proof.
  intros Hsep Hnl. induction v as [|a v IH]; [done|]. rewrite escape_cons by done.
  destruct (decide (a = backslash)) as [->|]; [|destruct (decide (a = sep)) as [->|]]; simpl.
  - by rewrite IH.
  - rewrite decide_False by done. by rewrite IH.
  - rewrite decide_False by done. by rewrite IH.
Qed.
End escape.

(** Round trip.  A non-empty list of strings, joined and escaped with a
    separator that is neither alphanumeric nor a backslash or newline, is read
    back unchanged, whatever backslashes and separators the strings contain. *)
Theorem Unescape_Escape sep slist :
  is_alnum sep = false → sep ≠ backslash → sep ≠ newline → slist ≠ [] →
  UnescapeAndSplit (EscapeAndJoin slist sep) sep = slist.
Proof.
  intros _ Hb Hn Hne. unfold UnescapeAndSplit, EscapeAndJoin.
  pose proof (usplit_merge sep [] (join [sep] (map (escape sep) slist)) Hb) as Hm.
  change (ends_odd []) with false in Hm. rewrite usplit_join in Hm by done.
  change (λ v, escape_sep sep (double_backslashes v)) with (escape sep).
  pose proof (split_nonnil sep (join [sep] (map (escape sep) slist))) as Hs.
  destruct (split sep (join [sep] (map (escape sep) slist))) as [|w ws]; [done|].
  simpl in Hm. rewrite <-Hm, map_map. rewrite <-(map_id slist) at 2.
  apply map_ext. intros v. by apply unescape_escape.
Qed.

Lemma Unescape_Escape_witness :
  UnescapeAndSplit (EscapeAndJoin [lit "a,b"; lit "c\"; lit "\,"; []] ",") ","
  = [lit "a,b"; lit "c\"; lit "\,"; []].
Proof. apply (Unescape_Escape "," [lit "a,b"; lit "c\"; lit "\,"; []]); done. Defined.

(** ** Shell words *)

(** How a POSIX shell splits a line of plain words: blanks separate words,
    single quotes take everything up to the next one literally, a backslash
    takes the next character literally.  Anything else with a meaning for the
    shell gives [None].  [cur] is the word being read. *)
Definition shell_plain (a : ascii) : bool := shell_unquoted a.

Fixpoint sh_words (quoted : bool) (cur : option str) (s : str) : option (list str) :=
  match s with
  | [] => if quoted then None else Some (match cur with Some w => [w] | None => [] end)
  | a :: s =>
      if quoted then
        if decide (a = quote) then sh_words false cur s
        else sh_words true (Some (default [] cur ++ [a])) s
      else if decide (a = quote) then sh_words true (Some (default [] cur)) s
      else if decide (a = backslash) then
        match s with
        | b :: s => sh_words false (Some (default [] cur ++ [b])) s
        | [] => None
        end
      else if decide (a = " "%char) then
        match cur with
        | Some w => cons w <$> sh_words false None s
        | None => sh_words false None s
        end
      else if shell_plain a then sh_words false (Some (default [] cur ++ [a])) s
      else None
  end.

Lemma sh_plain w s cur :
  Forall (λ a, shell_unquoted a = true) w → w ≠ [] →
  sh_words false cur (w ++ s) = sh_words false (Some (default [] cur ++ w)) s.
Proof.
  intros Hw. revert cur. induction Hw as [|a w Ha Hw IH]; intros cur Hne; [done|]. simpl.
  assert (a ≠ quote ∧ a ≠ backslash ∧ a ≠ " "%char) as (? & ? & ?).
  { split_and!; intros ->; discriminate Ha. }
  rewrite !decide_False by done. unfold shell_plain. rewrite Ha.
  destruct w as [|b w]; [done|]. rewrite IH by done. simpl. by rewrite <-app_assoc.
Qed.

Lemma sh_quoted v s cur :
  sh_words true (Some cur)
    (flat_map (λ a, if decide (a = quote) then lit "'\''" else [a]) v ++ lit "'" ++ s)
  = sh_words false (Some (cur ++ v)) s.
Proof.
  revert cur. induction v as [|a v IH]; intros cur; simpl.
  { by rewrite app_nil_r. }
  destruct (decide (a = quote)) as [->|Ha]; simpl.
  - rewrite IH. by rewrite <-app_assoc.
  - rewrite decide_False by done. rewrite IH. by rewrite <-app_assoc.
Qed.

Lemma class_match_all P s :
  P newline = false → class_match P s = true → last s ≠ Some newline →
  Forall (λ a, P a = true) s ∧ s ≠ [].
Proof.
  intros Hnl Hm Hl. destruct s as [|a s]; [done|]. split; [|done]. simpl in Hm.
  apply andb_true_iff in Hm as [Ha Hd]. constructor; [done|].
  assert (last s ≠ Some newline) as Hl'.
  { destruct s as [|b s]; [done|]. by rewrite last_cons_cons in Hl. }
  clear Hl Ha a. induction s as [|b s IH]; [constructor|]. simpl in Hd.
  destruct (P b) eqn:Hb.
  - constructor; [done|]. apply IH; [done|]. destruct s; [done|]. by rewrite last_cons_cons in Hl'.
  - apply bool_decide_eq_true in Hd. assert (b :: s = [newline]) as E by set_solver.
    injection E as -> ->. done.
Qed.

Lemma sh_ShellQuote v s :
  last v ≠ Some newline → sh_words false None (ShellQuote v ++ s) = sh_words false (Some v) s.
Proof.
  intros Hl. unfold ShellQuote. destruct (class_match shell_unquoted v) eqn:Hm.
  - apply class_match_all in Hm as [Hall Hne]; [|done|done]. by rewrite sh_plain.
  - rewrite <-!app_assoc. exact (sh_quoted v s []).
Qed.

(** A shell that reads the quoted arguments gets exactly the arguments back,
    as separate words, whatever characters they contain, if none of them ends
    with a newline. *)
Theorem ShellQuoteArgs_words args :
  Forall (λ v : str, last v ≠ Some newline) args →
  sh_words false None (ShellQuoteArgs args) = Some args.
Proof.
  unfold ShellQuoteArgs. induction 1 as [|v args Hv Hargs IH]; [done|].
  destruct args as [|v' args].
  - simpl. rewrite <-(app_nil_r (ShellQuote v)). by rewrite sh_ShellQuote.
  - change (join (lit " ") (map ShellQuote (v :: v' :: args)))
      with (ShellQuote v ++ " "%char :: join (lit " ") (map ShellQuote (v' :: args))).
    rewrite sh_ShellQuote by done. cbn [sh_words]. rewrite !decide_False by done.
    rewrite decide_True by done. by rewrite IH.
Qed.

Lemma ShellQuoteArgs_words_witness :
  sh_words false None (ShellQuoteArgs [lit "echo"; lit "it's $HOME"; []])
  = Some [lit "echo"; lit "it's $HOME"; []].
Proof. apply ShellQuoteArgs_words. repeat constructor; discriminate. Defined.

(** The regular expression that finds arguments safe without quotes also accepts
    a newline at their end, which then reaches the shell unquoted. *)
Lemma ShellQuote_trailing_newline :
  ShellQuote (lit "rm" ++ [newline]) = lit "rm" ++ [newline] ∧
  sh_words false None (ShellQuoteArgs [lit "rm" ++ [newline]; lit "x"]) = None.
Proof. by vm_compute. Qed.

Lemma IsValidShellParam_trailing_newline : IsValidShellParam (lit "x" ++ [newline]) = true.
Proof. by vm_compute. Qed.

Lemma mac_trailing_newline :
  NormalizeAndValidateMac (lit "AA:00:00:01:02:03" ++ [newline])
  = Ok (lit "aa:00:00:01:02:03" ++ [newline]).
Proof. by vm_compute. Qed.

(** ** Lines *)

Inductive ls_event := LsWrite (data : str) | LsFlush.

Definition ls_step (s : splitter) (ev : ls_event) : splitter :=
  match ev with LsWrite data => ls_write data s | LsFlush => ls_flush s end.

Definition ls_data (ev : ls_event) : str :=
  match ev with LsWrite data => data | LsFlush => [] end.

(** The lines of a text: all complete ones without their line end, and what
    follows the last newline if there is something. *)
Definition lines_of (t : str) : list str :=
  map (rstrip is_crlf) (removelast (split newline t)) ++
  (let rest := List.last (split newline t) [] in if decide (rest = []) then [] else [rest]).

Lemma List_last_last {A} (l : list A) d : List.last l d = default d (last l).
Proof. induction l as [|x [|y l] IH]; [done..|exact IH]. Qed.

Lemma removelast_app_nonnil {A} (l l' : list A) :
  l' ≠ [] → removelast (l ++ l') = l ++ removelast l'.
Proof. intros. by apply List.removelast_app. Qed.

Lemma last_app_nonnil {A} (l l' : list A) d : l' ≠ [] → List.last (l ++ l') d = List.last l' d.
Proof.
  intros Hl'. induction l as [|x l IH]; [done|]. simpl.
  destruct (l ++ l') eqn:E; [|done]. apply app_eq_nil in E as [_ ->]. done.
Qed.

(** The data written so far, as the object has it. *)
Definition ls_inv (t : str) (s : splitter) : Prop :=
  ls_buffer s = List.last (split newline t) [] ∧
  ls_calls s ++ map (rstrip is_crlf) (ls_lines s)
  = map (rstrip is_crlf) (removelast (split newline t)).

Lemma ls_step_inv t s ev : ls_inv t s → ls_inv (t ++ ls_data ev) (ls_step s ev).
Proof.
  intros [Hb Hc]. destruct ev as [data|]; cbn [ls_step ls_data].
  - unfold ls_inv. cbn [ls_buffer ls_calls ls_lines ls_write]. rewrite (split_app newline t), <-List_last_last, <-Hb.
    pose proof (split_nonnil newline (ls_buffer s ++ data)) as Hne.
    rewrite removelast_app_nonnil, last_app_nonnil by done. split; [done|].
    by rewrite !map_app, app_assoc, Hc.
  - rewrite app_nil_r. split; simpl; [done|]. by rewrite app_nil_r.
Qed.

(** However the data is cut into chunks and whenever the object is flushed,
    the function is called with the lines of the whole text, in order. *)
Theorem LineSplitter_correct evs :
  ls_calls (ls_close (foldl ls_step new_splitter evs))
  = lines_of (concat (map ls_data evs)).
Proof.
  assert (∀ t s, ls_inv t s → ls_inv (t ++ concat (map ls_data evs)) (foldl ls_step s evs)) as Hall.
  { induction evs as [|ev evs IH]; intros t s Hs; simpl; [by rewrite app_nil_r|].
    rewrite app_assoc. by apply IH, ls_step_inv. }
  destruct (Hall [] new_splitter) as [Hb Hc]; [done|].
  unfold ls_close, ls_flush, lines_of. simpl. by rewrite Hc, Hb.
Qed.

(** ** SafeEncode *)

Definition printable (a : ascii) : bool := (32 <=? code a) && (code a <? 127).

Lemma safe_char_printable a :
  forallb printable (flat_map safe_char (if 128 <=? code a then hex_escape a else [a])) = true.
Proof. destruct a as [[] [] [] [] [] [] [] []]; vm_compute; reflexivity. Qed.

Lemma safe_char_id a :
  printable a = true → (128 <=? code a) = false ∧ safe_char a = [a].
Proof. destruct a as [[] [] [] [] [] [] [] []]; vm_compute; done. Qed.

(** The result of [SafeEncode] has printable ASCII characters only, and
    encoding it again changes nothing. *)
Theorem SafeEncode_stable text :
  Forall (λ a, printable a = true) (SafeEncode text) ∧
  SafeEncode (SafeEncode text) = SafeEncode text.
Proof.
  assert (Forall (λ a, printable a = true) (SafeEncode text)) as Hp.
  { unfold SafeEncode, backslashreplace. induction text as [|a text IH]; simpl; [constructor|].
    rewrite flat_map_app. apply Forall_app. split; [|done].
    apply Forall_forall. intros x Hx. pose proof (safe_char_printable a) as Hall.
    rewrite forallb_forall in Hall. apply Hall. by apply list_elem_of_In. }
  split; [done|]. generalize (SafeEncode text), Hp. clear.
  intros s Hs. unfold SafeEncode, backslashreplace.
  induction Hs as [|a s Ha Hs IH]; cbn [flat_map]; [done|].
  destruct (safe_char_id a Ha) as [-> Hsafe]. cbn [app flat_map]. rewrite Hsafe.
  cbn [app]. by rewrite IH.
Qed.

(** A carriage return comes out with a stray quote, unlike tab and newline. *)
Lemma SafeEncode_return :
  SafeEncode [return_char] = lit "\'r" ∧ SafeEncode [newline] = lit "\n".
Proof. by vm_compute. Qed.

(** ** ParseUnit *)

Lemma space_classes a : is_space a = true → is_float_char a = false ∧ is_alpha a = false.
Proof. destruct a as [[] [] [] [] [] [] [] []]; vm_compute; done. Qed.

Lemma alpha_classes a : is_alpha a = true → is_float_char a = false ∧ is_space a = false.
Proof. destruct a as [[] [] [] [] [] [] [] []]; vm_compute; done. Qed.

Lemma span_number number spaces unit :
  Forall (λ a, is_float_char a = true) number → Forall (λ a, is_space a = true) spaces →
  Forall (λ a, is_alpha a = true) unit →
  span is_float_char (number ++ spaces ++ unit) = (number, spaces ++ unit) ∧
  span is_space (spaces ++ unit) = (spaces, unit) ∧ span is_alpha unit = (unit, []).
Proof.
  intros Hn Hs Hu. split; [|split].
  - apply span_app; [done|]. destruct Hs as [|a s Ha _]; simpl; [|by apply space_classes].
    destruct Hu as [|a u Ha _]; [done|]. by apply alpha_classes.
  - apply span_app; [done|]. destruct Hu as [|a u Ha _]; [done|]. by apply alpha_classes.
  - rewrite <-(app_nil_r unit) at 1. by apply span_app.
Qed.

(** Rounding up, first to an integer and then to a multiple of four. *)
Lemma round_up (num den : N) (value := (if num mod den =? 0 then num / den else num / den + 1)%N)
    (r := (if value mod 4 =? 0 then value else value + (4 - value mod 4))%N) :
  den ≠ 0%N → (r mod 4 = 0 ∧ num ≤ r * den ∧ (0 < r → (r - 4) * den < num))%N.
Proof.
  intros Hd. pose proof (N.div_mod num den Hd) as Hnum. pose proof (N.mod_lt num den Hd).
  assert (num ≤ value * den ∧ ((value - 1) * den < num ∨ value = 0))%N as [Hhi Hlo].
  { unfold value. destruct (N.eqb_spec (num mod den) 0) as [E|E].
    - rewrite E in Hnum. generalize dependent (num / den)%N. intros q Hq.
      destruct (N.zero_or_succ q) as [-> |[q' ->]]; [split; [nia|by right]|].
      replace (N.succ q' - 1)%N with q' by lia. split; [nia|left; nia].
    - generalize dependent (num mod den)%N. generalize (num / den)%N. intros q m Hq ? ?.
      replace (q + 1 - 1)%N with q by lia. split; [nia|left; nia]. }
  clearbody value. pose proof (N.div_mod value 4 ltac:(done)) as Hdm.
  pose proof (N.mod_lt value 4 ltac:(done)) as Hlt. unfold r. clear r.
  destruct (N.eqb_spec (value mod 4) 0) as [E|E].
  - split; [done|]. split; [done|]. intros Hpos. destruct Hlo as [Hlo|]; [|lia].
    eapply N.le_lt_trans; [|exact Hlo]. apply N.mul_le_mono_r. lia.
  - replace (value + (4 - value mod 4))%N with (4 * (value / 4) + 4)%N by lia. split; [|split].
    + replace (4 * (value / 4) + 4)%N with ((value / 4 + 1) * 4)%N by lia. apply N.Div0.mod_mul.
    + etrans; [exact Hhi|]. apply N.mul_le_mono_r. lia.
    + intros _. destruct Hlo as [Hlo| ->]; [|done].
      eapply N.le_lt_trans; [|exact Hlo]. apply N.mul_le_mono_r. clear -Hdm E. generalize dependent (value mod 4)%N. generalize (value / 4)%N. lia.
Qed.

(** [ParseUnit] accepts a number, spaces and a unit, and its result is the
    smallest multiple of four MiB that is at least the given amount. *)
Theorem ParseUnit_correct number spaces unit num decimals factor :
  Forall (λ a, is_float_char a = true) number → Forall (λ a, is_space a = true) spaces →
  Forall (λ a, is_alpha a = true) unit →
  parse_float number = Some (num, decimals) →
  unit_factor (if decide (unit = []) then lit "m" else lower unit) = Some factor →
  ∃ r, ParseUnit (number ++ spaces ++ unit) = Ok r ∧ (r mod 4 = 0)%N ∧
    (num * factor ≤ r * 10 ^ N.of_nat decimals)%N ∧
    (0 < r → (r - 4) * 10 ^ N.of_nat decimals < num * factor)%N.
Proof.
  intros Hn Hs Hu Hf Hun. unfold ParseUnit.
  destruct (span_number number spaces unit Hn Hs Hu) as (-> & -> & ->).
  assert (number ≠ []) as Hne by (intros ->; done).
  rewrite decide_False by done. cbn [negb]. rewrite Hf, Hun.
  eexists. split; [done|]. apply round_up. by apply N.pow_nonzero.
Qed.

Lemma ParseUnit_correct_witness :
  ∃ r, ParseUnit (lit "1.5 g") = Ok r ∧ (r mod 4 = 0)%N.
Proof.
  destruct (ParseUnit_correct (lit "1.5") (lit " ") (lit "g") 15 1 1024)
    as (r & E & Hr & _); [by repeat constructor..|done|done|].
  by exists r.
Defined.
