(* ===== verification/PyVal.v ===== *)
(** * Python objects

    The values that requests, opcode parameters and query fields are made of,
    with the operations of the language the modelled code applies to values of
    unknown type: [==], the order operators, [bool], [len], [in], [hash] and
    unpacking.  Each raises what the interpreter raises.  Floats are IEEE
    binary64 numbers ([spec_float] of the Standard Library). *)

From Stdlib Require Import SpecFloat.
From S2P Require Import Prelude Errors PySort PyStr.
#[local] Open Scope list_scope.
#[local] Open Scope stdpp_scope.
#[local] Open Scope py_scope.

Inductive obj : Type :=
| ONone
| OBool (b : bool)
| OInt (z : Z)
| OFloat (f : spec_float)
| OStr (s : str)
| OList (l : list obj)
| OTuple (l : list obj)
| OSet (l : list obj)                (* frozenset *)
| ODict (d : list (obj * obj))       (* in insertion order *)
| OPrivate (v : obj)                 (* serializer.Private *)
| OOther (id : nat).                 (* any other object, by its identity *)

Definition str_obj (s : string) : obj := OStr (lit s).

Definition Type_error : exn := PyExn TypeError "".
Definition Value_error : exn := PyExn ValueError "".

(** ** Numbers *)

(** A number as the interpreter compares it: exactly. *)
Inductive number := Fin (m e : Z) | Inf (negative : bool) | NaN.

Definition number_of_float (f : spec_float) : number :=
  match f with
  | S754_zero _ => Fin 0 0
  | S754_infinity s => Inf s
  | S754_nan => NaN
  | S754_finite s m e => Fin (if s then Z.neg m else Z.pos m) e
  end.

(** [bool] is a subclass of [int]. *)
Definition number_of (v : obj) : option number :=
  match v with
  | OBool b => Some (Fin (if b then 1 else 0) 0)
  | OInt z => Some (Fin z 0)
  | OFloat f => Some (number_of_float f)
  | _ => None
  end.

(** [None]: unordered *)
Definition number_compare (x y : number) : option comparison :=
  match x, y with
  | NaN, _ | _, NaN => None
  | Inf s, Inf s' => Some (match s, s' with
                           | true, false => Lt | false, true => Gt | _, _ => Eq end)
  | Inf s, Fin _ _ => Some (if s then Lt else Gt)
  | Fin _ _, Inf s => Some (if s then Gt else Lt)
  | Fin m e, Fin m' e' =>
      let k := Z.min e e' in Some (m * 2 ^ (e - k) ?= m' * 2 ^ (e' - k))%Z
  end.

Definition number_eq (x y : number) : bool :=
  match number_compare x y with Some Eq => true | _ => false end.

(** ** Equality *)

Definition unprivate (v : obj) : obj := match v with OPrivate v => v | _ => v end.

(** [a == b]; the interpreter's shortcut for identical objects, which matters
    for NaN inside a container only, is left out. *)
Fixpoint py_eq (a b : obj) {struct a} : bool :=
  match a with
  | OPrivate a => py_eq a b
  | _ =>
      match number_of a, number_of (unprivate b) with
      | Some x, Some y => number_eq x y
      | _, _ =>
          let eqs := fix eqs (l l' : list obj) : bool :=
            match l, l' with
            | [], [] => true
            | x :: l, y :: l' => py_eq x y && eqs l l'
            | _, _ => false
            end in
          match a, unprivate b with
          | ONone, ONone => true
          | OStr s, OStr t => bool_decide (s = t)
          | OList l, OList l' => eqs l l'
          | OTuple l, OTuple l' => eqs l l'
          | OSet l, OSet l' =>
              Nat.eqb (length l) (length l') &&
              forallb (λ x, existsb (py_eq x) l') l
          | ODict d, ODict d' =>
              Nat.eqb (length d) (length d') &&
              forallb (λ '(k, v), existsb (λ '(k', v'), py_eq k k' && py_eq v v') d') d
          | OOther i, OOther j => Nat.eqb i j
          | _, _ => false
          end
      end
  end.

(** [hash(v)] is defined *)
Fixpoint hashes (v : obj) : bool :=
  match v with
  | OList _ | ODict _ => false
  | OTuple l => forallb hashes l
  | OPrivate v => hashes v
  | _ => true
  end.

(** ** Truth, length, membership *)

Fixpoint py_truth (v : obj) : bool :=
  match v with
  | ONone => false
  | OBool b => b
  | OInt z => negb (z =? 0)%Z
  | OFloat f => negb (number_eq (number_of_float f) (Fin 0 0))
  | OStr s => negb (bool_decide (s = []))
  | OList l | OTuple l | OSet l => match l with [] => false | _ => true end
  | ODict d => match d with [] => false | _ => true end
  | OPrivate v => py_truth v
  | OOther _ => true
  end.

(** The elements that iterating over the value gives; a [Private] object
    cannot be iterated over. *)
Definition py_iter (v : obj) : exc (list obj) :=
  match v with
  | OStr s => Ok (map (λ a, OStr [a]) s)
  | OList l | OTuple l | OSet l => Ok l
  | ODict d => Ok (map fst d)
  | _ => Raise Type_error
  end.

Definition py_len (v : obj) : exc Z := rmap (λ l, Z.of_nat (length l)) (py_iter v).

(** [p in s] for strings *)
Fixpoint prefix_of (p s : str) : bool :=
  match p, s with
  | [], _ => true
  | a :: p, b :: s => bool_decide (a = b) && prefix_of p s
  | _, _ => false
  end.

Fixpoint substring (p s : str) : bool :=
  prefix_of p s || match s with [] => false | _ :: s => substring p s end.

(** [v in container] *)
Definition py_in (v container : obj) : exc bool :=
  match container with
  | OStr s => match v with OStr p => Ok (substring p s) | _ => Raise Type_error end
  | OList l | OTuple l => Ok (existsb (py_eq v) l)
  | OSet l => if hashes v then Ok (existsb (py_eq v) l) else Raise Type_error
  | ODict d => if hashes v then Ok (existsb (py_eq v) (map fst d)) else Raise Type_error
  | _ => Raise Type_error
  end.

(** [d.get(k)] for a key that can be hashed *)
Definition dict_get {A} (d : list (obj * A)) (k : obj) : option A :=
  snd <$> List.find (λ '(k', _), py_eq k k') d.

(** [set(l)]: of values that are equal the first one stays.  The order in
    which the interpreter lists the elements is left open; here it is the one of
    the sequence. *)
Fixpoint dedup (l : list obj) : list obj :=
  match l with
  | [] => []
  | x :: l => x :: List.filter (λ y, negb (py_eq y x)) (dedup l)
  end.

(** ** Order *)

Inductive order_op := OpLt | OpLe | OpGt | OpGe.

Definition order_holds (op : order_op) (c : comparison) : bool :=
  match op, c with
  | OpLt, Lt | OpLe, Lt | OpLe, Eq | OpGt, Gt | OpGe, Gt | OpGe, Eq => true
  | _, _ => false
  end.

(** [a op b]; sequences compare by their first elements that differ. *)
Fixpoint py_order (op : order_op) (a b : obj) {struct a} : exc bool :=
  match number_of a, number_of b with
  | Some x, Some y =>
      Ok (match number_compare x y with Some c => order_holds op c | None => false end)
  | _, _ =>
      let seq := fix seq (l l' : list obj) : exc bool :=
        match l, l' with
        | [], [] => Ok (order_holds op Eq)
        | [], _ :: _ => Ok (order_holds op Lt)
        | _ :: _, [] => Ok (order_holds op Gt)
        | x :: l, y :: l' => if py_eq x y then seq l l' else py_order op x y
        end in
      match a, b with
      | OStr s, OStr t =>
          Ok (order_holds op (if str_lt s t then Lt else if str_lt t s then Gt else Eq))
      | OList l, OList l' => seq l l'
      | OTuple l, OTuple l' => seq l l'
      | OSet l, OSet l' =>
          let sub := λ l l', forallb (λ x, existsb (py_eq x) l') l in
          let proper := λ l l', sub l l' && negb (sub l' l) in
          Ok (match op with
              | OpLe => sub l l' | OpGe => sub l' l
              | OpLt => proper l l' | OpGt => proper l' l
              end)
      | _, _ => Raise Type_error
      end
  end.

(** [(x, y) = v] *)
Definition unpack2 (v : obj) : exc (obj * obj) :=
  let* l := py_iter v in
  match l with [x; y] => Ok (x, y) | _ => Raise Value_error end.

(** ** Conversions *)

Definition float_of_Z (z : Z) : spec_float := binary_normalize 53 1024 z 0 false.

(** [float(v)] of a number; an [OverflowError] for an integer beyond the
    range.  The modelled code converts values that passed a numeric test. *)
Definition float_of (v : obj) : exc spec_float :=
  match v with
  | OBool b => Ok (float_of_Z (if b then 1 else 0))
  | OInt z =>
      match float_of_Z z with
      | S754_infinity _ => Raise (PyExn OverflowError "")
      | f => Ok f
      end
  | OFloat f => Ok f
  | _ => Raise Type_error
  end.

(** [int(f)]: towards zero *)
Definition trunc (f : spec_float) : exc Z :=
  match f with
  | S754_zero _ => Ok 0%Z
  | S754_finite s m e =>
      let a := if (0 <=? e)%Z then (Z.pos m * 2 ^ e)%Z else (Z.pos m / 2 ^ (- e))%Z in
      Ok (if s then (- a)%Z else a)
  | S754_infinity _ => Raise (PyExn OverflowError "")
  | S754_nan => Raise Value_error
  end.

(** [int(v)] *)
Definition int_of (v : obj) : exc Z :=
  match v with
  | OBool b => Ok (if b then 1 else 0)%Z
  | OInt z => Ok z
  | OFloat f => trunc f
  | OStr s => match py_int s with Some z => Ok z | None => Raise Value_error end
  | _ => Raise Type_error
  end.
