(* ===== verification/Json.v ===== *)
(** * JSON texts (the standard library's [json], as serializer.py uses it)

    [json.dumps] with the encoders of serializer.py and [json.loads], on Python
    objects.  A character is a code point up to U+00FF; [loads] refuses texts
    with others, which a string of the model cannot hold.  The decimal text of a
    floating-point number and its reading are parameters. *)

From Stdlib Require Import SpecFloat.
From S2P Require Import Prelude Errors PySort PyStr PyVal.
#[local] Open Scope list_scope.
#[local] Open Scope stdpp_scope.
#[local] Open Scope py_scope.

Class FloatText := {
  float_repr : spec_float → str;
  float_parse : str → exc spec_float
}.

Definition dquote : ascii := "034"%char.
Definition bslash : ascii := "\"%char.

(** ** Writing *)

(** A backslash, u and four hexadecimal digits, for a code below 256. *)
Definition unicode_escape (a : ascii) : str :=
  lit "\u00" ++ [hex_char (N_of_ascii a / 16); hex_char (N_of_ascii a mod 16)].

Definition escape_char (a : ascii) : str :=
  if decide (a = dquote) then [bslash; dquote]
  else if decide (a = bslash) then [bslash; bslash]
  else if decide (a = "010"%char) then lit "\n"
  else if decide (a = "013"%char) then lit "\r"
  else if decide (a = "009"%char) then lit "\t"
  else if decide (a = "012"%char) then lit "\f"
  else if decide (a = "008"%char) then lit "\b"
  else if between_chars " " "~" a then [a]
  else unicode_escape a.

Definition json_string (s : str) : str := dquote :: flat_map escape_char s ++ [dquote].

Section dumps.
  Context `{FloatText}.

(** The text of a dictionary's key *)
Definition key_text (k : obj) : exc str :=
  match k with
  | OStr s => Ok s
  | OBool b => Ok (lit (if b then "true" else "false"))
  | ONone => Ok (lit "null")
  | OInt z => Ok (str_of_Z z)
  | OFloat f => Ok (float_repr f)
  | _ => Raise Type_error
  end.

(** [json.dumps]; [private] says which encoder is used: with the contents of
    [Private] objects, or with [null] for them. *)
Fixpoint json_dumps (private : bool) (v : obj) : exc str :=
  let items := fix items (l : list obj) : exc (list str) :=
    match l with
    | [] => Ok []
    | x :: l => let* t := json_dumps private x in rmap (cons t) (items l)
    end in
  match v with
  | ONone => Ok (lit "null")
  | OBool b => Ok (lit (if b then "true" else "false"))
  | OInt z => Ok (str_of_Z z)
  | OFloat f => Ok (float_repr f)
  | OStr s => Ok (json_string s)
  | OList l | OTuple l => rmap (λ ts, lit "[" ++ join (lit ", ") ts ++ lit "]") (items l)
  | ODict d =>
      let pairs := fix pairs (d : list (obj * obj)) : exc (list str) :=
        match d with
        | [] => Ok []
        | (k, x) :: d =>
            let* kt := key_text k in
            let* t := json_dumps private x in
            rmap (cons (json_string kt ++ lit ": " ++ t)) (pairs d)
        end in
      rmap (λ ts, lit "{" ++ join (lit ", ") ts ++ lit "}") (pairs d)
  | OPrivate x => if private then json_dumps private x else Ok (lit "null")
  | OSet _ | OOther _ => Raise Type_error
  end.
End dumps.

(** ** Reading *)

(** [JSONDecodeError], a [ValueError] *)
Definition Decode_error : exn := PyExn ValueError "JSON".

Definition is_json_space (a : ascii) : bool := char_in [" "%char; "009"%char; "010"%char; "013"%char] a.
Definition skip_ws (s : str) : str := drop_while is_json_space s.

(** The text up to the closing quote *)
Fixpoint scan_string (s : str) : exc (str * str) :=
  match s with
  | [] => Raise Decode_error
  | a :: s =>
      if decide (a = dquote) then Ok ([], s)
      else if decide (a = bslash) then
        match s with
        | [] => Raise Decode_error
        | e :: s =>
            let plain (c : ascii) := rmap (λ p, (c :: p.1, p.2)) (scan_string s) in
            if decide (e = dquote) then plain dquote
            else if decide (e = bslash) then plain bslash
            else if decide (e = "/"%char) then plain "/"%char
            else if decide (e = "b"%char) then plain "008"%char
            else if decide (e = "f"%char) then plain "012"%char
            else if decide (e = "n"%char) then plain "010"%char
            else if decide (e = "r"%char) then plain "013"%char
            else if decide (e = "t"%char) then plain "009"%char
            else if decide (e = "u"%char) then
              match s with
              | a1 :: a2 :: a3 :: a4 :: s =>
                  match hex_value a1, hex_value a2, hex_value a3, hex_value a4 with
                  | Some 0%N, Some 0%N, Some n3, Some n4 =>
                      rmap (λ p, (ascii_of_N (16 * n3 + n4) :: p.1, p.2)) (scan_string s)
                  | _, _, _, _ => Raise Decode_error
                  end
              | _ => Raise Decode_error
              end
            else Raise Decode_error
        end
      else if code a <? 32 then Raise Decode_error
      else rmap (λ p, (a :: p.1, p.2)) (scan_string s)
  end.

(** The three groups of the expression for numbers: an optional minus and the
    digits, without leading zeros; the fraction; the exponent. *)
Definition scan_int (s : str) : option (str * str) :=
  let '(sign, s) := match s with
                    | a :: s' => if decide (a = "-"%char) then ([a], s') else ([], s)
                    | [] => ([], s)
                    end in
  match s with
  | a :: s' =>
      if decide (a = "0"%char) then Some (sign ++ [a], s')
      else if is_digit a then let '(ds, s) := span is_digit s in Some (sign ++ ds, s)
      else None
  | [] => None
  end.

Definition scan_frac (s : str) : str * str :=
  match s with
  | a :: (b :: _) as s' =>
      if decide (a = "."%char) then
        if is_digit b then let '(ds, s) := span is_digit (tail s) in (a :: ds, s) else ([], s)
      else ([], s)
  | _ => ([], s)
  end.

Definition scan_exp (s : str) : str * str :=
  match s with
  | a :: s' =>
      if char_in (lit "eE") a then
        let '(sign, s'') := match s' with
                            | b :: t => if char_in (lit "+-") b then ([b], t) else ([], s')
                            | [] => ([], s')
                            end in
        match span is_digit s'' with
        | ([], _) => ([], s)
        | (ds, t) => (a :: sign ++ ds, t)
        end
      else ([], s)
  | [] => ([], s)
  end.

Section loads.
  Context `{FloatText}.

Definition scan_number (s : str) : exc (obj * str) :=
  match scan_int s with
  | None => Raise Decode_error
  | Some (it, s) =>
      let '(frac, s) := scan_frac s in
      let '(ex, s) := scan_exp s in
      match frac, ex with
      | [], [] => match py_int it with
                  | Some z => Ok (OInt z, s)
                  | None => Raise Decode_error
                  end
      | _, _ => let* f := float_parse (it ++ frac ++ ex) in Ok (OFloat f, s)
      end
  end.

(** A word at the beginning *)
Definition after (w s : str) : option str :=
  if decide (take (length w) s = w) then Some (drop (length w) s) else None.

Definition scan_word (s : str) : option (obj * str) :=
  match after (lit "null") s, after (lit "true") s, after (lit "false") s,
        after (lit "NaN") s, after (lit "Infinity") s, after (lit "-Infinity") s with
  | Some s, _, _, _, _, _ => Some (ONone, s)
  | _, Some s, _, _, _, _ => Some (OBool true, s)
  | _, _, Some s, _, _, _ => Some (OBool false, s)
  | _, _, _, Some s, _, _ => Some (OFloat S754_nan, s)
  | _, _, _, _, Some s, _ => Some (OFloat (S754_infinity false), s)
  | _, _, _, _, _, Some s => Some (OFloat (S754_infinity true), s)
  | _, _, _, _, _, _ => None
  end.

(** [d[k] = v], for string keys *)
Fixpoint dict_set (k : str) (v : obj) (d : list (obj * obj)) : list (obj * obj) :=
  match d with
  | [] => [(OStr k, v)]
  | (OStr k', v') :: d =>
      if decide (k' = k) then (OStr k, v) :: d else (OStr k', v') :: dict_set k v d
  | p :: d => p :: dict_set k v d
  end.

Definition dict_of_pairs (ps : list (str * obj)) : list (obj * obj) :=
  foldl (λ d p, dict_set p.1 p.2 d) [] ps.

Definition Out_of_fuel : exn := PyExn RuntimeError "fuel".

(** A value, the values of an array from the next one on, and the members of an
    object. *)
Fixpoint scan (fuel : nat) (s : str) : exc (obj * str) :=
  match fuel with
  | O => Raise Out_of_fuel
  | S fuel =>
      match s with
      | [] => Raise Decode_error
      | a :: t =>
          if decide (a = dquote) then rmap (λ p, (OStr p.1, p.2)) (scan_string t)
          else if decide (a = "["%char) then
            match skip_ws t with
            | [] => Raise Decode_error
            | b :: r => if decide (b = "]"%char) then Ok (OList [], r)
                        else rmap (λ p, (OList p.1, p.2)) (scan_items fuel (b :: r))
            end
          else if decide (a = "{"%char) then
            match skip_ws t with
            | [] => Raise Decode_error
            | b :: r => if decide (b = "}"%char) then Ok (ODict [], r)
                        else rmap (λ p, (ODict (dict_of_pairs p.1), p.2)) (scan_pairs fuel (b :: r))
            end
          else match scan_word s with
          | Some r => Ok r
          | None => scan_number s
          end
      end
  end
with scan_items (fuel : nat) (s : str) : exc (list obj * str) :=
  match fuel with
  | O => Raise Out_of_fuel
  | S fuel =>
      let* '(v, s) := scan fuel s in
      match skip_ws s with
      | [] => Raise Decode_error
      | b :: r =>
          if decide (b = "]"%char) then Ok ([v], r)
          else if decide (b = ","%char) then
            rmap (λ p, (v :: p.1, p.2)) (scan_items fuel (skip_ws r))
          else Raise Decode_error
      end
  end
with scan_pairs (fuel : nat) (s : str) : exc (list (str * obj) * str) :=
  match fuel with
  | O => Raise Out_of_fuel
  | S fuel =>
      match s with
      | [] => Raise Decode_error
      | a :: t =>
          if decide (a = dquote) then
            let* '(k, s) := scan_string t in
            match skip_ws s with
            | [] => Raise Decode_error
            | c :: r =>
                if decide (c = ":"%char) then
                  let* '(v, s) := scan fuel (skip_ws r) in
                  match skip_ws s with
                  | [] => Raise Decode_error
                  | b :: r =>
                      if decide (b = "}"%char) then Ok ([(k, v)], r)
                      else if decide (b = ","%char) then
                        rmap (λ p, ((k, v) :: p.1, p.2)) (scan_pairs fuel (skip_ws r))
                      else Raise Decode_error
                  end
                else Raise Decode_error
            end
          else Raise Decode_error
      end
  end.

(** [json.loads]; every second step of [scan] goes on in the text. *)
Definition json_loads (s : str) : exc obj :=
  let* '(v, r) := scan (2 * S (length s)) (skip_ws s) in
  match skip_ws r with
  | [] => Ok v
  | _ => Raise Decode_error
  end.
End loads.

(** ** Round trip *)

Lemma obj_nested_ind (P : obj → Prop) :
  P ONone → (∀ b, P (OBool b)) → (∀ z, P (OInt z)) → (∀ f, P (OFloat f)) → (∀ s, P (OStr s)) →
  (∀ l, Forall P l → P (OList l)) → (∀ l, Forall P l → P (OTuple l)) → (∀ l, P (OSet l)) →
  (∀ d, Forall (λ p, P p.2) d → P (ODict d)) → (∀ v, P v → P (OPrivate v)) → (∀ i, P (OOther i)) →
  ∀ v, P v.
Proof.
  intros H1 H2 H3 H4 H5 H6 H7 H8 H9 H10 H11. fix IH 1. intros [|b|z|f|s|l|l|l|d|v|i].
  - exact H1.
  - apply H2.
  - apply H3.
  - apply H4.
  - apply H5.
  - apply H6. induction l as [|x l IHl]; constructor; [apply IH|exact IHl].
  - apply H7. induction l as [|x l IHl]; constructor; [apply IH|exact IHl].
  - apply H8.
  - apply H9. induction d as [|[k x] d IHd]; constructor; [apply IH|exact IHd].
  - apply H10, IH.
  - apply H11.
Qed.

(** What the text of a value is read back as *)
Fixpoint json_norm (private : bool) (v : obj) : obj :=
  match v with
  | OList l | OTuple l => OList (map (json_norm private) l)
  | ODict d => ODict (map (λ '(k, x), (k, json_norm private x)) d)
  | OPrivate x => if private then json_norm private x else ONone
  | _ => v
  end.

(** The keys of a dictionary, if all are strings *)
Fixpoint str_keys (d : list (obj * obj)) : option (list str) :=
  match d with
  | [] => Some []
  | (OStr k, _) :: d => cons k <$> str_keys d
  | _ => None
  end.

(** Values that JSON represents; floating-point numbers apart. *)
Fixpoint jsonable (v : obj) : bool :=
  match v with
  | ONone | OBool _ | OInt _ | OStr _ => true
  | OList l | OTuple l => forallb jsonable l
  | ODict d =>
      forallb (λ '(_, x), jsonable x) d &&
      match str_keys d with Some ks => bool_decide (NoDup ks) | None => false end
  | OPrivate x => jsonable x
  | _ => false
  end.

(** Space to tilde *)
Definition printable (a : ascii) : bool := between_chars " " "~" a.

Lemma escape_char_printable a : forallb printable (escape_char a) = true.
Proof. destruct a as [[] [] [] [] [] [] [] []]; reflexivity. Qed.

Lemma scan_escape a s :
  scan_string (escape_char a ++ s) = rmap (λ p, (a :: p.1, p.2)) (scan_string s).
Proof. destruct a as [[] [] [] [] [] [] [] []]; reflexivity. Qed.

Lemma scan_json_string s r : scan_string (flat_map escape_char s ++ dquote :: r) = Ok (s, r).
Proof.
  induction s as [|a s IH]; [done|]. cbn [flat_map]. rewrite <-app_assoc, scan_escape, IH. done.
Qed.

Lemma json_string_printable s : Forall (λ a, printable a = true) (json_string s).
Proof.
  unfold json_string. constructor; [done|]. apply Forall_app. split; [|by repeat constructor].
  induction s as [|a s IH]; cbn [flat_map]; [constructor|]. apply Forall_app. split; [|done].
  apply Forall_forall. intros b Hb. pose proof (escape_char_printable a) as Ha.
  rewrite forallb_forall in Ha. apply Ha. by apply list_elem_of_In.
Qed.

(** What can follow a value *)
Definition ends (r : str) : Prop :=
  match r with [] => True | a :: _ => char_in ([newline] ++ lit ",]}") a = true end.

(** How the text of a value begins *)
Definition starts (t : str) : Prop :=
  ∃ a t', t = a :: t' ∧ is_json_space a = false ∧ a ≠ "]"%char ∧ a ≠ "}"%char.

Lemma skip_head a s : is_json_space a = false → skip_ws (a :: s) = a :: s.
Proof. intros Ha. unfold skip_ws. cbn [drop_while]. by rewrite Ha. Qed.

Lemma skip_starts t r : starts t → skip_ws (t ++ r) = t ++ r.
Proof. intros (a & t' & -> & Ha & _). unfold skip_ws. simpl. by rewrite Ha. Qed.

Lemma skip_space t r : starts t → skip_ws (" "%char :: t ++ r) = t ++ r.
Proof. intros Ht. unfold skip_ws. simpl. by apply skip_starts. Qed.

(** Decimal numbers have no leading zeros. *)
Lemma dec_fuel_head fuel n acc :
  (0 < n)%N → (n < 2 ^ N.of_nat fuel)%N → ∃ a t, dec_fuel fuel n acc = a :: t ∧
    is_digit a = true ∧ a ≠ "0"%char.
Proof.
  revert n acc. induction fuel as [|fuel IH]; intros n acc Hn Hlt; [simpl in Hlt; lia|].
  cbn [dec_fuel]. destruct (N.ltb_spec n 10).
  - exists (digit (n mod 10)), acc. rewrite N.mod_small by done. split_and!; [done|..].
    + assert (n = 1 ∨ n = 2 ∨ n = 3 ∨ n = 4 ∨ n = 5 ∨ n = 6 ∨ n = 7 ∨ n = 8 ∨ n = 9)%N as Hd by lia.
      repeat destruct Hd as [->|Hd]; try done. by subst.
    + assert (n = 1 ∨ n = 2 ∨ n = 3 ∨ n = 4 ∨ n = 5 ∨ n = 6 ∨ n = 7 ∨ n = 8 ∨ n = 9)%N as Hd by lia.
      repeat destruct Hd as [->|Hd]; try done. by subst.
  - apply IH.
    + pose proof (N.div_le_lower_bound n 10 1). lia.
    + apply N.Div0.div_lt_upper_bound. rewrite Nat2N.inj_succ, N.pow_succ_r' in Hlt. lia.
Qed.

Lemma dec_head n : ∃ a t, dec n = a :: t ∧ is_digit a = true ∧ (a = "0"%char → t = []).
Proof.
  destruct (decide (n = 0%N)) as [->|Hn]; [by exists "0"%char, []|].
  destruct (dec_fuel_head (S (N.size_nat n)) n []) as (a & t & E & Ha & H0);
    [lia|apply dec_fuel_enough|]. by exists a, t.
Qed.

Lemma ends_not P r :
  ends r → forallb (λ a, negb (P a)) ([newline] ++ lit ",]}") = true →
  match r with a :: _ => P a = false | [] => True end.
Proof.
  intros Hr HP. destruct r as [|a r]; [done|]. simpl in Hr. unfold char_in in Hr.
  apply bool_decide_eq_true in Hr. rewrite forallb_forall in HP.
  specialize (HP a (proj1 (list_elem_of_In _ _) Hr)). by destruct (P a).
Qed.

Lemma scan_int_dec n r :
  ends r → ∃ a t, dec n = a :: t ∧ is_digit a = true ∧
    (if decide (a = "0"%char) then ([a], t ++ r) else span is_digit (dec n ++ r)) = (dec n, r).
Proof.
  intros Hr. destruct (dec_head n) as (a & t & E & Ha & H0). exists a, t. split_and!; [done..|].
  case_decide as Hz; [rewrite E, (H0 Hz); done|].
  apply span_app; [apply dec_digits|by apply ends_not].
Qed.

Lemma scan_int_str z r : ends r → scan_int (str_of_Z z ++ r) = Some (str_of_Z z, r).
Proof.
  intros Hr. destruct (scan_int_dec (Z.abs_N z) r Hr) as (a & t & E & Ha & Hs).
  unfold str_of_Z. destruct (z <? 0)%Z.
  - unfold scan_int. cbn [app]. rewrite decide_True by done. revert Hs. rewrite E. cbn [app].
    case_decide; [intros [= E1 E2]; by rewrite E2, <-E1|]. rewrite Ha. by intros ->.
  - unfold scan_int. revert Hs. rewrite E. cbn [app].
    rewrite (decide_False (P := a = "-"%char)) by (apply digit_neq; done).
    case_decide; [intros [= E1 E2]; by rewrite E2, <-E1|]. rewrite Ha. by intros ->.
Qed.

Section roundtrip.
  Context `{FloatText} (private : bool).

Lemma scan_number_str z r : ends r → scan_number (str_of_Z z ++ r) = Ok (OInt z, r).
Proof.
  intros Hr. unfold scan_number. rewrite scan_int_str by done.
  assert (scan_frac r = ([], r)) as ->.
  { destruct r as [|a [|b r]]; [done..|]. simpl.
    pose proof (ends_not (λ c, bool_decide (c = "."%char)) (a :: b :: r) Hr eq_refl) as Ha.
    simpl in Ha. apply bool_decide_eq_false in Ha. by rewrite decide_False. }
  assert (scan_exp r = ([], r)) as ->.
  { destruct r as [|a r]; [done|]. simpl.
    pose proof (ends_not (char_in (lit "eE")) (a :: r) Hr eq_refl) as Ha. simpl in Ha. by rewrite Ha. }
  by rewrite py_int_str.
Qed.

Lemma after_cons w a s : after (a :: w) (a :: s) = after w s.
Proof. unfold after. simpl. repeat case_decide; congruence. Qed.

Lemma after_ne w a b s : a ≠ b → after (a :: w) (b :: s) = None.
Proof. intros Hab. unfold after. simpl. rewrite decide_False; [done|congruence]. Qed.

Lemma digit_ne a c : is_digit a = true → is_digit c = false → c ≠ a.
Proof. intros Ha Hc ->. congruence. Qed.

Lemma scan_word_number z r : scan_word (str_of_Z z ++ r) = None.
Proof.
  destruct (dec_head (Z.abs_N z)) as (a & t & E & Ha & _). unfold str_of_Z, scan_word.
  destruct (z <? 0)%Z; rewrite E; cbn [app String.list_ascii_of_string].
  - rewrite after_cons. by rewrite !after_ne by (done || by apply digit_ne).
  - by rewrite !after_ne by (by apply digit_ne).
Qed.

(** The text [t] is read back as the value [v], whatever follows. *)
Definition reads (t : str) (v : obj) : Prop :=
  starts t ∧ (Forall (λ a, printable a = true) t ∧ last t ≠ Some " "%char) ∧
  ∀ fuel r, 2 * length t ≤ fuel → ends r → scan fuel (t ++ r) = Ok (v, r).

Lemma reads_word t v :
  starts t → Forall (λ a, printable a = true) t ∧ last t ≠ Some " "%char →
  match t with a :: _ => a ≠ dquote ∧ a ≠ "["%char ∧ a ≠ "{"%char | [] => False end →
  (∀ r, ends r → scan_word (t ++ r) = Some (v, r)) → reads t v.
Proof.
  intros Hs [Hp Hl] Ht Hw. split_and!; [done..|]. intros fuel r Hf Hr. destruct t as [|a t]; [done|].
  destruct Ht as (H1 & H2 & H3). destruct fuel as [|fuel]; [simpl in Hf; lia|].
  cbn [scan app]. rewrite !decide_False by done. change (a :: t ++ r) with ((a :: t) ++ r).
  by rewrite Hw.
Qed.

Lemma reads_int z : reads (str_of_Z z) (OInt z).
Proof.
  destruct (dec_head (Z.abs_N z)) as (a & t & E & Ha & _).
  assert (∀ c, is_digit c = true → printable c = true) as Hd.
  { intros c Hc. unfold printable, is_digit, between_chars in *.
    apply andb_true_iff in Hc as [H1%Nat.leb_le H2%Nat.leb_le]. apply andb_true_iff.
    change (code "0") with 48 in H1. change (code "9") with 57 in H2.
    split; apply Nat.leb_le; [change (code " ") with 32|change (code "~") with 126]; lia. }
  assert (∃ c t', str_of_Z z = c :: t' ∧ (c = "-"%char ∨ is_digit c = true)) as (c & t' & Ec & Hc).
  { unfold str_of_Z. destruct (z <? 0)%Z; rewrite E; eauto. }
  assert (∀ x, x ≠ "-"%char → is_digit x = false → c ≠ x) as Hne.
  { intros x H1 H2. destruct Hc as [->|Hc]; [done|]. by apply digit_neq. }
  split_and!.
  - exists c, t'. split_and!; [done| |by apply Hne..]. destruct Hc as [->|Hc]; [done|].
    unfold is_json_space, char_in. apply bool_decide_eq_false. intros Hin.
    assert (c ∈ [" "%char; "009"%char; "010"%char; "013"%char]) as Hin' by done.
    apply list_elem_of_In in Hin'. simpl in Hin'. by destruct Hin' as [<-|[<-|[<-|[<-|[]]]]].
  - unfold str_of_Z. pose proof (dec_digits (Z.abs_N z)) as Hds.
    assert (Forall (λ a, printable a = true) (dec (Z.abs_N z))) by (eapply Forall_impl; [done|auto]).
    destruct (z <? 0)%Z; by try constructor.
  - intros Hl. assert (last (dec (Z.abs_N z)) = Some " "%char) as Hl'.
    { revert Hl. unfold str_of_Z. destruct (z <? 0)%Z; [|done]. rewrite E. by rewrite last_cons_cons. }
    apply last_Some in Hl' as (u & Eu). pose proof (dec_digits (Z.abs_N z)) as Hds. rewrite Eu in Hds.
    apply Forall_app in Hds as [_ Hds]. by apply Forall_cons in Hds as [? _].
  - intros fuel r Hf Hr. destruct fuel as [|fuel]; [rewrite Ec in Hf; simpl in Hf; lia|].
    pose proof (scan_number_str z r Hr) as Hn. pose proof (scan_word_number z r) as Hw.
    rewrite Ec in *. cbn [scan app] in *. rewrite !decide_False by (by apply Hne). by rewrite Hw.
Qed.

Lemma reads_string s : reads (json_string s) (OStr s).
Proof.
  split_and!; [|apply json_string_printable|..].
  - by eexists _, _.
  - unfold json_string. rewrite app_comm_cons, last_snoc. done.
  - intros fuel r Hf _. destruct fuel as [|fuel]; [simpl in Hf; lia|]. unfold json_string.
    cbn [scan app]. rewrite decide_True by done. rewrite <-app_assoc. cbn [app].
    by rewrite scan_json_string.
Qed.

(** Texts joined by commas: printable, and read item by item *)
Lemma join_printable ts :
  Forall (Forall (λ a, printable a = true)) ts → Forall (λ a, printable a = true) (join (lit ", ") ts).
Proof.
  induction 1 as [|t ts Ht Hts IH]; [constructor|]. destruct ts as [|t' ts]; [done|].
  cbn [join]. apply Forall_app. split; [done|]. apply Forall_app. split; [by repeat constructor|done].
Qed.

Lemma skip_join sep ts c r :
  (∃ t ts', ts = t :: ts' ∧ starts t) → skip_ws (" "%char :: join sep ts ++ c :: r) = join sep ts ++ c :: r.
Proof.
  intros (t & ts' & -> & (a & u & -> & Ha & _)). unfold skip_ws.
  destruct ts'; cbn [join app]; rewrite <-?app_assoc; cbn [app]; simpl; by rewrite Ha.
Qed.

Lemma scan_items_more fuel s v r :
  scan fuel s = Ok (v, ","%char :: r) →
  scan_items (S fuel) s = rmap (λ p, (v :: p.1, p.2)) (scan_items fuel (skip_ws r)).
Proof. intros E. cbn [scan_items]. by rewrite E. Qed.

Lemma scan_items_last fuel s v r :
  scan fuel s = Ok (v, "]"%char :: r) → scan_items (S fuel) s = Ok ([v], r).
Proof. intros E. cbn [scan_items]. by rewrite E. Qed.

Lemma scan_items_join ts vs : ∀ fuel r,
  Forall2 reads ts vs → ts ≠ [] → 2 * length (join (lit ", ") ts) < fuel →
  scan_items fuel (join (lit ", ") ts ++ "]"%char :: r) = Ok (vs, r).
Proof.
  intros fuel r Hrs. revert fuel. induction Hrs as [|t v ts vs (Hst & _ & Ht) Hrs IH]; intros fuel Hne Hf;
    [done|]. destruct fuel as [|fuel]; [lia|]. destruct ts as [|t' ts].
  - apply Forall2_nil_inv_l in Hrs as ->. cbn [join] in *. apply scan_items_last, Ht; [lia|done].
  - pose proof Hrs as Hrs'. apply Forall2_cons_inv_l in Hrs' as (v' & vs' & (Hst' & _) & _ & ->).
    change (join (lit ", ") (t :: t' :: ts)) with (t ++ lit ", " ++ join (lit ", ") (t' :: ts)) in *.
    rewrite !length_app in Hf. change (length (lit ", ")) with 2 in Hf. rewrite <-!app_assoc. change (lit ", ") with (","%char :: [" "%char]) at 1.
    cbn [app]. rewrite (scan_items_more _ _ v (" "%char :: join (lit ", ") (t' :: ts) ++ "]"%char :: r))
      by (apply Ht; [lia|done]).
    rewrite skip_join by eauto. rewrite IH by (done || lia). done.
Qed.

(** The members of an object, with their texts *)
Definition reads_pair (t : str) (p : str * obj) : Prop :=
  ∃ u, t = json_string p.1 ++ lit ": " ++ u ∧ reads u p.2.

Lemma reads_pair_scan fuel t p r :
  reads_pair t p → 2 * length t ≤ fuel → ends r →
  ∃ c u u', t ++ r = dquote :: u ∧ scan_string u = Ok (p.1, ":"%char :: " "%char :: c :: u') ∧
    is_json_space c = false ∧ scan fuel (c :: u') = Ok (p.2, r).
Proof.
  destruct p as [k v]. intros (u & -> & (c & u' & -> & Hc & _) & _ & Hu) Hf Hr. cbn [fst snd] in *.
  exists c, (flat_map escape_char k ++ dquote :: ":"%char :: " "%char :: c :: u' ++ r), (u' ++ r).
  split_and!.
  - unfold json_string. simpl. rewrite <-!app_assoc. done.
  - apply scan_json_string.
  - done.
  - change (c :: u' ++ r) with ((c :: u') ++ r). apply Hu; [|done].
    rewrite !length_app in Hf. lia.
Qed.

Lemma scan_pairs_more fuel t p r :
  reads_pair t p → 2 * length t ≤ fuel →
  scan_pairs (S fuel) (t ++ ","%char :: r) = rmap (λ q, (p :: q.1, q.2)) (scan_pairs fuel (skip_ws r)).
Proof.
  intros Ht Hf. destruct (reads_pair_scan fuel t p (","%char :: r) Ht Hf) as (c & u & u' & -> & Hu & Hc & Hv);
    [done|]. cbn [scan_pairs]. rewrite decide_True, Hu by done. simpl. rewrite Hc, Hv. simpl. by destruct p.
Qed.

Lemma scan_pairs_last fuel t p r :
  reads_pair t p → 2 * length t ≤ fuel → scan_pairs (S fuel) (t ++ "}"%char :: r) = Ok ([p], r).
Proof.
  intros Ht Hf. destruct (reads_pair_scan fuel t p ("}"%char :: r) Ht Hf) as (c & u & u' & -> & Hu & Hc & Hv);
    [done|]. cbn [scan_pairs]. rewrite decide_True, Hu by done. simpl. rewrite Hc, Hv. simpl. by destruct p.
Qed.

Lemma reads_pair_starts t p : reads_pair t p → starts t.
Proof. intros (u & -> & _). by eexists _, _. Qed.

Lemma scan_pairs_join ts ps : ∀ fuel r,
  Forall2 reads_pair ts ps → ts ≠ [] → 2 * length (join (lit ", ") ts) < fuel →
  scan_pairs fuel (join (lit ", ") ts ++ "}"%char :: r) = Ok (ps, r).
Proof.
  intros fuel r Hrs. revert fuel. induction Hrs as [|t p ts ps Ht Hrs IH]; intros fuel Hne Hf; [done|].
  destruct fuel as [|fuel]; [lia|]. destruct ts as [|t' ts].
  - apply Forall2_nil_inv_l in Hrs as ->. cbn [join] in *. apply scan_pairs_last; [done|lia].
  - pose proof Hrs as Hrs'. apply Forall2_cons_inv_l in Hrs' as (p' & ps' & Ht' & _ & ->).
    change (join (lit ", ") (t :: t' :: ts)) with (t ++ lit ", " ++ join (lit ", ") (t' :: ts)) in *.
    rewrite !length_app in Hf. change (length (lit ", ")) with 2 in Hf. rewrite <-!app_assoc. change (lit ", ") with (","%char :: [" "%char]) at 1.
    cbn [app]. rewrite (scan_pairs_more _ _ p) by (done || lia).
    rewrite skip_join by eauto using reads_pair_starts. rewrite IH by (done || lia). done.
Qed.

Lemma dumps_items l :
  Forall (λ v, jsonable v = true → ∃ t, json_dumps private v = Ok t ∧ reads t (json_norm private v)) l →
  forallb jsonable l = true →
  ∃ ts, (fix items (l : list obj) : exc (list str) :=
           match l with
           | [] => Ok []
           | x :: l => let* t := json_dumps private x in rmap (cons t) (items l)
           end) l = Ok ts ∧ Forall2 reads ts (map (json_norm private) l).
Proof.
  induction 1 as [|x l Hx Hl IH]; intros Hj; [by exists []|].
  simpl in Hj. apply andb_true_iff in Hj as [Hjx Hjl]. destruct (Hx Hjx) as (t & Et & Ht).
  destruct (IH Hjl) as (ts & Ets & Hts). exists (t :: ts). rewrite Et. simpl. rewrite Ets.
  split; [done|]. by constructor.
Qed.

(** An array *)
Lemma reads_array ts vs :
  Forall2 reads ts vs → reads (lit "[" ++ join (lit ", ") ts ++ lit "]") (OList vs).
Proof.
  intros Hts. split_and!.
  - by eexists _, _.
  - constructor; [done|]. apply Forall_app. split; [|by repeat constructor]. apply join_printable.
    clear -Hts. induction Hts as [|t v ts vs (_ & [Ht _] & _) _ IH]; by constructor.
  - rewrite app_assoc. change (lit "]") with ["]"%char]. by rewrite last_snoc.
  - intros fuel r Hf Hr. rewrite !length_app in Hf. change (length (lit "[")) with 1 in Hf.
    change (length (lit "]")) with 1 in Hf. destruct fuel as [|fuel]; [lia|]. change (lit "[") with ["["%char]. change (lit "]") with ["]"%char].
    cbn [scan app]. rewrite decide_False, decide_True by done. rewrite <-app_assoc. cbn [app].
    destruct ts as [|t ts]; [by apply Forall2_nil_inv_l in Hts as ->|].
    pose proof Hts as Hts'. apply Forall2_cons_inv_l in Hts' as (v & vs' & (Hst & _) & _ & ->).
    assert (starts (join (lit ", ") (t :: ts))) as (a & u & Ea & Hsp & Hb & _).
    { destruct Hst as (a & u & -> & ?). destruct ts; by eexists _, _. }
    pose proof (scan_items_join (t :: ts) (v :: vs') fuel r Hts) as Hsc.
    rewrite Ea in *. cbn [app] in *. rewrite skip_head, decide_False by done.
    rewrite Hsc; [done|done|]. simpl in *. lia.
Qed.

Lemma dict_set_new k v d ks :
  str_keys d = Some ks → k ∉ ks → dict_set k v d = d ++ [(OStr k, v)].
Proof.
  revert ks. induction d as [|[[] x] d IH]; intros ks; simpl; try done.
  intros (ks' & Hks & ->)%fmap_Some_1 Hk. apply not_elem_of_cons in Hk as [Hne Hk].
  rewrite decide_False by done. f_equal. by eapply IH.
Qed.

Lemma dict_of_pairs_NoDup ps :
  NoDup ps.*1 → dict_of_pairs ps = map (λ p, (OStr p.1, p.2)) ps ∧
  str_keys (dict_of_pairs ps) = Some ps.*1.
Proof.
  induction ps as [|[k v] ps IH] using rev_ind; intros Hnd; [done|].
  rewrite fmap_app in Hnd. apply NoDup_app in Hnd as (Hnd & Hk & _). destruct (IH Hnd) as [E1 E2].
  unfold dict_of_pairs in *. rewrite foldl_snoc. simpl.
  rewrite (dict_set_new k v _ ps.*1) by (done || intros Hin; apply (Hk k Hin); by left).
  rewrite E1, map_app. split; [done|]. rewrite E1 in E2. rewrite fmap_app. clear -E2.
  revert E2. generalize (ps.*1). induction ps as [|[k' v'] ps IH]; intros ks; simpl.
  - by intros [= <-].
  - intros (ks' & Hks & ->)%fmap_Some_1. by rewrite (IH ks' Hks).
Qed.

Lemma dumps_pairs d : ∀ ks,
  Forall (λ p, jsonable p.2 = true → ∃ t, json_dumps private p.2 = Ok t ∧ reads t (json_norm private p.2)) d →
  forallb (λ '(_, x), jsonable x) d = true → str_keys d = Some ks →
  ∃ ts ps, (fix pairs (d : list (obj * obj)) : exc (list str) :=
           match d with
           | [] => Ok []
           | (k, x) :: d =>
               let* kt := key_text k in
               let* t := json_dumps private x in
               rmap (cons (json_string kt ++ lit ": " ++ t)) (pairs d)
           end) d = Ok ts ∧ Forall2 reads_pair ts ps ∧ ps.*1 = ks ∧
    map (λ p, (OStr p.1, p.2)) ps = map (λ '(k, x), (k, json_norm private x)) d.
Proof.
  induction d as [|[k x] d IH]; intros ks Hd Hj Hk; [injection Hk as <-; by exists [], []|].
  apply Forall_cons in Hd as [Hx Hd]. simpl in Hj, Hx. apply andb_true_iff in Hj as [Hjx Hjd].
  destruct k as [| | | |k| | | | | |]; try done. simpl in Hk. apply fmap_Some_1 in Hk as (ks' & Hk & ->).
  destruct (Hx Hjx) as (t & Et & Ht). destruct (IH ks' Hd Hjd Hk) as (ts & ps & Ets & Hts & Eks & Em).
  exists ((json_string k ++ lit ": " ++ t) :: ts), ((k, json_norm private x) :: ps).
  cbn [key_text rbind]. rewrite Et. cbn [rbind]. rewrite Ets. split_and!; [done|..|].
  - constructor; [|done]. by exists t.
  - csimpl. by rewrite Eks.
  - simpl. by rewrite Em.
Qed.

(** An object *)
Lemma reads_object ts ps :
  Forall2 reads_pair ts ps → NoDup ps.*1 →
  reads (lit "{" ++ join (lit ", ") ts ++ lit "}") (ODict (map (λ p, (OStr p.1, p.2)) ps)).
Proof.
  intros Hts Hnd. split_and!.
  - by eexists _, _.
  - constructor; [done|]. apply Forall_app. split; [|by repeat constructor]. apply join_printable.
    clear -Hts. induction Hts as [|t p ts ps (u & -> & _ & [Hu _] & _) _ IH]; constructor; [|done].
    apply Forall_app. split; [apply json_string_printable|]. constructor; [done|]. by constructor.
  - rewrite app_assoc. change (lit "}") with ["}"%char]. by rewrite last_snoc.
  - intros fuel r Hf Hr. rewrite !length_app in Hf. change (length (lit "{")) with 1 in Hf.
    change (length (lit "}")) with 1 in Hf. destruct fuel as [|fuel]; [lia|]. change (lit "{") with ["{"%char]. change (lit "}") with ["}"%char].
    cbn [scan app]. rewrite !decide_False, decide_True by done. rewrite <-app_assoc. cbn [app].
    rewrite <-(proj1 (dict_of_pairs_NoDup ps Hnd)).
    destruct ts as [|t ts]; [by apply Forall2_nil_inv_l in Hts as ->|].
    pose proof Hts as Hts'. apply Forall2_cons_inv_l in Hts' as (p & ps' & Ht & _ & ->).
    apply reads_pair_starts in Ht as (a & u & -> & Hsp & _ & Hb).
    pose proof (scan_pairs_join ((a :: u) :: ts) (p :: ps') fuel r Hts) as Hsc.
    assert (∃ u', join (lit ", ") ((a :: u) :: ts) = a :: u') as (u' & Eu).
    { destruct ts; by eexists. }
    rewrite Eu in *. cbn [app] in *. rewrite skip_head, decide_False by done.
    rewrite Hsc; [done|done|]. simpl in *. lia.
Qed.

(** The text of a value, whatever follows it, is read back as the value. *)
Lemma json_dumps_reads v :
  jsonable v = true → ∃ t, json_dumps private v = Ok t ∧ reads t (json_norm private v).
Proof.
  induction v as [|b|z|f|s|l IH|l IH|l|d IH|v IH|i] using obj_nested_ind; intros Hj; try done.
  - exists (lit "null"). split; [done|]. by apply reads_word; [eexists _, _|split; [repeat constructor|]| |].
  - eexists. split; [done|]. destruct b; by apply reads_word; [eexists _, _|split; [repeat constructor|]| |].
  - eexists. split; [done|]. apply reads_int.
  - eexists. split; [done|]. apply reads_string.
  - destruct (dumps_items l IH Hj) as (ts & Ets & Hts). eexists. split; [cbn [json_dumps]; by rewrite Ets|].
    by apply reads_array.
  - destruct (dumps_items l IH Hj) as (ts & Ets & Hts). eexists. split; [cbn [json_dumps]; by rewrite Ets|].
    by apply reads_array.
  - simpl in Hj. apply andb_true_iff in Hj as [Hj Hk]. destruct (str_keys d) as [ks|] eqn:Ek; [|done].
    apply bool_decide_eq_true in Hk. destruct (dumps_pairs d ks IH Hj Ek) as (ts & ps & Ets & Hts & <- & Em).
    eexists. split; [cbn [json_dumps]; by rewrite Ets|]. simpl. rewrite <-Em. by apply reads_object.
  - simpl. destruct private; [by apply IH|]. exists (lit "null"). split; [done|].
    by apply reads_word; [eexists _, _|split; [repeat constructor|]| |].
Qed.

Lemma json_loads_text t v r :
  reads t v → skip_ws r = [] → ends r → json_loads (t ++ r) = Ok v.
Proof.
  intros (Hs & _ & Ht) Hr He. unfold json_loads. rewrite skip_starts by done.
  rewrite Ht; [|rewrite length_app; lia|done]. simpl. by rewrite Hr.
Qed.
End roundtrip.
