(* ===== verification/Serializer.v ===== *)
(** * Serialisation (src/lib/serializer.py, src/lib/utils/hash.py)

    JSON texts with and without private values, the wrapping of private
    parameters on loading, and signed messages.  The HMAC function is a
    parameter. *)

From S2P Require Import Prelude Errors PySort PyStr PyVal Json.
#[local] Open Scope list_scope.
#[local] Open Scope stdpp_scope.
#[local] Open Scope py_scope.

(** ** Private values *)

(** [PrivateDict.__setitem__]; its test whether the key is a dictionary never
    holds. *)
Definition make_private (v : obj) : obj :=
  match v with OPrivate _ => v | _ => OPrivate v end.

(** [d[k] = v] *)
Fixpoint dict_put (k v : obj) (d : list (obj * obj)) : list (obj * obj) :=
  match d with
  | [] => [(k, v)]
  | (k', v') :: d => if py_eq k' k then (k', v) :: d else (k', v') :: dict_put k v d
  end.

(** [PrivateDict(data)], for data as JSON has it: a dictionary, nothing, or a
    list of pairs. *)
Fixpoint private_pairs (l : list obj) (d : list (obj * obj)) : exc (list (obj * obj)) :=
  match l with
  | [] => Ok d
  | p :: l =>
      let* '(k, v) := unpack2 p in
      if hashes k then private_pairs l (dict_put k (make_private v) d) else Raise Type_error
  end.

Definition PrivateDict (data : obj) : exc obj :=
  match data with
  | ONone => Ok (ODict [])
  | ODict d => Ok (ODict (map (λ '(k, v), (k, make_private v)) d))
  | OList l => rmap ODict (private_pairs l [])
  | OStr [] => Ok (ODict [])
  | OStr _ => Raise Value_error
  | _ => Raise Type_error
  end.

(** [GetPrivate] with one and with two arguments, and [Unprivate] *)
Definition GetPrivate (d : list (obj * obj)) (key : obj) : exc obj :=
  match dict_get d key with
  | Some (OPrivate v) => Ok v
  | Some _ => Raise (PyExn AttributeError "Get")
  | None => Raise (PyExn KeyError "")
  end.

Definition Unprivate (d : list (obj * obj)) : exc (list (obj * obj)) :=
  rmapM (λ '(k, v), match v with
                    | OPrivate v => Ok (k, v)
                    | _ => Raise (PyExn AttributeError "Get")
                    end) d.

Definition PRIVATE_PARAMETERS_BLACKLIST : list str :=
  [lit "osparams_private"; lit "osparams_secret"; lit "osparams_private_cluster"].

Definition is_cluster (field : str) : bool :=
  bool_decide (drop (length field - 8) field = lit "_cluster").

(** A member with private parameters *)
Definition wrap_field (field : str) (value : obj) : exc obj :=
  if is_cluster field then
    match value with
    | ONone => Ok ONone
    | ODict d => rmap ODict (rmapM (λ '(os, v), rmap (pair os) (PrivateDict v)) d)
    | OList [] | OStr [] => Ok value
    | _ => Raise Type_error
    end
  else PrivateDict value.

(** [WrapPrivateValues]; which of several errors comes first is not told. *)
Fixpoint WrapPrivateValues (v : obj) : exc obj :=
  match v with
  | OList l =>
      rmap OList ((fix items (l : list obj) : exc (list obj) :=
        match l with
        | [] => Ok []
        | x :: l => let* y := WrapPrivateValues x in rmap (cons y) (items l)
        end) l)
  | ODict d =>
      rmap ODict ((fix members (d : list (obj * obj)) : exc (list (obj * obj)) :=
        match d with
        | [] => Ok []
        | (k, x) :: d =>
            let* y := match k with
                      | OStr field =>
                          if bool_decide (field ∈ PRIVATE_PARAMETERS_BLACKLIST)
                          then wrap_field field x else WrapPrivateValues x
                      | _ => WrapPrivateValues x
                      end in
            rmap (cons (k, y)) (members d)
        end) d)
  | _ => Ok v
  end.

(** ** Texts *)

Definition is_blank (a : ascii) : bool := char_in [" "%char; "009"%char] a.

(** [_RE_EOLSP.sub]: spaces and tabs at the ends of lines *)
Definition strip_lines (s : str) : str :=
  join [newline] (map (rstrip is_blank) (split newline s)).

Section texts.
  Context `{FloatText}.

(** The result is ASCII, so encoding it changes nothing. *)
Definition DumpJson (private : bool) (data : obj) : exc str :=
  let* encoded := json_dumps private data in
  let txt := strip_lines encoded in
  Ok (if ends_with newline txt then txt else txt ++ [newline]).

Definition LoadJson (data : str) : exc obj :=
  let* values := json_loads data in
  WrapPrivateValues values.

(** [LoadAndVerifyJson] *)
Definition LoadAndVerifyJson (raw : str) (verify_fn : obj → exc bool) : exc obj :=
  match LoadJson raw with
  | Raise _ => Raise (GntExn ParseError [])
  | Ok data =>
      let* ok := verify_fn data in
      if ok : bool then Ok data else Raise (GntExn ParseError [])
  end.

(** ** Signed messages *)

Section signed.
  (** The hexadecimal HMAC-SHA1 digest of a message under a key *)
  Context (hmac_sha1 : str → str → str).

Definition Sha1Hmac (key msg salt : str) : str := hmac_sha1 key (salt ++ msg).

Definition VerifySha1Hmac (key text digest salt : str) : bool :=
  bool_decide (lower digest = lower (Sha1Hmac key text salt)).

(** An empty [key_selector] is none. *)
Definition DumpSignedJson (data : obj) (key salt key_selector : str) (private : bool) : exc str :=
  let* txt := DumpJson private data in
  let signed := [(str_obj "msg", OStr txt); (str_obj "salt", OStr salt)] in
  let signed := match key_selector with
                | [] => signed
                | _ => signed ++ [(str_obj "key_selector", OStr key_selector)]
                end in
  DumpJson false
    (ODict (signed ++ [(str_obj "hmac", OStr (Sha1Hmac key txt (salt ++ key_selector)))])).

Definition Signature_error : exn := GntExn SignatureError [].

(** The argument [key]: the key, or a function from selectors to keys *)
Inductive key_arg := Key (k : str) | KeyFn (f : obj → option str).

(** The HMAC key and the selector that is signed *)
Definition select_key (key : key_arg) (d : list (obj * obj)) : exc (str * obj) :=
  match key with
  | Key k => Ok (k, OStr [])
  | KeyFn f =>
      let sel := default ONone (dict_get d (str_obj "key_selector")) in
      match f sel with
      | None | Some [] => Raise Signature_error
      | Some k => Ok (k, sel)
      end
  end.

(** The check of the signature and the loading of the message; a message [None]
    is signed as an empty one, but cannot be loaded. *)
Definition check_signed (key : str) (salt sel sign msg : obj) : exc (obj * obj) :=
  match salt, sel with
  | OStr salt, OStr sel =>
      match sign with
      | OStr sign =>
          match msg with
          | OStr msg =>
              if VerifySha1Hmac key msg sign (salt ++ sel)
              then let* data := LoadJson msg in Ok (data, OStr salt)
              else Raise Signature_error
          | ONone =>
              if bool_decide (salt ++ sel = []) && negb (VerifySha1Hmac key [] sign [])
              then Raise Signature_error else Raise Type_error
          | _ => Raise Type_error
          end
      | _ => Raise (PyExn AttributeError "lower")
      end
  | _, _ => Raise Type_error
  end.

Definition LoadSignedJson (txt : str) (key : key_arg) : exc (obj * obj) :=
  let* signed := LoadJson txt in
  let* signed := WrapPrivateValues signed in
  match signed with
  | ODict d =>
      match dict_get d (str_obj "msg"), dict_get d (str_obj "salt"), dict_get d (str_obj "hmac") with
      | Some msg, Some salt, Some hmac_sign =>
          let* '(hmac_key, key_selector) := select_key key d in
          check_signed hmac_key salt key_selector hmac_sign msg
      | _, _, _ => Raise Signature_error
      end
  | _ => Raise Signature_error
  end.
End signed.
End texts.

(** ** What the texts are *)

Lemma strip_lines_printable t :
  Forall (λ a, printable a = true) t → last t ≠ Some " "%char → strip_lines t = t.
Proof.
  intros Ht Hl.
  assert (newline ∉ t) as Hn.
  { intros Hin. rewrite Forall_forall in Ht. by apply Ht in Hin. }
  assert (split newline t = [t]) as E.
  { pose proof (split_no_sep newline t [] Hn) as E. rewrite app_nil_r in E. rewrite E. simpl.
    by rewrite app_nil_r. }
  unfold strip_lines. rewrite E. simpl. unfold rstrip.
  destruct t as [|a t _] using rev_ind; [done|].
  rewrite reverse_snoc. rewrite last_snoc in Hl. simpl.
  assert (is_blank a = false) as ->.
  { apply Forall_app in Ht as [_ Ht]. apply Forall_cons in Ht as [Ha _].
    unfold is_blank, char_in. apply bool_decide_eq_false. intros Hin. apply list_elem_of_In in Hin.
    simpl in Hin. destruct Hin as [<-|[<-|[]]]; done. }
  by rewrite reverse_cons, reverse_involutive.
Qed.

Section theorems.
  Context `{FloatText}.

Lemma DumpJson_text private v :
  jsonable v = true →
  ∃ t, DumpJson private v = Ok (t ++ [newline]) ∧ reads t (json_norm private v).
Proof.
  intros Hj. destruct (json_dumps_reads private v Hj) as (t & Et & Ht). exists t. split; [|done].
  destruct Ht as (_ & [Hp Hl] & _). unfold DumpJson. rewrite Et. simpl.
  rewrite strip_lines_printable by done. unfold ends_with. rewrite bool_decide_false; [done|].
  intros E. apply last_Some in E as (u & ->). apply Forall_app in Hp as [_ Hp].
  by apply Forall_cons in Hp as [? _].
Qed.

Lemma LoadJson_text private v t :
  reads t (json_norm private v) → LoadJson (t ++ [newline]) = WrapPrivateValues (json_norm private v).
Proof. intros Ht. unfold LoadJson. by rewrite (json_loads_text t (json_norm private v)). Qed.

(** Round trip.  Every value that JSON can represent has a text: one line of
    printable ASCII.  Loading it gives the value back, with tuples as lists,
    private values kept or replaced by [None] as asked for, and private
    parameters wrapped. *)
Theorem LoadJson_DumpJson (private : bool) (v : obj) :
  jsonable v = true →
  ∃ t, DumpJson private v = Ok (t ++ [newline]) ∧ Forall (λ a, printable a = true) t ∧
    LoadJson (t ++ [newline]) = WrapPrivateValues (json_norm private v).
Proof.
  intros Hj. destruct (DumpJson_text private v Hj) as (t & Et & Ht). exists t.
  split; [done|]. split; [apply Ht|]. by apply LoadJson_text.
Qed.

(** ** Private parameters do not get out *)

(** The members of a private dictionary, without their values *)
Definition erase_dict (v : obj) : obj :=
  match PrivateDict v with
  | Ok (ODict d) => ODict (map (λ '(k, _), (k, ONone)) d)
  | _ => v
  end.

Definition erase_field (field : str) (value : obj) : obj :=
  if is_cluster field then
    match value with
    | ODict d => ODict (map (λ '(os, v), (os, erase_dict v)) d)
    | _ => value
    end
  else erase_dict value.

(** A JSON value with all private parameters erased *)
Fixpoint erase (v : obj) : obj :=
  match v with
  | OList l => OList (map erase l)
  | ODict d =>
      ODict (map (λ '(k, x), (k, match k with
                                 | OStr field =>
                                     if bool_decide (field ∈ PRIVATE_PARAMETERS_BLACKLIST)
                                     then erase_field field x else erase x
                                 | _ => erase x
                                 end)) d)
  | _ => v
  end.

Lemma dumps_list_ext b l l' :
  Forall2 (λ x y, json_dumps b x = json_dumps b y) l l' →
  json_dumps b (OList l) = json_dumps b (OList l').
Proof.
  intros Hl. cbn [json_dumps]. f_equal. induction Hl as [|x y l l' Hx Hl IH]; [done|].
  by rewrite Hx, IH.
Qed.

Lemma dumps_dict_ext b d d' :
  Forall2 (λ p q, p.1 = q.1 ∧ json_dumps b p.2 = json_dumps b q.2) d d' →
  json_dumps b (ODict d) = json_dumps b (ODict d').
Proof.
  intros Hd. cbn [json_dumps]. f_equal.
  induction Hd as [|[k x] [k' y] d d' [Hk Hx] Hd IH]; [done|]. simpl in Hk, Hx. subst k'.
  by rewrite Hx, IH.
Qed.

(** Every value of a private dictionary is private. *)
Lemma private_pairs_private l : ∀ d d',
  Forall (λ p, ∃ v, p.2 = OPrivate v) d → private_pairs l d = Ok d' →
  Forall (λ p, ∃ v, p.2 = OPrivate v) d'.
Proof.
  assert (∀ v, ∃ u, make_private v = OPrivate u) as Hmk by (intros []; simpl; eauto).
  induction l as [|p l IH]; intros d d' Hd; simpl; [by intros [= <-]|].
  intros ((k & v) & _ & Hl)%rbind_Ok. destruct (hashes k); [|done]. eapply IH; [|exact Hl].
  clear -Hd Hmk. induction Hd as [|[k' v'] d Hp Hd IH]; simpl; [constructor; [apply Hmk|done]|].
  destruct (py_eq k' k); constructor; [apply Hmk|done..].
Qed.

Lemma PrivateDict_private v d :
  PrivateDict v = Ok (ODict d) → Forall (λ p, ∃ u, p.2 = OPrivate u) d.
Proof.
  assert (∀ v, ∃ u, make_private v = OPrivate u) as Hmk by (intros []; simpl; eauto).
  destruct v as [| | | |s|l| | |d0| |]; simpl; try done.
  - intros [= <-]. constructor.
  - destruct s; [|done]. intros [= <-]. constructor.
  - intros (d' & Hd & [= ->])%rmap_Ok. by eapply private_pairs_private.
  - intros [= <-]. induction d0 as [|[k x] d0 IH]; constructor; [apply Hmk|done].
Qed.

Lemma PrivateDict_dict v w : PrivateDict v = Ok w → ∃ d, w = ODict d.
Proof.
  destruct v as [| | | |s|l| | |d0| |]; simpl; try done; [eauto with f_equal|..].
  - intros [= <-]. eauto.
  - destruct s; [|done]. intros [= <-]. eauto.
  - intros (d' & _ & <-)%rmap_Ok. eauto.
  - intros [= <-]. eauto.
Qed.

Lemma dumps_erase_dict v w :
  PrivateDict v = Ok w → json_dumps false w = json_dumps false (erase_dict v).
Proof.
  intros Hw. destruct (PrivateDict_dict v w Hw) as (d & ->). unfold erase_dict. rewrite Hw.
  pose proof (PrivateDict_private v d Hw) as Hd. apply dumps_dict_ext. clear Hw.
  induction Hd as [|[k x] d (u & Hu) Hd IH]; constructor; [|done]. simpl in *. by subst.
Qed.

Lemma dumps_erase_field field v w :
  wrap_field field v = Ok w → json_dumps false w = json_dumps false (erase_field field v).
Proof.
  unfold wrap_field, erase_field. destruct (is_cluster field); [|apply dumps_erase_dict].
  destruct v as [| | | |[]|[]| | |d| |]; try done; try by intros [= <-].
  intros (d' & Hd & <-)%rmap_Ok. apply dumps_dict_ext. apply rmapM_Ok in Hd.
  induction Hd as [|[os x] p d d' Hp Hd IH]; [constructor|]. constructor; [|done].
  apply rmap_Ok in Hp as (y & Hy & <-). simpl. split; [done|]. by apply dumps_erase_dict.
Qed.

(** The text of a loaded value is that of the value with all private parameters
    erased. *)
Lemma dumps_erase v : ∀ w,
  WrapPrivateValues v = Ok w → json_dumps false w = json_dumps false (erase v).
Proof.
  induction v as [|b|z|f|s|l IH|l IH|l|d IH|v IH|i] using obj_nested_ind; intros w; try by intros [= <-].
  - cbn [WrapPrivateValues erase]. intros (l' & Hl & <-)%rmap_Ok. apply dumps_list_ext.
    revert l' Hl. induction IH as [|x l Hx Hl IH]; intros l'; [intros [= <-]; constructor|].
    intros (y & Hy & (l'' & Hl'' & <-)%rmap_Ok)%rbind_Ok. constructor; [by apply Hx|by apply IH].
  - cbn [WrapPrivateValues erase]. intros (d' & Hd & <-)%rmap_Ok. apply dumps_dict_ext.
    revert d' Hd. induction IH as [|[k x] d Hx Hd IH]; intros d'; [intros [= <-]; constructor|].
    intros (y & Hy & (d'' & Hd'' & <-)%rmap_Ok)%rbind_Ok. constructor; [|by apply IH].
    simpl in *. split; [done|]. destruct k; try by apply Hx.
    case_bool_decide; [by apply dumps_erase_field|by apply Hx].
Qed.

(** C34: confidentiality.  Two messages that differ in the values of private
    parameters only are, once loaded, written back to the same text (by the
    default encoder): nothing of a private parameter's value gets into it. *)
Theorem private_noninterference (v v' w w' : obj) :
  erase v = erase v' → WrapPrivateValues v = Ok w → WrapPrivateValues v' = Ok w' →
  DumpJson false w = DumpJson false w'.
Proof.
  intros He Hw Hw'. unfold DumpJson. by rewrite (dumps_erase v w Hw), (dumps_erase v' w' Hw'), He.
Qed.

(** ** Signed messages *)

Section signed_messages.
  Context (hmac_sha1 : str → str → str).

(** A dictionary of texts is read back as it is. *)
Lemma LoadJson_strings d :
  jsonable (ODict d) = true → WrapPrivateValues (json_norm false (ODict d)) = Ok (ODict d) →
  ∃ txt, DumpJson false (ODict d) = Ok txt ∧ LoadJson txt = Ok (ODict d).
Proof.
  intros Hj Hw. destruct (DumpJson_text false (ODict d) Hj) as (t & E & Ht).
  exists (t ++ [newline]). split; [done|]. by rewrite (LoadJson_text false (ODict d)).
Qed.

(** The key, or the key function, goes with a selector. *)
Definition selects (ka : key_arg) (key sel : str) : Prop :=
  match ka with
  | Key k => sel = [] ∧ k = key
  | KeyFn f => sel ≠ [] ∧ key ≠ [] ∧ f (OStr sel) = Some key
  end.

(** A message that was signed with the key is accepted, with its salt and
    the data as they were written. *)
Theorem LoadSignedJson_DumpSignedJson (data : obj) (key salt sel : str) (private : bool) (ka : key_arg) :
  jsonable data = true → selects ka key sel →
  ∃ txt, DumpSignedJson hmac_sha1 data key salt sel private = Ok txt ∧
    LoadSignedJson hmac_sha1 txt ka =
      (let* d := WrapPrivateValues (json_norm private data) in Ok (d, OStr salt)).
Proof.
  intros Hj Hsel. destruct (DumpJson_text private data Hj) as (t & E & Ht).
  unfold DumpSignedJson. rewrite E. cbn [rbind].
  match goal with |- context [DumpJson false (ODict ?d)] => set (signed := d) end.
  destruct (LoadJson_strings signed) as (txt & Etxt & Hl).
  { unfold signed. by destruct sel. }
  { unfold signed. by destruct sel. }
  exists txt. split; [done|]. unfold LoadSignedJson. rewrite Hl. cbn [rbind].
  assert (WrapPrivateValues (ODict signed) = Ok (ODict signed)) as -> by (unfold signed; by destruct sel).
  cbn [rbind]. unfold signed, selects in *.
  assert (∀ k : str, VerifySha1Hmac hmac_sha1 k (t ++ [newline])
    (Sha1Hmac hmac_sha1 k (t ++ [newline]) (salt ++ sel)) (salt ++ sel) = true) as Hv.
  { intros k. by apply bool_decide_eq_true. }
  assert (∀ k, check_signed hmac_sha1 k (OStr salt) (OStr sel)
    (OStr (Sha1Hmac hmac_sha1 k (t ++ [newline]) (salt ++ sel))) (OStr (t ++ [newline])) =
    (let* d := WrapPrivateValues (json_norm private data) in Ok (d, OStr salt))) as Hc.
  { intros k. unfold check_signed. rewrite Hv. by rewrite (LoadJson_text private data). }
  destruct ka as [k|f].
  - destruct Hsel as [-> ->]. apply Hc.
  - destruct Hsel as (Hne & Hk & Hf). destruct sel as [|c sel]; [done|].
    change (dict_get _ (str_obj "msg")) with (Some (OStr (t ++ [newline]))).
    change (dict_get _ (str_obj "salt")) with (Some (OStr salt)).
    change (dict_get _ (str_obj "hmac")) with
      (Some (OStr (Sha1Hmac hmac_sha1 key (t ++ [newline]) (salt ++ c :: sel)))).
    unfold select_key. change (dict_get _ (str_obj "key_selector")) with (Some (OStr (c :: sel))).
    cbn [default from_option id]. rewrite Hf. destruct key as [|c' key]; [done|]. apply Hc.
Qed.

(** The key that is used and the selector that is signed: a plain key goes with no
    selector; a key function is asked with the selector of the message and must know
    a key that is not empty. *)
Definition keyed (ka : key_arg) (d : list (obj * obj)) (key sel : str) : Prop :=
  match ka with
  | Key k => key = k ∧ sel = []
  | KeyFn f => dict_get d (str_obj "key_selector") = Some (OStr sel) ∧ f (OStr sel) = Some key ∧ key ≠ []
  end.

Lemma select_key_keyed ka d key sel : select_key ka d = Ok (key, OStr sel) ↔ keyed ka d key sel.
Proof.
  unfold select_key, keyed. destruct ka as [k|f]; [naive_solver|]. split.
  - destruct (dict_get d (str_obj "key_selector")) as [o|]; cbn [default from_option id];
      destruct (f _) as [[|c k]|] eqn:Ef; try done; intros [= <- Ho]; subst o. by split_and!.
  - intros (-> & Hf & Hk). cbn [default from_option id]. rewrite Hf. by destruct key.
Qed.

Lemma check_signed_Ok key salt sel sign msg data s :
  check_signed hmac_sha1 key salt sel sign msg = Ok (data, s) ↔
  ∃ salt' sel' sign' msg', salt = OStr salt' ∧ sel = OStr sel' ∧ sign = OStr sign' ∧ msg = OStr msg' ∧ s = OStr salt' ∧
    lower sign' = lower (hmac_sha1 key (salt' ++ sel' ++ msg')) ∧ LoadJson msg' = Ok data.
Proof.
  unfold check_signed. split.
  - destruct salt as [| | | |salt'| | | | | |]; try done. destruct sel as [| | | |sel'| | | | | |]; try done.
    destruct sign as [| | | |sign'| | | | | |]; try done.
    destruct msg as [| | | |msg'| | | | | |]; try done; [by destruct (bool_decide _ && _)|].
    destruct (VerifySha1Hmac _ _ _ _ _) eqn:Ev; [|done]. apply bool_decide_eq_true in Ev.
    intros (data' & Hd & [= <- <-])%rbind_Ok. exists salt', sel', sign', msg'. split_and!; try done.
    rewrite Ev. unfold Sha1Hmac. by rewrite app_assoc.
  - intros (salt' & sel' & sign' & msg' & -> & -> & -> & -> & -> & Hs & Hl).
    unfold VerifySha1Hmac, Sha1Hmac. rewrite bool_decide_eq_true_2 by (by rewrite <-app_assoc). by rewrite Hl.
Qed.

(** C33: authenticity.  A message is accepted exactly if it is a dictionary with the
    texts [msg], [salt] and [hmac], the latter being, but for the case of letters, the
    HMAC of salt, selector and [msg] under the key that is asked for; what is
    returned is the value of the very text that was signed, and the salt. *)
Theorem LoadSignedJson_authentic (txt : str) (ka : key_arg) (data s : obj) :
  LoadSignedJson hmac_sha1 txt ka = Ok (data, s) ↔
  ∃ v d key sel salt msg sign,
    LoadJson txt = Ok v ∧ WrapPrivateValues v = Ok (ODict d) ∧
    dict_get d (str_obj "msg") = Some (OStr msg) ∧ dict_get d (str_obj "salt") = Some (OStr salt) ∧
    dict_get d (str_obj "hmac") = Some (OStr sign) ∧ keyed ka d key sel ∧
    lower sign = lower (hmac_sha1 key (salt ++ sel ++ msg)) ∧ LoadJson msg = Ok data ∧ s = OStr salt.
Proof.
  unfold LoadSignedJson. split.
  - intros (v & Hv & (w & Hw & Hr)%rbind_Ok)%rbind_Ok. destruct w; try done.
    destruct (dict_get d (str_obj "msg")) as [msg|] eqn:Em; [|done].
    destruct (dict_get d (str_obj "salt")) as [salt|] eqn:Es; [|done].
    destruct (dict_get d (str_obj "hmac")) as [sign|] eqn:Eh; [|done].
    apply rbind_Ok in Hr as ([key sel] & Hk & (salt' & sel' & sign' & msg' & -> & -> & -> & -> & -> & Hs & Hl)%check_signed_Ok).
    apply select_key_keyed in Hk. exists v, d, key, sel', salt', msg', sign'. by split_and!.
  - intros (v & d & key & sel & salt & msg & sign & -> & Hw & Hm & Hsa & Hh & Hk%select_key_keyed & Hs & Hl & ->).
    cbn [rbind]. rewrite Hw. cbn [rbind]. rewrite Hm, Hsa, Hh, Hk. cbn [rbind]. apply check_signed_Ok.
    by exists salt, sel, sign, msg.
Qed.
End signed_messages.
End theorems.

(** ** Examples *)

Module SerializerDemo.

#[local] Instance no_floats : FloatText := {| float_repr _ := lit "0.0"; float_parse _ := Raise Value_error |}.

(** A digest that only tells the lengths *)
Definition toy_hmac (key msg : str) : str := str_of_Z (Z.of_nat (length key)) ++ lit "x" ++ str_of_Z (Z.of_nat (length msg)).

Definition opcode (secret : string) : obj :=
  ODict [(str_obj "OP_ID", str_obj "OP_INSTANCE_CREATE");
         (str_obj "osparams_private", ODict [(str_obj "password", str_obj secret)])].

Lemma LoadJson_DumpJson_witness :
  ∃ t, DumpJson true (OTuple [OInt (-5); str_obj "a/b"; OPrivate (OBool true)]) = Ok (t ++ [newline]) ∧
    Forall (λ a, printable a = true) t ∧
    LoadJson (t ++ [newline]) = Ok (OList [OInt (-5); str_obj "a/b"; OBool true]).
Proof. apply (LoadJson_DumpJson true (OTuple [OInt (-5); str_obj "a/b"; OPrivate (OBool true)])). reflexivity. Defined.

Lemma private_noninterference_witness :
  DumpJson false (ODict [(str_obj "OP_ID", str_obj "OP_INSTANCE_CREATE");
     (str_obj "osparams_private", ODict [(str_obj "password", OPrivate (str_obj "rabbit"))])]) =
  DumpJson false (ODict [(str_obj "OP_ID", str_obj "OP_INSTANCE_CREATE");
     (str_obj "osparams_private", ODict [(str_obj "password", OPrivate (str_obj "fox"))])]).
Proof. apply (private_noninterference (opcode "rabbit") (opcode "fox")); reflexivity. Defined.

Lemma LoadSignedJson_DumpSignedJson_witness :
  ∃ txt, DumpSignedJson toy_hmac (OList [OInt 3]) (lit "key") (lit "salt") (lit "sel") false = Ok txt ∧
    LoadSignedJson toy_hmac txt (KeyFn (λ _, Some (lit "key"))) = Ok (OList [OInt 3], str_obj "salt").
Proof.
  apply (LoadSignedJson_DumpSignedJson toy_hmac (OList [OInt 3]) (lit "key") (lit "salt") (lit "sel") false
           (KeyFn (λ _, Some (lit "key")))); [reflexivity|]. by split_and!.
Defined.

Definition signed_text : str :=
  match DumpSignedJson toy_hmac (OList [OInt 3]) (lit "key") (lit "salt") [] false with
  | Ok t => t
  | Raise _ => []
  end.

(** A message with another digest is not accepted. *)
Lemma LoadSignedJson_authentic_witness :
  LoadSignedJson toy_hmac signed_text (Key (lit "key")) = Ok (OList [OInt 3], str_obj "salt") ∧
  ∀ data s, LoadSignedJson toy_hmac signed_text (Key (lit "another key")) ≠ Ok (data, s).
Proof.
  split; [by vm_compute|]. intros data s (v & d & key & sel & salt & msg & sign & Hv & Hw & Hm & Hsa & Hh & [-> ->] & Hs & _)
    %(LoadSignedJson_authentic toy_hmac).
  vm_compute in Hv. injection Hv as <-. vm_compute in Hw. injection Hw as <-.
  vm_compute in Hm, Hsa, Hh. injection Hm as <-. injection Hsa as <-. injection Hh as <-. by vm_compute in Hs.
Defined.
End SerializerDemo.
