(* ===== verification/Rpc.v ===== *)
(** * RPC messages and their transport (src/lib/rpc/transport.py,
      src/lib/rpc/client.py, src/lib/rpc/errors.py)

    [Transport] cuts the bytes of a socket into messages; [CallRPCMethod] sends a
    request over a transport and reads the response.  What the socket gives to
    successive calls of [recv] is a list, with the time each takes.  Texts are
    their UTF-8 encodings. *)

From Stdlib Require Import QArith.
From S2P Require Import Prelude Errors PySort PyStr PyVal Json Serializer.
#[local] Open Scope list_scope.
#[local] Open Scope stdpp_scope.
#[local] Open Scope nat_scope.
#[local] Open Scope py_scope.

(** The classes of rpc/errors.py, an error of the server that is raised again,
    and other exceptions *)
Inductive rpc_error :=
| ProtocolError
| ConnectionClosedError
| TimeoutError
| RequestError (result : obj)
| LuxiVersionError
| Remote (c : error_class) (args : list obj)
| Other (e : exn).

Notation rpc := (result rpc_error).

Definition LUXI_EOM : ascii := "003"%char.

(** ** UTF-8 *)

(** The continuation bytes after a first byte, and the range of the first of
    them *)
Definition utf8_class (a : ascii) : option (nat * nat * nat) :=
  let c := code a in
  if c <? 128 then Some (0, 0, 0)
  else if (194 <=? c) && (c <=? 223) then Some (1, 128, 191)
  else if c =? 224 then Some (2, 160, 191)
  else if c =? 237 then Some (2, 128, 159)
  else if (225 <=? c) && (c <=? 239) then Some (2, 128, 191)
  else if c =? 240 then Some (3, 144, 191)
  else if (241 <=? c) && (c <=? 243) then Some (3, 128, 191)
  else if c =? 244 then Some (3, 128, 143)
  else None.

(** [n] continuation bytes are expected, the next one in the range. *)
Fixpoint utf8_from (n lo hi : nat) (s : str) : bool :=
  match s with
  | [] => n =? 0
  | a :: s =>
      match n with
      | O => match utf8_class a with
             | Some (n, lo, hi) => utf8_from n lo hi s
             | None => false
             end
      | S n => (lo <=? code a) && (code a <=? hi) && utf8_from n 128 191 s
      end
  end.

(** [data.decode("utf-8")] *)
Definition utf8_decode (s : str) : rpc str :=
  if utf8_from 0 0 0 s then Ok s else Raise (Other (PyExn ValueError "utf-8")).

(** ** Transport *)

(** What a call of [recv] gives; no data: the other side has closed. *)
Inductive received :=
| Data (s : str)
| RecvTimeout
| RecvAgain
| RecvError (e : exn).

Record transport := Transport {
  t_open : bool;
  t_buffer : str;
  t_msgs : list str;
  t_in : list (Q * received);
  t_sent : list ascii;
  t_now : Q
}.

Definition new_transport (input : list (Q * received)) (now : Q) : transport :=
  Transport true [] [] input [] now.

Definition CheckSocket (t : transport) : rpc unit :=
  if t_open t then Ok tt else Raise ProtocolError.

(** [send_ok]: [sendall] does not time out. *)
Definition Send (send_ok : bool) (msg : str) (t : transport) : rpc unit * transport :=
  if bool_decide (LUXI_EOM ∈ msg) then (Raise ProtocolError, t)
  else match CheckSocket t with
  | Raise e => (Raise e, t)
  | Ok _ =>
      if send_ok then
        (Ok tt, Transport (t_open t) (t_buffer t) (t_msgs t) (t_in t)
                  (t_sent t ++ msg ++ [LUXI_EOM]) (t_now t))
      else (Raise TimeoutError, t)
  end.

(** [_RecvBuffer] *)
Definition RecvBuffer (data : str) (buffer : str) (msgs : list str) : str * list str :=
  match split LUXI_EOM data with
  | [] => (buffer, msgs)
  | m :: ms =>
      let new_msgs := (buffer ++ m) :: ms in
      (default [] (last new_msgs), msgs ++ removelast new_msgs)
  end.

(** The loop of [Recv], over what the socket gives; when that is over the other
    side has closed.  [fresh]: the clock is looked at before the next [recv],
    which is not so after [EAGAIN]. *)
Fixpoint recv_loop (etime : Q) (fresh : bool) (input : list (Q * received)) (now : Q)
    (buffer : str) (msgs : list str) : rpc unit * (str * list str * list (Q * received) * Q) :=
  match msgs with
  | _ :: _ => (Ok tt, (buffer, msgs, input, now))
  | [] =>
      if fresh && negb (Qle_bool now etime)
      then (Raise TimeoutError, (buffer, msgs, input, now))
      else
        match input with
        | [] => (Raise ConnectionClosedError, (buffer, msgs, [], now))
        | (d, r) :: input =>
            let now := (now + d)%Q in
            match r with
            | RecvTimeout => (Raise TimeoutError, (buffer, msgs, input, now))
            | RecvAgain => recv_loop etime false input now buffer msgs
            | RecvError e => (Raise (Other e), (buffer, msgs, input, now))
            | Data [] => (Raise ConnectionClosedError, (buffer, msgs, input, now))
            | Data data =>
                let '(buffer, msgs) := RecvBuffer data buffer msgs in
                recv_loop etime true input now buffer msgs
            end
        end
  end.

Section transport.
  Context (rwtimeout : Q).

Definition Recv (t : transport) : rpc str * transport :=
  match CheckSocket t with
  | Raise e => (Raise e, t)
  | Ok _ =>
      let '(r, (buffer, msgs, input, now)) :=
        recv_loop (t_now t + rwtimeout) true (t_in t) (t_now t) (t_buffer t) (t_msgs t) in
      let t msgs := Transport (t_open t) buffer msgs input (t_sent t) now in
      match r, msgs with
      | Ok _, m :: msgs => (utf8_decode m, t msgs)
      | Ok _, [] => (Raise (Other (PyExn IndexError "pop from an empty deque")), t msgs)
      | Raise e, _ => (Raise e, t msgs)
      end
  end.

Definition Call (send_ok : bool) (msg : str) (t : transport) : rpc str * transport :=
  match Send send_ok msg t with
  | (Raise e, t) => (Raise e, t)
  | (Ok _, t) => Recv t
  end.

Definition CloseTransport (t : transport) : transport :=
  Transport false (t_buffer t) (t_msgs t) (t_in t) (t_sent t) (t_now t).
End transport.

(** [RetryOnNetworkError]: [fn] gets the number of the try; [on_error] is run
    after every exception.  Network errors are those of sockets and closed
    connections. *)
Definition is_network_error (e : rpc_error) : bool :=
  match e with
  | ConnectionClosedError | Other (PyExn EnvironmentError _) => true
  | _ => false
  end.

Fixpoint retry_from {W A} (fn : nat → W → rpc A * W) (on_error : W → W) (pause : nat → W → W)
    (try_no tries : nat) (w : W) : rpc A * W :=
  match tries with
  | O => (Raise (Other AssertionFailed), w)
  | S tries =>
      match fn try_no w with
      | (Ok a, w) => (Ok a, w)
      | (Raise e, w) =>
          let w := on_error w in
          if is_network_error e then
            match tries with
            | O => (Raise e, w)
            | _ => retry_from fn on_error pause (S try_no) tries (pause try_no w)
            end
          else (Raise e, w)
      end
  end.

Definition RetryOnNetworkError {W A} (fn : nat → W → rpc A * W) (on_error : W → W)
    (pause : nat → W → W) (retries : nat) : W → rpc A * W :=
  retry_from fn on_error pause 0 retries.

(** ** Requests and responses *)

Definition KEY_METHOD : obj := str_obj "method".
Definition KEY_ARGS : obj := str_obj "args".
Definition KEY_SUCCESS : obj := str_obj "success".
Definition KEY_RESULT : obj := str_obj "result".
Definition KEY_VERSION : obj := str_obj "version".

Definition is_none (v : obj) : bool := match v with ONone => true | _ => false end.

Definition lift {A} (r : exc A) : rpc A :=
  match r with Ok a => Ok a | Raise e => Raise (Other e) end.

Section messages.
  Context `{FloatText}.

Definition ParseRequest (msg : str) : rpc (obj * obj * obj) :=
  match LoadJson msg with
  | Raise (PyExn ValueError _) => Raise ProtocolError
  | Raise e => Raise (Other e)
  | Ok (ODict request) =>
      let get k := default ONone (dict_get request k) in
      if is_none (get KEY_METHOD) || is_none (get KEY_ARGS) then Raise ProtocolError
      else Ok (get KEY_METHOD, get KEY_ARGS, get KEY_VERSION)
  | Ok _ => Raise ProtocolError
  end.

Definition ParseResponse (msg : str) : rpc (obj * obj * obj) :=
  match LoadJson msg with
  | Ok (ODict data) =>
      match dict_get data KEY_SUCCESS, dict_get data KEY_RESULT with
      | Some success, Some result => Ok (success, result, default ONone (dict_get data KEY_VERSION))
      | _, _ => Raise ProtocolError
      end
  | _ => Raise ProtocolError
  end.

Definition with_version (version : obj) (d : list (obj * obj)) : obj :=
  ODict (if is_none version then d else d ++ [(KEY_VERSION, version)]).

Definition FormatResponse (success result version : obj) : exc str :=
  DumpJson false (with_version version [(KEY_SUCCESS, success); (KEY_RESULT, result)]).

Definition FormatRequest (method args version : obj) : exc str :=
  DumpJson true (with_version version [(KEY_METHOD, method); (KEY_ARGS, args)]).

(** [errors.MaybeRaise] on a value received *)
Definition seq_items (v : obj) : option (list obj) :=
  match v with OList l | OTuple l => Some l | _ => None end.

Definition error_class_named (name : obj) : exc (option error_class) :=
  match name with
  | OStr s => GetErrorClass (VStr (String.string_of_list_ascii s))
  | _ => if hashes name then Ok None else Raise Type_error
  end.

Definition MaybeRaise_obj (result : obj) : rpc unit :=
  match seq_items result with
  | Some [name; args] =>
      match seq_items args with
      | Some args =>
          let* c := lift (error_class_named name) in
          match c with
          | None => Ok tt
          | Some DeviceCreationError =>
              match args with
              | [_; _] => Raise (Remote DeviceCreationError [])
              | _ => Raise (Other Type_error)
              end
          | Some c => Raise (Remote c args)
          end
      | None => Ok tt
      end
  | _ => Ok tt
  end.

Definition CallRPCMethod {W} (transport_cb : str → W → rpc str * W) (method args version : obj) (w : W)
    : rpc obj * W :=
  match FormatRequest method args version with
  | Raise e => (Raise (Other e), w)
  | Ok request_msg =>
      match transport_cb request_msg w with
      | (Raise e, w) => (Raise e, w)
      | (Ok response_msg, w) =>
          match ParseResponse response_msg with
          | Raise e => (Raise e, w)
          | Ok (success, result, resp_version) =>
              if negb (is_none resp_version) && negb (py_eq resp_version version)
              then (Raise LuxiVersionError, w)
              else if py_truth success then (Ok result, w)
              else match MaybeRaise_obj result with
              | Raise e => (Raise e, w)
              | Ok _ => (Raise (RequestError result), w)
              end
          end
      end
  end.
End messages.
