(* ===== verification/RpcProps.v ===== *)
(** * RPC: messages arrive

    However the bytes of a stream are cut, [Recv] gives the messages in it; a
    call returns what the other side answered, or raises its error again. *)

From Stdlib Require Import QArith Lqa.
From S2P Require Import Prelude Errors PySort PyStr PyVal Json Serializer Rpc.
#[local] Open Scope list_scope.
#[local] Open Scope stdpp_scope.
#[local] Open Scope nat_scope.
#[local] Open Scope py_scope.

(** ** Splitting *)

Lemma split_last_no_sep sep s : sep ∉ default [] (last (split sep s)).
Proof.
  induction s as [|c s IH]; [simpl; set_solver|]. cbn [split]. case_decide as E.
  - destruct (split sep s) as [|w ws] eqn:Es; [by destruct (split_nonnil sep s)|].
    by rewrite last_cons_cons.
  - destruct (split sep s) as [|w [|w' ws]] eqn:Es; [by destruct (split_nonnil sep s)| |].
    + simpl in *. set_solver.
    + by rewrite !last_cons_cons in *.
Qed.

Lemma RecvBuffer_split data buffer msgs :
  LUXI_EOM ∉ buffer →
  RecvBuffer data buffer msgs =
  (default [] (last (split LUXI_EOM (buffer ++ data))),
   msgs ++ removelast (split LUXI_EOM (buffer ++ data))).
Proof.
  intros Hb. unfold RecvBuffer. rewrite split_no_sep by done.
  pose proof (split_nonnil LUXI_EOM data). by destruct (split LUXI_EOM data).
Qed.

(** ** A stream of messages *)

Section stream.
  Context (rwtimeout : Q).

(** The messages of a stream, and what comes after the last one. *)
Definition messages (s : str) : list str := removelast (split LUXI_EOM s).
Definition remainder (s : str) : str := default [] (last (split LUXI_EOM s)).

Definition data_in (chunks : list (Q * str)) : list (Q * received) :=
  (λ p, (p.1, Data p.2)) <$> chunks.

Definition total (chunks : list (Q * str)) : Q := foldr (λ p t, p.1 + t)%Q 0%Q chunks.

Definition arriving (chunks : list (Q * str)) : Prop :=
  Forall (λ p, (0 <= p.1)%Q ∧ p.2 ≠ []) chunks.

Lemma messages_app a b : messages (a ++ b) = messages a ++ messages (remainder a ++ b).
Proof.
  unfold messages, remainder. rewrite split_app, removelast_app; [done|]. apply split_nonnil.
Qed.

Lemma total_nonneg chunks : arriving chunks → (0 <= total chunks)%Q.
Proof.
  induction 1 as [|[d s] chunks [Hd _] _ IH]; simpl in *; [lra|].
  unfold total in *. simpl. lra.
Qed.

(** The loop reads until there is a message, or to the end. *)
Lemma recv_loop_stream etime chunks : ∀ now buffer,
  arriving chunks → LUXI_EOM ∉ buffer → (now + total chunks <= etime)%Q →
  ∃ chunks' now' buffer',
    (now <= now')%Q ∧ (now + total chunks == now' + total chunks')%Q ∧ arriving chunks' ∧ (LUXI_EOM ∉ buffer') ∧
    match messages (buffer ++ concat chunks.*2) with
    | [] => recv_loop etime true (data_in chunks) now buffer [] =
              (Raise ConnectionClosedError, (buffer', [], [], now')) ∧ chunks' = []
    | _ => ∃ msgs, msgs ≠ [] ∧
        messages (buffer ++ concat chunks.*2) = msgs ++ messages (buffer' ++ concat chunks'.*2) ∧
        recv_loop etime true (data_in chunks) now buffer [] = (Ok tt, (buffer', msgs, data_in chunks', now'))
    end.
Proof.
  induction chunks as [|[d s] chunks IH]; intros now buffer Hc Hb Ht.
  - exists [], now, buffer. split; [lra|]. split; [reflexivity|]. split; [constructor|]. split; [done|].
    simpl. rewrite app_nil_r. unfold messages.
    pose proof (split_no_sep LUXI_EOM buffer [] Hb) as E. rewrite app_nil_r in E. rewrite E. simpl.
    assert (Qle_bool now etime = true) as ->; [|done].
    apply Qle_bool_iff. simpl in Ht. lra.
  - apply Forall_cons in Hc as [[Hd Hs] Hc]. simpl in Hd, Hs. unfold total in Ht. simpl in Ht.
    fold (total chunks) in Ht. pose proof (total_nonneg chunks Hc) as Hn.
    csimpl. rewrite app_assoc, messages_app. unfold data_in. csimpl. cbn [recv_loop].
    assert (Qle_bool now etime = true) as -> by (apply Qle_bool_iff; lra). simpl.
    destruct s as [|a s]; [done|]. rewrite RecvBuffer_split by done. simpl.
    fold (messages (buffer ++ a :: s)). fold (remainder (buffer ++ a :: s)).
    destruct (messages (buffer ++ a :: s)) as [|m ms] eqn:Em.
    + destruct (IH (now + d)%Q (remainder (buffer ++ a :: s))) as (chunks' & now' & buffer' & H0 & H1 & H2 & H3 & H4);
        [done|apply split_last_no_sep|lra|].
      exists chunks', now', buffer'. split; [lra|]. split; [unfold total at 1; simpl; fold (total chunks); lra|].
      split; [done|]. split; [done|]. simpl. exact H4.
    + exists chunks, (now + d)%Q, (remainder (buffer ++ a :: s)). split; [lra|].
      split; [unfold total at 1; simpl; fold (total chunks); lra|]. split; [done|].
      split; [apply split_last_no_sep|]. simpl. exists (m :: ms). split; [done|]. split; [done|].
      by destruct chunks.
Qed.

(** Successive calls *)
Fixpoint recvs (n : nat) (t : transport) : list (rpc str) :=
  match n with
  | O => []
  | S n => let '(r, t) := Recv rwtimeout t in r :: recvs n t
  end.

(** The state in the middle of a stream *)
Definition streaming (chunks : list (Q * str)) (todo : list str) (t : transport) : Prop :=
  t_open t = true ∧ t_in t = data_in chunks ∧ arriving chunks ∧ (LUXI_EOM ∉ t_buffer t) ∧
  (total chunks <= rwtimeout)%Q ∧ todo = t_msgs t ++ messages (t_buffer t ++ concat chunks.*2).

Lemma Recv_streaming chunks todo t :
  streaming chunks todo t →
  match todo with
  | [] => (Recv rwtimeout t).1 = Raise ConnectionClosedError
  | m :: todo => ∃ chunks' t', Recv rwtimeout t = (utf8_decode m, t') ∧ streaming chunks' todo t' ∧
                               t_sent t' = t_sent t
  end.
Proof.
  intros (Ho & Hi & Hc & Hb & Ht & ->). unfold Recv, CheckSocket. rewrite Ho, Hi.
  destruct (t_msgs t) as [|m msgs] eqn:Em.
  - destruct (recv_loop_stream (t_now t + rwtimeout) chunks (t_now t) (t_buffer t))
      as (chunks' & now' & buffer' & H0 & H1 & H2 & H3 & H4); [done|done|lra|].
    simpl. destruct (messages (t_buffer t ++ concat chunks.*2)) as [|m ms].
    + destruct H4 as [-> _]. done.
    + destruct H4 as (msgs & Hne & E & ->). destruct msgs as [|m' msgs]; [done|].
      injection E as <- E. exists chunks'. eexists. split; [done|]. split; [|done].
      unfold streaming. simpl. split_and!; try done.
      lra.
  - assert (∀ b i n, recv_loop b true i n (t_buffer t) (m :: msgs) = (Ok tt, (t_buffer t, m :: msgs, i, n)))
      as E by (by destruct i).
    rewrite E. simpl. exists chunks. eexists. split; [done|]. split; [|done].
    unfold streaming. simpl. done.
Qed.

(** Framing.  However the bytes of a stream are cut into pieces, as long as
    they come within the time limit, successive calls of [Recv] return the
    messages of the stream, decoded, and then report that the connection is
    closed. *)
Theorem Recv_stream (chunks : list (Q * str)) (now : Q) :
  arriving chunks → (total chunks <= rwtimeout)%Q →
  let s := concat chunks.*2 in
  recvs (S (length (messages s))) (new_transport (data_in chunks) now) =
  (utf8_decode <$> messages s) ++ [Raise ConnectionClosedError].
Proof.
  intros Hc Ht. simpl.
  assert (streaming chunks (messages (concat chunks.*2)) (new_transport (data_in chunks) now)) as Hs.
  { unfold streaming. simpl. split_and!; try done. set_solver. }
  revert Hs. generalize (new_transport (data_in chunks) now). clear Hc Ht.
  generalize (messages (concat chunks.*2)) as todo. intros todo. revert chunks.
  induction todo as [|m todo IH]; intros chunks t Hs; apply Recv_streaming in Hs.
  - cbn [recvs length]. destruct (Recv rwtimeout t) as [r t']. simpl in *. by subst.
  - destruct Hs as (chunks' & t' & E & Hs & _). change (length (m :: todo)) with (S (length todo)).
    cbn [recvs]. rewrite E. csimpl. f_equal. by apply (IH chunks').
Qed.
End stream.

(** ** Calls *)

Lemma utf8_ascii s : Forall (λ a, code a < 128) s → utf8_decode s = Ok s.
Proof.
  intros Hs. unfold utf8_decode. enough (utf8_from 0 0 0 s = true) as ->; [done|].
  induction Hs as [|a s Ha Hs IH]; [done|]. simpl. unfold utf8_class.
  by rewrite (proj2 (Nat.ltb_lt _ _) Ha).
Qed.

(** A line of printable characters is a message. *)
Definition is_line (s : str) : Prop :=
  ∃ t, s = t ++ [newline] ∧ Forall (λ a, printable a = true) t.

Lemma line_chars s : is_line s → Forall (λ a, code a < 128 ∧ a ≠ LUXI_EOM) s.
Proof.
  intros (t & -> & Ht). apply Forall_app. split; [|by repeat constructor].
  eapply Forall_impl; [exact Ht|]. intros a Ha. split; [|by intros ->].
  unfold printable, between_chars in Ha. apply andb_true_iff in Ha as [_ Ha%Nat.leb_le].
  change (code "~") with 126 in Ha. lia.
Qed.

Lemma line_no_eom s : is_line s → LUXI_EOM ∉ s.
Proof. intros Hs Hin. apply line_chars in Hs. rewrite Forall_forall in Hs. by apply Hs in Hin as [_ ?]. Qed.

Lemma line_decode s : is_line s → utf8_decode s = Ok s.
Proof. intros Hs. apply utf8_ascii. eapply Forall_impl; [by apply line_chars|]. by intros a [? _]. Qed.

Lemma line_messages s : is_line s → messages (s ++ [LUXI_EOM]) = [s].
Proof.
  intros Hs. unfold messages. rewrite split_no_sep by (by apply line_no_eom). simpl. by rewrite app_nil_r.
Qed.

Lemma Call_line rwtimeout msg resp chunks now :
  is_line msg → is_line resp → arriving chunks → (total chunks <= rwtimeout)%Q →
  concat chunks.*2 = resp ++ [LUXI_EOM] →
  ∃ t, Call rwtimeout true msg (new_transport (data_in chunks) now) = (Ok resp, t) ∧
       t_sent t = msg ++ [LUXI_EOM].
Proof.
  intros Hm Hr Hc Ht Hs. unfold Call, Send. rewrite bool_decide_false by (by apply line_no_eom). simpl.
  match goal with |- context [Recv rwtimeout ?t] => destruct (Recv_streaming rwtimeout chunks [resp] t)
    as (chunks' & t' & E & _ & Hsent) end.
  - unfold streaming. simpl. split_and!; try done; [set_solver|]. by rewrite Hs, line_messages.
  - exists t'. rewrite E, line_decode by done. split; [done|]. by rewrite Hsent.
Qed.

Section calls.
  Context `{FloatText}.

Lemma DumpJson_line private v : jsonable v = true → ∃ s, DumpJson private v = Ok s ∧ is_line s ∧
  LoadJson s = WrapPrivateValues (json_norm private v).
Proof.
  intros Hj. destruct (DumpJson_text private v Hj) as (t & E & Ht). exists (t ++ [newline]).
  split; [done|]. split; [exists t; split; [done|]; apply Ht|]. by apply LoadJson_text.
Qed.

(** A version is a number or absent. *)
Definition is_version (v : obj) : Prop := v = ONone ∨ ∃ z, v = OInt z.

(** A result that names a Ganeti error and lists its arguments *)
Definition encodes (result : obj) (c : error_class) (a : list obj) : Prop :=
  issubclass c GenericError = true ∧
  ∃ args, seq_items result = Some [OStr (lit (class_name c)); args] ∧ seq_items args = Some a.

(** How the caller sees a response.  [DeviceCreationError] loses its arguments;
    a name that cannot be looked up is one that has no hash. *)
Definition answer (success : bool) (result : obj) (r : rpc obj) : Prop :=
  if success then r = Ok result
  else
    (∀ c a, encodes result c a → c ≠ DeviceCreationError → r = Raise (Remote c a)) ∧
    (∀ a, encodes result DeviceCreationError a →
       r = if length a =? 2 then Raise (Remote DeviceCreationError []) else Raise (Other Type_error)) ∧
    ((∀ c a, ¬ encodes result c a) →
       r = Raise (RequestError result) ∨
       r = Raise (Other Type_error) ∧
       ∃ name args, seq_items result = Some [name; args] ∧ is_Some (seq_items args) ∧ hashes name = false).

(** The class of a name *)
Lemma error_class_named_Some name c :
  error_class_named name = Ok (Some c) →
  name = OStr (lit (class_name c)) ∧ issubclass c GenericError = true.
Proof.
  unfold error_class_named, GetErrorClass. destruct name as [| | | |s| | | | | |]; try (by case_match). cbn [hashable].
  destruct (list_find (λ c, class_name c = String.string_of_list_ascii s) all_classes) as [[i c']|] eqn:Hf; [|done].
  apply list_find_Some in Hf as (_ & Hn & _). destruct (issubclass c' GenericError) eqn:Hc; [|done].
  intros [= <-]. split; [|done]. f_equal. unfold lit.
  by rewrite Hn, String.list_ascii_of_string_of_list_ascii.
Qed.

(** Errors of the server are raised again as they were, [DeviceCreationError]
    apart. *)
Lemma MaybeRaise_obj_encoded result c a :
  encodes result c a →
  MaybeRaise_obj result =
  if decide (c = DeviceCreationError)
  then (if length a =? 2 then Raise (Remote c []) else Raise (Other Type_error))
  else Raise (Remote c a).
Proof.
  intros (Hc & args & Hr & Ha). unfold MaybeRaise_obj. rewrite Hr, Ha. cbn [error_class_named].
  unfold lit. rewrite String.string_of_list_ascii_of_string, GetErrorClass_name, Hc. simpl.
  case_decide as Hd; [subst c|by destruct c].
  destruct a as [|x [|y [|z a]]]; done.
Qed.

Lemma MaybeRaise_obj_other result :
  (∀ c a, ¬ encodes result c a) →
  MaybeRaise_obj result = Ok tt ∨
  MaybeRaise_obj result = Raise (Other Type_error) ∧
  ∃ name args, seq_items result = Some [name; args] ∧ is_Some (seq_items args) ∧ hashes name = false.
Proof.
  intros Hne. unfold MaybeRaise_obj.
  destruct (seq_items result) as [[|name [|args [|]]]|] eqn:Hr; try by left.
  destruct (seq_items args) as [a|] eqn:Ha; [|by left].
  destruct (error_class_named name) as [[c|]|e] eqn:Hn; simpl.
  - apply error_class_named_Some in Hn as [-> Hc]. destruct (Hne c a). split; [done|]. by exists args.
  - by left.
  - right. unfold error_class_named in Hn.
    assert (hashes name = false ∧ e = Type_error) as [Hh ->].
    { destruct name; try (by destruct (hashes _); simplify_eq).
      unfold GetErrorClass in Hn. simpl in Hn. by repeat case_match. }
    split; [done|]. exists name, args. by rewrite Ha.
Qed.

Lemma answer_raised (success : bool) result :
  answer success result
    (if success then Ok result
     else match MaybeRaise_obj result with Raise e => Raise e | Ok _ => Raise (RequestError result) end).
Proof.
  destruct success; [done|]. split_and!.
  - intros c a He Hd. by rewrite (MaybeRaise_obj_encoded _ _ _ He), decide_False.
  - intros a He. rewrite (MaybeRaise_obj_encoded _ _ _ He), decide_True by done. by destruct (length a =? 2).
  - intros Hne. destruct (MaybeRaise_obj_other _ Hne) as [->|[-> ?]]; auto.
Qed.

Lemma request_line method args version args' :
  jsonable args = true → WrapPrivateValues (json_norm true args) = Ok args' → is_none args' = false →
  is_version version →
  ∃ req, FormatRequest (OStr method) args version = Ok req ∧ is_line req ∧
    ParseRequest req = Ok (OStr method, args', version).
Proof.
  intros Ha Hw Hn Hv. unfold FormatRequest, with_version.
  match goal with |- context [DumpJson true ?v] => destruct (DumpJson_line true v) as (req & E & Hl & Hload) end.
  { destruct Hv as [->|[z ->]]; simpl; by rewrite Ha. }
  exists req. split; [done|]. split; [done|]. unfold ParseRequest. rewrite Hload.
  destruct Hv as [->|[z ->]]; simpl; rewrite Hw; simpl; by rewrite Hn.
Qed.

Lemma response_line success result version result' :
  jsonable result = true → WrapPrivateValues (json_norm false result) = Ok result' →
  is_version version →
  ∃ resp, FormatResponse (OBool success) result version = Ok resp ∧ is_line resp ∧
    ParseResponse resp = Ok (OBool success, result', version).
Proof.
  intros Ha Hw Hv. unfold FormatResponse, with_version.
  match goal with |- context [DumpJson false ?v] => destruct (DumpJson_line false v) as (resp & E & Hl & Hload) end.
  { destruct Hv as [->|[z ->]]; simpl; by rewrite Ha. }
  exists resp. split; [done|]. split; [done|]. unfold ParseResponse. rewrite Hload.
  destruct Hv as [->|[z ->]]; simpl; by rewrite Hw.
Qed.

End calls.

(** ** Examples *)

Module RpcDemo.

#[local] Instance no_floats : FloatText := {| float_repr _ := lit "0.0"; float_parse _ := Raise Value_error |}.

Lemma Recv_stream_witness :
  recvs 10 3 (new_transport (data_in [(1%Q, lit "ab"); (2%Q, lit "c" ++ [LUXI_EOM] ++ lit "d");
                                       (0%Q, [LUXI_EOM] ++ lit "e")]) 0) =
  [Ok (lit "abc"); Ok (lit "d"); Raise ConnectionClosedError].
Proof.
  apply (Recv_stream 10 [(1%Q, lit "ab"); (2%Q, lit "c" ++ [LUXI_EOM] ++ lit "d");
                         (0%Q, [LUXI_EOM] ++ lit "e")] 0).
  - repeat constructor; done.
  - done.
Defined.

End RpcDemo.
