(* ===== verification/Paths.v ===== *)
(** * Paths (src/lib/utils/io.py, src/lib/vcluster.py)

    [IsNormAbsPath], [IsBelowDir], [PathJoin] and the paths of virtual clusters,
    over [os.path] of POSIX systems.  Shown: a joined path stays below its root;
    a path made virtual on one node is found again on another. *)

From S2P Require Import Prelude Errors PySort PyStr.
#[local] Open Scope list_scope.
#[local] Open Scope stdpp_scope.
#[local] Open Scope nat_scope.
#[local] Open Scope py_scope.

(** ** [os.path] *)

Definition sep : ascii := "/"%char.
Definition dot : str := lit ".".
Definition dotdot : str := lit "..".

Definition isabs (path : str) : bool := bool_decide (head path = Some sep).

(** [path.startswith(p)] *)
Definition starts_with (p path : str) : bool := bool_decide (take (length p) path = p).

(** The slashes a normalised path begins with: two are kept. *)
Definition initial_slashes (path : str) : nat :=
  if starts_with [sep] path then
    if starts_with [sep; sep] path && negb (starts_with [sep; sep; sep] path) then 2 else 1
  else 0.

(** The loop of [normpath] *)
Definition norm_step (rooted : bool) (comps : list str) (comp : str) : list str :=
  if bool_decide (comp = [] ∨ comp = dot) then comps
  else if bool_decide (comp ≠ dotdot) || negb rooted && bool_decide (comps = [])
          || bool_decide (last comps = Some dotdot)
  then comps ++ [comp]
  else removelast comps.

Definition norm_comps (rooted : bool) (comps : list str) : list str :=
  foldl (norm_step rooted) [] comps.

Definition normpath (path : str) : str :=
  match path with
  | [] => dot
  | _ =>
      let k := initial_slashes path in
      match replicate k sep ++ join [sep] (norm_comps (negb (k =? 0)) (split sep path)) with
      | [] => dot
      | p => p
      end
  end.

(** [os.path.join(a, *ps)] *)
Definition join2 (path b : str) : str :=
  if isabs b then b
  else if bool_decide (path = []) || ends_with sep path then path ++ b
  else path ++ [sep] ++ b.
Definition path_join (a : str) (ps : list str) : str := foldl join2 a ps.

(** [os.path.basename] and [os.path.dirname] *)
Definition basename (path : str) : str := default [] (last (split sep path)).
Definition dirname (path : str) : str :=
  let d := join [sep] (removelast (split sep path)) ++
           (if 1 <? length (split sep path) then [sep] else []) in
  if bool_decide (Forall (λ a, a = sep) d) then d else rstrip (λ a, bool_decide (a = sep)) d.

(** ** utils/io.py *)

Definition IsNormAbsPath (path : str) : bool :=
  bool_decide (normpath path = path) && isabs path.

(** [commonprefix([p, q]) == p] *)
Definition IsBelowDir (root other_path : str) : exc bool :=
  if negb (isabs root && isabs other_path) then Raise (PyExn ValueError "")
  else
    let norm_other := normpath other_path in
    if bool_decide (norm_other = [sep]) then Ok false
    else
      let norm_root := normpath root in
      let prepared_root := if bool_decide (norm_root = [sep]) then norm_root else norm_root ++ [sep] in
      Ok (starts_with prepared_root norm_other).

Definition PathJoin (args : list str) : exc str :=
  match args with
  | [] | [_] => Raise (GntExn ProgrammerError [])
  | root :: ps =>
      if negb (IsNormAbsPath root) then Raise (PyExn ValueError "")
      else
        let result := path_join root ps in
        if negb (IsNormAbsPath result) then Raise (PyExn ValueError "")
        else
          let* below := IsBelowDir root result in
          if below : bool then Ok result else Raise (PyExn ValueError "")
  end.

(** ** vcluster.py *)

Definition VIRT_PATH_PREFIX : str := lit "/###-VIRTUAL-PATH-###,".
Definition VPATH_WHITELIST : list str := [lit "/etc/hosts"].

Definition Runtime_error : exn := PyExn RuntimeError "".

(** [_GetRootDirectory] on the value of the variable *)
Definition GetRootDirectory (path : option str) : exc str :=
  match path with
  | None | Some [] => Ok []
  | Some path => if isabs path then Ok (normpath path) else Raise Runtime_error
  end.

Definition CheckHostname (hostname : str) : exc unit :=
  if bool_decide (basename hostname = hostname) then Ok tt else Raise Runtime_error.

(** The base directory, the node root and the virtual host name *)
Definition PreparePaths (rootdir hostname : str) : exc (str * str * option str) :=
  match rootdir, hostname with
  | [], [] => Ok ([], [], None)
  | [], _ | _, [] => Raise Runtime_error
  | _, _ =>
      do* assert (bool_decide (rootdir = normpath rootdir)) in
      do* CheckHostname hostname in
      if bool_decide (basename rootdir = hostname)
      then Ok (dirname rootdir, rootdir, Some hostname) else Raise Runtime_error
  end.

Definition MakeNodeRoot (base node_name : str) : exc str :=
  do* CheckHostname node_name in
  Ok (normpath (base ++ [sep] ++ node_name)).

Definition AddNodePrefix (path noderoot : str) : exc str :=
  do* assert (isabs path) in
  let result := match noderoot with [] => path | _ => noderoot ++ [sep] ++ path end in
  do* assert (isabs result) in
  Ok (normpath result).

Definition RemoveNodePrefix (path noderoot : str) : exc str :=
  do* assert (isabs path) in
  let norm_path := normpath path in
  let* result :=
    match noderoot with
    | [] => Ok norm_path
    | _ =>
        let norm_root := normpath noderoot in
        if starts_with (norm_root ++ [sep]) norm_path then Ok (drop (length norm_root) norm_path)
        else Raise Runtime_error
    end in
  do* assert (isabs result) in
  Ok result.

Definition ExchangeNodeRoot (node_name filename basedir noderoot : str) : exc str :=
  match basedir with
  | [] => Ok (normpath filename)
  | _ =>
      let* pure := RemoveNodePrefix filename noderoot in
      let* root := MakeNodeRoot basedir node_name in
      Ok (normpath (root ++ [sep] ++ pure))
  end.

Definition MakeVirtualPath (path noderoot : str) : exc str :=
  do* assert (isabs path) in
  if bool_decide (noderoot ≠ []) && bool_decide (path ∉ VPATH_WHITELIST)
  then rmap (app VIRT_PATH_PREFIX) (RemoveNodePrefix path noderoot)
  else Ok path.

Definition LocalizeVirtualPath (path noderoot : str) : exc str :=
  do* assert (isabs path) in
  if bool_decide (noderoot ≠ []) && bool_decide (path ∉ VPATH_WHITELIST)
  then
    if starts_with VIRT_PATH_PREFIX path
    then AddNodePrefix (drop (length VIRT_PATH_PREFIX) path) noderoot
    else Raise Runtime_error
  else Ok path.

(** ** Normalised paths *)

(** A path component that normalisation keeps *)
Definition plain (c : str) : Prop := c ≠ [] ∧ c ≠ dot ∧ c ≠ dotdot ∧ sep ∉ c.

(** The components of an absolute path *)
Definition components (path : str) : list str := norm_comps true (split sep path).

Definition abs_path (k : nat) (ws : list str) : str := replicate k sep ++ join [sep] ws.

Lemma norm_step_plain acc c : plain c → norm_step true acc c = acc ++ [c].
Proof.
  intros (H1 & H2 & H3 & _). unfold norm_step.
  rewrite bool_decide_false by naive_solver. by rewrite bool_decide_true by done.
Qed.

Lemma foldl_plain acc ws : Forall plain ws → foldl (norm_step true) acc ws = acc ++ ws.
Proof.
  intros H. revert acc. induction H as [|w ws Hw _ IH]; intros acc; simpl.
  - by rewrite app_nil_r.
  - rewrite norm_step_plain, IH by done. by rewrite <-app_assoc.
Qed.

Lemma removelast_Forall {A} (P : A → Prop) l : Forall P l → Forall P (removelast l).
Proof. induction 1 as [|x l Hx Hl IH]; [done|]. destruct l; [done|]. by constructor. Qed.

Lemma foldl_keeps_plain acc ws :
  Forall plain acc → Forall (λ w, sep ∉ w) ws → Forall plain (foldl (norm_step true) acc ws).
Proof.
  intros Ha H. revert acc Ha. induction H as [|w ws Hw _ IH]; intros acc Ha; simpl; [done|].
  apply IH. unfold norm_step. case_bool_decide as E1; [done|].
  destruct (_ || _) eqn:E2; [|by apply removelast_Forall].
  apply Forall_app. split; [done|]. constructor; [|done]. split_and!; try naive_solver.
  intros ->. rewrite (bool_decide_false (dotdot ≠ dotdot)) in E2 by naive_solver. simpl in E2.
  apply bool_decide_eq_true in E2. apply last_Some in E2 as [l ->].
  apply Forall_app in Ha as [_ Ha]. apply Forall_cons in Ha as [(_ & _ & ? & _) _]. done.
Qed.

Lemma split_no_sep_all c s : Forall (λ w, c ∉ w) (split c s).
Proof.
  induction s as [|a s IH]; simpl; [repeat constructor; set_solver|].
  case_decide; [constructor; [set_solver|done]|].
  destruct (split c s) as [|w ws]; [repeat constructor; set_solver|].
  apply Forall_cons in IH as [Hw Hws]. constructor; [set_solver|done].
Qed.

Lemma components_plain path : Forall plain (components path).
Proof. apply foldl_keeps_plain; [constructor|apply split_no_sep_all]. Qed.

Lemma plain_no_sep ws : Forall plain ws → Forall (λ w, sep ∉ w) ws.
Proof. intros H. eapply Forall_impl; [exact H|]. by intros w (_ & _ & _ & ?). Qed.

Lemma foldl_nil_comp k acc ws :
  foldl (norm_step true) acc (replicate k [] ++ ws) = foldl (norm_step true) acc ws.
Proof. induction k; [done|done]. Qed.

Lemma split_slashes k s : split sep (replicate k sep ++ s) = replicate k [] ++ split sep s.
Proof. induction k as [|k IH]; simpl; [done|]. by rewrite IH. Qed.

Lemma foldl_split_join acc ws :
  Forall plain ws → foldl (norm_step true) acc (split sep (join [sep] ws)) = acc ++ ws.
Proof.
  intros H. destruct (decide (ws = [])) as [->|Hne]; [simpl; by rewrite app_nil_r|].
  rewrite split_join; [by apply foldl_plain|done|by apply plain_no_sep].
Qed.

Lemma components_abs_path k ws : Forall plain ws → components (abs_path k ws) = ws.
Proof.
  intros H. unfold components, abs_path, norm_comps.
  by rewrite split_slashes, foldl_nil_comp, foldl_split_join.
Qed.

Lemma head_join ws : Forall plain ws → head (join [sep] ws) ≠ Some sep.
Proof.
  intros [|w [|w' ws'] (Hne & _ & _ & Hs) _]; [done|..]; destruct w as [|a w]; try done; simpl;
    intros [= ->]; set_solver.
Qed.

Lemma initial_slashes_abs_path k ws :
  k = 1 ∨ k = 2 → Forall plain ws → initial_slashes (abs_path k ws) = k.
Proof.
  intros Hk H%head_join. unfold abs_path, initial_slashes, starts_with.
  destruct Hk as [-> | ->]; simpl; destruct (join [sep] ws) as [|a s]; try done; simpl in *;
    repeat case_bool_decide; naive_solver.
Qed.

Lemma initial_slashes_isabs path :
  isabs path = true → initial_slashes path = 1 ∨ initial_slashes path = 2.
Proof.
  unfold isabs, initial_slashes, starts_with. intros H%bool_decide_eq_true.
  destruct path as [|a path]; [done|]. injection H as ->. simpl.
  change (bool_decide ([sep] = [sep])) with true. destruct (_ && _); auto.
Qed.

Lemma isabs_abs_path k ws : k = 1 ∨ k = 2 → isabs (abs_path k ws) = true.
Proof. by intros [-> | ->]. Qed.

Lemma normpath_isabs path :
  isabs path = true → normpath path = abs_path (initial_slashes path) (components path).
Proof.
  intros H. unfold normpath. pose proof (initial_slashes_isabs _ H) as Hk.
  destruct path as [|a path]; [done|]. fold (components (a :: path)).
  assert (negb (initial_slashes (a :: path) =? 0) = true) as -> by (by destruct Hk as [-> | ->]).
  unfold abs_path, components. by destruct Hk as [-> | ->].
Qed.

Lemma normpath_abs_path k ws :
  k = 1 ∨ k = 2 → Forall plain ws → normpath (abs_path k ws) = abs_path k ws.
Proof.
  intros. rewrite normpath_isabs by by apply isabs_abs_path.
  by rewrite initial_slashes_abs_path, components_abs_path.
Qed.

(** The normalised absolute paths *)
Lemma IsNormAbsPath_spec path :
  IsNormAbsPath path = true ↔ ∃ k ws, (k = 1 ∨ k = 2) ∧ Forall plain ws ∧ path = abs_path k ws.
Proof.
  unfold IsNormAbsPath. rewrite andb_true_iff, bool_decide_eq_true. split.
  - intros [E H]. exists (initial_slashes path), (components path).
    split_and!; [by apply initial_slashes_isabs|apply components_plain|].
    by rewrite <-normpath_isabs.
  - intros (k & ws & Hk & Hws & ->).
    split; [by apply normpath_abs_path|by apply isabs_abs_path].
Qed.

(** ** [IsBelowDir] *)

Lemma starts_with_spec p s : starts_with p s = true ↔ p `prefix_of` s.
Proof.
  unfold starts_with. rewrite bool_decide_eq_true. split.
  - intros H. exists (drop (length p) s). by rewrite <-H at 1; rewrite take_drop.
  - intros [t ->]. apply take_app_length.
Qed.

Lemma join_app ws ws' :
  ws ≠ [] → ws' ≠ [] → join [sep] (ws ++ ws') = join [sep] ws ++ sep :: join [sep] ws'.
Proof.
  intros Hne Hne'. induction ws as [|w [|w2 ws] IH]; [done|by destruct ws'|].
  change (w ++ [sep] ++ join [sep] ((w2 :: ws) ++ ws')
          = (w ++ [sep] ++ join [sep] (w2 :: ws)) ++ sep :: join [sep] ws').
  rewrite IH by done. by rewrite <-!app_assoc.
Qed.

Lemma split_join_app ws t :
  ws ≠ [] → Forall plain ws → split sep (join [sep] ws ++ sep :: t) = ws ++ split sep t.
Proof.
  intros Hne H. rewrite <-(split_join sep (ws ++ split sep t)).
  - rewrite join_app, join_split; [done..|apply split_nonnil].
  - by destruct ws.
  - apply Forall_app. split; [by apply plain_no_sep|apply split_no_sep_all].
Qed.

Lemma replicate_nil_inj k k' (l l' : list str) :
  head l ≠ Some [] → head l' ≠ Some [] → replicate k [] ++ l = replicate k' [] ++ l' → k = k' ∧ l = l'.
Proof.
  intros Hl Hl'. revert k'. induction k as [|k IH]; intros [|k'] E; simpl in E; [done|..].
  - by subst.
  - by subst.
  - injection E as E. destruct (IH _ E). auto.
Qed.

Lemma abs_path_prefix k ws k' ws' :
  k = 1 ∨ k = 2 → k' = 1 ∨ k' = 2 → ws ≠ [] → Forall plain ws → Forall plain ws' →
  abs_path k ws ++ [sep] `prefix_of` abs_path k' ws' ↔ k = k' ∧ ∃ rest, rest ≠ [] ∧ ws' = ws ++ rest.
Proof.
  intros Hk Hk' Hne Hp Hp'. split.
  - intros [t E]. apply (f_equal (split sep)) in E. symmetry in E. unfold abs_path in E.
    rewrite <-!app_assoc in E. change ([sep] ++ t) with (sep :: t) in E.
    rewrite !split_slashes, split_join_app in E by done.
    destruct ws as [|w ws]; [done|]. apply Forall_cons in Hp as [(Hw & _) _].
    destruct (decide (ws' = [])) as [->|Hne'].
    + change (split sep (join [sep] [])) with (replicate 1 [] ++ [] : list str) in E.
      rewrite (app_assoc (replicate k' [])), <-replicate_add in E. apply replicate_nil_inj in E as [_ E]; naive_solver.
    + rewrite split_join in E by (try done; by apply plain_no_sep).
      apply replicate_nil_inj in E as [-> <-]; [|naive_solver|].
      * split; [done|]. exists (split sep t). split; [apply split_nonnil|done].
      * destruct Hp' as [|? ? (? & _)]; naive_solver.
  - intros [-> (rest & Hr & ->)]. exists (join [sep] rest). unfold abs_path.
    by rewrite join_app, <-!app_assoc.
Qed.

Lemma abs_path_root k ws :
  k = 1 ∨ k = 2 → Forall plain ws → abs_path k ws = [sep] ↔ k = 1 ∧ ws = [].
Proof.
  intros Hk Hws. split; [|by intros [-> ->]]. intros E.
  pose proof (initial_slashes_abs_path _ _ Hk Hws) as E1.
  pose proof (components_abs_path k _ Hws) as E2. rewrite E in E1, E2.
  by rewrite <-E1, <-E2.
Qed.

(** [other] is strictly below [root]; nothing but the root itself is not below
    the root, and the directory [//] holds nothing. *)
Definition below (root other : str) : Prop :=
  if decide (normpath root = [sep]) then normpath other ≠ [sep]
  else initial_slashes root = initial_slashes other ∧ components root ≠ [] ∧
       ∃ rest, rest ≠ [] ∧ components other = components root ++ rest.

Lemma IsBelowDir_below root other :
  isabs root = true → isabs other = true →
  ∃ b, IsBelowDir root other = Ok b ∧ (b = true ↔ below root other).
Proof.
  intros Hr Ho. unfold IsBelowDir, below. rewrite Hr, Ho. simpl.
  rewrite (normpath_isabs _ Hr), (normpath_isabs _ Ho).
  pose proof (initial_slashes_isabs _ Hr) as Hk. pose proof (initial_slashes_isabs _ Ho) as Hk'.
  pose proof (components_plain root) as Hp. pose proof (components_plain other) as Hp'.
  revert Hk Hk' Hp Hp'. generalize (initial_slashes root), (initial_slashes other).
  generalize (components root), (components other). clear Hr Ho. intros ws ws' k k' Hk Hk' Hp Hp'.
  destruct (decide (abs_path k ws = [sep])) as [Er|Er].
  - rewrite (bool_decide_true _ Er). case_bool_decide as Eo; eexists; split; [done| |done|].
    + split; [done|]. by intros [].
    + rewrite Er, starts_with_spec. split; [done|]. intros _.
      destruct Hk' as [-> | ->]; eexists; done.
  - rewrite (bool_decide_false _ Er). case_bool_decide as Eo; eexists; (split; [done|]).
    + apply abs_path_root in Eo as [-> ->]; [|done..]. split; [done|].
      intros (_ & _ & rest & Hne & E%symmetry%app_nil). naive_solver.
    + rewrite starts_with_spec. destruct (decide (ws = [])) as [->|Hne].
      * split; [|by intros (_ & [] & _)]. intros [t E].
        assert (k = 2) as ->. { destruct Hk as [-> | ->]; [|done]. by destruct Er. }
        pose proof (head_join _ Hp') as Hh. destruct Hk' as [-> | ->];
          injection E as E; by rewrite E in Hh.
      * rewrite abs_path_prefix by done. naive_solver.
Qed.

(** ** [PathJoin] *)

(** A relative path in normal form, of at least one component *)
Definition clean (p : str) : Prop := Forall plain (split sep p).

Lemma clean_isabs p : clean p → isabs p = false.
Proof.
  unfold clean, isabs. intros H. apply bool_decide_eq_false. intros E.
  destruct p as [|a p]; [done|]. injection E as ->. cbn [split] in H.
  rewrite decide_True in H by done. apply Forall_cons in H as [(? & _) _]. done.
Qed.

Lemma last_join ws : ws ≠ [] → Forall plain ws → ∃ a, last (join [sep] ws) = Some a ∧ a ≠ sep.
Proof.
  intros Hne H. destruct (exists_last Hne) as (ws' & w & ->). clear Hne. rename ws' into ws.
  apply Forall_app in H as [_ H]. apply Forall_cons in H as [(Hw & _ & _ & Hs) _].
  destruct (exists_last Hw) as (w' & a & ->). clear Hw. rename w' into w.
  exists a. split; [|set_solver]. destruct (decide (ws = [])) as [->|].
  - simpl. apply last_snoc.
  - rewrite join_app by done. change (join [sep] [w ++ [a]]) with (w ++ [a]).
    by rewrite app_comm_cons, app_assoc, last_snoc.
Qed.

Lemma join2_clean k ws p :
  k = 1 ∨ k = 2 → Forall plain ws → clean p →
  join2 (abs_path k ws) p = abs_path k (ws ++ split sep p).
Proof.
  intros Hk Hws Hp. unfold join2. rewrite clean_isabs by done.
  destruct (decide (ws = [])) as [->|Hne].
  - assert (ends_with sep (abs_path k []) = true) as ->.
    { by destruct Hk as [-> | ->]. }
    rewrite orb_true_r. unfold abs_path. cbn [join]. rewrite app_nil_r, app_nil_l.
    by rewrite join_split.
  - destruct (last_join ws Hne Hws) as (a & Hl & Ha).
    assert (ends_with sep (abs_path k ws) = false) as ->.
    { unfold ends_with, abs_path. rewrite last_app, Hl. apply bool_decide_eq_false. naive_solver. }
    rewrite bool_decide_false by (by destruct Hk as [-> | ->]). cbn [orb].
    unfold abs_path. rewrite join_app by (try done; apply split_nonnil).
    by rewrite join_split, <-!app_assoc.
Qed.

Lemma path_join_clean k ws ps :
  k = 1 ∨ k = 2 → Forall plain ws → Forall clean ps →
  path_join (abs_path k ws) ps = abs_path k (ws ++ mjoin (split sep <$> ps)) ∧
  Forall plain (mjoin (split sep <$> ps)).
Proof.
  intros Hk Hws Hps. revert ws Hws. unfold path_join.
  induction Hps as [|p ps Hp _ IH]; intros ws Hws; simpl.
  - by rewrite app_nil_r.
  - rewrite join2_clean by done. destruct (IH (ws ++ split sep p)) as [-> IHp]; [by apply Forall_app|].
    rewrite <-app_assoc. split; [done|by apply Forall_app].
Qed.

Lemma PathJoin_Ok root ps p :
  PathJoin (root :: ps) = Ok p ↔
  ps ≠ [] ∧ IsNormAbsPath root = true ∧ IsNormAbsPath p = true ∧ below root p ∧ p = path_join root ps.
Proof.
  unfold PathJoin. destruct ps as [|p1 ps]; [by split; [|intros [[] _]]|]. generalize (path_join root (p1 :: ps)). intros q.
  destruct (IsNormAbsPath root) eqn:Hr; [|by split; [|intros (_ & ? & _)]]. cbn [negb].
  destruct (IsNormAbsPath q) eqn:Hq; [|by split; [|intros (_ & _ & ? & _ & ->); congruence]]. cbn [negb].
  destruct (IsBelowDir_below root q) as (b & -> & Hb).
  { by apply andb_true_iff in Hr as [_ ?]. } { by apply andb_true_iff in Hq as [_ ?]. }
  simpl. destruct b; split; intros H.
  - injection H as <-. split_and!; try done. by apply Hb.
  - by destruct H as (_ & _ & _ & _ & ->).
  - done.
  - destruct H as (_ & _ & _ & H & ->). by apply Hb in H.
Qed.

Lemma below_components root p :
  IsNormAbsPath root = true → IsNormAbsPath p = true → below root p →
  ∃ rest, components p = components root ++ rest ∧ Forall plain rest ∧
    (rest = [] → root = [sep] ∧ p = [sep; sep]).
Proof.
  intros (k & ws & Hk & Hws & ->)%IsNormAbsPath_spec (k' & ws' & Hk' & Hws' & ->)%IsNormAbsPath_spec.
  unfold below. rewrite !normpath_abs_path, !components_abs_path by done.
  case_decide as E.
  - apply abs_path_root in E as [-> ->]; [|done..]. intros Hne. exists ws'. split_and!; [done..|].
    intros ->. destruct Hk' as [-> | ->]; [by destruct Hne|done].
  - intros (_ & _ & rest & Hne & ->). exists rest. apply Forall_app in Hws' as [_ ?]. done.
Qed.

Lemma below_clean k ws rest :
  k = 1 ∨ k = 2 → Forall plain ws → Forall plain rest → rest ≠ [] → abs_path k ws ≠ [sep; sep] →
  below (abs_path k ws) (abs_path k (ws ++ rest)).
Proof.
  intros Hk Hws Hr Hne H2. assert (Forall plain (ws ++ rest)) by (by apply Forall_app).
  unfold below. rewrite !normpath_abs_path, !components_abs_path, !initial_slashes_abs_path by done.
  case_decide as E.
  - rewrite abs_path_root by done. intros [_ ?%app_nil]. naive_solver.
  - split_and!; [done| |by exists rest]. intros ->. destruct Hk as [-> | ->]; done.
Qed.


(** ** Virtual paths *)

(** A node root: a normalised directory other than [/] and [//] *)
Definition node_root (root : str) : Prop := IsNormAbsPath root = true ∧ components root ≠ [].

Lemma node_root_spec root :
  node_root root →
  ∃ k ws, (k = 1 ∨ k = 2) ∧ Forall plain ws ∧ ws ≠ [] ∧ root = abs_path k ws.
Proof.
  intros [(k & ws & Hk & Hws & ->)%IsNormAbsPath_spec Hne].
  rewrite components_abs_path in Hne by done. by exists k, ws.
Qed.

Lemma abs_path_nonnil k ws : k = 1 ∨ k = 2 → abs_path k ws ≠ [].
Proof. by intros [-> | ->]. Qed.

Lemma abs_path_app k ws rest :
  ws ≠ [] → rest ≠ [] → abs_path k (ws ++ rest) = abs_path k ws ++ abs_path 1 rest.
Proof. intros. unfold abs_path. by rewrite join_app, <-app_assoc. Qed.

Lemma initial_slashes_app k ws t :
  k = 1 ∨ k = 2 → Forall plain ws → ws ≠ [] → initial_slashes (abs_path k ws ++ t) = k.
Proof.
  intros Hk Hws Hne. pose proof (head_join _ Hws) as Hh.
  destruct (last_join ws Hne Hws) as (b & Hb & _). unfold abs_path, initial_slashes, starts_with.
  destruct (join [sep] ws) as [|a s]; [done|]. clear Hb.
  destruct Hk as [-> | ->]; simpl in *; repeat case_bool_decide; naive_solver.
Qed.

Lemma RemoveNodePrefix_spec k ws path :
  k = 1 ∨ k = 2 → Forall plain ws → ws ≠ [] → isabs path = true →
  (∃ rest, rest ≠ [] ∧ Forall plain rest ∧ normpath path = abs_path k (ws ++ rest) ∧
     RemoveNodePrefix path (abs_path k ws) = Ok (abs_path 1 rest)) ∨
  (¬ below (abs_path k ws) path ∧ RemoveNodePrefix path (abs_path k ws) = Raise Runtime_error).
Proof.
  intros Hk Hws Hne Ha. unfold RemoveNodePrefix, below. rewrite Ha. cbn [assert py_assert rbind].
  rewrite normpath_abs_path, (normpath_isabs path), initial_slashes_abs_path, components_abs_path
    by done.
  pose proof (initial_slashes_isabs _ Ha) as Hk'. pose proof (components_plain path) as Hp.
  pose proof (abs_path_prefix k ws _ _ Hk Hk' Hne Hws Hp) as Hpre.
  destruct (abs_path k ws) as [|a0 s0] eqn:E0; [by apply abs_path_nonnil in E0|].
  rewrite <-E0 in *. clear a0 s0 E0.
  destruct (starts_with (abs_path k ws ++ [sep]) _) eqn:E.
  - left. apply starts_with_spec, Hpre in E as [<- (rest & Hr & Ec)]. rewrite Ec in Hp |- *.
    exists rest. split_and!; [done|by apply Forall_app in Hp as [_ ?]|done|].
    by rewrite abs_path_app, drop_app_length by done.
  - right. split; [|done]. rewrite decide_False by (rewrite abs_path_root; naive_solver).
    intros (Ek & _ & Hrest). assert (true = false); [|done]. rewrite <-E. symmetry.
    by apply starts_with_spec, Hpre.
Qed.

Lemma AddNodePrefix_abs k ws rest :
  k = 1 ∨ k = 2 → Forall plain ws → ws ≠ [] → Forall plain rest →
  AddNodePrefix (abs_path 1 rest) (abs_path k ws) = Ok (abs_path k (ws ++ rest)).
Proof.
  intros Hk Hws Hne Hr. unfold AddNodePrefix. rewrite isabs_abs_path by auto.
  cbn [assert py_assert rbind].
  destruct (abs_path k ws) as [|a0 s0] eqn:E0; [by apply abs_path_nonnil in E0|].
  rewrite <-E0. assert (isabs (abs_path k ws ++ [sep] ++ abs_path 1 rest) = true) as Ha
    by (by destruct Hk as [-> | ->]).
  rewrite Ha. cbn [assert py_assert rbind]. rewrite normpath_isabs by done.
  rewrite initial_slashes_app by done. f_equal. f_equal.
  unfold components, norm_comps, abs_path. rewrite <-!app_assoc. cbn [app replicate].
  rewrite split_slashes, foldl_nil_comp, split_join_app by done.
  rewrite foldl_app, (foldl_plain [] ws) by done. cbn [app split]. rewrite decide_True by done.
  cbn [foldl]. change (norm_step true ws []) with ws. by rewrite foldl_split_join.
Qed.

(** Virtual paths.  For an absolute path [MakeVirtualPath] succeeds exactly
    when the path lies below the node's root; the virtual path holds no trace
    of the root, and localised on any node it is the same path below that
    node's root (on the same node: the normalised path). *)
Theorem virtual_path_roundtrip (root root' path : str) :
  node_root root → node_root root' → isabs path = true → path ∉ VPATH_WHITELIST →
  match MakeVirtualPath path root with
  | Ok v =>
      ∃ rest, rest ≠ [] ∧ Forall plain rest ∧ v = VIRT_PATH_PREFIX ++ abs_path 1 rest ∧
        normpath path = abs_path (initial_slashes root) (components root ++ rest) ∧
        LocalizeVirtualPath v root' = Ok (abs_path (initial_slashes root') (components root' ++ rest))
  | Raise e => e = Runtime_error ∧ ¬ below root path
  end.
Proof.
  intros (k & ws & Hk & Hws & Hne & ->)%node_root_spec (k' & ws' & Hk' & Hws' & Hne' & ->)%node_root_spec
    Ha Hwl.
  rewrite !initial_slashes_abs_path, !components_abs_path by done.
  unfold MakeVirtualPath. rewrite Ha. cbn [assert py_assert rbind].
  rewrite !bool_decide_true by (try done; by apply abs_path_nonnil). cbn [andb].
  destruct (RemoveNodePrefix_spec k ws path) as [(rest & Hr & Hrp & Hn & ->)|[Hb ->]]; [done..| |done].
  cbn [rmap]. exists rest. split_and!; [done..|].
  unfold LocalizeVirtualPath. cbn [assert py_assert rbind].
  change (isabs (VIRT_PATH_PREFIX ++ abs_path 1 rest)) with true. cbn [assert py_assert rbind].
  rewrite !bool_decide_true; [|unfold VPATH_WHITELIST; intros E%list_elem_of_singleton; done|
    by apply abs_path_nonnil].
  cbn [andb]. rewrite (proj2 (starts_with_spec _ _)) by (by eexists).
  rewrite drop_app_length. by apply AddNodePrefix_abs.
Qed.

(** ** Examples *)

Module PathsDemo.

Lemma virtual_path_roundtrip_witness :
  MakeVirtualPath (lit "/v/n1//etc/x") (lit "/v/n1") = Ok (VIRT_PATH_PREFIX ++ lit "/etc/x") ∧
  ∃ rest, LocalizeVirtualPath (VIRT_PATH_PREFIX ++ lit "/etc/x") (lit "/v/n2")
            = Ok (abs_path 1 ([lit "v"; lit "n2"] ++ rest)).
Proof.
  split; [reflexivity|].
  assert (node_root (lit "/v/n1")) as H1 by (split; [reflexivity|discriminate]).
  assert (node_root (lit "/v/n2")) as H2 by (split; [reflexivity|discriminate]).
  assert (lit "/v/n1//etc/x" ∉ VPATH_WHITELIST) as Hw by (intros E%list_elem_of_singleton; discriminate).
  destruct (virtual_path_roundtrip _ _ (lit "/v/n1//etc/x") H1 H2 eq_refl Hw) as (rest & _ & _ & _ & _ & H).
  exists rest. exact H.
Defined.

(** A path that climbs leaves the root of the node. *)
Lemma AddNodePrefix_climbs :
  AddNodePrefix (lit "/../../etc/shadow") (lit "/v/n1") = Ok (lit "/etc/shadow").
Proof. reflexivity. Qed.

Lemma LocalizeVirtualPath_climbs :
  LocalizeVirtualPath (VIRT_PATH_PREFIX ++ lit "/../n2/etc/x") (lit "/v/n1") = Ok (lit "/v/n2/etc/x").
Proof. reflexivity. Qed.

(** The other spelling of the root counts as below the root. *)
Lemma root_below_root : IsBelowDir (lit "/") (lit "//") = Ok true.
Proof. reflexivity. Qed.
End PathsDemo.
