(* ===== verification/Ht.v ===== *)
(** * Parameter types (src/lib/ht.py)

    A type is a function from a value to a truth value; it can raise.  The
    description texts are left out.  [Accepts] relates a check to the set
    of values it accepts, [Decides] says moreover that it never raises; both are
    closed under the combinators, by instance resolution. *)

From S2P Require Import Prelude Errors PySort PyStr PyVal.
#[local] Open Scope list_scope.
#[local] Open Scope stdpp_scope.
#[local] Open Scope py_scope.

Notation check := (obj → exc bool).

(** ** Basic types *)

Definition TAny : check := λ _, Ok true.
Definition TNotNone : check := λ val, Ok (match val with ONone => false | _ => true end).
Definition TNone : check := λ val, Ok (match val with ONone => true | _ => false end).
Definition TValueNone : check := λ val, Ok (py_eq val (str_obj "none")).
Definition TBool : check := λ val, Ok (match val with OBool _ => true | _ => false end).
Definition TInt : check := λ val, Ok (match val with OInt _ => true | _ => false end).
Definition TFloat : check := λ val, Ok (match val with OFloat _ => true | _ => false end).
Definition TString : check := λ val, Ok (match val with OStr _ => true | _ => false end).
Definition TTrue : check := λ val, Ok (py_truth val).
Definition TElemOf (target_list : obj) : check := λ val, py_in val target_list.

(** ** Containers *)

Definition TList : check := λ val, Ok (match val with OList _ => true | _ => false end).
Definition TTuple : check := λ val, Ok (match val with OTuple _ => true | _ => false end).
Definition TDict : check := λ val, Ok (match val with ODict _ => true | _ => false end).
Definition TIsLength (size : Z) : check :=
  λ container, rmap (λ n, n =? size)%Z (py_len container).

(** ** Combinators *)

Definition TAnd (args : list check) : check := λ val, rall (λ t, t val) args.
Definition TOr (args : list check) : check := λ val, rany (λ t, t val) args.
Definition TMap (fn : obj → exc obj) (test : check) : check := λ val, let* v := fn val in test v.

(** [pobj.match] of a regular expression, as the set of strings it matches;
    another value is a [TypeError]. *)
Definition TRegex (pobj : str → bool) : check :=
  TAnd [TString; λ val, match val with OStr s => Ok (pobj s) | _ => Raise Type_error end].

Definition TMaybe (test : check) : check := TOr [TNone; test].
Definition TMaybeValueNone (test : check) : check := TMaybe (TOr [TValueNone; test]).

Definition TNonEmptyString : check := TAnd [TString; TTrue].
Definition TMaybeString : check := TMaybe TNonEmptyString.
Definition TMaybeBool : check := TMaybe TBool.
Definition TMaybeDict : check := TMaybe TDict.
Definition TMaybeList : check := TMaybe TList.

Definition TNonNegative (val_type : check) : check :=
  TAnd [val_type; λ v, py_order OpGe v (OInt 0)].
Definition TPositive (val_type : check) : check :=
  TAnd [val_type; λ v, py_order OpGt v (OInt 0)].
Definition TNonNegativeInt : check := TNonNegative TInt.
Definition TPositiveInt : check := TPositive TInt.
Definition TMaybePositiveInt : check := TMaybe TPositiveInt.
Definition TNegativeInt : check := TAnd [TInt; λ v, py_order OpGt (OInt 0) v].
Definition TNonNegativeFloat : check :=
  TAnd [TFloat; λ v, py_order OpGe v (OFloat (SpecFloat.S754_zero false))].

(** ["^\d+$"] *)
Definition TJobId : check := TOr [TNonNegativeInt; TRegex (class_match is_digit)].
Definition TDouble : check := TFloat.
Definition TNumber : check := TOr [TInt; TFloat].
Definition TRelativeJobId : check := TNegativeInt.

Definition TPrivate (val_type : check) : check :=
  λ val, match val with OPrivate v => val_type v | _ => Ok false end.
Definition TSecret (val_type : check) : check :=
  λ val, match val with OPrivate v => val_type v | _ => Ok false end.

(** [all(my_type(v) for v in lst)] *)
Definition for_all (my_type : check) : check := λ lst, let* l := py_iter lst in rall my_type l.

Definition TListOf (my_type : check) : check := TAnd [TList; for_all my_type].
Definition TMaybeListOf (item_type : check) : check := TMaybe (TListOf item_type).

(** [all(check(i) for (check, i) in zip(items, value))] *)
Definition TItems (items : list check) : check :=
  λ value, let* l := py_iter value in rall (λ '(t, i), t i) (zip items l).

Definition TTupleOf (val_types : list check) : check :=
  TAnd [TOr [TTuple; TList]; TIsLength (Z.of_nat (length val_types)); TItems val_types].

Definition TSetOf (val_type : check) : check :=
  λ st, let* l := py_iter st in
        if forallb hashes l then TListOf val_type (OList (dedup l)) else Raise Type_error.

Definition TDictOf (key_type val_type : check) : check :=
  TAnd [TDict; λ container,
    match container with
    | ODict d =>
        let* b := rall key_type (map fst d) in
        if b then rall val_type (map snd d) else Ok false
    | _ => Raise (PyExn AttributeError "keys")
    end].

(** [items] maps keys to checks. *)
Definition TStrictDictCheck (require_all exclusive : bool) (items : list (str * check)) : check :=
  λ val,
    match val with
    | ODict d =>
        if require_all && negb (forallb (λ k, existsb (py_eq (OStr k)) (map fst d)) (map fst items))
        then Ok false
        else
          rall (λ '(key, value),
            match List.find (λ '(k, _), py_eq key (OStr k)) items with
            | Some (_, t) => t value
            | None => Ok (negb exclusive)
            end) d
    | _ => Raise (PyExn AttributeError "items")
    end.

Definition TStrictDict (require_all exclusive : bool) (items : list (str * check)) : check :=
  TAnd [TDict; TStrictDictCheck require_all exclusive items].

(** ** Named types *)

Definition TMaxValue (max : Z) : check := λ val, py_order OpLt val (OInt max).

Definition MAX_DISKS : Z := 16.
Definition TDiskIndex : check := TAnd [TNonNegativeInt; TMaxValue MAX_DISKS].

Definition frozenset_of (l : list string) : obj := OSet (map str_obj l).

Definition DDMS_VALUES : obj := frozenset_of ["add"; "attach"; "remove"; "detach"].
Definition DDMS_VALUES_WITH_MODIFY : obj :=
  frozenset_of ["add"; "attach"; "remove"; "detach"; "modify"].
Definition JOBS_FINALIZED : obj := frozenset_of ["canceled"; "success"; "error"].

Definition TSetParamsMods (fn : check) : check :=
  let old_mod_item_fn :=
    TAnd [TIsLength 2; TItems [TOr [TElemOf DDMS_VALUES; TNonNegativeInt]; fn]] in
  let mod_item_fn :=
    TAnd [TIsLength 3; TItems [TElemOf DDMS_VALUES_WITH_MODIFY; TOr [TInt; TString]; fn]] in
  TOr [TListOf mod_item_fn; TListOf old_mod_item_fn].

Definition INIC_PARAMS : obj :=
  frozenset_of ["bridge"; "ip"; "link"; "mac"; "mode"; "name"; "network"; "vlan"].
Definition TINicParams : check := TDictOf (TElemOf INIC_PARAMS) (TMaybe TString).
Definition TIDiskParams : check := TDictOf TNonEmptyString (TOr [TNonEmptyString; TInt]).
Definition TDiskParams : check := TDictOf TNonEmptyString (TOr [TNonEmptyString; TInt]).
Definition TDiskChanges : check := TAnd [TIsLength 2; TItems [TNonNegativeInt; TDiskParams]].
Definition TRecreateDisksInfo : check := TOr [TListOf TNonNegativeInt; TListOf TDiskChanges].

Definition TObject (val_type : check) : check := TDictOf TAny val_type.

(** The slots of the object are the keys of [fields_types], as the assertion of
    the source demands. *)
Definition TObjectCheck (fields_types : list (str * check)) : check :=
  TStrictDict true true fields_types.

Definition QFT_ALL : obj :=
  frozenset_of ["bool"; "number"; "float"; "other"; "text"; "timestamp"; "unit"; "unknown"].
Definition RS_ALL : obj := OSet [OInt 0; OInt 1; OInt 2; OInt 3; OInt 4].

Definition TQueryFieldDef : check :=
  TObjectCheck [(lit "name", TNonEmptyString); (lit "title", TNonEmptyString);
                (lit "kind", TElemOf QFT_ALL); (lit "doc", TNonEmptyString)].
Definition TQueryRow : check := TListOf (TAnd [TIsLength 2; TItems [TElemOf RS_ALL; TAny]]).
Definition TQueryResult : check := TListOf TQueryRow.
Definition TQueryResponse : check :=
  TObjectCheck [(lit "fields", TListOf TQueryFieldDef); (lit "data", TQueryResult)].
Definition TQueryFieldsResponse : check := TObjectCheck [(lit "fields", TListOf TQueryFieldDef)].

Definition TJobIdListItem : check := TAnd [TIsLength 2; TItems [TBool; TOr [TString; TJobId]]].
Definition TJobIdList : check := TListOf TJobIdListItem.
Definition TJobIdListOnly : check := TStrictDict true true [(lit "jobs", TJobIdList)].

(** ** Job dependencies (opcodes_base.BuildJobDepCheck) *)

Definition BuildJobDepCheck (relative : bool) : check :=
  let job_id := if relative then TOr [TJobId; TRelativeJobId] else TJobId in
  let job_dep :=
    TAnd [TOr [TListOf TAny; TTuple]; TIsLength 2;
          TItems [job_id; TListOf (TElemOf JOBS_FINALIZED)]] in
  TMaybe (TListOf job_dep).

(** ** What the checks accept *)

Class Accepts (t : check) (P : obj → Prop) : Prop := accepts v : t v = Ok true ↔ P v.

(** A check that never raises. *)
Class Decides (t : check) (P : obj → Prop) : Prop :=
  decides v : (t v = Ok true ∧ P v) ∨ (t v = Ok false ∧ ¬ P v).

#[export] Instance decides_accepts t P : Decides t P → Accepts t P.
Proof. intros Hd v. destruct (Hd v) as [[-> ?]|[-> ?]]; naive_solver. Qed.

#[export] Instance TNone_decides : Decides TNone (λ v, v = ONone).
Proof. intros []; unfold TNone; naive_solver. Qed.
#[export] Instance TInt_decides : Decides TInt (λ v, ∃ z, v = OInt z).
Proof. intros []; unfold TInt; naive_solver. Qed.
#[export] Instance TFloat_decides : Decides TFloat (λ v, ∃ f, v = OFloat f).
Proof. intros []; unfold TFloat; naive_solver. Qed.
#[export] Instance TString_decides : Decides TString (λ v, ∃ s, v = OStr s).
Proof. intros []; unfold TString; naive_solver. Qed.
#[export] Instance TList_decides : Decides TList (λ v, ∃ l, v = OList l).
Proof. intros []; unfold TList; naive_solver. Qed.
#[export] Instance TTuple_decides : Decides TTuple (λ v, ∃ l, v = OTuple l).
Proof. intros []; unfold TTuple; naive_solver. Qed.
#[export] Instance TBool_decides : Decides TBool (λ v, ∃ b, v = OBool b).
Proof. intros []; unfold TBool; naive_solver. Qed.
#[export] Instance TAny_decides : Decides TAny (λ _, True).
Proof. intros v. by left. Qed.
#[export] Instance TTrue_decides : Decides TTrue (λ v, py_truth v = true).
Proof. intros v. unfold TTrue. destruct (py_truth v); naive_solver. Qed.

#[export] Instance TAnd_nil : Decides (TAnd []) (λ _, True).
Proof. intros v. by left. Qed.

#[export] Instance TAnd_cons t ts P Q :
  Accepts t P → Accepts (TAnd ts) Q → Accepts (TAnd (t :: ts)) (λ v, P v ∧ Q v).
Proof.
  intros Ht Hts v. specialize (Ht v). specialize (Hts v). unfold TAnd in *. simpl.
  destruct (t v) as [[]|]; simpl; naive_solver.
Qed.

(** The second check runs on the values the first one accepts only. *)
Lemma TAnd_guard t ts P Q :
  Decides t P →
  (∀ v, P v → (TAnd ts v = Ok true ∧ Q v) ∨ (TAnd ts v = Ok false ∧ ¬ Q v)) →
  Decides (TAnd (t :: ts)) (λ v, P v ∧ Q v).
Proof.
  intros Ht Hts v. specialize (Hts v). unfold TAnd in *. simpl.
  destruct (Ht v) as [[-> Hp]|[-> Hp]]; simpl; naive_solver.
Qed.

#[export] Instance TOr_nil : Decides (TOr []) (λ _, False).
Proof. intros v. right. auto. Qed.

#[export] Instance TOr_cons t ts P Q :
  Decides t P → Accepts (TOr ts) Q → Accepts (TOr (t :: ts)) (λ v, P v ∨ Q v) | 10.
Proof.
  intros Ht Hts v. specialize (Hts v). unfold TOr in *. simpl.
  destruct (Ht v) as [[-> Hp]|[-> Hp]]; simpl; naive_solver.
Qed.

#[export] Instance TOr_last t P : Accepts t P → Accepts (TOr [t]) P | 20.
Proof.
  intros Ht v. specialize (Ht v). unfold TOr. simpl. destruct (t v) as [[]|]; simpl; naive_solver.
Qed.

#[export] Instance TOr_cons_decides t ts P Q :
  Decides t P → Decides (TOr ts) Q → Decides (TOr (t :: ts)) (λ v, P v ∨ Q v) | 5.
Proof.
  intros Ht Hts v. specialize (Hts v). unfold TOr in *. simpl.
  destruct (Ht v) as [[-> Hp]|[-> Hp]]; simpl; naive_solver.
Qed.

#[export] Instance TListOf_accepts t P :
  Accepts t P → Accepts (TListOf t) (λ v, ∃ l, v = OList l ∧ Forall P l).
Proof.
  intros Ht v. unfold TListOf, TAnd. cbn [rall].
  destruct (TList_decides v) as [[-> [l ->]]|[-> Hn]]; cbn [rbind].
  - unfold for_all. cbn [py_iter rbind]. transitivity (rall t l = Ok true).
    + destruct (rall t l) as [[]|]; simpl; naive_solver.
    + rewrite rall_true. assert (Forall (λ x, t x = Ok true) l ↔ Forall P l) as ->; [|naive_solver].
      apply Forall_iff. exact Ht.
  - split; [done|]. intros (l & -> & _). exfalso. eauto.
Qed.

#[export] Instance TNonNegativeInt_decides :
  Decides TNonNegativeInt (λ v, ∃ z, v = OInt z ∧ (0 ≤ z)%Z).
Proof.
  intros v. unfold TNonNegativeInt, TNonNegative, TAnd. destruct v; try (right; naive_solver).
  cbn. rewrite !Z.mul_1_r. destruct (Z.compare_spec z 0); cbn; [left..|right|left]; split;
    try done; [eexists; split; [done|lia]..| |eexists; split; [done|lia]].
  intros (? & [= <-] & ?). lia.
Qed.

#[export] Instance TRelativeJobId_decides :
  Decides TRelativeJobId (λ v, ∃ z, v = OInt z ∧ (z < 0)%Z).
Proof.
  intros v. unfold TRelativeJobId, TNegativeInt, TAnd. destruct v; try (right; naive_solver).
  cbn. rewrite !Z.mul_1_r. destruct z as [|p|p]; cbn; [right|right|left]; split; try done.
  - intros (? & [= <-] & ?). lia.
  - intros (? & [= <-] & ?). lia.
  - eexists. split; [done|lia].
Qed.

#[export] Instance TRegex_decides p :
  Decides (TRegex p) (λ v, ∃ s, v = OStr s ∧ p s = true).
Proof.
  intros v. unfold TRegex, TAnd. destruct v; try (right; naive_solver). cbn.
  destruct (p s) eqn:E; [left; eauto|right]. split; [done|]. intros (? & [= <-] & ?). congruence.
Qed.

#[export] Instance TJobId_decides : Decides TJobId
  (λ v, (∃ z, v = OInt z ∧ (0 ≤ z)%Z) ∨ (∃ s, v = OStr s ∧ class_match is_digit s = true) ∨ False).
Proof. unfold TJobId. apply _. Qed.

Lemma py_eq_str_hashes v s : py_eq v (OStr s) = true → hashes v = true.
Proof. induction v; simpl; intros; try done. auto. Qed.

#[export] Instance TElemOf_set_accepts l :
  Accepts (TElemOf (frozenset_of l)) (λ v, ∃ s, s ∈ l ∧ py_eq v (str_obj s) = true).
Proof.
  intros v. unfold TElemOf, frozenset_of. cbn [py_in].
  assert (existsb (py_eq v) (map str_obj l) = true ↔
    ∃ s, s ∈ l ∧ py_eq v (str_obj s) = true) as He.
  { rewrite existsb_exists. setoid_rewrite in_map_iff. setoid_rewrite list_elem_of_In. naive_solver. }
  rewrite <-He. destruct (hashes v) eqn:Eh; [split; [by intros [= ->]|by intros ->]|].
  split; [done|].
  intros (s & _ & Hs)%He. apply py_eq_str_hashes in Hs. congruence.
Qed.

(** A list or tuple with one element for each check. *)
Lemma TItems_list ts : ∀ l,
  length l = length ts →
  rall (λ '(t, i), t i) (zip ts l) = Ok true ↔ Forall2 (λ t i, t i = Ok true) (ts : list check) l.
Proof.
  induction ts as [|t ts IH]; intros [|x l] Hl; simplify_eq/=; [split; [constructor|done]|].
  rewrite Forall2_cons, <-IH by done. destruct (t x) as [[]|]; simpl; naive_solver.
Qed.

Lemma sized_items_accepts ts l v :
  py_iter v = Ok l →
  TAnd [TIsLength (Z.of_nat (length ts)); TItems ts] v = Ok true ↔
  Forall2 (λ t i, t i = Ok true) (ts : list check) l.
Proof.
  intros Hv. unfold TAnd. cbn [rall]. unfold TIsLength, py_len. rewrite Hv. cbn [rmap rbind].
  destruct (Z.eqb_spec (Z.of_nat (length l)) (Z.of_nat (length ts))) as [E|E].
  - unfold TItems. rewrite Hv. cbn [rbind]. rewrite <-(TItems_list ts l) by lia.
    destruct (rall _ _) as [[]|]; simpl; naive_solver.
  - split; [done|]. intros Hf%Forall2_length. lia.
Qed.

#[export] Instance TTupleOf_accepts ts :
  Accepts (TTupleOf ts)
    (λ v, ∃ l, (v = OTuple l ∨ v = OList l) ∧ Forall2 (λ t i, t i = Ok true) ts l).
Proof.
  intros v. unfold TTupleOf. unfold TAnd at 1. cbn [rall].
  destruct (decides (t := TOr [TTuple; TList]) v) as [[-> Hp]|[-> Hp]]; cbn [rbind].
  - assert (∃ l, (v = OTuple l ∨ v = OList l) ∧ py_iter v = Ok l) as (l & Hv & Hl) by naive_solver.
    pose proof (sized_items_accepts ts l v Hl) as Hs. unfold TAnd in Hs. cbn [rall] in Hs.
    rewrite Hs. split; [eauto|]. intros (l' & Hv' & Hf). naive_solver.
  - split; [done|]. intros (l & Hv & _). exfalso. apply Hp. naive_solver.
Qed.

(** ** Job dependencies *)

Definition is_job_id (relative : bool) (v : obj) : Prop :=
  (∃ z, v = OInt z ∧ (relative = true ∨ (0 ≤ z)%Z)) ∨
  ∃ s, v = OStr s ∧ class_match is_digit s = true.

(** A pair, as a list or a tuple, of a job id and a list of final states. *)
Definition is_job_dep (relative : bool) (v : obj) : Prop :=
  ∃ id states, v ∈ [OList [id; OList states]; OTuple [id; OList states]] ∧
    is_job_id relative id ∧
    Forall (λ st, ∃ s, s ∈ ["canceled"; "success"; "error"] ∧ py_eq st (str_obj s) = true) states.

Lemma job_id_accepts (relative : bool) :
  Accepts (if relative then TOr [TJobId; TRelativeJobId] else TJobId) (is_job_id relative).
Proof.
  intros v. unfold is_job_id. destruct relative; rewrite accepts.
  - split.
    + intros [[(z & -> & ?)|[(s & -> & ?)|[]]]|[(z & -> & ?)|[]]]; eauto 10.
    + intros [(z & -> & _)|(s & -> & ?)]; [|left; right; left; eauto].
      destruct (decide (0 ≤ z)%Z); [left; left; eauto|right; left; eexists; split; [done|lia]].
  - naive_solver.
Qed.

Lemma job_dep_accepts (relative : bool) :
  Accepts (TAnd [TOr [TListOf TAny; TTuple]; TIsLength 2;
    TItems [if relative then TOr [TJobId; TRelativeJobId] else TJobId;
            TListOf (TElemOf JOBS_FINALIZED)]]) (is_job_dep relative).
Proof.
  intros v. unfold TAnd at 1. cbn [rall].
  assert (Decides (TOr [TListOf TAny; TTuple]) (λ v, ∃ l, v = OList l ∨ v = OTuple l)) as Hg.
  { intros w. unfold TOr, TListOf, TAnd, for_all.
    destruct w; try (right; split; [done|naive_solver]); left; (split; [|eauto]); cbn; [|done].
    assert (rall TAny l = Ok true) as -> by (apply rall_true, Forall_forall; done). done. }
  destruct (Hg v) as [[-> [l Hv]]|[-> Hn]]; cbn [rbind].
  2: { split; [done|]. intros (id & sts & Hin & _). exfalso. apply Hn. set_solver. }
  assert (py_iter v = Ok l) as Hl by (destruct Hv; by subst).
  epose proof (sized_items_accepts [_; _] l v Hl) as Hs. unfold TAnd in Hs. cbn [rall] in Hs.
  rewrite Hs. split.
  - intros (id & l1 & Hid & (sts' & l2 & Hst & ->%Forall2_nil_inv_l & ->)%Forall2_cons_inv_l
      & ->)%Forall2_cons_inv_l.
    apply job_id_accepts in Hid. apply accepts in Hst as (sts & -> & Hst).
    exists id, sts. split_and!; [set_solver|done|done].
  - intros (id & sts & Hin & Hid & Hst).
    assert (l = [id; OList sts]) as -> by (destruct Hv; set_solver).
    constructor; [by apply job_id_accepts|]. constructor; [|constructor].
    apply accepts. eauto.
Qed.

(** The check on an opcode's dependencies accepts [None] and the lists of
    pairs of a job id and a list of final job states, and nothing else;
    negative (relative) ids when they are asked for only. *)
Theorem BuildJobDepCheck_correct (relative : bool) (v : obj) :
  BuildJobDepCheck relative v = Ok true ↔
  v = ONone ∨ ∃ deps, v = OList deps ∧ Forall (is_job_dep relative) deps.
Proof.
  unfold BuildJobDepCheck, TMaybe. pose proof (job_dep_accepts relative).
  rewrite accepts. naive_solver.
Qed.

(** A status that cannot be hashed makes it raise, since the final states are a
    [frozenset]. *)
Lemma BuildJobDepCheck_raises :
  BuildJobDepCheck false (OList [OList [OInt 1; OList [OList []]]]) = Raise Type_error.
Proof. reflexivity. Qed.

(** [TIsLength] without a check for a container in front: a list of disks with
    a negative index is not rejected, it raises a [TypeError]. *)
Lemma TRecreateDisksInfo_raises : TRecreateDisksInfo (OList [OInt (-1)]) = Raise Type_error.
Proof. reflexivity. Qed.

Lemma TSetParamsMods_raises (fn : check) : TSetParamsMods fn (OList [OInt 0]) = Raise Type_error.
Proof. reflexivity. Qed.

(** ** Strict dictionaries *)

(** With distinct keys in [items] and all of them required and none but them
    allowed, the dictionary has those keys with values of the given types, and
    no others. *)
Lemma TStrictDict_accepts (items : list (str * check)) (d : list (obj * obj)) :
  TStrictDict true true items (ODict d) = Ok true ↔
  Forall (λ '(k, _), ∃ k', k' ∈ map fst d ∧ py_eq (OStr k) k' = true) items ∧
  Forall (λ '(k, v), ∃ k' t, List.find (λ '(k', _), py_eq k (OStr k')) items = Some (k', t)
                      ∧ t v = Ok true) d.
Proof.
  unfold TStrictDict, TAnd. cbn [rall TDict rbind TStrictDictCheck andb].
  assert (forallb (λ k, existsb (py_eq (OStr k)) (map fst d)) (map fst items) = true ↔
    Forall (λ '(k, _), ∃ k', k' ∈ map fst d ∧ py_eq (OStr k) k' = true) items) as Hreq.
  { rewrite forallb_forall, <-List.Forall_forall, List.Forall_map. apply Forall_iff.
    intros [k t]. simpl. rewrite existsb_exists. by setoid_rewrite list_elem_of_In. }
  rewrite <-Hreq. destruct (forallb _ _); cbn [negb]; [|naive_solver].
  match goal with |- context [rall ?f d] => set (f' := f); transitivity (rall f' d = Ok true) end.
  { destruct (rall f' d) as [[]|]; simpl; naive_solver. }
  rewrite rall_true. assert (∀ P : Prop, P ↔ true = true ∧ P) as <- by tauto.
  apply Forall_iff. intros [k v]. unfold f'.
  destruct (List.find _ items) as [[k' t]|]; naive_solver.
Qed.
