(* ===== verification/OpCodes.v ===== *)
(** * Opcode objects (src/lib/opcodes_base.py, src/lib/outils.py)

    An opcode class is its list of parameters (name, default, type); an opcode
    is a map from attribute names to values. *)

From S2P Require Import Prelude Errors PySort PyStr PyVal Ht.
#[local] Open Scope list_scope.
#[local] Open Scope stdpp_scope.
#[local] Open Scope py_scope.

(** ** Names *)

(** [_OPID_RE.sub(r"\1,\2", name)] *)
Fixpoint opid_sub (name : str) : str :=
  match name with
  | a :: (b :: _) as rest =>
      if is_lower a && is_upper b then a :: ","%char :: opid_sub rest else a :: opid_sub rest
  | _ => name
  end.

Definition starts_with_Op (name : str) : bool := prefix_of (lit "Op") name.

Definition NameComponents (name : str) : exc (list str) :=
  do* assert (starts_with_Op name) in Ok (split ","%char (opid_sub name)).

Definition NameToId (name : str) : exc (option str) :=
  if negb (starts_with_Op name) then Ok None
  else let* cs := NameComponents name in Ok (Some (join (lit "_") (map upper cs))).

Definition NameToReasonSrc (name prefix : str) : exc (option str) :=
  if negb (starts_with_Op name) then Ok None
  else
    let* cs := NameComponents name in
    Ok (Some (prefix ++ lit ":" ++ join (lit "_") (map lower cs))).

(** ** Parameters and attributes *)

Record param := Param { p_name : str; p_default : obj; p_test : check }.

Notation attrs := (gmap str obj).

(** [outils.ValidatedSlots.__init__] *)
Fixpoint init_slots (slots : list str) (kwargs : list (str * obj)) (op : attrs) : exc attrs :=
  match kwargs with
  | [] => Ok op
  | (key, value) :: kwargs =>
      if decide (key ∈ slots) then init_slots slots kwargs (<[key := value]> op)
      else Raise Type_error
  end.

(** The second loop of [BaseOpCode.__init__] *)
Fixpoint set_missing (params : list param) (op : attrs) : attrs :=
  match params with
  | [] => op
  | p :: params =>
      set_missing params
        (match op !! p_name p with Some _ => op | None => <[p_name p := p_default p]> op end)
  end.

Definition BaseOpCode_init (params : list param) (kwargs : list (str * obj)) : exc attrs :=
  let* op := init_slots (map p_name params) kwargs ∅ in Ok (set_missing params op).

Definition getstate (params : list param) (op : attrs) : attrs :=
  filter (λ '(name, _), name ∈ map p_name params) op.

(** A name that is no slot of the class cannot be set. *)
Definition setstate (params : list param) (state op : attrs) : exc attrs :=
  if decide (map_Forall (λ name _, name ∈ map p_name params) state) then
    Ok (state ∪ filter (λ '(name, _), name ∉ map p_name params) op)
  else Raise (PyExn AttributeError "").

Definition Invalid_parameter : exn := GntExn OpPrereqError [VStr ""; VStr "wrong_input"].

Fixpoint Validate (params : list param) (set_defaults : bool) (op : attrs) : exc attrs :=
  match params with
  | [] => Ok op
  | p :: params =>
      let attr_val := match op !! p_name p with Some v => v | None => p_default p end in
      let set := λ v, if set_defaults then <[p_name p := v]> op else op in
      let* ok := p_test p attr_val in
      if ok then Validate params set_defaults (set attr_val)
      else
        let* int := TInt attr_val in
        let* f := if int then rmap Some (float_of attr_val) else Ok None in
        match f with
        | Some f =>
            let* ok := p_test p (OFloat f) in
            if ok then Validate params set_defaults (set (OFloat f)) else Raise Invalid_parameter
        | None => Raise Invalid_parameter
        end
  end.

(** ** Properties *)

(** The comma marks the places where the name is cut. *)
Lemma opid_sub_components name :
  ","%char ∉ name → concat (split ","%char (opid_sub name)) = name.
Proof.
  induction name as [|a name IH]; intros Hc; [done|].
  apply not_elem_of_cons in Hc as [Ha Hc].
  assert (∀ s, concat (split ","%char (a :: s)) = a :: concat (split ","%char s)) as Hcons.
  { intros s. simpl. rewrite decide_False by done. by destruct (split "," s). }
  destruct name as [|b name]; [exact (Hcons [])|].
  cbn [opid_sub]. destruct (is_lower a && is_upper b).
  - rewrite Hcons. f_equal. cbn [split]. rewrite decide_True by done. simpl. apply IH, Hc.
  - rewrite Hcons. f_equal. apply IH, Hc.
Qed.

Lemma NameToId_example :
  NameToId (lit "OpInstanceMultiAlloc") = Ok (Some (lit "OP_INSTANCE_MULTI_ALLOC")).
Proof. reflexivity. Qed.

Lemma set_missing_lookup params : ∀ op name,
  set_missing params op !! name =
  match op !! name with
  | Some v => Some v
  | None => p_default <$> List.find (λ p, bool_decide (p_name p = name)) params
  end.
Proof.
  induction params as [|p params IH]; intros op name; simpl; [by destruct (op !! name)|].
  rewrite IH. destruct (op !! p_name p) as [v|] eqn:Ep.
  - destruct (op !! name) as [w|] eqn:En; [done|].
    rewrite bool_decide_eq_false_2; [done|]. congruence.
  - destruct (decide (p_name p = name)) as [<-|Hne].
    + by rewrite lookup_insert_eq, Ep, bool_decide_eq_true_2.
    + rewrite lookup_insert_ne by done. destruct (op !! name); [done|].
      by rewrite bool_decide_eq_false_2.
Qed.

Lemma init_slots_ok slots kwargs : ∀ op op',
  init_slots slots kwargs op = Ok op' →
  (∀ k, k ∈ map fst kwargs → k ∈ slots) ∧ op' = foldl (λ m '(k, v), <[k := v]> m) op kwargs.
Proof.
  induction kwargs as [|[k v] kwargs IH]; intros op op'; simpl; [intros [= <-]; set_solver|].
  case_decide; [|done]. intros (IH1 & ->)%IH. set_solver.
Qed.

(** After construction every parameter has a value, so the default that
    [Validate] would copy is never looked at. *)
Lemma BaseOpCode_init_complete params kwargs op :
  BaseOpCode_init params kwargs = Ok op → ∀ p, p ∈ params → is_Some (op !! p_name p).
Proof.
  unfold BaseOpCode_init. intros (op0 & _ & [= <-])%rbind_Ok p Hp.
  rewrite set_missing_lookup. destruct (op0 !! p_name p); [eauto|].
  destruct (List.find _ params) eqn:E; [simpl; eauto|].
  apply list_elem_of_In, (find_none _ _ E) in Hp.
  by apply bool_decide_eq_false in Hp.
Qed.

Lemma map_fst_filter_slots (params : list param) (op : attrs) :
  map_Forall (λ name _, name ∈ map p_name params)
    (filter (λ '(name, _), name ∈ map p_name params) op).
Proof. intros name v [_ H]%map_lookup_filter_Some. exact H. Qed.

(** Serialising an opcode and restoring it, into any opcode of the class. *)
Lemma setstate_getstate params op op0 :
  map_Forall (λ name _, name ∈ map p_name params) op →
  map_Forall (λ name _, name ∈ map p_name params) op0 →
  setstate params (getstate params op) op0 = Ok op.
Proof.
  intros Hop Hop0. unfold setstate, getstate. rewrite decide_True by apply map_fst_filter_slots.
  f_equal. rewrite (map_filter_id _ op); [|intros k v Hk; exact (Hop k v Hk)].
  apply map_eq. intros k. rewrite lookup_union.
  replace (filter _ op0 !! k) with (@None obj); [by destruct (op !! k)|].
  symmetry. apply map_lookup_filter_None. right. intros v Hk Hn. exact (Hn (Hop0 k v Hk)).
Qed.

(** One parameter of [Validate] *)
Lemma Validate_cons p params b op op' :
  Validate (p :: params) b op = Ok op' ↔
  ∃ v, p_test p v = Ok true ∧
    (v = default (p_default p) (op !! p_name p) ∨
     ∃ z f, default (p_default p) (op !! p_name p) = OInt z ∧ float_of (OInt z) = Ok f ∧
            p_test p (OInt z) = Ok false ∧ v = OFloat f) ∧
    Validate params b (if b then <[p_name p := v]> op else op) = Ok op'.
Proof.
  assert (∀ d, default d (op !! p_name p) = match op !! p_name p with Some v => v | None => d end)
    as -> by (by intros; destruct (op !! p_name p)).
  cbn [Validate]. set (v := match op !! p_name p with Some v => v | None => p_default p end).
  destruct (p_test p v) as [[]|] eqn:Et; cbn [rbind].
  - split; [eauto 10|]. intros (v' & Hv' & [->|(z & f & Ez & _ & Hz & _)] & Hok); [done|].
    rewrite Ez in Et. congruence.
  - destruct v as [| |z| | | | | | | |] eqn:Ev; cbn [TInt rbind];
      try (split; [done|intros (v' & Hv' & [->|(z0 & f0 & [=] & _)] & _); congruence]).
    destruct (float_of (OInt z)) as [f|] eqn:Ef; cbn [rmap rbind].
    + destruct (p_test p (OFloat f)) as [[]|] eqn:Etf; cbn [rbind].
      * split; [intros; eexists; split_and!; [exact Etf|right; eauto 10|done]|].
        intros (v' & Hv' & [->|(z' & f' & [= <-] & Hf' & _ & ->)] & Hok); [congruence|].
        assert (f = f') as -> by congruence. exact Hok.
      * split; [done|]. intros (v' & Hv' & [->|(z' & f' & [= <-] & Hf' & _ & ->)] & Hok); congruence.
      * split; [done|]. intros (v' & Hv' & [->|(z' & f' & [= <-] & Hf' & _ & ->)] & Hok); congruence.
    + split; [done|]. intros (v' & Hv' & [->|(z' & f' & [= <-] & Hf' & _)] & Hok); congruence.
  - split; [done|]. intros (v' & Hv' & [->|(z & f & Ez & _ & Hz & _)] & _); [congruence|].
    rewrite Ez in Et. congruence.
Qed.

Lemma Validate_frame params b : ∀ op op' name,
  Validate params b op = Ok op' → name ∉ map p_name params → op' !! name = op !! name.
Proof.
  induction params as [|p params IH]; intros op op' name.
  - by intros [= <-].
  - intros (v & _ & _ & Hok)%Validate_cons Hn. apply not_elem_of_cons in Hn as [Hn1 Hn2].
    rewrite (IH _ _ name Hok Hn2). destruct b; [by rewrite lookup_insert_ne|done].
Qed.

(** An opcode that [Validate] accepts (with defaults set) has a value of
    the declared type for every parameter, no other attribute has changed, and
    validating it again changes nothing. *)
Theorem Validate_correct (params : list param) (op op' : attrs) :
  NoDup (map p_name params) →
  Validate params true op = Ok op' →
  (∀ p, p ∈ params → ∃ v, op' !! p_name p = Some v ∧ p_test p v = Ok true) ∧
  (∀ name, name ∉ map p_name params → op' !! name = op !! name) ∧
  Validate params true op' = Ok op'.
Proof.
  revert op. induction params as [|p params IH]; intros op Hnd Hok.
  { split_and!; [set_solver|by simplify_eq/=|by simplify_eq/=]. }
  pose proof Hok as (v & Hv & _ & Hrest)%Validate_cons.
  apply NoDup_cons in Hnd as [Hp Hnd].
  destruct (IH _ Hnd Hrest) as (IH1 & IH2 & IH3).
  assert (op' !! p_name p = Some v) as Hl by (by rewrite (IH2 _ Hp), lookup_insert_eq).
  split_and!.
  - intros q [->|Hq]%elem_of_cons; [eauto|by apply IH1].
  - intros name Hn. by eapply Validate_frame.
  - apply Validate_cons. exists v. split_and!; [done|left; by rewrite Hl|].
    rewrite insert_id by done. exact IH3.
Qed.

(** An opcode with an optional name and a float that is given as an integer. *)
Definition demo_params : list param :=
  [Param (lit "name") ONone TMaybeString; Param (lit "delay") ONone TFloat].

Lemma Validate_correct_witness :
  ∃ op', Validate demo_params true {[lit "delay" := OInt 3]} = Ok op' ∧
         Validate demo_params true op' = Ok op'.
Proof.
  destruct (Validate demo_params true {[lit "delay" := OInt 3]}) as [op'|e] eqn:E.
  2: { vm_compute in E. discriminate E. }
  exists op'. split; [reflexivity|].
  apply (Validate_correct demo_params {[lit "delay" := OInt 3]} op').
  - apply (bool_decide_unpack _). vm_compute. exact I.
  - exact E.
Defined.
