(* ===== verification/Base64.v ===== *)
(** * Base64 (the standard library's [base64.b64decode])

    The decoder as the interpreter has it when characters outside of the alphabet
    are not rejected: they are skipped, and decoding stops at a complete padding.
    The encoder is what clients send; decoding what was encoded gives it back. *)

From S2P Require Import Prelude PyStr.
#[local] Open Scope list_scope.
#[local] Open Scope stdpp_scope.
#[local] Open Scope N_scope.

Definition b64_value (a : ascii) : option N :=
  let n := N_of_ascii a in
  if is_upper a then Some (n - 65)
  else if is_lower a then Some (n - 71)
  else if is_digit a then Some (n + 4)
  else if decide (a = "+"%char) then Some 62
  else if decide (a = "/"%char) then Some 63
  else None.

Definition b64_char (n : N) : ascii :=
  if n <? 26 then ascii_of_N (n + 65)
  else if n <? 52 then ascii_of_N (n + 71)
  else if n <? 62 then ascii_of_N (n - 4)
  else if n =? 62 then "+"%char else "/"%char.

(** [binascii.a2b_base64]: the position in a group of four, the bits left over and
    the padding seen; [None] is [binascii.Error]. *)
Fixpoint a2b (s : str) (quad_pos : nat) (leftchar : N) (pads : nat) : option str :=
  match s with
  | [] => if (quad_pos =? 0)%nat then Some [] else None
  | c :: s =>
      if decide (c = "="%char) then
        if (2 <=? quad_pos)%nat
        then if (4 <=? quad_pos + S pads)%nat then Some [] else a2b s quad_pos leftchar (S pads)
        else a2b s quad_pos leftchar pads
      else
        match b64_value c with
        | None => a2b s quad_pos leftchar pads
        | Some v =>
            match quad_pos with
            | 0%nat => a2b s 1 v 0
            | 1%nat => cons (ascii_of_N (leftchar * 4 + v / 16)) <$> a2b s 2 (v mod 16) 0
            | 2%nat => cons (ascii_of_N (leftchar * 16 + v / 4)) <$> a2b s 3 (v mod 4) 0
            | _ => cons (ascii_of_N (leftchar * 64 + v)) <$> a2b s 0 0 0
            end
        end
  end.

Definition b64decode (s : str) : option str := a2b s 0 0 0.

Fixpoint b64encode (s : str) : str :=
  match s with
  | [] => []
  | [a] =>
      let x := N_of_ascii a in
      [b64_char (x / 4); b64_char (x mod 4 * 16); "="%char; "="%char]
  | [a; b] =>
      let x := N_of_ascii a in let y := N_of_ascii b in
      [b64_char (x / 4); b64_char (x mod 4 * 16 + y / 16); b64_char (y mod 16 * 4); "="%char]
  | a :: b :: c :: s =>
      let x := N_of_ascii a in let y := N_of_ascii b in let z := N_of_ascii c in
      b64_char (x / 4) :: b64_char (x mod 4 * 16 + y / 16) ::
      b64_char (y mod 16 * 4 + z / 64) :: b64_char (z mod 64) :: b64encode s
  end.

(** ** Round trip *)

Lemma b64_char_ok n :
  n < 64 → b64_value (b64_char n) = Some n ∧ b64_char n ≠ "="%char ∧ is_space (b64_char n) = false.
Proof.
  intros Hn. assert (forallb (λ m, bool_decide (b64_value (b64_char (N.of_nat m)) = Some (N.of_nat m)) &&
    bool_decide (b64_char (N.of_nat m) ≠ "="%char) && negb (is_space (b64_char (N.of_nat m)))) (seq 0 64) = true)
    as Hall by (vm_compute; done).
  rewrite forallb_forall in Hall. specialize (Hall (N.to_nat n)). rewrite N2Nat.id in Hall.
  assert (In (N.to_nat n) (seq 0 64)) as Hin by (apply in_seq; lia). apply Hall in Hin.
  apply andb_prop in Hin as [[H1 H2]%andb_prop H3]. apply bool_decide_eq_true in H1, H2.
  split_and!; try done. by apply negb_true_iff.
Qed.

Lemma byte_bound a : N_of_ascii a < 256.
Proof. apply N_ascii_bounded. Qed.

(** One step of the decoder on a character of the encoder *)
Lemma a2b_step n s q left pads :
  n < 64 →
  a2b (b64_char n :: s) q left pads =
  match q with
  | 0%nat => a2b s 1 n 0
  | 1%nat => cons (ascii_of_N (left * 4 + n / 16)) <$> a2b s 2 (n mod 16) 0
  | 2%nat => cons (ascii_of_N (left * 16 + n / 4)) <$> a2b s 3 (n mod 4) 0
  | _ => cons (ascii_of_N (left * 64 + n)) <$> a2b s 0 0 0
  end.
Proof. intros (Hv & Hne & _)%b64_char_ok. cbn [a2b]. by rewrite decide_False, Hv. Qed.

Lemma div_mod_join a b n : b < n → (a * n + b) / n = a ∧ (a * n + b) mod n = b.
Proof.
  intros Hb. split; [rewrite N.div_add_l, N.div_small by lia; lia|].
  by rewrite N.add_comm, N.Div0.mod_add, N.mod_small.
Qed.

(** The three bytes of a group, from the numbers of six bits *)
Lemma join_bits (x y z : N) :
  x < 256 → y < 256 → z < 256 →
  x / 4 * 4 + (x mod 4 * 16 + y / 16) / 16 = x ∧
  (x mod 4 * 16 + y / 16) mod 16 * 16 + (y mod 16 * 4 + z / 64) / 4 = y ∧
  (y mod 16 * 4 + z / 64) mod 4 * 64 + z mod 64 = z ∧
  x / 4 < 64 ∧ x mod 4 * 16 + y / 16 < 64 ∧ y mod 16 * 4 + z / 64 < 64 ∧ z mod 64 < 64.
Proof.
  intros Hx Hy Hz.
  pose proof (N.div_mod x 4 ltac:(lia)). pose proof (N.div_mod y 16 ltac:(lia)). pose proof (N.div_mod z 64 ltac:(lia)).
  pose proof (N.mod_lt x 4 ltac:(lia)). pose proof (N.mod_lt y 16 ltac:(lia)). pose proof (N.mod_lt z 64 ltac:(lia)).
  assert (y / 16 < 16) as Hy16 by (apply N.Div0.div_lt_upper_bound; lia).
  assert (z / 64 < 4) as Hz64 by (apply N.Div0.div_lt_upper_bound; lia).
  destruct (div_mod_join (x mod 4) (y / 16) 16 Hy16) as [-> ->].
  destruct (div_mod_join (y mod 16) (z / 64) 4 Hz64) as [-> ->].
  assert (x / 4 < 64) by (apply N.Div0.div_lt_upper_bound; lia). lia.
Qed.

Lemma a2b_group x y z s :
  x < 256 → y < 256 → z < 256 →
  a2b (b64_char (x / 4) :: b64_char (x mod 4 * 16 + y / 16) ::
       b64_char (y mod 16 * 4 + z / 64) :: b64_char (z mod 64) :: s) 0 0 0 =
  (λ r, ascii_of_N x :: ascii_of_N y :: ascii_of_N z :: r) <$> a2b s 0 0 0.
Proof.
  intros Hx Hy Hz. destruct (join_bits x y z Hx Hy Hz) as (E1 & E2 & E3 & B1 & B2 & B3 & B4).
  rewrite !a2b_step, E1, E2, E3 by done. by destruct (a2b s 0 0 0).
Qed.

Lemma b64decode_encode s : b64decode (b64encode s) = Some s.
Proof.
  unfold b64decode. revert s. fix IH 1. intros s.
  destruct s as [|a [|b [|c s]]]; [done| | |].
  - cbn [b64encode]. cbv zeta. pose proof (byte_bound a).
    destruct (join_bits (N_of_ascii a) 0 0) as (E1 & _ & _ & B1 & B2 & _); [done..|].
    change (0 / 16) with 0 in *. rewrite N.add_0_r in *. rewrite !a2b_step, E1 by done.
    cbn. by rewrite ascii_N_embedding.
  - cbn [b64encode]. cbv zeta. pose proof (byte_bound a). pose proof (byte_bound b).
    destruct (join_bits (N_of_ascii a) (N_of_ascii b) 0) as (E1 & E2 & _ & B1 & B2 & B3 & _); [done..|].
    change (0 / 64) with 0 in *. rewrite N.add_0_r in *. rewrite !a2b_step, E1, E2 by done.
    cbn. by rewrite !ascii_N_embedding.
  - cbn [b64encode]. cbv zeta. rewrite a2b_group by apply byte_bound. rewrite IH. cbn. by rewrite !ascii_N_embedding.
Qed.

(** What holds of the characters of the alphabet holds of the encoded text. *)
Lemma b64encode_chars (P : ascii → Prop) s :
  (∀ n, n < 64 → P (b64_char n)) → P "="%char → Forall P (b64encode s).
Proof.
  intros Hc Hpad. revert s. fix IH 1. intros s.
  destruct s as [|a [|b [|c s]]]; cbn [b64encode]; cbv zeta; [constructor| | |].
  - destruct (join_bits (N_of_ascii a) 0 0) as (_ & _ & _ & B1 & B2 & _); [apply byte_bound|done..|].
    change (0 / 16) with 0 in *. rewrite N.add_0_r in *. repeat constructor; auto.
  - destruct (join_bits (N_of_ascii a) (N_of_ascii b) 0) as (_ & _ & _ & B1 & B2 & B3 & _);
      [apply byte_bound..|done|]. change (0 / 64) with 0 in *. rewrite N.add_0_r in *. repeat constructor; auto.
  - destruct (join_bits (N_of_ascii a) (N_of_ascii b) (N_of_ascii c)) as (_ & _ & _ & B1 & B2 & B3 & B4);
      [apply byte_bound..|]. repeat constructor; auto.
Qed.

Lemma b64encode_nospace s : Forall (λ a, is_space a = false) (b64encode s).
Proof. apply b64encode_chars; [|done]. by intros n (_ & _ & ?)%b64_char_ok. Qed.

(** [s.encode("ascii")] succeeds. *)
Definition is_ascii (s : str) : bool := forallb (λ a, code a <? 128)%nat s.

Lemma b64encode_ascii s : is_ascii (b64encode s) = true.
Proof.
  apply forallb_forall. intros a Ha%list_elem_of_In. revert a Ha. apply Forall_forall.
  apply b64encode_chars; [|done]. intros n Hn.
  assert (forallb (λ m, (code (b64_char (N.of_nat m)) <? 128)%nat) (seq 0 64) = true) as Hall by (vm_compute; done).
  rewrite forallb_forall in Hall. specialize (Hall (N.to_nat n)). rewrite N2Nat.id in Hall. apply Hall, in_seq. lia.
Qed.
