(* ===== verification/HttpAuth.v ===== *)
(** * HTTP authentication (src/lib/http/__init__.py, http/auth.py)

    The exceptions that carry an HTTP status, basic authentication against a
    password file, and the permissions that the options of a user give.  The
    methods that a subclass overrides are arguments; MD5 is a parameter. *)

From S2P Require Import Prelude Errors PySort PyStr Text PyDict Base64.
From stdpp Require Import gmap.
#[local] Open Scope list_scope.
#[local] Open Scope stdpp_scope.
#[local] Open Scope py_scope.

(** ** Exceptions *)

Inductive http_class :=
| HttpBadRequest | HttpUnauthorized | HttpForbidden | HttpNotFound | HttpMethodNotAllowed
| HttpNotAcceptable | HttpRequestTimeout | HttpConflict | HttpGone | HttpLengthRequired
| HttpPreconditionFailed | HttpUnsupportedMediaType | HttpInternalServerError | HttpNotImplemented
| HttpBadGateway | HttpServiceUnavailable | HttpGatewayTimeout | HttpVersionNotSupported.

Definition http_code (c : http_class) : Z :=
  match c with
  | HttpBadRequest => 400
  | HttpUnauthorized => 401
  | HttpForbidden => 403
  | HttpNotFound => 404
  | HttpMethodNotAllowed => 405
  | HttpNotAcceptable => 406
  | HttpRequestTimeout => 408
  | HttpConflict => 409
  | HttpGone => 410
  | HttpLengthRequired => 411
  | HttpPreconditionFailed => 412
  | HttpUnsupportedMediaType => 415
  | HttpInternalServerError => 500
  | HttpNotImplemented => 501
  | HttpBadGateway => 502
  | HttpServiceUnavailable => 503
  | HttpGatewayTimeout => 504
  | HttpVersionNotSupported => 505
  end.

(** An HTTP exception with its headers, or any other exception *)
Inductive http_exn :=
| HttpExn (c : http_class) (headers : list (str * str))
| PyErr (e : exn).

Notation hexc := (result http_exn).
Notation http_raise c := (Raise (HttpExn c [])).

(** ** Headers *)

Definition HTTP_AUTHORIZATION : str := lit "Authorization".
Definition HTTP_WWW_AUTHENTICATE : str := lit "WWW-Authenticate".
Definition HTTP_BASIC_AUTH : str := lit "Basic".

(** [headers.get(name)]: names are compared without regard to case. *)
Definition header_get (name : str) (headers : list (str * str)) : option str :=
  snd <$> List.find (λ kv, bool_decide (lower kv.1 = lower name)) headers.

Definition noquote (a : ascii) : bool := is_alnum a || char_in (lit "-_") a.

(** [_FormatAuthHeader] *)
Definition FormatAuthHeader (scheme : str) (params : list (str * str)) : str :=
  scheme ++ flat_map (λ '(name, value),
    lit " " ++ name ++ lit "=" ++
    (if class_match noquote value then value
     else ["034"%char] ++ flat_map (λ a, if decide (a = "034"%char) then [backslash; a] else [a]) value ++
          ["034"%char])) params.

(** [s.split(None, n)] *)
Fixpoint split_ws (n : nat) (s : str) : list str :=
  match drop_while is_space s with
  | [] => []
  | s =>
      match n with
      | 0 => [s]
      | S n => let '(w, r) := span (λ a, negb (is_space a)) s in w :: split_ws n r
      end
  end.

(** [s.split(":", 1)] when the separator occurs *)
Definition split_once (c : ascii) (s : str) : option (str * str) :=
  match span (λ a, negb (bool_decide (a = c))) s with
  | (u, _ :: p) => Some (u, p)
  | (_, []) => None
  end.

(** ** Requests *)

Section authentication.
  (** The methods of the subclass, for the request at hand *)
  Context (AuthenticationRequired : hexc bool) (realm : str) (Authenticate : str → str → hexc bool).

Definition CheckBasicAuthorization (in_data : str) : hexc bool :=
  if is_ascii in_data then
    match b64decode in_data with
    | Some creds =>
        if is_ascii creds then
          match split_once ":" creds with
          | Some (user, password) => Authenticate user password
          | None => Ok false
          end
        else Ok false
    | None => Ok false
    end
  else Ok false.

Definition CheckAuthorization (headers : list (str * str)) : hexc bool :=
  match header_get HTTP_AUTHORIZATION headers with
  | None | Some [] => Ok false
  | Some credentials =>
      match split_ws 2 (strip credentials) with
      | [] => Ok false
      | scheme :: parts =>
          if decide (lower scheme = lower HTTP_BASIC_AUTH) then
            match parts with
            | [] => http_raise HttpBadRequest
            | in_data :: _ => CheckBasicAuthorization in_data
            end
          else Ok false
      end
  end.

Definition PreHandleRequest (headers : list (str * str)) : hexc unit :=
  let* required := AuthenticationRequired in
  if negb (required || bool_decide (is_Some (header_get HTTP_AUTHORIZATION headers))) then Ok tt
  else if bool_decide (realm = []) then Raise (PyErr AssertionFailed)
  else
    let* ok := CheckAuthorization headers in
    if ok then Ok tt
    else Raise (HttpExn HttpUnauthorized
                  [(HTTP_WWW_AUTHENTICATE, FormatAuthHeader HTTP_BASIC_AUTH [(lit "realm", realm)])]).
End authentication.

(** ** Passwords *)

Definition CLEARTEXT_SCHEME : str := lit "{CLEARTEXT}".
Definition HA1_SCHEME : str := lit "{HA1}".

(** [expected.find("}", 1)]: the scheme with its braces, and the rest; [None] when
    the scheme is empty or not closed. *)
Definition split_scheme (expected : str) : option (str * str) :=
  match expected with
  | [] => None
  | b :: s =>
      match span (λ a, negb (bool_decide (a = "}"%char))) s with
      | (w, c :: rest) => if bool_decide (w = []) then None else Some (b :: w ++ [c], rest)
      | (_, []) => None
      end
  end.

Section users.
  Context (md5_hex : str → str) (RAPI_ROLES : list (str * list str)).

Definition VerifyBasicAuthPassword (realm username password expected : str) : hexc bool :=
  let expected := if bool_decide (head expected = Some "{"%char) then expected
                  else CLEARTEXT_SCHEME ++ expected in
  match split_scheme expected with
  | None => Ok false
  | Some (scheme, expected_password) =>
      if decide (upper scheme = CLEARTEXT_SCHEME) then Ok (bool_decide (password = expected_password))
      else if decide (upper scheme = HA1_SCHEME) then
        if bool_decide (realm = []) then Raise (PyErr AssertionFailed)
        else
          let digest := username ++ lit ":" ++ realm ++ lit ":" ++ password in
          if is_ascii digest
          then Ok (bool_decide (lower expected_password = lower (md5_hex digest)))
          else Raise (PyErr (PyExn ValueError "ascii"))
      else Ok false
  end.

(** ** Permissions *)

Definition DEPRECATED_PERM_MAPPING : list (str * str) :=
  [(lit "read", lit "readonly"); (lit "write", lit "admin"); (lit "all", lit "admin")].

Inductive token := Role (r : str) | Added (p : str) | Removed (p : str) | Legacy (o : str) | Explicit (p : str).

Definition classify (option : str) : token :=
  let plain := if dhas option DEPRECATED_PERM_MAPPING then Legacy option else Explicit option in
  match option with
  | [] => plain
  | c :: rest =>
      if decide (c = "@"%char) then Role rest
      else if decide (c = "+"%char) then Added rest
      else if decide (c = "-"%char) then Removed rest
      else plain
  end.

(** Permissions of a role; an unknown one has none. *)
Definition role_permissions (role_name : str) : gset str :=
  list_to_set (default [] (dget role_name RAPI_ROLES)).

(** [_resolve_permissions]; the tokens are handled kind by kind. *)
Definition resolve_permissions (options : list str) : gset str :=
  let tokens := classify <$> options in
  let permissions := ⋃ (role_permissions <$>
        omap (λ t, match t with Role r => Some r | _ => None end) tokens) in
  let permissions := permissions ∪ ⋃ (role_permissions <$>
        omap (λ t, match t with Legacy o => dget o DEPRECATED_PERM_MAPPING | _ => None end) tokens) in
  let permissions := permissions ∪
        list_to_set (omap (λ t, match t with Explicit p => Some p | _ => None end) tokens) in
  let permissions := permissions ∪
        list_to_set (omap (λ t, match t with Added p => Some p | _ => None end) tokens) in
  permissions ∖ list_to_set (omap (λ t, match t with Removed p => Some p | _ => None end) tokens).

Record user := PasswordFileUser {
  u_name : str;
  u_password : str;
  u_options : list str;
  u_permissions : gset str
}.

Definition new_user (name password : str) (options : list str) : user :=
  PasswordFileUser name password options (resolve_permissions options).

Definition has_permission (permission : str) (u : user) : bool := bool_decide (permission ∈ u_permissions u).

Definition parse_user (line : str) : option (str * user) :=
  match split_ws 2 line with
  | name :: password :: rest =>
      let options := match rest with opts :: _ => strip <$> PyStr.split ","%char opts | [] => [] end in
      Some (name, new_user name password options)
  | _ => None
  end.

Definition ParsePasswordFile (contents : str) : list (str * user) :=
  foldl (λ users line, match parse_user line with
                       | Some (name, u) => dset name u users
                       | None => users
                       end) [] (FilterEmptyLinesAndComments contents).
End users.
