(* ===== verification/Rapi.v ===== *)
(** * The remote API (src/lib/rapi/baserlib.py, rapi/connector.py, server/rapi.py)

    Resource classes with the attributes that their bodies assign, the methods
    that their metaclass adds, the map from paths to classes, and the handling
    of a request from its headers to the response.  What the handler methods
    that are written by hand do, the input functions of the others, the opcode
    classes and the submission of jobs are parameters. *)

From S2P Require Import Prelude Errors PySort PyStr PyVal Json Serializer Text PyDict Ht OpCodes.
From S2P Require Import Base64 HttpAuth.
From stdpp Require Import gmap.
#[local] Open Scope list_scope.
#[local] Open Scope stdpp_scope.
#[local] Open Scope py_scope.

Definition lift_exc {A} (r : exc A) : hexc A :=
  match r with Ok a => Ok a | Raise e => Raise (PyErr e) end.

(** ** Resource classes *)

Inductive method := GET | PUT | POST | DELETE.

#[export] Instance method_eq_dec : EqDecision method.
Proof. solve_decision. Defined.

Definition SUPPORTED_METHODS : list method := [DELETE; GET; POST; PUT].

(** The value of [<method>_ACCESS]: the mark of a missing definition, [None], or
    the name of a permission *)
Inductive access := NotDefined | Public | Needs (permission : str).

#[export] Instance access_eq_dec : EqDecision access.
Proof. solve_decision. Defined.

(** An element of [<method>_FORBIDDEN]: a name, or a pair of a name and values *)
Inductive forbidden_param := AnyValue (name : str) | OneOf (name : str) (forbidden_values : list obj).

(** A class: its attributes, those of its bases included *)
Record resource := Resource {
  r_name : string;
  r_opcode_resource : bool;                       (* derived from OpcodeResource *)
  r_methods : list method;                        (* methods with a definition *)
  r_OPCODE : list (method * string);
  r_ACCESS : list (method * access);
  r_AUTH_REQUIRED : list (method * bool);
  r_RENAME : list (method * list (str * str));
  r_ALIASES : list (method * list (str * str));
  r_FORBIDDEN : list (method * list forbidden_param);
  r_OpInput : list method                         (* methods with a Get..OpInput *)
}.

(** [ResourceBase] defines both attributes for every method. *)
Definition GetHandlerAccess (r : resource) (m : method) : access := default NotDefined (dget m (r_ACCESS r)).
Definition GetHandlerAuthRequired (r : resource) (m : method) : bool := default true (dget m (r_AUTH_REQUIRED r)).

(** ** The metaclass *)

(** The values of a parameter that are forbidden; [None] is [ALL_VALUES_FORBIDDEN]. *)
Definition ProduceForbiddenParamDict (param_list : list forbidden_param) : list (str * option (list obj)) :=
  foldl (λ d p, match p with
                | AnyValue name => dset name None d
                | OneOf name vs => dset name (Some vs) d
                end) [] param_list.

(** A handler method of an instance *)
Inductive handler :=
| Written                                                        (* as defined *)
| WithAliases (aliases : list (str * str))                       (* GetHandler *)
| Generic (opcode : string) (rename : option (list (str * str))) (own_input : bool)
| Forbidden (params : list (str * option (list obj))) (rename : option (list (str * str))) (h : handler).

Definition patch_method (r : resource) (m : method) : exc (option handler) :=
  let* h :=
    if decide (m ∈ r_methods r) then
      do* assert (negb (dhas m (r_RENAME r))) in
      do* assert (negb (bool_decide (m ∈ r_OpInput r))) in
      do* assert (negb (dhas m (r_ALIASES r)) || bool_decide (m = GET)) in
      Ok (Some (match dget m (r_ALIASES r) with
                | Some aliases => if decide (m = GET) then WithAliases aliases else Written
                | None => Written
                end))
    else
      Ok ((λ opcode, Generic opcode (dget m (r_RENAME r)) (bool_decide (m ∈ r_OpInput r))) <$>
            dget m (r_OPCODE r)) in
  match dget m (r_FORBIDDEN r) with
  | None => Ok h
  | Some params =>
      match h with
      | None => Raise (PyExn AttributeError "")
      | Some h => Ok (Some (Forbidden (ProduceForbiddenParamDict params) (dget m (r_RENAME r)) h))
      end
  end.

(** The methods of an instance of the class *)
Definition instantiate (r : resource) : exc (list (method * handler)) :=
  if r_opcode_resource r then
    let* hs := rmapM (λ m, rmap (λ h, (m, h)) (patch_method r m)) SUPPORTED_METHODS in
    Ok (omap (λ mh, match mh.2 with Some h => Some (mh.1, h) | None => None end) hs)
  else Ok ((λ m, (m, Written)) <$> r_methods r).

(** ** Parameters of requests *)

(** [params_dict[param]] *)
Definition param_value (params_dict : obj) (param : str) : hexc obj :=
  match params_dict with
  | ODict d => match dict_get d (OStr param) with
               | Some v => Ok v
               | None => Raise (PyErr (PyExn KeyError ""))
               end
  | _ => Raise (PyErr Type_error)
  end.

(** The body of the loop of [InspectParams] for a parameter with its final name *)
Definition inspect_param (params_dict : obj) (forbidden : list (str * option (list obj))) (param : str) : hexc unit :=
  match dget param forbidden with
  | None => Ok tt
  | Some None => http_raise HttpForbidden
  | Some (Some vs) =>
      let* v := param_value params_dict param in
      if existsb (py_eq v) vs then http_raise HttpForbidden else Ok tt
  end.

Fixpoint inspect (params_dict : obj) (params : list obj) (forbidden : list (str * option (list obj)))
    (rename : option (list (str * str))) : hexc unit :=
  match params with
  | [] => Ok tt
  | p :: params =>
      if hashes p then
        do* match p with
            | OStr s => inspect_param params_dict forbidden (default s (rename ≫= dget s))
            | _ => Ok tt
            end in
        inspect params_dict params forbidden rename
      else Raise (PyErr Type_error)
  end.

Definition InspectParams (params_dict : obj) (forbidden : list (str * option (list obj)))
    (rename : option (list (str * str))) : hexc unit :=
  let* ps := lift_exc (py_iter params_dict) in inspect params_dict ps forbidden rename.

(** [params[new] = params.pop(old)] for each pair *)
Fixpoint rename_params (rename : list (str * str)) (params : list (str * obj)) : hexc (list (str * obj)) :=
  match rename with
  | [] => Ok params
  | (old, new) :: rename =>
      match dget old params with
      | None => rename_params rename params
      | Some v =>
          if dhas new params then http_raise HttpBadRequest
          else rename_params rename (dset new v (ddel old params))
      end
  end.

(** The items of a dictionary; keys of JSON are strings. *)
Definition str_items (d : list (obj * obj)) : list (str * obj) :=
  omap (λ kv, match kv with (OStr k, v) => Some (k, v) | _ => None end) d.

Definition FillOpcode (opcls : list param) (body : obj) (static : list (str * obj))
    (rename : option (list (str * str))) : hexc attrs :=
  let* params := match body with
                 | ONone => Ok []
                 | ODict d => Ok (str_items d)
                 | _ => http_raise HttpBadRequest
                 end in
  let* params := rename_params (default [] rename) params in
  let* params := if existsb (λ k, dhas k params) (dkeys static) then http_raise HttpBadRequest
                 else Ok (dupdate params static) in
  match (let* op := BaseOpCode_init opcls params in Validate opcls false op) with
  | Ok op => Ok op
  | Raise e =>
      if isinstance_exn e OpPrereqError then http_raise HttpBadRequest
      else match e with
           | PyExn TypeError _ => http_raise HttpBadRequest
           | _ => Raise (PyErr e)
           end
  end.

(** [GetHandler] on the result of the method *)
Fixpoint add_aliases (aliases : list (str * str)) (result : list (str * obj)) : hexc (list (str * obj)) :=
  match aliases with
  | [] => Ok result
  | (param, alias) :: aliases =>
      match dget param result with
      | None => add_aliases aliases result
      | Some v => if dhas alias result then http_raise HttpBadRequest
                  else add_aliases aliases (dset alias v result)
      end
  end.

Definition GetHandler (result : obj) (aliases : list (str * str)) : hexc obj :=
  match result with
  | ODict d => rmap (λ d, ODict ((λ kv, (OStr kv.1, kv.2)) <$> d)) (add_aliases aliases (str_items d))
  | _ => Ok result
  end.

(** ** Query arguments *)

(** [urllib.parse.unquote] *)
Fixpoint unquote (s : str) : str :=
  match s with
  | [] => []
  | c :: r =>
      match r with
      | a :: b :: s' =>
          match (if decide (c = "%"%char) then hex_value a else None), hex_value b with
          | Some x, Some y => ascii_of_N (16 * x + y) :: unquote s'
          | _, _ => c :: unquote r
          end
      | _ => c :: unquote r
      end
  end.

Definition unplus (s : str) : str := map (λ c, if decide (c = "+"%char) then " "%char else c) s.

Definition parse_pair (nv : str) : option (str * str) :=
  match split_once "=" nv with
  | Some (n, (_ :: _) as v) => Some (unquote (unplus n), unquote (unplus v))
  | _ => None
  end.

(** [urllib.parse.parse_qs] *)
Definition parse_qs (query : str) : list (str * list str) :=
  foldl (λ d '(n, v), match dget n d with
                      | Some vs => dset n (vs ++ [v]) d
                      | None => dset n [v] d
                      end) [] (omap parse_pair (PyStr.split "&"%char query)).

(** [ResourceBase._checkStringVariable] *)
Definition checkStringVariable (queryargs : list (str * list str)) (name : str) : option str :=
  dget name queryargs ≫= head.

(** ** The map of paths *)

(** Parts of a path: text, or a group that matches one or more characters of a class *)
Inductive piece := Text (t : str) | UriPattern (cls : ascii → bool).

(** [re.match("^..$", s)] with the groups; a group takes as much as it can. *)
Fixpoint path_match (ps : list piece) (s : str) : option (list str) :=
  match ps with
  | [] => if dollar s then Some [] else None
  | Text t :: ps => match after_prefix (eq_char true) t s with Some s => path_match ps s | None => None end
  | UriPattern cls :: ps =>
      let '(w, _) := span cls s in
      (fix try (n : nat) :=
         match n with
         | 0 => None
         | S m => match path_match ps (drop n s) with
                  | Some gs => Some (take n s :: gs)
                  | None => try m
                  end
         end) (length w)
  end.

(** A key of the map: a plain string or a regular expression *)
Inductive path_key := Plain (s : str) | Regex (ps : list piece).

Definition FindMatch {A} (data : list (path_key * A)) (name : str) : option (A * list str) :=
  match List.find (λ ka : path_key * A, match ka.1 with Plain s => bool_decide (s = name) | Regex _ => false end) data with
  | Some (_, a) => Some (a, [])
  | None =>
      head (omap (λ ka : path_key * A, match ka.1 with
                            | Plain _ => None
                            | Regex ps => pair ka.2 <$> path_match ps name
                            end) data)
  end.

Definition getController (connector : list (path_key * resource)) (uri : str)
    : hexc (resource * list str * list (str * list str)) :=
  let '(path, args) := match split_once "?" uri with
                       | Some (path, query) => (path, parse_qs query)
                       | None => (uri, [])
                       end in
  match FindMatch connector path with
  | None => http_raise HttpNotFound
  | Some (r, groups) => Ok (r, groups, args)
  end.

(** ** Requests *)

Record request := Request {
  q_method : method;
  q_path : str;
  q_headers : list (str * str);
  q_body : str
}.

Record context := ReqContext {
  x_resource : resource;
  x_items : list str;
  x_args : list (str * list str);
  x_handler : handler;
  x_access : access;
  x_auth_required : bool
}.

(** How a handler method ends when it does not return *)
Inductive handler_exn := HandlerExn (e : http_exn) | RpcTimeout | RpcProtocol.

(** What is not modelled of the resources: the methods written by hand, the input
    functions, the parameters of the opcode classes, and submission *)
Record resources := Resources {
  own_method : resource → method → list str → list (str * list str) → obj → result handler_exn obj;
  op_input : resource → method → list str → list (str * list str) → obj →
             result handler_exn (obj * list (str * obj));
  opcode_params : string → list param;
  SubmitJob : string → attrs → result handler_exn obj;
  EpochNano : nat → Z
}.

(** What a request made happen: a method written by hand ran, or a job with an
    opcode was submitted *)
Inductive event := Ran (name : string) (m : method) | Submitted (opcode : string) (op : attrs).

Definition AUTH_REALM : str := lit "Ganeti Remote API".
Definition HTTP_APP_JSON : str := lit "application/json".
Definition HTTP_APP_OCTET_STREAM : str := lit "application/octet-stream".
Definition HTTP_CONTENT_TYPE : str := lit "Content-Type".
Definition HTTP_CONTENT_LENGTH : str := lit "Content-Length".
Definition HTTP_CONNECTION : str := lit "Connection".
Definition OPCODE_REASON_SRC_USER : str := lit "gnt:user".
Definition OPCODE_REASON_SRC_RLIB2 : str := lit "gnt:library:rlib2".

Section requests.
  Context `{FloatText}.
  Context (connector : list (path_key * resource)) (res : resources).
  Context (md5_hex : str → str) (users : str → option user) (reqauth : bool).

(** [_GetRequestContext] *)
Definition GetRequestContext (req : request) : hexc context :=
  let m := q_method req in
  let* '(r, items, args) := getController connector (q_path req) in
  let* hs := lift_exc (instantiate r) in
  match dget m hs with
  | None => http_raise HttpNotImplemented
  | Some h =>
      match GetHandlerAccess r m with
      | NotDefined => Raise (PyErr AssertionFailed)
      | a => Ok (ReqContext r items args h a (GetHandlerAuthRequired r m))
      end
  end.

Definition AuthenticationRequired (req : request) : hexc bool :=
  rmap (λ ctx, reqauth || x_auth_required ctx) (GetRequestContext req).

(** [ctx.handler_access is None or user.has_permission(ctx.handler_access)] *)
Definition permitted (a : access) (u : user) : bool :=
  match a with Public => true | Needs p => has_permission p u | NotDefined => has_permission (lit "not_defined") u end.

Definition Authenticate (req : request) (username password : str) : hexc bool :=
  let* ctx := GetRequestContext req in
  match users username with
  | None => Ok false
  | Some u =>
      let* ok := VerifyBasicAuthPassword md5_hex AUTH_REALM username password (u_password u) in
      if negb ok then Ok false
      else if permitted (x_access ctx) u then Ok true
      else http_raise HttpForbidden
  end.

Definition PreHandle (req : request) : hexc unit :=
  PreHandleRequest (AuthenticationRequired req) AUTH_REALM (Authenticate req) (q_headers req).

(** ** Handlers *)

Definition GetRapiOpName (r : resource) : str :=
  match after_prefix (eq_char true) (lit "R_2_") (lit (r_name r)) with
  | Some n => n
  | None => lit (r_name r)
  end.

(** [_GetCommonStatic] *)
Definition GetCommonStatic (ctx : context) : list (str * obj) :=
  let entry n src reason := OTuple [OStr src; OStr reason; OInt (EpochNano res n)] in
  let own := entry 1 (OPCODE_REASON_SRC_RLIB2 ++ lit ":" ++ GetRapiOpName (x_resource ctx)) [] in
  let trail := match checkStringVariable (x_args ctx) (lit "reason") with
               | Some ((_ :: _) as usr_reason) => [entry 0%nat OPCODE_REASON_SRC_USER usr_reason; own]
               | _ => [own]
               end in
  [(lit "reason", OList trail)].

(** [_GetDepends] *)
Definition GetDepends (request_body : obj) : list (obj * obj) :=
  match request_body with
  | ODict d =>
      match dict_get d (OStr (lit "depends")) with
      | Some v => if py_truth v then [(OStr (lit "depends"), v)] else []
      | None => []
      end
  | _ => []
  end.

Definition obj_update (d new : list (obj * obj)) : list (obj * obj) :=
  foldl (λ d '(k, v), match k with OStr s => dict_set s v d | _ => d end) d new.

Definition lift_handler {A} (r : hexc A) : result handler_exn A :=
  match r with Ok a => Ok a | Raise e => Raise (HandlerExn e) end.

(** [_GenericHandler] up to the submission *)
Definition generic_opcode (ctx : context) (m : method) (opcode : string) (rename : option (list (str * str)))
    (own_input : bool) (request_body : obj) : result handler_exn attrs :=
  let r := x_resource ctx in
  let* '(body, specific_static) :=
    if own_input then op_input res r m (x_items ctx) (x_args ctx) request_body else Ok (request_body, []) in
  let body := match body with
              | ODict d => ODict (obj_update d (GetDepends request_body))
              | _ => body
              end in
  lift_handler (FillOpcode (opcode_params res opcode) body (dupdate (GetCommonStatic ctx) specific_static) rename).

Definition args_obj (args : list (str * list str)) : obj :=
  ODict ((λ '(k, vs), (OStr k, OList (OStr <$> vs))) <$> args).

Fixpoint run_handler (ctx : context) (m : method) (h : handler) (body : obj)
    : list event * result handler_exn obj :=
  let r := x_resource ctx in
  match h with
  | Written => ([Ran (r_name r) m], own_method res r m (x_items ctx) (x_args ctx) body)
  | WithAliases aliases =>
      ([Ran (r_name r) m],
       let* v := own_method res r m (x_items ctx) (x_args ctx) body in lift_handler (GetHandler v aliases))
  | Generic opcode rename own_input =>
      match generic_opcode ctx m opcode rename own_input body with
      | Raise e => ([], Raise e)
      | Ok op => ([Submitted opcode op], SubmitJob res opcode op)
      end
  | Forbidden params rename h =>
      match (do* InspectParams (args_obj (x_args ctx)) params rename in InspectParams body params rename) with
      | Raise e => ([], Raise (HandlerExn e))
      | Ok _ => run_handler ctx m h body
      end
  end.

Definition HandleRequest (req : request) : list event * hexc str :=
  match GetRequestContext req with
  | Raise e => ([], Raise e)
  | Ok ctx =>
      let body_data :=
        match q_body req with
        | [] => Ok ONone
        | body =>
            let content_type := default HTTP_APP_OCTET_STREAM (header_get HTTP_CONTENT_TYPE (q_headers req)) in
            if decide (lower content_type = lower HTTP_APP_JSON) then
              match LoadJson body with Ok v => Ok v | Raise _ => http_raise HttpBadRequest end
            else http_raise HttpUnsupportedMediaType
        end in
      match body_data with
      | Raise e => ([], Raise e)
      | Ok v =>
          let '(evs, r) := run_handler ctx (q_method req) (x_handler ctx) v in
          (evs, match r with
                | Ok v => lift_exc (DumpJson false v)
                | Raise (HandlerExn e) => Raise e
                | Raise RpcTimeout => http_raise HttpGatewayTimeout
                | Raise RpcProtocol => http_raise HttpBadGateway
                end)
      end
  end.

(** ** Responses *)

(** The body of an error response is left out. *)
Record response := Response { rs_code : Z; rs_headers : list (str * str); rs_body : option str }.

Definition MAX_REQUEST_BODY_SIZE : Z := 10485760.

Definition error_response (e : http_exn) : response :=
  let '(c, hs) := match e with HttpExn c hs => (c, hs) | PyErr _ => (HttpInternalServerError, []) end in
  Response (http_code c) ((HTTP_CONTENT_TYPE, HTTP_APP_JSON) :: hs) None.

(** [handle_request_inner]: the request line and the headers have been read, what
    follows them is [stream].  The remote API does not ask for client certificates. *)
Definition handle_request (m : method) (path : str) (headers : list (str * str)) (stream : str)
    : list event * response :=
  match (match header_get HTTP_CONTENT_LENGTH headers with Some s => py_int s | None => Some 0%Z end) with
  | None => ([], Response 500 [] None)
  | Some content_length =>
      if (MAX_REQUEST_BODY_SIZE <? content_length)%Z then ([], Response 413 [] None)
      else
        let body := if (0 <? content_length)%Z then take (Z.to_nat content_length) stream else [] in
        let req := Request m path headers body in
        match PreHandle req with
        | Raise e => ([], error_response e)
        | Ok _ =>
            let '(evs, r) := HandleRequest req in
            (evs, match r with
                  | Ok text =>
                      Response 200 [(HTTP_CONTENT_TYPE, HTTP_APP_JSON);
                                    (HTTP_CONTENT_LENGTH, dec (N.of_nat (length text)));
                                    (HTTP_CONNECTION, lit "close")] (Some text)
                  | Raise e => error_response e
                  end)
        end
  end.
End requests.
