(* ===== verification/RapiResources.v ===== *)
(** * The resources of the remote API (src/lib/rapi/__init__.py, rapi/rlib2.py,
    rapi/connector.py)

    The permissions and roles, the classes with the attributes that decide about
    access and about the opcode that is submitted, and the map of paths. *)

From S2P Require Import Prelude Errors PyStr PyDict HttpAuth Rapi.
#[local] Open Scope list_scope.
#[local] Open Scope stdpp_scope.

(** ** Permissions and roles *)

Definition RAPI_ACCESS_ALL : list str := lit <$>
  ["jobs.list"; "jobs.query"; "jobs.cancel"; "jobs.wait"; "instances.multi_alloc";
   "instances.list"; "instances.create"; "instances.grow_disk"; "instances.modify";
   "instances.remove"; "instances.query"; "instances.info"; "instances.reboot";
   "instances.startup"; "instances.shutdown"; "instances.migrate"; "instances.failover";
   "instances.rename"; "instances.reinstall"; "instances.replace_disks";
   "instances.recreate_disks"; "instances.activate_disks"; "instances.deactivate_disks";
   "instances.export.prepare"; "instances.export.create"; "instances.export.remove";
   "instances.query.console"; "os.list"; "filter.list"; "filter.create"; "filter.query";
   "filter.modify"; "filter.remove"; "nodes.list"; "nodes.query"; "nodes.powercycle";
   "nodes.role.query"; "nodes.role.modify"; "nodes.evacuate"; "nodes.migrate"; "nodes.modify";
   "nodes.storage.query"; "nodes.storage.modify"; "nodes.storage.repair"; "networks.list";
   "networks.query"; "networks.create"; "networks.remove"; "networks.connect";
   "networks.disconnect"; "networks.modify"; "networks.rename"; "groups.list"; "groups.create";
   "groups.query"; "groups.delete"; "groups.modify"; "groups.rename"; "groups.assign_nodes";
   "query.all"; "cluster.info"; "cluster.modify"; "cluster.redistribute_config"; "tags.get";
   "tags.set"; "tags.delete"]%string.

Definition RAPI_ACCESS_READONLY : list str := lit <$>
  ["jobs.list"; "jobs.query"; "instances.list"; "instances.query"; "instances.info"; "nodes.list";
   "nodes.query"; "nodes.role.query"; "networks.list"; "networks.query"; "groups.list";
   "groups.query"; "filter.list"; "filter.query"; "cluster.info"; "tags.get"; "query.all";
   "os.list"]%string.

Definition RAPI_ACCESS_OPERATOR : list str := RAPI_ACCESS_READONLY ++ (lit <$>
  ["instances.startup"; "instances.shutdown"; "instances.reboot"; "instances.migrate";
   "instances.failover"; "instances.replace_disks"; "instances.export.prepare";
   "instances.export.create"; "instances.export.remove"; "instances.query.console"]%string).

Definition RAPI_ROLES : list (str * list str) :=
  [(lit "admin", RAPI_ACCESS_ALL); (lit "readonly", RAPI_ACCESS_READONLY); (lit "operator", RAPI_ACCESS_OPERATOR)].

(** ** Classes *)

Definition needs (p : string) : access := Needs (lit p).
Definition renames (l : list (string * string)) : list (str * str) := (λ p : string * string, (lit p.1, lit p.2)) <$> l.

(** Classes derived from [ResourceBase] and from [OpcodeResource] with the
    attributes that most of them have *)
Definition ResourceBase (name : string) (methods : list method) (acc : list (method * access)) : resource :=
  Resource name false methods [] acc [] [] [] [] [].
Definition OpcodeResource (name : string) (methods : list method) (opcodes : list (method * string))
    (acc : list (method * access)) (rename : list (method * list (str * str))) (inputs : list method) : resource :=
  Resource name true methods opcodes acc [] rename [] [] inputs.

Definition R_root : resource :=
  Resource "R_root" false [GET] [] [(GET, Public)] [(GET, false)] [] [] [] [].
Definition R_2 : resource :=
  Resource "R_2" false [GET] [] [(GET, Public)] [(GET, false)] [] [] [] [].
Definition R_version : resource :=
  Resource "R_version" false [GET] [] [(GET, Public)] [(GET, false)] [] [] [] [].
Definition R_2_info : resource :=
  Resource "R_2_info" true [GET] [(GET, "OpClusterQuery")] [(GET, needs "cluster.info")] [] []
    [(GET, renames [("volume_group_name", "vg_name"); ("drbd_usermode_helper", "drbd_helper")])] [] [].
Definition R_2_info_hypervisor_parameters : resource :=
  ResourceBase "R_2_info_hypervisor_parameters" [GET] [(GET, needs "cluster.info")].
Definition R_2_features : resource :=
  Resource "R_2_features" false [GET] [] [(GET, Public)] [(GET, false)] [] [] [] [].
Definition R_2_os : resource :=
  OpcodeResource "R_2_os" [GET] [(GET, "OpOsDiagnose")] [(GET, needs "os.list")] [] [].
Definition R_2_redist_config : resource :=
  OpcodeResource "R_2_redist_config" [] [(PUT, "OpClusterRedistConf")]
    [(PUT, needs "cluster.redistribute_config")] [] [].
Definition R_2_cluster_modify : resource :=
  Resource "R_2_cluster_modify" true [] [(PUT, "OpClusterSetParams")] [(PUT, needs "cluster.modify")] []
    [] [] [(PUT, [AnyValue (lit "compression_tools")])] [].
Definition R_2_filters : resource :=
  ResourceBase "R_2_filters" [GET; POST] [(GET, needs "filter.list"); (POST, needs "filter.create")].
Definition R_2_filters_uuid : resource :=
  ResourceBase "R_2_filters_uuid" [GET; PUT; DELETE]
    [(GET, needs "filter.query"); (PUT, needs "filter.modify"); (DELETE, needs "filter.remove")].
Definition R_2_jobs : resource :=
  ResourceBase "R_2_jobs" [GET] [(GET, needs "jobs.list")].
Definition R_2_jobs_id : resource :=
  ResourceBase "R_2_jobs_id" [GET; DELETE] [(GET, needs "jobs.query"); (DELETE, needs "jobs.cancel")].
Definition R_2_jobs_id_wait : resource :=
  ResourceBase "R_2_jobs_id_wait" [GET] [(GET, needs "jobs.wait")].
Definition R_2_nodes : resource :=
  OpcodeResource "R_2_nodes" [GET] [] [(GET, needs "nodes.list")] [] [].
Definition R_2_nodes_name : resource :=
  Resource "R_2_nodes_name" true [GET] [] [(GET, needs "nodes.query")] [] [] [(GET, renames
    [("sip", "secondary_ip")])] [] [].
Definition R_2_nodes_name_powercycle : resource :=
  OpcodeResource "R_2_nodes_name_powercycle" [] [(POST, "OpNodePowercycle")]
    [(POST, needs "nodes.powercycle")] [] [POST].
Definition R_2_nodes_name_role : resource :=
  OpcodeResource "R_2_nodes_name_role" [GET] [(PUT, "OpNodeSetParams")]
    [(GET, needs "nodes.role.query"); (PUT, needs "nodes.role.modify")] [] [PUT].
Definition R_2_nodes_name_evacuate : resource :=
  OpcodeResource "R_2_nodes_name_evacuate" [] [(POST, "OpNodeEvacuate")]
    [(POST, needs "nodes.evacuate")] [] [POST].
Definition R_2_nodes_name_migrate : resource :=
  OpcodeResource "R_2_nodes_name_migrate" [] [(POST, "OpNodeMigrate")] [(POST, needs "nodes.migrate")]
    [] [POST].
Definition R_2_nodes_name_modify : resource :=
  OpcodeResource "R_2_nodes_name_modify" [] [(POST, "OpNodeSetParams")] [(POST, needs "nodes.modify")]
    [] [POST].
Definition R_2_nodes_name_storage : resource :=
  OpcodeResource "R_2_nodes_name_storage" [] [(GET, "OpNodeQueryStorage")]
    [(GET, needs "nodes.storage.query")] [] [GET].
Definition R_2_nodes_name_storage_modify : resource :=
  OpcodeResource "R_2_nodes_name_storage_modify" [] [(PUT, "OpNodeModifyStorage")]
    [(PUT, needs "nodes.storage.modify")] [] [PUT].
Definition R_2_nodes_name_storage_repair : resource :=
  OpcodeResource "R_2_nodes_name_storage_repair" [] [(PUT, "OpRepairNodeStorage")]
    [(PUT, needs "nodes.storage.repair")] [] [PUT].
Definition R_2_networks : resource :=
  OpcodeResource "R_2_networks" [GET] [(POST, "OpNetworkAdd")]
    [(GET, needs "networks.list"); (POST, needs "networks.create")] [(POST, renames
    [("name", "network_name")])] [POST].
Definition R_2_networks_name : resource :=
  OpcodeResource "R_2_networks_name" [GET] [(DELETE, "OpNetworkRemove")]
    [(GET, needs "networks.query"); (DELETE, needs "networks.remove")] [] [DELETE].
Definition R_2_networks_name_connect : resource :=
  OpcodeResource "R_2_networks_name_connect" [] [(PUT, "OpNetworkConnect")]
    [(PUT, needs "networks.connect")] [] [PUT].
Definition R_2_networks_name_disconnect : resource :=
  OpcodeResource "R_2_networks_name_disconnect" [] [(PUT, "OpNetworkDisconnect")]
    [(PUT, needs "networks.disconnect")] [] [PUT].
Definition R_2_networks_name_modify : resource :=
  OpcodeResource "R_2_networks_name_modify" [] [(PUT, "OpNetworkSetParams")]
    [(PUT, needs "networks.modify")] [] [PUT].
Definition R_2_networks_name_rename : resource :=
  OpcodeResource "R_2_networks_name_rename" [] [(PUT, "OpNetworkRename")]
    [(PUT, needs "networks.rename")] [] [PUT].
Definition R_2_groups : resource :=
  OpcodeResource "R_2_groups" [GET] [(POST, "OpGroupAdd")]
    [(GET, needs "groups.list"); (POST, needs "groups.create")] [(POST, renames
    [("name", "group_name")])] [POST].
Definition R_2_groups_name : resource :=
  OpcodeResource "R_2_groups_name" [GET] [(DELETE, "OpGroupRemove")]
    [(GET, needs "groups.query"); (DELETE, needs "groups.delete")] [] [DELETE].
Definition R_2_groups_name_modify : resource :=
  OpcodeResource "R_2_groups_name_modify" [] [(PUT, "OpGroupSetParams")] [(PUT, needs "groups.modify")]
    [(PUT, renames
    [("custom_ndparams", "ndparams"); ("custom_ipolicy", "ipolicy"); ("custom_diskparams", "diskparams")])]
    [PUT].
Definition R_2_groups_name_rename : resource :=
  OpcodeResource "R_2_groups_name_rename" [] [(PUT, "OpGroupRename")] [(PUT, needs "groups.rename")] [] [PUT].
Definition R_2_groups_name_assign_nodes : resource :=
  OpcodeResource "R_2_groups_name_assign_nodes" [] [(PUT, "OpGroupAssignNodes")]
    [(PUT, needs "groups.assign_nodes")] [] [PUT].
Definition R_2_instances : resource :=
  OpcodeResource "R_2_instances" [GET] [(POST, "OpInstanceCreate")]
    [(GET, needs "instances.list"); (POST, needs "instances.create")] [(POST, renames
    [("os", "os_type"); ("name", "instance_name")])] [POST].
Definition R_2_instances_multi_alloc : resource :=
  OpcodeResource "R_2_instances_multi_alloc" [] [(POST, "OpInstanceMultiAlloc")]
    [(POST, needs "instances.multi_alloc")] [] [POST].
Definition R_2_instances_name : resource :=
  OpcodeResource "R_2_instances_name" [GET] [(DELETE, "OpInstanceRemove")]
    [(GET, needs "instances.query"); (DELETE, needs "instances.remove")] [] [DELETE].
Definition R_2_instances_name_info : resource :=
  OpcodeResource "R_2_instances_name_info" [] [(GET, "OpInstanceQueryData")]
    [(GET, needs "instances.info")] [] [GET].
Definition R_2_instances_name_reboot : resource :=
  OpcodeResource "R_2_instances_name_reboot" [] [(POST, "OpInstanceReboot")]
    [(POST, needs "instances.reboot")] [] [POST].
Definition R_2_instances_name_startup : resource :=
  OpcodeResource "R_2_instances_name_startup" [] [(PUT, "OpInstanceStartup")]
    [(PUT, needs "instances.startup")] [] [PUT].
Definition R_2_instances_name_shutdown : resource :=
  OpcodeResource "R_2_instances_name_shutdown" [] [(PUT, "OpInstanceShutdown")]
    [(PUT, needs "instances.shutdown")] [] [PUT].
Definition R_2_instances_name_reinstall : resource :=
  OpcodeResource "R_2_instances_name_reinstall" [POST] [(POST, "OpInstanceReinstall")]
    [(POST, needs "instances.reinstall")] [] [].
Definition R_2_instances_name_replace_disks : resource :=
  OpcodeResource "R_2_instances_name_replace_disks" [] [(POST, "OpInstanceReplaceDisks")]
    [(POST, needs "instances.replace_disks")] [] [POST].
Definition R_2_instances_name_activate_disks : resource :=
  OpcodeResource "R_2_instances_name_activate_disks" [] [(PUT, "OpInstanceActivateDisks")]
    [(PUT, needs "instances.activate_disks")] [] [PUT].
Definition R_2_instances_name_deactivate_disks : resource :=
  OpcodeResource "R_2_instances_name_deactivate_disks" [] [(PUT, "OpInstanceDeactivateDisks")]
    [(PUT, needs "instances.deactivate_disks")] [] [PUT].
Definition R_2_instances_name_recreate_disks : resource :=
  OpcodeResource "R_2_instances_name_recreate_disks" [] [(POST, "OpInstanceRecreateDisks")]
    [(POST, needs "instances.recreate_disks")] [] [POST].
Definition R_2_instances_name_prepare_export : resource :=
  OpcodeResource "R_2_instances_name_prepare_export" [] [(PUT, "OpBackupPrepare")]
    [(PUT, needs "instances.export.prepare")] [] [PUT].
Definition R_2_instances_name_export : resource :=
  OpcodeResource "R_2_instances_name_export" [] [(PUT, "OpBackupExport"); (DELETE, "OpBackupRemove")]
    [(PUT, needs "instances.export.create"); (DELETE, needs "instances.export.remove")] [(PUT, renames
    [("destination", "target_node")])] [PUT; DELETE].
Definition R_2_instances_name_migrate : resource :=
  OpcodeResource "R_2_instances_name_migrate" [] [(PUT, "OpInstanceMigrate")]
    [(PUT, needs "instances.migrate")] [] [PUT].
Definition R_2_instances_name_failover : resource :=
  OpcodeResource "R_2_instances_name_failover" [] [(PUT, "OpInstanceFailover")]
    [(PUT, needs "instances.failover")] [] [PUT].
Definition R_2_instances_name_rename : resource :=
  OpcodeResource "R_2_instances_name_rename" [] [(PUT, "OpInstanceRename")]
    [(PUT, needs "instances.rename")] [] [PUT].
Definition R_2_instances_name_modify : resource :=
  OpcodeResource "R_2_instances_name_modify" [] [(PUT, "OpInstanceSetParams")]
    [(PUT, needs "instances.modify")] [(PUT, renames
    [("custom_beparams", "beparams"); ("custom_hvparams", "hvparams")])] [PUT].
Definition R_2_instances_name_disk_grow : resource :=
  OpcodeResource "R_2_instances_name_disk_grow" [] [(POST, "OpInstanceGrowDisk")]
    [(POST, needs "instances.grow_disk")] [] [POST].
Definition R_2_instances_name_console : resource :=
  Resource "R_2_instances_name_console" false [GET] [(GET, "OpInstanceConsole")]
    [(GET, needs "instances.query.console")] [] [] [] [] [].
Definition R_2_query : resource :=
  Resource "R_2_query" false [GET; PUT] [(GET, "OpQuery"); (PUT, "OpQuery")]
    [(GET, needs "query.all"); (PUT, needs "query.all")] [] [] [] [] [].
Definition R_2_query_fields : resource :=
  Resource "R_2_query_fields" false [GET] [(GET, "OpQueryFields")] [(GET, needs "query.all")] [] [] [] [] [].
Definition R_Tags : resource :=
  OpcodeResource "_R_Tags" [GET] [(GET, "OpTagsGet"); (PUT, "OpTagsSet"); (DELETE, "OpTagsDel")]
    [(GET, needs "tags.get"); (PUT, needs "tags.set"); (DELETE, needs "tags.delete")] [] [PUT; DELETE].
Definition R_2_instances_name_tags : resource :=
  OpcodeResource "R_2_instances_name_tags" [GET]
    [(GET, "OpTagsGet"); (PUT, "OpTagsSet"); (DELETE, "OpTagsDel")]
    [(GET, needs "tags.get"); (PUT, needs "tags.set"); (DELETE, needs "tags.delete")] [] [PUT; DELETE].
Definition R_2_nodes_name_tags : resource :=
  OpcodeResource "R_2_nodes_name_tags" [GET]
    [(GET, "OpTagsGet"); (PUT, "OpTagsSet"); (DELETE, "OpTagsDel")]
    [(GET, needs "tags.get"); (PUT, needs "tags.set"); (DELETE, needs "tags.delete")] [] [PUT; DELETE].
Definition R_2_groups_name_tags : resource :=
  OpcodeResource "R_2_groups_name_tags" [GET]
    [(GET, "OpTagsGet"); (PUT, "OpTagsSet"); (DELETE, "OpTagsDel")]
    [(GET, needs "tags.get"); (PUT, needs "tags.set"); (DELETE, needs "tags.delete")] [] [PUT; DELETE].
Definition R_2_networks_name_tags : resource :=
  OpcodeResource "R_2_networks_name_tags" [GET]
    [(GET, "OpTagsGet"); (PUT, "OpTagsSet"); (DELETE, "OpTagsDel")]
    [(GET, needs "tags.get"); (PUT, needs "tags.set"); (DELETE, needs "tags.delete")] [] [PUT; DELETE].
Definition R_2_tags : resource :=
  OpcodeResource "R_2_tags" [GET] [(GET, "OpTagsGet"); (PUT, "OpTagsSet"); (DELETE, "OpTagsDel")]
    [(GET, needs "tags.get"); (PUT, needs "tags.set"); (DELETE, needs "tags.delete")] [] [PUT; DELETE].

(** ** The map of paths *)

Definition name_char (a : ascii) : bool := is_alnum a || char_in (lit "._-") a.

(** [GetHandlers] with the patterns of [CONNECTOR] *)
Definition GetHandlers (node_name instance_name group_name network_name job_id disk filter_uuid query_res : piece)
    : list (path_key * resource) :=
  [(Plain (lit "/"), R_root);
   (Plain (lit "/2"), R_2);
   (Plain (lit "/version"), R_version);
   (Plain (lit "/2/nodes"), R_2_nodes);
   (Regex [Text (lit "/2/nodes/"); node_name], R_2_nodes_name);
   (Regex [Text (lit "/2/nodes/"); node_name; Text (lit "/powercycle")], R_2_nodes_name_powercycle);
   (Regex [Text (lit "/2/nodes/"); node_name; Text (lit "/tags")], R_2_nodes_name_tags);
   (Regex [Text (lit "/2/nodes/"); node_name; Text (lit "/role")], R_2_nodes_name_role);
   (Regex [Text (lit "/2/nodes/"); node_name; Text (lit "/evacuate")], R_2_nodes_name_evacuate);
   (Regex [Text (lit "/2/nodes/"); node_name; Text (lit "/migrate")], R_2_nodes_name_migrate);
   (Regex [Text (lit "/2/nodes/"); node_name; Text (lit "/modify")], R_2_nodes_name_modify);
   (Regex [Text (lit "/2/nodes/"); node_name; Text (lit "/storage")], R_2_nodes_name_storage);
   (Regex [Text (lit "/2/nodes/"); node_name; Text (lit "/storage/modify")], R_2_nodes_name_storage_modify);
   (Regex [Text (lit "/2/nodes/"); node_name; Text (lit "/storage/repair")], R_2_nodes_name_storage_repair);
   (Plain (lit "/2/instances"), R_2_instances);
   (Regex [Text (lit "/2/instances/"); instance_name], R_2_instances_name);
   (Regex [Text (lit "/2/instances/"); instance_name; Text (lit "/info")], R_2_instances_name_info);
   (Regex [Text (lit "/2/instances/"); instance_name; Text (lit "/tags")], R_2_instances_name_tags);
   (Regex [Text (lit "/2/instances/"); instance_name; Text (lit "/reboot")], R_2_instances_name_reboot);
   (Regex [Text (lit "/2/instances/"); instance_name; Text (lit "/reinstall")], R_2_instances_name_reinstall);
   (Regex [Text (lit "/2/instances/"); instance_name; Text (lit "/replace-disks")], R_2_instances_name_replace_disks);
   (Regex [Text (lit "/2/instances/"); instance_name; Text (lit "/shutdown")], R_2_instances_name_shutdown);
   (Regex [Text (lit "/2/instances/"); instance_name; Text (lit "/startup")], R_2_instances_name_startup);
   (Regex [Text (lit "/2/instances/"); instance_name; Text (lit "/activate-disks")], R_2_instances_name_activate_disks);
   (Regex [Text (lit "/2/instances/"); instance_name; Text (lit "/deactivate-disks")], R_2_instances_name_deactivate_disks);
   (Regex [Text (lit "/2/instances/"); instance_name; Text (lit "/recreate-disks")], R_2_instances_name_recreate_disks);
   (Regex [Text (lit "/2/instances/"); instance_name; Text (lit "/prepare-export")], R_2_instances_name_prepare_export);
   (Regex [Text (lit "/2/instances/"); instance_name; Text (lit "/export")], R_2_instances_name_export);
   (Regex [Text (lit "/2/instances/"); instance_name; Text (lit "/migrate")], R_2_instances_name_migrate);
   (Regex [Text (lit "/2/instances/"); instance_name; Text (lit "/failover")], R_2_instances_name_failover);
   (Regex [Text (lit "/2/instances/"); instance_name; Text (lit "/rename")], R_2_instances_name_rename);
   (Regex [Text (lit "/2/instances/"); instance_name; Text (lit "/modify")], R_2_instances_name_modify);
   (Regex [Text (lit "/2/instances/"); instance_name; Text (lit "/disk/"); disk; Text (lit "/grow")], R_2_instances_name_disk_grow);
   (Regex [Text (lit "/2/instances/"); instance_name; Text (lit "/console")], R_2_instances_name_console);
   (Plain (lit "/2/networks"), R_2_networks);
   (Regex [Text (lit "/2/networks/"); network_name], R_2_networks_name);
   (Regex [Text (lit "/2/networks/"); network_name; Text (lit "/connect")], R_2_networks_name_connect);
   (Regex [Text (lit "/2/networks/"); network_name; Text (lit "/disconnect")], R_2_networks_name_disconnect);
   (Regex [Text (lit "/2/networks/"); network_name; Text (lit "/rename")], R_2_networks_name_rename);
   (Regex [Text (lit "/2/networks/"); network_name; Text (lit "/modify")], R_2_networks_name_modify);
   (Regex [Text (lit "/2/networks/"); network_name; Text (lit "/tags")], R_2_networks_name_tags);
   (Plain (lit "/2/groups"), R_2_groups);
   (Regex [Text (lit "/2/groups/"); group_name], R_2_groups_name);
   (Regex [Text (lit "/2/groups/"); group_name; Text (lit "/modify")], R_2_groups_name_modify);
   (Regex [Text (lit "/2/groups/"); group_name; Text (lit "/rename")], R_2_groups_name_rename);
   (Regex [Text (lit "/2/groups/"); group_name; Text (lit "/assign-nodes")], R_2_groups_name_assign_nodes);
   (Regex [Text (lit "/2/groups/"); group_name; Text (lit "/tags")], R_2_groups_name_tags);
   (Plain (lit "/2/jobs"), R_2_jobs);
   (Regex [Text (lit "/2/jobs/"); job_id], R_2_jobs_id);
   (Regex [Text (lit "/2/jobs/"); job_id; Text (lit "/wait")], R_2_jobs_id_wait);
   (Plain (lit "/2/instances-multi-alloc"), R_2_instances_multi_alloc);
   (Plain (lit "/2/tags"), R_2_tags);
   (Plain (lit "/2/info"), R_2_info);
   (Plain (lit "/2/info/hypervisor-parameters"), R_2_info_hypervisor_parameters);
   (Plain (lit "/2/os"), R_2_os);
   (Plain (lit "/2/redistribute-config"), R_2_redist_config);
   (Plain (lit "/2/features"), R_2_features);
   (Plain (lit "/2/modify"), R_2_cluster_modify);
   (Regex [Text (lit "/2/query/"); query_res], R_2_query);
   (Regex [Text (lit "/2/query/"); query_res; Text (lit "/fields")], R_2_query_fields);
   (Plain (lit "/2/filters"), R_2_filters);
   (Regex [Text (lit "/2/filters/"); filter_uuid], R_2_filters_uuid)].

Definition CONNECTOR : list (path_key * resource) :=
  GetHandlers (UriPattern name_char) (UriPattern name_char) (UriPattern name_char) (UriPattern name_char)
    (UriPattern is_digit) (UriPattern is_digit) (UriPattern name_char) (UriPattern name_char).
