(* ===== verification/RapiProps.v ===== *)
(** * What the remote API guarantees

    A request makes something happen only for someone who may do it: the theorem
    on access control says exactly when a handler is reached, from the headers of
    the request and the text of the users file.  Of the roles of the release the
    read-only one reaches reading methods only, and without credentials only
    the four public resources can be reached. *)

From S2P Require Import Prelude Errors PySort PyStr PyVal Json Serializer Text PyDict Ht OpCodes.
From S2P Require Import Base64 HttpAuth Rapi RapiResources.
From stdpp Require Import gmap.
#[local] Open Scope list_scope.
#[local] Open Scope stdpp_scope.
#[local] Open Scope py_scope.

(** ** Permissions *)

(** A permission comes from a role, from a deprecated name for one, or from itself,
    and is not removed; the order of the options does not matter. *)
Definition grants (roles : list (str * list str)) (options : list str) (p : str) : Prop :=
  ("-"%char :: p) ∉ options ∧
  ((∃ r perms, ("@"%char :: r) ∈ options ∧ dget r roles = Some perms ∧ p ∈ perms) ∨
   (∃ o r perms, o ∈ options ∧ dget o DEPRECATED_PERM_MAPPING = Some r ∧ dget r roles = Some perms ∧ p ∈ perms) ∨
   ("+"%char :: p) ∈ options ∨
   (p ∈ options ∧ classify p = Explicit p)).

Lemma classify_spec o t :
  classify o = t ↔
  match t with
  | Role r => o = "@"%char :: r
  | Added p => o = "+"%char :: p
  | Removed p => o = "-"%char :: p
  | Legacy o' => o' = o ∧ dhas o DEPRECATED_PERM_MAPPING = true
  | Explicit p => p = o ∧ classify o = Explicit o
  end.
Proof.
  assert (∀ o, dhas o DEPRECATED_PERM_MAPPING = true → classify o = Legacy o) as Hleg.
  { intros o' Ho'%dhas_true. unfold DEPRECATED_PERM_MAPPING, dkeys in Ho'. simpl in Ho'.
    rewrite !elem_of_cons, elem_of_nil in Ho'. by destruct Ho' as [->|[->|[->|[]]]]. }
  split.
  - intros <-. unfold classify. destruct o as [|c rest].
    { by destruct (dhas [] DEPRECATED_PERM_MAPPING) eqn:E. }
    repeat case_decide; subst; try done. destruct (dhas _ _) eqn:E; [done|].
    by split.
  - destruct t as [r|p|p|o'|p]; [intros ->; done..| |]; [by intros [-> ?]; apply Hleg|by intros [-> ?]].
Qed.

Lemma elem_of_Union_fmap (f : str → gset str) (l : list str) p : p ∈ ⋃ (f <$> l) ↔ ∃ r, r ∈ l ∧ p ∈ f r.
Proof.
  rewrite elem_of_union_list. setoid_rewrite list_elem_of_fmap. naive_solver.
Qed.

Lemma elem_of_role_permissions roles r p :
  p ∈ role_permissions roles r ↔ ∃ perms, dget r roles = Some perms ∧ p ∈ perms.
Proof.
  unfold role_permissions. rewrite elem_of_list_to_set. destruct (dget r roles) as [perms|]; simpl; [naive_solver|].
  rewrite elem_of_nil. naive_solver.
Qed.

Lemma elem_of_tokens {B} (f : token → option B) (options : list str) b :
  b ∈ omap f (classify <$> options) ↔ ∃ o, o ∈ options ∧ f (classify o) = Some b.
Proof. rewrite list_elem_of_omap. setoid_rewrite list_elem_of_fmap. naive_solver. Qed.

Lemma resolve_permissions_spec roles options p :
  p ∈ resolve_permissions roles options ↔ grants roles options p.
Proof.
  unfold resolve_permissions, grants. rewrite elem_of_difference, !elem_of_union, !elem_of_Union_fmap.
  rewrite !elem_of_list_to_set. setoid_rewrite elem_of_tokens. setoid_rewrite elem_of_role_permissions.
  split.
  - intros [[[[(r & (o & Ho & Hc) & perms & Hr & Hp)|(r & (o & Ho & Hc) & perms & Hr & Hp)]|(o & Ho & Hc)]|
      (o & Ho & Hc)] Hrem].
    all: destruct (classify o) eqn:Ec; try done; apply classify_spec in Ec.
    all: split; [intros Hin; apply Hrem; exists ("-"%char :: p); by split|].
    + injection Hc as ->. subst o. left. eauto.
    + destruct Ec as [-> _]. right. left. eauto 10.
    + injection Hc as ->. destruct Ec as [-> Ec]. right. right. right. done.
    + injection Hc as ->. subst o. right. right. by left.
  - intros [Hrem Hg]. split.
    + destruct Hg as [(r & perms & Ho & Hr & Hp)|[(o & r & perms & Ho & Hd & Hr & Hp)|[Ho|[Ho Hc]]]].
      * left. left. left. exists r. split; [|eauto]. by exists ("@"%char :: r).
      * left. left. right. exists r. split; [|eauto]. exists o. split; [done|].
        rewrite (proj2 (classify_spec o (Legacy o))); [done|]. split; [done|]. by eapply dget_dhas.
      * right. by exists ("+"%char :: p).
      * left. right. exists p. by rewrite Hc.
    + intros (o & Ho & Hc). destruct (classify o) eqn:Ec; try done. injection Hc as ->.
      apply classify_spec in Ec as ->. done.
Qed.

(** ** Splitting *)

Lemma span_spec P s w r :
  span P s = (w, r) ↔ s = w ++ r ∧ Forall (λ a, P a = true) w ∧ (∀ a, head r = Some a → P a = false).
Proof.
  split.
  - revert w r. induction s as [|a s IH]; intros w r; simpl; [by intros [= <- <-]|].
    destruct (P a) eqn:Ea.
    + destruct (span P s) as [x y]. destruct (IH x y eq_refl) as (-> & Hx & Hy). intros [= <- <-].
      split_and!; [done|by constructor|done].
    + intros [= <- <-]. split_and!; [done|constructor|]. by intros ? [= <-].
  - intros (-> & Hw & Hr). apply span_app; [done|]. destruct r as [|a r]; [done|]. by apply Hr.
Qed.

Lemma span_until c s w r :
  span (λ a, negb (bool_decide (a = c))) s = (w, r) ↔
  s = w ++ r ∧ c ∉ w ∧ (r = [] ∨ head r = Some c).
Proof.
  rewrite span_spec. apply and_iff_compat_l. rewrite Forall_forall. split.
  - intros [Hw Hr]. split.
    + intros Hc. specialize (Hw c Hc). by rewrite bool_decide_true in Hw.
    + destruct r as [|a r]; [by left|]. right. specialize (Hr a eq_refl).
      apply negb_false_iff, bool_decide_eq_true in Hr as ->. done.
  - intros [Hw Hr]. split.
    + intros a Ha. rewrite bool_decide_false; [done|]. by intros ->.
    + intros a Ha. destruct Hr as [->|Hr]; [done|]. rewrite Hr in Ha. injection Ha as ->. by rewrite bool_decide_true.
Qed.

Lemma split_once_spec c s u p : split_once c s = Some (u, p) ↔ s = u ++ c :: p ∧ c ∉ u.
Proof.
  unfold split_once. destruct (span _ s) as [w r] eqn:E. pose proof (proj1 (span_until _ _ _ _) E) as (-> & Hw & Hr).
  split.
  - destruct r as [|d r]; [done|]. intros [= -> ->]. destruct Hr as [|[= ->]]; done.
  - intros [Heq Hu]. assert (span (λ a, negb (bool_decide (a = c))) (w ++ r) = (u, c :: p)) as E'.
    { apply span_until. split_and!; [done..|]. by right. }
    rewrite E in E'. by injection E' as -> ->.
Qed.

(** ** Passwords *)

Lemma split_scheme_spec s scheme rest :
  split_scheme s = Some (scheme, rest) ↔
  ∃ b w, scheme = b :: w ++ ["}"%char] ∧ s = scheme ++ rest ∧ w ≠ [] ∧ "}"%char ∉ w.
Proof.
  unfold split_scheme. destruct s as [|b s]; [naive_solver|].
  destruct (span _ s) as [w r] eqn:E. pose proof (proj1 (span_until _ _ _ _) E) as (-> & Hw & Hr). split.
  - destruct r as [|c r]; [done|]. destruct Hr as [|[= ->]]; [done|]. case_bool_decide as Hn; [done|].
    intros [= <- <-]. exists b, w. split_and!; try done. simpl. by rewrite <-(assoc_L (++)).
  - intros (b' & w' & -> & Heq & Hn & Hw'). simpl in Heq. injection Heq as -> Heq.
    assert (span (λ a, negb (bool_decide (a = "}"%char))) (w ++ r) = (w', "}"%char :: rest)) as E'.
    { apply span_until. split_and!; [|done|by right]. rewrite Heq, <-(assoc_L (++)). done. }
    rewrite E in E'. injection E' as -> ->. by rewrite bool_decide_false.
Qed.

Section access.
  Context `{FloatText}.
  Context (md5_hex : str → str).

(** The password of a user is right: it is the one stored, or the one stored is the
    digest of user, realm and password. *)
Definition password_matches (username password expected : str) : Prop :=
  let stored := if bool_decide (head expected = Some "{"%char) then expected else CLEARTEXT_SCHEME ++ expected in
  ∃ scheme secret, split_scheme stored = Some (scheme, secret) ∧
    (upper scheme = CLEARTEXT_SCHEME ∧ password = secret ∨
     upper scheme = HA1_SCHEME ∧ is_ascii (username ++ password) = true ∧
     lower secret = lower (md5_hex (username ++ lit ":" ++ AUTH_REALM ++ lit ":" ++ password))).

Lemma is_ascii_app a b : is_ascii (a ++ b) = is_ascii a && is_ascii b.
Proof. apply forallb_app. Qed.

Lemma VerifyBasicAuthPassword_spec username password expected :
  is_ascii (username ++ password) = true →
  ∃ b, VerifyBasicAuthPassword md5_hex AUTH_REALM username password expected = Ok b ∧
    (b = true ↔ password_matches username password expected).
Proof.
  intros Ha. unfold VerifyBasicAuthPassword, password_matches. set (stored := if bool_decide _ then _ else _).
  destruct (split_scheme stored) as [[scheme secret]|]; [|exists false; naive_solver].
  destruct (decide (upper scheme = CLEARTEXT_SCHEME)) as [Hc|Hc].
  - eexists. split; [done|]. rewrite bool_decide_eq_true. split; [naive_solver|].
    intros (? & ? & [= <- <-] & [[_ ?]|[Hh _]]); [done|]. by rewrite Hc in Hh.
  - destruct (decide (upper scheme = HA1_SCHEME)) as [Hh|Hh]; [|exists false; naive_solver].
    rewrite bool_decide_false by done. eexists. split.
    + assert (is_ascii (username ++ lit ":" ++ AUTH_REALM ++ lit ":" ++ password) = true) as ->; [|done].
      rewrite is_ascii_app in Ha. apply andb_prop in Ha as [H1 H2]. by rewrite !is_ascii_app, H1, H2.
    + rewrite bool_decide_eq_true. naive_solver.
Qed.

(** ** Credentials *)

(** The request carries the credentials in its [Authorization] header. *)
Definition credentials (headers : list (str * str)) (username password : str) : Prop :=
  ∃ value scheme data rest creds,
    header_get HTTP_AUTHORIZATION headers = Some value ∧ split_ws 2 (strip value) = scheme :: data :: rest ∧
    lower scheme = lower HTTP_BASIC_AUTH ∧ is_ascii data = true ∧ b64decode data = Some creds ∧
    is_ascii creds = true ∧ creds = username ++ ":"%char :: password ∧ ":"%char ∉ username.

(** What [Authenticate] answers decides, when there are credentials. *)
Lemma CheckAuthorization_spec (Auth : str → str → hexc bool) headers :
  (∃ username password, credentials headers username password ∧
     is_ascii (username ++ password) = true ∧
     CheckAuthorization Auth headers = Auth username password) ∨
  ((∀ username password, ¬ credentials headers username password) ∧
   (CheckAuthorization Auth headers = Ok false ∨ CheckAuthorization Auth headers = http_raise HttpBadRequest)).
Proof.
  unfold CheckAuthorization, CheckBasicAuthorization, credentials.
  destruct (header_get HTTP_AUTHORIZATION headers) as [value|]; [|right; naive_solver].
  destruct value as [|v vs]; [right; split; [|by left]; by intros ? ? (? & ? & ? & ? & ? & [= <-] & [=] & _)|].
  destruct (split_ws 2 (strip (v :: vs))) as [|scheme [|data rest]] eqn:Es.
  { right. split; [|by left]. intros ? ? (? & ? & ? & ? & ? & [= <-] & Hs & _). congruence. }
  { right. split; [intros ? ? (? & ? & ? & ? & ? & [= <-] & Hs & _); congruence|].
    case_decide; [by right|by left]. }
  case_decide as Hsch; [|right; split; [|by left]; intros ? ? (? & ? & ? & ? & ? & [= <-] & Hs & Hb & _); congruence].
  destruct (is_ascii data) eqn:Ea;
    [|right; split; [|by left]; intros ? ? (? & ? & ? & ? & ? & [= <-] & Hs & _ & Hd & _); congruence].
  destruct (b64decode data) as [creds|] eqn:Eb;
    [|right; split; [|by left]; intros ? ? (? & ? & ? & ? & ? & [= <-] & Hs & _ & _ & Hd & _); congruence].
  destruct (is_ascii creds) eqn:Ec;
    [|right; split; [|by left]; intros ? ? (? & ? & ? & ? & ? & [= <-] & Hs & _ & _ & Hd & Hc & _); congruence].
  destruct (split_once ":" creds) as [[u p]|] eqn:Eo.
  - left. apply split_once_spec in Eo as [-> Hu]. exists u, p. split_and!; [| |done].
    2: { rewrite is_ascii_app in *. apply andb_prop in Ec as [H1 [_ H2]%andb_prop]. rewrite H1. exact H2. }
    exists (v :: vs), scheme, data, rest, (u ++ ":"%char :: p). done.
  - right. split; [|by left]. intros u p (? & ? & ? & ? & ? & [= <-] & Hs & _ & _ & Hd & _ & -> & Hu).
    rewrite Es in Hs. injection Hs as <- <- <-. rewrite Eb in Hd. injection Hd as ->.
    by rewrite (proj2 (split_once_spec ":" _ u p)) in Eo.
Qed.

(** ** Users *)

(** The last line of the file that is about the user *)
Definition listed (contents username : str) (u : user) : Prop :=
  last (filter (λ nu, nu.1 = username) (omap (parse_user RAPI_ROLES) (FilterEmptyLinesAndComments contents))) =
    Some (username, u).

Lemma ParsePasswordFile_spec contents username u :
  dget username (ParsePasswordFile RAPI_ROLES contents) = Some u ↔ listed contents username u.
Proof.
  unfold ParsePasswordFile, listed. induction (FilterEmptyLinesAndComments contents) as [|line lines IH] using rev_ind.
  { done. }
  rewrite foldl_app, omap_app, filter_app, last_app. cbn [foldl omap list_omap].
  destruct (parse_user RAPI_ROLES line) as [[n v]|]; [|exact IH].
  rewrite dget_dset. destruct (decide (username = n)) as [->|Hn].
  - rewrite filter_cons_True by done. simpl. naive_solver.
  - rewrite filter_cons_False by (simpl; congruence). exact IH.
Qed.

Lemma listed_permissions contents username u :
  listed contents username u → u_permissions u = resolve_permissions RAPI_ROLES (u_options u).
Proof.
  intros Hin%last_Some_elem_of. apply list_elem_of_filter in Hin as [_ (line & _ & Hl)%list_elem_of_omap].
  unfold parse_user in Hl. destruct (split_ws 2 line) as [|name [|password rest]]; try done.
  by injection Hl as <- <-.
Qed.

(** ** Access control *)

Context (connector : list (path_key * resource)) (res : resources) (contents : str) (reqauth : bool).

Definition file_users (username : str) : option user := dget username (ParsePasswordFile RAPI_ROLES contents).

(** What the rights of a user allow *)
Definition allowed (a : access) (u : user) : Prop :=
  a = Public ∨ ∃ p, a = Needs p ∧ grants RAPI_ROLES (u_options u) p.

Definition may_access (req : request) (ctx : context) : Prop :=
  (reqauth = false ∧ x_auth_required ctx = false ∧ header_get HTTP_AUTHORIZATION (q_headers req) = None) ∨
  (∃ username password u,
     credentials (q_headers req) username password ∧ listed contents username u ∧
     password_matches username password (u_password u) ∧ allowed (x_access ctx) u).

Lemma GetRequestContext_access req ctx : GetRequestContext connector req = Ok ctx → x_access ctx ≠ NotDefined.
Proof.
  unfold GetRequestContext. intros ([[r items] args] & _ & (hs & _ & Hm)%rbind_Ok)%rbind_Ok.
  destruct (dget _ hs); [|done]. destruct (GetHandlerAccess r _) eqn:E; [done|..]; by injection Hm as <-.
Qed.

Lemma credentials_unique headers u p u' p' :
  credentials headers u p → credentials headers u' p' → u = u' ∧ p = p'.
Proof.
  intros (v & sc & d & r & c & Hv & Hs & _ & _ & Hd & _ & Hc & Hu) (v' & sc' & d' & r' & c' & Hv' & Hs' & _ & _ & Hd' & _ & Hc' & Hu').
  rewrite Hv in Hv'. injection Hv' as <-. rewrite Hs in Hs'. injection Hs' as <- <- <-. rewrite Hd in Hd'. injection Hd' as <-.
  pose proof (proj2 (split_once_spec ":" c u p) (conj Hc Hu)) as E.
  pose proof (proj2 (split_once_spec ":" c u' p') (conj Hc' Hu')) as E'. rewrite E in E'. by injection E' as -> ->.
Qed.

Lemma permitted_allowed contents' username a u :
  listed contents' username u → a ≠ NotDefined → permitted a u = true ↔ allowed a u.
Proof.
  intros Hl%listed_permissions Ha. unfold permitted, allowed, has_permission.
  destruct a as [| |p]; [done|naive_solver|]. rewrite bool_decide_eq_true, Hl, resolve_permissions_spec. naive_solver.
Qed.

(** [PreHandleRequest] lets a request pass exactly when it may access the resource. *)
Lemma PreHandle_spec req ctx :
  GetRequestContext connector req = Ok ctx →
  (may_access req ctx ∧ PreHandle connector md5_hex file_users reqauth req = Ok tt) ∨
  (¬ may_access req ctx ∧ ∃ c hs, PreHandle connector md5_hex file_users reqauth req = Raise (HttpExn c hs) ∧
     c ∈ [HttpBadRequest; HttpUnauthorized; HttpForbidden]).
Proof.
  intros Hctx. unfold PreHandle, PreHandleRequest, AuthenticationRequired. rewrite Hctx. cbn [rmap rbind].
  set (must := reqauth || x_auth_required ctx).
  destruct (negb (must || bool_decide (is_Some (header_get HTTP_AUTHORIZATION (q_headers req))))) eqn:Eskip.
  { left. apply negb_true_iff, orb_false_iff in Eskip as [[-> Hauth]%orb_false_iff Hno%bool_decide_eq_false].
    split; [|done]. left. split_and!; [done..|]. by apply eq_None_not_Some. }
  rewrite bool_decide_false by done.
  assert (may_access req ctx ↔ ∃ username password u,
     credentials (q_headers req) username password ∧ listed contents username u ∧
     password_matches username password (u_password u) ∧ allowed (x_access ctx) u) as Hma.
  { unfold may_access. split; [|by right]. intros [(-> & Hau & Hno)|?]; [|done]. exfalso. revert Eskip.
    unfold must. rewrite Hau, Hno. done. }
  destruct (CheckAuthorization_spec (Authenticate connector md5_hex file_users req) (q_headers req))
    as [(username & password & Hcr & Hasc & Hck)|[Hno Hck]].
  2: { right. split; [rewrite Hma; by intros (u & p & ? & Hcr & _); apply (Hno u p)|].
       destruct Hck as [-> | ->]; cbn [rbind]; eexists _, _; (split; [done|]); set_solver. }
  rewrite Hck. unfold Authenticate. rewrite Hctx. cbn [rbind].
  assert (∀ u, may_access req ctx → file_users username = Some u →
    password_matches username password (u_password u) ∧ allowed (x_access ctx) u) as Hneed.
  { intros u (un & pw & u' & Hcr' & Hl & Hpw & Hal)%Hma Hu. destruct (credentials_unique _ _ _ _ _ Hcr Hcr') as [<- <-].
    apply ParsePasswordFile_spec in Hl. unfold file_users in Hu. rewrite Hu in Hl. by injection Hl as ->. }
  destruct (file_users username) as [u|] eqn:Eu.
  2: { right. split; [|eexists _, _; split; [done|set_solver]].
       intros (un & pw & u' & Hcr' & Hl & _)%Hma. destruct (credentials_unique _ _ _ _ _ Hcr Hcr') as [<- _].
       apply ParsePasswordFile_spec in Hl. unfold file_users in Eu. congruence. }
  destruct (VerifyBasicAuthPassword_spec username password (u_password u) Hasc) as (b & -> & Hb). cbn [rbind].
  assert (listed contents username u) as Hl by (by apply ParsePasswordFile_spec).
  destruct b; cbn [negb].
  - pose proof (permitted_allowed contents username (x_access ctx) u Hl (GetRequestContext_access _ _ Hctx)) as Hperm.
    destruct (permitted (x_access ctx) u); cbn [rbind].
    + left. split; [|done]. apply Hma. exists username, password, u. split_and!; [done..|by apply Hb|by apply Hperm].
    + right. split; [|eexists _, _; split; [done|set_solver]]. intros Hm. destruct (Hneed u Hm eq_refl) as [_ Hal].
      by apply Hperm in Hal.
  - right. split; [|eexists _, _; split; [done|set_solver]]. intros Hm. destruct (Hneed u Hm eq_refl) as [Hpw _].
    by apply Hb in Hpw.
Qed.

(** ** Handlers *)

(** Under its check of parameters a handler is the method written by hand, or the
    one that submits the opcode of the method. *)
Fixpoint handles (r : resource) (m : method) (h : handler) : Prop :=
  match h with
  | Written | WithAliases _ => m ∈ r_methods r
  | Generic opcode _ _ => m ∉ r_methods r ∧ dget m (r_OPCODE r) = Some opcode
  | Forbidden _ _ h => handles r m h
  end.

Lemma patch_method_handles r m h : patch_method r m = Ok (Some h) → handles r m h.
Proof.
  unfold patch_method. intros (o & Ho & Hf)%rbind_Ok.
  assert (∀ h, o = Some h → handles r m h) as Hh.
  { intros h' ->. destruct (decide (m ∈ r_methods r)) as [Hm|Hm].
    - do 3 apply rbind_Ok in Ho as (? & _ & Ho). injection Ho as <-. destruct (dget m (r_ALIASES r)); [|done].
      by destruct (decide (m = GET)).
    - injection Ho as Ho. by apply fmap_Some in Ho as (opcode & Hop & ->). }
  destruct (dget m (r_FORBIDDEN r)); [|by injection Hf as ->; apply Hh].
  destruct o as [h'|]; [|done]. injection Hf as <-. simpl. by apply Hh.
Qed.

Lemma instantiate_handles r hs m h : instantiate r = Ok hs → dget m hs = Some h → handles r m h.
Proof.
  unfold instantiate. destruct (r_opcode_resource r).
  - intros (l & Hl & [= <-])%rbind_Ok Hm%dget_Some_1. apply list_elem_of_omap in Hm as ([m' o] & Hin & Ho).
    simpl in Ho. destruct o as [h'|]; [|done]. injection Ho as -> ->.
    apply (rmapM_elem_r _ _ _ _ Hl) in Hin as (m' & _ & (o & Ho & [= -> ->])%rmap_Ok). by apply patch_method_handles.
  - intros [= <-] Hm%dget_Some_1. apply list_elem_of_fmap in Hm as (m' & [= -> ->] & Hin). done.
Qed.

(** What an event may be for a request that was given the context *)
Definition event_of (ctx : context) (m : method) (e : event) : Prop :=
  match e with
  | Ran name m' => name = r_name (x_resource ctx) ∧ m' = m ∧ m ∈ r_methods (x_resource ctx)
  | Submitted opcode _ => m ∉ r_methods (x_resource ctx) ∧ dget m (r_OPCODE (x_resource ctx)) = Some opcode
  end.

Lemma run_handler_events ctx m h body :
  handles (x_resource ctx) m h →
  (run_handler res ctx m h body).1 = [] ∨ ∃ e, (run_handler res ctx m h body).1 = [e] ∧ event_of ctx m e.
Proof.
  induction h as [|aliases|opcode rename own|ps rename h IH]; simpl; intros Hh.
  - right. by eexists.
  - right. by eexists.
  - destruct (generic_opcode _ _ _ _ _ _ _); [|by left]. right. by eexists.
  - destruct (rbind _ _); [by apply IH|by left].
Qed.

Lemma GetRequestContext_handles req ctx :
  GetRequestContext connector req = Ok ctx → handles (x_resource ctx) (q_method req) (x_handler ctx).
Proof.
  unfold GetRequestContext. intros ([[r items] args] & _ & (hs & Hhs & Hm)%rbind_Ok)%rbind_Ok.
  destruct (instantiate r) as [hs'|] eqn:Ei; [|done]. injection Hhs as ->.
  destruct (dget _ hs) as [h|] eqn:Ed; [|done]. pose proof (instantiate_handles _ _ _ _ Ei Ed) as Hh.
  destruct (GetHandlerAccess r _); [done|..]; by injection Hm as <-.
Qed.

Lemma HandleRequest_events req ctx :
  GetRequestContext connector req = Ok ctx →
  (HandleRequest connector res req).1 = [] ∨
  ∃ e, (HandleRequest connector res req).1 = [e] ∧ event_of ctx (q_method req) e.
Proof.
  intros Hctx. unfold HandleRequest. rewrite Hctx. destruct (match q_body req with [] => _ | _ => _ end) as [v|]; [|by left].
  pose proof (run_handler_events ctx (q_method req) (x_handler ctx) v (GetRequestContext_handles _ _ Hctx)) as Hr.
  destruct (run_handler _ _ _ _ _) as [evs r]. done.
Qed.

Lemma py_int_dec n : py_int (dec n) = Some (Z.of_N n).
Proof.
  rewrite <-(py_int_str (Z.of_N n)). f_equal. unfold str_of_Z.
  assert ((Z.of_N n <? 0)%Z = false) as -> by (apply Z.ltb_ge, N2Z.is_nonneg). by rewrite Zabs2N.id.
Qed.

(** The context does not depend on the body. *)
Lemma GetRequestContext_body m path headers body body' :
  GetRequestContext connector (Request m path headers body) = GetRequestContext connector (Request m path headers body').
Proof. done. Qed.

(** The response to what [HandleRequest] did *)
Definition respond (p : list event * hexc str) : list event * response :=
  (p.1, match p.2 with
        | Ok text => Response 200 [(HTTP_CONTENT_TYPE, HTTP_APP_JSON);
                       (HTTP_CONTENT_LENGTH, dec (N.of_nat (length text))); (HTTP_CONNECTION, lit "close")] (Some text)
        | Raise e => error_response e
        end).

Lemma handled_events m path headers stream :
  let '(evs, resp) := handle_request connector res md5_hex file_users reqauth m path headers stream in
  evs ≠ [] → ∃ ctx e, GetRequestContext connector (Request m path headers []) = Ok ctx ∧
    may_access (Request m path headers []) ctx ∧ evs = [e] ∧ event_of ctx m e.
Proof.
  unfold handle_request. destruct (match header_get HTTP_CONTENT_LENGTH headers with Some s => _ | None => _ end); [|done].
  destruct (_ <? _)%Z; [done|]. set (body := if (0 <? _)%Z then _ else _).
  destruct (GetRequestContext connector (Request m path headers [])) as [ctx|e] eqn:Hctx.
  2: { unfold PreHandle, PreHandleRequest, AuthenticationRequired.
       rewrite (GetRequestContext_body _ _ _ _ []), Hctx. cbn. by intros []. }
  pose proof Hctx as Hctx'. rewrite (GetRequestContext_body _ _ _ _ body) in Hctx'.
  destruct (PreHandle_spec _ _ Hctx') as [[Hm ->]|(Hm & c & hs & -> & Hc)]; [|done].
  pose proof (HandleRequest_events _ _ Hctx') as Hev.
  destruct (HandleRequest _ _ _) as [evs r]. simpl in Hev. intros Hne. destruct Hev as [|(e & -> & He)]; [done|].
  by exists ctx, e.
Qed.

(** C8: The remote API acts only for those who may.  A request makes something happen
    only when its path belongs to a resource that has the method, and it may access
    it: the method is open to everyone and no credentials are given, or the
    credentials are a user's whose last line in the users file has a matching
    password and options that grant the permission.  What happens is then the one
    method or the one opcode of the resource.  Who may access a resource is served,
    anyone else is told so and nothing happens. *)
Theorem rapi_access_control m path headers stream :
  let req := Request m path headers [] in
  let '(evs, resp) := handle_request connector res md5_hex file_users reqauth m path headers stream in
  (evs ≠ [] → ∃ ctx e, GetRequestContext connector req = Ok ctx ∧ may_access req ctx ∧ evs = [e] ∧ event_of ctx m e) ∧
  (∀ ctx, GetRequestContext connector req = Ok ctx → ¬ may_access req ctx →
     evs = [] ∧ (rs_code resp ∈ [400; 401; 403; 413; 500])%Z) ∧
  (∀ ctx n, GetRequestContext connector req = Ok ctx → may_access req ctx →
     header_get HTTP_CONTENT_LENGTH headers = Some (dec n) → (Z.of_N n <= MAX_REQUEST_BODY_SIZE)%Z →
     (evs, resp) = respond (HandleRequest connector res (Request m path headers (take (N.to_nat n) stream)))).
Proof.
  cbv zeta. unfold handle_request.
  destruct (match header_get HTTP_CONTENT_LENGTH headers with Some s => py_int s | None => Some 0%Z end)
    as [len|] eqn:Elen.
  2: { split_and!; [done|set_solver|]. intros ctx n _ _ Hh. exfalso. by rewrite Hh, py_int_dec in Elen. }
  destruct (Z.ltb_spec MAX_REQUEST_BODY_SIZE len) as [Hmax|_].
  { split_and!; [done|set_solver|]. intros ctx n _ _ Hh Hn. exfalso. rewrite Hh, py_int_dec in Elen.
    injection Elen as <-. lia. }
  set (body := if (0 <? len)%Z then _ else _).
  destruct (GetRequestContext connector (Request m path headers [])) as [ctx|e] eqn:Hctx.
  2: { unfold PreHandle, PreHandleRequest, AuthenticationRequired.
       rewrite (GetRequestContext_body _ _ _ _ []), Hctx. cbn. by split. }
  pose proof Hctx as Hctx'. rewrite (GetRequestContext_body _ _ _ _ body) in Hctx'.
  destruct (PreHandle_spec _ _ Hctx') as [[Hm ->]|(Hm & c & hs & -> & Hc)].
  - pose proof (HandleRequest_events _ _ Hctx') as Hev.
    destruct (HandleRequest _ _ _) as [evs r] eqn:Er. simpl in Hev. split_and!.
    + intros Hne. destruct Hev as [|(e & -> & He)]; [done|]. by exists ctx, e.
    + by intros ? [= <-] [].
    + intros ? n [= <-] _ Hh _. rewrite Hh, py_int_dec in Elen. injection Elen as <-.
      assert (body = take (N.to_nat n) stream) as <-; [|by rewrite Er].
      unfold body. by destruct n as [|p].
  - split_and!; [done| |by intros ? ? [= <-]].
    intros ? [= <-] _. split; [done|]. rewrite !elem_of_cons, elem_of_nil in Hc. simpl.
    destruct Hc as [->|[->|[->|[]]]]; set_solver.
Qed.
End access.

(** ** The resources of the release *)

Lemma FindMatch_elem {A} (data : list (path_key * A)) name a gs :
  FindMatch data name = Some (a, gs) → ∃ k, (k, a) ∈ data.
Proof.
  unfold FindMatch. destruct (List.find _ data) as [[k a']|] eqn:Ef.
  - intros [= -> <-]. apply List.find_some in Ef as [Hin _]. exists k. by apply list_elem_of_In.
  - intros Hh. apply head_Some_elem_of, list_elem_of_omap in Hh as ([k a'] & Hin & Hm). exists k.
    destruct k as [|ps]; [done|]. simpl in Hm. apply fmap_Some in Hm as (gs' & _ & [= -> ->]). done.
Qed.

Lemma GetRequestContext_resource connector req ctx :
  GetRequestContext connector req = Ok ctx →
  (∃ k, (k, x_resource ctx) ∈ connector) ∧
  x_access ctx = GetHandlerAccess (x_resource ctx) (q_method req) ∧
  x_auth_required ctx = GetHandlerAuthRequired (x_resource ctx) (q_method req).
Proof.
  unfold GetRequestContext, getController. intros ([[r items] args] & Hc & (hs & _ & Hm)%rbind_Ok)%rbind_Ok.
  destruct (match split_once "?" (q_path req) with Some (path, query) => _ | None => _ end) as [path qs].
  destruct (FindMatch connector path) as [[r' gs]|] eqn:Ef; [|done]. injection Hc as -> -> ->.
  apply FindMatch_elem in Ef. destruct (dget _ hs); [|done].
  destruct (GetHandlerAccess r _) eqn:Ea; [done|..]; by injection Hm as <-.
Qed.

(** Checks a property of all methods of all resources. *)
Lemma connector_forall (P : resource → method → bool) k r m :
  forallb (λ kr, forallb (P kr.2) SUPPORTED_METHODS) CONNECTOR = true → (k, r) ∈ CONNECTOR → P r m = true.
Proof.
  rewrite forallb_forall. intros Hall Hin%list_elem_of_In. specialize (Hall _ Hin). rewrite forallb_forall in Hall.
  apply Hall. destruct m; simpl; tauto.
Qed.

(** Every resource can be instantiated and defines the permission of its methods. *)
Lemma resources_defined k r :
  (k, r) ∈ CONNECTOR → ∃ hs, instantiate r = Ok hs ∧ ∀ m h, dget m hs = Some h → GetHandlerAccess r m ≠ NotDefined.
Proof.
  intros Hin. set (P := λ r m, match instantiate r with
    | Ok hs => match dget m hs with Some _ => negb (bool_decide (GetHandlerAccess r m = NotDefined)) | None => true end
    | Raise _ => false end).
  assert (∀ m, P r m = true) as HP by (intros m; apply (connector_forall P k); [vm_compute; done|done]).
  unfold P in HP. destruct (instantiate r) as [hs|]; [|by specialize (HP GET)]. exists hs. split; [done|].
  intros m h Hm. specialize (HP m). rewrite Hm in HP. by apply negb_true_iff, bool_decide_eq_false in HP.
Qed.

Definition public_resources : list string := ["R_root"; "R_2"; "R_version"; "R_2_features"]%string.

Lemma public_methods k r m :
  (k, r) ∈ CONNECTOR → GetHandlerAuthRequired r m = false → m = GET ∧ r_name r ∈ public_resources.
Proof.
  intros Hin. set (P := λ r m, GetHandlerAuthRequired r m || bool_decide (m = GET) && bool_decide (r_name r ∈ public_resources)).
  assert (P r m = true) as HP by (apply (connector_forall P k); [vm_compute; done|done]).
  unfold P in HP. intros Ha. rewrite Ha in HP. apply andb_prop in HP as [?%bool_decide_eq_true ?%bool_decide_eq_true]. done.
Qed.

Lemma readonly_methods k r m p :
  (k, r) ∈ CONNECTOR → GetHandlerAccess r m = Needs p → p ∈ RAPI_ACCESS_READONLY →
  m = GET ∨ (r_name r = "R_2_query"%string ∧ m = PUT).
Proof.
  intros Hin Ha Hp.
  set (P := λ r m, match GetHandlerAccess r m with
    | Needs p => negb (bool_decide (p ∈ RAPI_ACCESS_READONLY)) || bool_decide (m = GET) ||
                 bool_decide (r_name r = "R_2_query"%string) && bool_decide (m = PUT)
    | _ => true end).
  assert (P r m = true) as HP by (apply (connector_forall P k); [vm_compute; done|done]).
  unfold P in HP. rewrite Ha, bool_decide_true in HP by done. simpl in HP.
  apply orb_prop in HP as [?%bool_decide_eq_true|[?%bool_decide_eq_true ?%bool_decide_eq_true]%andb_prop]; auto.
Qed.

Lemma public_access k r m : (k, r) ∈ CONNECTOR → GetHandlerAccess r m = Public → m = GET.
Proof.
  intros Hin Ha. set (P := λ r m, negb (bool_decide (GetHandlerAccess r m = Public)) || bool_decide (m = GET)).
  assert (P r m = true) as HP by (apply (connector_forall P k); [vm_compute; done|done]).
  unfold P in HP. rewrite bool_decide_true in HP by done. by apply bool_decide_eq_true in HP.
Qed.

Lemma context_errors req e :
  GetRequestContext CONNECTOR req = Raise e → e = HttpExn HttpNotFound [] ∨ e = HttpExn HttpNotImplemented [].
Proof.
  unfold GetRequestContext, getController.
  destruct (match split_once "?" (q_path req) with Some (path, query) => _ | None => _ end) as [path qs].
  destruct (FindMatch CONNECTOR path) as [[r gs]|] eqn:Ef; [|intros [= <-]; by left]. cbn [rbind].
  apply FindMatch_elem in Ef as (k & Hin). destruct (resources_defined k r Hin) as (hs & -> & Hdef). cbn [rbind lift_exc].
  destruct (dget _ hs) as [h|] eqn:Ed; [|intros [= <-]; by right]. apply Hdef in Ed.
  by destruct (GetHandlerAccess r _).
Qed.

(** What the option for the read-only role grants *)
Lemma grants_readonly p : grants RAPI_ROLES [lit "@readonly"] p → p ∈ RAPI_ACCESS_READONLY.
Proof.
  intros [_ [(r & perms & Ho & Hr & Hp)|[(o & r & perms & Ho & Hd & _)|[Ho|[Ho Hc]]]]].
  - apply list_elem_of_singleton in Ho. injection Ho as ->. vm_compute in Hr. injection Hr as <-. done.
  - by apply list_elem_of_singleton in Ho as ->.
  - by apply list_elem_of_singleton in Ho.
  - by apply list_elem_of_singleton in Ho as ->.
Qed.

(** C23: With the resources and roles of the release: without credentials a request makes
    something happen only when it reads one of the four public resources; a user
    whose only option is the read-only role can only read (or send a query); and a
    path that is answered with an internal error before access is decided does not
    exist: every resource defines the permissions of its methods. *)
Theorem rapi_roles `{FloatText} res md5_hex contents m path headers stream :
  let req := Request m path headers [] in
  let '(evs, resp) := handle_request CONNECTOR res md5_hex (file_users contents) false m path headers stream in
  (header_get HTTP_AUTHORIZATION headers = None → evs ≠ [] →
     ∃ ctx, GetRequestContext CONNECTOR req = Ok ctx ∧ m = GET ∧ r_name (x_resource ctx) ∈ public_resources) ∧
  (∀ username password u, credentials headers username password → listed contents username u →
     u_options u = [lit "@readonly"] → evs ≠ [] →
     m = GET ∨ (m = PUT ∧ ∃ ctx, GetRequestContext CONNECTOR req = Ok ctx ∧ r_name (x_resource ctx) = "R_2_query"%string)) ∧
  (∀ e, GetRequestContext CONNECTOR req = Raise e → e = HttpExn HttpNotFound [] ∨ e = HttpExn HttpNotImplemented []).
Proof.
  cbv zeta. pose proof (handled_events md5_hex CONNECTOR res contents false m path headers stream) as Hh.
  destruct (handle_request _ _ _ _ _ _ _ _ _) as [evs resp]. split_and!.
  - intros Hno Hne. destruct (Hh Hne) as (ctx & e & Hctx & Hm & _). exists ctx. split; [done|].
    destruct (GetRequestContext_resource _ _ _ Hctx) as ((k & Hin) & _ & Hau).
    destruct Hm as [(_ & Ha & _)|(u & p & ? & (v & ? & ? & ? & ? & Hv & _) & _)]; [|simpl in Hv; congruence].
    apply (public_methods k); [done|]. simpl in Hau. by rewrite <-Hau.
  - intros un pw u Hcr Hl Hopt Hne. destruct (Hh Hne) as (ctx & e & Hctx & Hm & _).
    destruct (GetRequestContext_resource _ _ _ Hctx) as ((k & Hin) & Hac & Hau).
    destruct Hm as [(_ & _ & Hno)|(un' & pw' & u' & Hcr' & Hl' & _ & Hal)].
    { destruct Hcr as (v & ? & ? & ? & ? & Hv & _). simpl in Hno. congruence. }
    destruct (credentials_unique _ _ _ _ _ Hcr Hcr') as [<- <-]. unfold listed in Hl, Hl'. rewrite Hl in Hl'.
    injection Hl' as <-. destruct Hal as [Hpub|(p & Hp & Hg)].
    + left. rewrite Hac in Hpub. exact (public_access k _ _ Hin Hpub).
    + rewrite Hopt in Hg. apply grants_readonly in Hg. rewrite Hac in Hp.
      destruct (readonly_methods k _ _ _ Hin Hp Hg) as [?|[? ?]]; [by left|right; eauto].
  - apply context_errors.
Qed.

(** ** The map of paths is unambiguous

    A key of the map of resources with names in its places is a path.  No two keys
    of the release give the same path, so that looking a path up finds its own key
    and the names. *)

(** ** Keys with names *)

(** Names fit the places of a key. *)
Fixpoint fits (ps : list piece) (names : list str) : Prop :=
  match ps with
  | [] => names = []
  | Text _ :: ps => fits ps names
  | UriPattern cls :: ps =>
      match names with
      | name :: names => name ≠ [] ∧ Forall (λ a, cls a = true) name ∧ fits ps names
      | [] => False
      end
  end.

Fixpoint render (ps : list piece) (names : list str) : str :=
  match ps with
  | [] => []
  | Text t :: ps => t ++ render ps names
  | UriPattern _ :: ps => match names with name :: names => name ++ render ps names | [] => [] end
  end.

Definition key_pieces (k : path_key) : list piece := match k with Plain s => [Text s] | Regex ps => ps end.

(** A place is followed by a character that does not belong to a name, and no name
    contains a slash or a newline. *)
Definition ends_place (cls : ascii → bool) (ps : list piece) : bool :=
  match ps with
  | [] => true
  | Text (a :: _) :: _ => negb (cls a)
  | _ => false
  end.
Fixpoint separated (ps : list piece) : bool :=
  match ps with
  | [] => true
  | Text t :: ps => negb (bool_decide (newline ∈ t)) && separated ps
  | UriPattern cls :: ps => ends_place cls ps && negb (cls "/"%char) && negb (cls newline) && separated ps
  end.

Lemma after_prefix_app t s : after_prefix (eq_char true) t (t ++ s) = Some s.
Proof. induction t as [|a t IH]; simpl; [done|]. unfold eq_char. by rewrite bool_decide_true. Qed.

Lemma after_prefix_Some t : ∀ s r, after_prefix (eq_char true) t s = Some r → s = t ++ r.
Proof.
  induction t as [|a t IH]; intros [|b s] r; simpl; try done; try by intros [= ->].
  unfold eq_char. case_bool_decide as E; [|done]. intros Hr%IH. by subst.
Qed.

Lemma render_newline ps : ∀ names, separated ps = true → fits ps names → newline ∉ render ps names.
Proof.
  induction ps as [|[t|cls] ps IH]; intros names Hs Hf; simpl in *; [by intros ?%elem_of_nil| |].
  - apply andb_true_iff in Hs as [Ht%negb_true_iff%bool_decide_eq_false Hs]. rewrite elem_of_app.
    intros [?|?]; [done|by eapply IH].
  - destruct names as [|name names]; [done|]. destruct Hf as (_ & Hn & Hf).
    apply andb_true_iff in Hs as [[_ Hnl%negb_true_iff]%andb_true_iff Hs]. rewrite elem_of_app.
    intros [Hin|?]; [|by eapply IH]. rewrite Forall_forall in Hn. apply Hn in Hin. congruence.
Qed.

(** A key matches the path that it gives. *)
Lemma path_match_render ps : ∀ names,
  separated ps = true → fits ps names → path_match ps (render ps names) = Some names.
Proof.
  induction ps as [|[t|cls] ps IH]; intros names Hs Hf; simpl in *; [by subst| |].
  - apply andb_true_iff in Hs as [_ Hs]. rewrite after_prefix_app. by apply IH.
  - destruct names as [|name names]; [done|]. destruct Hf as (Hne & Hn & Hf).
    apply andb_true_iff in Hs as [[[He _]%andb_true_iff _]%andb_true_iff Hs].
    assert (span cls (name ++ render ps names) = (name, render ps names)) as ->.
    { apply span_spec. split_and!; [done..|]. intros a Ha. destruct ps as [|[[|b t]|?] ps]; simpl in *; try done.
      injection Ha as <-. by apply negb_true_iff in He. }
    destruct (length name) as [|n] eqn:El; [by destruct name|].
    rewrite <-El, drop_app_length, take_app_length, IH by done. done.
Qed.

(** What a key matches is a path that it gives, up to a newline at the end. *)
Lemma path_match_sound ps : ∀ s gs,
  path_match ps s = Some gs → fits ps gs ∧ (s = render ps gs ∨ s = render ps gs ++ [newline]).
Proof.
  induction ps as [|[t|cls] ps IH]; intros s gs; simpl.
  - unfold dollar. case_bool_decide as Hd; [|done]. intros [= <-]. split; [done|].
    rewrite !elem_of_cons, elem_of_nil in Hd. naive_solver.
  - destruct (after_prefix _ t s) as [r|] eqn:Ea; [|done]. apply after_prefix_Some in Ea as ->.
    intros (Hf & Hr)%IH. split; [done|]. rewrite <-app_assoc. naive_solver.
  - destruct (span cls s) as [w r] eqn:Esp. apply span_spec in Esp as (-> & Hw & _).
    assert (length w ≤ length w) as Hle by done. revert Hle.
    generalize (length w) at 1 3 as n. induction n as [|n IHn]; intros Hle; [done|].
    destruct (path_match ps (drop (S n) (w ++ r))) as [gs'|] eqn:Em; [|apply IHn; lia].
    intros [= <-]. apply IH in Em as (Hf & Hr). rewrite take_app_le by lia. split_and!; [|by apply Forall_take|done|].
    + destruct w; simpl in *; [lia|done].
    + rewrite <-(take_drop (S n) (w ++ r)), take_app_le by lia. destruct Hr as [-> | ->]; rewrite ?app_assoc; auto.
Qed.

(** ** Segments *)

(** A key as a sequence of characters and places, cut at the slashes *)
Inductive tok := TChar (a : ascii) | TName (cls : ascii → bool).

Definition toks (ps : list piece) : list tok :=
  flat_map (λ p, match p with Text t => TChar <$> t | UriPattern cls => [TName cls] end) ps.

Fixpoint segments (ts : list tok) : list (list tok) :=
  match ts with
  | [] => [[]]
  | t :: ts =>
      let rest := match segments ts with [] => [[t]] | seg :: segs => (t :: seg) :: segs end in
      match t with
      | TChar a => if decide (a = "/"%char) then [] :: segments ts else rest
      | TName _ => rest
      end
  end.

(** The strings of a segment *)
Inductive seg_match : list tok → str → Prop :=
| seg_nil : seg_match [] []
| seg_char a ts s : seg_match ts s → seg_match (TChar a :: ts) (a :: s)
| seg_name cls ts name s : seg_match ts s → seg_match (TName cls :: ts) (name ++ s).

Lemma segments_nonnil ts : segments ts ≠ [].
Proof. destruct ts as [|[a|cls] ts]; simpl; [done| |]; [case_decide; [done|]|]; by destruct (segments ts). Qed.

Lemma segments_char a ts s :
  Forall2 seg_match (segments ts) (PyStr.split "/" s) → Forall2 seg_match (segments (TChar a :: ts)) (PyStr.split "/" (a :: s)).
Proof.
  intros H. simpl. case_decide; [constructor; [constructor|done]|].
  destruct H as [|seg w segs ws Hseg Hws]; repeat constructor; auto.
Qed.

Lemma segments_name cls ts name s :
  "/"%char ∉ name → Forall2 seg_match (segments ts) (PyStr.split "/" s) →
  Forall2 seg_match (segments (TName cls :: ts)) (PyStr.split "/" (name ++ s)).
Proof.
  intros Hn H. simpl. rewrite split_no_sep by done. pose proof (segments_nonnil ts).
  destruct H as [|seg w segs ws Hseg Hws]; [done|]. repeat constructor; auto.
Qed.

Lemma render_segments ps : ∀ names,
  separated ps = true → fits ps names → Forall2 seg_match (segments (toks ps)) (PyStr.split "/" (render ps names)).
Proof.
  induction ps as [|[t|cls] ps IH]; intros names Hs Hf; simpl in *; [repeat constructor| |].
  - apply andb_true_iff in Hs as [_ Hs]. specialize (IH names Hs Hf). clear -IH.
    induction t as [|a t IHt]; [done|]. by apply segments_char.
  - destruct names as [|name names]; [done|]. destruct Hf as (_ & Hn & Hf).
    apply andb_true_iff in Hs as [[[_ Hsl%negb_true_iff]%andb_true_iff _]%andb_true_iff Hs].
    apply segments_name; [|by apply IH]. intros Hin. rewrite Forall_forall in Hn. apply Hn in Hin. congruence.
Qed.

(** ** Keys that clash *)

Fixpoint plain_seg (ts : list tok) : option str :=
  match ts with
  | [] => Some []
  | TChar a :: ts => cons a <$> plain_seg ts
  | TName _ :: _ => None
  end.

(** The segments differ: two of them are texts that are not the same, or their numbers
    are different *)
Fixpoint differ (l k : list (list tok)) : bool :=
  match l, k with
  | [], [] => false
  | a :: l, b :: k =>
      match plain_seg a, plain_seg b with
      | Some s, Some t => negb (bool_decide (s = t)) || differ l k
      | _, _ => differ l k
      end
  | _, _ => true
  end.

Lemma plain_seg_match ts t s : plain_seg ts = Some t → seg_match ts s → s = t.
Proof.
  intros Hp Hm. revert t Hp. induction Hm as [|a ts s Hm IH|cls ts name s Hm IH]; intros t; simpl; [by intros [= <-]| |done].
  intros (t' & Hp & ->)%fmap_Some. f_equal. by apply IH.
Qed.

Lemma differ_sound l k ws : Forall2 seg_match l ws → Forall2 seg_match k ws → differ l k = false.
Proof.
  intros Hl. revert k. induction Hl as [|a w l ws Ha Hl IH]; intros k Hk; inversion_clear Hk as [|b ? k' ? Hb Hk']; [done|].
  simpl. destruct (plain_seg a) as [s|] eqn:Es; [|by apply IH]. destruct (plain_seg b) as [t|] eqn:Et; [|by apply IH].
  rewrite bool_decide_true by (etrans; [symmetry|]; by eapply plain_seg_match). simpl. by apply IH.
Qed.

Definition key_segments (k : path_key) : list (list tok) := segments (toks (key_pieces k)).

Definition is_plain (k : path_key) : bool := match k with Plain _ => true | Regex _ => false end.

(** The key is one that the lookup returns for the path. *)
Definition key_matches (k : path_key) (path : str) (gs : list str) : Prop :=
  match k with Plain s => s = path ∧ gs = [] | Regex ps => path_match ps path = Some gs end.

Lemma key_matches_unique k names k' gs :
  separated (key_pieces k) = true → separated (key_pieces k') = true → fits (key_pieces k) names →
  key_matches k' (render (key_pieces k) names) gs → differ (key_segments k) (key_segments k') = false.
Proof.
  intros Hs Hs' Hf Hm. pose proof (render_newline _ _ Hs Hf) as Hnl.
  eapply differ_sound; [by eapply render_segments|]. destruct k' as [s|ps]; simpl in *.
  - destruct Hm as [<- ->]. pose proof (render_segments [Text s] [] Hs' eq_refl) as Hr. by rewrite (app_nil_r s : render [Text s] [] = s) in Hr.
  - apply path_match_sound in Hm as [Hf' [-> | Heq]]; [by apply render_segments|].
    exfalso. apply Hnl. rewrite Heq. apply elem_of_app. right. by left.
Qed.

(** ** Looking up *)

(** No two keys clash and all are well-formed. *)
Fixpoint unambiguous {A} (data : list (path_key * A)) : bool :=
  match data with
  | [] => true
  | (k, _) :: data =>
      separated (key_pieces k) && forallb (λ ka, differ (key_segments k) (key_segments ka.1) &&
                                              differ (key_segments ka.1) (key_segments k)) data && unambiguous data
  end.

Section lookup.
  Context {A : Type}.

Lemma unambiguous_separated (data : list (path_key * A)) k a :
  unambiguous data = true → (k, a) ∈ data → separated (key_pieces k) = true.
Proof.
  induction data as [|[k' a'] data IH]; simpl; [by intros _ ?%elem_of_nil|].
  intros [[Hs _]%andb_true_iff Hu]%andb_true_iff [[= -> ->]|Hin]%elem_of_cons; auto.
Qed.

Lemma unambiguous_app (l1 l2 : list (path_key * A)) k a :
  unambiguous (l1 ++ (k, a) :: l2) = true →
  ∀ ka, ka ∈ l1 ++ l2 → differ (key_segments k) (key_segments ka.1) = true.
Proof.
  induction l1 as [|[k' a'] l1 IH]; simpl.
  - intros [[_ Hf]%andb_true_iff _]%andb_true_iff ka Hka. rewrite forallb_forall in Hf.
    apply list_elem_of_In, Hf in Hka. by apply andb_true_iff in Hka as [? _].
  - intros [[_ Hf]%andb_true_iff Hu]%andb_true_iff ka [-> | Hka]%elem_of_cons; [|by apply IH].
    rewrite forallb_forall in Hf. simpl.
    assert (List.In (k, a) (l1 ++ (k, a) :: l2)) as Hin by (apply list_elem_of_In, elem_of_app; right; by left).
    apply Hf in Hin. by apply andb_true_iff in Hin as [_ ?].
Qed.

Lemma find_app_first (f : path_key * A → bool) l1 x l2 :
  (∀ y, y ∈ l1 → f y = false) → f x = true → List.find f (l1 ++ x :: l2) = Some x.
Proof.
  intros Hl Hx. induction l1 as [|y l1 IH]; simpl; [by rewrite Hx|].
  rewrite (Hl y) by by left. apply IH. intros z Hz. apply Hl. by right.
Qed.

Lemma find_none (f : path_key * A → bool) l : (∀ y, y ∈ l → f y = false) → List.find f l = None.
Proof.
  intros Hl. induction l as [|y l IH]; simpl; [done|]. rewrite (Hl y) by by left. apply IH. intros z Hz. apply Hl. by right.
Qed.

Lemma head_omap_app_first {B} (f : path_key * A → option B) l1 x l2 b :
  (∀ y, y ∈ l1 → f y = None) → f x = Some b → head (omap f (l1 ++ x :: l2)) = Some b.
Proof.
  intros Hl Hx. induction l1 as [|y l1 IH]; csimpl; [by rewrite Hx|].
  rewrite (Hl y) by by left. apply IH. intros z Hz. apply Hl. by right.
Qed.

(** With unambiguous keys a path that a key gives is found under that key. *)
Lemma FindMatch_key (data : list (path_key * A)) k a names :
  unambiguous data = true → (k, a) ∈ data → fits (key_pieces k) names →
  FindMatch data (render (key_pieces k) names) = Some (a, names).
Proof.
  intros Hu Hin Hf. pose proof (unambiguous_separated _ _ _ Hu Hin) as Hs.
  apply list_elem_of_split in Hin as (l1 & l2 & ->). pose proof (unambiguous_app _ _ _ _ Hu) as Hd.
  set (path := render (key_pieces k) names).
  assert (∀ ka gs, ka ∈ l1 ++ l2 → ¬ key_matches ka.1 path gs) as Hno.
  { intros [k' a'] gs Hin Hm. pose proof (Hd _ Hin) as Hdiff. simpl in Hdiff, Hm.
    eapply key_matches_unique in Hm; [congruence|done| |done].
    eapply unambiguous_separated; [exact Hu|]. rewrite elem_of_app, elem_of_cons. apply elem_of_app in Hin as [?|?]; eauto. }
  unfold FindMatch. set (plain := λ ka : path_key * A, match ka.1 with Plain s => bool_decide (s = path) | Regex _ => false end).
  assert (∀ y, y ∈ l1 ++ l2 → plain y = false) as Hp.
  { intros [[s|] a'] Hy; unfold plain; simpl; [|done]. apply bool_decide_eq_false. intros ->. by eapply (Hno _ []). }
  assert (∀ y, y ∈ l1 → y ∈ l1 ++ l2) as Hl1 by (intros; apply elem_of_app; auto).
  destruct k as [s|ps]; simpl in Hs, Hf.
  - subst names. rewrite (find_app_first plain) with (x := (Plain s, a)); [done|auto|].
    unfold plain, path. simpl. apply bool_decide_eq_true. by rewrite app_nil_r.
  - rewrite (find_none plain).
    2: { intros y [Hy|[->|Hy]%elem_of_cons]%elem_of_app; [auto|done|]. apply Hp, elem_of_app. auto. }
    apply head_omap_app_first; simpl.
    + intros [[s|ps'] a'] Hy; simpl; [done|]. destruct (path_match ps' path) as [gs|] eqn:Em; [|done].
      exfalso. by eapply (Hno (Regex ps', a') gs); [auto|].
    + unfold path. simpl. by rewrite path_match_render.
Qed.
End lookup.

(** The keys of the release *)
Lemma CONNECTOR_unambiguous : unambiguous CONNECTOR = true.
Proof. by vm_compute. Qed.

(** ** Examples *)

Module RapiDemo.

#[local] Instance demo_floats : FloatText :=
  {| float_repr := λ _, lit "0.0"; float_parse := λ _, Raise Value_error |}.

(** Handlers that return [True]; a submitted job has the identifier 7. *)
Definition demo_resources : resources :=
  Resources (λ _ _ _ _ _, Ok (OBool true)) (λ _ _ items _ body, Ok (body, [])) (λ _, [Param (lit "reason") ONone TAny])
    (λ _ _, Ok (OInt 7)) (λ _, 0%Z).

Definition users_file : str :=
  lit "# users" ++ [newline] ++ lit "alice secret @readonly" ++ [newline] ++ lit "bob {cleartext}pw -jobs.cancel,@admin".

Definition authorization (user password : string) : str * str :=
  (lit "authorization", lit "Basic " ++ b64encode (lit user ++ lit ":" ++ lit password)).

Definition ask (m : method) (path : string) (headers : list (str * str)) : list event * Z :=
  let '(evs, resp) := handle_request CONNECTOR demo_resources (λ s, s) (file_users users_file) false m (lit path) headers [] in
  (evs, rs_code resp).

Lemma requests :
  ask GET "/version" [] = ([Ran "R_version" GET], 200%Z) ∧
  ask GET "/2/nodes" [] = ([], 401%Z) ∧
  ask GET "/2/nodes/n1.example.com?bulk=1" [authorization "alice" "secret"] = ([Ran "R_2_nodes_name" GET], 200%Z) ∧
  ask GET "/2/nodes" [authorization "alice" "wrong"] = ([], 401%Z) ∧
  ask POST "/2/nodes/n1/powercycle" [authorization "alice" "secret"] = ([], 403%Z) ∧
  ask DELETE "/2/jobs/5" [authorization "bob" "pw"] = ([], 403%Z) ∧
  ask PUT "/2/instances/web/startup" [authorization "bob" "pw"] =
    ([Submitted "OpInstanceStartup"
        {[lit "reason" := OList [OTuple [str_obj "gnt:library:rlib2:instances_name_startup"; OStr []; OInt 0]]]}], 200%Z) ∧
  ask POST "/2/nodes" [authorization "bob" "pw"] = ([], 501%Z) ∧ ask GET "/3" [] = ([], 404%Z).
Proof. vm_compute. done. Qed.

(** A request to modify the cluster that has no body ends in an internal error: the
    check for forbidden parameters iterates over [None]. *)
Lemma modify_without_body : ask PUT "/2/modify" [authorization "bob" "pw"] = ([], 500%Z).
Proof. vm_compute. done. Qed.

(** A restricted parameter that is sent under its old name is looked up under the
    new one. *)
Lemma restricted_old_name :
  InspectParams (ODict [(str_obj "old", OInt 1)]) [(lit "new", Some [OInt 2])] (Some [(lit "old", lit "new")]) =
  Raise (PyErr (PyExn KeyError "")).
Proof. done. Qed.
End RapiDemo.
