(* ===== verification/RapiClient.v ===== *)
(** * The client of the remote API (src/lib/rapi/client.py)

    A method of the client builds a call: HTTP method, path, query and content.
    [SendRequest] turns it into the request that the server receives, and reads
    the answer; the transfer in between is that of libcurl.  Names and numbers in
    paths are strings; a parameter that is only tested is a Boolean; a parameter
    that is passed on is any value, [None] included. *)

From S2P Require Import Prelude Errors PySort PyStr PyVal Json Serializer Text PyDict Ht OpCodes.
From S2P Require Import Base64 HttpAuth Rapi.
From stdpp Require Import gmap.
#[local] Open Scope list_scope.
#[local] Open Scope stdpp_scope.
#[local] Open Scope py_scope.

(** How a method of the client ends when it does not return: [GanetiApiError] with its
    code, or another exception *)
Inductive client_exn := GanetiApiError (code : option Z) | ClientExn (e : exn).

Definition query := list (str * obj).
Definition kwargs := list (str * obj).

(** A call, and what the method makes of the answer *)
Record call := NewCall {
  c_method : method;
  c_path : str;
  c_query : query;
  c_content : obj;
  c_result : obj → exc obj
}.
Definition Call (m : method) (path : str) (q : query) (content : obj) : call := NewCall m path q content Ok.

(** ** Helpers *)

Definition is_none (v : obj) : bool := match v with ONone => true | _ => false end.
Definition given (v : obj) : bool := negb (is_none v).

Definition AppendIf (condition : bool) (value : str * obj) (container : query) : query :=
  if condition then container ++ [value] else container.
Definition AppendDryRunIf (condition : bool) (container : query) : query :=
  AppendIf condition (lit "dry-run", OInt 1) container.
Definition AppendForceIf (condition : bool) (container : query) : query :=
  AppendIf condition (lit "force", OInt 1) container.
Definition AppendReason (reason : obj) (container : query) : query :=
  AppendIf (py_truth reason) (lit "reason", reason) container.
Definition SetItemIf (condition : bool) (item : string) (value : obj) (container : kwargs) : kwargs :=
  if condition then dset (lit item) value container else container.

(** A dictionary with string keys *)
Definition body_of (d : kwargs) : obj := ODict ((λ kv : str * obj, (OStr kv.1, kv.2)) <$> d).
Definition key (k : string) (v : obj) : str * obj := (lit k, v).

(** [[("tag", t) for t in tags]] *)
Definition tag_query (tags : list str) : query := (λ t, key "tag" (OStr t)) <$> tags.

(** Paths: [/2/a], [/2/a/NAME] and [/2/a/NAME/b] *)
Definition path0 (a : string) : str := lit "/2/" ++ lit a.
Definition path1 (a : string) (name : str) : str := lit "/2/" ++ lit a ++ lit "/" ++ name.
Definition path2 (a : string) (name : str) (b : string) : str := path1 a name ++ lit "/" ++ lit b.

(** [x[field]] *)
Definition item_field (field : string) (x : obj) : exc obj :=
  match x with
  | ODict d => match dict_get d (str_obj field) with Some v => Ok v | None => Raise (PyExn KeyError "") end
  | _ => Raise Type_error
  end.

(** The items of a collection, or with [bulk] all there is about them *)
Definition Listing (a : string) (q : query) (bulk : bool) (field : string) : call :=
  NewCall GET (path0 a) q ONone
    (λ items, if bulk then Ok items
              else let* l := py_iter items in rmap OList (rmapM (item_field field) l)).

Definition Api_error {A} : result client_exn A := Raise (GanetiApiError None).

(** ** The methods *)

(** *** Cluster *)

Definition GetVersion : call := Call GET (lit "/version") [] ONone.
Definition GetFeatures : call := Call GET (path0 "features") [] ONone.
Definition GetOperatingSystems (reason : obj) : call := Call GET (path0 "os") (AppendReason reason []) ONone.
Definition GetInfo (reason : obj) : call := Call GET (path0 "info") (AppendReason reason []) ONone.
Definition GetHypervisorParameters (reason : obj) : call :=
  Call GET (path0 "info/hypervisor-parameters") (AppendReason reason []) ONone.
Definition RedistributeConfig (reason : obj) : call :=
  Call PUT (path0 "redistribute-config") (AppendReason reason []) ONone.
Definition ModifyCluster (reason : obj) (kw : kwargs) : call :=
  Call PUT (path0 "modify") (AppendReason reason []) (body_of kw).
Definition GetClusterTags (reason : obj) : call := Call GET (path0 "tags") (AppendReason reason []) ONone.
Definition AddClusterTags (tags : list str) (dry_run : bool) (reason : obj) : call :=
  Call PUT (path0 "tags") (AppendReason reason (AppendDryRunIf dry_run (tag_query tags))) ONone.
Definition DeleteClusterTags (tags : list str) (dry_run : bool) (reason : obj) : call :=
  Call DELETE (path0 "tags") (AppendReason reason (AppendDryRunIf dry_run (tag_query tags))) ONone.

(** *** Instances *)

Definition GetInstances (bulk : bool) (reason : obj) : call :=
  Listing "instances" (AppendReason reason (AppendIf bulk (key "bulk" (OInt 1)) [])) bulk "id".
Definition GetInstance (instance : str) (reason : obj) : call :=
  Call GET (path1 "instances" instance) (AppendReason reason []) ONone.
Definition GetInstanceInfo (instance : str) (static reason : obj) : call :=
  Call GET (path2 "instances" instance "info")
    (AppendReason reason (AppendIf (given static) (key "static" static) [])) ONone.

Definition UpdateWithKwargs (base kw : kwargs) : result client_exn kwargs :=
  if existsb (λ k, dhas k base) (dkeys kw) then Api_error
  else Ok (dupdate base (List.filter (λ kv, negb (bool_decide (kv.1 = lit "dry_run"))) kw)).

Definition InstanceAllocation (mode name disk_template disks nics : obj) (kw : kwargs) : result client_exn kwargs :=
  UpdateWithKwargs [key "mode" mode; key "name" name; key "disk_template" disk_template; key "disks" disks;
                    key "nics" nics] kw.

(** [kwargs.get("dry_run")] *)
Definition kw_dry_run (kw : kwargs) : bool := py_truth (default ONone (dget (lit "dry_run") kw)).

Definition InstancesMultiAlloc (instances reason : obj) (kw : kwargs) : result client_exn call :=
  let* body := UpdateWithKwargs [key "instances" instances] kw in
  Ok (Call POST (path0 "instances-multi-alloc") (AppendReason reason (AppendDryRunIf (kw_dry_run kw) [])) (body_of body)).

Definition INST_CREATE_REQV1 : str := lit "instance-create-reqv1".
Definition INST_REINSTALL_REQV1 : str := lit "instance-reinstall-reqv1".
Definition NODE_MIGRATE_REQV1 : str := lit "node-migrate-reqv1".
Definition NODE_EVAC_RES1 : str := lit "node-evac-res1".

(** [features] is what [GetFeatures] returned. *)
Definition CreateInstance (features : list str) (mode name disk_template disks nics reason : obj) (kw : kwargs)
    : result client_exn call :=
  let q := AppendReason reason (AppendDryRunIf (kw_dry_run kw) []) in
  if decide (INST_CREATE_REQV1 ∈ features) then
    let* body := InstanceAllocation mode name disk_template disks nics kw in
    Ok (Call POST (path0 "instances") q (body_of (dset (lit "__version__") (OInt 1) body)))
  else Api_error.

Definition DeleteInstance (instance : str) (dry_run : bool) (reason : obj) (kw : kwargs) : call :=
  Call DELETE (path1 "instances" instance) (AppendReason reason (AppendDryRunIf dry_run [])) (body_of kw).
Definition ModifyInstance (instance : str) (reason : obj) (kw : kwargs) : call :=
  Call PUT (path2 "instances" instance "modify") (AppendReason reason []) (body_of kw).
Definition ActivateInstanceDisks (instance : str) (ignore_size : bool) (reason : obj) : call :=
  Call PUT (path2 "instances" instance "activate-disks")
    (AppendReason reason (AppendIf ignore_size (key "ignore_size" (OInt 1)) [])) ONone.
Definition DeactivateInstanceDisks (instance : str) (reason : obj) (force : bool) : call :=
  Call PUT (path2 "instances" instance "deactivate-disks") (AppendReason reason (AppendForceIf force [])) ONone.
Definition RecreateInstanceDisks (instance : str) (disks nodes reason iallocator : obj) : call :=
  let body := SetItemIf (given iallocator) "iallocator" iallocator
                (SetItemIf (given nodes) "nodes" nodes (SetItemIf (given disks) "disks" disks [])) in
  Call POST (path2 "instances" instance "recreate-disks") (AppendReason reason []) (body_of body).
Definition GrowInstanceDisk (instance disk : str) (amount wait_for_sync reason : obj) : call :=
  let body := SetItemIf (given wait_for_sync) "wait_for_sync" wait_for_sync [key "amount" amount] in
  Call POST (path2 "instances" instance "disk/" ++ disk ++ lit "/grow") (AppendReason reason []) (body_of body).
Definition GetInstanceTags (instance : str) (reason : obj) : call :=
  Call GET (path2 "instances" instance "tags") (AppendReason reason []) ONone.
Definition AddInstanceTags (instance : str) (tags : list str) (dry_run : bool) (reason : obj) : call :=
  Call PUT (path2 "instances" instance "tags") (AppendReason reason (AppendDryRunIf dry_run (tag_query tags))) ONone.
Definition DeleteInstanceTags (instance : str) (tags : list str) (dry_run : bool) (reason : obj) : call :=
  Call DELETE (path2 "instances" instance "tags") (AppendReason reason (AppendDryRunIf dry_run (tag_query tags))) ONone.
Definition RebootInstance (instance : str) (reboot_type ignore_secondaries : obj) (dry_run : bool) (reason : obj)
    (kw : kwargs) : call :=
  let q := AppendIf (py_truth reboot_type) (key "type" reboot_type) (AppendDryRunIf dry_run []) in
  let q := AppendIf (given ignore_secondaries) (key "ignore_secondaries" ignore_secondaries) q in
  Call POST (path2 "instances" instance "reboot") (AppendReason reason q) (body_of kw).
Definition ShutdownInstance (instance : str) (dry_run no_remember : bool) (reason : obj) (kw : kwargs) : call :=
  Call PUT (path2 "instances" instance "shutdown")
    (AppendReason reason (AppendIf no_remember (key "no_remember" (OInt 1)) (AppendDryRunIf dry_run []))) (body_of kw).
Definition StartupInstance (instance : str) (dry_run no_remember : bool) (reason : obj) : call :=
  Call PUT (path2 "instances" instance "startup")
    (AppendReason reason (AppendIf no_remember (key "no_remember" (OInt 1)) (AppendDryRunIf dry_run []))) ONone.
Definition ReinstallInstance (features : list str) (instance : str) (os : obj) (no_startup : bool)
    (osparams reason : obj) : result client_exn call :=
  if decide (INST_REINSTALL_REQV1 ∈ features) then
    let body := SetItemIf (given osparams) "osparams" osparams
                  (SetItemIf (given os) "os" os [key "start" (OBool (negb no_startup))]) in
    Ok (Call POST (path2 "instances" instance "reinstall") (AppendReason reason []) (body_of body))
  else if py_truth osparams then Api_error
  else
    Ok (Call POST (path2 "instances" instance "reinstall")
          (AppendIf no_startup (key "nostartup" (OInt 1)) (AppendIf (py_truth os) (key "os" os) [])) ONone).
Definition ReplaceInstanceDisks (instance : str) (disks : option (list str)) (mode remote_node iallocator reason
    early_release : obj) : call :=
  let q := [key "mode" mode] in
  let q := match disks with
           | Some ds => q ++ [key "disks" (OStr (PyStr.join (lit ",") ds))]
           | None => q
           end in
  let q := AppendIf (given remote_node) (key "remote_node" remote_node) q in
  let q := AppendIf (given iallocator) (key "iallocator" iallocator) q in
  Call POST (path2 "instances" instance "replace-disks")
    (AppendIf (given early_release) (key "early_release" early_release) (AppendReason reason q)) ONone.
Definition PrepareExport (instance : str) (mode reason : obj) : call :=
  Call PUT (path2 "instances" instance "prepare-export") (AppendReason reason [key "mode" mode]) ONone.
Definition ExportInstance (instance : str) (mode destination shutdown remove_instance x509_key_name
    destination_x509_ca compress reason : obj) : call :=
  let body := [key "destination" destination; key "mode" mode] in
  let body := SetItemIf (given shutdown) "shutdown" shutdown body in
  let body := SetItemIf (given remove_instance) "remove_instance" remove_instance body in
  let body := SetItemIf (given x509_key_name) "x509_key_name" x509_key_name body in
  let body := SetItemIf (given destination_x509_ca) "destination_x509_ca" destination_x509_ca body in
  let body := SetItemIf (given compress) "compress" compress body in
  Call PUT (path2 "instances" instance "export") (AppendReason reason []) (body_of body).
Definition MigrateInstance (instance : str) (mode cleanup target_node reason : obj) : call :=
  let body := SetItemIf (given target_node) "target_node" target_node
                (SetItemIf (given cleanup) "cleanup" cleanup (SetItemIf (given mode) "mode" mode [])) in
  Call PUT (path2 "instances" instance "migrate") (AppendReason reason []) (body_of body).
Definition FailoverInstance (instance : str) (iallocator ignore_consistency target_node reason : obj) : call :=
  let body := SetItemIf (given target_node) "target_node" target_node
                (SetItemIf (given ignore_consistency) "ignore_consistency" ignore_consistency
                   (SetItemIf (given iallocator) "iallocator" iallocator [])) in
  Call PUT (path2 "instances" instance "failover") (AppendReason reason []) (body_of body).
Definition RenameInstance (instance : str) (new_name ip_check name_check reason : obj) : call :=
  let body := SetItemIf (given name_check) "name_check" name_check
                (SetItemIf (given ip_check) "ip_check" ip_check [key "new_name" new_name]) in
  Call PUT (path2 "instances" instance "rename") (AppendReason reason []) (body_of body).
Definition GetInstanceConsole (instance : str) (reason : obj) : call :=
  Call GET (path2 "instances" instance "console") (AppendReason reason []) ONone.

(** *** Jobs *)

Definition GetJobs (bulk : bool) : call :=
  NewCall GET (path0 "jobs") (if bulk then AppendIf bulk (key "bulk" (OInt 1)) [] else []) ONone
    (λ jobs, if bulk then Ok jobs
             else let* l := py_iter jobs in
                  rmap OList (rmapM (λ j, let* i := item_field "id" j in rmap OInt (int_of i)) l)).
Definition GetJobStatus (job_id : str) : call := Call GET (path1 "jobs" job_id) [] ONone.
Definition WaitForJobChange (job_id : str) (fields prev_job_info prev_log_serial : obj) : call :=
  Call GET (path2 "jobs" job_id "wait") []
    (body_of [key "fields" fields; key "previous_job_info" prev_job_info; key "previous_log_serial" prev_log_serial]).
Definition CancelJob (job_id : str) (dry_run : bool) : call :=
  Call DELETE (path1 "jobs" job_id) (AppendDryRunIf dry_run []) ONone.

(** *** Nodes *)

Definition GetNodes (bulk : bool) (reason : obj) : call :=
  Listing "nodes" (AppendReason reason (AppendIf bulk (key "bulk" (OInt 1)) [])) bulk "id".
Definition GetNode (node : str) (reason : obj) : call := Call GET (path1 "nodes" node) (AppendReason reason []) ONone.

Definition NODE_EVAC_SEC : obj := str_obj "secondary-only".

Definition EvacuateNode (features : list str) (node : str) (iallocator remote_node : obj) (dry_run : bool)
    (early_release mode : obj) (accept_old : bool) (reason : obj) : result client_exn call :=
  if py_truth iallocator && py_truth remote_node then Api_error
  else
    let q := AppendReason reason (AppendDryRunIf dry_run []) in
    if decide (NODE_EVAC_RES1 ∈ features) then
      let body := SetItemIf (given remote_node) "remote_node" remote_node
                    (SetItemIf (given iallocator) "iallocator" iallocator []) in
      let body := SetItemIf (given mode) "mode" mode
                    (SetItemIf (given early_release) "early_release" early_release body) in
      Ok (Call POST (path2 "nodes" node "evacuate") q (body_of body))
    else if negb accept_old then Api_error
    else if given mode && negb (py_eq mode NODE_EVAC_SEC) then Api_error
    else
      let q := AppendIf (py_truth remote_node) (key "remote_node" remote_node)
                 (AppendIf (py_truth iallocator) (key "iallocator" iallocator) q) in
      Ok (Call POST (path2 "nodes" node "evacuate")
            (AppendIf (py_truth early_release) (key "early_release" (OInt 1)) q) ONone).

Definition MigrateNode (features : list str) (node : str) (mode : obj) (dry_run : bool)
    (iallocator target_node reason : obj) : result client_exn call :=
  let q := AppendReason reason (AppendDryRunIf dry_run []) in
  if decide (NODE_MIGRATE_REQV1 ∈ features) then
    let body := SetItemIf (given target_node) "target_node" target_node
                  (SetItemIf (given iallocator) "iallocator" iallocator (SetItemIf (given mode) "mode" mode [])) in
    if (1 <? length q)%nat then Raise (ClientExn AssertionFailed)
    else Ok (Call POST (path2 "nodes" node "migrate") q (body_of body))
  else if given target_node then Api_error
  else Ok (Call POST (path2 "nodes" node "migrate") (AppendIf (given mode) (key "mode" mode) q) ONone).

Definition GetNodeRole (node : str) (reason : obj) : call :=
  Call GET (path2 "nodes" node "role") (AppendReason reason []) ONone.
Definition SetNodeRole (node : str) (role : obj) (force : bool) (auto_promote reason : obj) : call :=
  Call PUT (path2 "nodes" node "role")
    (AppendReason reason (AppendIf (given auto_promote) (key "auto-promote" auto_promote) (AppendForceIf force []))) role.
Definition PowercycleNode (node : str) (force : bool) (reason : obj) : call :=
  Call POST (path2 "nodes" node "powercycle") (AppendReason reason (AppendForceIf force [])) ONone.
Definition ModifyNode (node : str) (reason : obj) (kw : kwargs) : call :=
  Call POST (path2 "nodes" node "modify") (AppendReason reason []) (body_of kw).
Definition GetNodeStorageUnits (node : str) (storage_type output_fields reason : obj) : call :=
  Call GET (path2 "nodes" node "storage")
    (AppendReason reason [key "storage_type" storage_type; key "output_fields" output_fields]) ONone.
Definition ModifyNodeStorageUnits (node : str) (storage_type name allocatable reason : obj) : call :=
  Call PUT (path2 "nodes" node "storage/modify")
    (AppendReason reason (AppendIf (given allocatable) (key "allocatable" allocatable)
                            [key "storage_type" storage_type; key "name" name])) ONone.
Definition RepairNodeStorageUnits (node : str) (storage_type name reason : obj) : call :=
  Call PUT (path2 "nodes" node "storage/repair")
    (AppendReason reason [key "storage_type" storage_type; key "name" name]) ONone.
Definition GetNodeTags (node : str) (reason : obj) : call :=
  Call GET (path2 "nodes" node "tags") (AppendReason reason []) ONone.
Definition AddNodeTags (node : str) (tags : list str) (dry_run : bool) (reason : obj) : call :=
  Call PUT (path2 "nodes" node "tags") (AppendReason reason (AppendDryRunIf dry_run (tag_query tags)))
    (OList (OStr <$> tags)).
Definition DeleteNodeTags (node : str) (tags : list str) (dry_run : bool) (reason : obj) : call :=
  Call DELETE (path2 "nodes" node "tags") (AppendReason reason (AppendDryRunIf dry_run (tag_query tags))) ONone.

(** *** Networks *)

Definition GetNetworks (bulk : bool) (reason : obj) : call :=
  Listing "networks" (AppendReason reason (AppendIf bulk (key "bulk" (OInt 1)) [])) bulk "name".
Definition GetNetwork (network : str) (reason : obj) : call :=
  Call GET (path1 "networks" network) (AppendReason reason []) ONone.

(** [if s: s = s.split(",")] *)
Definition split_if (s : option str) : obj :=
  match s with
  | None => ONone
  | Some [] => OStr []
  | Some s => OList (OStr <$> PyStr.split ","%char s)
  end.

Definition CreateNetwork (network_name network gateway network6 gateway6 mac_prefix : obj)
    (add_reserved_ips tags : option str) (dry_run : bool) (reason : obj) : call :=
  Call POST (path0 "networks") (AppendReason reason (AppendDryRunIf dry_run []))
    (body_of [key "network_name" network_name; key "gateway" gateway; key "network" network;
              key "gateway6" gateway6; key "network6" network6; key "mac_prefix" mac_prefix;
              key "add_reserved_ips" (split_if add_reserved_ips); key "tags" (split_if tags)]).
Definition ConnectNetwork (network_name : str) (group_name mode link vlan : obj) (dry_run : bool) (reason : obj) : call :=
  Call PUT (path2 "networks" network_name "connect") (AppendReason reason (AppendDryRunIf dry_run []))
    (body_of [key "group_name" group_name; key "network_mode" mode; key "network_link" link; key "network_vlan" vlan]).
Definition DisconnectNetwork (network_name : str) (group_name : obj) (dry_run : bool) (reason : obj) : call :=
  Call PUT (path2 "networks" network_name "disconnect") (AppendReason reason (AppendDryRunIf dry_run []))
    (body_of [key "group_name" group_name]).
(** The query with the reason is not passed on. *)
Definition ModifyNetwork (network : str) (reason : obj) (kw : kwargs) : call :=
  Call PUT (path2 "networks" network "modify") [] (body_of kw).
Definition DeleteNetwork (network : str) (dry_run : bool) (reason : obj) : call :=
  Call DELETE (path1 "networks" network) (AppendReason reason (AppendDryRunIf dry_run [])) ONone.
Definition RenameNetwork (network : str) (new_name reason : obj) : call :=
  Call PUT (path2 "networks" network "rename") (AppendReason reason []) (body_of [key "new_name" new_name]).
Definition GetNetworkTags (network : str) (reason : obj) : call :=
  Call GET (path2 "networks" network "tags") (AppendReason reason []) ONone.
Definition AddNetworkTags (network : str) (tags : list str) (dry_run : bool) (reason : obj) : call :=
  Call PUT (path2 "networks" network "tags") (AppendReason reason (AppendDryRunIf dry_run (tag_query tags))) ONone.
Definition DeleteNetworkTags (network : str) (tags : list str) (dry_run : bool) (reason : obj) : call :=
  Call DELETE (path2 "networks" network "tags") (AppendReason reason (AppendDryRunIf dry_run (tag_query tags))) ONone.

(** *** Node groups *)

Definition GetGroups (bulk : bool) (reason : obj) : call :=
  Listing "groups" (AppendReason reason (AppendIf bulk (key "bulk" (OInt 1)) [])) bulk "name".
Definition GetGroup (group : str) (reason : obj) : call :=
  Call GET (path1 "groups" group) (AppendReason reason []) ONone.
Definition CreateGroup (name alloc_policy : obj) (dry_run : bool) (reason : obj) : call :=
  Call POST (path0 "groups") (AppendReason reason (AppendDryRunIf dry_run []))
    (body_of [key "name" name; key "alloc_policy" alloc_policy]).
Definition ModifyGroup (group : str) (reason : obj) (kw : kwargs) : call :=
  Call PUT (path2 "groups" group "modify") (AppendReason reason []) (body_of kw).
Definition DeleteGroup (group : str) (dry_run : bool) (reason : obj) : call :=
  Call DELETE (path1 "groups" group) (AppendReason reason (AppendDryRunIf dry_run [])) ONone.
Definition RenameGroup (group : str) (new_name reason : obj) : call :=
  Call PUT (path2 "groups" group "rename") (AppendReason reason []) (body_of [key "new_name" new_name]).
Definition AssignGroupNodes (group : str) (nodes : obj) (force dry_run : bool) (reason : obj) : call :=
  Call PUT (path2 "groups" group "assign-nodes")
    (AppendReason reason (AppendDryRunIf dry_run (AppendForceIf force []))) (body_of [key "nodes" nodes]).
Definition GetGroupTags (group : str) (reason : obj) : call :=
  Call GET (path2 "groups" group "tags") (AppendReason reason []) ONone.
Definition AddGroupTags (group : str) (tags : list str) (dry_run : bool) (reason : obj) : call :=
  Call PUT (path2 "groups" group "tags") (AppendReason reason (AppendDryRunIf dry_run (tag_query tags))) ONone.
Definition DeleteGroupTags (group : str) (tags : list str) (dry_run : bool) (reason : obj) : call :=
  Call DELETE (path2 "groups" group "tags") (AppendReason reason (AppendDryRunIf dry_run (tag_query tags))) ONone.

(** *** Queries and filters *)

Definition Query (what : str) (fields qfilter reason : obj) : call :=
  let body := SetItemIf (given qfilter) "filter" qfilter
                (SetItemIf (given qfilter) "qfilter" qfilter [key "fields" fields]) in
  Call PUT (path1 "query" what) (AppendReason reason []) (body_of body).
Definition QueryFields (what : str) (fields : option (list str)) (reason : obj) : call :=
  let q := AppendReason reason [] in
  Call GET (path2 "query" what "fields")
    (match fields with Some fs => q ++ [key "fields" (OStr (PyStr.join (lit ",") fs))] | None => q end) ONone.
Definition GetFilters (bulk : bool) : call :=
  Listing "filters" (AppendIf bulk (key "bulk" (OInt 1)) []) bulk "uuid".
Definition GetFilter (filter_uuid : str) : call := Call GET (path1 "filters" filter_uuid) [] ONone.

(** [reason_trail] with the entry that is appended at the time [now] *)
Definition filter_body (priority predicates action : obj) (reason_trail : list obj) (now : Z) : obj :=
  body_of [key "priority" priority; key "predicates" predicates; key "action" action;
           key "reason" (OList (reason_trail ++ [OTuple [str_obj "gnt:client"; OStr []; OInt now]]))].
Definition AddFilter (priority predicates action : obj) (reason_trail : list obj) (now : Z) : call :=
  Call POST (path0 "filters") [] (filter_body priority predicates action reason_trail now).
Definition ReplaceFilter (uuid : str) (priority predicates action : obj) (reason_trail : list obj) (now : Z) : call :=
  Call PUT (path1 "filters" uuid) [] (filter_body priority predicates action reason_trail now).
Definition DeleteFilter (uuid : str) : call := Call DELETE (path1 "filters" uuid) [] (body_of []).

(** ** Requests *)

Definition JOB_STATUS_SUCCESS : obj := str_obj "success".
Definition JOB_STATUS_FINALIZED : list obj := [str_obj "canceled"; str_obj "success"; str_obj "error"].

Section send.
  Context `{FloatText}.
  Context (username password : option str).

(** [_EncodeQuery] *)
Definition encode_value (v : obj) : exc obj :=
  match v with
  | ONone => Ok (OStr [])
  | OBool b => Ok (OInt (if b then 1 else 0))
  | OList _ | OTuple _ | ODict _ => Raise Value_error
  | _ => Ok v
  end.
Definition EncodeQuery (q : query) : exc query :=
  rmapM (λ nv : str * obj, rmap (pair nv.1) (encode_value nv.2)) q.

(** [urllib.parse.quote_plus] and [urlencode] *)
Definition hex_upper (n : N) : ascii := if (n <? 10)%N then ascii_of_N (48 + n) else ascii_of_N (55 + n).
Definition quote_char (a : ascii) : str :=
  if is_alnum a || char_in (lit "_.-~") a then [a]
  else if decide (a = " "%char) then lit "+"
  else ["%"%char; hex_upper (N_of_ascii a / 16); hex_upper (N_of_ascii a mod 16)].
Definition quote_plus (s : str) : str := flat_map quote_char s.

(** [str(v)] of an encoded value; sets and other objects do not occur. *)
Definition value_text (v : obj) : str :=
  match v with
  | OStr s => s
  | OInt z => str_of_Z z
  | OFloat f => float_repr f
  | _ => []
  end.
Definition urlencode (q : query) : str :=
  PyStr.join (lit "&") ((λ nv : str * obj, quote_plus nv.1 ++ lit "=" ++ quote_plus (value_text nv.2)) <$> q).

(** [JSONEncoder(sort_keys=True)] *)
Definition key_lt (a b : obj * obj) : bool :=
  match a.1, b.1 with OStr s, OStr t => str_lt s t | _, _ => false end.
Fixpoint sort_keys (v : obj) : obj :=
  match v with
  | OList l => OList (map sort_keys l)
  | OTuple l => OTuple (map sort_keys l)
  | ODict d => ODict (py_sorted key_lt (map (λ '(k, x), (k, sort_keys x)) d))
  | _ => v
  end.

(** [_CreateCurl]: the headers that libcurl sends *)
Definition auth_headers : list (str * str) :=
  match username, password with
  | Some ((_ :: _) as u), Some p => [(HTTP_AUTHORIZATION, HTTP_BASIC_AUTH ++ lit " " ++ b64encode (u ++ lit ":" ++ p))]
  | _, _ => []
  end.

(** The request of [_SendRequest]: method, target, headers and content *)
Definition SendRequest (c : call) : exc (method * str * list (str * str) * str) :=
  let* content := match c_content c with
                  | ONone => Ok []
                  | v => json_dumps false (sort_keys v)
                  end in
  let* target := match c_query c with
                 | [] => Ok (c_path c)
                 | q => let* q := EncodeQuery q in Ok (c_path c ++ lit "?" ++ urlencode q)
                 end in
  Ok (c_method c, target,
      auth_headers ++ [(HTTP_CONTENT_TYPE, HTTP_APP_JSON); (HTTP_CONTENT_LENGTH, dec (N.of_nat (length content)))],
      content).

(** What [_SendRequest] makes of the answer *)
Definition read_response (http_code : Z) (body : str) : result client_exn obj :=
  match (match body with [] => Ok ONone | _ => json_loads body end) with
  | Raise e => Raise (ClientExn e)
  | Ok response_content =>
      if (http_code =? 200)%Z then Ok response_content
      else match response_content with
           | ODict d =>
               if existsb (λ k, negb (bool_decide (is_Some (dict_get d (str_obj k))))) ["code"; "message"; "explain"]%string
               then Raise (ClientExn (PyExn KeyError ""))
               else Raise (GanetiApiError (Some http_code))
           | _ => Raise (GanetiApiError (Some http_code))
           end
  end.

(** [WaitForJobCompletion]; [job_status n] is the answer to the [n]-th poll.  With a
    negative number of retries it may go on for ever. *)
Fixpoint WaitForJobCompletion (fuel : nat) (retries : Z) (job_status : nat → result client_exn obj) (n : nat)
    : option (result client_exn bool) :=
  if (retries =? 0)%Z then Some (Ok false)
  else
    match fuel with
    | O => None
    | S fuel =>
        match job_status n with
        | Raise e => Some (Raise e)
        | Ok job_result =>
            if py_truth job_result then
              match item_field "status" job_result with
              | Raise e => Some (Raise (ClientExn e))
              | Ok status =>
                  if py_eq status JOB_STATUS_SUCCESS then Some (Ok true)
                  else if existsb (py_eq status) JOB_STATUS_FINALIZED then Some (Ok false)
                  else WaitForJobCompletion fuel (if (0 <? retries)%Z then retries - 1 else retries) job_status (S n)
              end
            else Some (Ok false)
        end
    end.
End send.
