(* ===== verification/RapiClientProps.v ===== *)
(** * Client and server of the remote API agree

    What a method of the client sends is what the server hands to the resource
    that the method is meant for: the names in the path, the arguments of the query
    and the content. *)

From S2P Require Import Prelude Errors PySort PyStr PyVal Json Serializer Text PyDict Ht OpCodes.
From S2P Require Import Base64 HttpAuth Rapi RapiResources RapiProps RapiClient.
From stdpp Require Import gmap.
#[local] Open Scope list_scope.
#[local] Open Scope stdpp_scope.
#[local] Open Scope py_scope.

(** ** Quoting *)

Lemma unquote_plain c s : c ≠ "%"%char → unquote (c :: s) = c :: unquote s.
Proof. intros Hc. destruct s as [|a [|b s]]; simpl; [done..|]. by rewrite decide_False. Qed.

Lemma hex_value_upper n : (n < 16)%N → hex_value (hex_upper n) = Some n ∧ hex_upper n ≠ "+"%char.
Proof.
  intros Hn. assert (forallb (λ m, bool_decide (hex_value (hex_upper (N.of_nat m)) = Some (N.of_nat m)) &&
    negb (bool_decide (hex_upper (N.of_nat m) = "+"%char))) (seq 0 16) = true) as Hall by by vm_compute.
  rewrite forallb_forall in Hall. specialize (Hall (N.to_nat n)). rewrite N2Nat.id in Hall.
  destruct (proj1 (andb_true_iff _ _) (Hall ltac:(apply in_seq; lia))) as [?%bool_decide_eq_true ?%negb_true_iff%bool_decide_eq_false].
  done.
Qed.

(** A character that is not quoted *)
Definition unquoted (a : ascii) : bool := is_alnum a || char_in (lit "_.-~") a.

Lemma unquoted_ne a c : unquoted a = true → unquoted c = false → a ≠ c.
Proof. intros Ha Hc ->. congruence. Qed.

Lemma unquote_quote a s : unquote (unplus (quote_char a) ++ s) = a :: unquote s.
Proof.
  unfold quote_char. destruct (is_alnum a || char_in (lit "_.-~") a) eqn:Ea; fold (unquoted a) in Ea.
  { cbn [unplus map]. rewrite decide_False by by apply unquoted_ne. apply unquote_plain. by apply unquoted_ne. }
  case_decide as Hsp; [by subst; apply unquote_plain|].
  assert (N_of_ascii a / 16 < 16 ∧ N_of_ascii a mod 16 < 16)%N as [H1 H2].
  { split; [|by apply N.mod_lt]. apply N.Div0.div_lt_upper_bound. apply N_ascii_bounded. }
  destruct (hex_value_upper _ H1) as [E1 N1], (hex_value_upper _ H2) as [E2 N2].
  cbn [unplus map app]. rewrite decide_False, !(decide_False (P := _ = "+"%char)) by done.
  cbn [unquote]. rewrite decide_True, E1, E2 by done. f_equal.
  rewrite <-N.div_mod' . apply ascii_N_embedding.
Qed.

Lemma unquote_quote_plus s : unquote (unplus (quote_plus s)) = s.
Proof.
  induction s as [|a s IH]; [done|]. unfold quote_plus. cbn [flat_map]. unfold unplus. rewrite map_app.
  fold (unplus (quote_char a)). rewrite unquote_quote. by f_equal.
Qed.

Lemma quote_plus_chars c s : unquoted c = false → c ∉ lit "+%" → c ∉ quote_plus s.
Proof.
  intros Hc Hpp. unfold quote_plus. rewrite list_elem_of_In, in_flat_map. intros (a & _ & Hin). revert Hin.
  rewrite <-list_elem_of_In. unfold quote_char. fold (unquoted a). destruct (unquoted a) eqn:Ea.
  { intros ->%list_elem_of_singleton. congruence. }
  case_decide; [intros ->%list_elem_of_singleton; apply Hpp; by left|].
  assert (N_of_ascii a / 16 < 16 ∧ N_of_ascii a mod 16 < 16)%N as [H1 H2].
  { split; [|by apply N.mod_lt]. apply N.Div0.div_lt_upper_bound. apply N_ascii_bounded. }
  assert (∀ n, (n < 16)%N → unquoted (hex_upper n) = true) as Hh.
  { intros n Hn. assert (forallb (λ m, unquoted (hex_upper (N.of_nat m))) (seq 0 16) = true) as Hall by by vm_compute.
    rewrite forallb_forall in Hall. specialize (Hall (N.to_nat n)). rewrite N2Nat.id in Hall. apply Hall, in_seq. lia. }
  rewrite !elem_of_cons, elem_of_nil. intros [->|[->|[->|[]]]]; [apply Hpp; by right; left| |];
    by rewrite Hh in Hc.
Qed.

(** ** Queries *)

(** The arguments that the server gets: those that are not blank, values in order *)
Definition nonblank `{FloatText} (nv : str * obj) : option (str * str) :=
  match value_text nv.2 with [] => None | v => Some (nv.1, v) end.

Definition args_of `{FloatText} (q : query) : list (str * list str) :=
  foldl (λ d '(n, v), match dget n d with
                      | Some vs => dset n (vs ++ [v]) d
                      | None => dset n [v] d
                      end) [] (omap nonblank q).

Lemma split_once_app c u p : c ∉ u → split_once c (u ++ c :: p) = Some (u, p).
Proof.
  intros Hu. unfold split_once.
  assert (span (λ a, negb (bool_decide (a = c))) (u ++ c :: p) = (u, c :: p)) as ->; [|done].
  apply span_until. auto.
Qed.

Lemma split_once_none c s : c ∉ s → split_once c s = None.
Proof.
  intros Hs. unfold split_once. assert (span (λ a, negb (bool_decide (a = c))) s = (s, [])) as ->; [|done].
  apply span_until. rewrite app_nil_r. auto.
Qed.

Lemma parse_pair_quoted `{FloatText} (nv : str * obj) :
  parse_pair (quote_plus nv.1 ++ lit "=" ++ quote_plus (value_text nv.2)) = nonblank nv.
Proof.
  unfold parse_pair, nonblank.
  change (lit "=" ++ quote_plus (value_text nv.2)) with ("="%char :: quote_plus (value_text nv.2)).
  rewrite split_once_app by (apply quote_plus_chars; [done|by apply (bool_decide_eq_true_1 _)]).
  destruct (value_text nv.2) as [|a v] eqn:Ev; [done|].
  pose proof (unquote_quote_plus (a :: v)) as Hv. destruct (quote_plus (a :: v)) eqn:Eq; [by vm_compute in Hv|].
  by rewrite Hv, unquote_quote_plus.
Qed.

Lemma parse_qs_urlencode `{FloatText} (q : query) : q ≠ [] → parse_qs (urlencode q) = args_of q.
Proof.
  intros Hq. unfold parse_qs, urlencode, args_of. rewrite split_join.
  - f_equal. set (f := λ nv : str * obj, quote_plus nv.1 ++ lit "=" ++ quote_plus (value_text nv.2)).
    assert (∀ nv, parse_pair (f nv) = nonblank nv) as Hf by apply parse_pair_quoted. clearbody f. clear Hq.
    induction q as [|nv q IH]; csimpl; [done|]. by rewrite Hf, IH.
  - by destruct q.
  - apply Forall_fmap, Forall_true. intros nv. unfold compose. rewrite !elem_of_app.
    intros [Hin|[Hin|Hin]]; [|by apply list_elem_of_singleton in Hin|]; revert Hin; (apply quote_plus_chars; [done|by apply (bool_decide_eq_true_1 _)]).
Qed.

(** ** Content *)

Lemma str_keys_perm d d' ks :
  d ≡ₚ d' → str_keys d = Some ks → ∃ ks', str_keys d' = Some ks' ∧ ks ≡ₚ ks'.
Proof.
  intros Hp. revert ks. induction Hp as [|[k x] d d' Hp IH|[k x] [k' x'] d|d1 d2 d3 H1 IH1 H2 IH2]; intros ks; simpl.
  - eauto.
  - destruct k; try done. intros (ks0 & Hk & ->)%fmap_Some. destruct (IH _ Hk) as (ks' & -> & Hks).
    eexists. split; [done|]. by rewrite Hks.
  - destruct k; try done; destruct k'; try done. destruct (str_keys d) as [ks0|]; [|done]. intros [= <-].
    eexists. split; [done|]. apply Permutation_swap.
  - intros (ks' & (ks'' & H3 & Hp')%IH2 & Hp)%IH1. exists ks''. split; [done|]. by rewrite Hp.
Qed.

Lemma str_keys_map (f : obj → obj) d : str_keys (map (λ '(k, x), (k, f x)) d) = str_keys d.
Proof. induction d as [|[[] x] d IH]; simpl; try done. by rewrite IH. Qed.

Lemma jsonable_sort_keys v : jsonable v = true → jsonable (sort_keys v) = true.
Proof.
  induction v as [|b|z|f|s|l IH|l IH|l|d IH|v IH|i] using obj_nested_ind; intros Hj; try done.
  1, 2: simpl in *; rewrite forallb_forall in *; intros x (y & <- & Hy)%in_map_iff; rewrite Forall_forall in IH;
    apply IH; [by apply list_elem_of_In|by apply Hj].
  simpl in *. apply andb_true_iff in Hj as [Hj Hk]. destruct (str_keys d) as [ks|] eqn:Ek; [|done].
  apply bool_decide_eq_true in Hk. set (d' := map (λ '(k, x), (k, sort_keys x)) d).
  pose proof (py_sorted_perm key_lt d') as Hp. apply andb_true_iff. split.
  - rewrite forallb_forall in *. intros [k x] Hin. apply list_elem_of_In in Hin. rewrite Hp in Hin.
    apply list_elem_of_In, in_map_iff in Hin as ([k' x'] & [= -> <-] & Hin). rewrite Forall_forall in IH.
    apply (IH (k, x')); [by apply list_elem_of_In|]. by apply (Hj (k, x')).
  - assert (str_keys d' = Some ks) as Ek' by (unfold d'; by rewrite str_keys_map).
    destruct (str_keys_perm _ _ _ (symmetry Hp) Ek') as (ks' & -> & Hks). apply bool_decide_eq_true. by rewrite <-Hks.
Qed.

(** What the server reads: the content with its keys in order, and private parameters
    wrapped *)
Definition content_read (v : obj) : exc obj := WrapPrivateValues (json_norm false (sort_keys v)).

Lemma content_roundtrip `{FloatText} v :
  jsonable v = true →
  ∃ t, json_dumps false (sort_keys v) = Ok t ∧ t ≠ [] ∧ LoadJson t = content_read v.
Proof.
  intros Hj. destruct (json_dumps_reads false _ (jsonable_sort_keys v Hj)) as (t & Et & Ht). exists t.
  split_and!; [done| |].
  - destruct Ht as [(a & t' & -> & _) _]. done.
  - unfold LoadJson, content_read. rewrite <-(app_nil_r t) at 1. by rewrite (json_loads_text t _ [] Ht).
Qed.

(** ** The table of methods *)

(** The resource that a method of the client is meant for, and the names in its path *)
Inductive issued : call → resource → list str → Prop :=
| by_GetVersion : issued GetVersion R_version []
| by_GetFeatures : issued GetFeatures R_2_features []
| by_GetOperatingSystems reason : issued (GetOperatingSystems reason) R_2_os []
| by_GetInfo reason : issued (GetInfo reason) R_2_info []
| by_GetHypervisorParameters reason : issued (GetHypervisorParameters reason) R_2_info_hypervisor_parameters []
| by_RedistributeConfig reason : issued (RedistributeConfig reason) R_2_redist_config []
| by_ModifyCluster reason kw : issued (ModifyCluster reason kw) R_2_cluster_modify []
| by_GetClusterTags reason : issued (GetClusterTags reason) R_2_tags []
| by_AddClusterTags tags dry_run reason : issued (AddClusterTags tags dry_run reason) R_2_tags []
| by_DeleteClusterTags tags dry_run reason : issued (DeleteClusterTags tags dry_run reason) R_2_tags []
| by_GetInstances bulk reason : issued (GetInstances bulk reason) R_2_instances []
| by_GetInstance instance reason : issued (GetInstance instance reason) R_2_instances_name [instance]
| by_GetInstanceInfo instance static reason :
    issued (GetInstanceInfo instance static reason) R_2_instances_name_info [instance]
| by_InstancesMultiAlloc instances reason kw c :
    InstancesMultiAlloc instances reason kw = Ok c → issued c R_2_instances_multi_alloc []
| by_CreateInstance features mode name disk_template disks nics reason kw c :
    CreateInstance features mode name disk_template disks nics reason kw = Ok c → issued c R_2_instances []
| by_DeleteInstance instance dry_run reason kw :
    issued (DeleteInstance instance dry_run reason kw) R_2_instances_name [instance]
| by_ModifyInstance instance reason kw :
    issued (ModifyInstance instance reason kw) R_2_instances_name_modify [instance]
| by_ActivateInstanceDisks instance ignore_size reason :
    issued (ActivateInstanceDisks instance ignore_size reason) R_2_instances_name_activate_disks [instance]
| by_DeactivateInstanceDisks instance reason force :
    issued (DeactivateInstanceDisks instance reason force) R_2_instances_name_deactivate_disks [instance]
| by_RecreateInstanceDisks instance disks nodes reason iallocator :
    issued (RecreateInstanceDisks instance disks nodes reason iallocator)
      R_2_instances_name_recreate_disks [instance]
| by_GrowInstanceDisk instance disk amount wait_for_sync reason :
    issued (GrowInstanceDisk instance disk amount wait_for_sync reason)
      R_2_instances_name_disk_grow [instance; disk]
| by_GetInstanceTags instance reason : issued (GetInstanceTags instance reason) R_2_instances_name_tags [instance]
| by_AddInstanceTags instance tags dry_run reason :
    issued (AddInstanceTags instance tags dry_run reason) R_2_instances_name_tags [instance]
| by_DeleteInstanceTags instance tags dry_run reason :
    issued (DeleteInstanceTags instance tags dry_run reason) R_2_instances_name_tags [instance]
| by_RebootInstance instance reboot_type ignore_secondaries dry_run reason kw :
    issued (RebootInstance instance reboot_type ignore_secondaries dry_run reason kw)
      R_2_instances_name_reboot [instance]
| by_ShutdownInstance instance dry_run no_remember reason kw :
    issued (ShutdownInstance instance dry_run no_remember reason kw) R_2_instances_name_shutdown [instance]
| by_StartupInstance instance dry_run no_remember reason :
    issued (StartupInstance instance dry_run no_remember reason) R_2_instances_name_startup [instance]
| by_ReinstallInstance features instance os no_startup osparams reason c :
    ReinstallInstance features instance os no_startup osparams reason = Ok c →
    issued c R_2_instances_name_reinstall [instance]
| by_ReplaceInstanceDisks instance disks mode remote_node iallocator reason early_release :
    issued (ReplaceInstanceDisks instance disks mode remote_node iallocator reason early_release)
      R_2_instances_name_replace_disks [instance]
| by_PrepareExport instance mode reason :
    issued (PrepareExport instance mode reason) R_2_instances_name_prepare_export [instance]
| by_ExportInstance instance mode destination shutdown remove_instance x509_key_name destination_x509_ca compress reason :
    issued (ExportInstance instance mode destination shutdown remove_instance x509_key_name destination_x509_ca compress reason)
      R_2_instances_name_export [instance]
| by_MigrateInstance instance mode cleanup target_node reason :
    issued (MigrateInstance instance mode cleanup target_node reason) R_2_instances_name_migrate [instance]
| by_FailoverInstance instance iallocator ignore_consistency target_node reason :
    issued (FailoverInstance instance iallocator ignore_consistency target_node reason)
      R_2_instances_name_failover [instance]
| by_RenameInstance instance new_name ip_check name_check reason :
    issued (RenameInstance instance new_name ip_check name_check reason) R_2_instances_name_rename [instance]
| by_GetInstanceConsole instance reason :
    issued (GetInstanceConsole instance reason) R_2_instances_name_console [instance]
| by_GetJobs bulk : issued (GetJobs bulk) R_2_jobs []
| by_GetJobStatus job_id : issued (GetJobStatus job_id) R_2_jobs_id [job_id]
| by_WaitForJobChange job_id fields prev_job_info prev_log_serial :
    issued (WaitForJobChange job_id fields prev_job_info prev_log_serial) R_2_jobs_id_wait [job_id]
| by_CancelJob job_id dry_run : issued (CancelJob job_id dry_run) R_2_jobs_id [job_id]
| by_GetNodes bulk reason : issued (GetNodes bulk reason) R_2_nodes []
| by_GetNode node reason : issued (GetNode node reason) R_2_nodes_name [node]
| by_EvacuateNode features node iallocator remote_node dry_run early_release mode accept_old reason c :
    EvacuateNode features node iallocator remote_node dry_run early_release mode accept_old reason = Ok c →
    issued c R_2_nodes_name_evacuate [node]
| by_MigrateNode features node mode dry_run iallocator target_node reason c :
    MigrateNode features node mode dry_run iallocator target_node reason = Ok c →
    issued c R_2_nodes_name_migrate [node]
| by_GetNodeRole node reason : issued (GetNodeRole node reason) R_2_nodes_name_role [node]
| by_SetNodeRole node role force auto_promote reason :
    issued (SetNodeRole node role force auto_promote reason) R_2_nodes_name_role [node]
| by_PowercycleNode node force reason : issued (PowercycleNode node force reason) R_2_nodes_name_powercycle [node]
| by_ModifyNode node reason kw : issued (ModifyNode node reason kw) R_2_nodes_name_modify [node]
| by_GetNodeStorageUnits node storage_type output_fields reason :
    issued (GetNodeStorageUnits node storage_type output_fields reason) R_2_nodes_name_storage [node]
| by_ModifyNodeStorageUnits node storage_type name allocatable reason :
    issued (ModifyNodeStorageUnits node storage_type name allocatable reason)
      R_2_nodes_name_storage_modify [node]
| by_RepairNodeStorageUnits node storage_type name reason :
    issued (RepairNodeStorageUnits node storage_type name reason) R_2_nodes_name_storage_repair [node]
| by_GetNodeTags node reason : issued (GetNodeTags node reason) R_2_nodes_name_tags [node]
| by_AddNodeTags node tags dry_run reason :
    issued (AddNodeTags node tags dry_run reason) R_2_nodes_name_tags [node]
| by_DeleteNodeTags node tags dry_run reason :
    issued (DeleteNodeTags node tags dry_run reason) R_2_nodes_name_tags [node]
| by_GetNetworks bulk reason : issued (GetNetworks bulk reason) R_2_networks []
| by_GetNetwork network reason : issued (GetNetwork network reason) R_2_networks_name [network]
| by_CreateNetwork network_name network gateway network6 gateway6 mac_prefix add_reserved_ips tags dry_run reason :
    issued (CreateNetwork network_name network gateway network6 gateway6 mac_prefix add_reserved_ips tags dry_run reason)
      R_2_networks []
| by_ConnectNetwork network_name group_name mode link vlan dry_run reason :
    issued (ConnectNetwork network_name group_name mode link vlan dry_run reason)
      R_2_networks_name_connect [network_name]
| by_DisconnectNetwork network_name group_name dry_run reason :
    issued (DisconnectNetwork network_name group_name dry_run reason)
      R_2_networks_name_disconnect [network_name]
| by_ModifyNetwork network reason kw : issued (ModifyNetwork network reason kw) R_2_networks_name_modify [network]
| by_DeleteNetwork network dry_run reason :
    issued (DeleteNetwork network dry_run reason) R_2_networks_name [network]
| by_RenameNetwork network new_name reason :
    issued (RenameNetwork network new_name reason) R_2_networks_name_rename [network]
| by_GetNetworkTags network reason : issued (GetNetworkTags network reason) R_2_networks_name_tags [network]
| by_AddNetworkTags network tags dry_run reason :
    issued (AddNetworkTags network tags dry_run reason) R_2_networks_name_tags [network]
| by_DeleteNetworkTags network tags dry_run reason :
    issued (DeleteNetworkTags network tags dry_run reason) R_2_networks_name_tags [network]
| by_GetGroups bulk reason : issued (GetGroups bulk reason) R_2_groups []
| by_GetGroup group reason : issued (GetGroup group reason) R_2_groups_name [group]
| by_CreateGroup name alloc_policy dry_run reason :
    issued (CreateGroup name alloc_policy dry_run reason) R_2_groups []
| by_ModifyGroup group reason kw : issued (ModifyGroup group reason kw) R_2_groups_name_modify [group]
| by_DeleteGroup group dry_run reason : issued (DeleteGroup group dry_run reason) R_2_groups_name [group]
| by_RenameGroup group new_name reason : issued (RenameGroup group new_name reason) R_2_groups_name_rename [group]
| by_AssignGroupNodes group nodes force dry_run reason :
    issued (AssignGroupNodes group nodes force dry_run reason) R_2_groups_name_assign_nodes [group]
| by_GetGroupTags group reason : issued (GetGroupTags group reason) R_2_groups_name_tags [group]
| by_AddGroupTags group tags dry_run reason :
    issued (AddGroupTags group tags dry_run reason) R_2_groups_name_tags [group]
| by_DeleteGroupTags group tags dry_run reason :
    issued (DeleteGroupTags group tags dry_run reason) R_2_groups_name_tags [group]
| by_Query what fields qfilter reason : issued (Query what fields qfilter reason) R_2_query [what]
| by_QueryFields what fields reason : issued (QueryFields what fields reason) R_2_query_fields [what]
| by_GetFilters bulk : issued (GetFilters bulk) R_2_filters []
| by_GetFilter filter_uuid : issued (GetFilter filter_uuid) R_2_filters_uuid [filter_uuid]
| by_AddFilter priority predicates action reason_trail now :
    issued (AddFilter priority predicates action reason_trail now) R_2_filters []
| by_ReplaceFilter uuid priority predicates action reason_trail now :
    issued (ReplaceFilter uuid priority predicates action reason_trail now) R_2_filters_uuid [uuid]
| by_DeleteFilter uuid : issued (DeleteFilter uuid) R_2_filters_uuid [uuid].

(** The resource has the method and defines its permission. *)
Definition serves (r : resource) (m : method) : bool :=
  match instantiate r with
  | Ok hs => bool_decide (is_Some (dget m hs)) && negb (bool_decide (GetHandlerAccess r m = NotDefined))
  | Raise _ => false
  end.

Fixpoint index_named (name : string) (data : list (path_key * resource)) : nat :=
  match data with
  | [] => 0
  | (_, r) :: data => if String.eqb (r_name r) name then 0 else S (index_named name data)
  end.

(** Find the entry of the resource in the map, and compare method and path. *)
Ltac find_entry :=
  match goal with
  | |- ∃ k, (k, ?r) ∈ CONNECTOR ∧ _ =>
      let i := eval vm_compute in (index_named (r_name r) CONNECTOR) in
      eexists; split; [apply (list_elem_of_lookup_2 _ i); reflexivity|];
      split; [vm_compute; reflexivity|cbn; rewrite <-?app_assoc, ?app_nil_r; reflexivity]
  end.

Lemma issued_served c r items :
  issued c r items →
  ∃ k, (k, r) ∈ CONNECTOR ∧ serves r (c_method c) = true ∧ c_path c = render (key_pieces k) items.
Proof.
  destruct 1; try find_entry; match goal with E : _ = Ok _ |- _ => rename E into Hc end.
  - unfold InstancesMultiAlloc in Hc. apply rbind_Ok in Hc as (body & _ & [= <-]). find_entry.
  - unfold CreateInstance in Hc. case_decide; [|done]. apply rbind_Ok in Hc as (body & _ & [= <-]). find_entry.
  - unfold ReinstallInstance in Hc. repeat case_match; simplify_eq; find_entry.
  - unfold EvacuateNode in Hc. repeat case_match; simplify_eq; find_entry.
  - unfold MigrateNode in Hc. repeat case_match; simplify_eq; find_entry.
Qed.

(** ** Credentials *)

Lemma rstrip_last P s a : P a = false → rstrip P (s ++ [a]) = s ++ [a].
Proof.
  intros Ha. unfold rstrip. rewrite reverse_snoc. cbn [drop_while]. rewrite Ha, <-reverse_snoc.
  apply reverse_involutive.
Qed.

Lemma strip_basic data :
  Forall (λ a, is_space a = false) data → data ≠ [] →
  split_ws 2 (strip (HTTP_BASIC_AUTH ++ lit " " ++ data)) = [HTTP_BASIC_AUTH; data].
Proof.
  intros Hd Hne. assert (strip (HTTP_BASIC_AUTH ++ lit " " ++ data) = HTTP_BASIC_AUTH ++ lit " " ++ data) as ->.
  { unfold strip. change (drop_while is_space (HTTP_BASIC_AUTH ++ lit " " ++ data)) with
      (HTTP_BASIC_AUTH ++ lit " " ++ data).
    destruct data as [|a l _] using rev_ind; [done|]. apply Forall_app in Hd as [_ Ha].
    rewrite !app_assoc. apply rstrip_last. by inversion Ha. }
  assert (span (λ a, negb (is_space a)) data = (data, [])) as Hspan.
  { clear Hne. induction Hd as [|a l Ha _ IH]; [done|]. cbn [span]. by rewrite Ha, IH. }
  destruct data as [|a data]; [done|]. apply Forall_cons in Hd as [Ha Hd].
  change (split_ws 2 (HTTP_BASIC_AUTH ++ lit " " ++ a :: data)) with
    (HTTP_BASIC_AUTH :: split_ws 1 (" "%char :: a :: data)).
  cbn [split_ws drop_while]. change (is_space " ") with true. cbv iota. rewrite Ha, Hspan. done.
Qed.

Lemma b64encode_nonempty s : s ≠ [] → b64encode s ≠ [].
Proof. by destruct s as [|a [|b [|c s]]]. Qed.

Lemma sent_credentials u pw rest :
  u ≠ [] → ":"%char ∉ u → is_ascii (u ++ pw) = true → credentials (auth_headers (Some u) (Some pw) ++ rest) u pw.
Proof.
  intros Hu Hcolon Ha. set (creds := u ++ ":"%char :: pw).
  exists (HTTP_BASIC_AUTH ++ lit " " ++ b64encode creds), HTTP_BASIC_AUTH, (b64encode creds), [], creds.
  split_and!; try done.
  - by destruct u.
  - apply strip_basic; [apply b64encode_nospace|]. apply b64encode_nonempty. unfold creds. by destruct u.
  - apply b64encode_ascii.
  - apply b64decode_encode.
  - unfold creds. rewrite is_ascii_app in *. apply andb_prop in Ha as [-> Ha]. exact Ha.
Qed.

(** ** Requests *)

(** No name contains the character that starts the query. *)
Definition no_query (ps : list piece) : bool :=
  forallb (λ p, match p with Text t => negb (bool_decide ("?"%char ∈ t)) | UriPattern cls => negb (cls "?"%char) end) ps.

Lemma render_no_query ps : ∀ names, no_query ps = true → fits ps names → "?"%char ∉ render ps names.
Proof.
  induction ps as [|[t|cls] ps IH]; intros names Hq Hf; cbn [render fits no_query forallb] in *;
    [by intros ?%elem_of_nil|..]; apply andb_true_iff in Hq as [Hp%negb_true_iff Hq].
  - apply bool_decide_eq_false in Hp. rewrite elem_of_app. intros [?|?]; [done|by eapply IH].
  - destruct names as [|name names]; [done|]. destruct Hf as (_ & Hn & Hf). rewrite elem_of_app.
    intros [Hin|?]; [|by eapply IH]. rewrite Forall_forall in Hn. apply Hn in Hin. congruence.
Qed.

Lemma CONNECTOR_no_query k r : (k, r) ∈ CONNECTOR → no_query (key_pieces k) = true.
Proof.
  intros Hin%list_elem_of_In. assert (forallb (λ kr, no_query (key_pieces kr.1)) CONNECTOR = true) as Hall by by vm_compute.
  rewrite forallb_forall in Hall. exact (Hall _ Hin).
Qed.

(** What [_SendRequest] puts after the path *)
Definition sent_target `{FloatText} (path : str) (q : query) : str :=
  match q with [] => path | _ => path ++ lit "?" ++ urlencode q end.

Lemma getController_sent `{FloatText} k r items q :
  (k, r) ∈ CONNECTOR → fits (key_pieces k) items →
  getController CONNECTOR (sent_target (render (key_pieces k) items) q) = Ok (r, items, args_of q).
Proof.
  intros Hin Hf. pose proof (render_no_query _ _ (CONNECTOR_no_query _ _ Hin) Hf) as Hno.
  pose proof (FindMatch_key _ _ _ _ CONNECTOR_unambiguous Hin Hf) as Hm. unfold getController, sent_target.
  destruct q as [|nv q]; [by rewrite split_once_none, Hm by done|].
  change (lit "?" ++ urlencode (nv :: q)) with ("?"%char :: urlencode (nv :: q)).
  by rewrite split_once_app, parse_qs_urlencode, Hm by done.
Qed.

(** The context that the server gives the handler *)
Definition context_of `{FloatText} (r : resource) (m : method) (items : list str) (q : query) (h : handler) : context :=
  ReqContext r items (args_of q) h (GetHandlerAccess r m) (GetHandlerAuthRequired r m).

Lemma sent_context `{FloatText} c r items q headers body :
  issued c r items → (∀ k, (k, r) ∈ CONNECTOR → fits (key_pieces k) items) →
  ∃ hs h, instantiate r = Ok hs ∧ dget (c_method c) hs = Some h ∧
    GetRequestContext CONNECTOR (Request (c_method c) (sent_target (c_path c) q) headers body) =
      Ok (context_of r (c_method c) items q h).
Proof.
  intros (k & Hin & Hs & ->)%issued_served Hf. unfold serves in Hs.
  destruct (instantiate r) as [hs|] eqn:Ei; [|done].
  apply andb_true_iff in Hs as [[h Hh]%bool_decide_eq_true Ha%negb_true_iff%bool_decide_eq_false].
  exists hs, h. split_and!; [done..|]. unfold GetRequestContext, context_of. cbn [q_method q_path].
  rewrite (getController_sent k r items q Hin (Hf k Hin)). cbn [rbind]. rewrite Ei. cbn [lift_exc rbind]. rewrite Hh.
  by destruct (GetHandlerAccess r (c_method c)).
Qed.

Lemma handle_request_served `{FloatText} res md5_hex contents reqauth m path headers body ctx :
  GetRequestContext CONNECTOR (Request m path headers body) = Ok ctx →
  may_access md5_hex contents reqauth (Request m path headers body) ctx →
  header_get HTTP_CONTENT_LENGTH headers = Some (dec (N.of_nat (length body))) →
  (Z.of_nat (length body) <= MAX_REQUEST_BODY_SIZE)%Z →
  handle_request CONNECTOR res md5_hex (file_users contents) reqauth m path headers body =
    respond (HandleRequest CONNECTOR res (Request m path headers body)).
Proof.
  intros Hctx Hm Hl Hmax. unfold handle_request. rewrite Hl, py_int_dec.
  destruct (Z.ltb_spec MAX_REQUEST_BODY_SIZE (Z.of_N (N.of_nat (length body)))); [lia|].
  assert ((if (0 <? Z.of_N (N.of_nat (length body)))%Z then take (Z.to_nat (Z.of_N (N.of_nat (length body)))) body else [])
    = body) as ->.
  { rewrite nat_N_Z, Nat2Z.id, firstn_all. by destruct body. }
  destruct (PreHandle_spec md5_hex CONNECTOR contents reqauth _ _ Hctx) as [[_ ->]|[Hn _]]; [|done].
  by destruct (HandleRequest _ _ _).
Qed.

(** What the handler gets as content *)
Definition received (content : obj) : exc obj :=
  match content with ONone => Ok ONone | _ => content_read content end.

(** The text of the content, and what the server makes of it *)
Lemma sent_content `{FloatText} c q u pw v :
  EncodeQuery (c_query c) = Ok q → jsonable (c_content c) = true → received (c_content c) = Ok v →
  ∃ body,
    SendRequest (Some u) (Some pw) c = Ok (c_method c, sent_target (c_path c) q,
      auth_headers (Some u) (Some pw) ++
        [(HTTP_CONTENT_TYPE, HTTP_APP_JSON); (HTTP_CONTENT_LENGTH, dec (N.of_nat (length body)))], body) ∧
    match body with [] => Ok ONone | _ => LoadJson body end = Ok v.
Proof.
  intros Hq Hj Hv. unfold SendRequest.
  assert (match c_query c with
          | [] => Ok (c_path c)
          | q => let* q := EncodeQuery q in Ok (c_path c ++ lit "?" ++ urlencode q)
          end = Ok (E := exn) (sent_target (c_path c) q)) as ->.
  { destruct (c_query c) as [|nv qs]; [by injection Hq as <-|]. rewrite Hq. simpl.
    apply rmapM_Ok in Hq. by inversion Hq. }
  destruct (content_roundtrip (c_content c) Hj) as (t & Et & Ht & Hl). unfold received in Hv.
  destruct (c_content c) eqn:E; [injection Hv as <-; by exists []|..]; exists t; rewrite Et;
    (split; [done|]; destruct t; [done|]; by rewrite Hl).
Qed.

Lemma read_response_error `{FloatText} code text : code ≠ 200%Z → ∃ e, read_response code text = Raise e.
Proof.
  intros Hc. unfold read_response. destruct (match text with [] => _ | _ => _ end) as [v|]; [|by eexists].
  apply Z.eqb_neq in Hc as ->. destruct v; try by eexists. case_match; by eexists.
Qed.

Lemma error_response_code e : rs_code (error_response e) ≠ 200%Z.
Proof. destruct e as [[] hs|e]; done. Qed.

Lemma read_response_ok `{FloatText} v :
  jsonable v = true → ∃ text, DumpJson false v = Ok text ∧ read_response 200 text = Ok (json_norm false v).
Proof.
  intros Hj. destruct (DumpJson_text false v Hj) as (t & Et & Ht). exists (t ++ [newline]). split; [done|].
  unfold read_response. destruct (t ++ [newline]) eqn:E; [by destruct t|]. rewrite <-E.
  by rewrite (json_loads_text t _ [newline] Ht).
Qed.

Lemma HandleRequest_sent `{FloatText} res m path headers body ctx v :
  GetRequestContext CONNECTOR (Request m path headers body) = Ok ctx →
  header_get HTTP_CONTENT_TYPE headers = Some HTTP_APP_JSON →
  match body with [] => Ok ONone | _ => LoadJson body end = Ok v →
  HandleRequest CONNECTOR res (Request m path headers body) =
    let '(evs, r) := run_handler res ctx m (x_handler ctx) v in
    (evs, match r with
          | Ok v => lift_exc (DumpJson false v)
          | Raise (HandlerExn e) => Raise e
          | Raise RpcTimeout => http_raise HttpGatewayTimeout
          | Raise RpcProtocol => http_raise HttpBadGateway
          end).
Proof.
  intros Hctx Ht Hv. unfold HandleRequest. rewrite Hctx. cbn [q_body q_headers q_method].
  destruct body as [|a body]; [by injection Hv as <-|]. rewrite Ht. cbn [default]. rewrite decide_True by done.
  by rewrite Hv.
Qed.

(** The answer that the client makes of the outcome of a handler *)
Definition answered `{FloatText} (outcome : result handler_exn obj) (resp : response) : Prop :=
  match outcome with
  | Ok v => jsonable v = true → ∃ text, rs_body resp = Some text ∧
              read_response (rs_code resp) text = Ok (json_norm false v)
  | Raise _ => ∀ text, ∃ e, read_response (rs_code resp) text = Raise e
  end.

Lemma respond_answered `{FloatText} (evs : list event) (outcome : result handler_exn obj) :
  let '(evs', resp) := respond (evs, match outcome with
          | Ok v => lift_exc (DumpJson false v)
          | Raise (HandlerExn e) => Raise e
          | Raise RpcTimeout => http_raise HttpGatewayTimeout
          | Raise RpcProtocol => http_raise HttpBadGateway
          end) in
  evs' = evs ∧ answered outcome resp.
Proof.
  destruct outcome as [v|[e| |]]; (split; [done|]); unfold answered; cbn [snd].
  - intros Hj. destruct (read_response_ok v Hj) as (text & -> & Hr). exists text. done.
  - intros text. apply read_response_error, error_response_code.
  - intros text. by apply read_response_error.
  - intros text. by apply read_response_error.
Qed.


(** ** Examples *)

Module ClientDemo.
Import RapiDemo.
#[local] Existing Instance demo_floats.

Fixpoint fitsb (ps : list piece) (names : list str) : bool :=
  match ps with
  | [] => bool_decide (names = [])
  | Text _ :: ps => fitsb ps names
  | UriPattern cls :: ps =>
      match names with
      | name :: names => negb (bool_decide (name = [])) && forallb cls name && fitsb ps names
      | [] => false
      end
  end.

Lemma fitsb_fits ps : ∀ names, fitsb ps names = true → fits ps names.
Proof.
  induction ps as [|[t|cls] ps IH]; intros names; simpl; [apply bool_decide_eq_true_1|apply IH|].
  destruct names as [|name names]; [done|]. intros [[Hn%negb_true_iff%bool_decide_eq_false Hc]%andb_true_iff Hf]%andb_true_iff.
  split_and!; [done| |by apply IH]. rewrite forallb_forall in Hc.
  apply Forall_forall. intros a Ha%list_elem_of_In. by apply Hc.
Qed.

Lemma resource_fits r items :
  forallb (λ kr, negb (String.eqb (r_name kr.2) (r_name r)) || fitsb (key_pieces kr.1) items) CONNECTOR = true →
  ∀ k, (k, r) ∈ CONNECTOR → fits (key_pieces k) items.
Proof.
  intros Hall k Hin%list_elem_of_In. rewrite forallb_forall in Hall. specialize (Hall _ Hin). simpl in Hall.
  rewrite String.eqb_refl in Hall. by apply fitsb_fits.
Qed.

Definition bob : user := default (new_user RAPI_ROLES [] [] []) (file_users users_file (lit "bob")).

Lemma bob_listed : listed users_file (lit "bob") bob.
Proof.
  apply (ParsePasswordFile_spec (λ s, s)). fold (file_users users_file (lit "bob")). unfold bob.
  assert (bool_decide (is_Some (file_users users_file (lit "bob"))) = true) as Hb by by vm_compute.
  by destruct (file_users users_file (lit "bob")).
Qed.

(** Renaming a group, with a reason that has to be quoted *)
Definition rename_group : call := RenameGroup (lit "default") (str_obj "rack1") (str_obj "moved & named").


(** The whole exchange: the group is renamed, and the reason arrives as it was given. *)
Definition exchange (c : call) : option (list event * Z * result client_exn obj) :=
  match SendRequest (Some (lit "bob")) (Some (lit "pw")) c with
  | Ok (m, target, headers, body) =>
      let '(evs, resp) := handle_request CONNECTOR demo_resources (λ s, s) (file_users users_file) true m target headers body in
      Some (evs, rs_code resp, read_response (rs_code resp) (default [] (rs_body resp)))
  | Raise _ => None
  end.

Lemma exchanges :
  exchange (ActivateInstanceDisks (lit "web") true (str_obj "50% full")) =
    Some ([Submitted "OpInstanceActivateDisks"
             {[lit "reason" := OList [OTuple [str_obj "gnt:user"; str_obj "50% full"; OInt 0];
                                      OTuple [str_obj "gnt:library:rlib2:instances_name_activate_disks"; OStr []; OInt 0]]]}],
          200%Z, Ok (OInt 7)) ∧
  exchange (CancelJob (lit "5") true) = Some ([], 403%Z, Raise (GanetiApiError (Some 403%Z))).
Proof. split; vm_compute; done. Qed.

(** With a server that takes parameters in the body, a dry run of the migration of a
    node cannot have a reason: the client's own assertion fails. *)
Lemma migrate_dry_run_reason node reason :
  py_truth reason = true →
  MigrateNode [NODE_MIGRATE_REQV1] node ONone true ONone ONone reason = Raise (ClientExn AssertionFailed).
Proof. intros Hr. unfold MigrateNode, AppendReason, AppendDryRunIf, AppendIf. by rewrite Hr. Qed.

(** The reason for a change of a network is not sent. *)
Lemma modify_network_reason network reason kw : c_query (ModifyNetwork network reason kw) = [].
Proof. done. Qed.

(** A server without the new format of a reinstallation does not get the reason. *)
Lemma reinstall_reason instance os reason c :
  ReinstallInstance [] instance os true ONone reason = Ok c → lit "reason" ∉ (c_query c).*1.
Proof.
  intros [= <-]. unfold AppendIf. destruct (py_truth os); apply (bool_decide_eq_true_1 _); by vm_compute.
Qed.
End ClientDemo.
