(* ===== verification/Algo.v ===== *)
(** * Algorithms (src/lib/utils/algo.py)

    Duplicates, dictionaries, natural sorting and running timeouts.  A
    dictionary is a finite map, a set is a finite set; [FlatToDict], which
    builds nested dictionaries from its arguments in place, is left out. *)

From Stdlib Require Import Sorted.
From S2P Require Import Prelude Errors PySort PyStr.
#[local] Open Scope list_scope.
#[local] Open Scope stdpp_scope.

(** ** Duplicates *)

Section duplicates.
  Context {A : Type} `{Countable A}.

(** The comprehension of [UniqueSequence], with the set [seen]. *)
Fixpoint unique_from (seen : gset A) (seq : list A) : list A :=
  match seq with
  | [] => []
  | i :: seq => if decide (i ∈ seen) then unique_from seen seq
                else i :: unique_from ({[i]} ∪ seen) seq
  end.

Definition UniqueSequence (seq : list A) : list A := unique_from ∅ seq.

(** The loop of [FindDuplicates]. *)
Fixpoint find_duplicates (dup seen : gset A) (seq : list A) : gset A :=
  match seq with
  | [] => dup
  | item :: seq =>
      if decide (item ∈ seen) then find_duplicates ({[item]} ∪ dup) seen seq
      else find_duplicates dup ({[item]} ∪ seen) seq
  end.

Definition FindDuplicates (seq : list A) : list A := elements (find_duplicates ∅ ∅ seq).

(** A dictionary's keys, in the order they were inserted. *)
Definition GetRepeatedKeys (dicts : list (list A)) : gset A :=
  if decide (length dicts < 2) then ∅ else list_to_set (FindDuplicates (concat dicts)).

Lemma unique_from_spec seen seq :
  NoDup (unique_from seen seq) ∧
  (∀ x, x ∈ unique_from seen seq ↔ x ∈ seq ∧ x ∉ seen) ∧
  sublist (unique_from seen seq) seq.
Proof.
  revert seen. induction seq as [|i seq IH]; intros seen; simpl.
  { split_and!; [constructor|set_solver|done]. }
  case_decide as Hi.
  - destruct (IH seen) as (Hn & Hx & Hs). split; [done|]. split; [|by constructor].
    intros x. rewrite Hx, elem_of_cons. naive_solver.
  - destruct (IH ({[i]} ∪ seen)) as (Hn & Hx & Hs). split_and!.
    + constructor; [|done]. rewrite Hx. set_solver.
    + intros x. rewrite !elem_of_cons, Hx, elem_of_union, elem_of_singleton.
      destruct (decide (x = i)); naive_solver.
    + by constructor.
Qed.

(** An element that occurs at two positions. *)
Definition repeated (seq : list A) (x : A) : Prop :=
  ∃ i j, i < j ∧ seq !! i = Some x ∧ seq !! j = Some x.

Lemma repeated_cons y seq x :
  repeated (y :: seq) x ↔ repeated seq x ∨ x = y ∧ x ∈ seq.
Proof.
  split.
  - intros (i & j & Hlt & Hi & Hj). destruct j as [|j]; [lia|]. destruct i as [|i]; simpl in *.
    + right. split; [congruence|]. by eapply list_elem_of_lookup_2.
    + left. exists i, j. split; [lia|done].
  - intros [(i & j & Hlt & Hi & Hj)|[-> [j Hj]%list_elem_of_lookup]].
    + exists (S i), (S j). split; [lia|done].
    + exists 0, (S j). split; [lia|done].
Qed.

Lemma find_duplicates_spec dup seen seq x :
  x ∈ find_duplicates dup seen seq ↔ x ∈ dup ∨ repeated seq x ∨ x ∈ seen ∧ x ∈ seq.
Proof.
  revert dup seen. induction seq as [|y seq IH]; intros dup seen; simpl.
  { split; [by left|]. intros [?|[(i & j & _ & Hi & _)|[_ ?]]]; [done|done|set_solver]. }
  rewrite repeated_cons, elem_of_cons. case_decide as Hy; rewrite IH.
  - destruct (decide (x = y)) as [->|]; set_solver.
  - destruct (decide (x = y)) as [->|]; set_solver.
Qed.

Lemma FindDuplicates_repeated seq x : x ∈ FindDuplicates seq ↔ repeated seq x.
Proof. unfold FindDuplicates. rewrite elem_of_elements, find_duplicates_spec. set_solver. Qed.

Lemma FindDuplicates_nil seq : FindDuplicates seq = [] ↔ NoDup seq.
Proof.
  split.
  - intros E. apply NoDup_alt. intros i j x Hi Hj.
    destruct (decide (i = j)) as [|Hne]; [done|exfalso].
    assert (repeated seq x) as Hr.
    { destruct (decide (i < j)); [by exists i, j|exists j, i; split; [lia|done]]. }
    apply FindDuplicates_repeated in Hr. rewrite E in Hr. set_solver.
  - intros Hnd. apply elem_of_nil_inv.
    intros x (i & j & Hlt & Hi & Hj)%FindDuplicates_repeated.
    pose proof (NoDup_lookup _ _ _ _ Hnd Hi Hj). lia.
Qed.

Lemma unique_from_id seen seq :
  NoDup seq → (∀ x, x ∈ seen → x ∉ seq) → unique_from seen seq = seq.
Proof.
  intros Hnd. revert seen. induction Hnd as [|y seq Hy Hnd IH]; intros seen Hseen; simpl; [done|].
  rewrite decide_False by (intros Hin; apply (Hseen y Hin); left).
  f_equal. apply IH. set_solver.
Qed.

(** [UniqueSequence] keeps every element once, at its first position:
    the result is a subsequence without repetitions and with the same elements;
    [FindDuplicates] finds exactly the elements that occur more than once, and
    there are none if and only if [UniqueSequence] changes nothing. *)
Theorem duplicates_correct (seq : list A) :
  (NoDup (UniqueSequence seq) ∧ sublist (UniqueSequence seq) seq ∧
   ∀ x, x ∈ UniqueSequence seq ↔ x ∈ seq) ∧
  (NoDup (FindDuplicates seq) ∧ ∀ x, x ∈ FindDuplicates seq ↔ repeated seq x) ∧
  (FindDuplicates seq = [] ↔ UniqueSequence seq = seq).
Proof.
  destruct (unique_from_spec ∅ seq) as (Hn & Hx & Hs).
  split; [|split].
  - split; [done|]. split; [done|]. intros x. unfold UniqueSequence. rewrite Hx. set_solver.
  - split; [unfold FindDuplicates; apply NoDup_elements|apply FindDuplicates_repeated].
  - rewrite FindDuplicates_nil. split.
    + intros Hnd. apply unique_from_id; [done|set_solver].
    + intros E. by rewrite <-E.
Qed.
End duplicates.

(** ** Dictionaries *)

Section dictionaries.
  Context {K V : Type} `{Countable K} `{Countable V}.

Definition JoinDisjointDicts (dict_a dict_b : gmap K V) : exc (gmap K V) :=
  do* assert (bool_decide (dom dict_a ∩ dom dict_b = ∅)) in
  Ok (dict_b ∪ dict_a).

(** [dict(pairs)]: a later pair with the same key replaces an earlier one. *)
Definition dict_of {X Y} `{Countable X} (pairs : list (X * Y)) : gmap X Y :=
  list_to_map (reverse pairs).

Definition InvertDict (dict_in : list (K * V)) : gmap V K :=
  dict_of (zip dict_in.*2 dict_in.*1).

Definition SequenceToDict {X} (key : X → K) (seq : list X) : exc (gmap K X) :=
  let keys := map key seq in
  match FindDuplicates keys with
  | [] =>
      do* assert (length keys =? length seq) in
      Ok (dict_of (zip keys seq))
  | _ => Raise (PyExn ValueError "Duplicate keys found")
  end.

Lemma JoinDisjointDicts_ok (a b : gmap K V) :
  match JoinDisjointDicts a b with
  | Ok m => a ##ₘ b ∧ ∀ k v, m !! k = Some v ↔ a !! k = Some v ∨ b !! k = Some v
  | Raise _ => ¬ a ##ₘ b
  end.
Proof.
  unfold JoinDisjointDicts. case_bool_decide as Hd; simpl.
  - assert (a ##ₘ b) as Hab by (apply map_disjoint_dom; set_solver).
    split; [done|]. intros k v. rewrite lookup_union_Some by done. tauto.
  - rewrite map_disjoint_dom. set_solver.
Qed.

Lemma SequenceToDict_ok {X} (key : X → K) seq :
  match SequenceToDict key seq with
  | Ok m => NoDup (map key seq) ∧ ∀ k x, m !! k = Some x ↔ x ∈ seq ∧ key x = k
  | Raise _ => ¬ NoDup (map key seq)
  end.
Proof.
  unfold SequenceToDict. pose proof (FindDuplicates_nil (map key seq)) as Hnil.
  destruct (FindDuplicates (map key seq)) as [|k0 ks]; [|intros Hnd; by apply Hnil in Hnd].
  assert (NoDup (map key seq)) as Hnd by (by apply Hnil).
  rewrite length_map, Nat.eqb_refl. simpl. split; [done|]. intros k x. unfold dict_of.
  rewrite <-elem_of_list_to_map.
  - rewrite elem_of_reverse. clear. induction seq as [|y seq IH]; simpl; [set_solver|].
    rewrite !elem_of_cons, IH. naive_solver.
  - rewrite fmap_reverse, fst_zip by (by rewrite length_map). by rewrite reverse_Permutation.
Qed.
End dictionaries.

(** Inverting a dictionary with distinct values can be undone. *)
Lemma InvertDict_ok {K V} `{Countable K} `{Countable V} (d : list (K * V)) k v :
  NoDup d.*2 → InvertDict d !! v = Some k ↔ (k, v) ∈ d.
Proof.
  intros Hnd. unfold InvertDict, dict_of. rewrite <-elem_of_list_to_map.
  - rewrite elem_of_reverse. clear. induction d as [|[k' v'] d IH]; simpl; [set_solver|].
    rewrite !elem_of_cons, IH. naive_solver.
  - rewrite fmap_reverse, fst_zip by (by rewrite !length_fmap). by rewrite reverse_Permutation.
Qed.

(** [src[:pos] + other + src[pos:]] with Python's reading of a negative
    position. *)
Definition slice_pos (len : nat) (pos : Z) : nat :=
  if (pos <? 0)%Z then Z.to_nat (Z.of_nat len + pos) else Z.to_nat pos.

Definition InsertAtPos {A} (src : list A) (pos : Z) (other : list A) : list A :=
  let p := slice_pos (length src) pos in
  take p src ++ other ++ drop p src.

(** ** Natural sorting *)

(** [_NiceSortAtom]: what it wraps. *)
Inductive atom := ANone | AInt (n : N) | AStr (s : str).

#[export] Instance atom_eq_dec : EqDecision atom.
Proof. solve_decision. Defined.

(** [_NiceSortAtom.__lt__]: comparison where Python has one; otherwise nothing
    comes first, then numbers, then strings. *)
Definition atom_lt (self other : atom) : bool :=
  match self, other with
  | AInt m, AInt n => (m <? n)%N
  | AStr s, AStr t => str_lt s t
  | ANone, _ => true
  | AInt _, ANone => false
  | AInt _, AStr _ => true
  | AStr _, _ => false
  end.

Definition SORTER_GROUPS : nat := 8.

(** The groups [(\D+|\d+)?]: each takes a run of digits or of other
    characters, or nothing at the end. *)
Fixpoint sorter_groups (n : nat) (s : str) : list (option str) * str :=
  match n with
  | 0 => ([], s)
  | S n =>
      match s with
      | [] => let '(gs, rest) := sorter_groups n [] in (None :: gs, rest)
      | a :: _ =>
          let '(g, rest) := span (λ b, Bool.eqb (is_digit b) (is_digit a)) s in
          let '(gs, rest) := sorter_groups n rest in
          (Some g :: gs, rest)
      end
  end.

(** [_SORTER_RE.match]: the rest of the line makes the last group. *)
Definition sorter_re (s : str) : option (list (option str)) :=
  let '(gs, rest) := sorter_groups SORTER_GROUPS s in
  let '(line, tail) := span (λ b, negb (bool_decide (b = newline))) rest in
  if dollar tail then Some (gs ++ [Some line]) else None.

Definition NiceSortGetKey (val : option str) : atom :=
  match val with
  | None => ANone
  | Some v => if bool_decide (v ≠ []) && forallb is_digit v then AInt (val_from 0 v) else AStr v
  end.

Definition NiceSortKey (value : str) : exc (list atom) :=
  match sorter_re value with
  | Some groups => Ok (map NiceSortGetKey groups)
  | None => Raise (PyExn AttributeError "'NoneType' object has no attribute 'groups'")
  end.

(** Comparing the key lists. *)
Definition key_lt : list atom → list atom → bool := list_lt atom_lt.

Definition NiceSort {A} (key : A → str) (values : list A) : exc (list A) :=
  let* keys := rmapM (λ v, NiceSortKey (key v)) values in
  Ok (snd <$> py_sorted (λ a b : list atom * A, key_lt a.1 b.1) (zip keys values)).

(** The order of atoms, on equal atoms too. *)
Definition atom_lt' (x y : atom) : bool := if decide (x = y) then false else atom_lt x y.

Definition atom_rank (x : atom) : nat :=
  match x with ANone => 0 | AInt _ => 1 | AStr _ => 2 end.

Lemma atom_lt'_total x y : x ≠ y → atom_lt' x y = true ∨ atom_lt' y x = true.
Proof.
  intros Hne. unfold atom_lt'. rewrite !decide_False by congruence.
  destruct x as [|m|s], y as [|n|t]; simpl; auto.
  - rewrite !N.ltb_lt. assert (m ≠ n) by congruence. lia.
  - apply str_lt_total. congruence.
Qed.

Lemma str_lt_irrefl s : str_lt s s = false.
Proof. apply lt_irrefl, _. Qed.

#[export] Instance atom_lt'_order : StrictWeakOrder atom_lt'.
Proof.
  split.
  - intros x y. unfold atom_lt'. destruct (decide (x = y)) as [->|Hne]; [done|].
    rewrite decide_False by congruence.
    destruct x as [|m|s], y as [|n|t]; simpl; try done.
    + intros ?%N.ltb_lt. apply N.ltb_ge. lia.
    + apply lt_asym.
  - intros x y z. unfold atom_lt'. destruct (decide (y = x)) as [->|Hyx]; [done|].
    destruct (decide (z = y)) as [->|Hzy]; [by rewrite (decide_False (P := y = x)) by done|].
    destruct (decide (z = x)) as [->|Hzx]; [done|].
    destruct x as [|a|s], y as [|b|t], z as [|c|u]; simpl; try done.
    + intros ?%N.ltb_ge ?%N.ltb_ge. apply N.ltb_ge. lia.
    + apply ge_trans.
Qed.

#[export] Instance key_lt_order : StrictWeakOrder key_lt.
Proof.
  apply (order_ext _ (list_lt atom_lt')).
  - apply list_lt_ext. intros x y Hne. unfold atom_lt'. by rewrite decide_False.
  - apply list_lt_order; [apply _|apply atom_lt'_total].
Qed.

Definition key_of (s : str) : list atom :=
  match NiceSortKey s with Ok k => k | Raise _ => [] end.

(** The order of the sorted list: by key. *)
Definition nice_lt {A} (key : A → str) (a b : A) : bool :=
  key_lt (key_of (key a)) (key_of (key b)).

#[export] Instance nice_lt_order {A} (key : A → str) : StrictWeakOrder (nice_lt key).
Proof. apply (key_order key_lt (λ a, key_of (key a))), _. Qed.

(** Sorting the decorated list is sorting the values by their keys. *)
Lemma sorted_zip {A} (key : A → str) (values : list A) keys :
  Forall2 (λ v k, NiceSortKey (key v) = Ok k) values keys →
  snd <$> py_sorted (λ a b : list atom * A, key_lt a.1 b.1) (zip keys values)
  = py_sorted (nice_lt key) values.
Proof.
  intros Hk. assert (zip keys values = (λ v, (key_of (key v), v)) <$> values) as ->.
  { induction Hk as [|v k values keys Hv Hk IH]; csimpl; [done|].
    unfold key_of at 1. by rewrite Hv, IH. }
  clear Hk keys. induction values as [|v values IH]; csimpl; [done|].
  unfold py_sorted in IH |- *. csimpl. rewrite <-IH. clear IH.
  assert (∀ l : list (list atom * A), (∀ x, x ∈ l → x.1 = key_of (key x.2)) →
    snd <$> insert_sorted (λ a b : list atom * A, key_lt a.1 b.1) (key_of (key v), v) l
    = insert_sorted (nice_lt key) v (snd <$> l)) as Hins.
  { intros l. induction l as [|[k w] l IH]; intros Hl; csimpl; [done|].
    assert (k = key_of (key w)) as -> by (apply (Hl (k, w)); left). unfold nice_lt at 1.
    destruct (key_lt _ _); csimpl; [|done]. rewrite IH; [done|]. set_solver. }
  apply Hins. intros x Hx.
  assert (x ∈ ((λ v, (key_of (key v), v)) <$> values)) as (w & -> & _)%list_elem_of_fmap; [|done].
  by rewrite <-(py_sorted_perm (λ a b : list atom * A, key_lt a.1 b.1)).
Qed.

(** A name without newlines has a key. *)
Lemma span_elem P s w r : span P s = (w, r) → ∀ a, a ∈ r → a ∈ s.
Proof.
  revert w r. induction s as [|b s IH]; intros w r; simpl; [by intros [= <- <-]|].
  destruct (P b); [|by intros [= <- <-]].
  destruct (span P s) as [x y]. intros [= <- <-] a Ha. right. by eapply IH.
Qed.

Lemma sorter_groups_elem n s gs r : sorter_groups n s = (gs, r) → ∀ a, a ∈ r → a ∈ s.
Proof.
  revert s gs r. induction n as [|n IH]; intros s gs r; simpl; [by intros [= <- <-]|].
  destruct s as [|b s].
  - destruct (sorter_groups n []) as [gs' r'] eqn:E. intros [= <- <-]. by eapply IH.
  - destruct (span _ _) as [g rest] eqn:Es.
    destruct (sorter_groups n rest) as [gs' r'] eqn:E. intros [= <- <-] a Ha.
    eapply span_elem; [exact Es|]. by eapply IH.
Qed.

Lemma NiceSortKey_total s : newline ∉ s → ∃ k, NiceSortKey s = Ok k.
Proof.
  intros Hn. unfold NiceSortKey, sorter_re.
  destruct (sorter_groups SORTER_GROUPS s) as [gs rest] eqn:E.
  assert (span (λ b, negb (bool_decide (b = newline))) rest = (rest, [])) as ->; [|by eexists].
  rewrite <-(app_nil_r rest) at 1. apply span_app; [|done]. apply Forall_forall. intros a Ha.
  apply (sorter_groups_elem _ _ _ _ E) in Ha. rewrite bool_decide_false; [done|]. congruence.
Qed.

(** Natural sorting succeeds on names without newlines.  Its result is a
    permutation of the input in the order of the keys, elements with equal keys
    keep their order, and sorting again changes nothing. *)
Theorem NiceSort_correct {A} (key : A → str) (values : list A) :
  Forall (λ v, newline ∉ key v) values →
  ∃ l, NiceSort key values = Ok l ∧ l ≡ₚ values ∧
    StronglySorted (λ a b, nice_lt key b a = false) l ∧
    (∀ x, filter (λ y, same_rank (nice_lt key) x y = true) l
          = filter (λ y, same_rank (nice_lt key) x y = true) values) ∧
    NiceSort key l = Ok l.
Proof.
  intros Hv.
  assert (∀ vs, Forall (λ v, newline ∉ key v) vs →
                NiceSort key vs = Ok (py_sorted (nice_lt key) vs)) as Hsort.
  { intros vs Hvs. assert (∃ ks, rmapM (λ v, NiceSortKey (key v)) vs = Ok ks) as [ks Hks].
    { induction Hvs as [|v vs Hv' Hvs [ks Hks]]; simpl; [by eexists|].
      destruct (NiceSortKey_total _ Hv') as [k ->]. simpl. rewrite Hks. simpl. by eexists. }
    unfold NiceSort. rewrite Hks. simpl. f_equal. apply sorted_zip. by apply rmapM_Ok. }
  exists (py_sorted (nice_lt key) values). split; [by apply Hsort|].
  split; [apply py_sorted_perm|]. split; [apply py_sorted_sorted, _|].
  split; [intros x; apply py_sorted_stable, _|].
  rewrite Hsort; [f_equal; apply py_sorted_idemp, _|]. by rewrite py_sorted_perm.
Qed.

Lemma NiceSort_correct_witness :
  ∃ l, NiceSort (λ s, s) [lit "a10"; lit "a2"; lit "a1"] = Ok l ∧
       l ≡ₚ [lit "a10"; lit "a2"; lit "a1"].
Proof.
  destruct (NiceSort_correct (λ s : str, s) [lit "a10"; lit "a2"; lit "a1"])
    as (l & E & Hp & _).
  - repeat constructor; apply (bool_decide_unpack _); vm_compute; exact I.
  - exists l. split; [exact E|exact Hp].
Defined.

(** Names that differ only in a number at their end come in the order of these
    numbers. *)
Lemma NiceSort_numbers p m n :
  p ≠ [] → Forall (λ a, is_digit a = false) p →
  key_lt (key_of (p ++ dec m)) (key_of (p ++ dec n)) = (m <? n)%N.
Proof.
  intros Hne Hp.
  assert (∀ k, key_of (p ++ dec k)
    = [AStr p; AInt k; ANone; ANone; ANone; ANone; ANone; ANone; AStr []]) as Hkey.
  { intros k. unfold key_of, NiceSortKey, sorter_re, SORTER_GROUPS.
    pose proof (dec_nonnil k) as Hd. pose proof (dec_digits k) as Hdig.
    pose proof (dec_val k) as Hval. destruct p as [|a p]; [done|].
    inversion Hp as [|? ? Ha Hp']; subst. cbn [sorter_groups app]. rewrite Ha.
    rewrite app_comm_cons, span_app.
    2: { eapply Forall_impl; [exact Hp|]. by intros b ->. }
    2: { destruct Hdig as [|b s Hb _]; [done|]. by rewrite Hb. }
    destruct (dec k) as [|b s] eqn:Ed; [done|]. inversion Hdig as [|? ? Hb Hs]; subst.
    rewrite Hb. rewrite <-(app_nil_r (b :: s)), span_app; [|..|done].
    2: { eapply Forall_impl; [exact Hdig|]. by intros c ->. }
    cbn [sorter_groups span]. change (dollar []) with true. cbn [map app NiceSortGetKey].
    cbn [forallb]. rewrite Ha, Hb. assert (forallb is_digit s = true) as ->.
    { apply forallb_forall. intros x Hx. rewrite Forall_forall in Hs.
      by apply Hs, list_elem_of_In. }
    by rewrite !app_nil_r, !bool_decide_true by done. }
  rewrite !Hkey. unfold key_lt. cbn [list_lt]. rewrite decide_True by done.
  case_decide as E; [|done]. injection E as ->. simpl. symmetry. apply N.ltb_irrefl.
Qed.

(** ** Running timeouts *)

(** [RunningTimeout]; times are in the unit of the clock. *)
Record running_timeout := RunningTimeout {
  rt_timeout : option Z;
  rt_allow_negative : bool;
  rt_start_time : option Z
}.

Definition new_timeout (timeout : option Z) (allow_negative : bool) : exc running_timeout :=
  match timeout with
  | Some t => if (t <? 0)%Z then Raise (PyExn ValueError "Timeout must not be negative")
              else Ok (RunningTimeout timeout allow_negative None)
  | None => Ok (RunningTimeout timeout allow_negative None)
  end.

(** [now_start] is read only when the timer starts, [now] always. *)
Definition Remaining (now_start now : Z) (r : running_timeout)
    : running_timeout * option Z :=
  match rt_timeout r with
  | None => (r, None)
  | Some t =>
      let start := default now_start (rt_start_time r) in
      let remaining := (start + t - now)%Z in
      (RunningTimeout (rt_timeout r) (rt_allow_negative r) (Some start),
       Some (if rt_allow_negative r then remaining else Z.max 0 remaining))
  end.

(** With a clock that does not go back, what remains never grows and never
    exceeds the timeout. *)
Lemma Remaining_decreasing t neg r s1 n1 s2 n2 x1 x2 r1 r2 :
  new_timeout (Some t) neg = Ok r → (s1 ≤ n1)%Z → (n1 ≤ n2)%Z →
  Remaining s1 n1 r = (r1, Some x1) → Remaining s2 n2 r1 = (r2, Some x2) →
  (x2 ≤ x1 ≤ t)%Z ∧ (neg = false → (0 ≤ x2)%Z).
Proof.
  unfold new_timeout. destruct (Z.ltb_spec t 0); [done|]. intros [= <-] H1 H2.
  unfold Remaining. simpl. intros [= <- <-]. simpl. intros [= <- <-].
  destruct neg; split; try done; lia.
Qed.
