(* ===== verification/Params.v ===== *)
(** * Parameter dictionaries and instance policies (src/lib/objects.py, src/lib/utils/__init__.py)

    Filling parameters from defaults, forcing the values of a dictionary to
    their declared types, and the checks of instance policies.  A dictionary is
    an association list ([PyDict]); [copy.deepcopy] is the identity, since no
    value is changed in place afterwards. *)

From Stdlib Require Import SpecFloat.
From S2P Require Import Prelude Errors PySort PyStr PyVal Json Text TextProps Algo PyDict.
#[local] Open Scope list_scope.
#[local] Open Scope stdpp_scope.
#[local] Open Scope nat_scope.
#[local] Open Scope py_scope.

Notation dict V := (list (str * V)) (only parsing).
Notation pdict := (list (str * obj)) (only parsing).

Definition Configuration_error : exn := GntExn ConfigurationError [].

(** ** Constants *)

Definition PP_DEFAULT : str := lit "default".
Definition BE_MEMORY : str := lit "memory".
Definition BE_MAXMEM : str := lit "maxmem".
Definition BE_MINMEM : str := lit "minmem".
Definition ND_OOB_PROGRAM : str := lit "oob_program".
Definition ND_SSH_PORT : str := lit "ssh_port".
Definition NDC_GLOBALS : list str := [lit "exclusive_storage"].
Definition HVC_GLOBALS : list str :=
  [lit "migration_bandwidth"; lit "migration_mode"; lit "migration_port"].
Definition NIC_MODE : str := lit "mode".
Definition NIC_LINK : str := lit "link".
Definition NIC_MODE_BRIDGED : str := lit "bridged".
Definition NIC_MODE_ROUTED : str := lit "routed".
Definition NIC_MODE_OVS : str := lit "openvswitch".
Definition NIC_VALID_MODES : list str :=
  [NIC_MODE_BRIDGED; NIC_MODE_ROUTED; NIC_MODE_OVS; lit "pool"; lit "ext"].
Definition VALUE_AUTO : str := lit "auto".
Definition DT_DISKLESS : str := lit "diskless".
Definition DT_FILE : str := lit "file".
Definition DT_SHARED_FILE : str := lit "sharedfile".
Definition DT_PLAIN : str := lit "plain".
Definition DT_BLOCK : str := lit "blockdev".
Definition DT_DRBD8 : str := lit "drbd".
Definition DT_RBD : str := lit "rbd".
Definition DT_EXT : str := lit "ext".
Definition DT_GLUSTER : str := lit "gluster".
Definition DISK_TEMPLATES : list str :=
  [DT_DISKLESS; DT_FILE; DT_SHARED_FILE; DT_PLAIN; DT_BLOCK; DT_DRBD8; DT_RBD; DT_EXT; DT_GLUSTER].
Definition ISPECS_PARAMETERS : list str :=
  [lit "cpu-count"; lit "disk-count"; lit "disk-size"; lit "memory-size"; lit "nic-count";
   lit "spindle-use"].
Definition ISPECS_MIN : str := lit "min".
Definition ISPECS_MAX : str := lit "max".

(** ** Filling *)

Definition FillDict {V} (defaults_dict custom_dict : dict V) (skip_keys : list str) : dict V :=
  foldl (λ d k, if dhas k d then ddel k d else d) (dupdate defaults_dict custom_dict) skip_keys.

Definition FillDiskParams (default_dparams custom_dparams : dict pdict) (skip_keys : list str)
    : dict pdict :=
  mk_dict ((λ dt, (dt, FillDict (default [] (dget dt default_dparams))
                         (default [] (dget dt custom_dparams)) skip_keys)) <$> DISK_TEMPLATES).

Definition UpgradeGroupedParams (target : option (dict pdict)) (defaults : pdict) : dict pdict :=
  match target with
  | None => [(PP_DEFAULT, defaults)]
  | Some target => foldl (λ t group, dalter (λ d, FillDict defaults d []) group t) target (dkeys target)
  end.

Definition UpgradeBeParams (target : pdict) : pdict :=
  match dget BE_MEMORY target with
  | Some memory => ddel BE_MEMORY (dset BE_MINMEM memory (dset BE_MAXMEM memory target))
  | None => target
  end.

Definition UpgradeDiskParams (DISK_DT_DEFAULTS diskparams : dict pdict) : dict pdict :=
  match diskparams with
  | [] => []
  | _ => FillDiskParams DISK_DT_DEFAULTS diskparams []
  end.

Definition UpgradeNDParams (NDC_DEFAULTS : pdict) (ndparams : option pdict) : pdict :=
  let ndparams := default [] ndparams in
  let ndparams := match dget ND_OOB_PROGRAM ndparams with
                  | Some ONone => ddel ND_OOB_PROGRAM ndparams
                  | _ => ndparams
                  end in
  FillDict NDC_DEFAULTS ndparams [].

(** [OS.SplitNameVariant], [OS.GetName] and [OS.GetVariant] *)
Definition VARIANT_DELIM : ascii := "+"%char.

Definition SplitNameVariant (name : str) : list str :=
  let '(base, rest) := span (λ a, negb (bool_decide (a = VARIANT_DELIM))) name in
  match rest with
  | [] => [base; []]
  | _ :: variant => [base; variant]
  end.
Definition GetName (name : str) : str := default [] (SplitNameVariant name !! 0).
Definition GetVariant (name : str) : str := default [] (SplitNameVariant name !! 1).

(** The parameters of a cluster that others are filled from *)
Record cluster_params := ClusterParams {
  hvparams : dict pdict;
  os_hvp : dict (dict pdict);
  beparams : dict pdict;
  nicparams : dict pdict;
  ndparams : pdict;
  osparams : dict pdict;
  osparams_private_cluster : dict pdict;
  diskparams : dict pdict
}.

Section cluster_params.
  Context (c : cluster_params).

Definition SimpleFillDP (dp : dict pdict) : dict pdict := FillDiskParams (diskparams c) dp [].

Definition GetHVDefaults (hypervisor : str) (os_name : option str) (skip_keys : list str) : pdict :=
  let fill_stack :=
    default [] (dget hypervisor (hvparams c)) ::
    match os_name with
    | Some os_name => [default [] (dget hypervisor (default [] (dget os_name (os_hvp c))))]
    | None => []
    end in
  foldl (λ ret_dict o_dict, FillDict ret_dict o_dict skip_keys) [] fill_stack.

Definition SimpleFillHV (hv_name : str) (os_name : option str) (hvp : pdict) (skip_globals : bool)
    : pdict :=
  let skip_keys := if skip_globals then HVC_GLOBALS else [] in
  FillDict (GetHVDefaults hv_name os_name skip_keys) hvp skip_keys.

Definition SimpleFillBE (bep : pdict) : pdict :=
  FillDict (default [] (dget PP_DEFAULT (beparams c))) bep [].
Definition SimpleFillNIC (nicp : pdict) : pdict :=
  FillDict (default [] (dget PP_DEFAULT (nicparams c))) nicp [].
Definition SimpleFillND (ndp : pdict) : pdict := FillDict (ndparams c) ndp [].

(** [FillND] of the cluster, given the parameters of group and node *)
Definition FillND (node_ndparams group_ndparams : pdict) : pdict :=
  SimpleFillND (FillDict group_ndparams node_ndparams []).
Definition FillNDGroup (group_ndparams : pdict) : pdict :=
  SimpleFillND (FillDict group_ndparams [] []).

(** [self.osparams.get(name, {})], where [name] may be [None] *)
Definition os_get (name : option str) (d : dict pdict) : pdict :=
  match name with Some name => default [] (dget name d) | None => [] end.

Definition SimpleFillOS (os_name : option str) (os_params_public : pdict)
    (os_params_private os_params_secret : option pdict) : exc pdict :=
  let name_only := GetName <$> os_name in
  let params_public :=
    FillDict (FillDict (os_get name_only (osparams c)) (os_get os_name (osparams c)) [])
      os_params_public [] in
  let params_private :=
    match os_params_private with
    | Some os_params_private =>
        FillDict (FillDict (os_get name_only (osparams_private_cluster c))
                    (os_get os_name (osparams_private_cluster c)) []) os_params_private []
    | None => []
    end in
  let params_secret := default [] os_params_secret in
  if decide (GetRepeatedKeys [dkeys params_public; dkeys params_private; dkeys params_secret] = ∅)
  then Ok (dupdate (dupdate params_public params_private) params_secret)
  else Raise (GntExn OpPrereqError []).
End cluster_params.

(** ** ForceDictType *)

Inductive vtype := VTString | VTMaybeString | VTBool | VTSize | VTInt | VTFloat | VTIntOrAuto.

Section force.
  Context `{FloatText}.

(** [int(v)] *)
Definition int_of (v : obj) : exc Z :=
  match v with
  | OBool b => Ok (if b then 1 else 0)%Z
  | OInt z => Ok z
  | OFloat f => trunc f
  | OStr s => match py_int s with Some z => Ok z | None => Raise Value_error end
  | _ => Raise Type_error
  end.

(** [float(v)] *)
Definition to_float (v : obj) : exc spec_float :=
  match v with
  | OStr s => float_parse s
  | _ => float_of v
  end.

(** [ParseUnit(v)].  [str(v)] begins with a letter or a bracket for [None], the
    booleans and the containers, so that it matches nothing. *)
Definition ParseUnit_obj (v : obj) : exc N :=
  match v with
  | OStr s => ParseUnit s
  | OInt z => ParseUnit (str_of_Z z)
  | OFloat f => ParseUnit (float_repr f)
  | _ => Raise (GntExn UnitParseError [VStr "Invalid format"])
  end.

Definition Type_enforcement : exn := GntExn TypeEnforcementError [].

(** [except (ValueError, TypeError)] *)
Definition bad_number (e : exn) : exn :=
  match e with
  | PyExn ValueError _ | PyExn TypeError _ => Type_enforcement
  | _ => e
  end.

Definition remap {A} (f : exn → exn) (r : exc A) : exc A :=
  match r with Ok a => Ok a | Raise e => Raise (f e) end.

Definition force_value (ktype : vtype) (v : obj) : exc obj :=
  match ktype with
  | VTString | VTMaybeString =>
      match v, ktype with
      | ONone, VTMaybeString => Ok v
      | OStr _, _ => Ok v
      | OBool false, _ => Ok (OStr [])
      | _, _ => Raise Type_enforcement
      end
  | VTBool =>
      match v with
      | OStr (_ :: _ as s) =>
          if decide (lower s = lit "false") then Ok (OBool false)
          else if decide (lower s = lit "true") then Ok (OBool true)
          else Raise Type_enforcement
      | _ => Ok (OBool (py_truth v))
      end
  | VTSize =>
      match ParseUnit_obj v with
      | Ok n => Ok (OInt (Z.of_N n))
      | Raise (GntExn UnitParseError _) => Raise Type_enforcement
      | Raise e => Raise e
      end
  | VTInt => rmap OInt (remap bad_number (int_of v))
  | VTFloat => rmap OFloat (remap bad_number (to_float v))
  | VTIntOrAuto =>
      if py_eq v (OStr VALUE_AUTO) then Ok v else rmap OInt (remap bad_number (int_of v))
  end.

(** The dictionary is changed in place: on an exception the values before the
    offending key have been converted. *)
Fixpoint force_keys (keys : list str) (key_types : dict vtype) (allowed_values : list obj)
    (target : pdict) : exc unit * pdict :=
  match keys with
  | [] => (Ok tt, target)
  | key :: keys =>
      match dget key key_types, dget key target with
      | None, _ | _, None => (Raise Type_enforcement, target)
      | Some ktype, Some v =>
          if existsb (py_eq v) allowed_values then force_keys keys key_types allowed_values target
          else
            match force_value ktype v with
            | Ok v => force_keys keys key_types allowed_values (dset key v target)
            | Raise e => (Raise e, target)
            end
      end
  end.

Definition ForceDictType (target : pdict) (key_types : dict vtype) (allowed_values : list obj)
    : exc unit * pdict :=
  force_keys (dkeys target) key_types allowed_values target.
End force.

(** ** NICs *)

(** [NIC.CheckParameterSyntax] *)
Definition NIC_CheckParameterSyntax (nicparams : pdict) : exc unit :=
  match dget NIC_MODE nicparams with
  | None => Raise (PyExn KeyError "mode")
  | Some mode =>
      let mode_is s := py_eq mode (OStr s) in
      do* (if negb (existsb mode_is NIC_VALID_MODES) && negb (mode_is VALUE_AUTO)
           then Raise Configuration_error else Ok tt) in
      if mode_is NIC_MODE_BRIDGED then
        match dget NIC_LINK nicparams with
        | None => Raise (PyExn KeyError "link")
        | Some l => if py_truth l then Ok tt else Raise Configuration_error
        end
      else Ok tt
  end.

(** ** Instance policies *)

(** The keys of a policy: [None] for one that is missing.  [ip_other] holds the
    keys that are none of [IPOLICY_ALL_KEYS]. *)
Record ipolicy := Ipolicy {
  ip_minmax : option (list (dict (dict Z)));
  ip_std : option (dict Z);
  ip_dts : option (list str);
  ip_vcpu_ratio : option obj;
  ip_spindle_ratio : option obj;
  ip_other : pdict
}.

Definition MakeEmptyIPolicy : ipolicy := Ipolicy None None None None None [].

Definition ipolicy_complete (p : ipolicy) : bool :=
  bool_decide (is_Some (ip_minmax p)) && bool_decide (is_Some (ip_std p)) &&
  bool_decide (is_Some (ip_dts p)) && bool_decide (is_Some (ip_vcpu_ratio p)) &&
  bool_decide (is_Some (ip_spindle_ratio p)) && match ip_other p with [] => true | _ => false end.

Definition fill_key {A} (d c : option A) : option A := match c with Some _ => c | None => d end.

Definition FillIPolicy (default_ipolicy custom_ipolicy : ipolicy) : exc ipolicy :=
  do* assert (ipolicy_complete default_ipolicy) in
  Ok (Ipolicy (fill_key (ip_minmax default_ipolicy) (ip_minmax custom_ipolicy))
        (match ip_std default_ipolicy, ip_std custom_ipolicy with
         | Some d, Some c => Some (FillDict d c [])
         | d, c => fill_key d c
         end)
        (fill_key (ip_dts default_ipolicy) (ip_dts custom_ipolicy))
        (fill_key (ip_vcpu_ratio default_ipolicy) (ip_vcpu_ratio custom_ipolicy))
        (fill_key (ip_spindle_ratio default_ipolicy) (ip_spindle_ratio custom_ipolicy))
        (ip_other custom_ipolicy)).

(** The order of a set of templates is left open; here it is that of the
    policy. *)
Definition UpgradeDiskTemplates (p : ipolicy) (enabled_disk_templates : list str) : ipolicy :=
  match ip_dts p with
  | Some dts =>
      if decide (Forall (λ t, t ∈ enabled_disk_templates) dts) then p
      else Ipolicy (ip_minmax p) (ip_std p)
             (Some (filter (λ t, t ∈ enabled_disk_templates) (remove_dups dts)))
             (ip_vcpu_ratio p) (ip_spindle_ratio p) (ip_other p)
  | None => p
  end.

Definition CheckIncompleteSpec (spec : dict Z) : exc unit :=
  if forallb (λ k, dhas k spec) ISPECS_PARAMETERS then Ok tt else Raise Configuration_error.

(** [minspec[name]] *)
Definition spec_get (spec : dict Z) (name : str) : exc Z :=
  match dget name spec with Some z => Ok z | None => Raise (PyExn KeyError "") end.

Definition CheckISpecParamSyntax (minmaxspecs : dict (dict Z)) (stdspec : dict Z) (name : str)
    (check_std : bool) : exc bool :=
  match dget ISPECS_MIN minmaxspecs, dget ISPECS_MAX minmaxspecs with
  | Some minspec, Some maxspec =>
      let* min_v := spec_get minspec name in
      let* max_v := spec_get maxspec name in
      if (max_v <? min_v)%Z then Raise Configuration_error
      else if check_std then
        let std_v := default min_v (dget name stdspec) in
        Ok ((min_v <=? std_v)%Z && (std_v <=? max_v)%Z)
      else Ok true
  | _, _ => Raise (PyExn KeyError "")
  end.

(** The body of the loop over the [minmax] specs *)
Definition check_minmax (minmaxspecs : dict (dict Z)) (stdspec : dict Z) (check_std : bool)
    : exc bool :=
  do* (if dhas ISPECS_MIN minmaxspecs && dhas ISPECS_MAX minmaxspecs then Ok tt
       else Raise Configuration_error) in
  do* rmapM CheckIncompleteSpec (dvalues minmaxspecs) in
  rmap (forallb id)
    (rmapM (λ param, CheckISpecParamSyntax minmaxspecs stdspec param check_std) ISPECS_PARAMETERS).

Definition CheckISpecSyntax (p : ipolicy) (check_std : bool) : exc unit :=
  match ip_minmax p with
  | None => Ok tt
  | Some minmax =>
      do* (if check_std && negb (bool_decide (is_Some (ip_std p)))
           then Raise Configuration_error else Ok tt) in
      let stdspec := default [] (ip_std p) in
      do* (if check_std then CheckIncompleteSpec stdspec else Ok tt) in
      match minmax with
      | [] => Raise Configuration_error
      | _ =>
          let* ok := rmapM (λ mm, check_minmax mm stdspec check_std) minmax in
          if existsb id ok then Ok tt else Raise Configuration_error
      end
  end.

Definition CheckDiskTemplates (disk_templates : list str) : exc unit :=
  match disk_templates with
  | [] => Raise Configuration_error
  | _ => if forallb (λ t, bool_decide (t ∈ DISK_TEMPLATES)) disk_templates then Ok tt
         else Raise Configuration_error
  end.

Definition CheckParameter `{FloatText} (value : obj) : exc unit :=
  match to_float value with
  | Ok _ => Ok tt
  | Raise (PyExn TypeError _) | Raise (PyExn ValueError _) => Raise Configuration_error
  | Raise e => Raise e
  end.

Definition opt_check {A} (f : A → exc unit) (o : option A) : exc unit :=
  match o with Some a => f a | None => Ok tt end.

(** [InstancePolicy.CheckParameterSyntax] *)
Definition CheckParameterSyntax `{FloatText} (p : ipolicy) (check_std : bool) : exc unit :=
  do* CheckISpecSyntax p check_std in
  do* opt_check CheckDiskTemplates (ip_dts p) in
  do* opt_check CheckParameter (ip_vcpu_ratio p) in
  do* opt_check CheckParameter (ip_spindle_ratio p) in
  match ip_other p with [] => Ok tt | _ => Raise Configuration_error end.
