(* ===== verification/ParamsProps.v ===== *)
(** * What filling, type enforcement and policy checks guarantee *)

From Stdlib Require Import SpecFloat.
From S2P Require Import Prelude Errors PySort PyStr PyVal Json Text TextProps Algo PyDict Params.
#[local] Open Scope list_scope.
#[local] Open Scope stdpp_scope.
#[local] Open Scope nat_scope.
#[local] Open Scope py_scope.

(** ** Filling *)

(** The first level that has the key *)
Definition first_level {V} (k : str) (levels : list (dict V)) : option V :=
  foldr (λ d o, match dget k d with Some v => Some v | None => o end) None levels.

Lemma skip_keys_ok {V} (d : dict V) skip :
  dict_ok d →
  dict_ok (foldl (λ d k, if dhas k d then ddel k d else d) d skip) ∧
  ∀ k, dget k (foldl (λ d k, if dhas k d then ddel k d else d) d skip) =
       if decide (k ∈ skip) then None else dget k d.
Proof.
  revert d. induction skip as [|s skip IH]; intros d Hd; cbn [foldl].
  { split; [done|]. intros k. by rewrite decide_False by set_solver. }
  destruct (IH (if dhas s d then ddel s d else d)) as [Hok Hg]; [destruct (dhas s d); auto with dict|].
  split; [done|]. intros k. rewrite Hg. destruct (decide (k ∈ skip)) as [Hk|Hk].
  { by rewrite decide_True by set_solver. }
  destruct (dhas s d) eqn:E.
  - rewrite dget_ddel by done. destruct (decide (k = s)) as [->|].
    + by rewrite decide_True by set_solver.
    + by rewrite (decide_False (P := k ∈ s :: skip)) by set_solver.
  - apply dhas_false, dget_None in E. destruct (decide (k = s)) as [->|].
    + by rewrite decide_True by set_solver.
    + by rewrite (decide_False (P := k ∈ s :: skip)) by set_solver.
Qed.

Lemma FillDict_ok {V} (d c : dict V) skip : dict_ok d → dict_ok (FillDict d c skip).
Proof. intros. apply skip_keys_ok. auto with dict. Qed.

Lemma dget_FillDict {V} (d c : dict V) skip k :
  dict_ok d → dict_ok c →
  dget k (FillDict d c skip) = if decide (k ∈ skip) then None else first_level k [c; d].
Proof.
  intros Hd Hc. unfold FillDict. rewrite (proj2 (skip_keys_ok _ _ (dict_ok_dupdate d c Hd))).
  rewrite dget_dupdate by done. simpl. by destruct (dget k c), (dget k d).
Qed.

Lemma dget_FillDict_keep {V} (d c : dict V) skip k :
  dict_ok d → dict_ok c → k ∉ skip →
  dget k (FillDict d c skip) = match dget k c with Some v => Some v | None => dget k d end.
Proof.
  intros. rewrite dget_FillDict, decide_False by done. simpl. by destruct (dget k c), (dget k d).
Qed.

#[export] Hint Resolve FillDict_ok : dict.

(** All dictionaries of a cluster's parameters have no key twice. *)
Definition grouped_ok (d : dict pdict) : Prop := Forall (λ p, dict_ok p.2) d.
Definition params_ok (c : cluster_params) : Prop :=
  grouped_ok (hvparams c) ∧ Forall (λ p, grouped_ok p.2) (os_hvp c) ∧ grouped_ok (beparams c) ∧
  grouped_ok (nicparams c) ∧ dict_ok (ndparams c) ∧ grouped_ok (osparams c) ∧
  grouped_ok (osparams_private_cluster c).

Lemma dget_default_Forall {V} (P : list V → Prop) (d : dict (list V)) k :
  Forall (λ p, P p.2) d → P [] → P (default [] (dget k d)).
Proof.
  intros Hd Hn. destruct (dget k d) as [v|] eqn:E; [|done]. apply dget_Some_1 in E.
  rewrite Forall_forall in Hd. by apply (Hd _ E).
Qed.

Lemma dict_ok_nil {V} : dict_ok ([] : dict V).
Proof. constructor. Qed.

Lemma grouped_get_ok name (d : dict pdict) : grouped_ok d → dict_ok (default [] (dget name d)).
Proof. intros. apply (dget_default_Forall dict_ok); [done|apply dict_ok_nil]. Qed.

Lemma os_get_ok name d : grouped_ok d → dict_ok (os_get name d).
Proof. intros. destruct name; [|apply dict_ok_nil]. by apply grouped_get_ok. Qed.

#[export] Hint Resolve dict_ok_nil grouped_get_ok os_get_ok : dict.

(** Precedence.  A hypervisor parameter of an instance is the instance's
    own, else that of its operating system, else that of the cluster, and the
    global ones are left out where asked; a node parameter is the node's, else
    the group's, else the cluster's. *)
Theorem parameter_precedence (c : cluster_params) (hv : str) (os : option str) (hvp ndp gndp : pdict)
    (skip_globals : bool) (k : str) :
  params_ok c → dict_ok hvp → dict_ok ndp → dict_ok gndp →
  dget k (SimpleFillHV c hv os hvp skip_globals) =
    (if decide (k ∈ HVC_GLOBALS ∧ skip_globals = true) then None
     else first_level k
            ([hvp] ++ match os with
                      | Some os => [default [] (dget hv (default [] (dget os (os_hvp c))))]
                      | None => []
                      end ++ [default [] (dget hv (hvparams c))])) ∧
  dget k (FillND c ndp gndp) = first_level k [ndp; gndp; ndparams c].
Proof.
  intros (Hhv & Hos & _ & _ & Hnd & _) Hhvp Hndp Hgndp. split.
  - unfold SimpleFillHV, GetHVDefaults.
    assert (dict_ok (default [] (dget hv (hvparams c)))) by auto with dict.
    assert (∀ os, dict_ok (default [] (dget hv (default [] (dget os (os_hvp c)))))).
    { intros os'. apply grouped_get_ok, (dget_default_Forall grouped_ok); [done|constructor]. }
    destruct (decide (k ∈ HVC_GLOBALS ∧ skip_globals = true)) as [[Hk ->]|Hn].
    { destruct os; cbn [foldl]; rewrite dget_FillDict by auto 10 with dict; by rewrite decide_True. }
    assert (k ∉ (if skip_globals then HVC_GLOBALS else [])) as Hs.
    { destruct skip_globals; [naive_solver|set_solver]. }
    revert Hs. generalize (if skip_globals then HVC_GLOBALS else []). intros skip Hs.
    destruct os as [os|]; cbn [foldl app]; rewrite !dget_FillDict_keep by auto 10 with dict; simpl;
      by repeat match goal with |- context [dget k ?d] => destruct (dget k d) end.
  - unfold FillND, SimpleFillND. rewrite !dget_FillDict_keep by (auto with dict; set_solver). simpl.
    by destruct (dget k ndp), (dget k gndp), (dget k (ndparams c)).
Qed.

(** ** Parameters of operating systems *)

Lemma list_to_set_nil_iff (l : list str) : (list_to_set l : gset str) = ∅ ↔ l = [].
Proof. split; [|by intros ->]. destruct l; [done|]. set_solver. Qed.

Lemma GetRepeatedKeys_empty (ks1 ks2 ks3 : list str) :
  NoDup ks1 → NoDup ks2 → NoDup ks3 →
  GetRepeatedKeys [ks1; ks2; ks3] = ∅ ↔ ∀ k, ¬ (k ∈ ks1 ∧ k ∈ ks2) ∧ ¬ (k ∈ ks1 ∧ k ∈ ks3) ∧
                                             ¬ (k ∈ ks2 ∧ k ∈ ks3).
Proof.
  intros H1 H2 H3. unfold GetRepeatedKeys. rewrite decide_False by (simpl; lia).
  rewrite list_to_set_nil_iff, FindDuplicates_nil. simpl. rewrite app_nil_r, !NoDup_app. split.
  - intros (_ & Ha & _ & Hb & _) k. specialize (Ha k). specialize (Hb k).
    rewrite elem_of_app in Ha. tauto.
  - intros Hk. split_and!; try done; intros k; specialize (Hk k); rewrite ?elem_of_app; tauto.
Qed.

(** The three kinds of parameters with their defaults *)
Definition os_levels (os_name : option str) (base : dict pdict) (own : pdict) : list pdict :=
  [own; os_get os_name base; os_get (GetName <$> os_name) base].

Lemma dget_os_fill os_name base own k :
  grouped_ok base → dict_ok own →
  dget k (FillDict (FillDict (os_get (GetName <$> os_name) base) (os_get os_name base) []) own []) =
  first_level k (os_levels os_name base own).
Proof.
  intros. rewrite !dget_FillDict_keep by (auto with dict; set_solver). unfold os_levels. simpl.
  by repeat match goal with |- context [dget k ?d] => destruct (dget k d) end.
Qed.

Lemma merge_disjoint (d1 d2 d3 : pdict) (e : exn) :
  dict_ok d1 → dict_ok d2 → dict_ok d3 →
  match (if decide (GetRepeatedKeys [dkeys d1; dkeys d2; dkeys d3] = ∅)
         then Ok (dupdate (dupdate d1 d2) d3) else Raise e) with
  | Ok d =>
      ∀ k, dget k d = match dget k d3 with Some v => Some v | None =>
                        match dget k d2 with Some v => Some v | None => dget k d1 end end ∧
           (dget k d1 = None ∨ dget k d2 = None) ∧ (dget k d1 = None ∨ dget k d3 = None) ∧
           (dget k d2 = None ∨ dget k d3 = None)
  | Raise e' =>
      e' = e ∧
      ∃ k, is_Some (dget k d1) ∧ is_Some (dget k d2) ∨ is_Some (dget k d1) ∧ is_Some (dget k d3) ∨
           is_Some (dget k d2) ∧ is_Some (dget k d3)
  end.
Proof.
  intros Hd1 Hd2 Hd3. pose proof (GetRepeatedKeys_empty _ _ _ Hd1 Hd2 Hd3) as Hrep.
  setoid_rewrite <-dget_is_Some in Hrep. case_decide as E.
  - intros k. rewrite !dget_dupdate by done. split; [done|].
    destruct (proj1 Hrep E k) as (H1 & H2 & H3).
    destruct (dget k d1), (dget k d2), (dget k d3); naive_solver.
  - split; [done|].
    destruct (decide (Exists (λ k, is_Some (dget k d2) ∨ is_Some (dget k d3)) (dkeys d1) ∨
                      Exists (λ k, is_Some (dget k d3)) (dkeys d2))) as [He|He].
    + destruct He as [He|He]; apply Exists_exists in He as (k & Hk%dget_is_Some & He);
        exists k; naive_solver.
    + destruct E. apply Hrep. intros k. rewrite !Exists_exists in He.
      split_and!; intros [Ha Hb]; apply He; [left|left|right]; exists k; rewrite <-dget_is_Some; auto.
Qed.

(** Operating system parameters.  The call succeeds exactly when no key is
    set at two of the levels public, private and secret, defaults included; the
    result then has each key at its level with its precedence (own, variant,
    operating system), and no private parameter unless they were asked for. *)
Theorem SimpleFillOS_correct (c : cluster_params) (os_name : option str) (public : pdict)
    (private secret : option pdict) :
  params_ok c → dict_ok public → dict_ok (default [] private) → dict_ok (default [] secret) →
  let pub k := first_level k (os_levels os_name (osparams c) public) in
  let priv k := match private with
                | Some private => first_level k (os_levels os_name (osparams_private_cluster c) private)
                | None => None
                end in
  let sec k := dget k (default [] secret) in
  match SimpleFillOS c os_name public private secret with
  | Ok d =>
      ∀ k, dget k d = match sec k with Some v => Some v | None =>
                        match priv k with Some v => Some v | None => pub k end end ∧
           (pub k = None ∨ priv k = None) ∧ (pub k = None ∨ sec k = None) ∧
           (priv k = None ∨ sec k = None)
  | Raise e =>
      e = GntExn OpPrereqError [] ∧
      ∃ k, is_Some (pub k) ∧ is_Some (priv k) ∨ is_Some (pub k) ∧ is_Some (sec k) ∨
           is_Some (priv k) ∧ is_Some (sec k)
  end.
Proof.
  intros (_ & _ & _ & _ & _ & Hos & Hpr) Hpub Hpriv Hsec. cbv zeta. unfold SimpleFillOS.
  pose proof (λ k, dget_os_fill os_name _ _ k Hos Hpub) as E1.
  set (d1 := FillDict _ public []) in *.
  assert (dict_ok d1) as Hd1 by (unfold d1; auto with dict).
  set (d2 := match private with Some p => _ | None => [] end).
  assert (dict_ok d2 ∧ ∀ k, dget k d2 = match private with
      | Some p => first_level k (os_levels os_name (osparams_private_cluster c) p)
      | None => None end) as [Hd2 E2].
  { unfold d2. destruct private; [|done]. split; [auto with dict|]. intros k.
    by apply dget_os_fill. }
  pose proof (merge_disjoint d1 d2 (default [] secret) (GntExn OpPrereqError []) Hd1 Hd2 Hsec) as Hm.
  destruct (if decide _ then _ else _) as [d|e].
  - intros k. rewrite <-E1, <-E2. apply Hm.
  - destruct Hm as [-> (k & Hk)]. split; [done|]. exists k. by rewrite <-E1, <-E2.
Qed.

(** ** Type enforcement *)

Section force.
  Context `{FloatText}.

(** What a value of a type looks like *)
Definition well_typed (t : vtype) (v : obj) : Prop :=
  match t with
  | VTString => ∃ s, v = OStr s
  | VTMaybeString => v = ONone ∨ ∃ s, v = OStr s
  | VTBool => ∃ b, v = OBool b
  | VTSize => ∃ n, v = OInt (Z.of_N n) ∧ (n mod 4 = 0)%N
  | VTInt => ∃ z, v = OInt z
  | VTFloat => ∃ f, v = OFloat f
  | VTIntOrAuto => py_eq v (OStr VALUE_AUTO) = true ∨ ∃ z, v = OInt z
  end.

Lemma ParseUnit_mod4 s n : ParseUnit s = Ok n → (n mod 4 = 0)%N.
Proof.
  unfold ParseUnit. destruct (span is_float_char s) as [number rest].
  destruct (span is_space rest) as [sp rest']. destruct (span is_alpha rest') as [u rest''].
  case_decide; [done|]. destruct (negb _); [done|]. destruct (parse_float number) as [[num d]|]; [|done].
  destruct (unit_factor _) as [f|]; [|done]. cbv zeta. intros E. injection E as <-.
  match goal with |- context [if (?v mod 4 =? 0)%N then _ else _] => generalize v end. intros v.
  destruct (N.eqb_spec (v mod 4) 0); [done|].
  pose proof (N.mod_upper_bound v 4). pose proof (N.div_mod v 4).
  rewrite (N.div_mod v 4) at 1 by lia.
  replace (4 * (v / 4) + v mod 4 + (4 - v mod 4))%N with (0 + (v / 4 + 1) * 4)%N by lia.
  by rewrite N.Div0.mod_add.
Qed.

Lemma ParseUnit_dec n : (n mod 4 = 0)%N → ParseUnit (dec n) = Ok n.
Proof.
  intros Hn. pose proof (dec_digits n) as Hd. pose proof (dec_nonnil n) as Hne.
  destruct (ParseUnit_correct (dec n) [] [] n 0 1) as (r & Hr & H4 & Hlo & Hhi).
  - eapply Forall_impl; [exact Hd|]. intros a Ha. unfold is_float_char. by rewrite Ha.
  - constructor.
  - constructor.
  - unfold parse_float. rewrite <-(app_nil_r (dec n)), split_no_sep.
    + simpl. rewrite app_nil_r, decide_False by done. by rewrite dec_val.
    + intros Hin. rewrite Forall_forall in Hd. by specialize (Hd _ Hin).
  - done.
  - rewrite !app_nil_r in Hr. rewrite Hr. f_equal. rewrite N.mul_1_r in *.
    change (10 ^ N.of_nat 0)%N with 1%N in *.
    pose proof (N.div_mod r 4). pose proof (N.div_mod n 4). lia.
Qed.

Lemma force_value_typed t v v' : force_value t v = Ok v' → well_typed t v'.
Proof.
  destruct t; simpl.
  - destruct v as [|[]| | | | | | | | |]; intros [= <-]; eauto.
  - destruct v as [|[]| | | | | | | | |]; intros [= <-]; eauto.
  - destruct v as [| | | |[|a s]| | | | | |]; intros E; try (injection E as <-; eauto).
    repeat case_decide; try done; injection E as <-; eauto.
  - destruct (ParseUnit_obj v) as [n|e] eqn:E; [|by destruct e as [|[]]].
    intros [= <-]. exists n. split; [done|]. destruct v; try done; by eapply ParseUnit_mod4.
  - intros (z & _ & <-)%rmap_Ok. eauto.
  - intros (f & _ & <-)%rmap_Ok. eauto.
  - destruct (py_eq v (OStr VALUE_AUTO)) eqn:E; [intros [= <-]; by left|].
    intros (z & _ & <-)%rmap_Ok. eauto.
Qed.

Lemma force_value_id t v : well_typed t v → force_value t v = Ok v.
Proof.
  destruct t; simpl.
  - by intros [s ->].
  - by intros [-> |[s ->]].
  - by intros [b ->].
  - intros (n & -> & Hn). simpl. unfold str_of_Z. rewrite (proj2 (Z.ltb_ge _ _)) by lia.
    rewrite Zabs2N.id. by rewrite ParseUnit_dec.
  - by intros [z ->].
  - by intros [f ->].
  - intros [Hv|[z ->]]; [by rewrite Hv|done].
Qed.

Definition accepted (key_types : dict vtype) (allowed_values : list obj) (target : pdict) (k : str) : Prop :=
  ∃ t v, dget k key_types = Some t ∧ dget k target = Some v ∧
    (existsb (py_eq v) allowed_values = true ∨ well_typed t v).

Lemma force_keys_spec keys kt allowed target :
  NoDup keys → (∀ k, k ∈ keys → k ∈ dkeys target) →
  let r := force_keys keys kt allowed target in
  dkeys r.2 = dkeys target ∧ (∀ k, k ∉ keys → dget k r.2 = dget k target) ∧
  (r.1 = Ok tt → ∀ k, k ∈ keys → accepted kt allowed r.2 k).
Proof.
  revert target. induction keys as [|key keys IH]; intros target Hnd Hin; simpl; [set_solver|].
  apply NoDup_cons in Hnd as [Hk Hnd].
  destruct (dget key kt) as [t|] eqn:Et; [|set_solver].
  destruct (dget key target) as [v|] eqn:Ev; [|set_solver].
  destruct (existsb (py_eq v) allowed) eqn:Ea.
  - destruct (IH target Hnd) as (H1 & H2 & H3); [set_solver|]. split_and!; [done|set_solver|].
    intros Ho k [->|Hk']%elem_of_cons; [|by apply H3]. exists t, v. rewrite H2 by done. auto.
  - destruct (force_value t v) as [v'|e] eqn:Ef; [|set_solver].
    destruct (IH (dset key v' target) Hnd) as (H1 & H2 & H3).
    { intros k Hk'. rewrite elem_of_dkeys_dset. set_solver. }
    split_and!.
    + rewrite H1, dkeys_dset, decide_True; [done|]. apply Hin. left.
    + intros k Hk'. rewrite H2 by set_solver. apply dget_dset_ne. set_solver.
    + intros Ho k [->|Hk']%elem_of_cons; [|by apply H3]. exists t, v'.
      rewrite H2, dget_dset_eq by done. eauto using force_value_typed.
Qed.

Lemma force_keys_id keys kt allowed target :
  (∀ k, k ∈ keys → accepted kt allowed target k) → force_keys keys kt allowed target = (Ok tt, target).
Proof.
  induction keys as [|key keys IH]; intros Hacc; simpl; [done|].
  destruct (Hacc key) as (t & v & -> & Ev & Hv); [left|]. rewrite Ev.
  assert (∀ k, k ∈ keys → accepted kt allowed target k) as Hacc' by (intros; apply Hacc; by right).
  destruct (existsb (py_eq v) allowed) eqn:Ea; [by apply IH|].
  destruct Hv as [?|Hv]; [done|]. rewrite force_value_id by done.
  replace (dset key v target) with target; [by apply IH|].
  clear -Ev. induction target as [|[k' v'] target IH]; simpl in *; [done|].
  case_decide; [congruence|]. by rewrite <-IH.
Qed.

(** C36: type enforcement.  On success every key is a declared one and its value
    is of the declared type or specially allowed, the keys and their order are
    as before, and enforcing the types again changes nothing.  On failure too
    the keys are as before. *)
Theorem ForceDictType_correct (target : pdict) (key_types : dict vtype) (allowed : list obj) :
  dict_ok target →
  let '(r, target') := ForceDictType target key_types allowed in
  dkeys target' = dkeys target ∧
  match r with
  | Ok _ =>
      (∀ k, k ∈ dkeys target → accepted key_types allowed target' k) ∧
      ForceDictType target' key_types allowed = (Ok tt, target')
  | Raise _ => True
  end.
Proof.
  intros Hok. unfold ForceDictType.
  destruct (force_keys_spec (dkeys target) key_types allowed target Hok) as (H1 & H2 & H3); [done|].
  destruct (force_keys (dkeys target) key_types allowed target) as [r target'] eqn:E. simpl in *.
  split; [done|]. destruct r as [[]|]; [|done]. specialize (H3 eq_refl). split; [done|].
  rewrite H1. by apply force_keys_id.
Qed.
End force.

(** ** Instance policies *)

Definition spec_complete (spec : dict Z) : Prop := ∀ p, p ∈ ISPECS_PARAMETERS → is_Some (dget p spec).

(** The bounds of a parameter in a minimum and a maximum *)
Definition bounds (mm : dict (dict Z)) (p : str) (a b : Z) : Prop :=
  ∃ mn mx, dget ISPECS_MIN mm = Some mn ∧ dget ISPECS_MAX mm = Some mx ∧
    dget p mn = Some a ∧ dget p mx = Some b.

Definition minmax_ok (mm : dict (dict Z)) : Prop :=
  Forall spec_complete (dvalues mm) ∧
  ∀ p, p ∈ ISPECS_PARAMETERS → ∃ a b, bounds mm p a b ∧ (a ≤ b)%Z.

Definition std_within (std : dict Z) (mm : dict (dict Z)) : Prop :=
  ∀ p a b v, p ∈ ISPECS_PARAMETERS → bounds mm p a b → dget p std = Some v → (a ≤ v ≤ b)%Z.

Definition ipolicy_valid `{FloatText} (p : ipolicy) (check_std : bool) : Prop :=
  (∀ minmax, ip_minmax p = Some minmax →
     minmax ≠ [] ∧ Forall minmax_ok minmax ∧
     (check_std = true → ∃ std, ip_std p = Some std ∧ spec_complete std ∧
        Exists (std_within std) minmax)) ∧
  (∀ dts, ip_dts p = Some dts → dts ≠ [] ∧ Forall (λ t, t ∈ DISK_TEMPLATES) dts) ∧
  (∀ v, v ∈ option_list (ip_vcpu_ratio p) ++ option_list (ip_spindle_ratio p) →
     ∃ f, to_float v = Ok f) ∧
  ip_other p = [].

Lemma CheckIncompleteSpec_Ok spec u : CheckIncompleteSpec spec = Ok u ↔ spec_complete spec.
Proof.
  unfold CheckIncompleteSpec, spec_complete. destruct u.
  destruct (forallb _ _) eqn:E; split; try done.
  - intros _ p Hp. rewrite forallb_forall in E. apply list_elem_of_In, E, dhas_true in Hp.
    by apply dget_is_Some.
  - intros Hc. rewrite <-not_true_iff_false, forallb_forall in E. destruct E. intros p Hp%list_elem_of_In.
    by apply dhas_true, dget_is_Some, Hc.
Qed.

Lemma CheckISpecParamSyntax_Ok mm std p check b :
  CheckISpecParamSyntax mm std p check = Ok b ↔
  ∃ lo hi, bounds mm p lo hi ∧ (lo ≤ hi)%Z ∧
    b = (if check then let v := default lo (dget p std) in (lo <=? v)%Z && (v <=? hi)%Z else true).
Proof.
  unfold CheckISpecParamSyntax, bounds, spec_get.
  destruct (dget ISPECS_MIN mm) as [mn|]; [|naive_solver].
  destruct (dget ISPECS_MAX mm) as [mx|]; [|naive_solver].
  destruct (dget p mn) as [lo|] eqn:Elo; simpl; [|naive_solver].
  destruct (dget p mx) as [hi|] eqn:Ehi; simpl; [|naive_solver].
  destruct (Z.ltb_spec hi lo); [split; [done|]; intros (? & ? & (? & ? & ? & ? & ? & ?) & ? & _); simplify_eq; lia|].
  destruct check; split.
  - intros [= <-]. eexists lo, hi. split_and!; [by eauto 10|lia|done].
  - intros (? & ? & (? & ? & ? & ? & ? & ?) & ? & ->). by simplify_eq.
  - intros [= <-]. eexists lo, hi. split_and!; [by eauto 10|lia|done].
  - intros (? & ? & (? & ? & ? & ? & ? & ?) & ? & ->). by simplify_eq.
Qed.

Lemma bounds_det mm p a b a' b' : bounds mm p a b → bounds mm p a' b' → a = a' ∧ b = b'.
Proof. intros (? & ? & ? & ? & ? & ?) (? & ? & ? & ? & ? & ?). by simplify_eq. Qed.

(** A spec list passes when it is in order; the flag says whether the standard
    spec is within it. *)
Lemma check_minmax_Ok mm std check :
  (check = true → spec_complete std) →
  ((∃ b, check_minmax mm std check = Ok b) ↔ minmax_ok mm) ∧
  ∀ b, check_minmax mm std check = Ok b → b = true ↔ (check = true → std_within std mm).
Proof.
  intros Hstd. unfold check_minmax. split; [split|].
  - intros [b Hb]. apply rbind_Ok in Hb as (_ & _ & (us & Hus & (ys & Hys & _)%rmap_Ok)%rbind_Ok).
    split.
    + apply Forall_forall. intros spec Hs. destruct (rmapM_elem_l _ _ _ _ Hus Hs) as (u & _ & Hu).
      by apply CheckIncompleteSpec_Ok in Hu.
    + intros p Hp. destruct (rmapM_elem_l _ _ _ _ Hys Hp) as (u & _ & Hu).
      apply CheckISpecParamSyntax_Ok in Hu as (lo & hi & ? & ? & _). eauto.
  - intros [Hc Hb].
    destruct (Hb (lit "cpu-count")) as (a & b & (mn & mx & Hmn & Hmx & _) & _); [left|].
    rewrite (dget_dhas _ _ _ Hmn), (dget_dhas _ _ _ Hmx). cbn [andb rbind].
    destruct (proj2 (rmapM_returns CheckIncompleteSpec (dvalues mm))) as [us ->].
    { eapply Forall_impl; [exact Hc|]. intros x Hx. exists tt. by apply CheckIncompleteSpec_Ok. }
    destruct (proj2 (rmapM_returns (λ p, CheckISpecParamSyntax mm std p check) ISPECS_PARAMETERS))
      as [ys ->].
    { apply Forall_forall. intros p (lo & hi & ? & ?)%Hb. eexists.
      apply CheckISpecParamSyntax_Ok. eauto. }
    by eexists.
  - intros b Hb. apply rbind_Ok in Hb as (_ & _ & (us & Hus & (ys & Hys & <-)%rmap_Ok)%rbind_Ok).
    rewrite forallb_forall. setoid_rewrite <-list_elem_of_In. split.
    + intros Hall ->. intros p lo hi v Hp Hbd Hv.
      destruct (rmapM_elem_l _ _ _ _ Hys Hp) as (y & Hy%Hall & Hu). unfold id in Hy. subst y.
      apply CheckISpecParamSyntax_Ok in Hu as (lo' & hi' & Hbd' & _ & E).
      destruct (bounds_det _ _ _ _ _ _ Hbd Hbd') as [<- <-]. rewrite Hv in E. simpl in E.
      symmetry in E. apply andb_true_iff in E as [?%Z.leb_le ?%Z.leb_le]. lia.
    + intros Hw y Hy. destruct (rmapM_elem_r _ _ _ _ Hys Hy) as (p & Hp & Hu).
      apply CheckISpecParamSyntax_Ok in Hu as (lo & hi & Hbd & Hle & ->). unfold id.
      destruct check; [|done]. destruct (Hstd eq_refl p Hp) as [v Hv]. rewrite Hv. simpl.
      destruct (Hw eq_refl p lo hi v Hp Hbd Hv). apply andb_true_iff. split; by apply Z.leb_le.
Qed.

Lemma CheckISpecSyntax_Ok p check :
  CheckISpecSyntax p check = Ok tt ↔
  ∀ minmax, ip_minmax p = Some minmax →
    minmax ≠ [] ∧ Forall minmax_ok minmax ∧
    (check = true → ∃ std, ip_std p = Some std ∧ spec_complete std ∧ Exists (std_within std) minmax).
Proof.
  unfold CheckISpecSyntax. destruct (ip_minmax p) as [mms|]; [|naive_solver].
  trans (mms ≠ [] ∧ Forall minmax_ok mms ∧
    (check = true → ∃ std, ip_std p = Some std ∧ spec_complete std ∧ Exists (std_within std) mms));
    [|split; [by intros H ? [= <-]|intros H; by apply H]].
  set (std := default [] (ip_std p)).
  destruct (check && negb (bool_decide (is_Some (ip_std p)))) eqn:E1; cbn [rbind].
  { split; [done|]. intros (_ & _ & H). destruct check; [|done].
    destruct (H eq_refl) as (s & Es & _). by rewrite Es in E1. }
  assert (check = true → ip_std p = Some std) as Estd.
  { intros ->. simpl in E1. apply negb_false_iff, bool_decide_eq_true in E1 as [s Es].
    unfold std. by rewrite Es. }
  destruct (if check then CheckIncompleteSpec std else Ok tt) as [[]|e] eqn:E2; cbn [rbind].
  2: { destruct check; [|done]. split; [done|]. intros (_ & _ & H).
       destruct (H eq_refl) as (s & Es & Hc & _). rewrite Estd in Es by done. injection Es as <-.
       apply (CheckIncompleteSpec_Ok _ tt) in Hc. congruence. }
  assert (check = true → spec_complete std) as Hstd.
  { intros ->. by apply CheckIncompleteSpec_Ok in E2. }
  destruct mms as [|mm0 mms0]; [naive_solver|]. set (mms := mm0 :: mms0).
  assert ((∃ ok, rmapM (λ mm, check_minmax mm std check) mms = Ok ok) ↔ Forall minmax_ok mms) as Hret.
  { rewrite rmapM_returns. apply Forall_iff. intros mm. apply (check_minmax_Ok mm std check Hstd). }
  destruct (rmapM (λ mm, check_minmax mm std check) mms) as [ok|e] eqn:E3; cbn [rbind].
  2: { split; [done|]. intros (_ & H & _). apply Hret in H as [ok ?]. done. }
  assert (existsb id ok = true ↔ (check = true → Exists (std_within std) mms)) as Hex.
  { rewrite existsb_exists. split.
    - intros (y & Hy%list_elem_of_In & Ht) Hc. unfold id in Ht. subst y.
      destruct (rmapM_elem_r _ _ _ _ E3 Hy) as (mm & Hmm & Hb). apply Exists_exists. exists mm.
      split; [done|]. by apply (proj2 (check_minmax_Ok mm std check Hstd) _ Hb).
    - intros H. assert (∃ mm, mm ∈ mms ∧ (check = true → std_within std mm)) as (mm & Hmm & Hw).
      { destruct check; [|exists mm0; split; [left|done]].
        apply Exists_exists in H as (mm & ? & ?); eauto. }
      destruct (rmapM_elem_l _ _ _ _ E3 Hmm) as (y & Hy & Hb). exists y.
      split; [by apply list_elem_of_In|]. by apply (proj2 (check_minmax_Ok mm std check Hstd) _ Hb). }
  destruct (existsb id ok); (split; [intros H|intros (_ & _ & H)]); try done.
  - split_and!; [done|by apply Hret; eexists|]. intros Hc. exists std. naive_solver.
  - assert (false = true); [|done]. apply Hex. intros Hc.
    destruct (H Hc) as (s & Es & _ & ?). rewrite Estd in Es by done. by injection Es as <-.
Qed.

Lemma CheckDiskTemplates_Ok l : CheckDiskTemplates l = Ok tt ↔ l ≠ [] ∧ Forall (λ t, t ∈ DISK_TEMPLATES) l.
Proof.
  unfold CheckDiskTemplates. destruct l as [|t l]; [naive_solver|].
  assert (forallb (λ t, bool_decide (t ∈ DISK_TEMPLATES)) (t :: l) = true ↔
          Forall (λ t, t ∈ DISK_TEMPLATES) (t :: l)) as Hf.
  { rewrite forallb_forall, Forall_forall. setoid_rewrite bool_decide_eq_true.
    by setoid_rewrite list_elem_of_In. }
  destruct (forallb _ _); naive_solver.
Qed.

Lemma CheckParameterSyntax_valid `{FloatText} (p : ipolicy) (check_std : bool) :
  CheckParameterSyntax p check_std = Ok tt ↔ ipolicy_valid p check_std.
Proof.
  unfold CheckParameterSyntax, ipolicy_valid. rewrite <-CheckISpecSyntax_Ok.
  destruct (CheckISpecSyntax p check_std) as [[]|e]; cbn [rbind]; [|naive_solver].
  assert (∀ A (f : A → exc unit) o r, opt_check f o = r → r = Ok tt ↔ ∀ a, o = Some a → f a = Ok tt)
    as Hopt by (intros A f [a|] r <-; naive_solver).
  assert (∀ v, CheckParameter v = Ok tt ↔ ∃ f, to_float v = Ok f) as Hpar.
  { intros v. unfold CheckParameter. destruct (to_float v) as [f|[[]|]]; naive_solver. }
  destruct (opt_check CheckDiskTemplates (ip_dts p)) as [[]|] eqn:E1; apply Hopt in E1 as H1;
    setoid_rewrite CheckDiskTemplates_Ok in H1; cbn [rbind]; [|naive_solver].
  destruct (opt_check CheckParameter (ip_vcpu_ratio p)) as [[]|] eqn:E2; apply Hopt in E2 as H2;
    setoid_rewrite Hpar in H2; cbn [rbind].
  2: { split; [done|]. intros (_ & _ & H3 & _). apply H2. intros v Ev. apply H3. rewrite Ev. set_solver. }
  destruct (opt_check CheckParameter (ip_spindle_ratio p)) as [[]|] eqn:E3; apply Hopt in E3 as H3;
    setoid_rewrite Hpar in H3; cbn [rbind].
  2: { split; [done|]. intros (_ & _ & H4 & _). apply H3. intros v Ev. apply H4. rewrite Ev. set_solver. }
  destruct (ip_other p); [|naive_solver]. split; [|done]. intros _.
  split_and!; [done|naive_solver| |done].
  intros v [Hv|Hv]%elem_of_app.
  - destruct (ip_vcpu_ratio p) as [v'|]; [|by apply not_elem_of_nil in Hv].
    apply list_elem_of_singleton in Hv as ->. by apply H2.
  - destruct (ip_spindle_ratio p) as [v'|]; [|by apply not_elem_of_nil in Hv].
    apply list_elem_of_singleton in Hv as ->. by apply H3.
Qed.

(** The check of an instance policy accepts exactly the valid ones: at
    least one pair of bounds, every spec complete, no minimum above its
    maximum, the standard spec, where it is checked, within one of the pairs,
    known disk templates, ratios that are numbers, and no other key. *)
Theorem CheckParameterSyntax_correct `{FloatText} (p : ipolicy) (check_std : bool) :
  CheckParameterSyntax p check_std = Ok tt ↔ ipolicy_valid p check_std.
Proof. apply CheckParameterSyntax_valid. Qed.

(** ** Examples *)

Module ParamsDemo.

#[local] Instance demo_floats : FloatText :=
  {| float_repr := λ _, lit "0.0"; float_parse := λ _, Raise Value_error |}.

Definition demo_cluster : cluster_params :=
  ClusterParams [(lit "kvm", [(lit "acpi", OBool true); (lit "migration_port", OInt 8102)])]
    [(lit "deb", [(lit "kvm", [(lit "acpi", OBool false)])])]
    [(PP_DEFAULT, [(BE_MAXMEM, OInt 128)])] [(PP_DEFAULT, [(NIC_MODE, str_obj "bridged")])]
    [(ND_SSH_PORT, OInt 22)] [(lit "deb", [(lit "user", str_obj "root")])]
    [(lit "deb", [(lit "key", OPrivate (str_obj "k"))])] [].

Lemma demo_cluster_ok : params_ok demo_cluster.
Proof. split_and!; repeat constructor; set_solver. Qed.

Lemma one_key_ok (k : str) (v : obj) : dict_ok [(k, v)].
Proof. repeat constructor. set_solver. Qed.

Lemma parameter_precedence_witness :
  dget (lit "acpi") (SimpleFillHV demo_cluster (lit "kvm") (Some (lit "deb")) [] true)
    = Some (OBool false) ∧
  dget (lit "acpi") (FillND demo_cluster [] [(ND_SSH_PORT, OInt 23)]) = None.
Proof.
  exact (parameter_precedence demo_cluster (lit "kvm") (Some (lit "deb")) [] [] [(ND_SSH_PORT, OInt 23)]
           true (lit "acpi") demo_cluster_ok dict_ok_nil dict_ok_nil (one_key_ok _ _)).
Defined.

Lemma SimpleFillOS_correct_witness :
  ∃ d, SimpleFillOS demo_cluster (Some (lit "deb+min")) [(lit "x", OInt 1)] (Some []) None = Ok d ∧
       dget (lit "user") d = Some (str_obj "root") ∧ dget (lit "x") d = Some (OInt 1).
Proof.
  pose proof (SimpleFillOS_correct demo_cluster (Some (lit "deb+min")) [(lit "x", OInt 1)] (Some []) None
    demo_cluster_ok (one_key_ok _ _) dict_ok_nil dict_ok_nil) as H.
  destruct (SimpleFillOS demo_cluster (Some (lit "deb+min")) [(lit "x", OInt 1)] (Some []) None)
    as [d|e] eqn:E; [|discriminate E].
  exists d. split; [reflexivity|]. split; [exact (proj1 (H (lit "user")))|exact (proj1 (H (lit "x")))].
Defined.

Lemma ForceDictType_correct_witness :
  (ForceDictType [(BE_MAXMEM, str_obj "1.5g"); (lit "vcpus", str_obj "2")]
     [(BE_MAXMEM, VTSize); (lit "vcpus", VTInt)] []).2
    = [(BE_MAXMEM, OInt 1536); (lit "vcpus", OInt 2)] ∧
  ForceDictType [(BE_MAXMEM, OInt 1536); (lit "vcpus", OInt 2)]
    [(BE_MAXMEM, VTSize); (lit "vcpus", VTInt)] []
    = (Ok tt, [(BE_MAXMEM, OInt 1536); (lit "vcpus", OInt 2)]).
Proof.
  split; [reflexivity|].
  assert (dict_ok [(BE_MAXMEM, str_obj "1.5g"); (lit "vcpus", str_obj "2")]) as Hd
    by (repeat constructor; set_solver).
  exact (proj2 (proj2 (ForceDictType_correct _ [(BE_MAXMEM, VTSize); (lit "vcpus", VTInt)] [] Hd))).
Defined.

(** A size with two dots escapes as a [ValueError]. *)
Lemma ForceDictType_value_error :
  (ForceDictType [(BE_MAXMEM, str_obj "1.2.3")] [(BE_MAXMEM, VTSize)] []).1
    = Raise (PyExn ValueError "could not convert string to float").
Proof. reflexivity. Qed.

(** Keys that are none of a policy's stay in it. *)
Lemma FillIPolicy_keeps_spurious d c p : FillIPolicy d c = Ok p → ip_other p = ip_other c.
Proof. unfold FillIPolicy. intros H. by inv_result. Qed.
End ParamsDemo.
