(* ===== verification/Disk.v ===== *)
(** * Disks (class Disk of src/lib/objects.py)

    A disk is a tree of block devices.  The logical id of a DRBD device names
    its two nodes, the port, the two minors and the secret; that of every other
    type is a pair.  Methods that change the object return the changed one.
    [children] is empty for [None] as well.  Shown: where the devices of a disk live
    and how it grows. *)

From S2P Require Import Prelude Errors PySort PyStr PyVal Algo PyDict Params ParamsProps.
#[local] Open Scope list_scope.
#[local] Open Scope stdpp_scope.
#[local] Open Scope nat_scope.
#[local] Open Scope py_scope.

Inductive logical_id :=
| LPair (a b : str)
| LDrbd (node_a node_b : str) (port minor_a minor_b : Z) (secret : str).

#[export] Instance logical_id_eq_dec : EqDecision logical_id.
Proof. solve_decision. Defined.

Inductive disk := Disk {
  d_forthcoming : bool;
  d_name : option str;
  d_dev_type : str;
  d_logical_id : logical_id;
  d_children : list disk;
  d_nodes : list str;
  d_iv_name : option str;
  d_size : Z;
  d_mode : str;
  d_params : pdict;
  d_spindles : option Z;
  d_serial_no : option Z;
  d_dynamic_params : pdict;
  d_uuid : option str
}.

Definition set_children (cs : list disk) (d : disk) : disk :=
  Disk (d_forthcoming d) (d_name d) (d_dev_type d) (d_logical_id d) cs (d_nodes d) (d_iv_name d)
    (d_size d) (d_mode d) (d_params d) (d_spindles d) (d_serial_no d) (d_dynamic_params d) (d_uuid d).
Definition set_size (z : Z) (d : disk) : disk :=
  Disk (d_forthcoming d) (d_name d) (d_dev_type d) (d_logical_id d) (d_children d) (d_nodes d)
    (d_iv_name d) z (d_mode d) (d_params d) (d_spindles d) (d_serial_no d) (d_dynamic_params d)
    (d_uuid d).
Definition set_mode (m : str) (d : disk) : disk :=
  Disk (d_forthcoming d) (d_name d) (d_dev_type d) (d_logical_id d) (d_children d) (d_nodes d)
    (d_iv_name d) (d_size d) m (d_params d) (d_spindles d) (d_serial_no d) (d_dynamic_params d)
    (d_uuid d).
Definition set_spindles (z : Z) (d : disk) : disk :=
  Disk (d_forthcoming d) (d_name d) (d_dev_type d) (d_logical_id d) (d_children d) (d_nodes d)
    (d_iv_name d) (d_size d) (d_mode d) (d_params d) (Some z) (d_serial_no d) (d_dynamic_params d)
    (d_uuid d).
Definition set_dynamic_params (p : pdict) (d : disk) : disk :=
  Disk (d_forthcoming d) (d_name d) (d_dev_type d) (d_logical_id d) (d_children d) (d_nodes d)
    (d_iv_name d) (d_size d) (d_mode d) (d_params d) (d_spindles d) (d_serial_no d) p (d_uuid d).
Definition set_logical_id (l : logical_id) (d : disk) : disk :=
  Disk (d_forthcoming d) (d_name d) (d_dev_type d) l (d_children d) (d_nodes d) (d_iv_name d)
    (d_size d) (d_mode d) (d_params d) (d_spindles d) (d_serial_no d) (d_dynamic_params d) (d_uuid d).
Definition set_nodes (ns : list str) (d : disk) : disk :=
  Disk (d_forthcoming d) (d_name d) (d_dev_type d) (d_logical_id d) (d_children d) ns (d_iv_name d)
    (d_size d) (d_mode d) (d_params d) (d_spindles d) (d_serial_no d) (d_dynamic_params d) (d_uuid d).
Definition set_dev_type (t : str) (d : disk) : disk :=
  Disk (d_forthcoming d) (d_name d) t (d_logical_id d) (d_children d) (d_nodes d) (d_iv_name d)
    (d_size d) (d_mode d) (d_params d) (d_spindles d) (d_serial_no d) (d_dynamic_params d) (d_uuid d).
Definition set_serial (z : Z) (d : disk) : disk :=
  Disk (d_forthcoming d) (d_name d) (d_dev_type d) (d_logical_id d) (d_children d) (d_nodes d)
    (d_iv_name d) (d_size d) (d_mode d) (d_params d) (d_spindles d) (Some z) (d_dynamic_params d)
    (d_uuid d).

(** [logical_id[0]] and [logical_id[1]], [len(logical_id)], [logical_id[2]] *)
Definition lid_first (l : logical_id) : str := match l with LPair a _ => a | LDrbd a _ _ _ _ _ => a end.
Definition lid_second (l : logical_id) : str := match l with LPair _ b => b | LDrbd _ b _ _ _ _ => b end.
Definition lid_len (l : logical_id) : nat := match l with LPair _ _ => 2 | LDrbd _ _ _ _ _ _ => 6 end.
Definition lid_port (l : logical_id) : exc Z :=
  match l with LPair _ _ => Raise (PyExn IndexError "") | LDrbd _ _ p _ _ _ => Ok p end.

Definition is_drbd (d : disk) : bool := bool_decide (d_dev_type d = DT_DRBD8).

(** ** Types and nodes *)

(** [_ComputeAllNodes]; the order of the set is left open, here that of the
    tree. *)
Fixpoint all_nodes_list (d : disk) : list str :=
  (if is_drbd d then [lid_first (d_logical_id d); lid_second (d_logical_id d)] else []) ++
  mjoin (all_nodes_list <$> d_children d).
Definition ComputeAllNodes (d : disk) : list str := remove_dups (all_nodes_list d).

Definition CreateOnSecondary (d : disk) : bool := bool_decide (d_dev_type d ∈ [DT_DRBD8; DT_PLAIN]).
Definition AssembleOnSecondary (d : disk) : bool := bool_decide (d_dev_type d ∈ [DT_DRBD8; DT_PLAIN]).
Definition OpenOnSecondary (d : disk) : bool := bool_decide (d_dev_type d ∈ [DT_PLAIN]).
Definition SupportsSnapshots (d : disk) : bool :=
  bool_decide (d_dev_type d ∈ [DT_PLAIN; DT_DRBD8; DT_EXT]).

Definition StaticDevPath (d : disk) : option str :=
  if decide (d_dev_type d = DT_PLAIN) then
    Some (lit "/dev/" ++ lid_first (d_logical_id d) ++ lit "/" ++ lid_second (d_logical_id d))
  else if decide (d_dev_type d = DT_BLOCK) then Some (lid_second (d_logical_id d))
  else if decide (d_dev_type d = DT_RBD) then
    Some (lit "/dev/" ++ lid_first (d_logical_id d) ++ lit "/" ++ lid_second (d_logical_id d))
  else None.

Definition ChildrenNeeded (d : disk) : Z := if is_drbd d then 0 else -1.

Fixpoint IsBasedOnDiskType (dev_type : str) (d : disk) : bool :=
  existsb (IsBasedOnDiskType dev_type) (d_children d) || bool_decide (d_dev_type d = dev_type).

Definition SIMPLE_TYPES : list str :=
  [DT_PLAIN; DT_FILE; DT_BLOCK; DT_RBD; DT_EXT; DT_SHARED_FILE; DT_GLUSTER].

Definition GetNodes (d : disk) (node_uuid : str) : exc (list str) :=
  if decide (d_dev_type d ∈ SIMPLE_TYPES) then Ok [node_uuid]
  else if is_drbd d then
    let result := [lid_first (d_logical_id d); lid_second (d_logical_id d)] in
    if decide (node_uuid ∈ result) then Ok result else Raise Configuration_error
  else Raise (GntExn ProgrammerError []).

Definition GetPrimaryNode (d : disk) (node_uuid : str) : str :=
  if is_drbd d then lid_first (d_logical_id d) else node_uuid.

(** The entries of a child's tree that the parent's own do not cover *)
Definition uncovered (my_nodes : list str) (child_result : list (str * disk)) : list (str * disk) :=
  if decide (length child_result = 1) then []
  else List.filter (λ p, negb (bool_decide (p.1 ∈ my_nodes))) child_result.

Fixpoint ComputeNodeTree (d : disk) (parent_node_uuid : str) : exc (list (str * disk)) :=
  let* my_nodes := GetNodes d parent_node_uuid in
  let* below := rmapM (λ node,
    rmap mjoin (rmapM (λ child, rmap (uncovered my_nodes) (ComputeNodeTree child node)) (d_children d)))
    my_nodes in
  Ok (((λ node, (node, d)) <$> my_nodes) ++ mjoin below).

(** ** Growing *)

Fixpoint ComputeGrowth (d : disk) (amount : Z) : list (str * Z) :=
  if decide (d_dev_type d = DT_PLAIN) then [(lid_first (d_logical_id d), amount)]
  else if decide (d_dev_type d = DT_DRBD8) then
    match d_children d with
    | child :: _ => ComputeGrowth child amount
    | [] => []
    end
  else [].

Definition GROWABLE : list str := [DT_PLAIN; DT_FILE; DT_RBD; DT_EXT; DT_SHARED_FILE; DT_GLUSTER].

Fixpoint RecordGrow (d : disk) (amount : Z) : exc disk :=
  if decide (d_dev_type d ∈ GROWABLE) then Ok (set_size (d_size d + amount) d)
  else if decide (d_dev_type d = DT_DRBD8) then
    match d_children d with
    | child :: rest =>
        let* child := RecordGrow child amount in
        Ok (set_size (d_size d + amount) (set_children (child :: rest) d))
    | [] => Ok (set_size (d_size d + amount) d)
    end
  else Raise (GntExn ProgrammerError []).

Definition if_given {A} (f : A → disk → disk) (o : option A) (d : disk) : disk :=
  match o with Some a => f a d | None => d end.

Fixpoint Disk_Update (d : disk) (size : option Z) (mode : option str) (spindles : option Z) : exc disk :=
  let* d :=
    if decide (d_dev_type d = DT_DRBD8) then
      match d_children d with
      | child :: rest =>
          let* child := Disk_Update child size mode None in Ok (set_children (child :: rest) d)
      | [] => Ok d
      end
    else do* assert (bool_decide (length (d_children d) = 0)) in Ok d in
  Ok (if_given set_spindles spindles (if_given set_mode mode (if_given set_size size d))).

Fixpoint UnsetSize (d : disk) : disk := set_size 0 (set_children (UnsetSize <$> d_children d) d).

(** ** Dynamic parameters *)

Definition DDP_LOCAL_IP : str := lit "local-ip".
Definition DDP_REMOTE_IP : str := lit "remote-ip".
Definition DDP_LOCAL_MINOR : str := lit "local-minor".
Definition DDP_REMOTE_MINOR : str := lit "remote-minor".

Definition drbd_dynamic (l : logical_id) (target_node_uuid : str) (nodes_ip : dict str) : exc pdict :=
  match l with
  | LPair _ _ => Raise Value_error
  | LDrbd pnode snode _ pminor sminor _ =>
      if decide (target_node_uuid ∈ [pnode; snode]) then
        match dget pnode nodes_ip, dget snode nodes_ip with
        | Some pip, Some sip =>
            Ok (if decide (pnode = target_node_uuid)
                then [(DDP_LOCAL_IP, OStr pip); (DDP_REMOTE_IP, OStr sip);
                      (DDP_LOCAL_MINOR, OInt pminor); (DDP_REMOTE_MINOR, OInt sminor)]
                else [(DDP_LOCAL_IP, OStr sip); (DDP_REMOTE_IP, OStr pip);
                      (DDP_LOCAL_MINOR, OInt sminor); (DDP_REMOTE_MINOR, OInt pminor)])
        | _, _ => Raise Configuration_error
        end
      else Ok []
  end.

Fixpoint UpdateDynamicDiskParams (d : disk) (target_node_uuid : str) (nodes_ip : dict str) : exc disk :=
  let* children := rmapM (λ c, UpdateDynamicDiskParams c target_node_uuid nodes_ip) (d_children d) in
  let d := set_children children d in
  let* dyn := if is_drbd d then drbd_dynamic (d_logical_id d) target_node_uuid nodes_ip else Ok [] in
  Ok (set_dynamic_params dyn d).

(** ** Checks and upgrades *)

Definition DISK_ACCESS_SET : list str := [lit "ro"; lit "rw"].

(** [Verify]: whether there is an error *)
Definition Disk_Verify (d : disk) : bool := bool_decide (d_mode d ∈ DISK_ACCESS_SET).

Definition LEG_DEV_TYPE_MAP : dict str := [(lit "lvm", DT_PLAIN); (lit "drbd8", DT_DRBD8)].

Fixpoint Disk_UpgradeConfig (d : disk) : disk :=
  let d := set_children (Disk_UpgradeConfig <$> d_children d) d in
  let d := match d_serial_no d with None => set_serial 1 d | Some _ => d end in
  match dget (d_dev_type d) LEG_DEV_TYPE_MAP with Some t => set_dev_type t d | None => d end.

(** ** Logical disk parameters *)

Definition LD_DRBD_KEYS : list (string * string) :=
  [("resync-rate", "resync-rate"); ("disabled-barriers", "disk-barriers");
   ("disable-meta-flush", "meta-barriers"); ("default-metavg", "metavg");
   ("disk-custom", "disk-custom"); ("net-custom", "net-custom"); ("protocol", "protocol");
   ("dynamic-resync", "dynamic-resync"); ("c-plan-ahead", "c-plan-ahead");
   ("c-fill-target", "c-fill-target"); ("c-delay-target", "c-delay-target");
   ("c-max-rate", "c-max-rate"); ("c-min-rate", "c-min-rate")]%string.

(** [dt_params[key]] *)
Definition get_key (d : pdict) (k : str) : exc obj :=
  match dget k d with Some v => Ok v | None => Raise (PyExn KeyError "") end.

Definition pick_keys (dt_params : pdict) (keys : list (str * str)) : exc pdict :=
  rmapM (λ '(ld, dt), rmap (λ v, (ld, v)) (get_key dt_params dt)) keys.

Definition ComputeLDParams (DISK_LD_DEFAULTS : dict pdict) (disk_template : str) (disk_params : dict pdict)
    : exc (list pdict) :=
  if negb (bool_decide (disk_template ∈ DISK_TEMPLATES)) then Raise (GntExn ProgrammerError [])
  else
    do* assert (dhas disk_template disk_params) in
    let dt_params := default [] (dget disk_template disk_params) in
    let ld t := match dget t DISK_LD_DEFAULTS with
                | Some d => Ok d
                | None => Raise (PyExn KeyError "")
                end in
    if decide (disk_template = DT_DRBD8) then
      let* drbd := ld DT_DRBD8 in
      let* drbd_values := pick_keys dt_params (prod_map lit lit <$> LD_DRBD_KEYS) in
      let* plain := ld DT_PLAIN in
      let* data := get_key dt_params (lit "data-stripes") in
      let* meta := get_key dt_params (lit "meta-stripes") in
      Ok [FillDict drbd drbd_values []; FillDict plain [(lit "stripes", data)] [];
          FillDict plain [(lit "stripes", meta)] []]
    else
      let* defaults := ld disk_template in
      let* values := pick_keys dt_params ((λ k, (k, k)) <$> dkeys defaults) in
      Ok [FillDict defaults values []].

(** ** Where the devices of a disk live, how it grows *)

(** Induction on the tree *)
Lemma disk_tree_ind (P : disk → Prop) :
  (∀ d, Forall P (d_children d) → P d) → ∀ d, P d.
Proof.
  intros H. fix IH 1. intros d. apply H. destruct d as [f n t l cs ? ? ? ? ? ? ? ? ?]; simpl.
  clear -IH. induction cs as [|c cs IHcs]; constructor; [apply IH|exact IHcs].
Qed.

(** The device [d'] of the tree [d] lives on node [m], when the parent of [d]
    lives on [n]. *)
Inductive lives : disk → str → disk → str → Prop :=
| lives_here d n my m : GetNodes d n = Ok my → m ∈ my → lives d n d m
| lives_below d n my k c d' m :
    GetNodes d n = Ok my → k ∈ my → c ∈ d_children d → lives c k d' m → lives d n d' m.

Lemma GetNodes_nonnil d n my : GetNodes d n = Ok my → my ≠ [].
Proof. unfold GetNodes. repeat case_decide; try destruct (is_drbd d); naive_solver. Qed.

Lemma ComputeNodeTree_unfold d n :
  ComputeNodeTree d n =
  let* my_nodes := GetNodes d n in
  let* below := rmapM (λ node,
    rmap mjoin (rmapM (λ child, rmap (uncovered my_nodes) (ComputeNodeTree child node)) (d_children d)))
    my_nodes in
  Ok (((λ node, (node, d)) <$> my_nodes) ++ mjoin below).
Proof. by destruct d. Qed.

(** The own entries come first. *)
Lemma ComputeNodeTree_own d n res :
  ComputeNodeTree d n = Ok res →
  ∃ my rest, GetNodes d n = Ok my ∧ res = ((λ node, (node, d)) <$> my) ++ rest.
Proof. rewrite ComputeNodeTree_unfold. intros H. inv_result. eauto. Qed.

(** What the children contribute *)
Lemma below_elem my (cs : list disk) below p :
  rmapM (λ node, rmap mjoin (rmapM (λ child, rmap (uncovered my) (ComputeNodeTree child node)) cs)) my
    = Ok below →
  p ∈ mjoin below ↔ ∃ k c res, k ∈ my ∧ c ∈ cs ∧ ComputeNodeTree c k = Ok res ∧ p ∈ uncovered my res.
Proof.
  intros Hb. rewrite list_elem_of_join. split.
  - intros (l & Hp & Hl). destruct (rmapM_elem_r _ _ _ _ Hb Hl) as (k & Hk & (ls & Hls & <-)%rmap_Ok).
    apply list_elem_of_join in Hp as (l & Hp & Hl').
    destruct (rmapM_elem_r _ _ _ _ Hls Hl') as (c & Hc & (res & Hres & <-)%rmap_Ok). eauto 10.
  - intros (k & c & res & Hk & Hc & Hres & Hp).
    destruct (rmapM_elem_l _ _ _ _ Hb Hk) as (l & Hl & (ls & Hls & <-)%rmap_Ok).
    destruct (rmapM_elem_l _ _ _ _ Hls Hc) as (l' & Hl' & (res' & Hres' & <-)%rmap_Ok).
    rewrite Hres in Hres'. injection Hres' as <-.
    eexists. split; [|exact Hl]. apply list_elem_of_join. by exists (uncovered my res).
Qed.

Lemma below_children my (cs : list disk) below k c :
  rmapM (λ node, rmap mjoin (rmapM (λ child, rmap (uncovered my) (ComputeNodeTree child node)) cs)) my
    = Ok below →
  k ∈ my → c ∈ cs → ∃ res, ComputeNodeTree c k = Ok res.
Proof.
  intros Hb Hk Hc. destruct (rmapM_elem_l _ _ _ _ Hb Hk) as (l & _ & (ls & Hls & _)%rmap_Ok).
  destruct (rmapM_elem_l _ _ _ _ Hls Hc) as (l' & _ & (res' & Hres' & _)%rmap_Ok). eauto.
Qed.

(** An entry of a child's tree is on one of the parent's nodes, or is kept. *)
Lemma uncovered_elem my c k res p :
  ComputeNodeTree c k = Ok res → k ∈ my → p ∈ res → p.1 ∈ my ∨ p ∈ uncovered my res.
Proof.
  intros Hres Hk Hp. unfold uncovered. case_decide as E.
  - left. apply ComputeNodeTree_own in Hres as (my' & rest & Hmy & ->).
    pose proof (GetNodes_nonnil _ _ _ Hmy). destruct my' as [|m my']; [done|].
    rewrite length_app, length_fmap in E. simpl in E. destruct my', rest; simpl in E; try lia.
    apply list_elem_of_singleton in Hp as ->. simpl.
    unfold GetNodes in Hmy. repeat case_decide; try destruct (is_drbd c); try done; by simplify_eq.
  - destruct (decide (p.1 ∈ my)); [by left|right].
    apply list_elem_of_In, filter_In. split; [by apply list_elem_of_In|].
    by rewrite bool_decide_false.
Qed.

Lemma ComputeNodeTree_sound d n res m d' :
  ComputeNodeTree d n = Ok res → (m, d') ∈ res → lives d n d' m.
Proof.
  revert n res m d'. induction d as [d IH] using disk_tree_ind. intros n res m d'.
  rewrite ComputeNodeTree_unfold. intros (my & Hmy & (below & Hb & [= <-])%rbind_Ok)%rbind_Ok.
  rewrite elem_of_app. intros [(k & [= <- <-] & Hk)%list_elem_of_fmap|Hp]; [by eapply lives_here|].
  apply (below_elem my _ _ _ Hb) in Hp as (k & c & r & Hk & Hc & Hr & Hp).
  eapply lives_below; [done..|]. rewrite Forall_forall in IH. eapply IH; [done|exact Hr|].
  unfold uncovered in Hp. case_decide; [by apply not_elem_of_nil in Hp|].
  apply list_elem_of_In, filter_In in Hp as [Hp _]. by apply list_elem_of_In.
Qed.

Lemma ComputeNodeTree_complete d n res d' m :
  ComputeNodeTree d n = Ok res → lives d n d' m → m ∈ res.*1.
Proof.
  intros Hres Hl. revert res Hres. induction Hl as [d n my m Hmy Hm|d n my k c d' m Hmy Hk Hc Hl IH];
    intros res; rewrite ComputeNodeTree_unfold, Hmy; cbn [rbind];
    intros (below & Hb & [= <-])%rbind_Ok; rewrite fmap_app, elem_of_app.
  - left. apply list_elem_of_fmap. exists (m, d). split; [done|]. apply list_elem_of_fmap. eauto.
  - destruct (below_children my _ _ k c Hb Hk Hc) as [r Hr].
    specialize (IH _ Hr). apply list_elem_of_fmap in IH as ([m' d''] & -> & Hp).
    destruct (uncovered_elem my c k r _ Hr Hk Hp) as [Hm|Hm]; simpl in *.
    + left. apply list_elem_of_fmap. exists (m', d). split; [done|]. apply list_elem_of_fmap. eauto.
    + right. apply list_elem_of_fmap. exists (m', d''). split; [done|].
      apply (below_elem my _ _ _ Hb). eauto 10.
Qed.

(** The node tree of a disk.  Its nodes are exactly those on which the disk
    or one of its devices lives, each entry is a device that lives there, and
    the disk itself is listed for each of its own nodes, first. *)
Theorem ComputeNodeTree_correct (d : disk) (n : str) (res : list (str * disk)) :
  ComputeNodeTree d n = Ok res →
  (∀ m, m ∈ res.*1 ↔ ∃ d', lives d n d' m) ∧
  (∀ m d', (m, d') ∈ res → lives d n d' m) ∧
  ∃ my rest, GetNodes d n = Ok my ∧ res = ((λ node, (node, d)) <$> my) ++ rest.
Proof.
  intros Hres. split_and!.
  - intros m. split.
    + intros ([m' d'] & -> & Hp)%list_elem_of_fmap. exists d'. by eapply ComputeNodeTree_sound.
    + intros [d' Hl]. by eapply ComputeNodeTree_complete.
  - intros m d' Hp. by eapply ComputeNodeTree_sound.
  - by apply ComputeNodeTree_own.
Qed.

(** ** Growth *)

(** The space that the volumes of a disk take in a volume group *)
Fixpoint vg_space (vg : str) (d : disk) : Z :=
  (if decide (d_dev_type d = DT_PLAIN ∧ lid_first (d_logical_id d) = vg) then d_size d else 0) +
  foldr Z.add 0%Z (vg_space vg <$> d_children d).

Lemma vg_space_unfold vg d :
  vg_space vg d =
  ((if decide (d_dev_type d = DT_PLAIN ∧ lid_first (d_logical_id d) = vg) then d_size d else 0) +
   foldr Z.add 0 (vg_space vg <$> d_children d))%Z.
Proof. by destruct d. Qed.

Lemma drbd_not_growable : DT_DRBD8 ∉ GROWABLE.
Proof. apply (bool_decide_eq_false_1 (DT_DRBD8 ∈ GROWABLE)). reflexivity. Qed.

(** Growth.  When a disk may grow, the space that [ComputeGrowth] announces
    for each volume group is what [RecordGrow] adds to the volumes there, the
    disk is larger by the amount asked for, and its type, its logical id and
    the number of its children stay. *)
Theorem RecordGrow_correct (d d' : disk) (amount : Z) (vg : str) :
  RecordGrow d amount = Ok d' →
  vg_space vg d' = (vg_space vg d + default 0 (dget vg (ComputeGrowth d amount)))%Z ∧
  d_size d' = (d_size d + amount)%Z ∧ d_dev_type d' = d_dev_type d ∧
  d_logical_id d' = d_logical_id d ∧ length (d_children d') = length (d_children d).
Proof.
  revert d'. induction d as [d IH] using disk_tree_ind. intros d' H.
  rewrite (vg_space_unfold vg d'), (vg_space_unfold vg d).
  destruct d as [f nm t l cs ns iv sz mo pa sp se dy uu]; simpl in *.
  destruct (decide (t ∈ GROWABLE)) as [Hg|Hg].
  { injection H as <-. simpl. split_and!; try done.
    destruct (decide (t = DT_PLAIN)) as [->|Ht]; simpl.
    - repeat case_decide; simplify_eq; simpl; try naive_solver; lia.
    - rewrite (decide_False (P := t = DT_DRBD8)) by (intros ->; by apply drbd_not_growable in Hg).
      rewrite !decide_False by naive_solver. simpl. lia. }
  destruct (decide (t = DT_DRBD8)) as [->|Ht]; [|done].
  rewrite (decide_False (P := DT_DRBD8 = DT_PLAIN)) by done.
  destruct cs as [|c cs].
  - injection H as <-. simpl. split_and!; try done; lia.
  - apply rbind_Ok in H as (c' & Hc & [= <-]). simpl.
    apply Forall_cons in IH as [IH _]. destruct (IH _ Hc) as [E _].
    rewrite E. split_and!; try done; lia.
Qed.

Module DiskDemo.

Definition lv (name : string) (size : Z) : disk :=
  Disk false None DT_PLAIN (LPair (lit "xenvg") (lit name)) [] [] None size [] [] None None [] None.
Definition drbd : disk :=
  Disk false None DT_DRBD8 (LDrbd (lit "n1") (lit "n3") 11000 0 0 (lit "secret"))
    [lv "data" 1024; lv "meta" 128] [] None 1024 [] [] None None [] None.

Lemma ComputeNodeTree_correct_witness :
  ComputeNodeTree drbd (lit "n1") = Ok [(lit "n1", drbd); (lit "n3", drbd)] ∧
  ∃ d', lives drbd (lit "n1") d' (lit "n3").
Proof.
  assert (ComputeNodeTree drbd (lit "n1") = Ok [(lit "n1", drbd); (lit "n3", drbd)]) as E by reflexivity.
  split; [done|]. destruct (ComputeNodeTree_correct _ _ _ E) as [H _]. apply H. right. left.
Defined.

Lemma RecordGrow_correct_witness :
  ∃ d', RecordGrow drbd 512 = Ok d' ∧ vg_space (lit "xenvg") d' = (vg_space (lit "xenvg") drbd + 512)%Z ∧
    d_size d' = 1536%Z.
Proof.
  eexists. split; [reflexivity|].
  destruct (RecordGrow_correct drbd _ 512 (lit "xenvg") eq_refl) as (E & Es & _).
  split; [|exact Es]. rewrite E. reflexivity.
Defined.
End DiskDemo.
