(* ===== verification/Mcpu.v ===== *)
(** * Lock attempt time-outs (src/lib/mcpu.py)

    [_CalculateLockAttemptTimeouts] and [LockAttemptTimeoutStrategy], with the
    floating point numbers taken as exact rationals; the power function used
    for the growth of the time-outs is a parameter.  Shown: the calculation
    ends, every attempt stays between the two limits, together they wait long
    enough, and the random variation stays within five percent. *)

From Stdlib Require Export QArith Qround Lqa.
From S2P Require Import Prelude Errors.
#[local] Open Scope Q_scope.

(** Seconds. *)
Definition LOCK_ATTEMPTS_MINWAIT : Q := 5.
Definition LOCK_ATTEMPTS_MAXWAIT : Q := 75.
(** [(10 * 3600) div (OP_PRIO_DEFAULT - OP_PRIO_HIGHEST)] *)
Definition LOCK_ATTEMPTS_TIMEOUT : Q := 1800.

Definition qmin (a b : Q) : Q := if Qle_bool b a then b else a.
Definition qmax (a b : Q) : Q := if Qle_bool a b then b else a.

Section timeouts.
  (** [lambda t: (t * 1.05) ** 1.25] *)
  Context (grow : Q → Q).

(** The loop of [_CalculateLockAttemptTimeouts]: the time-outs still to be
    appended after one of [prev], with [running_sum] so far. *)
Fixpoint more_timeouts (fuel : nat) (prev running_sum : Q) : option (list Q) :=
  if Qle_bool LOCK_ATTEMPTS_TIMEOUT running_sum then Some []
  else match fuel with
  | O => None
  | S fuel =>
      let timeout := grow prev in
      let timeout := qmin timeout LOCK_ATTEMPTS_MAXWAIT in
      let timeout := qmax timeout LOCK_ATTEMPTS_MINWAIT in
      cons timeout <$> more_timeouts fuel timeout (running_sum + timeout)
  end.

(** Every round adds at least the minimum, so 359 rounds are enough. *)
Definition CalculateLockAttemptTimeouts : option (list Q) :=
  cons LOCK_ATTEMPTS_MINWAIT
    <$> more_timeouts 359 LOCK_ATTEMPTS_MINWAIT LOCK_ATTEMPTS_MINWAIT.

Definition qsum (xs : list Q) : Q := foldr Qplus 0 xs.

Lemma clamp_range t :
  LOCK_ATTEMPTS_MINWAIT <= qmax (qmin t LOCK_ATTEMPTS_MAXWAIT) LOCK_ATTEMPTS_MINWAIT
  <= LOCK_ATTEMPTS_MAXWAIT.
Proof.
  unfold qmin, qmax. destruct (Qle_bool _ t) eqn:H1.
  - vm_compute. split; discriminate.
  - destruct (Qle_bool t _) eqn:H2; [vm_compute; split; discriminate|].
    assert (¬ LOCK_ATTEMPTS_MAXWAIT <= t) by (rewrite <-Qle_bool_iff; congruence).
    assert (¬ t <= LOCK_ATTEMPTS_MINWAIT) by (rewrite <-Qle_bool_iff; congruence).
    lra.
Qed.

Lemma more_timeouts_ok fuel prev s :
  LOCK_ATTEMPTS_TIMEOUT <= s + inject_Z (Z.of_nat fuel) * LOCK_ATTEMPTS_MINWAIT →
  ∃ ts, more_timeouts fuel prev s = Some ts ∧
    Forall (λ t, LOCK_ATTEMPTS_MINWAIT <= t <= LOCK_ATTEMPTS_MAXWAIT) ts ∧
    LOCK_ATTEMPTS_TIMEOUT <= s + qsum ts.
Proof.
  revert prev s. induction fuel as [|fuel IH]; intros prev s Hf; simpl;
    (destruct (Qle_bool _ s) eqn:Hs;
     [apply Qle_bool_iff in Hs; exists []; split_and!; [done..|unfold qsum; simpl; lra]|]).
  - assert (¬ LOCK_ATTEMPTS_TIMEOUT <= s) by (rewrite <-Qle_bool_iff; congruence).
    assert (inject_Z (Z.of_nat 0) == 0) as E by reflexivity. rewrite E in Hf. lra.
  - set (t := qmax _ _). pose proof (clamp_range (grow prev)) as Ht. fold t in Ht.
    assert (inject_Z (Z.of_nat (S fuel)) == inject_Z (Z.of_nat fuel) + 1) as E.
    { rewrite Nat2Z.inj_succ, <-Z.add_1_r, inject_Z_plus. reflexivity. }
    rewrite E in Hf. destruct (IH t (s + t)) as (ts & -> & Hall & Hsum); [lra|].
    exists (t :: ts). split_and!; [done|by constructor|]. unfold qsum in *. simpl. lra.
Qed.

(** The calculation of the lock attempt time-outs ends, for any growth
    function; every time-out lies between the minimum and the maximum, and
    their sum reaches the time that must pass before a blocking acquire. *)
Theorem CalculateLockAttemptTimeouts_ok :
  ∃ ts, CalculateLockAttemptTimeouts = Some ts ∧ ts ≠ [] ∧
    Forall (λ t, LOCK_ATTEMPTS_MINWAIT <= t <= LOCK_ATTEMPTS_MAXWAIT) ts ∧
    LOCK_ATTEMPTS_TIMEOUT <= qsum ts.
Proof.
  unfold CalculateLockAttemptTimeouts.
  destruct (more_timeouts_ok 359 LOCK_ATTEMPTS_MINWAIT LOCK_ATTEMPTS_MINWAIT)
    as (ts & -> & Hall & Hsum); [vm_compute; discriminate|].
  exists (LOCK_ATTEMPTS_MINWAIT :: ts). split_and!; [done..| |exact Hsum].
  constructor; [|done]. vm_compute. split; discriminate.
Qed.
End timeouts.

(** [LockAttemptTimeoutStrategy]: the time-outs its iterator has left. *)
Notation strategy := (list Q).

(** [NextAttempt]; [rand] is [_random_fn()]. *)
Definition NextAttempt (rand : Q) (s : strategy) : strategy * option Q :=
  match s with
  | [] => ([], None)
  | timeout :: s =>
      let variation_range := timeout * (1 # 10) in
      (s, Some (timeout + ((rand * variation_range) - (variation_range * (1 # 2)))))
  end.

(** An attempt uses up one time-out and varies it by at most five percent
    either way; with none left the attempt is a blocking one. *)
Theorem NextAttempt_variation rand timeout s :
  0 <= rand < 1 → 0 <= timeout →
  ∃ t, NextAttempt rand (timeout :: s) = (s, Some t) ∧
       timeout * (95 # 100) <= t <= timeout * (105 # 100).
Proof.
  intros Hr Ht. eexists. split; [done|].
  assert (0 <= rand * timeout <= timeout) by nra. lra.
Qed.

Lemma NextAttempt_variation_witness :
  ∃ t, NextAttempt (1 # 2) [5; 7] = ([7], Some t) ∧ 5 * (95 # 100) <= t <= 5 * (105 # 100).
Proof.
  apply (NextAttempt_variation (1 # 2) 5 [7]); [split|]; vm_compute; congruence.
Defined.
