(* ===== verification/Retry.v ===== *)
(** * Retrying function calls (src/lib/utils/retry.py)

    [Retry] and its wrappers.  The function that is retried, the waiting
    function and the clock act on a world that is passed along; times are exact
    rationals.  A run that is still in the loop after [fuel] calls gives
    [None]. *)

From Stdlib Require Import QArith Lqa.
From S2P Require Import Prelude Errors Mcpu.
#[local] Open Scope Q_scope.
#[local] Open Scope stdpp_scope.

(** How a call of the retried function ends: with a value, with [RetryAgain],
    with a [RetryTimeout] of a nested loop, or with another exception. *)
Inductive call (V : Type) :=
| CReturn (v : V)
| CAgain (args : list pyval)
| CTimeout
| CRaise (e : exn).
Arguments CReturn {V} v.
Arguments CAgain {V} args.
Arguments CTimeout {V}.
Arguments CRaise {V} e.

(** How [Retry] ends; [RetryTimeout] keeps the arguments of the last
    [RetryAgain]. *)
Inductive retry_result (V : Type) :=
| RReturn (v : V)
| RTimeout (args : list pyval)
| RRaise (e : exn).
Arguments RReturn {V} v.
Arguments RTimeout {V} args.
Arguments RRaise {V} e.

(** ** Increasing delays *)

(** [_RetryDelayCalculator] *)
Record calculator := Calculator {
  k_factor : Q;
  k_limit : option Q;
  k_next : Q
}.

Definition new_calculator (start factor : Q) (limit : option Q) : exc calculator :=
  do* assert (negb (Qle_bool start 0)) in
  do* assert (Qle_bool 1 factor) in
  do* assert (match limit with Some l => Qle_bool 0 l | None => true end) in
  Ok (Calculator factor limit start).

(** [__call__]; [min(None, x)] raises. *)
Definition calc_next (c : calculator) : exc (Q * calculator) :=
  let current := k_next c in
  match k_limit c with
  | None => Raise (PyExn TypeError "'<' not supported between instances of 'float' and 'NoneType'")
  | Some l =>
      if Qle_bool l (k_next c) then Ok (current, c)
      else Ok (current, Calculator (k_factor c) (k_limit c) (qmin l (k_next c * k_factor c)))
  end.

Section retry.
  Context {W V : Type} (time : W → Q) (wait : Q → W → W).

(** The argument [delay]. *)
Inductive delay :=
| DCall (f : W → Q * W)
| DTuple (start factor : Q) (limit : option Q)
| DRemaining
| DNumber (d : Q).

(** The local variable [calc_delay]. *)
Inductive calc :=
| KCall (f : W → Q * W)
| KCalc (c : calculator)
| KRemaining
| KNumber (d : Q).

Definition make_calc (d : delay) : exc calc :=
  match d with
  | DCall f => Ok (KCall f)
  | DTuple start factor limit => rmap KCalc (new_calculator start factor limit)
  | DRemaining => Ok KRemaining
  | DNumber d => Ok (KNumber d)
  end.

(** [calc_delay()] *)
Definition run_calc (k : calc) (remaining : Q) (w : W) : exc (Q * calc * W) :=
  match k with
  | KCall f => let '(d, w) := f w in Ok (d, k, w)
  | KCalc c => rmap (λ r, (r.1, KCalc r.2, w)) (calc_next c)
  | KRemaining => Ok (remaining, k, w)
  | KNumber d => Ok (d, k, w)
  end.

Section loop.
  Context (fn : W → call V * W).

Fixpoint retry_loop (fuel : nat) (end_time : Q) (k : calc) (w : W)
    : option (retry_result V * W) :=
  match fuel with
  | O => None
  | S fuel =>
      match fn w with
      | (CReturn v, w) => Some (RReturn v, w)
      | (CTimeout, w) => Some (RRaise (GntExn ProgrammerError [VStr "Nested retry loop detected"]), w)
      | (CRaise e, w) => Some (RRaise e, w)
      | (CAgain args, w) =>
          let remaining_time := end_time - time w in
          if Qle_bool remaining_time 0 then Some (RTimeout args, w)
          else
            match run_calc k remaining_time w with
            | Raise e => Some (RRaise e, w)
            | Ok (current_delay, k, w) =>
                retry_loop fuel end_time k
                  (if Qle_bool current_delay 0 then w else wait current_delay w)
            end
      end
  end.

Definition Retry (fuel : nat) (d : delay) (timeout : Q) (w : W)
    : option (retry_result V * W) :=
  let end_time := time w + timeout in
  match make_calc d with
  | Raise e => Some (RRaise e, w)
  | Ok k => retry_loop fuel end_time k w
  end.
End loop.
End retry.

(** ** The wrappers *)

Section wrappers.
  Context {W V : Type} (time : W → Q) (wait : Q → W → W).
  Context (expected : V → bool) (fn : W → call V * W).

(** [helper]: keeps the last result. *)
Definition helper (s : W * option V) : call V * (W * option V) :=
  match fn s.1 with
  | (CReturn v, w) => (if expected v then CReturn v else CAgain [], (w, Some v))
  | (r, w) => (r, (w, s.2))
  end.

Definition SimpleRetry (fuel : nat) (d : delay (W := W * option V)) (timeout : Q) (w : W)
    : option (retry_result V * W) :=
  match Retry (λ s, time s.1) (λ d s, (wait d s.1, s.2)) helper fuel d timeout (w, None) with
  | Some (RTimeout _, (w, Some v)) => Some (RReturn v, w)
  | Some (RTimeout _, (w, None)) => Some (RRaise AssertionFailed, w)
  | Some (r, (w, _)) => Some (r, w)
  | None => None
  end.
End wrappers.

(** [CountRetry]: the clock counts the tries. *)
Definition CountRetry {W V} (expected : V → bool) (fn : W → call V * W) (fuel : nat)
    (count : Q) (w : W) : option (retry_result V * W) :=
  match SimpleRetry (W := W * Q) snd (λ t s, (s.1, s.2 + t)) expected
          (λ s, let '(r, w) := fn s.1 in (r, (w, s.2))) fuel (DNumber 1) count (w, 0) with
  | Some (r, (w, _)) => Some (r, w)
  | None => None
  end.

(** The loop of [RetryByNumberOfTimes]; [None] of [last] is no exception so
    far.  [make] builds the final exception from the last one. *)
Fixpoint retry_times {W} (n : nat) (fn : W → exc unit * W) (last : option exn) (w : W)
    : (exc unit + option exn) * W :=
  match n with
  | O => (inr last, w)
  | S n =>
      match fn w with
      | (Ok _, w) => (inl (Ok tt), w)
      | (Raise (GntExn c args), w) =>
          if issubclass c OpExecError then retry_times n fn (Some (GntExn c args)) w
          else (inl (Raise (GntExn c args)), w)
      | (Raise e, w) => (inl (Raise e), w)
      end
  end.

Definition RetryByNumberOfTimes {W} (max_retries : nat) (exception_class : exn → exn)
    (fn : W → exc unit * W) (w : W) : exc unit * W :=
  match retry_times max_retries fn None w with
  | (inl r, w) => (r, w)
  | (inr (Some e), w) => (Raise (exception_class e), w)
  | (inr None, w) => (Ok tt, w)
  end.

(** ** Termination of [Retry] *)

Section termination.
  Context {W V : Type} (time : W → Q) (wait : Q → W → W) (fn : W → call V * W).
  Context (fn_clock : ∀ w, time w <= time (fn w).2).
  Context (wait_clock : ∀ d w, 0 < d → time w + d <= time (wait d w)).

(** Delays of at least [d]. *)
Definition delay_ge (d : Q) (k : calc (W := W)) : Prop :=
  match k with
  | KCall f => ∀ w, d <= (f w).1 ∧ time w <= time (f w).2
  | KCalc c => d <= k_next c ∧ 1 <= k_factor c ∧ is_Some (k_limit c)
  | KRemaining => True
  | KNumber x => d <= x
  end.

(** One delay lasts at least [d], or what remains. *)
Lemma run_calc_ge d k r w :
  0 < d → 0 < r → delay_ge d k →
  ∃ x k' w', run_calc k r w = Ok (x, k', w') ∧ delay_ge d k' ∧ (d <= x ∨ r <= x) ∧
             time w <= time w'.
Proof.
  intros Hd Hr Hk. destruct k as [f|c| |x]; simpl.
  - pose proof (Hk w) as [Hx Hw]. destruct (f w) as [x w']. simpl in *.
    exists x, (KCall f), w'. split; [done|]. split; [done|]. split; [by left|done].
  - destruct Hk as (Hn & Hf & [l Hl]). unfold calc_next. rewrite Hl.
    destruct (Qle_bool l (k_next c)) eqn:Hle; simpl.
    + eexists _, _, w. split; [done|]. split; [done|]. split; [by left|apply Qle_refl].
    + eexists _, _, w. split; [done|]. split; [|split; [by left|apply Qle_refl]].
      assert (k_next c < l) as Hlt.
      { apply Qnot_le_lt. intros Hle'. apply Qle_bool_iff in Hle'. congruence. }
      simpl. split; [|split; [done|by eexists]]. unfold qmin. destruct (Qle_bool _ l); [nra|lra].
  - exists r, KRemaining, w. split; [done|]. split; [done|]. split; [right|]; apply Qle_refl.
  - exists x, (KNumber x), w. split; [done|]. split; [done|]. split; [by left|apply Qle_refl].
Qed.

Lemma retry_loop_ends d n end_time k w :
  0 < d → delay_ge d k → end_time - time w <= inject_Z (Z.of_nat n) * d →
  ∃ r w', retry_loop time wait fn (S n) end_time k w = Some (r, w').
Proof.
  intros Hd. revert k w. induction n as [|n IH]; intros k w Hk Hn;
    cbn [retry_loop]; pose proof (fn_clock w) as Hfn; destruct (fn w) as [[v|args| |e] w1];
    simpl in Hfn; try (by eexists _, _).
  - assert (Qle_bool (end_time - time w1) 0 = true) as ->; [|by eexists _, _].
    apply Qle_bool_iff. change (inject_Z (Z.of_nat 0)) with 0 in Hn. lra.
  - destruct (Qle_bool (end_time - time w1) 0) eqn:Hr; [by eexists _, _|].
    assert (0 < end_time - time w1) as Hr'.
    { apply Qnot_le_lt. intros Hle. apply Qle_bool_iff in Hle. congruence. }
    destruct (run_calc_ge d k (end_time - time w1) w1 Hd Hr' Hk)
      as (x & k' & w2 & -> & Hk' & Hx & Hw2).
    assert (0 < x) as Hx0 by (destruct Hx; lra).
    assert (Qle_bool x 0 = false) as ->.
    { apply not_true_is_false. rewrite Qle_bool_iff. lra. }
    apply IH; [done|]. pose proof (wait_clock x w2 Hx0).
    assert (inject_Z (Z.of_nat (S n)) == inject_Z (Z.of_nat n) + 1) as E.
    { rewrite Nat2Z.inj_succ. unfold Z.succ. by rewrite inject_Z_plus. }
    rewrite E in Hn. assert (0 <= inject_Z (Z.of_nat n)) as Hn0.
    { change 0 with (inject_Z 0). rewrite <-Zle_Qle. lia. }
    destruct Hx; nra.
Qed.
End termination.

(** The delay given by the caller is at least [d]. *)
Definition delay_arg_ge {W} (time : W → Q) (d : Q) (a : delay (W := W)) : Prop :=
  match a with
  | DCall f => ∀ w, d <= (f w).1 ∧ time w <= time (f w).2
  | DTuple start factor limit => d <= start ∧ 1 <= factor ∧ ∃ l, limit = Some l ∧ 0 <= l
  | DRemaining => True
  | DNumber x => d <= x
  end.

(** Termination.  With a clock that does not go back while the function runs
    and advances by what is waited, and delays of at least [d], [Retry] calls
    its function at most [n + 1] times, where [n * d] covers the timeout. *)
Theorem Retry_terminates {W V} (time : W → Q) (wait : Q → W → W) (fn : W → call V * W)
    (d timeout : Q) (n : nat) (a : delay) (w : W) :
  (∀ w, time w <= time (fn w).2) → (∀ d w, 0 < d → time w + d <= time (wait d w)) →
  0 < d → delay_arg_ge time d a → timeout <= inject_Z (Z.of_nat n) * d →
  ∃ r w', Retry time wait fn (S n) a timeout w = Some (r, w').
Proof.
  intros Hfn Hwait Hd Ha Hn. unfold Retry.
  assert (∃ k, make_calc a = Ok k ∧ delay_ge time d k) as (k & -> & Hk).
  { destruct a as [f|start factor limit| |x]; simpl in *; try (by eexists).
    destruct Ha as (Hs & Hf & l & -> & Hl). unfold new_calculator.
    assert (Qle_bool start 0 = false) as ->
      by (apply not_true_is_false; rewrite Qle_bool_iff; lra).
    rewrite (proj2 (Qle_bool_iff 1 factor)) by done.
    rewrite (proj2 (Qle_bool_iff 0 l)) by done. simpl. eexists. split; [done|]. simpl. eauto. }
  apply (retry_loop_ends _ _ _ Hfn Hwait d); [done..|]. lra.
Qed.

(** ** Counting *)

Section count.
  Context {W V : Type} (expected : V → bool) (val : W → V) (next : W → W).

(** The function always returns. *)
Definition plain_fn (w : W) : call V * W := (CReturn (val w), next w).

(** How many calls fail the test first, if the last of [n] extra calls is taken
    whatever it returns. *)
Fixpoint failures (n : nat) (w : W) : nat :=
  if expected (val w) then 0%nat
  else match n with O => 0%nat | S n => S (failures n (next w)) end.

Lemma count_loop n (t count : Q) w last :
  count - t == inject_Z (Z.of_nat n) →
  ∃ r t', retry_loop (λ s : (W * Q) * option V, s.1.2) (λ d s, ((s.1.1, s.1.2 + d), s.2))
      (helper expected (λ s : W * Q, (CReturn (val s.1), (next s.1, s.2))))
      (S n) count (KNumber 1) ((w, t), last)
    = Some (r, ((Nat.iter (S (failures n w)) next w, t'),
                Some (val (Nat.iter (failures n w) next w)))) ∧
    (r = RReturn (val (Nat.iter (failures n w) next w)) ∨ r = RTimeout []).
Proof.
  revert t w last. induction n as [|n IH]; intros t w last Hn;
    cbn [retry_loop failures]; unfold helper at 1; simpl; destruct (expected (val w)).
  - eexists _, t. split; [done|by left].
  - assert (Qle_bool (count - t) 0 = true) as ->.
    { apply Qle_bool_iff. change (inject_Z (Z.of_nat 0)) with 0 in Hn. lra. }
    eexists _, t. split; [done|by right].
  - eexists _, t. split; [done|by left].
  - assert (Qle_bool (count - t) 0 = false) as ->.
    { apply not_true_is_false. rewrite Qle_bool_iff, Hn. change 0 with (inject_Z 0).
      rewrite <-Zle_Qle. lia. }
    destruct (IH (t + 1) (next w) (Some (val w))) as (r & t' & E & Hr).
    { rewrite Nat2Z.inj_succ in Hn. unfold Z.succ in Hn. rewrite inject_Z_plus in Hn.
      change (inject_Z 1) with 1 in Hn. lra. }
    exists r, t'. rewrite !Nat.iter_succ_r. split; [|done]. exact E.
Qed.

(** With a function that returns, [CountRetry] makes [count + 1] calls at
    most: it stops at the first result that passes the test, or else returns
    the result of the last of these calls. *)
Theorem CountRetry_calls (n : nat) (w : W) :
  CountRetry expected plain_fn (S n) (inject_Z (Z.of_nat n)) w
  = Some (RReturn (val (Nat.iter (failures n w) next w)),
          Nat.iter (S (failures n w)) next w) ∧
  (failures n w ≤ n)%nat.
Proof.
  split.
  - unfold CountRetry, SimpleRetry, Retry. cbn [make_calc snd].
    destruct (count_loop n 0 (0 + inject_Z (Z.of_nat n)) w None) as (r & t' & E & Hr); [lra|].
    simpl in E |- *. unfold plain_fn. simpl. rewrite E. by destruct Hr as [->| ->].
  - revert w. induction n as [|n IH]; intros w; simpl; destruct (expected (val w)); try lia.
    specialize (IH (next w)). lia.
Qed.
End count.

(** A function that never passes the test is called once more than [count]
    says. *)
Lemma CountRetry_one_more :
  CountRetry (λ _ : nat, false) (plain_fn (λ w, w) S) 10 3 0%nat = Some (RReturn 3%nat, 4%nat).
Proof. by vm_compute. Qed.

(** A delay without a limit, which the documentation allows, raises. *)
Lemma unlimited_delay_raises (c : calculator) :
  k_limit c = None → ∃ msg, calc_next c = Raise (PyExn TypeError msg).
Proof. intros E. unfold calc_next. rewrite E. eauto. Qed.

Lemma Retry_terminates_witness :
  ∃ r w', Retry (W := Q) (V := unit) (λ w, w) (λ d w, w + d)
    (λ w, (CAgain [], w)) 11 (DTuple 1 (3 # 2) (Some 5)) 10 0 = Some (r, w').
Proof.
  apply (Retry_terminates (W := Q) (λ w, w) (λ d w, w + d) (λ w, (CAgain [], w)) 1 10 10).
  - intros w. apply Qle_refl.
  - intros d w _. apply Qle_refl.
  - reflexivity.
  - simpl. split; [apply Qle_refl|]. split; [by vm_compute|]. exists 5. split; [done|by vm_compute].
  - by vm_compute.
Defined.

(** ** What the retried function has seen *)

Section simple_retry_spec.
  Context {W V : Type} (time : W → Q) (wait : Q → W → W) (expected : V → bool)
    (fn : W → call V * W) (R : W → W → Prop).
  Context `{!PreOrder R} (fn_R : ∀ w, R w (fn w).2) (wait_R : ∀ d w, R w (wait d w)).

(** [w'] comes right after a call that gave an expected result. *)
Definition just_returned (w : W) (v : V) (w' : W) : Prop :=
  expected v = true ∧ ∃ w0, R w w0 ∧ fn w0 = (CReturn v, w').

Lemma retry_loop_simple fuel end_time d : ∀ w last r w' last',
  (∀ v, last = Some v → expected v = false) →
  retry_loop (λ s : W * option V, time s.1) (λ d s, (wait d s.1, s.2)) (helper expected fn)
    fuel end_time (KNumber d) (w, last) = Some (r, (w', last')) →
  R w w' ∧
  match r with
  | RReturn v => just_returned w v w'
  | RTimeout _ => ∀ v, last' = Some v → expected v = false
  | RRaise _ => True
  end.
Proof.
  induction fuel as [|fuel IH]; intros w last r w' last' Hlast; [done|]. cbn [retry_loop].
  unfold helper at 1. cbn [fst snd]. pose proof (fn_R w) as Hfn.
  assert (∀ w1 last1, R w w1 → (∀ v, last1 = Some v → expected v = false) → ∀ args,
    (if Qle_bool (end_time - time w1) 0 then Some (RTimeout args, (w1, last1))
     else match run_calc (W := W * option V) (KNumber d) (end_time - time w1) (w1, last1) with
          | Raise e => Some (RRaise e, (w1, last1))
          | Ok (x, k, s) =>
              retry_loop (λ s : W * option V, time s.1) (λ d s, (wait d s.1, s.2))
                (helper expected fn) fuel end_time k
                (if Qle_bool x 0 then s else (wait x s.1, s.2))
          end) = Some (r, (w', last')) →
    R w w' ∧ match r with
      | RReturn v => just_returned w v w'
      | RTimeout _ => ∀ v, last' = Some v → expected v = false
      | RRaise _ => True end) as Hagain.
  { intros w1 last1 Hw1 Hl1 args. destruct (Qle_bool (end_time - time w1) 0); [by intros [= <- <- <-]|].
    cbn [run_calc]. assert (∃ w2, R w w2 ∧
      (if Qle_bool d 0 then (w1, last1) else (wait d w1, last1)) = (w2, last1)) as (w2 & Hw2 & E2).
    { destruct (Qle_bool d 0); eexists; (split; [|done]); [done|]. etrans; [exact Hw1|apply wait_R]. }
    cbn [fst snd]. rewrite E2. intros (HR & Hr)%IH; [|done]. split; [by etrans|].
    destruct r; [|done..]. destruct Hr as (? & w0 & ? & ?). split; [done|]. exists w0.
    split; [by etrans|done]. }
  destruct (fn w) as [[v|args| |x] w1] eqn:Ef; simpl in Hfn.
  - destruct (expected v) eqn:Ev.
    + intros [= <- <- <-]. split; [done|]. split; [done|]. exists w. done.
    + apply Hagain; [done|]. by intros ? [= <-].
  - by apply Hagain.
  - by intros [= <- <- <-].
  - by intros [= <- <- <-].
Qed.

Lemma SimpleRetry_spec fuel d timeout w r w' :
  SimpleRetry time wait expected fn fuel (DNumber d) timeout w = Some (r, w') →
  R w w' ∧ ∀ v, r = RReturn v → expected v = true → just_returned w v w'.
Proof.
  unfold SimpleRetry, Retry. cbn [make_calc].
  destruct (retry_loop _ _ _ _ _ _ _) as [[r1 [w1 last1]]|] eqn:E; [|done].
  apply retry_loop_simple in E as [HR Hr]; [|done].
  destruct r1 as [v|args|x]; [|destruct last1 as [v|]|]; intros [= <- <-];
    (split; [done|]); intros v' [= <-] Hv'; [done|]. by rewrite (Hr v eq_refl) in Hv'.
Qed.
End simple_retry_spec.

(** What every step keeps, the loop keeps. *)
Lemma retry_loop_keeps {W V} (time : W → Q) (wait : Q → W → W) (fn : W → call V * W)
    (P : W → Prop) fuel end_time d : ∀ w r w',
  (∀ w, P w → P (fn w).2) → (∀ d w, P w → P (wait d w)) →
  P w → retry_loop time wait fn fuel end_time (KNumber d) w = Some (r, w') → P w'.
Proof.
  induction fuel as [|fuel IH]; intros w r w' Hfn Hwait Hw; [done|]. cbn [retry_loop].
  pose proof (Hfn w Hw) as Hw1. destruct (fn w) as [[v|args| |e] w1]; simpl in Hw1.
  1, 3, 4: by intros [= <- <-].
  cbn [run_calc]. destruct (Qle_bool (end_time - time w1) 0); [by intros [= <- <-]|].
  apply IH; [done..|]. destruct (Qle_bool d 0); auto.
Qed.
