(* ===== verification/FileLock.v ===== *)
(** * File locks (src/lib/utils/filelock.py)

    The lock that [flock(2)] keeps on a file: the open files that hold it and
    how.  Waiting with a timeout goes through [Retry]. *)

From Stdlib Require Import QArith.
From S2P Require Import Prelude Errors Mcpu Retry.
#[local] Open Scope stdpp_scope.
#[local] Open Scope py_scope.
#[local] Open Scope nat_scope.

Inductive lock_mode := LOCK_SH | LOCK_EX.

#[export] Instance lock_mode_eq_dec : EqDecision lock_mode.
Proof. solve_decision. Defined.

(** The open files that hold the lock. *)
Notation holders := (gmap nat lock_mode).

Definition EAGAIN : exn := PyExn EnvironmentError "EAGAIN".
Definition Lock_error : exn := GntExn LockError [].

(** No other open file stands in the way. *)
Definition lockable (fd : nat) (m : lock_mode) (h : holders) : bool :=
  bool_decide (map_Forall (λ _ m', m = LOCK_SH ∧ m' = LOCK_SH) (delete fd h)).

(** [fcntl.flock(fd, flag)]; [None] of the mode is [LOCK_UN].  A lock that is
    changed is given up first.  [None] as result: the call blocks. *)
Definition flock (fd : nat) (m : option lock_mode) (nb : bool) (h : holders)
    : option (exc unit) * holders :=
  match m with
  | None => (Some (Ok tt), delete fd h)
  | Some m =>
      if lockable fd m h then (Some (Ok tt), <[fd := m]> h)
      else (if nb then Some (Raise EAGAIN) else None, delete fd h)
  end.

Section file_lock.
  (** The world: the lock, the clock, and what else there is. *)
  Context {W : Type} (lock_of : W → holders) (set_lock : holders → W → W)
    (time : W → Q) (wait : Q → W → W).

(** [FileLock._Lock] with a timeout. *)
Definition Lock_retry (fd : nat) (m : option lock_mode) (w : W) : call unit * W :=
  match flock fd m true (lock_of w) with
  | (Some (Ok _), h) => (CReturn tt, set_lock h w)
  | (_, h) => (CAgain [], set_lock h w)
  end.

(** [FileLock._flock]; [fuel] bounds the number of tries. *)
Definition FileLock_flock (fuel : nat) (fd : nat) (m : option lock_mode) (blocking : bool)
    (timeout : option Q) (w : W) : option (exc unit) * W :=
  match timeout with
  | None =>
      let '(r, h) := flock fd m (negb blocking) (lock_of w) in (r, set_lock h w)
  | Some t =>
      if negb (Qle_bool 0 t) then (Some (Raise AssertionFailed), w)
      else
        match Retry time wait (Lock_retry fd m) fuel (DTuple (1#10) (12#10) (Some 1%Q)) t w with
        | Some (RReturn _, w) => (Some (Ok tt), w)
        | Some (RTimeout _, w) => (Some (Raise Lock_error), w)
        | Some (RRaise e, w) => (Some (Raise e), w)
        | None => (None, w)
        end
  end.

Definition Exclusive (fuel fd : nat) := FileLock_flock fuel fd (Some LOCK_EX).
Definition Shared (fuel fd : nat) := FileLock_flock fuel fd (Some LOCK_SH).
Definition Unlock (fuel fd : nat) := FileLock_flock fuel fd None.
End file_lock.

(** ** Exclusion *)

(** A holder of the exclusive lock is alone. *)
Definition exclusive_alone (h : holders) : Prop :=
  ∀ fd fd' m, h !! fd = Some LOCK_EX → h !! fd' = Some m → fd' = fd.

Lemma lockable_spec fd m h :
  lockable fd m h = true ↔
  ∀ fd' m', fd' ≠ fd → h !! fd' = Some m' → m = LOCK_SH ∧ m' = LOCK_SH.
Proof.
  unfold lockable. rewrite bool_decide_eq_true. split.
  - intros Hm fd' m' Hne Hl. apply (Hm fd' m'). by rewrite lookup_delete_ne.
  - intros Hall fd' m' [Hne Hl]%lookup_delete_Some. eauto.
Qed.

Lemma exclusive_alone_delete fd h : exclusive_alone h → exclusive_alone (delete fd h).
Proof. intros He a b m [_ Ha]%lookup_delete_Some [_ Hb]%lookup_delete_Some. by eapply He. Qed.

Lemma exclusive_alone_insert fd m h :
  exclusive_alone h → lockable fd m h = true → exclusive_alone (<[fd := m]> h).
Proof.
  intros He Hl. rewrite lockable_spec in Hl. intros a b m'.
  rewrite !lookup_insert_Some. intros [[<- Em]|[Hne Ha]] [[<- Em']|[Hne' Hb]]; [done|..|by eapply He].
  - destruct (Hl b m') as [E _]; [done..|]. congruence.
  - by destruct (Hl a LOCK_EX) as [_ [=]].
Qed.

Lemma flock_exclusive fd m nb h : exclusive_alone h → exclusive_alone (flock fd m nb h).2.
Proof.
  intros He. unfold flock. destruct m as [m|]; [|by apply exclusive_alone_delete].
  destruct (lockable fd m h) eqn:E; [by apply exclusive_alone_insert|by apply exclusive_alone_delete].
Qed.

Lemma flock_held fd m nb h h' : flock fd m nb h = (Some (Ok tt), h') → h' !! fd = m.
Proof.
  unfold flock. destruct m as [m|]; [|intros [= <-]; by rewrite lookup_delete_eq].
  destruct (lockable fd m h); [intros [= <-]; by rewrite lookup_insert_eq|by destruct nb].
Qed.

Section file_lock_props.
  Context {W : Type} (lock_of : W → holders) (set_lock : holders → W → W)
    (time : W → Q) (wait : Q → W → W).
  (** While waiting, others lock and unlock. *)
  Context (lock_of_set : ∀ h w, lock_of (set_lock h w) = h)
    (wait_exclusive : ∀ d w, exclusive_alone (lock_of w) → exclusive_alone (lock_of (wait d w))).

Lemma retry_loop_lock fuel fd m end_time : ∀ c w r w',
  exclusive_alone (lock_of w) → is_Some (k_limit c) →
  retry_loop time wait (Lock_retry lock_of set_lock fd m) fuel end_time (KCalc c) w = Some (r, w') →
  exclusive_alone (lock_of w') ∧
  match r with
  | RReturn _ => lock_of w' !! fd = m
  | RTimeout _ => True
  | RRaise e => False
  end.
Proof.
  induction fuel as [|fuel IH]; intros c w r w' He Hc; [done|]. cbn [retry_loop].
  pose proof (flock_exclusive fd m true (lock_of w) He) as He'.
  unfold Lock_retry at 1.
  assert (∀ h, exclusive_alone h →
    (if Qle_bool (end_time - time (set_lock h w)) 0 then Some (RTimeout [], set_lock h w)
     else match run_calc (KCalc c) (end_time - time (set_lock h w)) (set_lock h w) with
          | Raise e => Some (RRaise e, set_lock h w)
          | Ok (d, k, w2) =>
              retry_loop time wait (Lock_retry lock_of set_lock fd m) fuel end_time k
                (if Qle_bool d 0 then w2 else wait d w2)
          end) = Some (r, w') →
    exclusive_alone (lock_of w') ∧ match r with
      | RReturn _ => lock_of w' !! fd = m | RTimeout _ => True | RRaise e => False end) as Hagain.
  { intros h Hh. destruct (Qle_bool _ 0); [intros [= <- <-]; by rewrite lock_of_set|].
    destruct Hc as [l Hl]. cbn [run_calc]. unfold calc_next. rewrite Hl.
    assert (∀ d, exclusive_alone
      (lock_of (if Qle_bool d 0 then set_lock h w else wait d (set_lock h w)))) as Hw.
    { intros d. destruct (Qle_bool d 0); [|apply wait_exclusive]; by rewrite lock_of_set. }
    destruct (Qle_bool l (k_next c)); cbn [rmap fst snd]; apply IH; eauto. }
  destruct (flock fd m true (lock_of w)) as [[[[]|e]|] h] eqn:Ef; simpl in He'; [|by apply Hagain..].
  intros [= <- <-]. rewrite lock_of_set. split; [done|]. by eapply flock_held.
Qed.

(** Exclusion and error cases.  A lock operation keeps a holder of the
    exclusive lock alone.  When it returns, the file is locked as asked for.
    With a timeout (not negative) it fails with [LockError] and nothing else;
    without one, and not blocking, the [EAGAIN] of the system call gets
    out. *)
Theorem FileLock_correct (fuel fd : nat) (m : option lock_mode) (blocking : bool)
    (timeout : option Q) (w w' : W) (r : option (exc unit)) :
  exclusive_alone (lock_of w) → (∀ t, timeout = Some t → Qle_bool 0 t = true) →
  FileLock_flock lock_of set_lock time wait fuel fd m blocking timeout w = (r, w') →
  exclusive_alone (lock_of w') ∧
  match r with
  | Some (Ok _) => lock_of w' !! fd = m
  | Some (Raise e) => match timeout with
                      | Some _ => e = Lock_error
                      | None => e = EAGAIN ∧ blocking = false
                      end
  | None => timeout = None → blocking = true
  end.
Proof.
  intros He Ht. unfold FileLock_flock. destruct timeout as [t|].
  - rewrite (Ht t eq_refl). cbn [negb]. unfold Retry.
    assert (make_calc (W := W) (DTuple (1#10) (12#10) (Some 1%Q))
      = Ok (KCalc (Calculator (12#10) (Some 1%Q) (1#10)))) as -> by reflexivity.
    destruct (retry_loop _ _ _ _ _ _ _) as [[r' w1]|] eqn:E.
    + apply retry_loop_lock in E as [Hex Hr]; [|done|by eexists].
      destruct r'; intros [= <- <-]; by try destruct Hr.
    + intros [= <- <-]. done.
  - pose proof (flock_exclusive fd m (negb blocking) (lock_of w) He) as He'.
    destruct (flock fd m (negb blocking) (lock_of w)) as [r' h] eqn:Ef. intros [= <- <-].
    rewrite lock_of_set. split; [done|]. destruct r' as [[[]|e]|].
    + by eapply flock_held.
    + unfold flock in Ef. destruct m as [m|]; [|done].
      destruct (lockable fd m (lock_of w)); [done|]. destruct blocking; [done|].
      by injection Ef as <- _.
    + unfold flock in Ef. destruct m as [m|]; [|done].
      destruct (lockable fd m (lock_of w)); [done|]. by destruct blocking.
Qed.
End file_lock_props.

(** One other open file holds the lock. *)
Lemma FileLock_correct_witness :
  FileLock_flock fst (λ h w, (h, w.2)) snd (λ d w, (w.1, (w.2 + d)%Q)) 5 1 (Some LOCK_EX) false None
    ({[2 := LOCK_SH]}, 0%Q) = (Some (Raise EAGAIN), ({[2 := LOCK_SH]}, 0%Q)) ∧ EAGAIN = EAGAIN.
Proof.
  split; [vm_compute; reflexivity|].
  assert (exclusive_alone {[2 := LOCK_SH]}) as He.
  { intros a b m Ha Hb. apply lookup_singleton_Some in Ha as [_ [=]]. }
  destruct (FileLock_correct (W := holders * Q) fst (λ h w, (h, w.2)) snd (λ d w, (w.1, (w.2 + d)%Q))
    (λ h w, eq_refl) (λ d w Hw, Hw) 5 1 (Some LOCK_EX) false None ({[2 := LOCK_SH]}, 0%Q)
    ({[2 := LOCK_SH]}, 0%Q) (Some (Raise EAGAIN))) as [_ [E _]].
  - exact He.
  - intros t [=].
  - vm_compute. reflexivity.
  - exact E.
Defined.
