(* ===== verification/Jstore.v ===== *)
(** * The job queue directory (src/lib/jstore.py)

    The serial and version files, their creation under the queue lock, the
    drain flag, and job ids as they are given by users. *)

From Stdlib Require Import QArith.
From S2P Require Import Prelude Errors PySort PyStr PyVal Mcpu Retry FileLock.
#[local] Open Scope list_scope.
#[local] Open Scope stdpp_scope.
#[local] Open Scope py_scope.
#[local] Open Scope nat_scope.

Definition JOB_QUEUE_VERSION : Z := 1.
Definition JOBS_PER_ARCHIVE_DIRECTORY : Z := 10000.

(** ** Job ids *)

Definition Parameter_error : exn := GntExn ParameterError [].

Definition ParseJobId (job_id : obj) : exc Z :=
  match int_of job_id with
  | Raise (PyExn ValueError _) | Raise (PyExn TypeError _) => Raise Parameter_error
  | r => r
  end.

Definition FormatJobID (job_id : obj) : exc Z :=
  match job_id with
  | OInt z => if (z <? 0)%Z then Raise (GntExn ProgrammerError []) else Ok z
  | OBool b => Ok (if b then 1 else 0)%Z
  | _ => Raise (GntExn ProgrammerError [])
  end.

Definition GetArchiveDirectory (job_id : obj) : exc str :=
  let* z := ParseJobId job_id in Ok (str_of_Z (z / JOBS_PER_ARCHIVE_DIRECTORY)).

(** ** The queue directory *)

(** The files' contents, whether the drain file is there, and who holds the
    queue lock. *)
Record queue_dir := QueueDir {
  qd_version : option str;
  qd_serial : option str;
  qd_drain : bool;
  qd_lock : holders
}.

Definition set_qd_lock (h : holders) (d : queue_dir) : queue_dir :=
  QueueDir (qd_version d) (qd_serial d) (qd_drain d) h.

Definition Queue_error : exn := GntExn JobQueueError [].

(** [None] as contents: there is no such file. *)
Definition ReadNumericFile (contents : option str) : exc (option Z) :=
  match contents with
  | None => Ok None
  | Some s => match py_int s with Some z => Ok (Some z) | None => Raise Queue_error end
  end.

Definition ReadSerial (d : queue_dir) : exc (option Z) := ReadNumericFile (qd_serial d).
Definition ReadVersion (d : queue_dir) : exc (option Z) := ReadNumericFile (qd_version d).

(** The text of a numeric file. *)
Definition numeric_file (z : Z) : str := str_of_Z z ++ [newline].

(** The body of [InitAndVerifyQueue] that runs with the lock.  The directory
    is returned in either case, as files may have been written. *)
Definition verify_queue (d : queue_dir) : queue_dir * exc unit :=
  match ReadVersion d with
  | Raise e => (d, Raise e)
  | Ok version =>
      let d := match version with
               | Some _ => d
               | None => QueueDir (Some (numeric_file JOB_QUEUE_VERSION)) (qd_serial d)
                           (qd_drain d) (qd_lock d)
               end in
      match (match version with Some _ => Ok version | None => ReadVersion d end) with
      | Raise e => (d, Raise e)
      | Ok version =>
          if negb (bool_decide (version = Some JOB_QUEUE_VERSION)) then (d, Raise Queue_error)
          else
            match ReadSerial d with
            | Raise e => (d, Raise e)
            | Ok serial =>
                let d := match serial with
                         | Some _ => d
                         | None => QueueDir (qd_version d) (Some (numeric_file 0))
                                     (qd_drain d) (qd_lock d)
                         end in
                match (match serial with Some _ => Ok serial | None => ReadSerial d end) with
                | Raise e => (d, Raise e)
                | Ok None => (d, Raise Queue_error)
                | Ok (Some _) => (d, Ok tt)
                end
            end
      end
  end.

(** Closing the lock file gives up the lock. *)
Definition Close (fd : nat) (d : queue_dir) : queue_dir := set_qd_lock (delete fd (qd_lock d)) d.

Definition queue_Exclusive (fd : nat) (blocking : bool) (d : queue_dir)
    : option (exc unit) * queue_dir :=
  Exclusive qd_lock set_qd_lock (λ _, 0%Q) (λ _ d, d) 0 fd blocking None d.

Definition queue_Unlock (fd : nat) (d : queue_dir) : option (exc unit) * queue_dir :=
  Unlock qd_lock set_qd_lock (λ _, 0%Q) (λ _ d, d) 0 fd true None d.

(** [fd]: the lock file as it was opened.  [None]: waiting for the lock. *)
Definition InitAndVerifyQueue (must_lock : bool) (fd : nat) (d : queue_dir)
    : option (exc unit) * queue_dir :=
  let close := λ r : queue_dir * exc unit,
    match r with (d, Ok u) => (Some (Ok u), d) | (d, Raise e) => (Some (Raise e), Close fd d) end in
  match queue_Exclusive fd must_lock d with
  | (None, d) => (None, d)
  | (Some (Raise e), d) =>
      if negb must_lock && isinstance_exn e LockError then (Some (Ok tt), d)
      else close (d, Raise e)
  | (Some (Ok _), d) =>
      match verify_queue d with
      | (d, Raise e) => close (d, Raise e)
      | (d, Ok _) =>
          if must_lock then (Some (Ok tt), d)
          else match queue_Unlock fd d with
               | (Some (Ok _), d) => (Some (Ok tt), d)
               | (Some (Raise e), d) => close (d, Raise e)
               | (None, d) => (None, d)
               end
      end
  end.

Definition CheckDrainFlag (d : queue_dir) : bool := qd_drain d.

Definition SetDrainFlag (drain_flag : bool) (d : queue_dir) : exc queue_dir :=
  let d := QueueDir (qd_version d) (qd_serial d) drain_flag (qd_lock d) in
  do* assert (xorb (negb drain_flag) (CheckDrainFlag d)) in Ok d.

(** ** Properties *)

(** The queue directory may be used: the files are not there yet, or have the
    right contents. *)
Definition usable (d : queue_dir) : Prop :=
  (∀ s, qd_version d = Some s → py_int s = Some JOB_QUEUE_VERSION) ∧
  (∀ s, qd_serial d = Some s → is_Some (py_int s)).

(** Files that were there are still there, and the same. *)
Definition keeps_files (d d' : queue_dir) : Prop :=
  (∀ s, qd_version d = Some s → qd_version d' = Some s) ∧
  (∀ s, qd_serial d = Some s → qd_serial d' = Some s) ∧ qd_drain d' = qd_drain d.

(** The queue has been set up. *)
Definition ready (d : queue_dir) : Prop :=
  ReadVersion d = Ok (Some JOB_QUEUE_VERSION) ∧ ∃ z, ReadSerial d = Ok (Some z).

Lemma verify_queue_spec d :
  let '(d', r) := verify_queue d in
  keeps_files d d' ∧ qd_lock d' = qd_lock d ∧
  match r with
  | Ok _ => usable d ∧ ready d' ∧ (qd_serial d = None → ReadSerial d' = Ok (Some 0%Z))
  | Raise e => ¬ usable d ∧ e = Queue_error
  end.
Proof.
  unfold verify_queue, keeps_files, usable, ready, ReadVersion, ReadSerial.
  destruct d as [v s dr l]. simpl.
  destruct v as [v|]; simpl.
  - destruct (py_int v) as [zv|] eqn:Ev; simpl.
    2: { split_and!; try done. intros [Hv _]. specialize (Hv v eq_refl). congruence. }
    case_bool_decide as Hz; simpl.
    2: { split_and!; try done. intros [Hv _]. specialize (Hv v eq_refl). congruence. }
    injection Hz as ->. destruct s as [s|]; simpl.
    + destruct (py_int s) as [zs|] eqn:Es; simpl.
      * split_and!; rewrite ?Ev, ?Es; try done; try (intros ? [= <-]; rewrite ?Ev, ?Es); done || by eexists.
      * split_and!; try done. intros [_ Hs]. specialize (Hs s eq_refl). rewrite Es in Hs.
        by destruct Hs.
    + split_and!; rewrite ?Ev; try done; try (intros ? [= <-]; rewrite ?Ev); done || by eexists.
  - destruct s as [s|]; simpl.
    + destruct (py_int s) as [zs|] eqn:Es; simpl.
      * split_and!; rewrite ?Es; try done; try (intros ? [= <-]; rewrite ?Es); done || by eexists.
      * split_and!; try done. intros [_ Hs]. specialize (Hs s eq_refl). rewrite Es in Hs.
        by destruct Hs.
    + split_and!; try done. by eexists.
Qed.

(** With the lock free, [InitAndVerifyQueue] succeeds exactly on a
    directory whose files are absent or well-formed.  It leaves a version file
    with the right version and a numeric serial file, starting at zero, never
    changes a file that is there, and keeps the lock exactly when [must_lock] is
    given.  It fails with [JobQueueError], and then without the lock. *)
Theorem InitAndVerifyQueue_correct (must_lock : bool) (fd : nat) (d : queue_dir) :
  lockable fd LOCK_EX (qd_lock d) = true →
  let '(r, d') := InitAndVerifyQueue must_lock fd d in
  keeps_files d d' ∧
  match r with
  | Some (Ok _) =>
      usable d ∧ ready d' ∧ (qd_serial d = None → ReadSerial d' = Ok (Some 0%Z)) ∧
      qd_lock d' !! fd = (if must_lock then Some LOCK_EX else None)
  | Some (Raise e) => ¬ usable d ∧ e = Queue_error ∧ qd_lock d' !! fd = None
  | None => False
  end.
Proof.
  intros Hl. unfold InitAndVerifyQueue, queue_Exclusive, Exclusive, FileLock_flock, flock.
  rewrite Hl. set (d1 := set_qd_lock _ d). pose proof (verify_queue_spec d1) as Hv.
  destruct (verify_queue d1) as [d2 [[]|e]]; destruct Hv as (Hk & El & Hr).
  - destruct Hr as (Hu & Hrd & Hs). destruct must_lock; simpl.
    + split; [done|]. split_and!; [done..|]. rewrite El. apply lookup_insert_eq.
    + split; [done|]. split_and!; [done..|]. apply lookup_delete_eq.
  - destruct Hr as [Hu ->]. simpl. split; [done|]. split_and!; [done..|]. apply lookup_delete_eq.
Qed.

Lemma InitAndVerifyQueue_correct_witness :
  lockable 1 LOCK_EX ∅ = true ∧
  usable (QueueDir None None false ∅).
Proof.
  split; [vm_compute; reflexivity|].
  pose proof (InitAndVerifyQueue_correct true 1 (QueueDir None None false ∅)) as H.
  destruct (InitAndVerifyQueue true 1 (QueueDir None None false ∅)) as [r d'] eqn:E.
  assert (r = Some (Ok tt)) as -> by (change r with (r, d').1; rewrite <-E; vm_compute; reflexivity).
  destruct H as [_ (Hu & _)]; [vm_compute; reflexivity|exact Hu].
Defined.

(** When another process has the lock and it is not required, the exception of
    the system call gets out: the handler is for [LockError], which a call
    without timeout does not raise. *)
Lemma InitAndVerifyQueue_locked fd d :
  lockable fd LOCK_EX (qd_lock d) = false →
  (InitAndVerifyQueue false fd d).1 = Some (Raise EAGAIN).
Proof.
  intros Hl. unfold InitAndVerifyQueue, queue_Exclusive, Exclusive, FileLock_flock, flock.
  rewrite Hl. reflexivity.
Qed.

(** Job ids that are written out are read back. *)
Lemma ParseJobId_str z : ParseJobId (OStr (str_of_Z z)) = Ok z.
Proof. unfold ParseJobId. simpl. by rewrite py_int_str. Qed.
