(* ===== verification/Query.v ===== *)
(** * Queries (src/lib/query.py)

    Field definitions, the compilation of filters to functions with the
    analysis of the names and kinds of data they refer to, and the execution of
    a query.  The definitions of the resources' fields, which the callers pass
    in, are not part of it.  Regular expressions are an interface ([Regex]):
    compiling one may fail, searching with one gives a truth value.  So are the
    texts of objects that the interpreter makes up ([ObjText]). *)

From Stdlib Require Import SpecFloat.
From S2P Require Import Prelude Errors PySort PyStr PyVal Ht Text Algo Jstore.
#[local] Open Scope list_scope.
#[local] Open Scope stdpp_scope.
#[local] Open Scope py_scope.

Class Regex := {
  regex : Type;
  re_compile : str → option regex;
  re_search : regex → str → bool
}.

(** The texts ([str] and [repr]) of floats, sets, private values and other objects *)
Class ObjText := {
  obj_str : obj → str;
  obj_repr : obj → str
}.

(** ** [str] and [repr] *)

Fixpoint py_repr `{ObjText} (v : obj) : str :=
  let items := fix items (l : list obj) : list str := match l with [] => [] | x :: l => py_repr x :: items l end in
  match v with
  | ONone => lit "None"
  | OBool b => if b then lit "True" else lit "False"
  | OInt z => str_of_Z z
  | OStr s => repr_str s
  | OList l => lit "[" ++ join (lit ", ") (items l) ++ lit "]"
  | OTuple l =>
      lit "(" ++ join (lit ", ") (items l) ++ match l with [_] => lit ",)" | _ => lit ")" end
  | ODict d =>
      let pairs := fix pairs (d : list (obj * obj)) : list str :=
        match d with [] => [] | (k, x) :: d => (py_repr k ++ lit ": " ++ py_repr x) :: pairs d end in
      lit "{" ++ join (lit ", ") (pairs d) ++ lit "}"
  | OFloat _ | OSet _ | OPrivate _ | OOther _ => obj_repr v
  end.

Definition py_str `{ObjText} (v : obj) : str :=
  match v with
  | OStr s => s
  | OFloat _ | OSet _ | OPrivate _ | OOther _ => obj_str v
  | _ => py_repr v
  end.

(** ** Times *)

(** The literal [0.000001] *)
Definition micro : spec_float := S754_finite false 4722366482869645 (-72).

Definition MergeTime (timetuple : obj) : exc spec_float :=
  let* '(seconds, microseconds) := unpack2 timetuple in
  let* b := py_order OpLe (OInt 0) seconds in
  do* assert b in
  let* b := py_order OpLe (OInt 0) microseconds in
  let* b := if b then py_order OpLe microseconds (OInt 999999) else Ok false in
  do* assert b in
  let* s := float_of seconds in
  let* us := float_of microseconds in
  Ok (SFadd 53 1024 s (SFmul 53 1024 us micro)).

(** ** Field definitions *)

Inductive qft :=
| QFT_UNKNOWN | QFT_TEXT | QFT_BOOL | QFT_NUMBER | QFT_NUMBER_FLOAT | QFT_UNIT
| QFT_TIMESTAMP | QFT_OTHER.

#[export] Instance qft_eq_dec : EqDecision qft.
Proof. solve_decision. Defined.

Definition VERIFY_FN (kind : qft) : check :=
  match kind with
  | QFT_UNKNOWN => TNone
  | QFT_TEXT => TString
  | QFT_BOOL => TBool
  | QFT_NUMBER => TInt
  | QFT_NUMBER_FLOAT => TFloat
  | QFT_UNIT => TInt
  | QFT_TIMESTAMP => TNumber
  | QFT_OTHER => TAny
  end.

Definition QFF_HOSTNAME : Z := 1.
Definition QFF_IP_ADDRESS : Z := 2.
Definition QFF_JOB_ID : Z := 4.
Definition QFF_SPLIT_TIMESTAMP : Z := 8.

Record field_def := FieldDef { fd_name : str; fd_title : str; fd_kind : qft; fd_doc : str }.

(** The objects for special states of a field *)
Definition FS_UNKNOWN : obj := OOther 0.
Definition FS_NODATA : obj := OOther 1.
Definition FS_UNAVAIL : obj := OOther 2.
Definition FS_OFFLINE : obj := OOther 3.

(** ** Operators *)

Inductive qop :=
| OP_OR | OP_AND | OP_NOT | OP_TRUE | OP_EQUAL | OP_EQUAL_LEGACY | OP_NOT_EQUAL
| OP_LT | OP_LE | OP_GT | OP_GE | OP_REGEXP | OP_CONTAINS.

Definition op_text (op : qop) : string :=
  match op with
  | OP_OR => "|" | OP_AND => "&" | OP_NOT => "!" | OP_TRUE => "?"
  | OP_EQUAL => "==" | OP_EQUAL_LEGACY => "=" | OP_NOT_EQUAL => "!="
  | OP_LT => "<" | OP_LE => "<=" | OP_GT => ">" | OP_GE => ">="
  | OP_REGEXP => "=~" | OP_CONTAINS => "=[]"
  end.

Definition all_ops : list qop :=
  [OP_OR; OP_AND; OP_NOT; OP_TRUE; OP_EQUAL; OP_EQUAL_LEGACY; OP_NOT_EQUAL;
   OP_LT; OP_LE; OP_GT; OP_GE; OP_REGEXP; OP_CONTAINS].

(** [self._OPS[op]] *)
Definition find_op (op : obj) : exc qop :=
  if negb (hashes op) then Raise Type_error
  else match List.find (λ o, py_eq op (str_obj (op_text o))) all_ops with
       | Some o => Ok o
       | None => Raise Parameter_error
       end.

Section ops.
  Context `{Regex}.

(** The value a binary operator compares with, prepared when compiling. *)
Inductive rvalue := RObj (v : obj) | RRegex (r : regex).

(** Flags, comparison, preparation of the value. *)
Definition bin_impl : Type := option Z * (obj → rvalue → exc bool) * (obj → exc rvalue).

Definition no_prep (v : obj) : exc rvalue := Ok (RObj v).

Definition on_obj (fn : obj → obj → exc bool) (lhs : obj) (rhs : rvalue) : exc bool :=
  match rhs with RObj v => fn lhs v | RRegex _ => Raise Type_error end.

(** [utils.MatchNameComponent(rhs, [lhs], case_sensitive=False)], as a truth
    value: the key itself when it is equal, else the name it matches. *)
Definition hostname_eq (lhs rhs : obj) : exc bool :=
  if py_eq rhs lhs then Ok (py_truth rhs)
  else
    match rhs, lhs with
    | OStr key, OStr name =>
        Ok (match MatchNameComponent key [name] false with
            | Some n => bool_decide (n ≠ [])
            | None => false
            end)
    | OStr _, _ => Raise Type_error
    | _, _ => Raise (PyExn AttributeError "upper")
    end.

Definition operator_eq (lhs rhs : obj) : exc bool := Ok (py_eq lhs rhs).

Definition PrepareSplitTimestamp (value : obj) : exc rvalue :=
  let* n := TNumber value in
  if n then Ok (RObj value) else rmap (λ f, RObj (OFloat f)) (MergeTime value).

Definition MakeSplitTimestampComparison (fn : obj → obj → exc bool) : obj → rvalue → exc bool :=
  λ lhs rhs, let* l := MergeTime lhs in on_obj fn (OFloat l) rhs.

Definition PrepareRegex (pattern : obj) : exc rvalue :=
  match pattern with
  | OStr p => match re_compile p with
              | Some r => Ok (RRegex r)
              | None => Raise Parameter_error
              end
  | _ => Raise Type_error
  end.

Definition EQUALITY_CHECKS : list bin_impl :=
  [(Some QFF_HOSTNAME, on_obj hostname_eq, no_prep);
   (Some QFF_SPLIT_TIMESTAMP, MakeSplitTimestampComparison operator_eq, PrepareSplitTimestamp);
   (None, on_obj operator_eq, no_prep)].

Definition WrapNot (impl : bin_impl) : bin_impl :=
  let '(flags, fn, prep) := impl in (flags, λ lhs rhs, rmap negb (fn lhs rhs), prep).

Definition MakeComparisonChecks (fn : obj → obj → exc bool) : list bin_impl :=
  [(Some QFF_SPLIT_TIMESTAMP, MakeSplitTimestampComparison fn, PrepareSplitTimestamp);
   (Some QFF_JOB_ID, λ lhs rhs, let* l := ParseJobId lhs in on_obj fn (OInt l) rhs,
    λ v, rmap (λ z, RObj (OInt z)) (ParseJobId v));
   (None, on_obj fn, no_prep)].

Definition regexp_search (lhs : obj) (rhs : rvalue) : exc bool :=
  match rhs, lhs with
  | RRegex r, OStr s => Ok (re_search r s)
  | _, _ => Raise Type_error
  end.

(** The implementations of a binary operator. *)
Definition op_data (op : qop) : list bin_impl :=
  match op with
  | OP_EQUAL | OP_EQUAL_LEGACY => EQUALITY_CHECKS
  | OP_NOT_EQUAL => map WrapNot EQUALITY_CHECKS
  | OP_LT => MakeComparisonChecks (py_order OpLt)
  | OP_LE => MakeComparisonChecks (py_order OpLe)
  | OP_GT => MakeComparisonChecks (py_order OpGt)
  | OP_GE => MakeComparisonChecks (py_order OpGe)
  | OP_REGEXP => [(None, regexp_search, PrepareRegex)]
  | OP_CONTAINS => [(None, on_obj (λ lhs rhs, py_in rhs lhs), no_prep)]
  | OP_OR | OP_AND | OP_NOT | OP_TRUE => []
  end.

(** The first implementation whose flags fit. *)
Definition find_impl (op : qop) (field_flags : Z) : exc ((obj → rvalue → exc bool) * (obj → exc rvalue)) :=
  match List.find (λ i : bin_impl,
                   match i.1.1 with
                   | None => true
                   | Some f => negb (Z.land f field_flags =? 0)%Z
                   end) (op_data op) with
  | Some (_, fn, prep) => Ok (fn, prep)
  | None => Raise (GntExn ProgrammerError [])
  end.
End ops.

(** ** Filter hints *)

Record hints := Hints {
  h_namefield : str;
  h_allnames : bool;
  h_names : option (list obj);
  h_datakinds : gset Z
}.

Definition new_hints (namefield : str) : hints := Hints namefield false None ∅.

Definition NeedAllNames (h : hints) : hints :=
  Hints (h_namefield h) true None (h_datakinds h).

Definition NoteDatakind (datakind : option Z) (h : hints) : hints :=
  match datakind with
  | Some k => Hints (h_namefield h) (h_allnames h) (h_names h) ({[k]} ∪ h_datakinds h)
  | None => h
  end.

Definition NoteLogicOp (op : qop) (h : hints) : hints :=
  match op with OP_OR => h | _ => NeedAllNames h end.

Definition NoteUnaryOp (datakind : option Z) (h : hints) : hints :=
  NeedAllNames (NoteDatakind datakind h).

Definition NoteBinaryOp (op : qop) (datakind : option Z) (name value : obj) (h : hints) : hints :=
  let h := NoteDatakind datakind h in
  if h_allnames h then h
  else
    let eq_op := match op with OP_EQUAL | OP_EQUAL_LEGACY => true | _ => false end in
    if eq_op && py_eq name (OStr (h_namefield h)) then
      Hints (h_namefield h) (h_allnames h) (Some (default [] (h_names h) ++ [value])) (h_datakinds h)
    else NeedAllNames h.

Definition hints_RequestedNames (h : hints) : exc (option (list obj)) :=
  if h_allnames h then Ok None
  else match h_names h with
       | None => Ok None
       | Some names => if forallb hashes names then Ok (Some (dedup names)) else Raise Type_error
       end.

(** ** Compiling a filter *)

Section query.
  Context `{Regex, ObjText} {Ctx Item : Type}.

(** Definition, kind of data, flags, retrieval function. *)
Record field := Field {
  f_def : field_def;
  f_datakind : option Z;
  f_flags : Z;
  f_fn : Ctx → Item → exc obj
}.

(** What a compiled filter is used for is the truth value of its result. *)
Definition cfilter : Type := Ctx → Item → exc bool.

Context (fields : gmap str field).

Definition LookupField (name : obj) : exc field :=
  if negb (hashes name) then Raise Type_error
  else match unprivate name with
       | OStr s => match fields !! s with Some f => Ok f | None => Raise Parameter_error end
       | _ => Raise Parameter_error
       end.

Definition WrapLogicOp (all : bool) (sentences : list cfilter) : cfilter :=
  λ ctx item, (if all then rall else rany) (λ fn, fn ctx item) sentences.

Definition WrapUnaryOp (op_fn : bool → bool) (inner : cfilter) : cfilter :=
  λ ctx item, rmap op_fn (inner ctx item).

Definition WrapBinaryOp (op_fn : obj → rvalue → exc bool) (retrieval_fn : Ctx → Item → exc obj)
    (value : rvalue) : cfilter :=
  λ ctx item, let* v := retrieval_fn ctx item in op_fn v value.

Definition HandleBinaryOp (h : option hints) (op : qop) (operands : list obj)
    : exc (option hints * cfilter) :=
  match operands with
  | [name; value] =>
      let* f := LookupField name in
      do* assert (negb (bool_decide (fd_kind (f_def f) = QFT_UNKNOWN))) in
      let* ok := VERIFY_FN (fd_kind (f_def f)) value in
      if negb ok then Raise Parameter_error
      else
        let h := NoteBinaryOp op (f_datakind f) name value <$> h in
        let* '(fn, prep) := find_impl op (f_flags f) in
        let* value := prep value in
        Ok (h, WrapBinaryOp fn (f_fn f) value)
  | _ => Raise Parameter_error
  end.

(** A list comprehension that carries the hints along. *)
Fixpoint compile_all (compile : option hints → obj → exc (option hints * cfilter))
    (h : option hints) (operands : list obj) : exc (option hints * list cfilter) :=
  match operands with
  | [] => Ok (h, [])
  | o :: operands =>
      let* '(h, fn) := compile h o in
      let* '(h, fns) := compile_all compile h operands in
      Ok (h, fn :: fns)
  end.

Definition LEVELS_MAX : nat := 10.

(** [levels]: how many more levels of nesting are allowed.  A tuple passes the
    first test, but has no [pop]. *)
Fixpoint Compile (levels : nat) (h : option hints) (qfilter : obj)
    : exc (option hints * cfilter) :=
  match qfilter with
  | OList (op :: operands) =>
      match levels with
      | 0 => Raise Parameter_error
      | S levels =>
          let* op := find_op op in
          match op with
          | OP_OR | OP_AND =>
              let* '(h, fns) := compile_all (Compile levels) (NoteLogicOp op <$> h) operands in
              Ok (h, WrapLogicOp (match op with OP_AND => true | _ => false end) fns)
          | OP_TRUE =>
              match operands with
              | [name] =>
                  let* f := LookupField name in
                  Ok (NoteUnaryOp (f_datakind f) <$> h,
                      λ ctx item, rmap py_truth (f_fn f ctx item))
              | _ => Raise Parameter_error
              end
          | OP_NOT =>
              match operands with
              | [arg] =>
                  let* '(h, fn) := Compile levels (NoteUnaryOp None <$> h) arg in
                  Ok (h, WrapUnaryOp negb fn)
              | _ => Raise Parameter_error
              end
          | _ => HandleBinaryOp h op operands
          end
      end
  | OTuple (_ :: _) =>
      match levels with
      | 0 => Raise Parameter_error
      | S _ => Raise (PyExn AttributeError "pop")
      end
  | _ => Raise Parameter_error
  end.

Definition CompileFilter (h : option hints) (qfilter : obj) : exc (option hints * cfilter) :=
  Compile LEVELS_MAX h qfilter.

(** ** The query object *)

Definition GetUnknownField (ctx : Ctx) (item : Item) : exc obj := Ok FS_UNKNOWN.

Definition GetQueryFields (selected : list str) : list field :=
  map (λ name,
    match fields !! name with
    | Some f => f
    | None => Field (FieldDef name name QFT_UNKNOWN (lit "Unknown field '" ++ name ++ lit "'"))
                None 0 GetUnknownField
    end) selected.

Record query := Query {
  q_fields : list field;
  q_filter_fn : option cfilter;
  q_requested_names : option (list obj);
  q_filter_datakinds : gset Z;
  q_name_fn : option (Ctx → Item → exc obj)
}.

Definition new_query (selected : list str) (qfilter : option obj) (namefield : option str)
    : exc query :=
  do* assert (match namefield with None => true | Some n => bool_decide (is_Some (fields !! n)) end) in
  let name_fn := match namefield with
                 | None => None
                 | Some n => f_fn <$> fields !! n
                 end in
  match qfilter with
  | None => Ok (Query (GetQueryFields selected) None None ∅ name_fn)
  | Some qfilter =>
      let h := match namefield with
               | Some [] | None => None
               | Some n => Some (new_hints n)
               end in
      let* '(h, fn) := CompileFilter h qfilter in
      match h with
      | None => Ok (Query (GetQueryFields selected) (Some fn) None ∅ name_fn)
      | Some h =>
          let* names := hints_RequestedNames h in
          Ok (Query (GetQueryFields selected) (Some fn) names (h_datakinds h) name_fn)
      end
  end.

Definition RequestedData (q : query) : gset Z :=
  q_filter_datakinds q ∪ list_to_set (omap f_datakind (q_fields q)).

(** ** Running a query *)

Inductive rs := RS_NORMAL | RS_UNKNOWN | RS_NODATA | RS_UNAVAIL | RS_OFFLINE.

#[export] Instance rs_eq_dec : EqDecision rs.
Proof. solve_decision. Defined.

Definition ProcessResult (value : obj) : rs * obj :=
  match value with
  | OOther 0 => (RS_UNKNOWN, ONone)
  | OOther 1 => (RS_NODATA, ONone)
  | OOther 2 => (RS_UNAVAIL, ONone)
  | OOther 3 => (RS_OFFLINE, ONone)
  | _ => (RS_NORMAL, value)
  end.

(** No error of [_VerifyResultRow] for a cell. *)
Definition cell_ok (c : rs * obj) (f : field) : exc bool :=
  match c.1 with
  | RS_NORMAL => VERIFY_FN (fd_kind (f_def f)) c.2
  | _ => Ok (match c.2 with ONone => true | _ => false end)
  end.

Definition VerifyResultRow (fs : list field) (row : list (rs * obj)) : exc unit :=
  do* assert (Nat.eqb (length row) (length fs)) in
  let* oks := rmapM (λ '(c, f), cell_ok c f) (zip row fs) in
  assert (forallb id oks).

Definition query_row (q : query) (ctx : Ctx) (item : Item) : exc (list (rs * obj)) :=
  let* row := rmapM (λ f, rmap ProcessResult (f_fn f ctx item)) (q_fields q) in
  do* VerifyResultRow (q_fields q) row in Ok row.

(** The sort key of an item. *)
Definition name_key (name_fn : Ctx → Item → exc obj) (ctx : Ctx) (item : Item) : exc (list atom) :=
  let* v := name_fn ctx item in
  let '(status, name) := ProcessResult v in
  do* assert (bool_decide (status = RS_NORMAL)) in
  NiceSortKey (py_str name).

Definition filter_item (q : query) (ctx : Ctx) (item : Item) : exc bool :=
  match q_filter_fn q with None => Ok true | Some fn => fn ctx item end.

(** The loop over the items; [sort] is the name function when sorting. *)
Fixpoint query_loop (q : query) (sort : option (Ctx → Item → exc obj)) (ctx : Ctx) (idx : nat)
    (items : list Item) : exc (list (list atom * nat * list (rs * obj))) :=
  match items with
  | [] => Ok []
  | item :: items =>
      let* sel := filter_item q ctx item in
      if negb sel then query_loop q sort ctx (S idx) items
      else
        let* row := query_row q ctx item in
        let* key := match sort with Some name_fn => name_key name_fn ctx item | None => Ok [] end in
        let* rest := query_loop q sort ctx (S idx) items in
        Ok ((key, idx, row) :: rest)
  end.

(** [items]: what iterating over [ctx] gives. *)
Definition Query_Query (q : query) (ctx : Ctx) (items : list Item) (sort_by_name : bool)
    : exc (list (list (rs * obj))) :=
  let sort := if sort_by_name then q_name_fn q else None in
  let* result := query_loop q sort ctx 0 items in
  match sort with
  | None => Ok (map snd result)
  | Some _ => Ok (map snd (py_sorted (indexed_lt key_lt) result))
  end.

Definition OldStyleQuery (q : query) (ctx : Ctx) (items : list Item) (sort_by_name : bool)
    : exc (list (list obj)) :=
  if existsb (λ f, bool_decide (fd_kind (f_def f) = QFT_UNKNOWN)) (q_fields q)
  then Raise (GntExn OpPrereqError [VStr ""; VStr "wrong_input"])
  else rmap (map (map snd)) (Query_Query q ctx items sort_by_name).
End query.

Arguments field : clear implicits.
Arguments query : clear implicits.
