(* ===== verification/QueryProps.v ===== *)
(** * Correctness of queries

    What a compiled filter may ask for: the names it reports cover every item
    it accepts, and it looks at the kinds of data it reports only.  What a query
    returns: the rows of the items the filter accepts, by name. *)

From Stdlib Require Import Sorted.
From S2P Require Import Prelude Errors PySort PyStr PyVal Ht Text Algo Jstore Query.
#[local] Open Scope list_scope.
#[local] Open Scope stdpp_scope.
#[local] Open Scope py_scope.

Section props.
  Context `{Regex, ObjText} {Ctx Item : Type}.
  Implicit Types (fields : gmap str (field Ctx Item)) (q : query Ctx Item).

(** ** Names *)

(** The equality test of the field holds for the item and [v]. *)
Definition eq_matches (f : field Ctx Item) (ctx : Ctx) (item : Item) (v : obj) : Prop :=
  ∃ fn prep r w, find_impl OP_EQUAL (f_flags f) = Ok (fn, prep) ∧ prep v = Ok r ∧
    f_fn f ctx item = Ok w ∧ fn w r = Ok true.

(** [vs]: the names noted while compiling [fn]. *)
Definition covers (f : field Ctx Item) (fn : Ctx → Item → exc bool) (vs : list obj) : Prop :=
  ∀ ctx item, fn ctx item = Ok true → ∃ v, v ∈ vs ∧ eq_matches f ctx item v.

(** From [h] to [h'] the hints have gained the names [vs], or given up. *)
Definition gained (f : field Ctx Item) (h h' : hints) (fn : Ctx → Item → exc bool) : Prop :=
  h_namefield h' = h_namefield h ∧
  (h_allnames h' = false →
   h_allnames h = false ∧
   ∃ vs, default [] (h_names h') = default [] (h_names h) ++ vs ∧
     Forall (λ v, VERIFY_FN (fd_kind (f_def f)) v = Ok true) vs ∧
     (h_names h' = None → h_names h = None) ∧ covers f fn vs).

Lemma gained_allnames f h h' fn :
  h_namefield h' = h_namefield h → h_allnames h' = true → gained f h h' fn.
Proof. intros Hn Ha. split; [done|]. congruence. Qed.

Lemma NoteDatakind_same k h :
  h_namefield (NoteDatakind k h) = h_namefield h ∧
  h_allnames (NoteDatakind k h) = h_allnames h ∧ h_names (NoteDatakind k h) = h_names h.
Proof. by destruct k. Qed.

Lemma LookupField_Ok fields name f :
  LookupField fields name = Ok f ↔
  hashes name = true ∧ ∃ s, unprivate name = OStr s ∧ fields !! s = Some f.
Proof.
  unfold LookupField. destruct (hashes name); simpl; [|naive_solver].
  destruct (unprivate name) as [| | | |s| | | | | |]; try naive_solver.
  destruct (fields !! s) eqn:E; naive_solver.
Qed.

Lemma py_eq_unprivate name s t :
  unprivate name = OStr s → py_eq name (OStr t) = true → s = t.
Proof. destruct name; simpl; try done; intros E; simplify_eq/=; by intros ?%bool_decide_eq_true. Qed.

(** Once all names are needed they stay needed. *)
Definition keeps_allnames (h h' : hints) : Prop :=
  h_namefield h' = h_namefield h ∧ (h_allnames h = true → h_allnames h' = true).

Lemma HandleBinaryOp_gained fields n f h op operands h' fn :
  fields !! n = Some f → h_namefield h = n →
  HandleBinaryOp fields (Some h) op operands = Ok (Some h', fn) → gained f h h' fn.
Proof.
  intros Hf Hn. unfold HandleBinaryOp.
  destruct operands as [|name [|value [|]]]; try done.
  intros (f' & Hl & Hb)%rbind_Ok. apply rbind_Ok in Hb as (_ & _ & Hb).
  apply rbind_Ok in Hb as (ok & Hv & Hb). destruct ok; [|done]. cbn [negb] in Hb.
  apply rbind_Ok in Hb as ([fn' prep] & Hi & Hb). apply rbind_Ok in Hb as (r & Hr & Hb).
  simpl in Hb. injection Hb as <- <-.
  destruct (NoteDatakind_same (f_datakind f') h) as (Hd1 & Hd2 & Hd3).
  unfold NoteBinaryOp. rewrite Hd1, Hd2, Hd3. destruct (h_allnames h) eqn:Ha.
  { apply gained_allnames; [done|]. congruence. }
  destruct (_ && py_eq name _) eqn:Eq; [|by apply gained_allnames].
  apply andb_true_iff in Eq as [Eop En].
  apply LookupField_Ok in Hl as (_ & s & Hs & Hl).
  assert (s = n) as -> by (rewrite <-Hn; by eapply py_eq_unprivate).
  assert (f' = f) as -> by congruence.
  assert (find_impl OP_EQUAL (f_flags f) = Ok (fn', prep)) as Hi' by (by destruct op).
  split; [done|]. intros _. split; [done|]. exists [value]. split_and!.
  - simpl. by destruct (h_names h).
  - by repeat constructor.
  - done.
  - intros ctx item Hok. exists value. split; [left|].
    unfold WrapBinaryOp in Hok. apply rbind_Ok in Hok as (w & Hw & Hfn).
    exists fn', prep, r, w. done.
Qed.

Lemma gained_trans f h0 h1 h2 fn fns :
  gained f h0 h1 fn → gained f h1 h2 (WrapLogicOp false fns) →
  gained f h0 h2 (WrapLogicOp false (fn :: fns)).
Proof.
  intros [Hn1 Hg1] [Hn2 Hg2]. split; [congruence|]. intros Ha.
  destruct (Hg2 Ha) as (Ha1 & vs2 & E2 & Hv2 & Hnone2 & Hc2).
  destruct (Hg1 Ha1) as (Ha0 & vs1 & E1 & Hv1 & Hnone1 & Hc1). split; [done|].
  exists (vs1 ++ vs2). split_and!.
  - by rewrite E2, E1, app_assoc.
  - by apply Forall_app.
  - auto.
  - intros ctx item. unfold WrapLogicOp. cbn [rany].
    destruct (fn ctx item) as [[]|] eqn:Efn; cbn [rbind]; [| |done]; intros Hok.
    + destruct (Hc1 ctx item Efn) as (v & ? & ?). exists v. set_solver.
    + destruct (Hc2 ctx item Hok) as (v & ? & ?). exists v. set_solver.
Qed.

(** Hints that are there stay there. *)
Lemma Compile_hints fields levels : ∀ h qf oh' fn,
  Compile fields levels (Some h) qf = Ok (oh', fn) → ∃ h', oh' = Some h'.
Proof.
  induction levels as [|levels IH]; intros h qf oh' fn; cbn [Compile]; destruct qf as [| | | | |l|l| | | |];
    try done; destruct l as [|op operands]; try done.
  intros (o & _ & Hc)%rbind_Ok.
  assert (∀ ops h oh' fns, compile_all (Compile fields levels) (Some h) ops = Ok (oh', fns) →
    ∃ h', oh' = Some h') as Hall.
  { intros ops. induction ops as [|x ops IHo]; intros h0 oh0 fns; cbn [compile_all].
    - intros [= <- <-]. eauto.
    - intros ([oh1 fn1] & H1%IH & H2)%rbind_Ok. destruct H1 as [h1 ->].
      apply rbind_Ok in H2 as ([oh2 fns2] & H2%IHo & H3). destruct H2 as [h2 ->].
      injection H3 as <- <-. eauto. }
  assert (∀ o ops, HandleBinaryOp fields (Some h) o ops = Ok (oh', fn) → ∃ h', oh' = Some h') as Hbin.
  { intros o' ops. unfold HandleBinaryOp. destruct ops as [|a [|b [|]]]; try done.
    intros (f & _ & Hb)%rbind_Ok. apply rbind_Ok in Hb as (_ & _ & Hb).
    apply rbind_Ok in Hb as ([] & _ & Hb); [|done].
    apply rbind_Ok in Hb as ([fn0 prep] & _ & Hb). apply rbind_Ok in Hb as (r & _ & Hb).
    injection Hb as <- <-. simpl. eauto. }
  destruct o; try (by eapply Hbin).
  - apply rbind_Ok in Hc as ([oh fns] & Ha%Hall & [= <- <-]). exact Ha.
  - apply rbind_Ok in Hc as ([oh fns] & Ha%Hall & [= <- <-]). exact Ha.
  - destruct operands as [|a [|]]; try done.
    apply rbind_Ok in Hc as ([oh fn'] & Ha%IH & [= <- <-]). exact Ha.
  - destruct operands as [|a [|]]; try done. apply rbind_Ok in Hc as (f & _ & [= <- <-]). eauto.
Qed.

Lemma Compile_gained fields n f levels : ∀ h qf h' fn,
  fields !! n = Some f → h_namefield h = n →
  Compile fields levels (Some h) qf = Ok (Some h', fn) → gained f h h' fn.
Proof.
  induction levels as [|levels IH]; intros h qf h' fn Hf Hn; cbn [Compile];
    destruct qf as [| | | | |l|l| | | |]; try done; destruct l as [|op operands]; try done.
  intros (o & _ & Hc)%rbind_Ok.
  assert (∀ ops h h' fns, h_namefield h = n →
    compile_all (Compile fields levels) (Some h) ops = Ok (Some h', fns) →
    gained f h h' (WrapLogicOp false fns)) as Hall.
  { clear h h' Hn Hc. intros ops. induction ops as [|x ops IHo]; intros h h' fns Hn; cbn [compile_all].
    - intros [= <- <-]. split; [done|]. intros Ha. split; [done|]. exists [].
      split_and!; [by rewrite app_nil_r|constructor|done|]. done.
    - intros ([oh1 fn1] & H1 & H2)%rbind_Ok. destruct (Compile_hints _ _ _ _ _ _ H1) as [h1 ->].
      pose proof (IH _ _ _ _ Hf Hn H1) as Hg.
      apply rbind_Ok in H2 as ([oh2 fns2] & H2 & H3). injection H3 as -> <-.
      eapply gained_trans; [exact Hg|]. apply IHo; [|exact H2]. destruct Hg as [-> _]. done. }
  assert (∀ h1, h_namefield h1 = n → h_allnames h1 = true → ∀ h' fn,
    gained f h1 h' fn → h_namefield h' = n ∧ h_allnames h' = true) as Hkeep.
  { intros h1 Hn1 Ha1 h2 fn2 [Hn2 Hg]. split; [congruence|].
    destruct (h_allnames h2); [done|]. destruct Hg; [done|congruence]. }
  destruct o; try (by eapply HandleBinaryOp_gained).
  - apply rbind_Ok in Hc as ([oh fns] & Ha & [= -> <-]). by apply (Hall operands).
  - apply rbind_Ok in Hc as ([oh fns] & Ha & [= -> <-]).
    destruct (Hkeep (NeedAllNames h) Hn eq_refl _ _ (Hall operands (NeedAllNames h) h' fns Hn Ha)) as [Hn' Ha'].
    by apply gained_allnames; [congruence|].
  - destruct operands as [|a [|]]; try done.
    apply rbind_Ok in Hc as ([oh fn'] & Ha & [= -> <-]).
    destruct (Hkeep (NoteUnaryOp None h) Hn eq_refl _ _ (IH (NoteUnaryOp None h) a h' fn' Hf Hn Ha)) as [Hn' Ha'].
    by apply gained_allnames; [congruence|].
  - destruct operands as [|a [|]]; try done. apply rbind_Ok in Hc as (f' & _ & [= <- <-]).
    apply gained_allnames; [|done].
    unfold NoteUnaryOp. destruct (NoteDatakind_same (f_datakind f') h) as (E & _). exact E.
Qed.

(** Hints that are not there do not appear. *)
Lemma no_hints fields levels : ∀ qf h fn,
  Compile fields levels None qf ≠ Ok (Some h, fn).
Proof.
  assert (∀ o ops oh' (fn : cfilter), HandleBinaryOp fields None o ops = Ok (oh', fn) → oh' = None)
    as Hbin.
  { intros o ops oh' fn. unfold HandleBinaryOp. destruct ops as [|a [|b [|]]]; try done.
    intros (f & _ & Hb)%rbind_Ok. apply rbind_Ok in Hb as (_ & _ & Hb).
    apply rbind_Ok in Hb as ([] & _ & Hb); [|done].
    apply rbind_Ok in Hb as ([fn0 prep] & _ & Hb). apply rbind_Ok in Hb as (r & _ & Hb).
    by injection Hb. }
  induction levels as [|levels IH]; intros qf h fn; cbn [Compile];
    destruct qf as [| | | | |l|l| | | |]; try done; destruct l as [|op operands]; try done.
  intros (o & _ & Hc)%rbind_Ok.
  assert (∀ ops oh' fns, compile_all (Compile fields levels) None ops = Ok (oh', fns) →
    oh' = None) as Hall.
  { intros ops. induction ops as [|x ops IHo]; intros oh0 fns; cbn [compile_all].
    - by intros [= <- _].
    - intros ([[h1|] fn1] & H1 & H2)%rbind_Ok; [by apply IH in H1|].
      apply rbind_Ok in H2 as ([oh2 fns2] & H2%IHo & H3). by injection H3 as <- _. }
  destruct o; try (by apply Hbin in Hc).
  - apply rbind_Ok in Hc as ([oh fns] & Ha%Hall & [= -> _]). done.
  - apply rbind_Ok in Hc as ([oh fns] & Ha%Hall & [= -> _]). done.
  - destruct operands as [|a [|]]; try done.
    apply rbind_Ok in Hc as ([oh fn'] & Ha & [= -> _]). by apply IH in Ha.
  - destruct operands as [|a [|]]; try done. by apply rbind_Ok in Hc as (f & _ & Hc).
Qed.

Lemma dedup_elem_str (l : list obj) v :
  Forall (λ v, ∃ s, v = OStr s) l → v ∈ l → v ∈ dedup l.
Proof.
  induction 1 as [|x l [s ->] Hl IH]; simpl; [done|].
  intros [->|Hv]%elem_of_cons; [left|].
  rewrite Forall_forall in Hl. destruct (Hl v Hv) as [t ->].
  destruct (decide (t = s)) as [->|Hne]; [left|right].
  apply list_elem_of_In, filter_In. split; [by apply list_elem_of_In, IH|]. simpl.
  by rewrite bool_decide_eq_false_2.
Qed.

(** ** Kinds of data *)

(** The field's data is of a kind in [D], or of none in particular. *)
Definition available (D : gset Z) (f : field Ctx Item) : Prop :=
  match f_datakind f with None => True | Some k => k ∈ D end.

(** Two sets of fields that differ in the retrieval functions of fields whose
    kind of data is not in [D] only. *)
Definition agree (D : gset Z) fields fields' : Prop :=
  ∀ s, match fields !! s, fields' !! s with
       | Some f, Some f' =>
           f_def f = f_def f' ∧ f_datakind f = f_datakind f' ∧ f_flags f = f_flags f' ∧
           (available D f → f_fn f = f_fn f')
       | None, None => True
       | _, _ => False
       end.

Lemma agree_available D fields fields' s f :
  agree D fields fields' → fields !! s = Some f → available D f → fields' !! s = Some f.
Proof.
  intros Ha Hf Hav. specialize (Ha s). rewrite Hf in Ha. destruct (fields' !! s) as [f'|]; [|done].
  destruct Ha as (? & ? & ? & Hfn). specialize (Hfn Hav). destruct f, f'; simpl in *. by subst.
Qed.

Lemma agree_none D fields fields' s :
  agree D fields fields' → fields !! s = None → fields' !! s = None.
Proof. intros Ha Hf. specialize (Ha s). rewrite Hf in Ha. by destruct (fields' !! s). Qed.

Lemma agree_LookupField D fields fields' name f :
  agree D fields fields' → LookupField fields name = Ok f → available D f →
  LookupField fields' name = Ok f.
Proof.
  intros Ha (Hh & s & Hs & Hf)%LookupField_Ok Hav. apply LookupField_Ok. split; [done|].
  exists s. split; [done|]. by eapply agree_available.
Qed.

Lemma NoteDatakind_available k h D f :
  f_datakind f = k → h_datakinds (NoteDatakind k h) ⊆ D → available D f.
Proof. intros E. unfold available. rewrite E. destruct k; simpl; [set_solver|done]. Qed.

Lemma NoteBinaryOp_datakinds op k name value h :
  h_datakinds (NoteBinaryOp op k name value h) = h_datakinds (NoteDatakind k h).
Proof.
  unfold NoteBinaryOp. destruct (h_allnames _); [done|]. by destruct (_ && _).
Qed.

Lemma NoteDatakind_mono k h : h_datakinds h ⊆ h_datakinds (NoteDatakind k h).
Proof. destruct k; simpl; set_solver. Qed.

Lemma HandleBinaryOp_agree D fields fields' h op operands h' fn :
  agree D fields fields' →
  HandleBinaryOp fields (Some h) op operands = Ok (Some h', fn) →
  h_datakinds h ⊆ h_datakinds h' ∧
  (h_datakinds h' ⊆ D → HandleBinaryOp fields' (Some h) op operands = Ok (Some h', fn)).
Proof.
  intros Ha. unfold HandleBinaryOp. destruct operands as [|name [|value [|]]]; try done.
  intros (f & Hl & Hb)%rbind_Ok. pose proof Hb as Hb0.
  apply rbind_Ok in Hb as (_ & _ & Hb).
  apply rbind_Ok in Hb as ([] & Hv & Hb); [|done].
  apply rbind_Ok in Hb as ([fn' prep] & Hi & Hb). apply rbind_Ok in Hb as (r & Hr & Hb).
  cbn [fmap option_fmap option_map] in Hb. injection Hb as <- <-. rewrite NoteBinaryOp_datakinds.
  split; [apply NoteDatakind_mono|]. intros HD.
  rewrite (agree_LookupField D fields fields' name f); [exact Hb0|done..|].
  by eapply NoteDatakind_available.
Qed.

Lemma Compile_agree D fields fields' levels : agree D fields fields' → ∀ h qf h' fn,
  Compile fields levels (Some h) qf = Ok (Some h', fn) →
  h_datakinds h ⊆ h_datakinds h' ∧
  (h_datakinds h' ⊆ D → Compile fields' levels (Some h) qf = Ok (Some h', fn)).
Proof.
  intros Hag. induction levels as [|levels IH]; intros h qf h' fn; cbn [Compile];
    destruct qf as [| | | | |l|l| | | |]; try done; destruct l as [|op operands]; try done.
  intros (o & Ho & Hc)%rbind_Ok. rewrite Ho. cbn [rbind].
  assert (∀ ops h h' fns,
    compile_all (Compile fields levels) (Some h) ops = Ok (Some h', fns) →
    h_datakinds h ⊆ h_datakinds h' ∧
    (h_datakinds h' ⊆ D → compile_all (Compile fields' levels) (Some h) ops = Ok (Some h', fns)))
    as Hall.
  { clear -IH. intros ops. induction ops as [|x ops IHo]; intros h h' fns; cbn [compile_all].
    - by intros [= <- <-].
    - intros ([oh1 fn1] & H1 & H2)%rbind_Ok. destruct (Compile_hints _ _ _ _ _ _ H1) as [h1 ->].
      destruct (IH _ _ _ _ H1) as [Hm1 Ha1].
      apply rbind_Ok in H2 as ([oh2 fns2] & H2 & H3). injection H3 as -> <-.
      destruct (IHo _ _ _ H2) as [Hm2 Ha2]. split; [set_solver|]. intros HD.
      rewrite Ha1 by set_solver. cbn [rbind]. by rewrite Ha2. }
  destruct o; try (eapply (HandleBinaryOp_agree D fields); eassumption).
  - apply rbind_Ok in Hc as ([oh fns] & Hc & [= -> <-]).
    destruct (Hall _ h _ _ Hc) as [Hm Ha]. split; [done|]. intros HD.
    change (NoteLogicOp OP_OR <$> Some h) with (Some h). by rewrite Ha.
  - apply rbind_Ok in Hc as ([oh fns] & Hc & [= -> <-]).
    destruct (Hall _ (NeedAllNames h) _ _ Hc) as [Hm Ha]. split; [done|]. intros HD.
    change (NoteLogicOp OP_AND <$> Some h) with (Some (NeedAllNames h)). by rewrite Ha.
  - destruct operands as [|a [|]]; try done.
    apply rbind_Ok in Hc as ([oh fn'] & Hc & [= -> <-]).
    destruct (IH (NoteUnaryOp None h) _ _ _ Hc) as [Hm Ha]. split; [done|]. intros HD.
    change (NoteUnaryOp None <$> Some h) with (Some (NoteUnaryOp None h)). by rewrite Ha.
  - destruct operands as [|a [|]]; try done. apply rbind_Ok in Hc as (f' & Hl & [= <- <-]).
    split; [apply NoteDatakind_mono|]. intros HD.
    rewrite (agree_LookupField D fields fields' a f'); [done..|].
    eapply (NoteDatakind_available _ h); [done|]. by destruct (f_datakind f').
Qed.

Lemma agree_GetQueryFields D fields fields' selected :
  agree D fields fields' → list_to_set (omap f_datakind (GetQueryFields fields selected)) ⊆ D →
  GetQueryFields fields' selected = GetQueryFields fields selected.
Proof.
  intros Ha. induction selected as [|n selected IH]; [done|].
  unfold GetQueryFields in *. cbn [map omap list_omap]. destruct (fields !! n) as [f|] eqn:Ef.
  - intros HD. rewrite (agree_available D fields fields' n f); [|done..|].
    + f_equal. apply IH. destruct (f_datakind f); set_solver.
    + unfold available. destruct (f_datakind f); [|done]. set_solver.
  - intros HD. rewrite (agree_none D fields fields' n) by done. f_equal. apply IH. exact HD.
Qed.

(** ** The query's result *)

(** All functions the query calls for the item return. *)
Definition evaluates q (sort : bool) (ctx : Ctx) (item : Item) : Prop :=
  ∃ b, filter_item q ctx item = Ok b ∧
    (b = true → (∃ row, query_row q ctx item = Ok row) ∧
       match q_name_fn q with
       | Some fn => sort = true → ∃ k, name_key fn ctx item = Ok k
       | None => True
       end).

Definition accepted q (ctx : Ctx) (item : Item) : bool :=
  match filter_item q ctx item with Ok true => true | _ => false end.

Definition selected_items q (ctx : Ctx) (items : list Item) : list Item :=
  filter (λ i, accepted q ctx i = true) items.

(** The key an item is sorted by. *)
Definition item_key (sort : option (Ctx → Item → exc obj)) (ctx : Ctx) (item : Item) : list atom :=
  match sort with
  | Some fn => match name_key fn ctx item with Ok k => k | Raise _ => [] end
  | None => []
  end.

(** The loop makes a row for each item the filter accepts, in their order. *)
Lemma query_loop_spec q sort ctx items : ∀ idx result,
  query_loop q sort ctx idx items = Ok result →
  Forall2 (λ item (e : list atom * nat * list (rs * obj)),
             query_row q ctx item = Ok e.2 ∧ e.1.1 = item_key sort ctx item)
    (selected_items q ctx items) result ∧
  Forall (λ e, idx ≤ e.1.2) result ∧
  StronglySorted (λ a b : list atom * nat * list (rs * obj), a.1.2 < b.1.2) result.
Proof.
  induction items as [|item items IH]; intros idx result; cbn [query_loop].
  { intros [= <-]. repeat constructor. }
  unfold selected_items. rewrite filter_cons.
  intros (b & Hb & Hl)%rbind_Ok.
  assert (accepted q ctx item = b) as -> by (unfold accepted; rewrite Hb; by destruct b).
  destruct b; cbn [negb] in Hl.
  - rewrite decide_True by done. apply rbind_Ok in Hl as (row & Hrow & Hl).
    apply rbind_Ok in Hl as (key & Hkey & Hl). apply rbind_Ok in Hl as (rest & Hrest & [= <-]).
    destruct (IH _ _ Hrest) as (IH1 & IH2 & IH3). split_and!.
    + constructor; [|exact IH1]. split; [done|]. simpl. unfold item_key. destruct sort; [by rewrite Hkey|].
      by simplify_eq.
    + constructor; [simpl; lia|]. eapply Forall_impl; [exact IH2|]. simpl. lia.
    + constructor; [done|]. eapply Forall_impl; [exact IH2|]. simpl. lia.
  - rewrite decide_False by done. destruct (IH _ _ Hl) as (IH1 & IH2 & IH3). split_and!; [done| |done].
    eapply Forall_impl; [exact IH2|]. simpl. lia.
Qed.

Definition sort_fn q (sort : bool) : option (Ctx → Item → exc obj) :=
  if sort then q_name_fn q else None.

Lemma query_loop_total q sort ctx items :
  (∃ result, query_loop q (sort_fn q sort) ctx 0 items = Ok result) ↔
  Forall (evaluates q sort ctx) items.
Proof.
  generalize 0. induction items as [|item items IH]; intros idx; cbn [query_loop]; [naive_solver|].
  rewrite Forall_cons. split.
  - intros (result & (b & Hb & Hl)%rbind_Ok). destruct b; cbn [negb] in Hl.
    + apply rbind_Ok in Hl as (row & Hrow & Hl). apply rbind_Ok in Hl as (key & Hkey & Hl).
      apply rbind_Ok in Hl as (rest & Hrest & _). split; [|by eapply IH; eauto].
      exists true. split; [done|]. intros _. split; [eauto|].
      destruct (q_name_fn q) eqn:Eq; [|done]. intros ->. unfold sort_fn in Hkey.
      rewrite Eq in Hkey. eauto.
    + split; [|by eapply IH; eauto]. exists false. done.
  - intros [(b & Hb & He) Hrest]. apply (IH (S idx)) in Hrest as [rest Hrest].
    rewrite Hb. cbn [rbind]. destruct b; cbn [negb]; [|eauto].
    destruct He as [[row Hrow] Hkey]; [done|]. rewrite Hrow. cbn [rbind].
    assert (∃ k, match sort_fn q sort with
                 | Some name_fn => name_key name_fn ctx item | None => Ok [] end = Ok k) as [k ->].
    { unfold sort_fn. destruct sort; [|eauto]. destruct (q_name_fn q); [|eauto]. by apply Hkey. }
    cbn [rbind]. rewrite Hrest. cbn [rbind]. eauto.
Qed.

(** The items in the order in which their rows are returned. *)
Definition ordered q (sort : bool) (ctx : Ctx) (items : list Item) : list Item :=
  match sort_fn q sort with
  | None => items
  | Some fn => py_sorted (λ a b, key_lt (item_key (Some fn) ctx a) (item_key (Some fn) ctx b)) items
  end.

Lemma Query_Query_loop q ctx items sort rows result :
  query_loop q (sort_fn q sort) ctx 0 items = Ok result →
  Query_Query q ctx items sort = Ok rows →
  Forall2 (λ item row, query_row q ctx item = Ok row)
    (ordered q sort ctx (selected_items q ctx items)) rows.
Proof.
  intros Hl. unfold Query_Query, ordered. change (if sort then q_name_fn q else None) with (sort_fn q sort).
  rewrite Hl. cbn [rbind]. destruct (query_loop_spec _ _ _ _ _ _ Hl) as (Hf & _ & Hs).
  destruct (sort_fn q sort) as [fn|]; intros [= <-].
  - rewrite (py_sorted_indexed key_lt) by exact Hs.
    change (map snd) with (@fmap list _ (list atom * nat * list (rs * obj)) _ snd).
    apply Forall2_fmap_r. eapply Forall2_impl.
    + eapply py_sorted_Forall2; [|exact Hf]. simpl. intros a b a' b' [_ E] [_ E']. by rewrite E, E'.
    + simpl. tauto.
  - change (map snd) with (@fmap list _ (list atom * nat * list (rs * obj)) _ snd).
    apply Forall2_fmap_r. eapply Forall2_impl; [exact Hf|]. simpl. tauto.
Qed.
(** C27: the names a query asks for are enough.  When it reports names (for a
    text field [n] that holds the item's name), every item the filter accepts
    has a name that the field's equality test matches with one of them, so that
    fetching those items only loses nothing. *)
Theorem RequestedNames_sound fields (selected : list str) (qf : obj) (n : str)
    (f : field Ctx Item) q (names : list obj) :
  fields !! n = Some f → fd_kind (f_def f) = QFT_TEXT →
  new_query fields selected (Some qf) (Some n) = Ok q →
  q_requested_names q = Some names →
  ∀ ctx item, filter_item q ctx item = Ok true →
    ∃ v, v ∈ names ∧ eq_matches f ctx item v.
Proof.
  intros Hf Hk. unfold new_query. intros (_ & _ & Hq)%rbind_Ok Hnames.
  apply rbind_Ok in Hq as ([oh fn] & Hc & Hq).
  destruct n as [|a n]; [|set (nf := a :: n) in *].
  { destruct oh as [h|]; [|by simplify_eq]. exfalso.
    exact (no_hints _ _ _ _ _ Hc). }
  destruct (Compile_hints _ _ _ _ _ _ Hc) as [h ->].
  apply rbind_Ok in Hq as (ns & Hns & [= <-]). simpl in Hnames. subst ns.
  destruct (Compile_gained fields nf f _ (new_hints nf) _ _ _ Hf eq_refl Hc) as [_ Hg].
  unfold hints_RequestedNames in Hns. destruct (h_allnames h); [done|].
  destruct (Hg eq_refl) as (_ & vs & E & Hv & _ & Hcov). simpl in E.
  destruct (h_names h) as [raw|]; [|done]. simpl in E. subst raw.
  destruct (forallb hashes vs); [|done]. injection Hns as <-.
  intros ctx item Hi. unfold filter_item in Hi. simpl in Hi.
  destruct (Hcov ctx item Hi) as (v & Hin & Hm). exists v. split; [|done].
  apply dedup_elem_str; [|done]. eapply Forall_impl; [exact Hv|]. rewrite Hk.
  intros w. simpl. unfold TString. destruct w; naive_solver.
Qed.


(** C30: a query returns exactly when the functions it calls do, and then the
    rows of the items that the filter accepts, one for each, in the order of
    their names when sorting is asked for and in the order of the input
    otherwise. *)
Theorem Query_Query_correct q (ctx : Ctx) (items : list Item) (sort : bool)
    (rows : list (list (rs * obj))) :
  Query_Query q ctx items sort = Ok rows ↔
  Forall (evaluates q sort ctx) items ∧
  Forall2 (λ item row, query_row q ctx item = Ok row)
    (ordered q sort ctx (selected_items q ctx items)) rows.
Proof.
  assert (∀ result, query_loop q (sort_fn q sort) ctx 0 items = Ok result →
    ∃ rows, Query_Query q ctx items sort = Ok rows) as Hret.
  { intros result Hl. unfold Query_Query.
    change (if sort then q_name_fn q else None) with (sort_fn q sort). rewrite Hl. cbn [rbind].
    destruct (sort_fn q sort); eauto. }
  split.
  - intros Hq. assert (∃ result, query_loop q (sort_fn q sort) ctx 0 items = Ok result) as [result Hl].
    { unfold Query_Query in Hq. apply rbind_Ok in Hq as (result & Hl & _). by exists result. }
    split; [apply query_loop_total; eauto|]. by eapply Query_Query_loop.
  - intros [He Hf]. apply query_loop_total in He as [result Hl].
    destruct (Hret _ Hl) as [rows' Hq]. rewrite Hq. f_equal.
    pose proof (Query_Query_loop _ _ _ _ _ _ Hl Hq) as Hf'.
    clear -Hf Hf'. revert rows Hf. induction Hf' as [|i r l rows' Hi Hf' IH]; intros rows Hf;
      inversion Hf; subst; [done|]. f_equal; [congruence|auto].
Qed.
End props.

(** ** An example *)

Module QueryDemo.

(** Plain text as regular expressions. *)
#[export] Instance literal_regex : Regex := {
  regex := str; re_compile := Some; re_search := substring
}.

(** Items are names; the length of a name is data of kind 5. *)
Definition name_field : field unit str :=
  Field (FieldDef (lit "name") (lit "Name") QFT_TEXT (lit "Name")) (Some 1%Z) 0
    (λ _ item, Ok (OStr item)).
Definition len_field : field unit str :=
  Field (FieldDef (lit "len") (lit "Length") QFT_NUMBER (lit "Length")) (Some 5%Z) 0
    (λ _ item, Ok (OInt (Z.of_nat (length item)))).
Definition demo_fields : gmap str (field unit str) :=
  {[lit "name" := name_field; lit "len" := len_field]}.

Definition name_filter : obj :=
  OList [str_obj "|"; OList [str_obj "=="; str_obj "name"; str_obj "a2"];
                      OList [str_obj "=="; str_obj "name"; str_obj "a10"]].

Lemma RequestedNames_sound_witness :
  ∃ q, new_query demo_fields [lit "len"] (Some name_filter) (Some (lit "name")) = Ok q ∧
       ∃ v, v ∈ [str_obj "a2"; str_obj "a10"] ∧ eq_matches name_field tt (lit "a10") v.
Proof.
  destruct (new_query demo_fields [lit "len"] (Some name_filter) (Some (lit "name"))) as [q|e] eqn:E.
  2: { vm_compute in E. discriminate E. }
  exists q. split; [reflexivity|].
  refine (RequestedNames_sound demo_fields [lit "len"] name_filter (lit "name") name_field q
    [str_obj "a2"; str_obj "a10"] _ _ E _ tt (lit "a10") _).
  - vm_compute. reflexivity.
  - reflexivity.
  - vm_compute in E. injection E as <-. reflexivity.
  - vm_compute in E. injection E as <-. vm_compute. reflexivity.
Defined.

(** The length is not asked for, and could be anything. *)
Definition no_len : gmap str (field unit str) :=
  <[lit "len" := Field (f_def len_field) (Some 5%Z) 0 (λ _ _, Raise Type_error)]> demo_fields.


(** A tuple passes the type test of the compiler, which then pops from it. *)
Lemma tuple_filter_raises :
  CompileFilter demo_fields None (OTuple [str_obj "?"; str_obj "len"])
  = Raise (PyExn AttributeError "pop").
Proof. reflexivity. Qed.

(** Without a name field the filter's kinds of data are not reported. *)
Lemma RequestedData_no_namefield :
  rmap RequestedData
    (new_query demo_fields [lit "name"] (Some (OList [str_obj "?"; str_obj "len"])) None)
  = Ok {[1%Z]}.
Proof. vm_compute. reflexivity. Qed.

(** Names need not be strings: rows are sorted by the digits in the texts of numbers. *)
#[local] Instance no_other_texts : ObjText := {| obj_str _ := []; obj_repr _ := [] |}.
Definition job_fields : gmap str (field unit Z) :=
  {[lit "id" := Field (FieldDef (lit "id") (lit "ID") QFT_NUMBER (lit "Job")) None 0 (λ _ item, Ok (OInt item))]}.

Lemma numbers_sorted :
  (let* q := new_query job_fields [lit "id"] None (Some (lit "id")) in Query_Query q tt [10; 9; 100]%Z true)
  = Ok [[(RS_NORMAL, OInt 9)]; [(RS_NORMAL, OInt 10)]; [(RS_NORMAL, OInt 100)]].
Proof. vm_compute. reflexivity. Qed.

Lemma reprs :
  py_str (OTuple [OList [OStr [squote]; OInt (-3)]]) = lit "([" ++ ["034"; squote; "034"]%char ++ lit ", -3],)".
Proof. vm_compute. reflexivity. Qed.

End QueryDemo.
