(* ===== verification/Qlang.v ===== *)
(** * The query language (src/lib/qlang.py)

    Building filters from names and command line arguments.  The parser for
    filter texts is made by a third-party library and is a parameter. *)

From S2P Require Import Prelude Errors PySort PyStr PyVal Ht Text Algo Jstore Query.
#[local] Open Scope list_scope.
#[local] Open Scope stdpp_scope.
#[local] Open Scope py_scope.

Definition op_obj (op : qop) : obj := str_obj (op_text op).

Definition equal_filter (namefield : str) (value : obj) : obj :=
  OList [op_obj OP_EQUAL; OStr namefield; value].

Definition MakeSimpleFilter (namefield : str) (values : list obj) : obj :=
  match values with
  | [] => ONone
  | _ => OList (op_obj OP_OR :: map (equal_filter namefield) values)
  end.

Definition FILTER_DETECTION_CHARS : str :=
  ["!"; " "; "034"; "'"; ")"; "("; "011"; "010"; "013"; "012"; "/"; "<"; "009"; ">"; "="; "\"; "~"]%char.

Definition GLOB_DETECTION_CHARS : str := ["*"; "?"]%char.

(** [bool(frozenset(text) & chars)] *)
Definition CheckFilter (text : str) : bool := existsb (char_in FILTER_DETECTION_CHARS) text.
Definition CheckGlobbing (text : str) : bool := existsb (char_in GLOB_DETECTION_CHARS) text.

(** [re.escape] *)
Definition regex_special : str :=
  lit "()[]{}?*+-|^$\.&~# " ++ ["009"; "010"; "013"; "011"; "012"]%char.

Definition re_escape (s : str) : str :=
  flat_map (λ a, if char_in regex_special a then ["\"%char; a] else [a]) s.

(** [utils.DnsNameGlobPattern]: each [*] and [?] by its class, the rest
    escaped. *)
Definition DnsNameGlobPattern (pattern : str) : str :=
  lit "^" ++
  flat_map (λ a, if decide (a = "*"%char) then lit "[^.]*"
                 else if decide (a = "?"%char) then lit "[^.]"
                 else re_escape [a]) pattern ++
  lit "(\..*)?$".

Definition Invalid_argument : exn := GntExn OpPrereqError [VStr ""; VStr "wrong_input"].

Definition MakeFilterPart (namefield text : str) (isnumeric : bool) : exc obj :=
  if isnumeric then
    match py_int text with
    | Some number => Ok (equal_filter namefield (OInt number))
    | None => Raise Invalid_argument
    end
  else if CheckGlobbing text then
    Ok (OList [op_obj OP_REGEXP; OStr namefield; OStr (DnsNameGlobPattern text)])
  else Ok (equal_filter namefield (OStr text)).

Definition MakeFilter (ParseFilter : str → exc obj) (args : list str) (force_filter : bool)
    (namefield : option str) (isnumeric : bool) : exc obj :=
  let namefield := default (lit "name") namefield in
  if force_filter || match args with [a] => CheckFilter a | _ => false end then
    match args with
    | [filter_text] => ParseFilter filter_text
    | _ => Raise Invalid_argument
    end
  else
    match args with
    | [] => Ok ONone
    | _ =>
        let* parts := rmapM (λ arg, MakeFilterPart namefield arg isnumeric) args in
        Ok (OList (op_obj OP_OR :: parts))
    end.

(** ** Plain names *)

Section simple.
  Context `{Regex} {Ctx Item : Type} (fields : gmap str (field Ctx Item)) (n : str)
    (f : field Ctx Item).
  Context (Hf : fields !! n = Some f) (Hkind : fd_kind (f_def f) = QFT_TEXT) (Hflags : f_flags f = 0%Z).

Lemma Compile_equal levels h v :
  Compile fields (S levels) (Some h) (equal_filter n (OStr v))
  = Ok (Some (NoteBinaryOp OP_EQUAL (f_datakind f) (OStr n) (OStr v) h),
        WrapBinaryOp (on_obj operator_eq) (f_fn f) (RObj (OStr v))).
Proof.
  cbn [Compile equal_filter]. change (find_op (op_obj OP_EQUAL)) with (Ok OP_EQUAL : exc qop).
  cbn [rbind HandleBinaryOp]. unfold LookupField. cbn [hashes negb unprivate]. rewrite Hf.
  cbn [rbind]. rewrite Hkind. cbn [VERIFY_FN TString rbind negb].
  rewrite bool_decide_eq_false_2 by done. cbn [negb py_assert rbind].
  unfold find_impl. rewrite Hflags. reflexivity.
Qed.

Lemma Compile_or levels h operands :
  Compile fields (S levels) (Some h) (OList (op_obj OP_OR :: operands)) =
  let* '(h, fns) := compile_all (Compile fields levels) (Some h) operands in
  Ok (h, WrapLogicOp false fns).
Proof. reflexivity. Qed.

Lemma compile_names levels values : ∀ h,
  h_namefield h = n → h_allnames h = false →
  ∃ h' fns,
    compile_all (Compile fields (S levels)) (Some h) (map (equal_filter n) (OStr <$> values))
      = Ok (Some h', fns) ∧
    h_allnames h' = false ∧
    h_names h' = (if values is [] then h_names h
                  else Some (default [] (h_names h) ++ (OStr <$> values))) ∧
    ∀ ctx item w, f_fn f ctx item = Ok w →
      rany (λ fn, fn ctx item) fns = Ok (existsb (λ v, py_eq w (OStr v)) values).
Proof.
  induction values as [|v values IH]; intros h Hn Ha; cbn [fmap list_fmap map compile_all].
  { exists h, []. split_and!; done. }
  rewrite Compile_equal. cbn [rbind].
  assert (NoteBinaryOp OP_EQUAL (f_datakind f) (OStr n) (OStr v) h =
    Hints n false (Some (default [] (h_names h) ++ [OStr v])) (h_datakinds (NoteDatakind (f_datakind f) h)))
    as ->.
  { unfold NoteBinaryOp. destruct h as [hn ha hs hd]. simpl in *. subst hn ha.
    destruct (f_datakind f); simpl; by rewrite bool_decide_eq_true_2. }
  destruct (IH (Hints n false (Some (default [] (h_names h) ++ [OStr v]))
    (h_datakinds (NoteDatakind (f_datakind f) h)))) as (h' & fns & -> & Ha' & Hnames & Hfns); [done..|].
  cbn [rbind]. eexists _, _. split; [done|]. split; [done|]. split.
  - rewrite Hnames. destruct values; csimpl; [done|]. by rewrite <-app_assoc.
  - intros ctx item w Hw. cbn [rany existsb]. unfold WrapBinaryOp at 1. rewrite Hw. cbn [rbind on_obj].
    unfold operator_eq. cbn [rbind]. destruct (py_eq w (OStr v)); [done|]. by apply Hfns.
Qed.
End simple.

(** A list of names as a filter.  The query asks for exactly these names,
    each once, and selects the items whose name is one of them. *)
Theorem MakeSimpleFilter_correct `{Regex} {Ctx Item} (fields : gmap str (field Ctx Item))
    (selected : list str) (n : str) (f : field Ctx Item) (values : list str) :
  n ≠ [] → values ≠ [] → fields !! n = Some f →
  fd_kind (f_def f) = QFT_TEXT → f_flags f = 0%Z →
  ∃ q, new_query fields selected (Some (MakeSimpleFilter n (OStr <$> values))) (Some n) = Ok q ∧
    q_requested_names q = Some (dedup (OStr <$> values)) ∧
    ∀ ctx item s, f_fn f ctx item = Ok (OStr s) →
      filter_item q ctx item = Ok (bool_decide (s ∈ values)).
Proof.
  intros Hn Hv Hf Hk Hfl. unfold new_query. rewrite Hf, bool_decide_eq_true_2 by eauto.
  cbn [py_assert rbind]. destruct n as [|a n0] eqn:En; [done|]. rewrite <-En in *. clear a n0 En.
  destruct (compile_names fields n f Hf Hk Hfl 8 values (new_hints n)) as
    (h' & fns & Hc & Ha & Hnames & Hfns); [done..|].
  destruct values as [|v values]; [done|]. unfold CompileFilter, LEVELS_MAX.
  cbn [MakeSimpleFilter fmap list_fmap] in *. rewrite Compile_or, Hc. cbn [rbind].
  unfold hints_RequestedNames. rewrite Ha, Hnames. cbn [default new_hints h_names app].
  assert (forallb hashes (OStr v :: (OStr <$> values)) = true) as ->.
  { clear. cbn [forallb hashes andb]. by induction values. }
  cbn [rbind]. eexists. split; [done|]. split; [done|].
  intros ctx item s Hs. unfold filter_item, WrapLogicOp. cbn [q_filter_fn].
  rewrite (Hfns ctx item (OStr s) Hs). f_equal. clear.
  induction (v :: values) as [|w l IH]; [done|]. cbn [existsb]. rewrite IH. simpl.
  destruct (decide (s = w)) as [->|Hne].
  - rewrite (bool_decide_eq_true_2 (w = w)) by done. simpl. symmetry. apply bool_decide_eq_true_2. left.
  - rewrite (bool_decide_eq_false_2 (s = w)) by done. simpl. apply bool_decide_ext. set_solver.
Qed.

Module QlangDemo.

#[local] Instance no_regex : Regex := {
  regex := unit; re_compile := λ _, None; re_search := λ _ _, false
}.

Definition node_fields : gmap str (field unit str) :=
  {[lit "name" := Field (FieldDef (lit "name") (lit "Node") QFT_TEXT (lit "Node name")) None 0
      (λ _ item, Ok (OStr item))]}.

Lemma MakeSimpleFilter_correct_witness :
  ∃ q, new_query node_fields [lit "name"]
         (Some (MakeSimpleFilter (lit "name") (OStr <$> [lit "node1"; lit "node2"]))) (Some (lit "name"))
       = Ok q ∧ filter_item q tt (lit "node2") = Ok true.
Proof.
  destruct (MakeSimpleFilter_correct node_fields [lit "name"] (lit "name")
    (Field (FieldDef (lit "name") (lit "Node") QFT_TEXT (lit "Node name")) None 0
      (λ _ item, Ok (OStr item))) [lit "node1"; lit "node2"]) as (q & E & _ & Hq).
  - discriminate.
  - discriminate.
  - vm_compute. reflexivity.
  - reflexivity.
  - reflexivity.
  - exists q. split; [exact E|]. rewrite (Hq tt (lit "node2") (lit "node2") eq_refl).
    vm_compute. reflexivity.
Defined.

End QlangDemo.

(** Command line arguments without special characters make the same filter. *)
Lemma MakeFilter_names ParseFilter (args : list str) (n : str) :
  args ≠ [] → Forall (λ a, CheckFilter a = false ∧ CheckGlobbing a = false) args →
  MakeFilter ParseFilter args false (Some n) false = Ok (MakeSimpleFilter n (OStr <$> args)).
Proof.
  intros Hne Ha. unfold MakeFilter. cbn [default orb].
  assert (match args with [a] => CheckFilter a | _ => false end = false) as ->.
  { destruct Ha as [|a l [Hc _] Hl]; [done|]. by destruct l. }
  assert (rmapM (λ arg, MakeFilterPart n arg false) args = Ok (map (equal_filter n) (OStr <$> args))) as E.
  { apply rmapM_Ok. clear Hne. induction Ha as [|a l [_ Hg] Hl IH]; csimpl; constructor; [|done].
    unfold MakeFilterPart. by rewrite Hg. }
  change (id n) with n. rewrite E. by destruct args.
Qed.
