(* ===== verification/Confd.v ===== *)
(** * The client of the configuration daemon (src/lib/confd/client.py,
      src/lib/confd/__init__.py)

    A client sends a request to several master candidates and hands their
    replies to a callback, until the request expires.  The state is the table of
    outstanding requests, in the order of the dictionary, the queue of datagrams
    and the state of the callback.  Signing and checking a message is that of
    serializer.py, which is a parameter, as is the shuffling of the peers.
    Clock readings are inputs; datagrams that arrive are a list. *)

From Stdlib Require Import QArith.
From S2P Require Import Prelude Errors PyStr Mcpu Retry Algo.
#[local] Open Scope list_scope.
#[local] Open Scope stdpp_scope.
#[local] Open Scope nat_scope.

(** ** The wire format *)

Definition FOURCC_LEN : nat := 4.
Definition CONFD_MAGIC_FOURCC : str := lit "plj0".

Definition PackMagic (payload : str) : str := CONFD_MAGIC_FOURCC ++ payload.

Definition Magic_error : exn := GntExn ConfdMagicError [].

Definition UnpackMagic (payload : str) : exc str :=
  if decide (length payload < FOURCC_LEN) then Raise Magic_error
  else if decide (take FOURCC_LEN payload = CONFD_MAGIC_FOURCC) then Ok (drop FOURCC_LEN payload)
  else Raise Magic_error.

(** ** Requests and replies *)

Definition CONFD_REQS : list Z := [0; 1; 2; 3; 4; 5; 6; 7; 9; 10; 11]%Z.
Definition CONFD_DEFAULT_REQ_COVERAGE : Z := 6.
Definition CONFD_CLIENT_EXPIRE_TIMEOUT : Q := 10.
Definition MAX_UDP_DATA_SIZE : nat := Z.to_nat 61440.

Definition Client_error : exn := GntExn ConfdClientError [].

(** [A]: the contents of queries and answers. *)
Record confd_request (A : Type) := ConfdRequest {
  rq_protocol : Z;
  rq_type : Z;
  rq_query : A;
  rq_rsalt : str
}.
Arguments ConfdRequest {A} _ _ _ _.
Arguments rq_protocol {A} _.
Arguments rq_type {A} _.
Arguments rq_query {A} _.
Arguments rq_rsalt {A} _.

Record confd_reply (A : Type) := ConfdReply {
  rp_protocol : Z;
  rp_status : Z;
  rp_answer : A;
  rp_serial : Z
}.
Arguments ConfdReply {A} _ _ _ _.
Arguments rp_protocol {A} _.
Arguments rp_status {A} _.
Arguments rp_answer {A} _.
Arguments rp_serial {A} _.

(** [ConfdUpcallPayload], by its type. *)
Inductive upcall (A X : Type) :=
| UPCALL_REPLY (salt : str) (request : confd_request A) (reply : confd_reply A)
    (ip : str) (port : Z) (args : X)
| UPCALL_EXPIRE (salt : str) (request : confd_request A) (args : X).
Arguments UPCALL_REPLY {A X} _ _ _ _ _ _.
Arguments UPCALL_EXPIRE {A X} _ _ _.

Definition up_salt {A X} (up : upcall A X) : str :=
  match up with UPCALL_REPLY salt _ _ _ _ _ | UPCALL_EXPIRE salt _ _ => salt end.

(** [_Request] *)
Record pending (A X : Type) := Pending {
  pd_request : confd_request A;
  pd_args : X;
  pd_expiry : Q;
  pd_sent : gset str;
  pd_rcvd : gset str
}.
Arguments Pending {A X} _ _ _ _ _.
Arguments pd_request {A X} _.
Arguments pd_args {A X} _.
Arguments pd_expiry {A X} _.
Arguments pd_sent {A X} _.
Arguments pd_rcvd {A X} _.

(** A datagram: peer, port, contents. *)
Notation datagram := (str * Z * str)%type.

(** What a poll of the socket ends with: its time is over, the reading of a
    datagram is interrupted by a signal or fails, or a datagram is read. *)
Inductive arrival := Quiet | ReadInterrupted | ReadFails (msg : string) | Arrives (d : datagram).

(** What sending a datagram ends with *)
Inductive delivery := Sent | SendInterrupted | SendFails (msg : string).

(** The client, its callback and its surroundings: [c_net] is what the next
    polls of the socket give, each after some time; [c_sent] what has gone
    out. *)
Record confd (A X C : Type) := Confd {
  c_peers : list str;
  c_requests : list (str * pending A X);
  c_out_queue : list datagram;
  c_callback : C;
  c_now : Q;
  c_net : list (Q * arrival);
  c_sent : list datagram
}.
Arguments Confd {A X C} _ _ _ _ _ _ _.
Arguments c_peers {A X C} _.
Arguments c_requests {A X C} _.
Arguments c_out_queue {A X C} _.
Arguments c_callback {A X C} _.
Arguments c_now {A X C} _.
Arguments c_net {A X C} _.
Arguments c_sent {A X C} _.

(** Dictionaries in insertion order. *)
Definition get {V} (k : str) (d : list (str * V)) : option V :=
  snd <$> head (filter (λ p, p.1 = k) d).
Definition del {V} (k : str) (d : list (str * V)) : list (str * V) :=
  filter (λ p, p.1 ≠ k) d.
Definition upd {V} (k : str) (f : V → V) (d : list (str * V)) : list (str * V) :=
  (λ p, if decide (p.1 = k) then (p.1, f p.2) else p) <$> d.

Section client.
  Context {A X C : Type}.
  (** The callback, as a function on its state. *)
  Context (callback : upcall A X → C → exc unit * C).
  (** [serializer.DumpSignedJson] and [LoadSignedJson] with the client's key,
      on requests and replies. *)
  Context (DumpSigned : confd_request A → Z → str) (LoadSigned : str → exc (confd_reply A * str)).
  Context (confd_port : Z) (logger : bool).
  (** [socket.sendto], from what has gone out before *)
  Context (sendto : list datagram → datagram → delivery).
  Notation client := (confd A X C).

Definition set_requests (d : list (str * pending A X)) (w : client) : client :=
  Confd (c_peers w) d (c_out_queue w) (c_callback w) (c_now w) (c_net w) (c_sent w).
Definition set_callback (c : C) (w : client) : client :=
  Confd (c_peers w) (c_requests w) (c_out_queue w) c (c_now w) (c_net w) (c_sent w).
Definition set_peers (l : list str) (w : client) : client :=
  Confd l (c_requests w) (c_out_queue w) (c_callback w) (c_now w) (c_net w) (c_sent w).

(** [UDPClient.enqueue_send] and [flush_send_queue] *)
Definition enqueue_send (ip : str) (port : Z) (payload : str) (w : client) : exc client :=
  if decide (MAX_UDP_DATA_SIZE < length payload) then Raise (GntExn UdpDataSizeError [])
  else Ok (Confd (c_peers w) (c_requests w) (c_out_queue w ++ [(ip, port, payload)])
             (c_callback w) (c_now w) (c_net w) (c_sent w)).

Definition set_queue (queue sent : list datagram) (w : client) : client :=
  Confd (c_peers w) (c_requests w) queue (c_callback w) (c_now w) (c_net w) sent.

(** A datagram leaves the queue before it is sent; [utils.IgnoreSignals] ignores an
    interruption. *)
Fixpoint flush_send_queue (queue : list datagram) (w : client) : exc unit * client :=
  match queue with
  | [] => (Ok tt, set_queue [] (c_sent w) w)
  | d :: queue =>
      match sendto (c_sent w) d with
      | Sent => flush_send_queue queue (set_queue queue (c_sent w ++ [d]) w)
      | SendInterrupted => flush_send_queue queue (set_queue queue (c_sent w) w)
      | SendFails msg => (Raise (PyExn EnvironmentError msg), set_queue queue (c_sent w) w)
      end
  end.

Definition FlushSendQueue (w : client) : exc unit * client := flush_send_queue (c_out_queue w) w.

Definition PackRequest (request : confd_request A) (now : Q) : str :=
  PackMagic (DumpSigned request (Qround.Qfloor now)).

Definition UnpackReply (payload : str) : exc (confd_reply A * str) :=
  let* in_payload := UnpackMagic payload in
  LoadSigned in_payload.

Definition call_back (up : upcall A X) (w : client) : exc unit * client :=
  let '(r, c) := callback up (c_callback w) in (r, set_callback c w).

(** [ExpireRequests]: over a copy of the table. *)
Fixpoint expire_loop (items : list (str * pending A X)) (w : client) : exc unit * client :=
  match items with
  | [] => (Ok tt, w)
  | (rsalt, rq) :: items =>
      if Qle_bool (pd_expiry rq) (c_now w) then
        let w := set_requests (del rsalt (c_requests w)) w in
        match call_back (UPCALL_EXPIRE rsalt (pd_request rq) (pd_args rq)) w with
        | (Ok _, w) => expire_loop items w
        | (Raise e, w) => (Raise e, w)
        end
      else expire_loop items w
  end.

Definition ExpireRequests (w : client) : exc unit * client := expire_loop (c_requests w) w.

(** The loop over the targets *)
Fixpoint enqueue_all (targets : list str) (payload : str) (w : client) : exc unit * client :=
  match targets with
  | [] => (Ok tt, w)
  | target :: targets =>
      match enqueue_send target confd_port payload w with
      | Ok w => enqueue_all targets payload w
      | Raise _ => (Raise Client_error, w)
      end
  end.

Definition SendRequest (shuffle : list str → list str) (request : confd_request A) (args : X)
    (coverage : Z) (w : client) : exc unit * client :=
  let n := Z.of_nat (length (c_peers w)) in
  let coverage :=
    if (coverage =? 0)%Z then Z.min n CONFD_DEFAULT_REQ_COVERAGE
    else if (coverage =? -1)%Z then n else coverage in
  if (n <? coverage)%Z then (Raise Client_error, w)
  else match rq_rsalt request with
  | [] => (Raise Client_error, w)
  | _ =>
      match ExpireRequests w with
      | (Raise e, w) => (Raise e, w)
      | (Ok _, w) =>
          if bool_decide (is_Some (get (rq_rsalt request) (c_requests w))) then (Raise Client_error, w)
          else if bool_decide (rq_type request ∉ CONFD_REQS) then (Raise Client_error, w)
          else
            let w := set_peers (shuffle (c_peers w)) w in
            let targets := take (slice_pos (length (c_peers w)) coverage) (c_peers w) in
            let payload := PackRequest request (c_now w) in
            match enqueue_all targets payload w with
            | (Raise e, w) => (Raise e, w)
            | (Ok _, w) =>
                let rq := Pending request args (c_now w + CONFD_CLIENT_EXPIRE_TIMEOUT)
                            (list_to_set targets) ∅ in
                FlushSendQueue (set_requests (c_requests w ++ [(rq_rsalt request, rq)]) w)
            end
      end
  end.

(** The body of [HandleResponse]: when a reply is unknown, the message for the
    logger refers to a variable that has no value. *)
Definition handle_reply (payload ip : str) (port : Z) (w : client) : exc unit * client :=
  match UnpackReply payload with
  | Raise (GntExn SignatureError _) | Raise (GntExn ConfdMagicError _) => (Ok tt, w)
  | Raise e => (Raise e, w)
  | Ok (answer, salt) =>
      match get salt (c_requests w) with
      | None => if logger then (Raise (PyExn UnboundLocalError "err"), w) else (Ok tt, w)
      | Some rq =>
          let add rq := Pending (pd_request rq) (pd_args rq) (pd_expiry rq) (pd_sent rq)
                          ({[ip]} ∪ pd_rcvd rq) in
          call_back (UPCALL_REPLY salt (pd_request rq) answer ip port (pd_args rq))
            (set_requests (upd salt add (c_requests w)) w)
      end
  end.

(** [try: ... finally: self.ExpireRequests()] *)
Definition HandleResponse (payload ip : str) (port : Z) (w : client) : exc unit * client :=
  let '(r, w) := handle_reply payload ip port w in
  match ExpireRequests w with
  | (Ok _, w) => (r, w)
  | (Raise e, w) => (Raise e, w)
  end.

(** [ReceiveReply]: when nothing is to come the poll takes its full time. *)
Definition ReceiveReply (timeout : Q) (w : client) : exc bool * client :=
  let arrive d net :=
    Confd (c_peers w) (c_requests w) (c_out_queue w) (c_callback w) (c_now w + d) net (c_sent w) in
  match c_net w with
  | [] => (Ok false, arrive timeout [])
  | (d, Quiet) :: net => (Ok false, arrive d net)
  | (d, ReadInterrupted) :: net => (Ok true, arrive d net)
  | (d, ReadFails msg) :: net => (Raise (PyExn EnvironmentError msg), arrive d net)
  | (d, Arrives (ip, port, payload)) :: net =>
      match HandleResponse payload ip port (arrive d net) with
      | (Ok _, w) => (Ok true, w)
      | (Raise e, w) => (Raise e, w)
      end
  end.

(** Enough replies for a number of peers *)
Definition NeededReplies (peer_cnt : nat) : nat :=
  if peer_cnt <? 3 then peer_cnt
  else if peer_cnt <? 5 then peer_cnt - 1
  else peer_cnt / 2 + 1.

(** What [WaitForReply] returns: timed out, sent, received *)
Notation counts := (bool * nat * nat)%type.
Definition MISSING : counts := (true, 0, 0).

Definition CheckResponse (salt : str) (expected : nat) (w : client) : call counts * client :=
  match get salt (c_requests w) with
  | None => (CReturn MISSING, w)
  | Some rq =>
      if expected <=? size (pd_rcvd rq)
      then (CReturn (false, size (pd_sent rq), size (pd_rcvd rq)), w)
      else match ReceiveReply 1 w with
      | (Ok _, w) => (CAgain [], w)
      | (Raise e, w) => (CRaise e, w)
      end
  end.

(** [None]: out of fuel *)
Definition WaitForReply (fuel : nat) (salt : str) (timeout : Q) (w : client)
    : option (exc counts * client) :=
  match get salt (c_requests w) with
  | None => Some (Ok MISSING, w)
  | Some rq =>
      let extend rq := Pending (pd_request rq) (pd_args rq) (pd_expiry rq + timeout)
                         (pd_sent rq) (pd_rcvd rq) in
      let w := set_requests (upd salt extend (c_requests w)) w in
      let expected := NeededReplies (size (pd_sent rq)) in
      match Retry c_now (λ _ w, w) (CheckResponse salt expected) fuel (DNumber 0) timeout w with
      | None => None
      | Some (RReturn v, w) => Some (Ok v, w)
      | Some (RRaise e, w) => Some (Raise e, w)
      | Some (RTimeout _, w) =>
          Some (Ok (match get salt (c_requests w) with
                    | Some rq => (true, size (pd_sent rq), size (pd_rcvd rq))
                    | None => MISSING
                    end), w)
      end
  end.
End client.

(** ** Callbacks *)

(** Each callback wraps another one, which has the state [C]. *)
Section callbacks.
  Context {A X C : Type} `{!EqDecision A} (callback : upcall A X → C → exc unit * C).

(** [ConfdFilterCallback] *)
Record filter_cb := FilterCb {
  f_answers : gmap str (confd_reply A);
  f_consistent : gmap str bool;
  f_callback : C
}.

Definition filter_expire (salt : str) (f : filter_cb) : filter_cb :=
  FilterCb (delete salt (f_answers f)) (delete salt (f_consistent f)) (f_callback f).

(** [_HandleReply]: whether to filter the reply *)
Definition filter_reply (salt : str) (reply : confd_reply A) (f : filter_cb) : filter_cb * bool :=
  let consistent :=
    match f_consistent f !! salt with
    | None => <[salt := true]> (f_consistent f)
    | Some _ => f_consistent f
    end in
  match f_answers f !! salt with
  | None => (FilterCb (<[salt := reply]> (f_answers f)) consistent (f_callback f), false)
  | Some old =>
      if (rp_serial old <? rp_serial reply)%Z then
        (FilterCb (<[salt := reply]> (f_answers f)) consistent (f_callback f),
         bool_decide (rp_answer reply = rp_answer old))
      else if (rp_serial reply =? rp_serial old)%Z && bool_decide (rp_answer reply ≠ rp_answer old)
      then (FilterCb (f_answers f) (<[salt := false]> consistent) (f_callback f), true)
      else (FilterCb (f_answers f) consistent (f_callback f), true)
  end.

Definition ConfdFilterCallback (up : upcall A X) (f : filter_cb) : exc unit * filter_cb :=
  let '(f, filter_upcall) :=
    match up with
    | UPCALL_REPLY salt _ reply _ _ _ => filter_reply salt reply f
    | UPCALL_EXPIRE salt _ _ => (filter_expire salt f, false)
    end in
  if filter_upcall then (Ok tt, f)
  else let '(r, c) := callback up (f_callback f) in
       (r, FilterCb (f_answers f) (f_consistent f) c).

(** [ConfdCountingCallback] *)
Record counting_cb := CountingCb { n_answers : gmap str Z; n_callback : C }.

Definition RegisterQuery (salt : str) (n : counting_cb) : exc counting_cb :=
  match n_answers n !! salt with
  | Some _ => Raise (GntExn ProgrammerError [])
  | None => Ok (CountingCb (<[salt := 0%Z]> (n_answers n)) (n_callback n))
  end.

Definition AllAnswered (n : counting_cb) : bool :=
  bool_decide (map_Forall (λ _ v, v ≠ 0%Z) (n_answers n)).

Definition ConfdCountingCallback (up : upcall A X) (n : counting_cb) : exc unit * counting_cb :=
  let answers :=
    match up with
    | UPCALL_REPLY salt _ _ _ _ _ => alter (Z.add 1) salt (n_answers n)
    | UPCALL_EXPIRE salt _ _ => delete salt (n_answers n)
    end in
  let '(r, c) := callback up (n_callback n) in (r, CountingCb answers c).
End callbacks.
Arguments filter_cb A C : clear implicits.
Arguments counting_cb C : clear implicits.

(** [StoreResultCallback]: on expiry an entry goes only when it is
    [(False, None)], which is never stored. *)
Section store.
  Context {A X : Type}.

Definition GetResponse (salt : str) (answers : gmap str (bool * option (upcall A X)))
    : bool * option (upcall A X) :=
  default (false, None) (answers !! salt).

Definition StoreResultCallback (up : upcall A X) (answers : gmap str (bool * option (upcall A X)))
    : exc unit * gmap str (bool * option (upcall A X)) :=
  (Ok tt,
   match up with
   | UPCALL_REPLY salt _ _ _ _ _ => <[salt := (true, Some up)]> answers
   | UPCALL_EXPIRE salt _ _ =>
       match answers !! salt with
       | Some (false, None) => delete salt answers
       | _ => answers
       end
   end).
End store.
