(* ===== verification/ConfdProps.v ===== *)
(** * The client of the configuration daemon: what its users see

    Replies and the expiry of a request come in the right order; waiting for
    replies ends, with enough of them or because time is up; the filter passes
    on news only. *)

From Stdlib Require Import QArith Lqa Sorted.
From S2P Require Import Prelude Errors PyStr Mcpu Retry Algo Confd.
#[local] Open Scope list_scope.
#[local] Open Scope stdpp_scope.
#[local] Open Scope nat_scope.

(** ** Dictionaries *)

Section dict.
  Context {V : Type}.
  Implicit Types (d : list (str * V)) (k : str).

Lemma get_cons k k' v d : get k ((k', v) :: d) = if decide (k' = k) then Some v else get k d.
Proof. unfold get. rewrite filter_cons. simpl. by case_decide. Qed.

Lemma get_del k k' d : get k (del k' d) = if decide (k = k') then None else get k d.
Proof.
  induction d as [|[k1 v] d IH]; [by case_decide|]. unfold del in *.
  destruct (decide (k1 = k')) as [->|Hk].
  - rewrite filter_cons_False, IH, get_cons by (simpl; auto). repeat case_decide; congruence.
  - rewrite filter_cons_True, !get_cons, IH by done. repeat case_decide; congruence.
Qed.

Lemma get_upd k k' f d : get k (upd k' f d) = if decide (k = k') then f <$> get k d else get k d.
Proof.
  induction d as [|[k1 v] d IH]; [by case_decide|]. unfold upd in *. csimpl.
  destruct (decide (k1 = k')); simpl; rewrite !get_cons, IH; repeat case_decide; csimpl; congruence.
Qed.

Lemma get_snoc k k' v d : get k (d ++ [(k', v)]) =
  match get k d with Some x => Some x | None => if decide (k' = k) then Some v else None end.
Proof.
  induction d as [|[k1 v1] d IH]; cbn [app]; rewrite !get_cons; [done|]. rewrite IH. by destruct (decide (k1 = k)).
Qed.

Lemma get_elem k d : is_Some (get k d) ↔ k ∈ d.*1.
Proof.
  induction d as [|[k1 v1] d IH]; csimpl.
  - split; [by intros [? [=]]|by intros ?%not_elem_of_nil].
  - rewrite get_cons, elem_of_cons, <-IH. case_decide; naive_solver.
Qed.

Lemma del_NoDup k d : NoDup d.*1 → NoDup (del k d).*1.
Proof. intros Hd. eapply sublist_NoDup; [exact Hd|]. apply fmap_sublist, sublist_filter. Qed.

Lemma upd_keys k f d : (upd k f d).*1 = d.*1.
Proof. unfold upd. rewrite <-list_fmap_compose. apply list_fmap_ext. intros i x _. simpl. by case_decide. Qed.
End dict.

(** ** Order of events *)

Section protocol.
  Context {A X : Type} (DumpSigned : confd_request A → Z → str)
    (LoadSigned : str → exc (confd_reply A * str)) (confd_port : Z) (logger : bool)
    (sendto : list datagram → datagram → delivery).

Inductive event := ESent (salt : str) | EUp (up : upcall A X).

(** The callback keeps a record. *)
Definition record_up (up : upcall A X) (tr : list event) : exc unit * list event :=
  (Ok tt, tr ++ [EUp up]).

Notation client := (confd A X (list event)).

(** Whether the request with a salt is open after an event, from whether it was
    before; [None] when the event may not happen then. *)
Definition step (s : str) (open : option bool) (ev : event) : option bool :=
  match open with
  | None => None
  | Some o =>
      match ev with
      | ESent s' => if decide (s' = s) then if o then None else Some true else Some o
      | EUp (UPCALL_REPLY s' _ _ _ _ _) =>
          if decide (s' = s) then if o then Some true else None else Some o
      | EUp (UPCALL_EXPIRE s' _ _) =>
          if decide (s' = s) then if o then Some false else None else Some o
      end
  end.

Definition open_after (tr : list event) (s : str) : option bool := foldl (step s) (Some false) tr.

Inductive op :=
| OClock (now : Q)
| OSend (shuffle : list str → list str) (request : confd_request A) (args : X) (coverage : Z)
| OExpire
| OReceive (timeout : Q)
| OWait (fuel : nat) (salt : str) (timeout : Q).

(** A request that was noted in the table counts as sent, also when the operating
    system then refuses to send a datagram. *)
Definition run_call (o : op) (w : client) : client :=
  match o with
  | OClock now => Confd (c_peers w) (c_requests w) (c_out_queue w) (c_callback w) now (c_net w) (c_sent w)
  | OSend shuffle request args coverage =>
      match SendRequest record_up DumpSigned confd_port sendto shuffle request args coverage w with
      | (Ok _, w) | (Raise (PyExn EnvironmentError _), w) =>
          set_callback (c_callback w ++ [ESent (rq_rsalt request)]) w
      | (Raise _, w) => w
      end
  | OExpire => (ExpireRequests record_up w).2
  | OReceive timeout => (ReceiveReply record_up LoadSigned logger timeout w).2
  | OWait fuel salt timeout =>
      match WaitForReply record_up LoadSigned logger fuel salt timeout w with
      | Some (_, w) => w
      | None => w
      end
  end.

Definition start (peers : list str) (net : list (Q * arrival)) : client :=
  Confd peers [] [] [] 0 net [].

(** The table of requests agrees with what has happened. *)
Record agrees (w : client) : Prop := {
  ag_nodup : NoDup (c_requests w).*1;
  ag_open s : open_after (c_callback w) s = Some (bool_decide (is_Some (get s (c_requests w))))
}.

Lemma open_snoc tr ev s : open_after (tr ++ [ev]) s = step s (open_after tr s) ev.
Proof. unfold open_after. by rewrite foldl_snoc. Qed.

Lemma agrees_same w w' :
  agrees w → c_requests w' = c_requests w → c_callback w' = c_callback w → agrees w'.
Proof. intros [H1 H2] E1 E2. split; [by rewrite E1|]. intros s. by rewrite E2, H2, E1. Qed.

Lemma agrees_expire w rsalt rq :
  agrees w → is_Some (get rsalt (c_requests w)) →
  agrees (call_back record_up (UPCALL_EXPIRE rsalt (pd_request rq) (pd_args rq))
    (set_requests (del rsalt (c_requests w)) w)).2.
Proof.
  intros [H1 H2] Hs. split; simpl; [by apply del_NoDup|]. intros s.
  rewrite open_snoc, H2, get_del. simpl. repeat case_decide; subst; try done.
  by rewrite bool_decide_true.
Qed.

Lemma agrees_reply w salt rq reply ip port f :
  agrees w → get salt (c_requests w) = Some rq →
  agrees (call_back record_up (UPCALL_REPLY salt (pd_request rq) reply ip port (pd_args rq))
    (set_requests (upd salt f (c_requests w)) w)).2.
Proof.
  intros [H1 H2] Hs. split; simpl; [by rewrite upd_keys|]. intros s.
  rewrite open_snoc, H2, get_upd. simpl. repeat case_decide; subst; try done.
  by rewrite Hs.
Qed.

Lemma expire_loop_agrees items : ∀ w,
  agrees w → NoDup items.*1 → (∀ s, s ∈ items.*1 → is_Some (get s (c_requests w))) →
  agrees (expire_loop record_up items w).2.
Proof.
  induction items as [|[rsalt rq] items IH]; intros w Hw Hnd Hin; [done|].
  cbn [expire_loop]. csimpl in *. apply NoDup_cons in Hnd as [Hn Hnd].
  destruct (Qle_bool _ _).
  - apply IH; [|done|].
    + apply agrees_expire; [done|]. apply Hin. by left.
    + intros s Hs. simpl. rewrite get_del, decide_False by (by intros ->). apply Hin. by right.
  - apply IH; [done..|]. intros s Hs. apply Hin. by right.
Qed.

Lemma ExpireRequests_agrees w : agrees w → agrees (ExpireRequests record_up w).2.
Proof.
  intros Hw. apply expire_loop_agrees; [done|apply Hw|]. intros s. apply get_elem.
Qed.

Lemma expire_loop_Ok items : ∀ w : client, (expire_loop record_up items w).1 = Ok tt.
Proof.
  induction items as [|[rsalt rq] items IH]; intros w; [done|]. cbn [expire_loop].
  destruct (Qle_bool _ _); [|apply IH]. apply IH.
Qed.

Lemma HandleResponse_agrees payload ip port w :
  agrees w → agrees (HandleResponse record_up LoadSigned logger payload ip port w).2.
Proof.
  intros Hw. unfold HandleResponse.
  assert (agrees (handle_reply record_up LoadSigned logger payload ip port w).2) as Hh.
  { unfold handle_reply. destruct (UnpackReply _ _) as [[reply salt]|[|c args]]; [|done|].
    - destruct (get salt _) as [rq|] eqn:E; [by apply agrees_reply|by destruct logger].
    - by destruct c. }
  destruct (handle_reply _ _ _ _ _ _ _) as [r w1]. simpl in Hh.
  apply ExpireRequests_agrees in Hh. by destruct (ExpireRequests record_up w1) as [[|] w2].
Qed.

Lemma ReceiveReply_agrees timeout w :
  agrees w → agrees (ReceiveReply record_up LoadSigned logger timeout w).2.
Proof.
  intros Hw. unfold ReceiveReply. destruct (c_net w) as [|[d [| |msg|[[ip port] payload]]] net].
  1, 2, 3, 4: by eapply agrees_same.
  match goal with |- context [HandleResponse _ _ _ _ _ _ ?x] =>
    pose proof (HandleResponse_agrees payload ip port x) as Hh end.
  destruct (HandleResponse _ _ _ _ _ _ _) as [[|] w1]; simpl in *; by apply Hh; eapply agrees_same.
Qed.

Lemma CheckResponse_agrees salt n w :
  agrees w → agrees (CheckResponse record_up LoadSigned logger salt n w).2.
Proof.
  intros Hw. unfold CheckResponse. destruct (get salt _) as [rq|]; [|done].
  destruct (n <=? _); [done|]. apply (ReceiveReply_agrees 1) in Hw.
  by destruct (ReceiveReply _ _ _ _ _) as [[|] w1].
Qed.

Lemma WaitForReply_agrees fuel salt timeout w r w' :
  agrees w → WaitForReply record_up LoadSigned logger fuel salt timeout w = Some (r, w') → agrees w'.
Proof.
  intros Hw. unfold WaitForReply. destruct (get salt _) as [rq|] eqn:E; [|by intros [= <- <-]].
  match goal with |- context [Retry _ _ ?fn _ _ _ ?w0] =>
    assert (agrees w0) as Hw0; [|assert (∀ r0 w1, Retry c_now (λ _ w, w) fn fuel (DNumber 0) timeout w0
      = Some (r0, w1) → agrees w1) as Hret] end.
  { split; simpl; [rewrite upd_keys; apply Hw|]. intros s. rewrite (ag_open _ Hw), get_upd.
    case_decide; [subst; by rewrite E|done]. }
  { intros r0 w1 Hr. unfold Retry in Hr. cbn [make_calc] in Hr.
    eapply retry_loop_keeps; [..|exact Hw0|exact Hr]; [|done]. intros ?. apply CheckResponse_agrees. }
  destruct (Retry _ _ _ _ _ _ _) as [[[|?|?] w1]|] eqn:Er; [..|done]; intros [= <- <-]; by eapply Hret.
Qed.

Lemma enqueue_all_same targets payload : ∀ (w : client) r w',
  enqueue_all confd_port targets payload w = (r, w') →
  c_requests w' = c_requests w ∧ c_callback w' = c_callback w.
Proof.
  induction targets as [|t targets IH]; intros w r w'; simpl; [by intros [= <- <-]|].
  unfold enqueue_send. case_decide; [by intros [= <- <-]|]. intros [E1 E2]%IH. done.
Qed.

Lemma flush_same queue : ∀ (w : client) r w',
  flush_send_queue sendto queue w = (r, w') →
  c_requests w' = c_requests w ∧ c_callback w' = c_callback w ∧
  (r = Ok tt ∨ ∃ msg, r = Raise (PyExn EnvironmentError msg)).
Proof.
  induction queue as [|d queue IH]; intros w r w'; cbn [flush_send_queue]; [intros [= <- <-]; eauto|].
  destruct (sendto _ _); [intros (E1 & E2 & Hr)%IH; done..|intros [= <- <-]; eauto].
Qed.

(** Nothing before the datagrams are sent raises an error of the system. *)
Lemma enqueue_all_raises targets payload : ∀ (w : client) e w',
  enqueue_all confd_port targets payload w = (Raise e, w') → e = Client_error.
Proof.
  induction targets as [|t targets IH]; intros w e w'; simpl; [done|].
  unfold enqueue_send. case_decide; [by intros [= <- <-]|apply IH].
Qed.

Lemma agrees_sent w w' salt rq :
  agrees w → get salt (c_requests w) = None → c_requests w' = c_requests w ++ [(salt, rq)] →
  c_callback w' = c_callback w → agrees (set_callback (c_callback w' ++ [ESent salt]) w').
Proof.
  intros [Hnd Ho] Hg E1 E2. split; simpl.
  - rewrite E1, fmap_app. apply NoDup_app. split_and!; [done| |apply NoDup_singleton].
    intros s Hs ->%list_elem_of_singleton. apply get_elem in Hs as [x Hx]. simpl in Hx. congruence.
  - intros s. rewrite open_snoc, E2, Ho, E1, get_snoc. simpl.
    destruct (get s (c_requests w)) eqn:E; case_decide; subst; try done. congruence.
Qed.

Lemma SendRequest_agrees shuffle request args coverage w :
  agrees w → agrees (run_call (OSend shuffle request args coverage) w).
Proof.
  intros Hw. unfold run_call, SendRequest. destruct (_ <? _)%Z; [done|].
  destruct (rq_rsalt request) as [|a salt] eqn:Es; [done|]. rewrite <-Es.
  pose proof (ExpireRequests_agrees w Hw) as He. pose proof (expire_loop_Ok (c_requests w) w) as HOk.
  unfold ExpireRequests in *. destruct (expire_loop record_up _ w) as [u w1]; simpl in He, HOk. subst u.
  case_bool_decide as Hg; [done|]. case_bool_decide; [done|].
  destruct (enqueue_all _ _ _ _) as [[u2|e] w2] eqn:Eq.
  2: { pose proof (enqueue_all_raises _ _ _ _ _ Eq) as ->. apply enqueue_all_same in Eq as [E1 E2]. by eapply agrees_same. }
  apply enqueue_all_same in Eq as [E1 E2]. simpl in E1, E2. unfold FlushSendQueue.
  destruct (flush_send_queue _ _ _) as [r w3] eqn:Ef. apply flush_same in Ef as (F1 & F2 & Hr). simpl in F1, F2.
  assert (agrees (set_callback (c_callback w3 ++ [ESent (rq_rsalt request)]) w3)) as Hsent.
  { eapply (agrees_sent w1); [done|by apply eq_None_not_Some|by rewrite F1, E1|by rewrite F2, E2]. }
  by destruct Hr as [->|[msg ->]].
Qed.

(** C26: the client's protocol.  Whatever is sent, received and waited for, and
    whatever the clock does, the events of a request come in order: it is sent,
    then its callback gets replies, then at most one expiry, after which there
    is nothing more until the salt is used again; and the table holds exactly
    the requests that are still open. *)
Theorem confd_protocol (peers : list str) (net : list (Q * arrival)) (ops : list op) (s : str) :
  let w := foldl (λ w o, run_call o w) (start peers net) ops in
  open_after (c_callback w) s = Some (bool_decide (is_Some (get s (c_requests w)))).
Proof.
  simpl. apply ag_open. induction ops as [|o ops IH] using rev_ind.
  - split; simpl; [constructor|]. done.
  - rewrite foldl_snoc. destruct o as [now|shuffle request args coverage| |timeout|fuel salt timeout].
    + by eapply agrees_same.
    + by apply SendRequest_agrees.
    + by apply ExpireRequests_agrees.
    + by apply ReceiveReply_agrees.
    + cbn [run_call]. destruct (WaitForReply _ _ _ _ _ _ _) as [[r w']|] eqn:E; [|done].
      by eapply WaitForReply_agrees.
Qed.
End protocol.

(** ** Waiting *)

(** More than half of the peers. *)
Lemma NeededReplies_majority n : 1 ≤ n → NeededReplies n ≤ n ∧ n < 2 * NeededReplies n.
Proof.
  intros Hn. unfold NeededReplies. destruct (Nat.ltb_spec n 3); [lia|].
  destruct (Nat.ltb_spec n 5); [lia|]. pose proof (Nat.div_mod_eq n 2).
  pose proof (Nat.mod_upper_bound n 2). lia.
Qed.

(** Four peers need three replies; the documentation of the function says
    two. *)
Lemma NeededReplies_4 : NeededReplies 4 = 3.
Proof. done. Qed.

Section waiting.
  Context {A X C : Type} (callback : upcall A X → C → exc unit * C)
    (LoadSigned : str → exc (confd_reply A * str)) (logger : bool).
  Context (salt : str) (sent : gset str).
  Notation client := (confd A X C).

(** From [w] on, waiting: clock and network stay, and the request, if it is
    still there, was sent to the same peers. *)
Definition waits (w w' : client) : Prop :=
  c_now w' = c_now w ∧ c_net w' = c_net w ∧
  ((∀ rq, get salt (c_requests w) = Some rq → pd_sent rq = sent) →
   ∀ rq, get salt (c_requests w') = Some rq → pd_sent rq = sent).

#[local] Instance waits_preorder : PreOrder waits.
Proof.
  split; [by intros w|]. intros w1 w2 w3 (E1 & E2 & H1) (E3 & E4 & H2).
  split_and!; [congruence..|]. auto.
Qed.

Lemma call_back_waits up w : waits w (call_back callback up w).2.
Proof. unfold call_back. by destruct (callback _ _). Qed.

Lemma del_waits k w : waits w (set_requests (del k (c_requests w)) w).
Proof. split_and!; [done..|]. intros Hs rq. simpl. rewrite get_del. case_decide; [done|auto]. Qed.

Lemma expire_loop_waits items : ∀ w, waits w (expire_loop callback items w).2.
Proof.
  induction items as [|[k rq] items IH]; intros w; [done|]. cbn [expire_loop].
  destruct (Qle_bool _ _); [|apply IH].
  match goal with |- context [call_back callback ?up ?x] => pose proof (call_back_waits up x) as Hc;
    pose proof (del_waits k w) as Hd; destruct (call_back callback up x) as [[u|e] w1] end;
    simpl in Hc |- *; (etrans; [exact Hd|]); (etrans; [exact Hc|]); [apply IH|done].
Qed.

Lemma HandleResponse_waits payload ip port w :
  waits w (HandleResponse callback LoadSigned logger payload ip port w).2.
Proof.
  unfold HandleResponse.
  assert (waits w (handle_reply callback LoadSigned logger payload ip port w).2) as Hh.
  { unfold handle_reply. destruct (UnpackReply _ _) as [[reply s]|[|c args]]; [|done|by destruct c].
    destruct (get s _) as [rq|] eqn:E; [|by destruct logger]. etrans; [|apply call_back_waits].
    split_and!; [done..|]. intros Hs rq'. simpl. rewrite get_upd. case_decide; [|auto].
    intros (rq0 & Hg & ->)%fmap_Some_1. simpl. auto. }
  destruct (handle_reply _ _ _ _ _ _ _) as [r w1]. simpl in Hh. etrans; [exact Hh|].
  pose proof (expire_loop_waits (c_requests w1) w1) as He. unfold ExpireRequests.
  by destruct (expire_loop _ _ _) as [[|] w2].
Qed.

(** One poll: an item of the network goes, or a second. *)
Lemma ReceiveReply_waits w r w' :
  Forall (λ p, 0 <= p.1)%Q (c_net w) → ReceiveReply callback LoadSigned logger 1 w = (r, w') →
  (c_now w <= c_now w')%Q ∧ c_net w' = tail (c_net w) ∧ (c_net w = [] → c_now w' == c_now w + 1)%Q ∧
  ((∀ rq, get salt (c_requests w) = Some rq → pd_sent rq = sent) →
   ∀ rq, get salt (c_requests w') = Some rq → pd_sent rq = sent).
Proof.
  intros Hd. unfold ReceiveReply. destruct (c_net w) as [|[d [| |msg|[[ip port] payload]]] net]; simpl.
  1: { intros [= <- <-]. simpl. split_and!; [lra|done|reflexivity|done]. }
  4: { apply Forall_cons in Hd as [Hd _]. simpl in Hd.
    match goal with |- context [HandleResponse _ _ _ _ _ _ ?x] =>
      pose proof (HandleResponse_waits payload ip port x) as (E1 & E2 & H3) end.
    destruct (HandleResponse _ _ _ _ _ _ _) as [[u|e] w1]; simpl in *; intros [= <- <-];
      rewrite E1; (split_and!; [lra|done|done|exact H3]). }
  all: apply Forall_cons in Hd as [Hd _]; simpl in Hd; intros [= <- <-]; simpl; (split_and!; [lra|done|done|done]).
Qed.

(** What the loop of [WaitForReply] ends with. *)
Definition waited (end_time : Q) (r : retry_result (bool * nat * nat)) (w : client) : Prop :=
  match r with
  | RReturn (timed_out, n, k) =>
      if timed_out : bool then get salt (c_requests w) = None ∧ n = 0 ∧ k = 0
      else ∃ rq, get salt (c_requests w) = Some rq ∧ n = size sent ∧ k = size (pd_rcvd rq) ∧
                 NeededReplies n ≤ k
  | RTimeout _ => (end_time <= c_now w)%Q
  | RRaise _ => True
  end.

Lemma wait_loop_ends end_time fuel : ∀ n w,
  length (c_net w) + n < fuel → (end_time - c_now w <= inject_Z (Z.of_nat n))%Q →
  Forall (λ p, 0 <= p.1)%Q (c_net w) →
  (∀ rq, get salt (c_requests w) = Some rq → pd_sent rq = sent) →
  ∃ r w', retry_loop c_now (λ _ w, w)
            (CheckResponse callback LoadSigned logger salt (NeededReplies (size sent)))
            fuel end_time (KNumber 0) w = Some (r, w') ∧ waited end_time r w' ∧
    (∀ rq, get salt (c_requests w') = Some rq → pd_sent rq = sent).
Proof.
  induction fuel as [|fuel IH]; intros n w Hn Hend Hnet Hs; [lia|]. cbn [retry_loop].
  destruct (CheckResponse _ _ _ _ _ _) as [rc w1] eqn:Ec. unfold CheckResponse in Ec.
  destruct (get salt (c_requests w)) as [rq|] eqn:Eg.
  2: { injection Ec as <- <-. exists (RReturn MISSING), w. split; [done|]. split; [done|].
       by rewrite Eg. }
  destruct (NeededReplies (size sent) <=? size (pd_rcvd rq)) eqn:Ele.
  { injection Ec as <- <-. eexists _, w. split; [done|]. rewrite Eg. split; [|done].
    exists rq. rewrite (Hs rq eq_refl). apply Nat.leb_le in Ele. done. }
  destruct (ReceiveReply _ _ _ _ _) as [rr w2] eqn:Er.
  apply ReceiveReply_waits in Er as (Hnow & Enet & Hone & Hs2); [|done].
  rewrite Eg in Hs2. specialize (Hs2 Hs).
  destruct rr as [b|e]; injection Ec as <- <-; [|by eexists _, w2].
  destruct (Qle_bool (end_time - c_now w2) 0) eqn:Et.
  { apply Qle_bool_iff in Et. eexists _, w2. split; [done|]. split; [simpl; lra|done]. }
  cbn [run_calc]. simpl.
  assert (¬ (end_time - c_now w2 <= 0)%Q) as Hlt by (intros H; apply Qle_bool_iff in H; congruence).
  destruct (c_net w) as [|p net] eqn:Enet0; simpl in Enet, Hn.
  - specialize (Hone eq_refl). destruct n as [|n].
    { change (inject_Z (Z.of_nat 0)) with 0%Q in Hend. destruct Hlt. lra. }
    apply (IH n); rewrite ?Enet; simpl; [lia| |done|done].
    rewrite Nat2Z.inj_succ in Hend. unfold Z.succ in Hend. rewrite inject_Z_plus in Hend.
    change (inject_Z 1) with 1%Q in Hend. lra.
  - apply (IH n); rewrite ?Enet; [lia|lra|by apply Forall_cons in Hnet as [_ ?]|done].
Qed.
End waiting.


(** ** Filtering *)

Section filtering.
  Context {A : Type} `{!EqDecision A}.
  Context (salt : str) (request : confd_request A) (ip : str) (port : Z).

(** The inner callback keeps the replies it gets. *)
Definition keep_replies (up : upcall A unit) (c : list (confd_reply A)) : exc unit * list (confd_reply A) :=
  (Ok tt, match up with UPCALL_REPLY _ _ r _ _ _ => c ++ [r] | UPCALL_EXPIRE _ _ _ => c end).

Definition feed1 (f : filter_cb A (list (confd_reply A))) (r : confd_reply A) :=
  (ConfdFilterCallback keep_replies (UPCALL_REPLY salt request r ip port tt) f).2.

Definition feed (rs : list (confd_reply A)) : filter_cb A (list (confd_reply A)) :=
  foldl feed1 (FilterCb ∅ ∅ []) rs.

(** News: a newer serial and another answer. *)
Definition news (a b : confd_reply A) : Prop :=
  (rp_serial a < rp_serial b)%Z ∧ rp_answer a ≠ rp_answer b.

Definition conflict (rs : list (confd_reply A)) : Prop :=
  ∃ a b, a ∈ rs ∧ b ∈ rs ∧ rp_serial a = rp_serial b ∧ rp_answer a ≠ rp_answer b.

(** What is known after the replies [rs]; [r] is the one on record. *)
Record filtered (rs : list (confd_reply A)) (r : confd_reply A)
    (f : filter_cb A (list (confd_reply A))) : Prop := {
  fl_record : f_answers f !! salt = Some r;
  fl_in : r ∈ rs;
  fl_max : Forall (λ a, rp_serial a ≤ rp_serial r)%Z rs;
  fl_sub : f_callback f `sublist_of` rs;
  fl_last : ∃ p, last (f_callback f) = Some p ∧ rp_answer p = rp_answer r ∧
                 (rp_serial p ≤ rp_serial r)%Z;
  fl_head : head (f_callback f) = head rs;
  fl_news : Sorted news (f_callback f);
  fl_consistent : ∃ b, f_consistent f !! salt = Some b ∧ (b = false → conflict rs) ∧
    (∀ a, a ∈ rs → rp_serial a = rp_serial r → rp_answer a ≠ rp_answer r → b = false)
}.

Lemma Sorted_snoc {B} (R : B → B → Prop) l x :
  Sorted R l → (∀ y, last l = Some y → R y x) → Sorted R (l ++ [x]).
Proof.
  induction l as [|a l IH]; intros Hl Hx; simpl; [by repeat constructor|].
  inversion Hl as [|? ? Hs Hh]; subst. constructor.
  - apply IH; [done|]. intros y Hy. apply Hx. by destruct l.
  - destruct l as [|b l]; simpl; constructor; [by apply Hx|by inversion Hh].
Qed.

Lemma conflict_mono rs x : conflict rs → conflict (rs ++ [x]).
Proof. intros (a & b & Ha & Hb & ?). exists a, b. set_solver. Qed.

Lemma filtered_first x : filtered [x] x (feed [x]).
Proof.
  unfold feed, feed1, ConfdFilterCallback, filter_reply. cbn [foldl f_answers f_consistent f_callback].
  rewrite !lookup_empty. cbn [keep_replies snd f_answers f_consistent f_callback].
  split; simpl; rewrite ?lookup_insert_eq; try done.
  - by left.
  - by repeat constructor.
  - by exists x.
  - by repeat constructor.
  - exists true. split_and!; [done..|]. intros a ->%list_elem_of_singleton. done.
Qed.

(** A newer reply goes on record, and up when its answer is another. *)
Lemma filtered_newer rs r f x :
  filtered rs r f → (rp_serial r < rp_serial x)%Z → filtered (rs ++ [x]) x (feed1 f x).
Proof.
  intros [Hr Hin Hmax Hsub (p & Hl & Hp & Hps) Hh Hn (b & Hb & Hbf & Hbt)] Hlt.
  unfold feed1, ConfdFilterCallback, filter_reply. rewrite Hr, Hb, (proj2 (Z.ltb_lt _ _) Hlt).
  assert (rs ≠ []) as Hne by (intros ->; by apply not_elem_of_nil in Hin).
  assert (f_callback f ≠ []) as Hne2 by (by intros E; rewrite E in Hl).
  rewrite Forall_forall in Hmax.
  assert (∀ a, a ∈ rs ++ [x] → rp_serial a = rp_serial x → a = x) as Hx.
  { intros a [Ha| ->%list_elem_of_singleton]%elem_of_app E; [|done]. specialize (Hmax a Ha). lia. }
  case_bool_decide as Ea; simpl; split; simpl; rewrite ?lookup_insert_eq; try done.
  all: try (apply elem_of_app; right; by left).
  all: try (apply Forall_app; split; [apply Forall_forall; intros a Ha; specialize (Hmax a Ha); lia|];
            by constructor).
  all: try (exists b; split_and!; [done|intros E; by apply conflict_mono, Hbf|];
            intros a Ha Es; rewrite (Hx a Ha Es); done).
  - by apply sublist_inserts_r.
  - exists p. split_and!; [done|congruence|lia].
  - rewrite Hh. by destruct rs.
  - by apply sublist_app.
  - exists x. by rewrite last_snoc.
  - destruct (f_callback f), rs; by simplify_eq/=.
  - apply Sorted_snoc; [done|]. intros y Hy. rewrite Hl in Hy. injection Hy as <-.
    split; [lia|congruence].
Qed.

(** An older one, or one of the same serial, does not. *)
Lemma filtered_older rs r f x :
  filtered rs r f → (rp_serial x ≤ rp_serial r)%Z → filtered (rs ++ [x]) r (feed1 f x).
Proof.
  intros [Hr Hin Hmax Hsub Hl Hh Hn (b & Hb & Hbf & Hbt)] Hle.
  unfold feed1, ConfdFilterCallback, filter_reply.
  rewrite Hr, Hb, (proj2 (Z.ltb_ge _ _) Hle).
  assert (rs ≠ []) as Hne by (intros ->; by apply not_elem_of_nil in Hin).
  destruct ((rp_serial x =? rp_serial r)%Z && bool_decide (rp_answer x ≠ rp_answer r)) eqn:E;
    simpl; split; simpl; rewrite ?lookup_insert_eq; try done.
  all: try (apply elem_of_app; by left).
  all: try (by apply Forall_app; split; [|constructor]).
  all: try (by apply sublist_inserts_r).
  all: try (rewrite Hh; by destruct rs).
  - apply andb_true_iff in E as [Es%Z.eqb_eq Ea%bool_decide_eq_true]. exists false.
    split_and!; [done| |done]. intros _. exists x, r. set_solver.
  - exists b. split_and!; [done|intros ?; by apply conflict_mono, Hbf|].
    intros a [Ha| ->%list_elem_of_singleton]%elem_of_app Es Ea; [by eapply Hbt|].
    rewrite Es, Z.eqb_refl, bool_decide_true in E by done. done.
Qed.

(** The filter.  After some replies to a query, the one on record is one
    with the highest serial; those passed on are some of the replies, in order,
    starting with the first, each with a newer serial and another answer than
    the one before, and the last of them has the answer on record.  Only
    replies with the same serial and different answers make the query
    inconsistent, and those with the serial on record do. *)
Theorem ConfdFilterCallback_correct (rs : list (confd_reply A)) :
  rs ≠ [] → ∃ r, filtered rs r (feed rs).
Proof.
  intros Hne. induction rs as [|x rs IH] using rev_ind; [done|].
  destruct rs as [|y rs]; [exists x; apply filtered_first|].
  destruct IH as (r & Hr); [done|]. unfold feed. rewrite foldl_snoc.
  destruct (decide (rp_serial r < rp_serial x)%Z).
  - exists x. by eapply filtered_newer.
  - exists r. apply filtered_older; [done|lia].
Qed.
End filtering.

(** ** Examples *)

Module ConfdDemo.

(** Messages that are not signed; the salt comes first. *)
Definition Load (s : str) : exc (confd_reply nat * str) :=
  match s with
  | a :: s => Ok (ConfdReply 1 0 7 1, [a])
  | [] => Raise (GntExn SignatureError [])
  end.

Definition demo : confd nat unit (gmap str (bool * option (upcall nat unit))) :=
  Confd [lit "n1"; lit "n2"] [(lit "s", Pending (ConfdRequest 1 3 0 (lit "s")) tt 10
    {[lit "n1"; lit "n2"]} ∅)] [] ∅ 0
    [((1#2)%Q, Arrives (lit "n2", 1814%Z, PackMagic (lit "s")));
     ((1#3)%Q, Quiet); ((1#4)%Q, Arrives (lit "n1", 1814%Z, PackMagic (lit "s")))] [].

Lemma demo_answered :
  fst <$> WaitForReply StoreResultCallback Load false 14 (lit "s") 10 demo = Some (Ok (false, 2, 2)).
Proof. vm_compute. reflexivity. Qed.


Lemma ConfdFilterCallback_correct_witness :
  ∃ r, filtered (lit "s") [ConfdReply 1 0 7 3; ConfdReply 1 0 8 4; ConfdReply 1 0 9 4] r
         (feed (lit "s") (ConfdRequest 1 3 0 (lit "s")) (lit "n1") 1814
            [ConfdReply 1 0 7 3; ConfdReply 1 0 8 4; ConfdReply 1 0 9 4]).
Proof. apply ConfdFilterCallback_correct. done. Defined.

(** A reply to an unknown request, with a logger, raises. *)
Lemma unknown_reply_raises (w : confd nat unit (gmap str (bool * option (upcall nat unit)))) :
  c_requests w = [] →
  (HandleResponse StoreResultCallback Load true (PackMagic (lit "x")) (lit "n1") 1814 w).1
    = Raise (PyExn UnboundLocalError "err").
Proof.
  intros E. unfold HandleResponse, handle_reply. simpl. rewrite E. simpl.
  unfold ExpireRequests. by rewrite E.
Qed.
End ConfdDemo.
