(* ===== verification/Version.v ===== *)
(** * Versions and small checks (src/lib/utils/version.py, src/lib/utils/lvm.py,
      src/lib/utils/tags.py)

    Version numbers as integers, tuples and texts, the rules for upgrades, the
    test for equal sizes of physical volumes and the tags that exclude. *)

From Stdlib Require Import QArith Lqa.
From S2P Require Import Prelude Errors PySort PyStr PyVal Mcpu.
#[local] Open Scope list_scope.
#[local] Open Scope stdpp_scope.
#[local] Open Scope py_scope.
#[local] Open Scope nat_scope.

Notation version3 := (Z * Z * Z)%type.

Definition FIRST_UPGRADE_VERSION : version3 := (2, 10, 0)%Z.

Definition BuildVersion (major minor revision : Z) : Z :=
  (1000000 * major + 10000 * minor + 1 * revision)%Z.

Definition SplitVersion (version : Z) : version3 :=
  let major := (version / 1000000)%Z in
  let remainder := (version mod 1000000)%Z in
  (major, remainder / 10000, remainder mod 10000)%Z.

(** [(\d+)\.(\d+)\.(\d+)] and [(\d+)\.(\d+)] at the beginning of the text. *)
Definition number_at (s : str) : option (N * str) :=
  match span is_digit s with
  | ([], _) => None
  | (ds, rest) => Some (val_from 0 ds, rest)
  end.

Definition dot_number (s : str) : option (N * str) :=
  match s with
  | a :: s => if decide (a = "."%char) then number_at s else None
  | [] => None
  end.

Definition ParseVersion (versionstring : str) : option version3 :=
  match number_at versionstring with
  | Some (major, s) =>
      match dot_number s with
      | Some (minor, s) =>
          match dot_number s with
          | Some (revision, _) => Some (Z.of_N major, Z.of_N minor, Z.of_N revision)
          | None => Some (Z.of_N major, Z.of_N minor, 0%Z)
          end
      | None => None
      end
  | None => None
  end.

(** Comparing tuples *)
Definition version_lt (a b : version3) : bool :=
  let '(a1, a2, a3) := a in let '(b1, b2, b3) := b in
  if (a1 =? b1)%Z then if (a2 =? b2)%Z then (a3 <? b3)%Z else (a2 <? b2)%Z else (a1 <? b1)%Z.

(** [None]: within the range; otherwise the first words of the message. *)
Definition UpgradeRange (target current : version3) : option string :=
  if version_lt target FIRST_UPGRADE_VERSION || version_lt current FIRST_UPGRADE_VERSION
  then Some "automatic upgrades"
  else
    let '(t1, t2, _) := target in let '(c1, c2, _) := current in
    if negb (t1 =? c1)%Z then
      if bool_decide ((c1, c2) = (2, 16)%Z ∧ (t1, t2) = (3, 0)%Z) then None
      else if bool_decide ((c1, c2) = (3, 0)%Z ∧ (t1, t2) = (2, 16)%Z) then None
      else Some "major version"
    else if (t2 <? c2 - 1)%Z then Some "can only downgrade"
    else None.

Definition ShouldCfgdowngrade (version current : version3) : bool :=
  let '(v1, v2, _) := version in let '(c1, c2, _) := current in
  (v1 =? c1)%Z && (v2 =? c2 - 1)%Z.

Definition IsCorrectConfigVersion (targetversion configversion : version3) : bool :=
  let '(t1, t2, _) := targetversion in let '(c1, c2, _) := configversion in
  (c1 =? t1)%Z && (c2 =? t2)%Z.

Definition IsBefore (version : option version3) (major minor revision : Z) : bool :=
  match version with None => true | Some v => version_lt v (major, minor, revision) end.

Definition IsEqual (version : option version3) (major minor : Z) (revision : option Z) : bool :=
  match version with
  | None => false
  | Some v =>
      match revision with
      | None => bool_decide (v.1 = (major, minor))
      | Some r => bool_decide (v = (major, minor, r))
      end
  end.

(** ** Physical volumes *)

Definition CheckVolumeGroupSize (vglist : gmap str Z) (vgname : str) (minsize : Z) : option string :=
  match vglist !! vgname with
  | None => Some "missing"
  | Some vgsize => if (vgsize <? minsize)%Z then Some "too small" else None
  end.

Definition PART_MARGIN : Q := 1 # 100.

(** On exact numbers. *)
Definition LvmExclusiveTestBadPvSizes (small big : Q) : bool :=
  negb (Qle_bool (big * (1 - PART_MARGIN)) (small * (1 + PART_MARGIN))).

(** The sizes of the volumes; [min] and [max] of nothing raise. *)
Definition LvmExclusiveCheckNodePvs (sizes : list Q) : exc (bool * (Q * Q)) :=
  match sizes with
  | [] => Raise Value_error
  | s :: sizes =>
      let small := foldl qmin s sizes in
      let big := foldl qmax s sizes in
      Ok (LvmExclusiveTestBadPvSizes small big, (small, big))
  end.

(** ** Tags *)

Definition EX_TAGS_PREFIX : str := lit "htools:iextags:".

Definition GetExclusionPrefixes (ctags : list str) : list str :=
  map (drop (length EX_TAGS_PREFIX)) (List.filter (prefix_of EX_TAGS_PREFIX) ctags).

Definition IsGoodTag (prefixes : list str) (tag : str) : bool :=
  existsb (λ prefix, prefix_of prefix tag) prefixes.

(** ** Properties *)

(** Version numbers as integers.  For minor versions below 100 and
    revisions below 10000 the parts can be read back, and the integers are
    ordered as the tuples are. *)
Theorem version_numbers (major minor revision major' minor' revision' : Z) :
  (0 ≤ minor < 100)%Z → (0 ≤ revision < 10000)%Z →
  (0 ≤ minor' < 100)%Z → (0 ≤ revision' < 10000)%Z →
  SplitVersion (BuildVersion major minor revision) = (major, minor, revision) ∧
  (BuildVersion major minor revision <? BuildVersion major' minor' revision')%Z
  = IsBefore (Some (major, minor, revision)) major' minor' revision'.
Proof.
  intros Hm Hr Hm' Hr'. split.
  - unfold SplitVersion, BuildVersion.
    assert ((1000000 * major + 10000 * minor + 1 * revision) / 1000000 = major)%Z as ->.
    { symmetry. apply (Z.div_unique_pos _ _ _ (10000 * minor + revision)); lia. }
    assert ((1000000 * major + 10000 * minor + 1 * revision) mod 1000000
      = 10000 * minor + revision)%Z as ->.
    { symmetry. apply (Z.mod_unique_pos _ _ major); lia. }
    f_equal; [f_equal|].
    + symmetry. apply (Z.div_unique_pos _ _ _ revision); lia.
    + symmetry. apply (Z.mod_unique_pos _ _ minor); lia.
  - unfold BuildVersion, IsBefore, version_lt.
    destruct (Z.eqb_spec major major'), (Z.eqb_spec minor minor');
      match goal with |- _ = (?x <? ?y)%Z => destruct (Z.ltb_spec x y) end;
      rewrite ?Z.ltb_lt, ?Z.ltb_ge; lia.
Qed.

Lemma version_numbers_witness :
  SplitVersion (BuildVersion 2 16 1) = (2, 16, 1)%Z ∧
  IsBefore (Some (2, 16, 1)%Z) 3 0 0 = true.
Proof.
  destruct (version_numbers 2 16 1 3 0 0) as [H1 H2]; [lia..|].
  split; [exact H1|]. rewrite <-H2. reflexivity.
Defined.

(** A version text is read back. *)
Lemma ParseVersion_format (major minor revision : N) :
  ParseVersion (dec major ++ lit "." ++ dec minor ++ lit "." ++ dec revision)
  = Some (Z.of_N major, Z.of_N minor, Z.of_N revision).
Proof.
  assert (∀ n rest, match rest with a :: _ => is_digit a = false | [] => True end →
    number_at (dec n ++ rest) = Some (n, rest)) as Hnum.
  { intros n rest Hrest. unfold number_at. rewrite span_app.
    - pose proof (dec_nonnil n). pose proof (dec_val n) as Hv.
      destruct (dec n) eqn:E; [done|]. by rewrite <-E, dec_val.
    - apply dec_digits.
    - by destruct rest. }
  assert (∀ s, dot_number (lit "." ++ s) = number_at s) as Hdot by done.
  unfold ParseVersion. rewrite Hnum, Hdot, Hnum, Hdot by done.
  rewrite <-(app_nil_r (dec revision)), Hnum by done. done.
Qed.

(** The configuration is downgraded in allowed transitions only. *)
Lemma ShouldCfgdowngrade_in_range version current :
  version_lt version FIRST_UPGRADE_VERSION = false →
  version_lt current FIRST_UPGRADE_VERSION = false →
  ShouldCfgdowngrade version current = true → UpgradeRange version current = None.
Proof.
  intros Hv Hc. unfold UpgradeRange, ShouldCfgdowngrade. rewrite Hv, Hc.
  destruct version as [[v1 v2] v3], current as [[c1 c2] c3]. simpl.
  intros [->%Z.eqb_eq ->%Z.eqb_eq]%andb_true_iff. rewrite Z.eqb_refl. simpl.
  rewrite (proj2 (Z.ltb_ge _ _)) by lia. done.
Qed.

(** The test for physical volumes of the same size.  Sizes are bad exactly
    when there is no nominal size from which both the smallest and the largest
    volume deviate by the margin at most. *)
Theorem LvmExclusiveTestBadPvSizes_correct (small big : Q) :
  LvmExclusiveTestBadPvSizes small big = true ↔
  ¬ ∃ x, (x * (1 - PART_MARGIN) <= small)%Q ∧ (big <= x * (1 + PART_MARGIN))%Q.
Proof.
  unfold LvmExclusiveTestBadPvSizes, PART_MARGIN. rewrite negb_true_iff. split.
  - intros E (x & H1 & H2). apply not_true_iff_false in E. apply E, Qle_bool_iff. nra.
  - intros Hn. apply not_true_iff_false. intros Hle%Qle_bool_iff. apply Hn.
    exists (big * (100 # 101))%Q. split; lra.
Qed.
