(* ===== verification/BusManager.v ===== *)
(** * Bus slots of KVM devices (src/lib/hypervisor/hv_kvm/bus_manager.py)

    The allocators for the PCI bus, the q35 root-port pools and the SCSI bus, and
    the manager that picks one by the kind of device; its construction for a
    chipset and from a runtime file ([_get_bus_manager]) and the loop that gives
    the devices of an instance their slots are from
    src/lib/hypervisor/hv_kvm/__init__.py. *)

From S2P Require Import Prelude Errors PySort PyStr PyVal.
#[local] Open Scope list_scope.
#[local] Open Scope stdpp_scope.
#[local] Open Scope py_scope.

Definition Q35_NIC_POOL_SLOTS : list Z := Z.of_nat <$> seq 3 8.
Definition Q35_DISK_POOL_SLOTS : list Z := Z.of_nat <$> seq 11 16.

(** ** Hexadecimal numbers *)

Fixpoint hex_digits (fuel : nat) (n : N) (acc : str) : str :=
  match fuel with
  | O => acc
  | S fuel =>
      let acc := hex_char (n mod 16) :: acc in
      if (n <? 16)%N then acc else hex_digits fuel (n / 16) acc
  end.

(** [hex(slot)] *)
Definition py_hex (z : Z) : str :=
  (if (z <? 0)%Z then lit "-0x" else lit "0x")
  ++ hex_digits (S (N.size_nat (Z.abs_N z))) (Z.abs_N z) [].

Fixpoint hex_val_from (acc : N) (s : str) : option N :=
  match s with
  | [] => Some acc
  | a :: s => match hex_value a with Some d => hex_val_from (16 * acc + d) s | None => None end
  end.

(** [int(s, 16)], for texts as [hex] makes them (sign and ["0x"] optional, no
    underscores or spaces). *)
Definition int16 (s : str) : exc Z :=
  let '(sign, s) := match s with
                    | a :: s' => if decide (a = "-"%char) then ((-1)%Z, s') else (1%Z, s)
                    | [] => (1%Z, s)
                    end in
  let s := match s with
           | a :: b :: s' => if decide (a = "0"%char) then
                               if decide (b = "x"%char) then s' else s
                             else s
           | _ => s
           end in
  match s with
  | [] => Raise Value_error
  | _ => match hex_val_from 0 s with
         | Some n => Ok (sign * Z.of_N n)%Z
         | None => Raise Value_error
         end
  end.

(** ** Allocations *)

(** The [BUS_TYPE]s *)
Inductive bus_type := BPci | BPcieNic | BPcieDisk | BScsi.

#[export] Instance bus_type_eq_dec : EqDecision bus_type.
Proof. solve_decision. Defined.

Definition bus_code (b : bus_type) : nat :=
  match b with BPci => 0 | BPcieNic => 1 | BPcieDisk => 2 | BScsi => 3 end.

#[export] Instance bus_type_countable : Countable bus_type.
Proof.
  refine (inj_countable bus_code (λ n, match n with
    | 0 => Some BPci | 1 => Some BPcieNic | 2 => Some BPcieDisk | 3 => Some BScsi | _ => None end) _).
  by intros [].
Defined.

Notation params := (list (str * obj)).

Definition get_param (name : string) (p : params) : exc obj :=
  match List.find (λ '(k, _), bool_decide (k = lit name)) p with
  | Some (_, v) => Ok v
  | None => Raise (PyExn KeyError name)
  end.

Record BusAllocation := Allocation {
  al_bus : str;
  al_type : bus_type;
  al_params : params
}.

Definition to_kvm_info (al : BusAllocation) : params := (lit "bus", OStr (al_bus al)) :: al_params al.

(** ** Allocators *)

(** [al_slots]: the candidates, in the order in which they are tried. *)
Record allocator := Allocator {
  al_kind : bus_type;
  al_slots : list Z;
  al_occupied : gset Z
}.

Definition set_occupied (occ : gset Z) (a : allocator) : allocator :=
  Allocator (al_kind a) (al_slots a) occ.

(** [range(reserved_slots, max_slots)] *)
Definition slot_range (reserved max : Z) : list Z :=
  (λ i, reserved + Z.of_nat i)%Z <$> seq 0 (Z.to_nat (max - reserved)).

Definition PCIAllocator (max_slots reserved_slots : Z) : allocator :=
  Allocator BPci (slot_range reserved_slots max_slots) ∅.
Definition SCSIAllocator (max_slots reserved_slots : Z) : allocator :=
  Allocator BScsi (slot_range reserved_slots max_slots) ∅.
Definition PCIeNicAllocator : allocator := Allocator BPcieNic Q35_NIC_POOL_SLOTS ∅.
Definition PCIeDiskAllocator : allocator := Allocator BPcieDisk Q35_DISK_POOL_SLOTS ∅.

Definition No_slots : exn := PyExn RuntimeError "No free slots available".

(** The first candidate that is not occupied. *)
Definition find_free_slot (a : allocator) : exc Z :=
  match List.find (λ s, negb (bool_decide (s ∈ al_occupied a))) (al_slots a) with
  | Some s => Ok s
  | None => Raise No_slots
  end.

(** [self._pool_slots.index(slot) + 1] *)
Definition acpi_index (pool : list Z) (slot : Z) : Z :=
  match list_find (λ s, s = slot) pool with Some (i, _) => Z.of_nat i + 1 | None => 0 end.

Definition allocation_for (a : allocator) (slot : Z) : BusAllocation :=
  match al_kind a with
  | BPci => Allocation (lit "pci.0") BPci [(lit "addr", OStr (py_hex slot))]
  | BPcieNic =>
      Allocation (lit "rp" ++ str_of_Z slot) BPcieNic
        [(lit "addr", OStr (lit "0x0")); (lit "acpi-index", OInt (acpi_index (al_slots a) slot))]
  | BPcieDisk => Allocation (lit "rp" ++ str_of_Z slot) BPcieDisk [(lit "addr", OStr (lit "0x0"))]
  | BScsi =>
      Allocation (lit "scsi.0") BScsi
        [(lit "channel", OInt 0); (lit "scsi-id", OInt slot); (lit "lun", OInt 0)]
  end.

Definition get_next_allocation (a : allocator) : exc BusAllocation :=
  rmap (allocation_for a) (find_free_slot a).

(** [_slot_from_leaf] *)
Definition slot_from_leaf (bus : str) : exc Z :=
  match bus with
  | r :: p :: rest =>
      if decide (r = "r"%char ∧ p = "p"%char)
      then match py_int rest with Some z => Ok z | None => Raise Value_error end
      else Raise (PyExn RuntimeError "unexpected bus")
  | _ => Raise (PyExn RuntimeError "unexpected bus")
  end.

(** [int(allocation.device_params["addr"], 16)] *)
Definition slot_from_addr (p : params) : exc Z :=
  let* addr := get_param "addr" p in
  match addr with OStr s => int16 s | _ => Raise Type_error end.

Definition slot_from_scsi_id (p : params) : exc Z :=
  let* id := get_param "scsi-id" p in
  match id with OInt z => Ok z | _ => Raise Type_error end.

Definition reserve (al : BusAllocation) (a : allocator) : exc allocator :=
  let* slot := match al_kind a with
               | BPci => slot_from_addr (al_params al)
               | BPcieNic | BPcieDisk => slot_from_leaf (al_bus al)
               | BScsi => slot_from_scsi_id (al_params al)
               end in
  Ok (set_occupied ({[slot]} ∪ al_occupied a) a).

(** [SCSIAllocator] inherits the method of [PCIAllocator]. *)
Definition release (al : BusAllocation) (a : allocator) : exc allocator :=
  match al_kind a with
  | BPci | BScsi =>
      let* slot := slot_from_addr (al_params al) in
      if decide (slot ∈ al_occupied a) then Ok (set_occupied (al_occupied a ∖ {[slot]}) a)
      else Raise (PyExn KeyError "")
  | BPcieNic | BPcieDisk =>
      let* slot := slot_from_leaf (al_bus al) in
      Ok (set_occupied (al_occupied a ∖ {[slot]}) a)
  end.

(** One device of [initialize_from_device_info] *)
Definition init_one (info : params) (a : allocator) : exc allocator :=
  let bus := match List.find (λ '(k, _), bool_decide (k = lit "bus")) info with
             | Some (_, OStr b) => Some b
             | _ => None
             end in
  match al_kind a with
  | BPci =>
      if decide (bus = Some (lit "pci.0")) then
        let* slot := slot_from_addr info in Ok (set_occupied ({[slot]} ∪ al_occupied a) a)
      else Ok a
  | BScsi =>
      if decide (bus = Some (lit "scsi.0")) then
        let* slot := slot_from_scsi_id info in Ok (set_occupied ({[slot]} ∪ al_occupied a) a)
      else Ok a
  | BPcieNic | BPcieDisk =>
      match bus with
      | Some b =>
          match slot_from_leaf b with
          | Ok slot =>
              if decide (slot ∈ al_slots a) then Ok (set_occupied ({[slot]} ∪ al_occupied a) a)
              else Ok a
          | Raise _ => Ok a
          end
      | None => Ok a
      end
  end.

Fixpoint initialize_from_device_info (infos : list params) (a : allocator) : exc allocator :=
  match infos with
  | [] => Ok a
  | info :: infos => let* a := init_one info a in initialize_from_device_info infos a
  end.

(** ** The manager *)

Inductive target := HOTPLUG_TARGET_NIC | HOTPLUG_TARGET_DISK.

Definition HT_SCSI_DEVICE_TYPES : list str :=
  [lit "scsi-generic"; lit "scsi-block"; lit "scsi-cd"; lit "scsi-hd"].

(** [self.allocators], with the bus type as key *)
Notation manager := (gmap bus_type allocator).

Definition BusAllocatorManager (allocators : list allocator) : manager :=
  foldl (λ m a, <[al_kind a := a]> m) ∅ allocators.

Definition lookup_allocator (k : bus_type) (m : manager) : exc allocator :=
  match m !! k with Some a => Ok a | None => Raise (PyExn KeyError "") end.

(** Which allocator a device gets its slot from. *)
Definition bus_for (m : manager) (dev_type : target) (hv_dev_type : str) : bus_type :=
  match dev_type with
  | HOTPLUG_TARGET_DISK =>
      if decide (hv_dev_type ∈ HT_SCSI_DEVICE_TYPES) then BScsi
      else if m !! BPcieDisk is Some _ then BPcieDisk else BPci
  | HOTPLUG_TARGET_NIC => if m !! BPcieNic is Some _ then BPcieNic else BPci
  end.

Definition manager_next (m : manager) (dev_type : target) (hv_dev_type : str) : exc BusAllocation :=
  let* a := lookup_allocator (bus_for m dev_type hv_dev_type) m in get_next_allocation a.

Definition get_allocator (al : BusAllocation) (m : manager) : exc allocator :=
  match m !! al_type al with
  | Some a => Ok a
  | None => Raise (PyExn RuntimeError "allocator is not available")
  end.

Definition commit (al : BusAllocation) (m : manager) : exc manager :=
  let* a := get_allocator al m in
  let* a := reserve al a in
  Ok (<[al_type al := a]> m).

Definition manager_release (al : BusAllocation) (m : manager) : exc manager :=
  let* a := get_allocator al m in
  let* a := release al a in
  Ok (<[al_type al := a]> m).

(** ** Their use in the hypervisor *)

Definition QEMU_PCI_SLOTS : Z := 32.
Definition DEFAULT_PCI_RESERVED_SLOTS : Z := 12.
Definition DEFAULT_SCSI_SLOTS : Z := 16.

(** [_get_bus_manager]; [infos]: the [hvinfo] of the running devices. *)
Definition get_bus_manager (q35 : bool) (reservations : option Z) (infos : option (list params))
    : exc manager :=
  let scsi := SCSIAllocator DEFAULT_SCSI_SLOTS 0 in
  let pci := if q35 then [PCIeNicAllocator; PCIeDiskAllocator]
             else [PCIAllocator QEMU_PCI_SLOTS (default DEFAULT_PCI_RESERVED_SLOTS reservations)] in
  match infos with
  | None => Ok (BusAllocatorManager (pci ++ [scsi]))
  | Some infos =>
      let* pci := rmapM (initialize_from_device_info infos) pci in
      let* scsi := initialize_from_device_info infos scsi in
      Ok (BusAllocatorManager (pci ++ [scsi]))
  end.

(** The loops over disks and NICs of [_GenerateKVMRuntime]: each device gets the
    next slot, which is then committed. *)
Fixpoint generate_devices (devs : list (target * str)) (m : manager)
    : exc (list BusAllocation * manager) :=
  match devs with
  | [] => Ok ([], m)
  | (dev_type, hv_dev_type) :: devs =>
      let* al := manager_next m dev_type hv_dev_type in
      let* m := commit al m in
      let* '(als, m) := generate_devices devs m in
      Ok (al :: als, m)
  end.

(** ** Slots and their texts *)

Definition slots_ok (slots : list Z) : Prop := NoDup slots ∧ Forall (λ s, 0 ≤ s < 256)%Z slots.

Lemma int16_hex s : (0 ≤ s < 256)%Z → int16 (py_hex s) = Ok s.
Proof.
  intros Hs. assert (Forall (λ n, int16 (py_hex (Z.of_nat n)) = Ok (Z.of_nat n)) (seq 0 256)) as Hall.
  { apply Forall_forall. intros n Hn. 
    assert (forallb (λ n, match int16 (py_hex (Z.of_nat n)) with
      | Ok z => (z =? Z.of_nat n)%Z | Raise _ => false end) (seq 0 256) = true) as Hc
      by (vm_compute; reflexivity).
    rewrite forallb_forall in Hc. specialize (Hc n). rewrite <-list_elem_of_In in Hc.
    specialize (Hc Hn). destruct (int16 _); [|done]. apply Z.eqb_eq in Hc. by subst. }
  rewrite Forall_forall in Hall. specialize (Hall (Z.to_nat s)). rewrite Z2Nat.id in Hall by lia.
  apply Hall. apply elem_of_seq. lia.
Qed.

(** The slot that an allocation is for. *)
Definition slot_of (al : BusAllocation) : exc Z :=
  match al_type al with
  | BPci => slot_from_addr (al_params al)
  | BPcieNic | BPcieDisk => slot_from_leaf (al_bus al)
  | BScsi => slot_from_scsi_id (al_params al)
  end.

Lemma allocation_type a s : al_type (allocation_for a s) = al_kind a.
Proof. unfold allocation_for. by destruct (al_kind a). Qed.

Lemma slot_from_leaf_rp s : slot_from_leaf (lit "rp" ++ str_of_Z s) = Ok s.
Proof. simpl. by rewrite py_int_str. Qed.

Lemma slot_of_allocation a s : (0 ≤ s < 256)%Z → slot_of (allocation_for a s) = Ok s.
Proof.
  intros Hs. unfold slot_of. rewrite allocation_type. unfold allocation_for.
  destruct (al_kind a); cbn [al_params al_bus]; [|apply slot_from_leaf_rp..|done].
  unfold slot_from_addr. simpl. by apply int16_hex.
Qed.

Lemma reserve_allocation a s :
  (0 ≤ s < 256)%Z →
  reserve (allocation_for a s) a = Ok (set_occupied ({[s]} ∪ al_occupied a) a).
Proof.
  intros Hs. pose proof (slot_of_allocation a s Hs) as E. unfold slot_of in E.
  rewrite allocation_type in E. unfold reserve. destruct (al_kind a); by rewrite E.
Qed.

(** ** Well-formed managers *)

Record manager_ok (m : manager) : Prop := {
  mo_kind : ∀ k a, m !! k = Some a → al_kind a = k;
  mo_slots : ∀ k a, m !! k = Some a → slots_ok (al_slots a);
  mo_pools : ∀ a b s, m !! BPcieNic = Some a → m !! BPcieDisk = Some b →
    s ∈ al_slots a → s ∈ al_slots b → False
}.

Definition occupied (m : manager) (k : bus_type) : gset Z :=
  match m !! k with Some a => al_occupied a | None => ∅ end.

Definition slots (m : manager) (k : bus_type) : list Z :=
  match m !! k with Some a => al_slots a | None => [] end.

Lemma manager_ok_occupied m k a occ :
  manager_ok m → m !! k = Some a → manager_ok (<[k := set_occupied occ a]> m).
Proof.
  intros [H1 H2 H3] Ha. split.
  - intros k' a' [[<- <-]|[_ Hk]]%lookup_insert_Some; [exact (H1 k a Ha)|by apply H1].
  - intros k' a' [[<- <-]|[_ Hk]]%lookup_insert_Some; [exact (H2 k a Ha)|by eapply H2].
  - assert (∀ k' a', <[k := set_occupied occ a]> m !! k' = Some a' →
      ∃ a'', m !! k' = Some a'' ∧ al_slots a' = al_slots a'') as Hs.
    { intros k' a' [[<- <-]|[_ Hk]]%lookup_insert_Some; eauto. }
    intros b c s (b' & Hb & ->)%Hs (c' & Hc & ->)%Hs. by eapply H3.
Qed.

(** One device: the first free slot of its allocator, which is then taken. *)
Lemma generate_step m dev_type hv al m' :
  manager_ok m →
  manager_next m dev_type hv = Ok al → commit al m = Ok m' →
  ∃ a s, let k := bus_for m dev_type hv in
    m !! k = Some a ∧ al = allocation_for a s ∧ s ∈ al_slots a ∧ (s ∉ al_occupied a) ∧
    al_type al = k ∧ m' = <[k := set_occupied ({[s]} ∪ al_occupied a) a]> m.
Proof.
  intros Hok. unfold manager_next, lookup_allocator. set (k := bus_for m dev_type hv).
  destruct (m !! k) as [a|] eqn:Ea; [|done]. cbn [rbind]. unfold get_next_allocation.
  intros (s & Hs & <-)%rmap_Ok. unfold find_free_slot in Hs.
  destruct (List.find _ _) as [s'|] eqn:Ef; [|done]. injection Hs as ->.
  apply find_some in Ef as [Hin%list_elem_of_In Hfree].
  apply negb_true_iff, bool_decide_eq_false in Hfree.
  assert (al_kind a = k) as Hk by (by eapply mo_kind).
  assert (0 ≤ s < 256)%Z as Hb.
  { destruct (mo_slots _ Hok _ _ Ea) as [_ Hf]. rewrite Forall_forall in Hf. by apply Hf. }
  unfold commit, get_allocator. rewrite allocation_type, Hk, Ea. cbn [rbind].
  rewrite reserve_allocation by done. intros [= <-]. exists a, s. cbv zeta. fold k.
  split_and!; done.
Qed.

Lemma bus_for_occupied m k a occ dev_type hv :
  m !! k = Some a →
  bus_for (<[k := set_occupied occ a]> m) dev_type hv = bus_for m dev_type hv.
Proof.
  intros Ha. assert (∀ k', is_Some (<[k := set_occupied occ a]> m !! k') ↔ is_Some (m !! k')) as Hs.
  { intros k'. destruct (decide (k' = k)) as [->|Hne].
    - rewrite lookup_insert_eq, Ha. split; eauto.
    - by rewrite lookup_insert_ne. }
  unfold bus_for. pose proof (Hs BPcieNic) as Hn. pose proof (Hs BPcieDisk) as Hd.
  destruct (<[k:=_]> m !! BPcieNic), (m !! BPcieNic), (<[k:=_]> m !! BPcieDisk), (m !! BPcieDisk);
    try done; exfalso; destruct Hn as [Hn1 Hn2], Hd as [Hd1 Hd2];
    (destruct Hn1; [by eexists|done]) || (destruct Hn2; [by eexists|done]) ||
    (destruct Hd1; [by eexists|done]) || (destruct Hd2; [by eexists|done]).
Qed.

(** ** Devices get places of their own *)

(** Where a device is: the bus and its address there. *)
Definition place (info : params) : option obj * option obj * option obj :=
  let get := λ name, snd <$> List.find (λ '(k, _), bool_decide (k = lit name)) info in
  (get "bus", get "addr", get "scsi-id").

Definition pcie (k : bus_type) : bool :=
  match k with BPcieNic | BPcieDisk => true | _ => false end.

Lemma place_inj a b s t :
  (0 ≤ s < 256)%Z → (0 ≤ t < 256)%Z →
  place (to_kvm_info (allocation_for a s)) = place (to_kvm_info (allocation_for b t)) →
  s = t ∧ (al_kind a = al_kind b ∨ pcie (al_kind a) = true ∧ pcie (al_kind b) = true).
Proof.
  intros Hs Ht. unfold allocation_for.
  assert (∀ x y, str_of_Z x = str_of_Z y → x = y) as Hstr.
  { intros x y E. pose proof (py_int_str x) as Hx. rewrite E, py_int_str in Hx. congruence. }
  destruct (al_kind a), (al_kind b); unfold place, to_kvm_info; simpl;
    intros [= E]; try (split; [by apply Hstr|by auto]).
  - split; [|by left]. pose proof (int16_hex s Hs) as Hx. rewrite E, int16_hex in Hx by done.
    congruence.
  - split; [done|by left].
Qed.

(** The allocation is for a free slot of its allocator. *)
Definition fresh (m : manager) (al : BusAllocation) : Prop :=
  ∃ a s, m !! al_type al = Some a ∧ al = allocation_for a s ∧ s ∈ al_slots a ∧ (s ∉ al_occupied a).

(** Everything but the occupied slots stays, and these grow. *)
Definition grows (m m' : manager) : Prop :=
  ∀ k, match m !! k, m' !! k with
       | Some a, Some a' => al_kind a' = al_kind a ∧ al_slots a' = al_slots a ∧
                            al_occupied a ⊆ al_occupied a'
       | None, None => True
       | _, _ => False
       end.

Lemma grows_refl m : grows m m.
Proof. intros k. by destruct (m !! k). Qed.

Lemma grows_occupied m k a occ :
  m !! k = Some a → al_occupied a ⊆ occ → grows m (<[k := set_occupied occ a]> m).
Proof.
  intros Ha Ho k'. destruct (decide (k' = k)) as [->|Hne].
  - by rewrite lookup_insert_eq, Ha.
  - rewrite lookup_insert_ne by done. by destruct (m !! k').
Qed.

Lemma grows_trans m1 m2 m3 : grows m1 m2 → grows m2 m3 → grows m1 m3.
Proof.
  intros H1 H2 k. specialize (H1 k). specialize (H2 k).
  destruct (m1 !! k), (m2 !! k), (m3 !! k); try done.
  destruct H1 as (? & ? & ?), H2 as (? & ? & ?). split_and!; [congruence..|set_solver].
Qed.

Lemma fresh_grows m m' al : grows m m' → fresh m' al → fresh m al.
Proof.
  intros Hg (a' & s & Ha' & -> & Hin & Hfree). specialize (Hg (al_type (allocation_for a' s))).
  rewrite Ha' in Hg. destruct (m !! _) as [a|] eqn:Ea; [|done].
  destruct Hg as (Hk & Hs & Ho). exists a, s. split; [done|].
  split; [unfold allocation_for; by rewrite Hk, Hs|]. rewrite <-Hs. split; [done|set_solver].
Qed.

Lemma generate_devices_spec devs : ∀ m als m',
  manager_ok m → generate_devices devs m = Ok (als, m') →
  grows m m' ∧ Forall (fresh m) als ∧ NoDup (place ∘ to_kvm_info <$> als) ∧
  Forall (λ al, ∃ a' s, m' !! al_type al = Some a' ∧ slot_of al = Ok s ∧ s ∈ al_occupied a') als.
Proof.
  induction devs as [|[dev_type hv] devs IH]; intros m als m' Hok; cbn [generate_devices].
  { intros [= <- <-]. split_and!; [apply grows_refl|constructor..]. }
  intros (al & Hal & Hd)%rbind_Ok. apply rbind_Ok in Hd as (m1 & Hm1 & Hd).
  apply rbind_Ok in Hd as ([als1 m2] & Hd & [= <- <-]).
  destruct (generate_step _ _ _ _ _ Hok Hal Hm1) as (a & s & Ea & -> & Hin & Hfree & Hk & ->).
  set (k := bus_for m dev_type hv) in *.
  assert (grows m (<[k := set_occupied ({[s]} ∪ al_occupied a) a]> m)) as Hg
    by (apply grows_occupied; [done|set_solver]).
  destruct (IH _ _ _ (manager_ok_occupied _ _ _ _ Hok Ea) Hd) as (Hg2 & Hf2 & Hn2 & Ho2).
  assert (∀ x k' b, m !! k' = Some b → x ∈ al_slots b → (0 ≤ x < 256)%Z) as Hrange.
  { intros x k' b Hb Hx. destruct (mo_slots _ Hok _ _ Hb) as [_ Hf].
    rewrite Forall_forall in Hf. by apply Hf. }
  split_and!.
  - by eapply grows_trans.
  - constructor; [exists a, s; by rewrite Hk|].
    eapply Forall_impl; [exact Hf2|]. intros al. by apply fresh_grows.
  - csimpl. constructor; [|done]. intros (al & E & Hal2)%list_elem_of_fmap.
    rewrite Forall_forall in Hf2. destruct (Hf2 al Hal2) as (b & t & Hb & -> & Ht & Htf).
    assert (∃ b0, m !! al_type (allocation_for b t) = Some b0 ∧ al_kind b = al_kind b0 ∧
                  al_slots b = al_slots b0) as (b0 & Hb0 & Hbk & Hbs).
    { specialize (Hg (al_type (allocation_for b t))). rewrite Hb in Hg. revert Hg.
      destruct (m !! al_type (allocation_for b t)) as [b0|]; [intros Hg|done]. destruct Hg as (? & ? & _). by exists b0. }
    rewrite Hbs in Ht. apply place_inj in E as [-> Hor]; [|exact (Hrange _ _ _ Ea Hin)|exact (Hrange _ _ _ Hb0 Ht)].
    rewrite allocation_type in Hb, Hb0. rewrite allocation_type in Hk. destruct Hor as [Ekk|[Hp Hp']].
    + rewrite <-Ekk, Hk, lookup_insert_eq in Hb. injection Hb as <-. simpl in Htf. set_solver.
    + rewrite Hk in *. destruct (decide (al_kind b = k)) as [Ek|Hne].
      { rewrite Ek, lookup_insert_eq in Hb. injection Hb as <-. simpl in Htf. set_solver. }
      destruct k, (al_kind b); try done; eapply (mo_pools _ Hok); eauto.
  - constructor; [|done]. specialize (Hg2 k). rewrite lookup_insert_eq in Hg2. rewrite Hk.
    revert Hg2. destruct (m2 !! k) as [a'|]; [intros Hg2|done]. destruct Hg2 as (_ & _ & Ho). simpl in Ho.
    exists a', s. split_and!; [done|apply slot_of_allocation; by eapply Hrange|set_solver].
Qed.

(** Every device of an instance gets a place of its own: no two devices have
    the same bus and address, and each slot is a candidate of its allocator
    that was free before and is taken afterwards. *)
Theorem generate_devices_distinct (devs : list (target * str)) (m m' : manager)
    (als : list BusAllocation) :
  manager_ok m → generate_devices devs m = Ok (als, m') →
  NoDup ((λ al, place (to_kvm_info al)) <$> als) ∧
  Forall (λ al, ∃ s, slot_of al = Ok s ∧ s ∈ slots m (al_type al) ∧
                     (s ∉ occupied m (al_type al)) ∧ s ∈ occupied m' (al_type al)) als.
Proof.
  intros Hok Hd. destruct (generate_devices_spec _ _ _ _ Hok Hd) as (Hg & Hf & Hn & Ho).
  split; [exact Hn|]. rewrite Forall_forall in Hf, Ho. apply Forall_forall. intros al Hal.
  destruct (Hf al Hal) as (a & s & Ha & E & Hin & Hfree).
  destruct (Ho al Hal) as (a' & s' & Ha' & Hs' & Hocc).
  assert (slot_of al = Ok s) as Hs.
  { rewrite E. apply slot_of_allocation. destruct (mo_slots _ Hok _ _ Ha) as [_ Hr].
    rewrite Forall_forall in Hr. by apply Hr. }
  exists s. unfold slots, occupied. rewrite Ha, Ha'. split_and!; [done..|]. congruence.
Qed.

(** ** Capacity *)

Definition free_slots (m : manager) (k : bus_type) : nat :=
  size ((list_to_set (slots m k) : gset Z) ∖ occupied m k).

(** How many of the devices use the bus. *)
Definition routed (m : manager) (devs : list (target * str)) (k : bus_type) : nat :=
  length (filter (λ d : target * str, bus_for m d.1 d.2 = k) devs).

Lemma free_slots_take m k a s :
  m !! k = Some a → s ∈ al_slots a → s ∉ al_occupied a →
  free_slots m k = S (free_slots (<[k := set_occupied ({[s]} ∪ al_occupied a) a]> m) k).
Proof.
  intros Ha Hs Ho. unfold free_slots, slots, occupied. rewrite lookup_insert_eq, Ha. simpl.
  assert ((list_to_set (al_slots a) : gset Z) ∖ ({[s]} ∪ al_occupied a)
          = (list_to_set (al_slots a) ∖ al_occupied a) ∖ {[s]}) as -> by set_solver.
  set (X := list_to_set (al_slots a) ∖ al_occupied a).
  assert (s ∈ X) as Hx by (unfold X; set_solver).
  rewrite (size_difference X {[s]}) by set_solver. rewrite size_singleton.
  assert (size X ≠ 0) by (apply size_non_empty_iff; set_solver). lia.
Qed.

Lemma free_slots_other m k k' a :
  k' ≠ k → free_slots (<[k := a]> m) k' = free_slots m k'.
Proof. intros Hne. unfold free_slots, slots, occupied. by rewrite lookup_insert_ne. Qed.

Lemma free_slots_found m k a :
  m !! k = Some a → free_slots m k ≠ 0 → ∃ s, find_free_slot a = Ok s.
Proof.
  intros Ha Hf. unfold find_free_slot. destruct (List.find _ _) as [s|] eqn:E; [eauto|].
  exfalso. apply Hf. apply size_empty_iff. unfold slots, occupied. rewrite Ha.
  intros x. split; [|set_solver]. rewrite elem_of_difference, elem_of_list_to_set. intros [Hx Ho].
  apply list_elem_of_In in Hx. apply (find_none _ _ E) in Hx.
  by rewrite bool_decide_eq_false_2 in Hx.
Qed.

Lemma generate_devices_total devs : ∀ m,
  manager_ok m → (∀ k, routed m devs k ≤ free_slots m k) →
  ∃ als m', generate_devices devs m = Ok (als, m').
Proof.
  induction devs as [|[dev_type hv] devs IH]; intros m Hok Hcap; cbn [generate_devices]; [eauto|].
  set (k := bus_for m dev_type hv).
  assert (S (routed m devs k) ≤ free_slots m k) as Hk.
  { specialize (Hcap k). unfold routed in *. rewrite filter_cons, decide_True in Hcap by done. exact Hcap. }
  destruct (m !! k) as [a|] eqn:Ea.
  2: { exfalso. unfold free_slots, slots in Hk. rewrite Ea in Hk. simpl in Hk.
       assert (size ((∅ : gset Z) ∖ occupied m k) = 0) as E by (apply size_empty_iff; set_solver).
       rewrite E in Hk. lia. }
  destruct (free_slots_found m k a Ea) as [s Hs]; [lia|].
  assert (manager_next m dev_type hv = Ok (allocation_for a s)) as Hn.
  { unfold manager_next, lookup_allocator. fold k. rewrite Ea. cbn [rbind].
    unfold get_next_allocation. by rewrite Hs. }
  rewrite Hn. cbn [rbind].
  unfold find_free_slot in Hs. destruct (List.find _ _) as [s'|] eqn:Ef; [|done]. injection Hs as ->.
  apply find_some in Ef as [Hin%list_elem_of_In Hfree].
  apply negb_true_iff, bool_decide_eq_false in Hfree.
  assert (al_kind a = k) as Hkk by (by eapply mo_kind).
  unfold commit, get_allocator. rewrite allocation_type, Hkk, Ea. cbn [rbind].
  rewrite reserve_allocation.
  2: { destruct (mo_slots _ Hok _ _ Ea) as [_ Hf]. rewrite Forall_forall in Hf. by apply Hf. }
  cbn [rbind]. destruct (IH (<[k := set_occupied ({[s]} ∪ al_occupied a) a]> m)) as (als & m' & E).
  - by apply manager_ok_occupied.
  - intros k'. assert (routed (<[k := set_occupied ({[s]} ∪ al_occupied a) a]> m) devs k'
      = routed m devs k') as ->.
    { unfold routed. f_equal. apply list_filter_iff. intros d. by rewrite bus_for_occupied. }
    destruct (decide (k' = k)) as [->|Hne].
    + rewrite (free_slots_take m k a s) in Hk by done. lia.
    + rewrite free_slots_other by done. specialize (Hcap k'). unfold routed in *.
      rewrite filter_cons, decide_False in Hcap by (intros E; exact (Hne (eq_sym E))). exact Hcap.
  - rewrite E. cbn [rbind]. eauto.
Qed.

(** ** Rebuilding the manager from the devices *)

Lemma init_one_other a b s :
  (0 ≤ s < 256)%Z → al_kind a ≠ al_kind b →
  (pcie (al_kind a) = true → pcie (al_kind b) = true → s ∉ al_slots a) →
  init_one (to_kvm_info (allocation_for b s)) a = Ok a.
Proof.
  intros Hs Hne Hp. unfold init_one, to_kvm_info, allocation_for.
  destruct (al_kind a), (al_kind b); try done; simpl; rewrite ?py_int_str, ?decide_False; try done;
    by apply Hp.
Qed.

Lemma init_one_same a s :
  (0 ≤ s < 256)%Z → s ∈ al_slots a →
  init_one (to_kvm_info (allocation_for a s)) a = Ok (set_occupied ({[s]} ∪ al_occupied a) a).
Proof.
  intros Hs Hin. unfold init_one, to_kvm_info, allocation_for.
  destruct (al_kind a); simpl; rewrite ?py_int_str.
  - unfold slot_from_addr. simpl. by rewrite int16_hex.
  - by rewrite decide_True.
  - by rewrite decide_True.
  - done.
Qed.

Lemma rebuild_allocator devs : ∀ m als m' k a,
  manager_ok m → generate_devices devs m = Ok (als, m') → m !! k = Some a →
  ∃ a', m' !! k = Some a' ∧ initialize_from_device_info (to_kvm_info <$> als) a = Ok a'.
Proof.
  induction devs as [|[dev_type hv] devs IH]; intros m als m' k a Hok; cbn [generate_devices].
  { intros [= <- <-]. eauto. }
  intros (al & Hal & Hd)%rbind_Ok Ha. apply rbind_Ok in Hd as (m1 & Hm1 & Hd).
  apply rbind_Ok in Hd as ([als1 m2] & Hd & [= <- <-]).
  destruct (generate_step _ _ _ _ _ Hok Hal Hm1) as (b & s & Eb & -> & Hin & Hfree & Hk & ->).
  set (kb := bus_for m dev_type hv) in *. rewrite allocation_type in Hk.
  assert (0 ≤ s < 256)%Z as Hs.
  { destruct (mo_slots _ Hok _ _ Eb) as [_ Hf]. rewrite Forall_forall in Hf. by apply Hf. }
  pose proof (manager_ok_occupied _ _ _ ({[s]} ∪ al_occupied b) Hok Eb) as Hok1.
  cbn [fmap list_fmap initialize_from_device_info].
  destruct (decide (k = kb)) as [->|Hne].
  - assert (a = b) as -> by congruence. rewrite init_one_same by done. cbn [rbind].
    eapply IH; [exact Hok1|exact Hd|]. apply lookup_insert_eq.
  - rewrite init_one_other; [cbn [rbind]|done|..].
    + eapply IH; [exact Hok1|exact Hd|]. by rewrite lookup_insert_ne.
    + rewrite (mo_kind _ Hok _ _ Ha), Hk. done.
    + rewrite (mo_kind _ Hok _ _ Ha), Hk. intros Hp Hpb Hsa.
      destruct k, kb; try done; eapply (mo_pools _ Hok); eauto.
Qed.

(** The managers of the hypervisor. *)
Lemma slot_range_ok reserved max :
  (0 ≤ reserved)%Z → (max ≤ 256)%Z → slots_ok (slot_range reserved max).
Proof.
  intros Hr Hm. unfold slot_range. split.
  - apply NoDup_fmap_2; [intros x y; lia|apply NoDup_seq].
  - apply Forall_fmap, Forall_forall. intros i Hi%elem_of_seq. simpl. lia.
Qed.

Lemma pools_ok : slots_ok Q35_NIC_POOL_SLOTS ∧ slots_ok Q35_DISK_POOL_SLOTS.
Proof.
  split; (split; [apply (bool_decide_unpack _); vm_compute; exact I|]);
    apply (bool_decide_unpack _); vm_compute; exact I.
Qed.

Lemma get_bus_manager_ok q35 reservations m :
  (∀ r, reservations = Some r → 0 ≤ r)%Z →
  get_bus_manager q35 reservations None = Ok m → manager_ok m.
Proof.
  intros Hr [= <-].
  assert (slots_ok (slot_range 0 DEFAULT_SCSI_SLOTS)) as Hscsi by (by apply slot_range_ok).
  assert (slots_ok (slot_range (default DEFAULT_PCI_RESERVED_SLOTS reservations) QEMU_PCI_SLOTS)) as Hpci.
  { apply slot_range_ok; [|done]. destruct reservations; [by apply Hr|done]. }
  destruct pools_ok as [Hnic Hdisk].
  destruct q35; unfold BusAllocatorManager; simpl; split.
  - intros k a. rewrite !lookup_insert_Some, lookup_empty. naive_solver.
  - intros k a. rewrite !lookup_insert_Some, lookup_empty.
    intros [[_ <-]|[_ [[_ <-]|[_ [[_ <-]|[_ [=]]]]]]]; done.
  - intros a b s. rewrite !lookup_insert_Some, lookup_empty.
    intros [[[=] _]|[_ [[[=] _]|[_ [[_ <-]|[_ [=]]]]]]] [[[=] _]|[_ [[_ <-]|[Hn _]]]]; [|done].
    simpl. intros (i & -> & Hi%elem_of_seq)%list_elem_of_fmap (j & Hj & Hj'%elem_of_seq)%list_elem_of_fmap.
    lia.
  - intros k a. rewrite !lookup_insert_Some, lookup_empty. naive_solver.
  - intros k a. rewrite !lookup_insert_Some, lookup_empty. intros [[_ <-]|[_ [[_ <-]|[_ [=]]]]]; done.
  - intros a b s. rewrite !lookup_insert_Some, lookup_empty. naive_solver.
Qed.

(** The slots survive a restart of the daemon.  The manager that is rebuilt
    from the device information in the runtime file is the one after the
    devices had been given their slots, so a device that is hot-added gets a
    place that is free. *)
Theorem get_bus_manager_rebuild (q35 : bool) (reservations : option Z) (m m' : manager)
    (devs : list (target * str)) (als : list BusAllocation) :
  (∀ r, reservations = Some r → 0 ≤ r)%Z →
  get_bus_manager q35 reservations None = Ok m →
  generate_devices devs m = Ok (als, m') →
  get_bus_manager q35 reservations (Some (to_kvm_info <$> als)) = Ok m'.
Proof.
  intros Hr Hm Hd. pose proof (get_bus_manager_ok _ _ _ Hr Hm) as Hok.
  destruct (generate_devices_spec _ _ _ _ Hok Hd) as (Hg & _).
  pose proof (λ k a, rebuild_allocator _ _ _ _ k a Hok Hd) as Hre.
  injection Hm as <-. unfold get_bus_manager.
  destruct q35; cbn [app] in *; unfold BusAllocatorManager in *; cbn [foldl] in *.
  - destruct (Hre BPcieNic PCIeNicAllocator) as (a1 & H1 & E1); [by simplify_map_eq|].
    destruct (Hre BPcieDisk PCIeDiskAllocator) as (a2 & H2 & E2); [by simplify_map_eq|].
    destruct (Hre BScsi (SCSIAllocator DEFAULT_SCSI_SLOTS 0)) as (a3 & H3 & E3); [by simplify_map_eq|].
    cbn [rmapM]. rewrite E1, E2, E3. cbn [rbind rmap app foldl]. f_equal.
    pose proof (Hg BPcieNic) as G1. pose proof (Hg BPcieDisk) as G2. pose proof (Hg BScsi) as G3.
    rewrite H1 in G1. rewrite H2 in G2. rewrite H3 in G3. simplify_map_eq.
    destruct G1 as (-> & _), G2 as (-> & _), G3 as (-> & _).
    apply map_eq. intros k. specialize (Hg k). destruct k; simplify_map_eq; try done.
    simpl in Hg |- *. simplify_map_eq. by destruct (m' !! BPci).
  - set (pci := PCIAllocator _ _) in *.
    destruct (Hre BPci pci) as (a1 & H1 & E1); [by simplify_map_eq|].
    destruct (Hre BScsi (SCSIAllocator DEFAULT_SCSI_SLOTS 0)) as (a3 & H3 & E3); [by simplify_map_eq|].
    cbn [rmapM]. rewrite E1, E3. cbn [rbind rmap app foldl]. f_equal.
    pose proof (Hg BPci) as G1. pose proof (Hg BScsi) as G3.
    rewrite H1 in G1. rewrite H3 in G3. simplify_map_eq.
    destruct G1 as (-> & _), G3 as (-> & _).
    apply map_eq. intros k. specialize (Hg k). destruct k; simplify_map_eq; try done;
      simpl in Hg |- *; simplify_map_eq; by destruct (m' !! _).
Qed.

(** The devices of an instance by kind. *)
Definition is_nic (d : target * str) : bool :=
  match d.1 with HOTPLUG_TARGET_NIC => true | HOTPLUG_TARGET_DISK => false end.
Definition is_scsi (d : target * str) : bool :=
  negb (is_nic d) && bool_decide (d.2 ∈ HT_SCSI_DEVICE_TYPES).
Definition is_pv_disk (d : target * str) : bool :=
  negb (is_nic d) && negb (bool_decide (d.2 ∈ HT_SCSI_DEVICE_TYPES)).

Definition how_many (p : target * str → bool) (devs : list (target * str)) : nat :=
  length (filter (λ d, p d = true) devs).

Definition q35_manager : manager :=
  BusAllocatorManager [PCIeNicAllocator; PCIeDiskAllocator; SCSIAllocator DEFAULT_SCSI_SLOTS 0].

Lemma q35_bus_for d :
  bus_for q35_manager d.1 d.2 =
  if is_nic d then BPcieNic else if is_scsi d then BScsi else BPcieDisk.
Proof.
  destruct d as [[] hv]; unfold is_scsi; cbn [is_nic fst snd negb andb bus_for].
  - assert (q35_manager !! BPcieNic = Some PCIeNicAllocator) as -> by reflexivity. done.
  - assert (q35_manager !! BPcieDisk = Some PCIeDiskAllocator) as -> by reflexivity.
    case_decide; [by rewrite bool_decide_eq_true_2|by rewrite bool_decide_eq_false_2].
Qed.

(** A q35 machine has room for eight NICs, sixteen paravirtual disks and
    sixteen SCSI disks, in any order. *)
Theorem q35_capacity (devs : list (target * str)) :
  how_many is_nic devs ≤ 8 → how_many is_pv_disk devs ≤ 16 → how_many is_scsi devs ≤ 16 →
  ∃ m als m', get_bus_manager true None None = Ok m ∧ generate_devices devs m = Ok (als, m') ∧
    length als = length devs.
Proof.
  intros Hn Hd Hs. exists q35_manager.
  assert (manager_ok q35_manager) as Hok by (by apply (get_bus_manager_ok true None)).
  destruct (generate_devices_total devs q35_manager Hok) as (als & m' & E).
  - intros k. unfold routed.
    assert (∀ p : target * str → bool,
      (∀ d, bus_for q35_manager d.1 d.2 = k ↔ p d = true) →
      length (filter (λ d : target * str, bus_for q35_manager d.1 d.2 = k) devs) = how_many p devs) as Hp.
    { intros p Hp. unfold how_many. f_equal. by apply list_filter_iff. }
    destruct k.
    + rewrite (Hp (λ _, false)); [|intros d; rewrite q35_bus_for; by repeat case_match].
      unfold how_many. rewrite list_filter_none; [simpl; lia|]. by apply Forall_true.
    + rewrite (Hp is_nic); [exact Hn|]. intros d. rewrite q35_bus_for. by repeat case_match.
    + rewrite (Hp is_pv_disk); [exact Hd|]. intros d. rewrite q35_bus_for.
      unfold is_scsi, is_pv_disk. destruct (is_nic d), (bool_decide _); by simpl.
    + rewrite (Hp is_scsi); [exact Hs|]. intros d. rewrite q35_bus_for.
      unfold is_scsi. destruct (is_nic d), (bool_decide _); by simpl.
  - exists als, m'. split; [done|]. split; [done|]. clear -E. revert E. generalize q35_manager.
    revert als. induction devs as [|[] devs IH]; intros als m; cbn [generate_devices].
    + by intros [= <- _].
    + intros (al & _ & Hd)%rbind_Ok. apply rbind_Ok in Hd as (m1 & _ & Hd).
      apply rbind_Ok in Hd as ([als1 m2] & Hd & [= <- <-]). simpl. f_equal. by eapply IH.
Qed.

(** Two disks of either kind and a NIC. *)
Definition demo_devs : list (target * str) :=
  [(HOTPLUG_TARGET_DISK, lit "paravirtual"); (HOTPLUG_TARGET_DISK, lit "scsi-hd");
   (HOTPLUG_TARGET_NIC, lit "virtio-net-pci")].

Lemma q35_capacity_witness :
  ∃ als m', generate_devices demo_devs q35_manager = Ok (als, m') ∧ length als = 3.
Proof.
  destruct (q35_capacity demo_devs) as (m & als & m' & Hm & E & Hl).
  - vm_compute. lia.
  - vm_compute. lia.
  - vm_compute. lia.
  - exists als, m'. split; [|exact Hl]. injection Hm as <-. exact E.
Defined.

Lemma generate_devices_distinct_witness :
  ∃ als m', generate_devices demo_devs q35_manager = Ok (als, m') ∧
            NoDup ((λ al, place (to_kvm_info al)) <$> als).
Proof.
  destruct (generate_devices demo_devs q35_manager) as [[als m']|e] eqn:E.
  2: { vm_compute in E. discriminate E. }
  exists als, m'. split; [reflexivity|].
  apply (generate_devices_distinct demo_devs q35_manager m' als).
  - apply (get_bus_manager_ok true None); [discriminate|reflexivity].
  - exact E.
Defined.

Lemma get_bus_manager_rebuild_witness :
  ∃ als m', generate_devices demo_devs q35_manager = Ok (als, m') ∧
            get_bus_manager true None (Some (to_kvm_info <$> als)) = Ok m'.
Proof.
  destruct (generate_devices demo_devs q35_manager) as [[als m']|e] eqn:E.
  2: { vm_compute in E. discriminate E. }
  exists als, m'. split; [reflexivity|].
  apply (get_bus_manager_rebuild true None q35_manager m' demo_devs als).
  - discriminate.
  - reflexivity.
  - exact E.
Defined.

(** The NICs of a q35 machine carry the index of their slot in the pool. *)
Lemma acpi_index_nic (i : nat) :
  i < 8 → acpi_index Q35_NIC_POOL_SLOTS (Z.of_nat (3 + i)) = (Z.of_nat i + 1)%Z.
Proof. intros Hi. do 8 (destruct i as [|i]; [reflexivity|]). lia. Qed.

(** Releasing a slot of the SCSI bus looks for an address, which SCSI
    allocations do not have. *)
Lemma scsi_release_raises a s :
  al_kind a = BScsi → release (allocation_for a s) a = Raise (PyExn KeyError "addr").
Proof. intros E. unfold release, allocation_for. rewrite E. reflexivity. Qed.
