(* ===== verification/UidPool.v ===== *)
(** * User-id pools (src/lib/uidpool.py)

    Pool definitions as text and as lists of ranges, and the allocation of an
    unused user-id with lock files.  The lock directory is a set of file names;
    the operating system's answers (whether a file can be created and locked,
    whether a process runs under a user-id) are inputs. *)

From Stdlib Require Import Sorted.
From S2P Require Import Prelude Errors PySort PyStr.
#[local] Open Scope list_scope.
#[local] Open Scope stdpp_scope.
#[local] Open Scope py_scope.

Definition UIDPOOL_UID_MIN : Z := 0.
Definition UIDPOOL_UID_MAX : Z := 2 ^ 32 - 1.

Notation uid_range := (Z * Z)%type.

(** [errors.OpPrereqError] with [ECODE_INVAL]; the message is left out. *)
Definition Invalid : exn := GntExn OpPrereqError [VStr ""; VStr "wrong_input"].

(** Comparing tuples of two integers. *)
Definition range_lt (a b : uid_range) : bool :=
  if (a.1 =? b.1)%Z then (a.2 <? b.2)%Z else (a.1 <? b.1)%Z.

(** ** Definitions as text *)

(** One element of the definition; [None]: an empty string. *)
Definition parse_range (range_def : str) : exc (option uid_range) :=
  match range_def with
  | [] => Ok None
  | _ =>
      let boundaries := split "-"%char range_def in
      if 2 <? length boundaries then Raise Invalid
      else
        let* lower := match py_int (List.hd [] boundaries) with
                      | Some z => Ok z | None => Raise Invalid end in
        let* higher := match py_int (List.last boundaries []) with
                       | Some z => Ok z | None => Raise Invalid end in
        Ok (Some (lower, higher))
  end.

Definition ParseUidPool (value : str) (separator : ascii) : exc (list uid_range) :=
  let* ranges := rmapM parse_range (split separator value) in
  Ok (py_sorted range_lt (omap id ranges)).

Definition FormatUidRange (lower higher : Z) : str :=
  if (lower =? higher)%Z then str_of_Z lower
  else str_of_Z lower ++ lit "-" ++ str_of_Z higher.

Definition FormatUidPool (uid_pool : list uid_range) (separator : str) : str :=
  join separator (map (λ r : uid_range, FormatUidRange r.1 r.2) uid_pool).

(** ** Changing a pool *)

(** The loop of [AddToUidPool]. *)
Fixpoint add_ranges (add_uids uid_pool : list uid_range) : list uid_range :=
  match add_uids with
  | [] => uid_pool
  | r :: add_uids =>
      add_ranges add_uids (if decide (r ∈ uid_pool) then uid_pool else uid_pool ++ [r])
  end.

Definition AddToUidPool (uid_pool add_uids : list uid_range) : list uid_range :=
  py_sorted range_lt (add_ranges add_uids uid_pool).

(** [RemoveFromUidPool] changes the list it is given, also when it raises. *)
Fixpoint RemoveFromUidPool (uid_pool remove_uids : list uid_range)
    : list uid_range * exc unit :=
  match remove_uids with
  | [] => (uid_pool, Ok tt)
  | r :: remove_uids =>
      if decide (r ∈ uid_pool) then RemoveFromUidPool (remove1 r uid_pool) remove_uids
      else (uid_pool, Raise Invalid)
  end.

Fixpoint CheckUidPool (uid_pool : list uid_range) : exc unit :=
  match uid_pool with
  | [] => Ok tt
  | (lower, higher) :: uid_pool =>
      if (higher <? lower)%Z then Raise Invalid
      else if (lower <? UIDPOOL_UID_MIN)%Z then Raise Invalid
      else if (UIDPOOL_UID_MAX <? higher)%Z then Raise Invalid
      else CheckUidPool uid_pool
  end.

(** [range(lower, higher + 1)] *)
Definition py_range (lower higher : Z) : list Z :=
  (λ i, lower + Z.of_nat i)%Z <$> seq 0 (Z.to_nat (higher + 1 - lower)).

Definition ExpandUidPool (uid_pool : list uid_range) : gset Z :=
  list_to_set (concat (map (λ r : uid_range, py_range r.1 r.2) uid_pool)).

(** ** Allocating *)

(** The lock directory and the lock files that somebody has locked. *)
Record uid_state := UidState {
  us_files : gset str;
  us_locked : gset Z
}.

(** What the operating system answers. *)
Record uid_env := UidEnv {
  ue_mkdir : bool;
  ue_listdir : bool;
  ue_open : Z → bool;
  ue_flock : Z → bool;
  ue_pgrep : Z → Z;
  ue_remove : bool
}.

Definition LockErr : exn := GntExn LockError [].

(** [_IsUidUsed] from the exit code of [pgrep] *)
Definition IsUidUsed (env : uid_env) (uid : Z) : exc bool :=
  if (ue_pgrep env uid =? 0)%Z then Ok true
  else if (ue_pgrep env uid =? 1)%Z then Ok false
  else Raise (GntExn CommandError []).

(** The loop over the candidates.  A file locked by somebody else, like any
    other [IOError] of [flock], makes it go on to the next one. *)
Fixpoint try_uids (env : uid_env) (uids : list Z) (s : uid_state) : uid_state * exc Z :=
  match uids with
  | [] => (s, Raise LockErr)
  | uid :: uids =>
      if negb (ue_open env uid) then (s, Raise LockErr)
      else
        let s := UidState ({[str_of_Z uid]} ∪ us_files s) (us_locked s) in
        if bool_decide (uid ∈ us_locked s) || negb (ue_flock env uid) then try_uids env uids s
        else
          match IsUidUsed env uid with
          | Raise e => (s, Raise e)
          | Ok true => try_uids env uids s
          | Ok false => (UidState (us_files s) ({[uid]} ∪ us_locked s), Ok uid)
          end
  end.

(** The user-ids that have a lock file; other entries are skipped. *)
Definition taken_uids (s : uid_state) : gset Z := list_to_set (omap py_int (elements (us_files s))).

Definition RequestUnusedUid (env : uid_env) (shuffle : list Z → list Z) (all_uids : gset Z)
    (s : uid_state) : uid_state * exc Z :=
  if negb (ue_mkdir env) then (s, Raise LockErr)
  else if negb (ue_listdir env) then (s, Raise LockErr)
  else
    let taken := all_uids ∩ taken_uids s in
    let unused := all_uids ∖ taken in
    try_uids env (shuffle (elements unused) ++ shuffle (elements taken)) s.

(** [locked]: the argument is a [LockedUid] and not a number. *)
Definition ReleaseUid (env : uid_env) (uid : Z) (locked : bool) (s : uid_state)
    : uid_state * exc unit :=
  let s := if locked then UidState (us_files s) (us_locked s ∖ {[uid]}) else s in
  if ue_remove env && bool_decide (str_of_Z uid ∈ us_files s)
  then (UidState (us_files s ∖ {[str_of_Z uid]}) (us_locked s), Ok tt)
  else (s, Raise LockErr).

Definition ExecWithUnusedUid {A} (env : uid_env) (shuffle : list Z → list Z)
    (fn : Z → exc A) (all_uids : gset Z) (s : uid_state) : uid_state * exc A :=
  match RequestUnusedUid env shuffle all_uids s with
  | (s, Raise e) => (s, Raise e)
  | (s, Ok uid) =>
      match fn uid with
      | Ok v => (UidState (us_files s) (us_locked s ∖ {[uid]}), Ok v)
      | Raise e =>
          match ReleaseUid env uid true s with
          | (s, Ok _) => (s, Raise e)
          | (s, Raise e') => (s, Raise e')
          end
      end
  end.

(** ** Reading back *)

#[export] Instance range_lt_order : StrictWeakOrder range_lt.
Proof.
  unfold range_lt. split.
  - intros [a b] [c d]. simpl. destruct (Z.eqb_spec a c), (Z.eqb_spec c a);
      rewrite ?Z.ltb_lt, ?Z.ltb_ge; lia.
  - intros [a b] [c d] [e f]. simpl.
    destruct (Z.eqb_spec c a), (Z.eqb_spec e c), (Z.eqb_spec e a);
      rewrite ?Z.ltb_ge; lia.
Qed.

Lemma dec_no_char c n : is_digit c = false → c ∉ dec n.
Proof.
  intros Hc Hin. pose proof (dec_digits n) as Hd. rewrite Forall_forall in Hd.
  specialize (Hd c Hin). congruence.
Qed.

Lemma str_of_Z_nonneg z : (0 ≤ z)%Z → str_of_Z z = dec (Z.abs_N z).
Proof. intros. unfold str_of_Z. by rewrite (proj2 (Z.ltb_ge z 0)). Qed.

(** A space in front, as the default separator leaves it. *)
Lemma py_int_space z :
  (0 ≤ z)%Z → py_int (" "%char :: str_of_Z z) = Some z.
Proof.
  intros Hz. rewrite <-(py_int_str z). unfold py_int.
  unfold strip. by cbn [drop_while].
Qed.

Lemma parse_FormatUidRange sp lower higher :
  (0 ≤ lower)%Z → (0 ≤ higher)%Z → sp = [] ∨ sp = lit " " →
  parse_range (sp ++ FormatUidRange lower higher) = Ok (Some (lower, higher)).
Proof.
  intros Hl Hh Hsp.
  assert (∀ z, (0 ≤ z)%Z → ("-"%char ∉ sp ++ str_of_Z z) ∧
    py_int (sp ++ str_of_Z z) = Some z ∧ sp ++ str_of_Z z ≠ []) as Hz.
  { intros z Hz. rewrite (str_of_Z_nonneg z Hz). split_and!.
    - rewrite not_elem_of_app. split; [destruct Hsp as [->| ->]; simpl; set_solver|].
      by apply dec_no_char.
    - rewrite <-str_of_Z_nonneg by done.
      destruct Hsp as [->| ->]; [apply py_int_str|by apply py_int_space].
    - intros [_ E]%app_eq_nil. by apply dec_nonnil in E. }
  destruct (Hz lower Hl) as (Hl1 & Hl2 & Hl3).
  assert ("-"%char ∉ str_of_Z higher) as Hh1.
  { rewrite str_of_Z_nonneg by done. by apply dec_no_char. }
  unfold FormatUidRange. destruct (Z.eqb_spec lower higher) as [<-|Hne].
  - unfold parse_range. pose proof (split_join "-"%char [sp ++ str_of_Z lower]) as Hs.
    simpl in Hs. rewrite Hs by (done || by repeat constructor).
    destruct (sp ++ str_of_Z lower); [done|]. simpl. by rewrite Hl2.
  - pose proof (split_join "-"%char [sp ++ str_of_Z lower; str_of_Z higher]) as Hs.
    change (join ["-"%char] [sp ++ str_of_Z lower; str_of_Z higher])
      with ((sp ++ str_of_Z lower) ++ lit "-" ++ str_of_Z higher) in Hs.
    rewrite <-app_assoc in Hs. unfold parse_range.
    rewrite Hs by (done || by repeat constructor).
    destruct (sp ++ str_of_Z lower ++ lit "-" ++ str_of_Z higher) eqn:E.
    { apply app_eq_nil in E as [_ E]. by apply app_eq_nil in E as [_ E]. }
    simpl. by rewrite Hl2, py_int_str.
Qed.

Lemma FormatUidRange_no_comma sp lower higher :
  (0 ≤ lower)%Z → (0 ≤ higher)%Z → sp = [] ∨ sp = lit " " →
  ","%char ∉ sp ++ FormatUidRange lower higher.
Proof.
  intros Hl Hh Hsp. rewrite not_elem_of_app. split; [destruct Hsp as [->| ->]; simpl; set_solver|].
  unfold FormatUidRange. rewrite !str_of_Z_nonneg by done.
  destruct (lower =? higher)%Z; [by apply dec_no_char|].
  rewrite !not_elem_of_app. split_and!; [by apply dec_no_char|set_solver|by apply dec_no_char].
Qed.

(** The text with the default separators, as elements of the split. *)
Lemma format_comma (ws : list str) :
  join (lit ", ") ws = join [","%char] (match ws with [] => [] | w :: ws => w :: map (app (lit " ")) ws end).
Proof.
  induction ws as [|w ws IH]; [done|]. destruct ws as [|w' ws]; [done|].
  change (join (lit ", ") (w :: w' :: ws)) with (w ++ lit ", " ++ join (lit ", ") (w' :: ws)).
  rewrite IH. cbn [map]. simpl. by destruct ws.
Qed.

(** Round trip.  The text of a pool with non-negative user-ids, with the
    default separators, is parsed to the same ranges, sorted. *)
Theorem ParseUidPool_FormatUidPool (uid_pool : list uid_range) :
  Forall (λ r : uid_range, 0 ≤ r.1 ∧ 0 ≤ r.2)%Z uid_pool →
  ParseUidPool (FormatUidPool uid_pool (lit ", ")) ","%char = Ok (py_sorted range_lt uid_pool).
Proof.
  intros Hp. unfold ParseUidPool, FormatUidPool. rewrite format_comma.
  destruct uid_pool as [|r uid_pool]; [done|]. apply Forall_cons in Hp as [[Hr1 Hr2] Hp].
  cbn [map]. rewrite map_map, split_join.
  - assert (rmapM parse_range (FormatUidRange r.1 r.2 :: map (λ x : uid_range,
        lit " " ++ FormatUidRange x.1 x.2) uid_pool) = Ok (map Some (r :: uid_pool))) as E.
    { apply rmapM_Ok. constructor.
      - destruct r. apply (parse_FormatUidRange []); [done..|by left].
      - induction Hp as [|x pool [Hx1 Hx2] Hp IH]; simpl; constructor; [|done].
        destruct x. apply (parse_FormatUidRange (lit " ")); [done..|by right]. }
    rewrite E. cbn [rbind]. f_equal. f_equal. clear. induction (r :: uid_pool); simpl; [done|].
    by f_equal.
  - done.
  - constructor; [apply (FormatUidRange_no_comma []); auto|].
    apply Forall_map. eapply Forall_impl; [exact Hp|]. intros x [Hx1 Hx2].
    apply (FormatUidRange_no_comma (lit " ")); auto.
Qed.

Lemma ParseUidPool_FormatUidPool_witness :
  ParseUidPool (FormatUidPool [(8000, 8000); (1000, 5000)]%Z (lit ", ")) ","%char
  = Ok [(1000, 5000); (8000, 8000)]%Z.
Proof.
  apply (ParseUidPool_FormatUidPool [(8000, 8000); (1000, 5000)]%Z). repeat constructor; simpl; lia.
Defined.

(** ** Changing a pool *)

Lemma add_ranges_elem add_uids : ∀ uid_pool r,
  r ∈ add_ranges add_uids uid_pool ↔ r ∈ uid_pool ∨ r ∈ add_uids.
Proof.
  induction add_uids as [|a add_uids IH]; intros uid_pool r; simpl; [set_solver|].
  rewrite IH. case_decide; set_solver.
Qed.

Lemma add_ranges_NoDup add_uids : ∀ uid_pool,
  NoDup uid_pool → NoDup (add_ranges add_uids uid_pool).
Proof.
  induction add_uids as [|a add_uids IH]; intros uid_pool Hn; simpl; [done|].
  apply IH. case_decide; [done|]. apply NoDup_app. split_and!; [done| |apply NoDup_singleton].
  set_solver.
Qed.

Lemma remove1_NoDup_elem {A} `{EqDecision A} (x y : A) l :
  NoDup l → y ∈ remove1 x l ↔ y ∈ l ∧ y ≠ x.
Proof.
  induction 1 as [|z l Hz Hl IH]; simpl; [set_solver|].
  case_decide as E; [subst|]; rewrite ?elem_of_cons, ?IH; set_solver.
Qed.

Lemma remove1_NoDup {A} `{EqDecision A} (x : A) l : NoDup l → NoDup (remove1 x l).
Proof.
  induction 1 as [|z l Hz Hl IH]; simpl; [constructor|].
  case_decide; [done|]. constructor; [|done]. rewrite remove1_NoDup_elem by done. naive_solver.
Qed.

(** Adding and removing are union and difference of the sets of ranges, the
    pool stays sorted and free of duplicates; removing a range that is not there
    is an error. *)
Lemma AddToUidPool_correct uid_pool add_uids :
  NoDup uid_pool →
  let uid_pool' := AddToUidPool uid_pool add_uids in
  NoDup uid_pool' ∧ StronglySorted (may_follow range_lt) uid_pool' ∧
  ∀ r, r ∈ uid_pool' ↔ r ∈ uid_pool ∨ r ∈ add_uids.
Proof.
  intros Hn. unfold AddToUidPool. split_and!.
  - rewrite py_sorted_perm. by apply add_ranges_NoDup.
  - apply (py_sorted_sorted _).
  - intros r. rewrite py_sorted_perm. apply add_ranges_elem.
Qed.

Lemma RemoveFromUidPool_correct remove_uids : ∀ uid_pool,
  NoDup uid_pool →
  match RemoveFromUidPool uid_pool remove_uids with
  | (uid_pool', Ok _) =>
      NoDup uid_pool' ∧ NoDup remove_uids ∧ (∀ r, r ∈ remove_uids → r ∈ uid_pool) ∧
      ∀ r, r ∈ uid_pool' ↔ r ∈ uid_pool ∧ r ∉ remove_uids
  | (_, Raise _) => ¬ (NoDup remove_uids ∧ ∀ r, r ∈ remove_uids → r ∈ uid_pool)
  end.
Proof.
  induction remove_uids as [|r remove_uids IH]; intros uid_pool Hn; simpl.
  { split_and!; [done|constructor|set_solver|set_solver]. }
  case_decide as Hr; [|set_solver].
  specialize (IH (remove1 r uid_pool) (remove1_NoDup r _ Hn)).
  destruct (RemoveFromUidPool _ _) as [uid_pool' [[]|e]].
  - destruct IH as (IH1 & IH2 & IH3 & IH4). setoid_rewrite remove1_NoDup_elem in IH3; [|done].
    setoid_rewrite remove1_NoDup_elem in IH4; [|done].
    split_and!; [done|constructor; [naive_solver|done]|set_solver|].
    intros r'. rewrite IH4. set_solver.
  - setoid_rewrite remove1_NoDup_elem in IH; [|done]. intros [[Hr1 Hr2]%NoDup_cons Hr3].
    apply IH. set_solver.
Qed.

Lemma elem_of_py_range lower higher u :
  u ∈ py_range lower higher ↔ (lower ≤ u ≤ higher)%Z.
Proof.
  unfold py_range. rewrite list_elem_of_fmap. setoid_rewrite elem_of_seq. split.
  - intros (i & -> & Hi). lia.
  - intros Hu. exists (Z.to_nat (u - lower)). lia.
Qed.

Lemma ExpandUidPool_elem uid_pool u :
  u ∈ ExpandUidPool uid_pool ↔ ∃ lower higher, (lower, higher) ∈ uid_pool ∧ (lower ≤ u ≤ higher)%Z.
Proof.
  unfold ExpandUidPool. rewrite elem_of_list_to_set.
  induction uid_pool as [|[a b] uid_pool IH]; simpl; [set_solver|].
  rewrite elem_of_app, IH, elem_of_py_range. setoid_rewrite elem_of_cons. split.
  - intros [Hu|(l & h & ? & ?)]; [exists a, b; auto|exists l, h; auto].
  - intros (l & h & [[= <- <-]|?] & ?); [by left|right; eauto].
Qed.

Lemma CheckUidPool_ok uid_pool :
  CheckUidPool uid_pool = Ok tt ↔
  Forall (λ r : uid_range, UIDPOOL_UID_MIN ≤ r.1 ≤ r.2 ∧ r.2 ≤ UIDPOOL_UID_MAX)%Z uid_pool.
Proof.
  induction uid_pool as [|[l h] uid_pool IH]; [simpl; split; auto|].
  rewrite Forall_cons, <-IH. cbn [CheckUidPool fst snd].
  destruct (Z.ltb_spec h l), (Z.ltb_spec l UIDPOOL_UID_MIN), (Z.ltb_spec UIDPOOL_UID_MAX h);
    (split; [try done|]); intuition lia.
Qed.

(** A pool that passes the check still passes it after adding ranges that
    pass it, and its expansion is then the union: every user-id of the result
    is one the operating system can represent. *)
Theorem uid_pool_expansion (uid_pool add_uids : list uid_range) :
  CheckUidPool uid_pool = Ok tt → CheckUidPool add_uids = Ok tt →
  CheckUidPool (AddToUidPool uid_pool add_uids) = Ok tt ∧
  ExpandUidPool (AddToUidPool uid_pool add_uids)
    = ExpandUidPool uid_pool ∪ ExpandUidPool add_uids ∧
  ∀ u, u ∈ ExpandUidPool (AddToUidPool uid_pool add_uids) →
    (UIDPOOL_UID_MIN ≤ u ≤ UIDPOOL_UID_MAX)%Z.
Proof.
  assert (∀ r, r ∈ AddToUidPool uid_pool add_uids ↔ r ∈ uid_pool ∨ r ∈ add_uids) as Hin.
  { intros r. unfold AddToUidPool. rewrite py_sorted_perm. apply add_ranges_elem. }
  rewrite !CheckUidPool_ok, !Forall_forall. intros H1 H2. split_and!.
  - intros r [Hr|Hr]%Hin; auto.
  - apply set_eq. intros u. rewrite elem_of_union, !ExpandUidPool_elem. setoid_rewrite Hin. naive_solver.
  - intros u (l & h & [Hr|Hr]%Hin & Hu)%ExpandUidPool_elem.
    + specialize (H1 _ Hr). simpl in H1. lia.
    + specialize (H2 _ Hr). simpl in H2. lia.
Qed.

Lemma uid_pool_expansion_witness :
  CheckUidPool [(5, 7)]%Z = Ok tt ∧ (6 ∈ ExpandUidPool (AddToUidPool [(5, 7)]%Z [(1, 2)]%Z))%Z.
Proof.
  split; [reflexivity|].
  destruct (uid_pool_expansion [(5, 7)]%Z [(1, 2)]%Z) as (_ & E & _); [reflexivity..|].
  rewrite E. apply (bool_decide_unpack _). vm_compute. exact I.
Defined.

(** ** Allocation *)

(** [try_uids] goes past a user-id when it cannot be locked or is in use. *)
Definition busy (env : uid_env) (s : uid_state) (uid : Z) : Prop :=
  uid ∈ us_locked s ∨ ue_flock env uid = false ∨ ue_pgrep env uid = 0%Z.

Definition free (env : uid_env) (s : uid_state) (uid : Z) : Prop :=
  uid ∉ us_locked s ∧ ue_flock env uid = true ∧ ue_pgrep env uid = 1%Z.

(** The lock file can be opened and [pgrep] works. *)
Definition answers (env : uid_env) (uid : Z) : Prop :=
  ue_open env uid = true ∧ (ue_pgrep env uid = 0%Z ∨ ue_pgrep env uid = 1%Z).

Lemma try_uids_spec env uids : ∀ s,
  match try_uids env uids s with
  | (s', Ok uid) =>
      (∃ pre post, uids = pre ++ uid :: post ∧ Forall (busy env s) pre) ∧
      free env s uid ∧ us_locked s' = {[uid]} ∪ us_locked s ∧
      us_files s ⊆ us_files s' ∧ str_of_Z uid ∈ us_files s'
  | (s', Raise e) =>
      us_locked s' = us_locked s ∧ us_files s ⊆ us_files s' ∧
      (Forall (answers env) uids → e = LockErr ∧ Forall (busy env s) uids)
  end.
Proof.
  induction uids as [|u uids IH]; intros s; cbn [try_uids]; [auto|].
  destruct (ue_open env u) eqn:Eo; cbn [negb].
  2: { split_and!; [done..|]. intros [[? _] _]%Forall_cons. congruence. }
  set (s1 := UidState _ _). specialize (IH s1).
  assert (busy env s u → match try_uids env uids s1 with
    | (s', Ok uid) =>
        (∃ pre post, u :: uids = pre ++ uid :: post ∧ Forall (busy env s) pre) ∧
        free env s uid ∧ us_locked s' = {[uid]} ∪ us_locked s ∧
        us_files s ⊆ us_files s' ∧ str_of_Z uid ∈ us_files s'
    | (s', Raise e) => us_locked s' = us_locked s ∧ us_files s ⊆ us_files s' ∧
        (Forall (answers env) (u :: uids) → e = LockErr ∧ Forall (busy env s) (u :: uids))
    end) as Hgo.
  { intros Hb. destruct (try_uids env uids s1) as [s' [uid|e]].
    - destruct IH as ((pre & post & -> & Hpre) & Hfree & Hl & Hf & Hn). simpl in Hf.
      split_and!; [exists (u :: pre), post; split; [done|by constructor]|done|done|set_solver|done].
    - destruct IH as (Hl & Hf & Ha). simpl in Hf. split_and!; [done|set_solver|].
      intros [_ Hr]%Forall_cons. destruct (Ha Hr) as [-> Hall]. split; [done|by constructor]. }
  destruct (bool_decide (u ∈ us_locked s1)) eqn:El; cbn [orb].
  { apply Hgo. left. by apply bool_decide_eq_true in El. }
  apply bool_decide_eq_false in El.
  destruct (ue_flock env u) eqn:Ef; cbn [negb]; [|by apply Hgo; right; left].
  unfold IsUidUsed. destruct (Z.eqb_spec (ue_pgrep env u) 0) as [E0|E0]; [by apply Hgo; right; right|].
  destruct (Z.eqb_spec (ue_pgrep env u) 1) as [E1|E1].
  - split_and!; simpl; [by exists [], uids|done..|set_solver|set_solver].
  - split_and!; simpl; [done|set_solver|]. intros [[_ [?|?]] _]%Forall_cons; contradiction.
Qed.

(** Allocation.  [RequestUnusedUid] gives a user-id of the pool that nobody
    has locked and no process runs under, and leaves it locked with its lock
    file in place; one with a lock file from before is used only when all
    those without are busy.  When it fails nothing more is locked, and, if the
    system calls work, every user-id of the pool was busy. *)
Theorem RequestUnusedUid_correct (env : uid_env) (shuffle : list Z → list Z)
    (all_uids : gset Z) (s : uid_state) :
  (∀ l, shuffle l ≡ₚ l) →
  match RequestUnusedUid env shuffle all_uids s with
  | (s', Ok uid) =>
      uid ∈ all_uids ∧ free env s uid ∧
      us_locked s' = {[uid]} ∪ us_locked s ∧ str_of_Z uid ∈ us_files s' ∧
      (uid ∈ taken_uids s → ∀ u, u ∈ all_uids → u ∉ taken_uids s → busy env s u)
  | (s', Raise e) =>
      us_locked s' = us_locked s ∧
      (ue_mkdir env = true → ue_listdir env = true → (∀ u, u ∈ all_uids → answers env u) →
       e = LockErr ∧ ∀ u, u ∈ all_uids → busy env s u)
  end.
Proof.
  intros Hsh. unfold RequestUnusedUid.
  destruct (ue_mkdir env); cbn [negb]; [|by split].
  destruct (ue_listdir env); cbn [negb]; [|by split].
  set (taken := all_uids ∩ taken_uids s).
  set (l1 := shuffle (elements (all_uids ∖ taken))). set (l2 := shuffle (elements taken)).
  assert (∀ u, u ∈ l1 ↔ u ∈ all_uids ∧ u ∉ taken_uids s) as H1.
  { intros u. unfold l1. rewrite Hsh. set_solver. }
  assert (∀ u, u ∈ l2 ↔ u ∈ all_uids ∧ u ∈ taken_uids s) as H2.
  { intros u. unfold l2. rewrite Hsh. set_solver. }
  pose proof (try_uids_spec env (l1 ++ l2) s) as Hs.
  destruct (try_uids env (l1 ++ l2) s) as [s' [uid|e]].
  - destruct Hs as ((pre & post & E & Hpre) & Hfree & Hl & _ & Hn).
    assert (uid ∈ l1 ++ l2) as Hin by (rewrite E; set_solver).
    split_and!; [set_solver|done..|]. intros Ht u Hu1 Hu2.
    rewrite Forall_forall in Hpre. apply Hpre.
    apply app_eq_inv in E as [(k & -> & E)|(k & -> & E)]; [|set_solver].
    destruct k as [|x k]; [set_solver|]. simplify_list_eq. exfalso. set_solver.
  - destruct Hs as (Hl & _ & Ha). split; [done|]. intros _ _ Hw.
    destruct Ha as [-> Hall]; [apply Forall_forall; set_solver|]. split; [done|].
    rewrite Forall_forall in Hall. intros u Hu. apply Hall.
    rewrite elem_of_app, H1, H2. destruct (decide (u ∈ taken_uids s)); auto.
Qed.

(** A pool of three: 1 is locked, 3 has a stale lock file. *)
Definition demo_env : uid_env := UidEnv true true (λ _, true) (λ _, true) (λ _, 1%Z) true.
Definition demo_uids : uid_state := UidState {[lit "1"; lit "3"; lit "x"]} {[1%Z]}.

Lemma RequestUnusedUid_correct_witness :
  (RequestUnusedUid demo_env id {[1; 2; 3]}%Z demo_uids).2 = Ok 2%Z ∧
  free demo_env demo_uids 2.
Proof.
  split; [vm_compute; reflexivity|].
  pose proof (RequestUnusedUid_correct demo_env id {[1; 2; 3]}%Z demo_uids (λ l, reflexivity _)) as H.
  set (r := RequestUnusedUid _ _ _ _) in H.
  assert (r.2 = Ok 2%Z) as E by (vm_compute; reflexivity).
  destruct r as [s' r]. simpl in E. subst r. exact (proj1 (proj2 H)).
Defined.

(** When the function called with the user-id raises, the exception is passed
    on and the pool is as before: no lock is left, and no lock file. *)
Lemma ExecWithUnusedUid_failure {A} env shuffle (fn : Z → exc A) all_uids s uid s' e :
  RequestUnusedUid env shuffle all_uids s = (s', Ok uid) → uid ∉ us_locked s →
  us_locked s' = {[uid]} ∪ us_locked s → str_of_Z uid ∈ us_files s' →
  ue_remove env = true → fn uid = Raise e →
  let r := ExecWithUnusedUid env shuffle fn all_uids s in
  r.2 = Raise e ∧ us_locked r.1 = us_locked s ∧ str_of_Z uid ∉ us_files r.1.
Proof.
  intros Hr Hl Hl' Hf Hrm He. cbv zeta. unfold ExecWithUnusedUid. rewrite Hr, He.
  unfold ReleaseUid. rewrite Hrm. cbn [us_files us_locked andb].
  rewrite bool_decide_eq_true_2 by done. cbn [fst snd us_locked us_files].
  split_and!; [done|set_solver|set_solver].
Qed.

(** [RemoveFromUidPool] keeps the removals it made before the error. *)
Lemma RemoveFromUidPool_partial :
  RemoveFromUidPool [(1, 2); (3, 4)]%Z [(1, 2); (5, 6)]%Z = ([(3, 4)]%Z, Raise Invalid).
Proof. reflexivity. Qed.
