(* ===== verification/Network.v ===== *)
(** * Address pools (src/lib/network.py, src/lib/utils/bitarray_compat.py)

    [AddressPool] keeps two bit arrays, one for the addresses instances use and
    one for externally reserved addresses, and writes them back to the network
    object.  The bit arrays come from the [bitarray] package: its operations
    are the class [BitArray], what the pool relies on is [BitArrayLaws], and
    lists of booleans are an instance.  Addresses are the integers that
    [ipaddress] makes of them; the texts of error messages are left out. *)

From Stdlib Require Import Ascii.
From S2P Require Import Prelude Errors.
#[local] Open Scope Z_scope.
#[local] Open Scope stdpp_scope.
#[local] Open Scope py_scope.

(** ** Bit arrays *)

Class BitArray (B : Type) := {
  ba_parse : string → exc B;
  ba_new : Z → B;
  ba_setall : bool → B → B;
  ba_len : B → Z;
  ba_get : B → Z → exc bool;
  ba_set : B → Z → bool → exc B;
  ba_or : B → B → exc B;
  ba_all : B → bool;
  ba_count : B → bool → Z;
  ba_index : B → bool → exc Z;
  ba_search : B → B → list Z;
  ba_to01 : B → string
}.

Fixpoint string_of_bits (bs : list bool) : string :=
  match bs with
  | [] => EmptyString
  | b :: bs => String (if b then "1" else "0")%char (string_of_bits bs)
  end.

(** The documented behaviour, on the sequence of bits an array stands for. *)
Class BitArrayLaws (B : Type) `{BitArray B} := {
  bits : B → list bool;
  bits_parse : ∀ bs, ∃ b, ba_parse (string_of_bits bs) = Ok b ∧ bits b = bs;
  bits_new : ∀ n, 0 ≤ n → length (bits (ba_new n)) = Z.to_nat n;
  bits_setall : ∀ v b, bits (ba_setall v b) = replicate (length (bits b)) v;
  bits_len : ∀ b, ba_len b = Z.of_nat (length (bits b));
  bits_get : ∀ b (i : nat) v, bits b !! i = Some v → ba_get b (Z.of_nat i) = Ok v;
  bits_set : ∀ b (i : nat) v, (i < length (bits b))%nat →
    ∃ b', ba_set b (Z.of_nat i) v = Ok b' ∧ bits b' = <[i := v]> (bits b);
  bits_or : ∀ a b, length (bits a) = length (bits b) →
    ∃ c, ba_or a b = Ok c ∧ bits c = zip_with orb (bits a) (bits b);
  bits_all : ∀ b, ba_all b = forallb (λ v, v) (bits b);
  bits_count : ∀ b v, ba_count b v = Z.of_nat (length (filter (λ x, x = v) (bits b)));
  bits_index : ∀ b v (i : nat), list_find (λ x, x = v) (bits b) = Some (i, v) →
    ba_index b v = Ok (Z.of_nat i);
  bits_search : ∀ b s, bits s ≠ [] →
    ba_search b s = Z.of_nat <$> filter
      (λ i, take (length (bits s)) (drop i (bits b)) = bits s) (seq 0 (length (bits b)));
  bits_to01 : ∀ b, ba_to01 b = string_of_bits (bits b)
}.

(** ** IPv4 networks *)

(** An [ipaddress.IPv4Network] or [IPv6Network]: address and prefix length. *)
Notation ipnet := (Z * Z)%type.

Definition ComputeIpv4NumHosts (network_size : Z) : Z := 2 ^ (32 - network_size).

Definition IPV4_NETWORK_MIN_SIZE : Z := 30.
Definition IPV4_NETWORK_MAX_SIZE : Z := 16.
Definition IPV4_NETWORK_MIN_NUM_HOSTS : Z := ComputeIpv4NumHosts IPV4_NETWORK_MIN_SIZE.
Definition IPV4_NETWORK_MAX_NUM_HOSTS : Z := ComputeIpv4NumHosts IPV4_NETWORK_MAX_SIZE.

Definition num_addresses (n : ipnet) : Z := 2 ^ (32 - n.2).

(** [ipaddress.ip_network]: the prefix and the address are in range and no host
    bits are set. *)
Definition ip_network (n : ipnet) : exc ipnet :=
  if (0 <=? n.2) && (n.2 <=? 32) && (0 <=? n.1) && (n.1 <? 2 ^ 32)
     && (Z.land n.1 (num_addresses n - 1) =? 0)
  then Ok n else Raise (PyExn ValueError "has host bits set").

(** [addr in network] *)
Definition in_network (a : Z) (n : ipnet) : bool :=
  (n.1 <=? a) && (a <=? n.1 + num_addresses n - 1).

(** [network[n]] *)
Definition nth_address (n : ipnet) (i : Z) : exc Z :=
  let broadcast := n.1 + num_addresses n - 1 in
  if 0 <=? i
  then if n.1 + i >? broadcast then Raise (PyExn IndexError "") else Ok (n.1 + i)
  else if broadcast + (i + 1) <? n.1 then Raise (PyExn IndexError "")
       else Ok (broadcast + (i + 1)).

(** IPv6: [addr in network6] and [addr.is_link_local] (fe80::/10). *)
Definition in_network6 (a : Z) (n : ipnet) : bool :=
  (n.1 <=? a) && (a <=? n.1 + 2 ^ (128 - n.2) - 1).
Definition is_link_local6 (a : Z) : bool := Z.shiftr a 118 =? 0xfe80 / 64.

(** ** The pool *)

(** The slots of [objects.Network] that the pool uses. *)
Record network := Network {
  n_network : ipnet;
  n_gateway : option Z;
  n_network6 : option ipnet;
  n_gateway6 : option Z;
  n_reservations : option string;
  n_ext_reservations : option string
}.

Section address_pool.
  Context {B : Type} `{BitArray B}.

Record pool := Pool {
  p_net : network;
  p_network : ipnet;
  p_gateway : option Z;
  p_network6 : option ipnet;
  p_gateway6 : option Z;
  p_reservations : B;
  p_ext_reservations : B
}.

Definition AddressPoolErr : exn := GntExn AddressPoolError [].

(** [CompatBitarray.search]: at most [limit] positions. *)
Definition search (b sub : B) (limit : option nat) : list Z :=
  let res := ba_search b sub in
  match limit with None => res | Some n => take n res end.

Definition FREE : exc B := ba_parse "0".
Definition RESERVED : exc B := ba_parse "1".

(** The bits stored in the network object, or none set. *)
Definition load_bits (s : option string) (n : Z) : exc B :=
  match s with
  | None | Some EmptyString => Ok (ba_setall false (ba_new n))
  | Some s => ba_parse s
  end.

(** [AddressPool.__init__] *)
Definition new_pool (net : network) : exc pool :=
  let* network := ip_network (n_network net) in
  if num_addresses network >? IPV4_NETWORK_MAX_NUM_HOSTS then Raise AddressPoolErr
  else if num_addresses network <? IPV4_NETWORK_MIN_NUM_HOSTS then Raise AddressPoolErr
  else
    let* res := load_bits (n_reservations net) (num_addresses network) in
    let* ext := load_bits (n_ext_reservations net) (num_addresses network) in
    do* assert (ba_len res =? num_addresses network) in
    do* assert (ba_len ext =? num_addresses network) in
    Ok (Pool net network (n_gateway net) (n_network6 net) (n_gateway6 net) res ext).

Definition Contains (address : option Z) (p : pool) : bool :=
  match address with None => false | Some addr => in_network addr (p_network p) end.

Definition GetAddrIndex (address : Z) (p : pool) : exc Z :=
  if in_network address (p_network p) then Ok (address - (p_network p).1)
  else Raise AddressPoolErr.

Definition Update (p : pool) : pool :=
  let net := p_net p in
  Pool (Network (n_network net) (n_gateway net) (n_network6 net) (n_gateway6 net)
                (Some (ba_to01 (p_reservations p))) (Some (ba_to01 (p_ext_reservations p))))
       (p_network p) (p_gateway p) (p_network6 p) (p_gateway6 p)
       (p_reservations p) (p_ext_reservations p).

Definition set_bits (res ext : B) (p : pool) : pool :=
  Pool (p_net p) (p_network p) (p_gateway p) (p_network6 p) (p_gateway6 p) res ext.

Definition Mark (address : Z) (value external : bool) (p : pool) : exc pool :=
  let* idx := GetAddrIndex address p in
  let* p := (if external
             then rmap (λ b, set_bits (p_reservations p) b p)
                       (ba_set (p_ext_reservations p) idx value)
             else rmap (λ b, set_bits b (p_ext_reservations p) p)
                       (ba_set (p_reservations p) idx value)) in
  Ok (Update p).

Definition GetSize (p : pool) : Z := 2 ^ (32 - (p_network p).2).

Definition all_reservations (p : pool) : exc B :=
  ba_or (p_reservations p) (p_ext_reservations p).

Definition Validate (p : pool) : exc unit :=
  do* assert (ba_len (p_reservations p) =? GetSize p) in
  do* assert (ba_len (p_ext_reservations p) =? GetSize p) in
  do* (match p_gateway p with
       | Some gw => assert (in_network gw (p_network p))
       | None => Ok tt
       end) in
  match p_network6 p, p_gateway6 p with
  | Some n6, Some gw6 => assert (in_network6 gw6 n6 || is_link_local6 gw6)
  | _, _ => Ok tt
  end.

Definition IsFull (p : pool) : exc bool := rmap ba_all (all_reservations p).

Definition GetReservedCount (p : pool) : exc Z :=
  rmap (λ b, ba_count b true) (all_reservations p).

Definition GetFreeCount (p : pool) : exc Z :=
  rmap (λ b, ba_count b false) (all_reservations p).

(** [s.replace("1", "X").replace("0", ".")] *)
Fixpoint show_map (s : string) : string :=
  match s with
  | EmptyString => EmptyString
  | String a s => String (if decide (a = "1"%char) then "X"%char
                          else if decide (a = "0"%char) then "."%char else a) (show_map s)
  end.

Definition GetMap (p : pool) : exc string := rmap (λ b, show_map (ba_to01 b)) (all_reservations p).

Definition IsReserved (address : Z) (external : bool) (p : pool) : exc bool :=
  let* idx := GetAddrIndex address p in
  ba_get (if external then p_ext_reservations p else p_reservations p) idx.

Definition Reserve (address : Z) (external : bool) (p : pool) : exc pool :=
  let* reserved := IsReserved address external p in
  if reserved : bool then Raise AddressPoolErr else Mark address true external p.

Definition Release (address : Z) (external : bool) (p : pool) : exc pool :=
  let* reserved := IsReserved address external p in
  if negb reserved then Raise AddressPoolErr else Mark address false external p.

Definition GetFreeAddress (p : pool) : exc (pool * Z) :=
  let* full := IsFull p in
  if full : bool then Raise AddressPoolErr
  else
    let* all := all_reservations p in
    let* idx := ba_index all false in
    let* address := nth_address (p_network p) idx in
    let* p := Reserve address false p in
    Ok (p, address).

Definition GenerateFree (p : pool) : exc Z :=
  let* all := all_reservations p in
  let* free := FREE in
  match search all free (Some 1%nat) with
  | idx :: _ => nth_address (p_network p) idx
  | [] => Raise AddressPoolErr
  end.

(** [[str(self.network[idx]) for idx in idxs]] *)
Fixpoint nth_addresses (n : ipnet) (idxs : list Z) : exc (list Z) :=
  match idxs with
  | [] => Ok []
  | i :: idxs => let* a := nth_address n i in rmap (cons a) (nth_addresses n idxs)
  end.

Definition GetExternalReservations (p : pool) : exc (list Z) :=
  let* reserved := RESERVED in
  nth_addresses (p_network p) (search (p_ext_reservations p) reserved None).

Definition InitializeNetwork (net : network) : exc pool :=
  let* obj := new_pool net in
  let obj := Update obj in
  let* first := nth_address (p_network obj) 0 in
  let* last := nth_address (p_network obj) (-1) in
  let* obj := Reserve first true obj in
  let* obj := Reserve last true obj in
  let* obj := (match n_gateway (p_net obj) with
               | Some gw => Reserve gw true obj
               | None => Ok obj
               end) in
  do* Validate obj in
  Ok obj.
End address_pool.

Arguments pool : clear implicits.

(** ** The invariant *)

Section pool_laws.
  Context {B : Type} `{BitArrayLaws B}.
  Implicit Types (p : pool B) (net : network) (a : Z) (i k : nat).

(** The number of addresses. *)
Definition size p : nat := Z.to_nat (num_addresses (p_network p)).

Record pool_ok p : Prop := {
  po_network : ip_network (n_network (p_net p)) = Ok (p_network p);
  po_max : num_addresses (p_network p) ≤ IPV4_NETWORK_MAX_NUM_HOSTS;
  po_min : IPV4_NETWORK_MIN_NUM_HOSTS ≤ num_addresses (p_network p);
  po_gateway : p_gateway p = n_gateway (p_net p);
  po_gateway6 : p_gateway6 p = n_gateway6 (p_net p);
  po_network6 : p_network6 p = n_network6 (p_net p);
  po_res : length (bits (p_reservations p)) = size p;
  po_ext : length (bits (p_ext_reservations p)) = size p
}.

(** The [i]-th address of the network and the bits for it. *)
Definition address p i : Z := (p_network p).1 + Z.of_nat i.
Definition bits_of (external : bool) p : list bool :=
  bits (if external then p_ext_reservations p else p_reservations p).
Definition taken p i : Prop := bits_of false p !! i = Some true ∨ bits_of true p !! i = Some true.

Lemma size_pos p : pool_ok p → (4 ≤ size p)%nat.
Proof.
  intros Hp. unfold size. pose proof (po_min _ Hp) as Hm.
  change IPV4_NETWORK_MIN_NUM_HOSTS with 4 in Hm. lia.
Qed.

Lemma bits_of_length e p : pool_ok p → length (bits_of e p) = size p.
Proof. intros Hp. destruct e; apply Hp. Qed.

Lemma in_network_address p i :
  pool_ok p → in_network (address p i) (p_network p) = true ↔ (i < size p)%nat.
Proof.
  intros Hp. pose proof (size_pos p Hp) as Hs. unfold in_network, address, size in *.
  rewrite andb_true_iff, !Z.leb_le. lia.
Qed.

Lemma in_network_inv p a :
  pool_ok p → in_network a (p_network p) = true → ∃ i, a = address p i ∧ (i < size p)%nat.
Proof.
  intros Hp Ha. exists (Z.to_nat (a - (p_network p).1)).
  assert (a = address p (Z.to_nat (a - (p_network p).1))) as E.
  { unfold in_network in Ha. apply andb_true_iff in Ha as [?%Z.leb_le _].
    unfold address. lia. }
  split; [done|]. apply in_network_address; [done|]. by rewrite <-E.
Qed.

Lemma GetAddrIndex_ok p i :
  pool_ok p → (i < size p)%nat → GetAddrIndex (address p i) p = Ok (Z.of_nat i).
Proof.
  intros Hp Hi. unfold GetAddrIndex.
  rewrite (proj2 (in_network_address p i Hp) Hi). f_equal. unfold address. lia.
Qed.

Lemma nth_address_ok p i :
  pool_ok p → (i < size p)%nat → nth_address (p_network p) (Z.of_nat i) = Ok (address p i).
Proof.
  intros Hp Hi. unfold nth_address, address, size in *.
  rewrite (proj2 (Z.leb_le _ _)) by lia.
  destruct (Z.gtb_spec ((p_network p).1 + Z.of_nat i)
              ((p_network p).1 + num_addresses (p_network p) - 1)); [lia|done].
Qed.

(** The pool with other bits, and written back. *)
Lemma Update_ok p : pool_ok p → pool_ok (Update p).
Proof. by intros []. Qed.

Definition write e i (v : bool) p p' : Prop :=
  bits_of e p' = <[i := v]> (bits_of e p) ∧ bits_of (negb e) p' = bits_of (negb e) p ∧
  p_network p' = p_network p ∧ p_gateway p' = p_gateway p ∧
  n_gateway (p_net p') = n_gateway (p_net p) ∧
  p_network6 p' = p_network6 p ∧ p_gateway6 p' = p_gateway6 p ∧
  n_reservations (p_net p') = Some (string_of_bits (bits_of false p')) ∧
  n_ext_reservations (p_net p') = Some (string_of_bits (bits_of true p')).

Lemma Mark_ok e i v p :
  pool_ok p → (i < size p)%nat →
  ∃ p', Mark (address p i) v e p = Ok p' ∧ pool_ok p' ∧ write e i v p p'.
Proof.
  intros Hp Hi. unfold Mark. rewrite GetAddrIndex_ok by done. simpl.
  assert (∃ b, ba_set (if e then p_ext_reservations p else p_reservations p) (Z.of_nat i) v
               = Ok b ∧ bits b = <[i := v]> (bits_of e p)) as (b & Hb & Hbits).
  { apply bits_set. change (i < length (bits_of e p))%nat. by rewrite bits_of_length. }
  destruct e; rewrite Hb; simpl; eexists; (split; [done|]); split;
    try (destruct Hp; split; simpl; try done; unfold size; simpl;
         rewrite Hbits, length_insert; done);
    unfold write, bits_of; simpl; by rewrite !bits_to01.
Qed.

Lemma IsReserved_ok e i v p :
  pool_ok p → bits_of e p !! i = Some v → IsReserved (address p i) e p = Ok v.
Proof.
  intros Hp Hv. assert (i < size p)%nat as Hi.
  { rewrite <-(bits_of_length e p Hp). by eapply lookup_lt_Some. }
  unfold IsReserved. rewrite GetAddrIndex_ok by done. simpl. by apply bits_get.
Qed.

Lemma Reserve_ok e i p :
  pool_ok p → bits_of e p !! i = Some false →
  ∃ p', Reserve (address p i) e p = Ok p' ∧ pool_ok p' ∧ write e i true p p'.
Proof.
  intros Hp Hv. unfold Reserve. rewrite (IsReserved_ok e i false p Hp Hv). simpl.
  apply Mark_ok; [done|]. rewrite <-(bits_of_length e p Hp). by eapply lookup_lt_Some.
Qed.

Lemma Release_ok e i p :
  pool_ok p → bits_of e p !! i = Some true →
  ∃ p', Release (address p i) e p = Ok p' ∧ pool_ok p' ∧ write e i false p p'.
Proof.
  intros Hp Hv. unfold Release. rewrite (IsReserved_ok e i true p Hp Hv). simpl.
  apply Mark_ok; [done|]. rewrite <-(bits_of_length e p Hp). by eapply lookup_lt_Some.
Qed.

Lemma all_reservations_ok p :
  pool_ok p → ∃ c, all_reservations p = Ok c ∧
    bits c = zip_with orb (bits_of false p) (bits_of true p).
Proof. intros Hp. apply bits_or. by rewrite (po_res _ Hp), (po_ext _ Hp). Qed.

Lemma all_lookup p i :
  pool_ok p → (i < size p)%nat →
  ∃ u v, bits_of false p !! i = Some u ∧ bits_of true p !! i = Some v ∧
         zip_with orb (bits_of false p) (bits_of true p) !! i = Some (u || v).
Proof.
  intros Hp Hi.
  destruct (lookup_lt_is_Some_2 (bits_of false p) i) as [u Hu]; [by rewrite bits_of_length|].
  destruct (lookup_lt_is_Some_2 (bits_of true p) i) as [v Hv]; [by rewrite bits_of_length|].
  exists u, v. split; [done|]. split; [done|]. apply lookup_zip_with_Some. eauto.
Qed.

(** ** Free addresses *)

(** The first position that is free in both maps. *)
Definition first_free p i : Prop :=
  bits_of false p !! i = Some false ∧ bits_of true p !! i = Some false ∧
  ∀ k, (k < i)%nat → taken p k.

Definition full p : Prop := ∀ k, (k < size p)%nat → taken p k.

(** The two searches: [all()] with [index], and [search] with limit 1. *)
Lemma free_cases (bs : list bool) :
  (forallb (λ v, v) bs = true ∧ (∀ k, (k < length bs)%nat → bs !! k = Some true) ∧
   filter (λ i, take 1 (drop i bs) = [false]) (seq 0 (length bs)) = []) ∨
  (forallb (λ v, v) bs = false ∧ ∃ i rest,
     list_find (λ x, x = false) bs = Some (i, false) ∧
     filter (λ i, take 1 (drop i bs) = [false]) (seq 0 (length bs)) = i :: rest ∧
     bs !! i = Some false ∧ ∀ k, (k < i)%nat → bs !! k = Some true).
Proof.
  induction bs as [|b bs IH]; [left; split_and!; [done|intros k Hk; simpl in Hk; lia|done]|]. cbn [length seq]. rewrite <-fmap_S_seq.
  rewrite filter_cons. rewrite (filter_fmap_iff S _ (λ i, take 1 (drop i bs) = [false])) by (by intros x).
  destruct b; simpl.
  - destruct IH as [(Ha & Hk & Hf)|(Ha & i & rest & Hl & Hf & Hi & Hk)].
    + left. split; [done|]. split; [|by rewrite Hf].
      intros [|k] Hlt; simpl; [done|]. apply Hk. simpl in Hlt. lia.
    + right. split; [done|]. exists (S i), (S <$> rest). rewrite Hl, Hf. simpl.
      split_and!; try done. intros [|k] Hlt; simpl; [done|]. apply Hk. lia.
  - right. split; [done|]. exists 0%nat. eexists. split_and!; try done. intros. lia.
Qed.

Lemma zip_taken p i :
  pool_ok p → (i < size p)%nat →
  (zip_with orb (bits_of false p) (bits_of true p) !! i = Some true → taken p i) ∧
  (zip_with orb (bits_of false p) (bits_of true p) !! i = Some false →
     bits_of false p !! i = Some false ∧ bits_of true p !! i = Some false).
Proof.
  intros Hp Hi. destruct (all_lookup p i Hp Hi) as (u & v & Hu & Hv & ->). unfold taken.
  rewrite Hu, Hv. destruct u, v; simpl; naive_solver.
Qed.

Lemma all_length p :
  pool_ok p → length (zip_with orb (bits_of false p) (bits_of true p)) = size p.
Proof. intros Hp. rewrite length_zip_with, !bits_of_length by done. lia. Qed.

(** [GetFreeAddress] hands out the lowest address that neither an instance
    nor an external reservation uses, marks exactly that address as used by an
    instance and writes the maps back to the network object; the pool is full
    only if every address is taken.  [GenerateFree] finds the same address. *)
Theorem GetFreeAddress_correct p :
  pool_ok p →
  match GetFreeAddress p with
  | Ok (p', a) =>
      pool_ok p' ∧ GenerateFree p = Ok a ∧
      ∃ i, a = address p i ∧ first_free p i ∧ write false i true p p'
  | Raise e => e = AddressPoolErr ∧ GenerateFree p = Raise AddressPoolErr ∧ full p
  end.
Proof.
  intros Hp. unfold GetFreeAddress, GenerateFree, IsFull, FREE.
  destruct (all_reservations_ok p Hp) as (c & -> & Hc). simpl. rewrite bits_all, Hc.
  destruct (bits_parse [false]) as (fr & Hfr & Hfrb). simpl in Hfr. rewrite Hfr. simpl.
  unfold search. rewrite bits_search, Hfrb, Hc by (by rewrite Hfrb). simpl.
  pose proof (all_length p Hp) as Hlen.
  destruct (free_cases (zip_with orb (bits_of false p) (bits_of true p)))
    as [(-> & Hk & ->)|(-> & i & rest & Hl & -> & Hi & Hk)]; simpl.
  - split; [done|]. split; [done|]. intros k Hlt. apply zip_taken; [done..|].
    apply Hk. by rewrite Hlen.
  - assert (i < size p)%nat as Hlt by (rewrite <-Hlen; by eapply lookup_lt_Some).
    rewrite (bits_index c false i) by (by rewrite Hc). simpl.
    rewrite nth_address_ok by done. simpl.
    destruct (zip_taken p i Hp Hlt) as [_ Hfree]. destruct (Hfree Hi) as [Hr He].
    destruct (Reserve_ok false i p Hp Hr) as (p' & -> & Hp' & Hw). simpl.
    split; [done|]. split; [done|]. exists i. split; [done|]. split; [|done].
    split; [done|]. split; [done|]. intros k Hki. apply zip_taken; [done|lia|]. by apply Hk.
Qed.

(** Reserving an address outside the network or one already reserved, or
    releasing one that is not, is refused; otherwise the bit of that address in
    the chosen map changes and nothing else does, and a release undoes a
    reservation. *)
Theorem Reserve_Release p a e :
  pool_ok p →
  if in_network a (p_network p) then
    ∃ i, a = address p i ∧
    if decide (bits_of e p !! i = Some true) then
      Reserve a e p = Raise AddressPoolErr ∧
      ∃ p', Release a e p = Ok p' ∧ pool_ok p' ∧ write e i false p p'
    else
      Release a e p = Raise AddressPoolErr ∧
      ∃ p', Reserve a e p = Ok p' ∧ pool_ok p' ∧ write e i true p p' ∧
        ∃ p'', Release a e p' = Ok p'' ∧
          bits_of false p'' = bits_of false p ∧ bits_of true p'' = bits_of true p
  else Reserve a e p = Raise AddressPoolErr ∧ Release a e p = Raise AddressPoolErr.
Proof.
  intros Hp. destruct (in_network a (p_network p)) eqn:Hin.
  2: { unfold Reserve, Release, IsReserved, GetAddrIndex. by rewrite Hin. }
  destruct (in_network_inv p a Hp Hin) as (i & -> & Hi). exists i. split; [done|].
  destruct (lookup_lt_is_Some_2 (bits_of e p) i) as [v Hv]; [by rewrite bits_of_length|].
  rewrite Hv. case_decide as Hd.
  - injection Hd as ->. split; [|by apply Release_ok].
    unfold Reserve. by rewrite (IsReserved_ok e i true p Hp Hv).
  - assert (v = false) as -> by (by destruct v).
    split; [unfold Release; by rewrite (IsReserved_ok e i false p Hp Hv)|].
    destruct (Reserve_ok e i p Hp Hv) as (p' & E & Hp' & Hw). exists p'.
    split; [done|]. split; [done|]. split; [done|].
    destruct Hw as (Hb & Hn & Hnet & _).
    assert (address p i = address p' i) as -> by (unfold address; by rewrite Hnet).
    destruct (Release_ok e i p') as (p'' & -> & _ & Hw'); [done| |].
    { rewrite Hb. apply list_lookup_insert_eq. by rewrite bits_of_length. }
    exists p''. split; [done|]. destruct Hw' as (Hb' & Hn' & _).
    rewrite Hb, list_insert_insert_eq, list_insert_id in Hb' by done. rewrite Hn in Hn'.
    by destruct e.
Qed.

(** ** Counting *)

Lemma count_split (bs : list bool) :
  (length (filter (λ x, x = true) bs) + length (filter (λ x, x = false) bs))%nat = length bs.
Proof. induction bs as [|[] bs IH]; simpl; rewrite ?filter_cons; simpl; lia. Qed.

Lemma count_false (bs : list bool) :
  forallb (λ v, v) bs = true ↔ length (filter (λ x, x = false) bs) = 0%nat.
Proof. induction bs as [|[] bs IH]; simpl; rewrite ?filter_cons; simpl; by try tauto. Qed.

Lemma counts_ok p :
  pool_ok p → ∃ r f, GetReservedCount p = Ok r ∧ GetFreeCount p = Ok f ∧
    r + f = Z.of_nat (size p) ∧ (IsFull p = Ok true ↔ f = 0).
Proof.
  intros Hp. destruct (all_reservations_ok p Hp) as (c & Hc & Hb).
  unfold GetReservedCount, GetFreeCount, IsFull. rewrite Hc. simpl.
  eexists _, _. split; [done|]. split; [done|]. rewrite !bits_count, bits_all, Hb.
  pose proof (count_split (zip_with orb (bits_of false p) (bits_of true p))) as Hs.
  rewrite all_length in Hs by done. split; [lia|].
  pose proof (count_false (zip_with orb (bits_of false p) (bits_of true p))) as Hc0.
  split; [intros [= E%Hc0]; lia|intros E]. f_equal. apply Hc0. lia.
Qed.

(** ** Loading and creating *)

(** A network whose stored maps, if any, have one bit per address. *)
Definition stored_ok (s : option string) (n : nat) (bs : list bool) : Prop :=
  length bs = n ∧ (s = Some (string_of_bits bs) ∨ s ∈ [None; Some EmptyString] ∧ bs = replicate n false).

Lemma load_bits_ok (s : option string) (n : Z) bs :
  0 < n → stored_ok s (Z.to_nat n) bs →
  ∃ b : B, load_bits s n = Ok b ∧ bits b = bs.
Proof.
  intros Hn [Hlen [-> |[Hs ->]]].
  - destruct bs as [|v bs]; [simpl in Hlen; lia|]. destruct (bits_parse (v :: bs)) as (b & Hb & E).
    exists b. split; [|done]. unfold load_bits. by destruct v.
  - exists (ba_setall false (ba_new n)). split; [|rewrite bits_setall, bits_new by lia; done].
    unfold load_bits. assert (s = None ∨ s = Some EmptyString) as [-> | ->] by set_solver; done.
Qed.

Lemma new_pool_ok net rs es :
  ip_network (n_network net) = Ok (n_network net) →
  IPV4_NETWORK_MIN_NUM_HOSTS ≤ num_addresses (n_network net) ≤ IPV4_NETWORK_MAX_NUM_HOSTS →
  stored_ok (n_reservations net) (Z.to_nat (num_addresses (n_network net))) rs →
  stored_ok (n_ext_reservations net) (Z.to_nat (num_addresses (n_network net))) es →
  ∃ p, new_pool net = Ok p ∧ pool_ok p ∧ p_net p = net ∧ p_network p = n_network net ∧
       bits_of false p = rs ∧ bits_of true p = es.
Proof.
  intros Hn [Hmin Hmax] Hr He. unfold new_pool. rewrite Hn. simpl.
  change IPV4_NETWORK_MIN_NUM_HOSTS with 4 in Hmin |- *.
  change IPV4_NETWORK_MAX_NUM_HOSTS with 65536 in Hmax |- *.
  destruct (Z.gtb_spec (num_addresses (n_network net)) 65536); [lia|].
  destruct (Z.ltb_spec (num_addresses (n_network net)) 4); [lia|].
  destruct (load_bits_ok (n_reservations net) (num_addresses (n_network net)) rs)
    as (r & -> & Er); [lia|done|].
  destruct (load_bits_ok (n_ext_reservations net) (num_addresses (n_network net)) es)
    as (e & -> & Ee); [lia|done|].
  simpl. destruct Hr as [Hr _], He as [He _].
  rewrite !bits_len, Er, Ee, Hr, He, Z2Nat.id, Z.eqb_refl by lia. simpl.
  eexists. split; [done|]. split; [|done]. split; try done; simpl.
  - by rewrite Er.
  - by rewrite Ee.
Qed.

(** The network object after [Update] describes the same pool. *)
Lemma reload_ok p :
  pool_ok p → ∃ p', new_pool (p_net (Update p)) = Ok p' ∧ pool_ok p' ∧
    p_network p' = p_network p ∧
    bits_of false p' = bits_of false p ∧ bits_of true p' = bits_of true p.
Proof.
  intros Hp. pose proof (po_network _ Hp) as Hn.
  assert (n_network (p_net p) = p_network p) as En.
  { unfold ip_network in Hn. by destruct (_ && _); simplify_eq. }
  destruct (new_pool_ok (p_net (Update p)) (bits_of false p) (bits_of true p))
    as (p' & E & Hp' & _ & Hnet & Hb);
    [| | | |exists p'; split; [done|]; split; [done|]; split; [by rewrite Hnet|done]];
    simpl; rewrite ?En.
  - by rewrite En in Hn.
  - split; apply Hp.
  - split; [by apply bits_of_length|]. left. by rewrite bits_to01.
  - split; [by apply bits_of_length|]. left. by rewrite bits_to01.
Qed.

(** The external map of a new network. *)
Definition initial_ext net (n : nat) : list bool :=
  let bs := <[(n - 1)%nat := true]> (<[0%nat := true]> (replicate n false)) in
  match n_gateway net with
  | Some gw => <[Z.to_nat (gw - (n_network net).1) := true]> bs
  | None => bs
  end.

(** What [InitializeNetwork] expects of the gateways. *)
Definition gateway_free net : bool :=
  match n_gateway net with
  | Some gw => ((n_network net).1 <? gw)
               && (gw <? (n_network net).1 + num_addresses (n_network net) - 1)
  | None => true
  end.

Definition gateway6_ok net : bool :=
  match n_network6 net, n_gateway6 net with
  | Some n6, Some gw6 => in_network6 gw6 n6 || is_link_local6 gw6
  | _, _ => true
  end.

Lemma write_gateway6 e i v p p' :
  pool_ok p → pool_ok p' → write e i v p p' → gateway6_ok (p_net p') = gateway6_ok (p_net p).
Proof.
  intros Hp Hp' (_ & _ & _ & _ & _ & H6 & Hg6 & _). unfold gateway6_ok.
  by rewrite <-(po_network6 _ Hp), <-(po_gateway6 _ Hp), <-(po_network6 _ Hp'),
    <-(po_gateway6 _ Hp'), H6, Hg6.
Qed.

Lemma nth_address_ends p :
  pool_ok p → nth_address (p_network p) 0 = Ok (address p 0) ∧
    nth_address (p_network p) (-1) = Ok (address p (size p - 1)).
Proof.
  intros Hp. pose proof (size_pos p Hp) as Hs. split.
  - apply (nth_address_ok p 0 Hp). lia.
  - unfold nth_address, address, size in *. simpl.
    destruct (Z.ltb_spec ((p_network p).1 + num_addresses (p_network p) - 1 + (-1 + 1))
                (p_network p).1); [lia|]. f_equal. lia.
Qed.

(** Reserving the first and the last address of a fresh pool. *)
Lemma reserve_ends p (n := size p) :
  pool_ok p → bits_of true p = replicate n false →
  ∃ p1 p2, Reserve (address p 0) true p = Ok p1 ∧ Reserve (address p (n - 1)) true p1 = Ok p2 ∧
    pool_ok p2 ∧ p_network p2 = p_network p ∧ n_gateway (p_net p2) = n_gateway (p_net p) ∧
    bits_of false p2 = bits_of false p ∧
    bits_of true p2 = <[(n - 1)%nat := true]> (<[0%nat := true]> (replicate n false)) ∧
    gateway6_ok (p_net p2) = gateway6_ok (p_net p).
Proof.
  intros Hp Hb. pose proof (size_pos p Hp) as Hs.
  destruct (Reserve_ok true 0 p Hp) as (p1 & E1 & Hp1 & Hw1).
  { rewrite Hb. apply lookup_replicate. split; [done|lia]. }
  destruct (Reserve_ok true (n - 1) p1 Hp1) as (p2 & E2 & Hp2 & Hw2).
  { destruct Hw1 as [-> _]. rewrite Hb, list_lookup_insert_ne by lia.
    apply lookup_replicate. split; [done|lia]. }
  exists p1, p2. split; [done|].
  rewrite (write_gateway6 _ _ _ _ _ Hp1 Hp2 Hw2), (write_gateway6 _ _ _ _ _ Hp Hp1 Hw1).
  destruct Hw1 as (Hb1 & Hf1 & N1 & _ & G1 & _), Hw2 as (Hb2 & Hf2 & N2 & _ & G2 & _).
  unfold address in E2 |- *. rewrite N1 in E2. simpl in Hf1, Hf2.
  by rewrite E2, N2, N1, G2, G1, Hf2, Hf1, Hb2, Hb1, Hb.
Qed.

Lemma Validate_ok p :
  pool_ok p →
  match p_gateway p with Some gw => in_network gw (p_network p) = true | None => True end →
  gateway6_ok (p_net p) = true → Validate p = Ok tt.
Proof.
  intros Hp Hg Hg6. pose proof (size_pos p Hp) as Hs. unfold size in Hs.
  unfold Validate, GetSize, gateway6_ok in *.
  rewrite !bits_len, (po_res _ Hp), (po_ext _ Hp). unfold size.
  change (2 ^ (32 - (p_network p).2)) with (num_addresses (p_network p)).
  rewrite Z2Nat.id, Z.eqb_refl by lia. simpl. rewrite (po_network6 _ Hp), (po_gateway6 _ Hp).
  destruct (p_gateway p) as [gw|]; [rewrite Hg|]; simpl;
    destruct (n_network6 (p_net p)), (n_gateway6 (p_net p)); try done; by rewrite Hg6.
Qed.

(** The gateway's bit, when the first and the last one are set. *)
Lemma reserve_gateway p gw (n := size p) :
  pool_ok p → bits_of true p = <[(n - 1)%nat := true]> (<[0%nat := true]> (replicate n false)) →
  if ((p_network p).1 <? gw) && (gw <? (p_network p).1 + num_addresses (p_network p) - 1)
  then ∃ p', Reserve gw true p = Ok p' ∧ pool_ok p' ∧ in_network gw (p_network p) = true ∧
         write true (Z.to_nat (gw - (p_network p).1)) true p p'
  else Reserve gw true p = Raise AddressPoolErr.
Proof.
  intros Hp Hb. pose proof (size_pos p Hp) as Hs.
  assert (num_addresses (p_network p) = Z.of_nat n) as Hn by (unfold n, size in *; lia).
  destruct (in_network gw (p_network p)) eqn:Hin.
  - destruct (in_network_inv p gw Hp Hin) as (i & -> & Hi). rewrite Hn. unfold address at 1 2 3.
    destruct (Z.ltb_spec (p_network p).1 ((p_network p).1 + Z.of_nat i));
    destruct (Z.ltb_spec ((p_network p).1 + Z.of_nat i) ((p_network p).1 + Z.of_nat n - 1));
      cbn [andb].
    2-4: unfold Reserve; rewrite (IsReserved_ok true i true p Hp); [done|]; rewrite Hb.
    + destruct (Reserve_ok true i p Hp) as (p' & E & Hp' & Hw).
      { rewrite Hb, !list_lookup_insert_ne by lia. by apply lookup_replicate. }
      exists p'. split; [done|]. split; [done|]. split; [done|].
      unfold address. replace (Z.to_nat _) with i by lia. done.
    + assert (i = n - 1)%nat as -> by lia. apply list_lookup_insert_eq.
      rewrite length_insert, length_replicate. lia.
    + assert (i = 0)%nat as -> by lia. rewrite list_lookup_insert_ne by lia.
      apply list_lookup_insert_eq. rewrite length_replicate. lia.
    + lia.
  - unfold in_network in Hin.
    assert (((p_network p).1 <? gw) && (gw <? (p_network p).1 + num_addresses (p_network p) - 1)
            = false) as ->.
    { destruct (Z.leb_spec (p_network p).1 gw); destruct (Z.ltb_spec (p_network p).1 gw);
        destruct (Z.leb_spec gw ((p_network p).1 + num_addresses (p_network p) - 1));
        destruct (Z.ltb_spec gw ((p_network p).1 + num_addresses (p_network p) - 1));
        simpl in *; try done; lia. }
    unfold Reserve, IsReserved, GetAddrIndex, in_network. by rewrite Hin.
Qed.

(** Initialising a network without stored maps reserves its first and last
    address and the gateway externally, and nothing else; a pool made from the
    network object afterwards has the same maps.  A gateway that is the network
    or broadcast address or lies outside is refused. *)
Theorem InitializeNetwork_correct net (n := Z.to_nat (num_addresses (n_network net))) :
  ip_network (n_network net) = Ok (n_network net) →
  IPV4_NETWORK_MIN_NUM_HOSTS ≤ num_addresses (n_network net) ≤ IPV4_NETWORK_MAX_NUM_HOSTS →
  n_reservations net = None → n_ext_reservations net = None → gateway6_ok net = true →
  if gateway_free net then
    ∃ p p', InitializeNetwork net = Ok p ∧ pool_ok p ∧
      bits_of false p = replicate n false ∧ bits_of true p = initial_ext net n ∧
      new_pool (p_net (Update p)) = Ok p' ∧
      bits_of false p' = bits_of false p ∧ bits_of true p' = bits_of true p
  else InitializeNetwork (B := B) net = Raise AddressPoolErr.
Proof.
  intros Hn Hsz Hr He H6.
  destruct (new_pool_ok net (replicate n false) (replicate n false))
    as (p0 & E0 & Hp0 & Hnet0 & Hn0 & Hr0 & He0); [done..| | |].
  { split; [by rewrite length_replicate|right; rewrite Hr; set_solver]. }
  { split; [by rewrite length_replicate|right; rewrite He; set_solver]. }
  assert (size (Update p0) = n) as En by (unfold n, size; simpl; by rewrite Hn0).
  assert (pool_ok (Update p0)) as Hq by (by apply Update_ok).
  unfold InitializeNetwork. rewrite E0. cbn [rbind].
  destruct (nth_address_ends _ Hq) as [-> ->]. cbn [rbind].
  destruct (reserve_ends (Update p0) Hq) as (p1 & p2 & -> & E2 & Hp2 & Hn2 & Hg2 & Hf2 & Hb2 & H62).
  { rewrite En. exact He0. }
  cbn [rbind]. rewrite E2. cbn [rbind]. rewrite En in Hb2. simpl in Hn2, Hg2, H62.
  change (bits_of false (Update p0)) with (bits_of false p0) in Hf2.
  rewrite Hn0 in Hn2. rewrite Hnet0 in Hg2, H62. rewrite Hr0 in Hf2.
  assert (size p2 = n) as Es2 by (unfold size, n; by rewrite Hn2).
  rewrite Hg2. unfold gateway_free, initial_ext.
  pose proof (po_gateway _ Hp2) as Hgp. rewrite Hg2 in Hgp.
  destruct (n_gateway net) as [gw|].
  - pose proof (reserve_gateway p2 gw Hp2) as Hgw. rewrite Es2, Hn2 in Hgw.
    specialize (Hgw Hb2). destruct (_ && _); cbn [rbind]; [|by rewrite Hgw].
    destruct Hgw as (p3 & -> & Hp3 & Hin & Hw3). cbn [rbind].
    rewrite (Validate_ok p3 Hp3); cbn [rbind].
    + destruct (reload_ok p3 Hp3) as (p' & Ep' & _ & _ & Hbf & Hbt).
      exists p3, p'. split; [done|]. split; [done|].
      destruct Hw3 as (Hb3 & Hf3 & _). simpl in Hf3. rewrite Hf3, Hb3, Hb2.
      split; [done|]. split; [done|]. split; [done|]. by rewrite Hbf, Hbt, Hf3, Hb3, Hb2.
    + destruct Hw3 as (_ & _ & -> & -> & _). by rewrite Hgp, Hn2.
    + by rewrite (write_gateway6 _ _ _ _ _ Hp2 Hp3 Hw3), H62.
  - cbn [rbind]. rewrite (Validate_ok p2 Hp2); cbn [rbind];
      [|by rewrite Hgp|by rewrite H62].
    destruct (reload_ok p2 Hp2) as (p' & Ep' & _ & _ & Hbf & Hbt). by exists p2, p'.
Qed.
End pool_laws.

(** ** Lists of booleans as bit arrays *)

Module BoolList.

Fixpoint parse (s : string) : exc (list bool) :=
  match s with
  | EmptyString => Ok []
  | String a s =>
      if decide (a = "1"%char) then rmap (cons true) (parse s)
      else if decide (a = "0"%char) then rmap (cons false) (parse s)
      else Raise (PyExn ValueError "expected '0' or '1'")
  end.

#[export] Instance boollist : BitArray (list bool) := {
  ba_parse := parse;
  ba_new := λ n, replicate (Z.to_nat n) false;
  ba_setall := λ v b, replicate (length b) v;
  ba_len := λ b, Z.of_nat (length b);
  ba_get := λ b i, match b !! Z.to_nat i with
                   | Some v => Ok v | None => Raise (PyExn IndexError "") end;
  ba_set := λ b i v, if decide (Z.to_nat i < length b)%nat then Ok (<[Z.to_nat i := v]> b)
                     else Raise (PyExn IndexError "");
  ba_or := λ a b, if decide (length a = length b) then Ok (zip_with orb a b)
                  else Raise (PyExn ValueError "bitarrays of equal length expected");
  ba_all := λ b, forallb (λ v, v) b;
  ba_count := λ b v, Z.of_nat (length (filter (λ x, x = v) b));
  ba_index := λ b v, match list_find (λ x, x = v) b with
                     | Some (i, _) => Ok (Z.of_nat i)
                     | None => Raise (PyExn ValueError "") end;
  ba_search := λ b s, Z.of_nat <$>
    filter (λ i, take (length s) (drop i b) = s) (seq 0 (length b));
  ba_to01 := string_of_bits
}.

#[export] Instance boollist_laws : BitArrayLaws (list bool).
Proof.
  refine {| bits := λ b : list bool, b |}.
  - intros bs. exists bs. split; [|done]. simpl.
    induction bs as [|[] bs IH]; simpl in *; rewrite ?IH; done.
  - intros n _. simpl. by rewrite length_replicate.
  - done.
  - done.
  - intros b i v Hv. simpl. by rewrite Nat2Z.id, Hv.
  - intros b i v Hi. simpl. rewrite Nat2Z.id, decide_True by done. eauto.
  - intros a b E. simpl. rewrite decide_True by done. eauto.
  - done.
  - done.
  - intros b v i E. simpl. by rewrite E.
  - done.
  - done.
Defined.

(** 192.0.2.0/29 with gateway 192.0.2.1. *)
Definition demo_net : network := Network (0xc0000200, 29) (Some 0xc0000201) None None None None.

Definition demo_pool : pool (list bool) :=
  match InitializeNetwork demo_net with
  | Ok p => p
  | Raise _ => Pool demo_net (0, 0) None None None [] []
  end.

Lemma demo_pool_ok : pool_ok demo_pool.
Proof. split; by vm_compute. Qed.

Lemma GetFreeAddress_correct_witness :
  ∃ p', GetFreeAddress demo_pool = Ok (p', 0xc0000202) ∧ first_free demo_pool 2.
Proof.
  pose proof (GetFreeAddress_correct demo_pool demo_pool_ok) as Hf.
  destruct (GetFreeAddress demo_pool) as [[p' a]|e] eqn:E; [|by vm_compute in E].
  assert (a = 0xc0000202) as -> by (vm_compute in E; congruence).
  destruct Hf as (_ & _ & i & Ha & Hi & _). exists p'. split; [done|].
  replace 2%nat with i; [done|]. unfold address in Ha. simpl in Ha. lia.
Defined.

Lemma Reserve_Release_witness :
  Reserve 0xc0000200 true demo_pool = Raise AddressPoolErr ∧
  Release 0xc0000200 false demo_pool = Raise AddressPoolErr.
Proof.
  split.
  - destruct (Reserve_Release demo_pool 0xc0000200 true demo_pool_ok) as (i & Ha & Hi).
    replace i with 0%nat in Hi by (unfold address in Ha; simpl in Ha; lia).
    exact (proj1 Hi).
  - destruct (Reserve_Release demo_pool 0xc0000200 false demo_pool_ok) as (i & Ha & Hi).
    replace i with 0%nat in Hi by (unfold address in Ha; simpl in Ha; lia).
    exact (proj1 Hi).
Defined.

Lemma InitializeNetwork_correct_witness :
  ∃ p, InitializeNetwork demo_net = Ok p ∧
    bits_of true p = [true; true; false; false; false; false; false; true].
Proof.
  destruct (InitializeNetwork_correct (B := list bool) demo_net) as (p & p' & E & _ & _ & Hb & _);
    [by vm_compute..|]. exists p. split; [done|]. by rewrite Hb.
Defined.
End BoolList.
