(* ===== verification/Reservations.v ===== *)
(** * Temporary reservations (src/lib/config/temporary_reservations.py)

    [TemporaryReservationManager]: resources reserved per execution context.
    The generator passed to [Generate] is a function called repeatedly; its
    results are a sequence indexed by the number of the call. *)

From S2P Require Import Prelude Errors.

Section reservations.
  Context {A : Type} `{Countable A}.
  (** [str(resource)] *)
  Context (show : A → string).
  Notation manager := (gmap string (gset A)).
  Implicit Types (m : manager) (ec_id : string) (r : A).

(** The dictionary [_ec_reserved]. *)
Definition new_manager : manager := ∅.

Definition Reserved r m : bool :=
  existsb (λ h : string * gset A, bool_decide (r ∈ h.2)) (map_to_list m).

Definition Reserve ec_id r m : exc manager :=
  if Reserved r m
  then Raise (GntExn ReservationError
                [VStr ("Duplicate reservation for resource '" +:+ show r +:+ "'")])
  else
    match m !! ec_id with
    | None => Ok (<[ec_id := {[r]}]> m)
    | Some rs => Ok (<[ec_id := {[r]} ∪ rs]> m)
    end.

Definition DropECReservations ec_id m : manager :=
  match m !! ec_id with Some _ => delete ec_id m | None => m end.

Definition GetReserved m : gset A := ⋃ (snd <$> map_to_list m).

Definition GetECReserved ec_id m : gset A :=
  match m !! ec_id with Some rs => ∅ ∪ rs | None => ∅ end.

(** The loop of [Generate] from its [k]-th call of the generator on.  It has no
    exit but a new resource: [retries] is never changed. *)
Fixpoint generate_loop (fuel : nat) (all_elems : gset A) (generate_one_fn : nat → option A)
    (k : nat) : option A :=
  match fuel with
  | 0 => None
  | S fuel =>
      match generate_one_fn k with
      | Some new_resource =>
          if decide (new_resource ∈ all_elems)
          then generate_loop fuel all_elems generate_one_fn (S k)
          else Some new_resource
      | None => generate_loop fuel all_elems generate_one_fn (S k)
      end
  end.

(** [None]: still in the loop after [fuel] iterations. *)
Definition Generate (fuel : nat) (existing : gset A) (generate_one_fn : nat → option A)
    ec_id m : option (exc (manager * A)) :=
  match generate_loop fuel (GetReserved m ∪ existing) generate_one_fn 0 with
  | Some r => Some (rmap (λ m, (m, r)) (Reserve ec_id r m))
  | None => None
  end.

(** ** Who holds what *)

Definition holds m ec_id r : Prop := ∃ rs, m !! ec_id = Some rs ∧ r ∈ rs.

(** No resource is held twice. *)
Definition exclusive m : Prop := ∀ e1 e2 r, holds m e1 r → holds m e2 r → e1 = e2.

Lemma Reserved_holds r m : Reserved r m = true ↔ ∃ ec_id, holds m ec_id r.
Proof.
  unfold Reserved. rewrite existsb_exists. split.
  - intros ([e rs] & Hin & Hr%bool_decide_eq_true). exists e, rs. split; [|done].
    by apply elem_of_map_to_list, list_elem_of_In.
  - intros (e & rs & He & Hr). exists (e, rs). split; [|by apply bool_decide_eq_true].
    by apply list_elem_of_In, elem_of_map_to_list.
Qed.

Lemma GetReserved_holds r m : r ∈ GetReserved m ↔ ∃ ec_id, holds m ec_id r.
Proof.
  unfold GetReserved. rewrite elem_of_union_list. split.
  - intros (rs & ([e rs'] & -> & Hin)%list_elem_of_fmap & Hr). exists e, rs'.
    split; [by apply elem_of_map_to_list|done].
  - intros (e & rs & He & Hr). exists rs. split; [|done].
    apply list_elem_of_fmap. exists (e, rs). split; [done|]. by apply elem_of_map_to_list.
Qed.

Lemma holds_insert m e rs e' r :
  holds (<[e := rs]> m) e' r ↔ e' = e ∧ r ∈ rs ∨ e' ≠ e ∧ holds m e' r.
Proof.
  unfold holds. destruct (decide (e' = e)) as [->|Hne].
  - rewrite lookup_insert_eq. naive_solver.
  - rewrite lookup_insert_ne by done. naive_solver.
Qed.

Lemma Reserve_holds ec_id r m :
  Reserved r m = false →
  ∃ m', Reserve ec_id r m = Ok m' ∧
    ∀ e x, holds m' e x ↔ holds m e x ∨ e = ec_id ∧ x = r.
Proof.
  intros Hr. unfold Reserve. rewrite Hr. destruct (m !! ec_id) as [rs|] eqn:Hm.
  - eexists. split; [done|]. intros e x. rewrite holds_insert, elem_of_union, elem_of_singleton.
    unfold holds. destruct (decide (e = ec_id)); naive_solver.
  - eexists. split; [done|]. intros e x. rewrite holds_insert, elem_of_singleton.
    unfold holds. destruct (decide (e = ec_id)); naive_solver.
Qed.

Lemma Drop_holds ec_id m e r :
  holds (DropECReservations ec_id m) e r ↔ e ≠ ec_id ∧ holds m e r.
Proof.
  unfold DropECReservations, holds. destruct (m !! ec_id) as [rs|] eqn:Hm.
  - rewrite lookup_delete. case_decide; naive_solver.
  - naive_solver.
Qed.

(** Reservations are exclusive.  A resource that some execution context
    holds cannot be reserved again; otherwise exactly the new reservation is
    added, so that no resource is ever held by two contexts, and dropping a
    context removes its reservations and no others. *)
Theorem reservations_exclusive ec_id r m :
  exclusive m →
  match Reserve ec_id r m with
  | Ok m' => (¬ ∃ e, holds m e r) ∧ exclusive m' ∧
             (∀ e x, holds m' e x ↔ holds m e x ∨ e = ec_id ∧ x = r)
  | Raise _ => ∃ e, holds m e r
  end ∧
  exclusive (DropECReservations ec_id m) ∧
  (∀ e x, holds (DropECReservations ec_id m) e x ↔ e ≠ ec_id ∧ holds m e x).
Proof.
  intros Hex. split; [|split; [|apply Drop_holds]].
  - destruct (Reserved r m) eqn:Hr.
    + unfold Reserve. rewrite Hr. by apply Reserved_holds.
    + assert (¬ ∃ e, holds m e r) as Hno by (rewrite <-Reserved_holds; congruence).
      destruct (Reserve_holds ec_id r m Hr) as (m' & -> & Hm'). split; [done|].
      split; [|done]. intros e1 e2 x. rewrite !Hm'. unfold exclusive in Hex. naive_solver.
  - intros e1 e2 x. rewrite !Drop_holds. unfold exclusive in Hex. naive_solver.
Qed.

(** ** Generating *)

(** The [k]-th result of the generator is new. *)
Definition fresh_at (all : gset A) (g : nat → option A) (k : nat) : Prop :=
  ∃ r, g k = Some r ∧ r ∉ all.

Lemma generate_loop_fresh fuel all g k n :
  fresh_at all g (k + n) → (∀ i, i < n → ¬ fresh_at all g (k + i)) → n < fuel →
  generate_loop fuel all g k = g (k + n).
Proof.
  revert fuel k. induction n as [|n IH]; intros [|fuel] k Hf Hlt Hn; try lia; simpl.
  - rewrite Nat.add_0_r in *. destruct Hf as (r & -> & Hr). by rewrite decide_False.
  - specialize (IH fuel (S k)). replace (S k + n) with (k + S n) in IH by lia.
    assert (generate_loop fuel all g (S k) = g (k + S n)) as E.
    { apply IH; [done| |lia]. intros i Hi. replace (S k + i) with (k + S i) by lia.
      apply Hlt. lia. }
    specialize (Hlt 0 ltac:(lia)). rewrite Nat.add_0_r in Hlt. unfold fresh_at in Hlt.
    destruct (g k) as [r|]; [|done]. case_decide; [done|]. naive_solver.
Qed.

Lemma generate_loop_stuck fuel all g k :
  (∀ i, k ≤ i → ¬ fresh_at all g i) → generate_loop fuel all g k = None.
Proof.
  revert k. induction fuel as [|fuel IH]; intros k Hk; simpl; [done|].
  pose proof (Hk k ltac:(lia)) as Hk0. unfold fresh_at in Hk0.
  rewrite IH by (intros i Hi; apply Hk; lia).
  destruct (g k) as [r|]; [|done]. case_decide; [done|]. naive_solver.
Qed.

(** [Generate] reserves for the context the first resource of the generator
    that is neither reserved nor among the existing ones, after as many calls
    of the generator as that takes. *)
Theorem Generate_correct n fuel existing g ec_id m r :
  let all := GetReserved m ∪ existing in
  g n = Some r → r ∉ all → (∀ i, i < n → ¬ fresh_at all g i) → n < fuel →
  ∃ m', Generate fuel existing g ec_id m = Some (Ok (m', r)) ∧
        ∀ e x, holds m' e x ↔ holds m e x ∨ e = ec_id ∧ x = r.
Proof.
  intros all Hg Hr Hlt Hn. unfold Generate. fold all.
  rewrite (generate_loop_fresh fuel all g 0 n); [|by exists r|done|done].
  simpl. rewrite Hg. assert (Reserved r m = false) as Hno.
  { apply not_true_is_false. rewrite Reserved_holds, <-GetReserved_holds. set_solver. }
  destruct (Reserve_holds ec_id r m Hno) as (m' & -> & Hm'). by exists m'.
Qed.

(** A generator that never finds a new resource keeps [Generate] in its loop for
    ever, although the code after the loop reports that case. *)
Lemma Generate_no_retry_limit fuel existing g ec_id m :
  (∀ i, ¬ fresh_at (GetReserved m ∪ existing) g i) →
  Generate fuel existing g ec_id m = None.
Proof. intros Hno. unfold Generate. by rewrite generate_loop_stuck. Qed.
End reservations.

Lemma reservations_exclusive_witness :
  Reserve (λ s, s) "job-2" "10.0.0.1" {["job-1" := {["10.0.0.1"]} : gset string]}
  = Raise (GntExn ReservationError
             [VStr "Duplicate reservation for resource '10.0.0.1'"]) ∧
  ∃ e, holds (A := string) {["job-1" := {["10.0.0.1"]}]} e "10.0.0.1".
Proof.
  assert (exclusive (A := string) {["job-1" := {["10.0.0.1"]}]}) as Hex.
  { intros e1 e2 x (rs1 & [<- _]%lookup_singleton_Some & _) (rs2 & [<- _]%lookup_singleton_Some & _).
    done. }
  destruct (reservations_exclusive (λ s, s) "job-2" "10.0.0.1" _ Hex) as [Hr _].
  assert (Reserve (λ s, s) "job-2" "10.0.0.1" {["job-1" := {["10.0.0.1"]} : gset string]}
    = Raise (GntExn ReservationError
               [VStr "Duplicate reservation for resource '10.0.0.1'"])) as E
    by (vm_compute; reflexivity).
  rewrite E in Hr. split; [exact E|exact Hr].
Defined.

Lemma Generate_correct_witness :
  ∃ m', Generate (A := nat) pretty 10 {[1]} (λ k, if decide (k = 0) then None else Some k)
          "job-1" {["job-2" := {[2]}]} = Some (Ok (m', 3)) ∧ holds m' "job-1" 3.
Proof.
  destruct (Generate_correct (A := nat) pretty 3 10 {[1]}
              (λ k, if decide (k = 0) then None else Some k) "job-1" {["job-2" := {[2]}]} 3)
    as (m' & E & Hm').
  - done.
  - apply (bool_decide_unpack _). vm_compute. exact I.
  - intros [|[|[|i]]] Hi (r & Hg & Hr); vm_compute in Hg; simplify_eq; try lia; apply Hr;
      apply (bool_decide_unpack _); vm_compute; exact I.
  - lia.
  - exists m'. split; [exact E|]. apply Hm'. right. split; reflexivity.
Defined.
