(* ===== verification/Config.v ===== *)
(** * The cluster configuration (src/lib/config/__init__.py)

    [ConfigData] and the operations of [ConfigWriter] that read and change it
    while the configuration is open; opening, closing and saving are in
    [ConfigLock], the verification is in [ConfigVerify].  Dictionaries are
    [PyDict] dictionaries keyed by UUID; an object is known by its key, so that
    a method that holds references to objects holds their keys.  Attributes that
    none of these operations reads are left out.  What WConfd does by itself
    (instances, MAC and IP addresses, ports) is not here. *)

From Stdlib Require Import QArith.
From S2P Require Import Prelude Errors PySort PyStr PyVal Text Algo PyDict PyState Params Disk Paths.
From S2P Require Import Reservations.
#[local] Open Scope list_scope.
#[local] Open Scope stdpp_scope.
#[local] Open Scope Z_scope.
#[local] Open Scope py_scope.

(** ** Data *)

Record nic := Nic {
  nic_mac : str;
  nic_ip : option str;
  nic_network : option str;
  nic_params : pdict;
  nic_uuid : option str
}.

Record node := Node {
  n_name : str;
  n_primary_ip : str;
  n_secondary_ip : str;
  n_serial_no : Z;
  n_mtime : Q;
  n_master_candidate : bool;
  n_offline : bool;
  n_drained : bool;
  n_group : option str;
  n_master_capable : bool;
  n_vm_capable : bool;
  n_ndparams : pdict;
  n_uuid : option str
}.

Record node_group := NodeGroup {
  g_name : str;
  g_members : list str;
  g_ndparams : pdict;
  g_diskparams : dict pdict;
  g_ipolicy : ipolicy;
  g_serial_no : Z;
  g_mtime : Q;
  g_networks : dict pdict;
  g_uuid : option str
}.

Record instance := Instance {
  i_name : str;
  i_primary_node : str;
  i_beparams : pdict;
  i_nics : list nic;
  i_disks : list str;
  i_network_port : option Z;
  i_uuid : option str
}.

Record net := Net {
  net_name : str;
  net_serial_no : Z;
  net_mtime : Q;
  net_uuid : option str
}.

Record cluster := Cluster {
  c_serial_no : Z;
  c_params : cluster_params;
  c_ipolicy : ipolicy;
  c_highest_used_port : Z;
  c_tcpudp_port_pool : list Z;
  c_master_node : str;
  c_master_ip : str;
  c_candidate_pool_size : option Z;
  c_candidate_certs : dict str;
  c_volume_group_name : option str;
  c_drbd_usermode_helper : option str;
  c_uuid : option str
}.

Record config_data := ConfigData {
  cd_cluster : cluster;
  cd_nodes : dict node;
  cd_nodegroups : dict node_group;
  cd_instances : dict instance;
  cd_networks : dict net;
  cd_disks : dict disk;
  cd_serial_no : Z
}.

(** The writer's own state: the configuration and the temporary ids *)
Record writer := Writer {
  w_data : config_data;
  w_temporary_ids : gmap string (gset str)
}.

Definition set_data (d : config_data) (w : writer) : writer := Writer d (w_temporary_ids w).
Definition upd_data (f : config_data → config_data) (w : writer) : writer := set_data (f (w_data w)) w.

Definition set_cluster (f : cluster → cluster) (d : config_data) : config_data :=
  ConfigData (f (cd_cluster d)) (cd_nodes d) (cd_nodegroups d) (cd_instances d) (cd_networks d)
    (cd_disks d) (cd_serial_no d).
Definition set_cd_nodes (f : dict node → dict node) (d : config_data) : config_data :=
  ConfigData (cd_cluster d) (f (cd_nodes d)) (cd_nodegroups d) (cd_instances d) (cd_networks d)
    (cd_disks d) (cd_serial_no d).
Definition set_nodegroups (f : dict node_group → dict node_group) (d : config_data) : config_data :=
  ConfigData (cd_cluster d) (cd_nodes d) (f (cd_nodegroups d)) (cd_instances d) (cd_networks d)
    (cd_disks d) (cd_serial_no d).
Definition set_instances (f : dict instance → dict instance) (d : config_data) : config_data :=
  ConfigData (cd_cluster d) (cd_nodes d) (cd_nodegroups d) (f (cd_instances d)) (cd_networks d)
    (cd_disks d) (cd_serial_no d).
Definition set_networks (f : dict net → dict net) (d : config_data) : config_data :=
  ConfigData (cd_cluster d) (cd_nodes d) (cd_nodegroups d) (cd_instances d) (f (cd_networks d))
    (cd_disks d) (cd_serial_no d).
Definition set_cd_disks (f : dict disk → dict disk) (d : config_data) : config_data :=
  ConfigData (cd_cluster d) (cd_nodes d) (cd_nodegroups d) (cd_instances d) (cd_networks d)
    (f (cd_disks d)) (cd_serial_no d).

Definition bump_cluster (c : cluster) : cluster :=
  Cluster (c_serial_no c + 1) (c_params c) (c_ipolicy c) (c_highest_used_port c) (c_tcpudp_port_pool c)
    (c_master_node c) (c_master_ip c) (c_candidate_pool_size c) (c_candidate_certs c)
    (c_volume_group_name c) (c_drbd_usermode_helper c) (c_uuid c).

(** Attributes of nodes and groups that are assigned to *)
Definition set_n_group (g : option str) (n : node) : node :=
  Node (n_name n) (n_primary_ip n) (n_secondary_ip n) (n_serial_no n) (n_mtime n) (n_master_candidate n)
    (n_offline n) (n_drained n) g (n_master_capable n) (n_vm_capable n) (n_ndparams n) (n_uuid n).
Definition set_n_stamp (serial : Z) (mtime : Q) (n : node) : node :=
  Node (n_name n) (n_primary_ip n) (n_secondary_ip n) serial mtime (n_master_candidate n)
    (n_offline n) (n_drained n) (n_group n) (n_master_capable n) (n_vm_capable n) (n_ndparams n)
    (n_uuid n).
Definition set_n_candidate (n : node) : node :=
  Node (n_name n) (n_primary_ip n) (n_secondary_ip n) (n_serial_no n + 1) (n_mtime n) true
    (n_offline n) (n_drained n) (n_group n) (n_master_capable n) (n_vm_capable n) (n_ndparams n)
    (n_uuid n).
Definition set_n_uuid (u : str) (n : node) : node :=
  Node (n_name n) (n_primary_ip n) (n_secondary_ip n) (n_serial_no n) (n_mtime n) (n_master_candidate n)
    (n_offline n) (n_drained n) (n_group n) (n_master_capable n) (n_vm_capable n) (n_ndparams n)
    (Some u).
Definition set_g_members (ms : list str) (g : node_group) : node_group :=
  NodeGroup (g_name g) ms (g_ndparams g) (g_diskparams g) (g_ipolicy g) (g_serial_no g) (g_mtime g)
    (g_networks g) (g_uuid g).
Definition set_g_stamp (serial : Z) (mtime : Q) (g : node_group) : node_group :=
  NodeGroup (g_name g) (g_members g) (g_ndparams g) (g_diskparams g) (g_ipolicy g) serial mtime
    (g_networks g) (g_uuid g).
Definition set_g_uuid (u : str) (g : node_group) : node_group :=
  NodeGroup (g_name g) (g_members g) (g_ndparams g) (g_diskparams g) (g_ipolicy g) (g_serial_no g)
    (g_mtime g) (g_networks g) (Some u).
Definition set_net_stamp (serial : Z) (mtime : Q) (n : net) : net :=
  Net (net_name n) serial mtime (net_uuid n).
Definition set_net_uuid (u : str) (n : net) : net :=
  Net (net_name n) (net_serial_no n) (net_mtime n) (Some u).
Definition set_i_name (s : str) (i : instance) : instance :=
  Instance s (i_primary_node i) (i_beparams i) (i_nics i) (i_disks i) (i_network_port i) (i_uuid i).

Definition Attribute_error : exn := PyExn AttributeError "".
Definition Key_error : exn := PyExn KeyError "".

(** ** Reading *)

Section reading.
  Context (d : config_data).

(** [_UnlockedGetInstanceInfo], [_UnlockedGetDiskInfo], [_UnlockedGetNodeInfo],
    [_UnlockedGetNodeGroup], [_UnlockedGetNetwork] *)
Definition GetInstanceInfo (inst_uuid : str) : option instance := dget inst_uuid (cd_instances d).
Definition GetDiskInfo (disk_uuid : str) : option disk := dget disk_uuid (cd_disks d).
Definition GetNodeInfo (node_uuid : str) : option node := dget node_uuid (cd_nodes d).
Definition GetNodeGroup (uuid : str) : option node_group := dget uuid (cd_nodegroups d).
Definition GetNetwork (uuid : str) : option net := dget uuid (cd_networks d).

(** The elements are [None] for disks that are missing. *)
Definition GetInstanceDisks (inst_uuid : str) : exc (list (option disk)) :=
  match GetInstanceInfo inst_uuid with
  | None => Raise Configuration_error
  | Some inst => Ok (GetDiskInfo <$> i_disks inst)
  end.

(** [x.attr] for an object that may be [None] *)
Definition attr {A B} (f : A → B) (o : option A) : exc B :=
  match o with Some a => Ok (f a) | None => Raise Attribute_error end.

Definition AllInstanceNodes (inst_uuid : str) : exc (list str * instance) :=
  match GetInstanceInfo inst_uuid with
  | None => Raise Configuration_error
  | Some inst =>
      let* disks := GetInstanceDisks inst_uuid in
      let* nodes := rmapM (attr ComputeAllNodes) disks in
      Ok (remove_dups (mjoin nodes), inst)
  end.

Definition GetInstanceSecondaryNodes (inst_uuid : str) : exc (list str) :=
  let* '(all_nodes, inst) := AllInstanceNodes inst_uuid in
  Ok (remove1 (i_primary_node inst) all_nodes).
Definition GetInstanceNodes (inst_uuid : str) : exc (list str) :=
  let* '(all_nodes, inst) := AllInstanceNodes inst_uuid in
  Ok (i_primary_node inst :: remove1 (i_primary_node inst) all_nodes).

(** ** Logical volumes by node *)

Definition lv_name (dev : disk) : str :=
  lid_first (d_logical_id dev) ++ lit "/" ++ lid_second (d_logical_id dev).

Definition ensure_key (k : str) (m : dict (list str)) : dict (list str) :=
  if dhas k m then m else dset k [] m.

(** One device of the loop of [_MapLVsByNode]; the map is shared by all calls. *)
Fixpoint map_dev (node_uuid : str) (dev : disk) (lvmap : dict (list str)) : dict (list str) :=
  let devices n m := foldl (λ m c, map_dev n c m) (ensure_key n m) (d_children dev) in
  if decide (d_dev_type dev = DT_PLAIN) then
    if d_forthcoming dev then lvmap
    else dalter (λ l, l ++ [lv_name dev]) node_uuid lvmap
  else if is_drbd dev then
    match d_children dev with
    | [] => lvmap
    | _ => devices (lid_second (d_logical_id dev)) (devices (lid_first (d_logical_id dev)) lvmap)
    end
  else
    match d_children dev with
    | [] => lvmap
    | _ => devices node_uuid lvmap
    end.

Definition MapLVsByNode (lvmap : dict (list str)) (devices : list disk) (node_uuid : str)
    : dict (list str) :=
  foldl (λ m dev, map_dev node_uuid dev m) (ensure_key node_uuid lvmap) devices.

Definition GetInstanceLVsByNode (inst_uuid : str) : exc (dict (list str)) :=
  match GetInstanceInfo inst_uuid with
  | None => Raise Configuration_error
  | Some inst =>
      let* disks := GetInstanceDisks (default [] (i_uuid inst)) in
      let* disks := rmapM (attr id) disks in
      Ok (MapLVsByNode [] disks (i_primary_node inst))
  end.

Definition AllLVs : exc (list str) :=
  rmap mjoin (rmapM (λ inst, rmap (λ m, mjoin (dvalues m))
    (GetInstanceLVsByNode (default [] (i_uuid inst)))) (dvalues (cd_instances d))).

Definition AllNICs : list nic := mjoin (i_nics <$> dvalues (cd_instances d)).
Definition AllMACs : list str := nic_mac <$> AllNICs.

(** [_AllDRBDSecrets]; a DRBD device whose id is a pair has no secret *)
Fixpoint disk_secrets (dev : disk) : exc (list str) :=
  let* own := if is_drbd dev then
                match d_logical_id dev with
                | LDrbd _ _ _ _ _ s => Ok [s]
                | LPair _ _ => Raise (PyExn IndexError "")
                end
              else Ok [] in
  let* rest := rmapM disk_secrets (d_children dev) in
  Ok (own ++ mjoin rest).
Definition AllDRBDSecrets : exc (list str) := rmap mjoin (rmapM disk_secrets (dvalues (cd_disks d))).

(** The UUIDs of [_AllUUIDObjects] *)
Definition AllUUIDs : list (option str) :=
  (i_uuid <$> dvalues (cd_instances d)) ++ (n_uuid <$> dvalues (cd_nodes d)) ++
  (g_uuid <$> dvalues (cd_nodegroups d)) ++ (net_uuid <$> dvalues (cd_networks d)) ++
  (d_uuid <$> dvalues (cd_disks d)) ++ (nic_uuid <$> AllNICs) ++ [c_uuid (cd_cluster d)].

(** [if i.uuid] *)
Definition given (u : option str) : list str := match u with Some (a :: s) => [a :: s] | _ => [] end.

Definition ConfigIDs : exc (list str) :=
  let* lvs := AllLVs in
  Ok (lvs ++ dkeys (cd_instances d) ++ dkeys (cd_nodes d) ++ mjoin (given <$> AllUUIDs)).

Definition GetDiskInfoByName (disk_name : option str) : exc (option disk) :=
  let found := List.filter (λ x, bool_decide (d_name x = disk_name)) (dvalues (cd_disks d)) in
  if (1 <? length found)%nat then Raise Configuration_error else Ok (last found).

Definition DisksOfType (dev_type : str) : list disk :=
  List.filter (IsBasedOnDiskType dev_type) (dvalues (cd_disks d)).

Definition GetInstanceForDisk (disk_uuid : str) : option str :=
  fst <$> List.find (λ '(_, inst), bool_decide (disk_uuid ∈ i_disks inst)) (cd_instances d).

(** [_UnlockedLookupNodeGroup]; [_UnlockedLookupNetwork] *)
Definition LookupNodeGroup (target : option str) : exc (option str) :=
  match target with
  | None =>
      match dkeys (cd_nodegroups d) with
      | [uuid] => Ok (Some uuid)
      | _ => Raise (GntExn OpPrereqError [])
      end
  | Some target =>
      if dhas target (cd_nodegroups d) then Ok (Some target)
      else
        match List.find (λ g, bool_decide (g_name g = target)) (dvalues (cd_nodegroups d)) with
        | Some g => Ok (g_uuid g)
        | None => Raise (GntExn OpPrereqError [])
        end
  end.

Definition LookupNetwork (target : option str) : exc (option str) :=
  match target with
  | None => Ok None
  | Some target =>
      if dhas target (cd_networks d) then Ok (Some target)
      else
        match List.find (λ n, bool_decide (net_name n = target)) (dvalues (cd_networks d)) with
        | Some n => Ok (net_uuid n)
        | None => Raise (GntExn OpPrereqError [])
        end
  end.

Definition GetInstanceInfoByName (inst_name : str) : option instance :=
  List.find (λ i, bool_decide (i_name i = inst_name)) (dvalues (cd_instances d)).
Definition GetNodeInfoByName (node_name : str) : option node :=
  List.find (λ n, bool_decide (n_name n = node_name)) (dvalues (cd_nodes d)).
Definition GetNodeGroupInfoByName (name : str) : option node_group :=
  List.find (λ g, bool_decide (g_name g = name)) (dvalues (cd_nodegroups d)).

(** [ExpandInstanceName], [ExpandNodeName] *)
Definition ExpandInstanceName (short_name : str) : exc (option str * option str) :=
  match MatchNameComponent short_name (i_name <$> dvalues (cd_instances d)) false with
  | Some expanded =>
      match List.find (λ i, bool_decide (i_name i = expanded)) (dvalues (cd_instances d)) with
      | Some i => Ok (i_uuid i, Some (i_name i))
      | None => Raise (PyExn IndexError "")
      end
  | None => Ok (None, None)
  end.
Definition ExpandNodeName (short_name : str) : exc (option str * option str) :=
  match MatchNameComponent short_name (n_name <$> dvalues (cd_nodes d)) false with
  | Some expanded =>
      match List.find (λ n, bool_decide (n_name n = expanded)) (dvalues (cd_nodes d)) with
      | Some n => Ok (n_uuid n, Some (n_name n))
      | None => Raise (PyExn IndexError "")
      end
  | None => Ok (None, None)
  end.

Definition GetInstanceName (inst_uuid : str) : exc str :=
  match GetInstanceInfo inst_uuid with
  | Some i => Ok (i_name i)
  | None => Raise (GntExn OpExecError [])
  end.
Definition GetInstanceNames (inst_uuids : list str) : exc (list str) := rmapM GetInstanceName inst_uuids.
Definition GetNodeName (node_uuid : str) : exc str :=
  match GetNodeInfo node_uuid with
  | Some n => Ok (n_name n)
  | None => Raise (GntExn OpExecError [])
  end.
Definition GetNodeNames (node_uuids : list str) : exc (list str) := rmapM GetNodeName node_uuids.
Definition GetMultiInstanceInfo (inst_uuids : list str) : list (str * option instance) :=
  (λ u, (u, GetInstanceInfo u)) <$> inst_uuids.
Definition GetMultiInstanceInfoByName (names : list str) : exc (list (option str * instance)) :=
  rmapM (λ name, match GetInstanceInfoByName name with
                 | Some i => Ok (i_uuid i, i)
                 | None => Raise Configuration_error
                 end) names.

(** Nodes, groups and instances of each other *)
Definition GetNodeInstances (node_uuid : str) : exc (list (option str) * list (option str)) :=
  let insts := dvalues (cd_instances d) in
  let* sec := rmapM (λ i, rmap (λ ns, bool_decide (node_uuid ∈ ns))
                            (GetInstanceSecondaryNodes (default [] (i_uuid i)))) insts in
  Ok (i_uuid <$> List.filter (λ i, bool_decide (i_primary_node i = node_uuid)) insts,
      (i_uuid ∘ fst) <$> List.filter (λ p : instance * bool, p.2) (zip insts sec)).

Definition GetNodeGroupInstances (uuid : str) (primary_only : bool) : exc (list (option str)) :=
  let insts := dvalues (cd_instances d) in
  rmap mjoin (rmapM (λ i,
    let* nodes := if primary_only then Ok [i_primary_node i]
                  else GetInstanceNodes (default [] (i_uuid i)) in
    let* groups := rmapM (λ n, attr n_group (GetNodeInfo n)) nodes in
    Ok (if existsb (λ g, bool_decide (g = Some uuid)) groups then [i_uuid i] else [])) insts).

Definition GetInstanceNodeGroups (inst_uuid : str) (primary_only : bool) : exc (list (option str)) :=
  match GetInstanceInfo inst_uuid with
  | None => Raise Configuration_error
  | Some i =>
      let* nodes := if primary_only then Ok [i_primary_node i]
                    else GetInstanceNodes (default [] (i_uuid i)) in
      rmap remove_dups (rmapM (λ n, attr n_group (GetNodeInfo n)) nodes)
  end.

Definition GetInstanceNetworks (inst_uuid : str) : exc (list str) :=
  match GetInstanceInfo inst_uuid with
  | None => Raise Configuration_error
  | Some i => Ok (remove_dups (mjoin ((given ∘ nic_network) <$> i_nics i)))
  end.

Definition GetNodeGroupsFromNodes (node_uuids : list str) : exc (list (option str)) :=
  rmap remove_dups (rmapM (λ n, attr n_group (GetNodeInfo n)) node_uuids).

Definition GetNodeGroupMembersByNodes (nodes : list str) : exc (list str) :=
  rmap (λ l, remove_dups (mjoin l)) (rmapM (λ n,
    let* g := attr n_group (GetNodeInfo n) in
    attr g_members (match g with Some g => GetNodeGroup g | None => None end)) nodes).

Definition GetOnlineNodeList : list (option str) :=
  n_uuid <$> List.filter (λ n, negb (n_offline n)) (dvalues (cd_nodes d)).
Definition GetVmCapableNodeList : list (option str) :=
  n_uuid <$> List.filter n_vm_capable (dvalues (cd_nodes d)).
Definition GetNonVmCapableNodeList : list (option str) :=
  n_uuid <$> List.filter (λ n, negb (n_vm_capable n)) (dvalues (cd_nodes d)).
Definition GetMasterCandidateUuids : list (option str) :=
  n_uuid <$> List.filter n_master_candidate (dvalues (cd_nodes d)).

(** ** The candidate pool *)

Definition excepted (exceptions : list str) (n : node) : bool :=
  existsb (λ u, bool_decide (n_uuid n = Some u)) exceptions.

(** [mc_now], [mc_should], [mc_max] *)
Definition GetMasterCandidateStats (exceptions : list str) : Z * Z * Z :=
  let nodes := List.filter (λ n, negb (excepted exceptions n)) (dvalues (cd_nodes d)) in
  let mc_max := Z.of_nat (length (List.filter
    (λ n, negb (n_offline n || n_drained n) && n_master_capable n) nodes)) in
  let mc_now := Z.of_nat (length (List.filter n_master_candidate nodes)) in
  let mc_should := match c_candidate_pool_size (cd_cluster d) with
                   | None => mc_max
                   | Some pool_size => Z.min mc_max pool_size
                   end in
  (mc_now, mc_should, mc_max).

(** Whether [MaintainCandidatePool] skips the node *)
Definition not_promotable (exceptions : list str) (n : node) : bool :=
  n_master_candidate n || n_offline n || n_drained n || excepted exceptions n || negb (n_master_capable n).

Definition GetGroupNetParams (net_uuid node_uuid : str) : exc (option pdict) :=
  let* g := attr n_group (GetNodeInfo node_uuid) in
  let* nets := attr g_networks (match g with Some g => GetNodeGroup g | None => None end) in
  Ok (dget net_uuid nets).
End reading.

(** ** UUIDs *)

Section uuids.
  (** [utils.NewUUID]: the results of its calls; the fuel of the loop that
      draws new ones; [str(resource)] in a message *)
  Context (newuuid : nat → str) (fuel : nat) (show : str → string).

Definition AllIDs (include_temporary : bool) (w : writer) : exc (list str) :=
  rmap (app (if include_temporary then elements (GetReserved (w_temporary_ids w)) else []))
    (ConfigIDs (w_data w)).

Definition GenerateUniqueID (ec_id : string) : meth writer str := λ w,
  match AllIDs false w with
  | Raise e => Some (Raise e, w)
  | Ok existing =>
      match Generate show fuel (list_to_set existing) (λ k, Some (newuuid k)) ec_id (w_temporary_ids w) with
      | None => None
      | Some (Raise e) => Some (Raise e, w)
      | Some (Ok (ids, uuid)) => Some (Ok uuid, Writer (w_data w) ids)
      end
  end.

Definition CheckUniqueUUID (uuid : option str) (include_temporary : bool) : meth writer unit :=
  match given uuid with
  | [] => raise Configuration_error
  | uuid :: _ =>
      ids ← reads (AllIDs include_temporary) ;
      if decide (uuid ∈ ids) then raise Configuration_error else mret tt
  end.

Definition CheckUUIDpresent (uuid : option str) : meth writer unit :=
  match given uuid with
  | [] => raise Configuration_error
  | uuid :: _ =>
      ids ← reads (AllIDs false) ;
      if decide (uuid ∈ ids) then mret tt else raise Configuration_error
  end.

(** The UUID the item has afterwards *)
Definition EnsureUUID (uuid : option str) (ec_id : string) : meth writer str :=
  match given uuid with
  | [] => GenerateUniqueID ec_id
  | u :: _ => CheckUniqueUUID uuid true ;; mret u
  end.
End uuids.

Definition update (f : config_data → config_data) : meth writer unit := modify (upd_data f).
Definition bump_serial : meth writer unit := update (set_cluster bump_cluster).

(** ** Groups and nodes *)

Section groups.
  Context (newuuid : nat → str) (fuel : nat) (show : str → string).
  (** The parameters every network of a group is filled from; the clock *)
  Context (NICC_DEFAULTS : pdict) (now : Q).

(** [NodeGroup.UpgradeConfig] *)
Definition NodeGroup_UpgradeConfig (g : node_group) : node_group :=
  NodeGroup (g_name g) (g_members g) (g_ndparams g) (g_diskparams g) (g_ipolicy g) (g_serial_no g)
    (g_mtime g) (dmap (λ netparams, FillDict NICC_DEFAULTS netparams []) (g_networks g)) (g_uuid g).

Definition AddNodeGroup (group : node_group) (ec_id : string) (check_uuid : bool) : meth writer unit :=
  group ← (if check_uuid then
             uuid ← EnsureUUID newuuid fuel show (g_uuid group) ec_id ; mret (set_g_uuid uuid group)
           else mret group) ;
  existing ← gets (λ w, LookupNodeGroup (w_data w) (Some (g_name group))) ;
  match existing with
  | Ok _ => raise (GntExn OpPrereqError [])
  | Raise (GntExn OpPrereqError _) =>
      let group := NodeGroup_UpgradeConfig (set_g_stamp 1 now group) in
      update (set_nodegroups (dset (default [] (g_uuid group)) group)) ;;
      bump_serial
  | Raise e => raise e
  end.

Definition RemoveNodeGroup (group_uuid : str) : meth writer unit :=
  groups ← gets (λ w, cd_nodegroups (w_data w)) ;
  if negb (dhas group_uuid groups) then raise Configuration_error
  else
    lift (assert (negb (length groups =? 1)%nat)) ;;
    update (set_nodegroups (ddel group_uuid)) ;;
    bump_serial.

Definition AddNodeToGroup (node_uuid : str) (nodegroup_uuid : option str) : meth writer unit :=
  groups ← gets (λ w, cd_nodegroups (w_data w)) ;
  match nodegroup_uuid ≫= λ g, dget g groups with
  | None => raise (GntExn OpExecError [])
  | Some g =>
      if decide (node_uuid ∈ g_members g) then mret tt
      else update (set_nodegroups (dalter (λ g, set_g_members (g_members g ++ [node_uuid]) g)
                                     (default [] nodegroup_uuid)))
  end.

Definition RemoveNodeFromGroup (n : node) : meth writer unit :=
  groups ← gets (λ w, cd_nodegroups (w_data w)) ;
  match n_group n ≫= λ g, dget g groups with
  | None => raise Key_error
  | Some g =>
      if decide (default [] (n_uuid n) ∈ g_members g)
      then update (set_nodegroups (dalter (λ g, set_g_members (remove1 (default [] (n_uuid n)) (g_members g)) g)
                                     (default [] (n_group n))))
      else mret tt
  end.

Definition AddNode (n : node) (ec_id : string) : meth writer unit :=
  uuid ← EnsureUUID newuuid fuel show (n_uuid n) ec_id ;
  let n := set_n_stamp 1 now (set_n_uuid uuid n) in
  AddNodeToGroup uuid (n_group n) ;;
  update (set_cd_nodes (dset uuid n)) ;;
  bump_serial.

Definition RemoveNode (node_uuid : str) : meth writer unit :=
  nodes ← gets (λ w, cd_nodes (w_data w)) ;
  match dget node_uuid nodes with
  | None => raise Configuration_error
  | Some n =>
      RemoveNodeFromGroup n ;;
      update (set_cd_nodes (ddel node_uuid)) ;;
      bump_serial
  end.

(** ** Assigning nodes to groups *)

(** A modification that was resolved: the keys of node, old and new group *)
Notation regroup := (str * str * str)%type (only parsing).

(** The checks for one modification; [None] when there is nothing to do *)
Definition resolve_mod (d : config_data) (node_uuid new_group_uuid : str) : exc (option regroup) :=
  match dget node_uuid (cd_nodes d) with
  | None => Raise Configuration_error
  | Some n =>
      if decide (n_group n = Some new_group_uuid) then Ok None
      else
        match n_group n ≫= λ g, dget g (cd_nodegroups d) with
        | None => Raise Configuration_error
        | Some old_group =>
            match dget new_group_uuid (cd_nodegroups d) with
            | None => Raise Configuration_error
            | Some new_group =>
                do* assert (bool_decide (default [] (n_uuid n) ∈ g_members old_group)) in
                do* assert (bool_decide (default [] (n_uuid n) ∉ g_members new_group)) in
                Ok (Some (node_uuid, default [] (n_group n), new_group_uuid))
            end
        end
  end.

Definition resolve_mods (d : config_data) (mods : list (str * str)) : exc (list regroup) :=
  rmap (λ rs, mjoin (option_list <$> rs)) (rmapM (λ '(n, g), resolve_mod d n g) mods).

(** One modification: [node.group = new_group.uuid] and the lists of members *)
Definition apply_mod (m : regroup) : meth writer unit :=
  let '(nk, ok, gk) := m in
  d ← gets w_data ;
  match dget nk (cd_nodes d), dget ok (cd_nodegroups d), dget gk (cd_nodegroups d) with
  | Some n, Some old_group, Some new_group =>
      let nu := default [] (n_uuid n) in
      lift (assert (bool_decide (n_uuid n ≠ g_uuid new_group) &&
                    bool_decide (g_uuid old_group ≠ g_uuid new_group))) ;;
      update (set_cd_nodes (dalter (set_n_group (g_uuid new_group)) nk)) ;;
      update (set_nodegroups (dalter (λ g, set_g_members (remove1 nu (g_members g)) g) ok)) ;;
      update (set_nodegroups (dalter (λ g, if decide (nu ∈ g_members g) then g
                                           else set_g_members (g_members g ++ [nu]) g) gk))
  | _, _, _ => raise Key_error
  end.

Definition stamp_node (n : node) : node := set_n_stamp (n_serial_no n + 1) now n.
Definition stamp_group (g : node_group) : node_group := set_g_stamp (g_serial_no g + 1) now g.

(** Serials and time stamps, once per object *)
Definition stamp_mods (ms : list regroup) (d : config_data) : config_data :=
  let nks := remove_dups ((λ m, m.1.1) <$> ms) in
  let gks := remove_dups (((λ m, m.1.2) <$> ms) ++ (snd <$> ms)) in
  set_nodegroups (λ gs, foldl (λ gs k, dalter stamp_group k gs) gs gks)
    (set_cd_nodes (λ ns, foldl (λ ns k, dalter stamp_node k ns) ns nks) d).

Definition AssignGroupNodes (mods : list (str * str)) : meth writer unit :=
  resmod ← reads (λ w, resolve_mods (w_data w) mods) ;
  for_each resmod apply_mod ;;
  update (stamp_mods resmod) ;;
  bump_serial.

(** ** The candidate pool *)

(** The loop; [node_list] are the keys in random order.  The keys of the nodes
    that were changed, in order. *)
Fixpoint promote (node_list : list str) (exceptions : list str) (mc_now mc_max : Z) (nodes : dict node)
    : exc (list str * dict node) :=
  match node_list with
  | [] => Ok ([], nodes)
  | uuid :: node_list =>
      if mc_max <=? mc_now then Ok ([], nodes)
      else
        match dget uuid nodes with
        | None => Raise Key_error
        | Some n =>
            if not_promotable exceptions n then promote node_list exceptions mc_now mc_max nodes
            else
              let* '(mod_list, nodes) :=
                promote node_list exceptions (mc_now + 1) mc_max (dset uuid (set_n_candidate n) nodes) in
              Ok (uuid :: mod_list, nodes)
        end
  end.

Definition MaintainCandidatePool (node_list exceptions : list str) : meth writer (list str) :=
  d ← gets w_data ;
  let '(mc_now, mc_max, _) := GetMasterCandidateStats d exceptions in
  if mc_now <? mc_max then
    match promote node_list exceptions mc_now mc_max (cd_nodes d) with
    | Raise e => raise e
    | Ok (mod_list, nodes) =>
        update (set_cd_nodes (λ _, nodes)) ;;
        match mod_list with [] => mret tt | _ => bump_serial end ;;
        mret mod_list
    end
  else mret [].

(** ** Loading: the members of the groups *)

Definition INITIAL_NODE_GROUP_NAME : str := lit "default".
Definition UPGRADE_CONFIG_JID : string := "jid-cfg-upgrade".

(** The part of [_UpgradeConfig] on groups: lists of members are not saved. *)
Definition UpgradeGroups : meth writer unit :=
  groups ← gets (λ w, cd_nodegroups (w_data w)) ;
  match groups with
  | [] => AddNodeGroup (NodeGroup INITIAL_NODE_GROUP_NAME [] [] [] MakeEmptyIPolicy 0 0 [] None)
            UPGRADE_CONFIG_JID true
  | _ => mret tt
  end ;;
  nodes ← gets (λ w, cd_nodes (w_data w)) ;
  for_each nodes (λ '(nk, n),
    match given (n_group n) with
    | [] =>
        g ← reads (λ w, LookupNodeGroup (w_data w) None) ;
        update (set_cd_nodes (dalter (set_n_group g) nk)) ;;
        AddNodeToGroup (default [] (n_uuid n)) g
    | _ => AddNodeToGroup (default [] (n_uuid n)) (n_group n)
    end).

(** [NodeGroup.ToDict] drops the members, [NodeGroup.FromDict] starts with
    none. *)
Definition forget_members (d : config_data) : config_data :=
  set_nodegroups (dmap (set_g_members [])) d.
End groups.

(** ** Networks, disks, instances *)

Section others.
  Context (newuuid : nat → str) (fuel : nat) (show : str → string) (now : Q).

Definition AddNetwork (n : net) (ec_id : string) (check_uuid : bool) : meth writer unit :=
  n ← (if check_uuid then
         uuid ← EnsureUUID newuuid fuel show (net_uuid n) ec_id ; mret (set_net_uuid uuid n)
       else mret n) ;
  let n := set_net_stamp 1 now n in
  update (set_networks (dset (default [] (net_uuid n)) n)) ;;
  bump_serial.

Definition RemoveNetwork (network_uuid : str) : meth writer unit :=
  nets ← gets (λ w, cd_networks (w_data w)) ;
  if negb (dhas network_uuid nets) then raise Configuration_error
  else update (set_networks (ddel network_uuid)) ;; bump_serial.

(** [_UnlockedRemoveDisk] *)
Definition RemoveDisk (disk_uuid : str) : meth writer unit :=
  d ← gets w_data ;
  if negb (dhas disk_uuid (cd_disks d)) then raise Configuration_error
  else if existsb (λ i, bool_decide (disk_uuid ∈ i_disks i)) (dvalues (cd_instances d))
  then raise (GntExn ReservationError [])
  else update (set_cd_disks (ddel disk_uuid)) ;; bump_serial.

Definition SetDiskNodes (disk_uuid : str) (nodes : list str) : meth writer unit :=
  d ← gets w_data ;
  match GetDiskInfo d disk_uuid with
  | None => raise Attribute_error
  | Some _ => update (set_cd_disks (dalter (set_nodes nodes) disk_uuid))
  end.

Definition SetDiskLogicalID (disk_uuid : str) (l : logical_id) : meth writer unit :=
  d ← gets w_data ;
  match GetDiskInfo d disk_uuid with
  | None => raise Configuration_error
  | Some x =>
      if (lid_len (d_logical_id x) =? lid_len l)%nat
      then update (set_cd_disks (dalter (set_logical_id l) disk_uuid))
      else raise (GntExn ProgrammerError [])
  end.

(** The path of a file-based disk after its instance was renamed *)
Definition renamed_path (new_name path : str) : exc str :=
  PathJoin [dirname (dirname path); new_name; basename path].

Definition rename_disk (new_name disk_uuid : str) : meth writer unit :=
  d ← gets w_data ;
  match GetDiskInfo d disk_uuid with
  | None => raise Attribute_error
  | Some x =>
      if decide (d_dev_type x ∈ [DT_FILE; DT_SHARED_FILE]) then
        path ← lift (renamed_path new_name (lid_second (d_logical_id x))) ;
        update (set_cd_disks (dalter (set_logical_id (LPair (lid_first (d_logical_id x)) path)) disk_uuid))
      else mret tt
  end.

Definition RenameInstance (inst_uuid new_name : str) : meth writer unit :=
  d ← gets w_data ;
  match GetInstanceInfo d inst_uuid with
  | None => raise Configuration_error
  | Some inst =>
      update (set_instances (dalter (set_i_name new_name) inst_uuid)) ;;
      for_each (i_disks inst) (rename_disk new_name) ;;
      bump_serial
  end.

(** ** The cluster *)

Definition set_certs (f : dict str → dict str) (c : cluster) : cluster :=
  Cluster (c_serial_no c) (c_params c) (c_ipolicy c) (c_highest_used_port c) (c_tcpudp_port_pool c)
    (c_master_node c) (c_master_ip c) (c_candidate_pool_size c) (f (c_candidate_certs c))
    (c_volume_group_name c) (c_drbd_usermode_helper c) (c_uuid c).
Definition set_vg_name (v : option str) (c : cluster) : cluster :=
  Cluster (c_serial_no c) (c_params c) (c_ipolicy c) (c_highest_used_port c) (c_tcpudp_port_pool c)
    (c_master_node c) (c_master_ip c) (c_candidate_pool_size c) (c_candidate_certs c)
    v (c_drbd_usermode_helper c) (c_uuid c).
Definition set_drbd_helper (v : option str) (c : cluster) : cluster :=
  Cluster (c_serial_no c) (c_params c) (c_ipolicy c) (c_highest_used_port c) (c_tcpudp_port_pool c)
    (c_master_node c) (c_master_ip c) (c_candidate_pool_size c) (c_candidate_certs c)
    (c_volume_group_name c) v (c_uuid c).

Definition AddNodeToCandidateCerts (node_uuid cert_digest : str) : meth writer unit :=
  certs ← gets (λ w, c_candidate_certs (cd_cluster (w_data w))) ;
  if decide (dget node_uuid certs = Some cert_digest) then mret tt
  else update (set_cluster (set_certs (dset node_uuid cert_digest))).

Definition RemoveNodeFromCandidateCerts (node_uuid : str) : meth writer unit :=
  certs ← gets (λ w, c_candidate_certs (cd_cluster (w_data w))) ;
  if dhas node_uuid certs then update (set_cluster (set_certs (ddel node_uuid))) else mret tt.

Definition SetCandidateCerts (certs : dict str) : meth writer unit :=
  update (set_cluster (set_certs (λ _, certs))).
Definition SetVGName (vg_name : option str) : meth writer unit :=
  update (set_cluster (set_vg_name vg_name)) ;; bump_serial.
Definition SetDRBDHelper (helper : option str) : meth writer unit :=
  update (set_cluster (set_drbd_helper helper)) ;; bump_serial.
End others.
