(* ===== verification/ConfigInv.v ===== *)
(** * The configuration's invariant

    [config_ok]: nodes, groups and networks are stored under their UUIDs, every
    node is in exactly the group it names, the lists of members agree, group
    names are unique; [filed]: instances and disks are stored under their UUIDs.
    Each operation of [Config] keeps both, whether it returns or raises. *)

From Stdlib Require Import QArith.
From S2P Require Import Prelude Errors PySort PyStr PyVal Text Algo PyDict PyState Params ParamsProps.
From S2P Require Import Disk Paths Reservations Config.
#[local] Open Scope list_scope.
#[local] Open Scope stdpp_scope.
#[local] Open Scope Z_scope.
#[local] Open Scope py_scope.

Record config_ok (d : config_data) : Prop := {
  ok_nodes : dict_ok (cd_nodes d);
  ok_groups : dict_ok (cd_nodegroups d);
  ok_instances : dict_ok (cd_instances d);
  ok_networks : dict_ok (cd_networks d);
  ok_disks : dict_ok (cd_disks d);
  ok_node_uuid : ∀ k n, dget k (cd_nodes d) = Some n → n_uuid n = Some k ∧ k ≠ [];
  ok_group_uuid : ∀ k g, dget k (cd_nodegroups d) = Some g → g_uuid g = Some k ∧ k ≠ [];
  ok_net_uuid : ∀ k n, dget k (cd_networks d) = Some n → net_uuid n = Some k ∧ k ≠ [];
  ok_node_group : ∀ k n, dget k (cd_nodes d) = Some n →
    ∃ gk g, n_group n = Some gk ∧ dget gk (cd_nodegroups d) = Some g ∧ k ∈ g_members g;
  ok_members : ∀ gk g, dget gk (cd_nodegroups d) = Some g →
    NoDup (g_members g) ∧
    ∀ nk, nk ∈ g_members g → ∃ n, dget nk (cd_nodes d) = Some n ∧ n_group n = Some gk;
  ok_group_names : ∀ k1 g1 k2 g2, dget k1 (cd_nodegroups d) = Some g1 →
    dget k2 (cd_nodegroups d) = Some g2 → g_name g1 = g_name g2 → k1 = k2;
  ok_apart : ∀ k, k ∈ dkeys (cd_nodes d) → k ∉ dkeys (cd_nodegroups d)
}.

(** ** Changes the invariant does not see *)

Definition node_shape (n : node) : option str * option str := (n_uuid n, n_group n).
Definition group_shape (g : node_group) : option str * list str * str := (g_uuid g, g_members g, g_name g).

Record same_shape (d d' : config_data) : Prop := {
  ss_nodes : dmap node_shape (cd_nodes d) = dmap node_shape (cd_nodes d');
  ss_groups : dmap group_shape (cd_nodegroups d) = dmap group_shape (cd_nodegroups d');
  ss_networks : dmap net_uuid (cd_networks d) = dmap net_uuid (cd_networks d');
  ss_instances : dkeys (cd_instances d) = dkeys (cd_instances d');
  ss_disks : dkeys (cd_disks d) = dkeys (cd_disks d')
}.

#[export] Instance same_shape_equivalence : Equivalence same_shape.
Proof.
  split.
  - intros d. by constructor.
  - intros d d' []. by constructor.
  - intros d1 d2 d3 [] []. constructor; congruence.
Qed.

Lemma dmap_keys {K V W} {EqK : EqDecision K} (f : V → W) (a b : list (K * V)) :
  dmap f a = dmap f b → dkeys a = dkeys b.
Proof. intros H. by rewrite <-(dkeys_dmap f a), H, dkeys_dmap. Qed.

Lemma dmap_get {V W} (f : V → W) (a b : dict V) k v :
  dmap f a = dmap f b → dget k a = Some v → ∃ v', dget k b = Some v' ∧ f v' = f v.
Proof.
  intros H Hk. pose proof (dget_dmap f a k) as Ha. rewrite H, dget_dmap, Hk in Ha.
  simpl in Ha. by apply fmap_Some_1 in Ha as (v' & ? & ?); eauto.
Qed.

#[export] Instance config_ok_proper : Proper (same_shape ==> iff) config_ok.
Proof.
  assert (∀ d d', same_shape d d' → config_ok d → config_ok d') as H.
  { intros d d' [Hn Hg Hw Hi Hd] []. pose proof (dmap_keys _ _ _ Hn) as Kn.
    pose proof (dmap_keys _ _ _ Hg) as Kg. pose proof (dmap_keys _ _ _ Hw) as Kw.
    constructor; unfold dict_ok in *; rewrite <-?Kn, <-?Kg, <-?Kw, <-?Hi, <-?Hd; try done.
    - intros k n Hk. symmetry in Hn. destruct (dmap_get _ _ _ _ _ Hn Hk) as (n' & Hk' & [= E1 E2]).
      rewrite <-E1. eauto.
    - intros k g Hk. symmetry in Hg. destruct (dmap_get _ _ _ _ _ Hg Hk) as (g' & Hk' & [= E1 E2 E3]).
      rewrite <-E1. eauto.
    - intros k n Hk. symmetry in Hw. destruct (dmap_get _ _ _ _ _ Hw Hk) as (n' & Hk' & E).
      rewrite <-E. eauto.
    - intros k n Hk. symmetry in Hn. destruct (dmap_get _ _ _ _ _ Hn Hk) as (n' & Hk' & [= E1 E2]).
      destruct (ok_node_group0 _ _ Hk') as (gk & g & Hgk & Hg' & Hm).
      destruct (dmap_get _ _ _ _ _ Hg Hg') as (g2 & Hg2 & [= E3 E4 E5]).
      exists gk, g2. rewrite <-E2, E4. eauto.
    - intros gk g Hk. symmetry in Hg. destruct (dmap_get _ _ _ _ _ Hg Hk) as (g' & Hk' & [= E1 E2 E3]).
      destruct (ok_members0 _ _ Hk') as [Hnd Hm]. rewrite <-E2. split; [done|]. intros nk Hin.
      destruct (Hm nk Hin) as (n & Hnk & Hgr).
      destruct (dmap_get _ _ _ _ _ Hn Hnk) as (n2 & Hn2 & [= E4 E5]). exists n2. rewrite E5. eauto.
    - intros k1 g1 k2 g2 H1 H2 E. symmetry in Hg.
      destruct (dmap_get _ _ _ _ _ Hg H1) as (g1' & H1' & [= _ _ E1]).
      destruct (dmap_get _ _ _ _ _ Hg H2) as (g2' & H2' & [= _ _ E2]).
      eapply ok_group_names0; [done..|congruence]. }
  intros d d' Hs. split; apply H; [done|by symmetry].
Qed.

(** Altering an entry without changing its shape *)
Lemma dmap_dalter {K V W} {EqK : EqDecision K} (f : V → W) (h : V → V) (k : K) (d : list (K * V)) :
  (∀ v, f (h v) = f v) → dmap f (dalter h k d) = dmap f d.
Proof.
  intros Hf. unfold dalter. destruct (dget k d) as [v|] eqn:E; [|done]. revert E.
  induction d as [|[k' v'] d IH]; simpl; [done|]. case_decide as Ek.
  - intros [= ->]. simpl. unfold prod_map. simpl. by rewrite Hf.
  - intros E. simpl. by rewrite IH.
Qed.

Lemma dmap_foldl_dalter {V W} (f : V → W) (h : V → V) (ks : list str) (d : dict V) :
  (∀ v, f (h v) = f v) → dmap f (foldl (λ d k, dalter h k d) d ks) = dmap f d.
Proof.
  intros Hf. revert d. induction ks as [|k ks IH]; intros d; simpl; [done|].
  rewrite IH. by apply dmap_dalter.
Qed.

Lemma bump_shape d : same_shape (set_cluster bump_cluster d) d.
Proof. by constructor. Qed.

Lemma config_ok_bump d : config_ok (set_cluster bump_cluster d) ↔ config_ok d.
Proof. by rewrite bump_shape. Qed.

Lemma stamp_shape now ms d : same_shape (stamp_mods now ms d) d.
Proof.
  constructor; simpl; try done; by apply dmap_foldl_dalter.
Qed.

(** ** New identifiers *)

Section fresh.
  Context (newuuid : nat → str) (fuel : nat) (show : str → string).

Definition wdata_ok (w : writer) : Prop := config_ok (w_data w).

Lemma given_Some (k : str) : k ≠ [] → given (Some k) = [k].
Proof. by destruct k. Qed.

Lemma ConfigIDs_keys d ids u :
  config_ok d → ConfigIDs d = Ok ids → u ∉ ids →
  u ∉ dkeys (cd_nodes d) ∧ u ∉ dkeys (cd_nodegroups d) ∧ u ∉ dkeys (cd_networks d).
Proof.
  intros Hok Hids Hu. unfold ConfigIDs in Hids. inv_result. rewrite !not_elem_of_app in Hu.
  destruct Hu as (_ & _ & Hn & Hu). rewrite list_elem_of_join in Hu.
  assert (∀ o, o ∈ AllUUIDs d → u ∉ given o) as Ha.
  { intros o Ho Hg. apply Hu. exists (given o). split; [done|]. apply list_elem_of_fmap. eauto. }
  unfold AllUUIDs in Ha. split_and!; [done|..].
  - intros [g Hg]%dget_is_Some. destruct (ok_group_uuid _ Hok _ _ Hg) as [Eu Hne].
    apply (Ha (g_uuid g)); [|rewrite Eu, given_Some by done; left].
    rewrite !elem_of_app. do 2 right. left. apply list_elem_of_fmap. exists g. split; [done|].
    apply elem_of_dvalues; [apply Hok|eauto].
  - intros [n Hg]%dget_is_Some. destruct (ok_net_uuid _ Hok _ _ Hg) as [Eu Hne].
    apply (Ha (net_uuid n)); [|rewrite Eu, given_Some by done; left].
    rewrite !elem_of_app. do 3 right. left. apply list_elem_of_fmap. exists n. split; [done|].
    apply elem_of_dvalues; [apply Hok|eauto].
Qed.

(** A new identifier: not in use, and not empty *)
Definition fresh (d : config_data) (u : str) : Prop :=
  u ≠ [] ∧ u ∉ dkeys (cd_nodes d) ∧ u ∉ dkeys (cd_nodegroups d) ∧ u ∉ dkeys (cd_networks d).

Lemma generated_fresh n all (gen : nat → option str) k u :
  generate_loop n all gen k = Some u → u ∉ all ∧ ∃ j, gen j = Some u.
Proof.
  revert k. induction n as [|n IH]; intros k; simpl; [done|].
  destruct (gen k) as [v|] eqn:E; [|apply IH]. case_decide; [apply IH|]. intros [= ->]. eauto.
Qed.

Lemma EnsureUUID_fresh uuid ec_id w r w' :
  (∀ k, newuuid k ≠ []) → wdata_ok w → EnsureUUID newuuid fuel show uuid ec_id w = Some (r, w') →
  w_data w' = w_data w ∧ ∀ u, r = Ok u → fresh (w_data w) u.
Proof.
  intros Hnew Hok. unfold EnsureUUID. destruct (given uuid) as [|u us] eqn:Eg.
  - unfold GenerateUniqueID, AllIDs. destruct (ConfigIDs (w_data w)) as [ids|e] eqn:Ei; simpl.
    2: { intros [= <- <-]. naive_solver. }
    unfold Generate. destruct (generate_loop _ _ _ _) as [u|] eqn:El; [|done].
    apply generated_fresh in El as [Hu [j [= Hj]]].
    assert (fresh (w_data w) u) as Hf.
    { split; [by subst|]. eapply ConfigIDs_keys; [done..|]. set_solver. }
    destruct (Reserve _ _ _ _) as [m|e]; simpl; intros [= <- <-]; naive_solver.
  - unfold CheckUniqueUUID. rewrite Eg. unfold mbind, meth_bind, reads, AllIDs.
    destruct (ConfigIDs (w_data w)) as [ids|e] eqn:Ei; simpl; [|intros [= <- <-]; naive_solver].
    case_decide as Hu; simpl; intros [= <- <-]; [naive_solver|]. split; [done|]. intros ? [= <-].
    split; [destruct uuid as [[]|]; naive_solver|]. eapply ConfigIDs_keys; [done..|]. set_solver.
Qed.
End fresh.

(** ** Nodes *)

Section nodes.
  Context (newuuid : nat → str) (fuel : nat) (show : str → string) (now : Q).
  Context (Hnew : ∀ k, newuuid k ≠ []).

(** Adding a node under a new UUID to a group it names *)
Lemma config_ok_add_node d u n gk g :
  config_ok d → fresh d u → n_uuid n = Some u → n_group n = Some gk →
  dget gk (cd_nodegroups d) = Some g →
  config_ok (set_cd_nodes (dset u n)
    (set_nodegroups (dalter (λ g, set_g_members (g_members g ++ [u]) g) gk) d)).
Proof.
  intros [] (Hne & Hun & Hug & Huw) Hu Hgr Hg. constructor; simpl; auto with dict.
  - intros k n'. rewrite dget_dset. case_decide as E; [|auto]. intros [= <-]. by subst.
  - intros k g'. rewrite dget_dalter. case_decide as E; [|auto]. subst. rewrite Hg. intros [= <-].
    simpl. eauto.
  - intros k n'. rewrite dget_dset. case_decide as E.
    + intros [= <-]. subst. exists gk, (set_g_members (g_members g ++ [u]) g).
      rewrite dget_dalter, decide_True, Hg by done. simpl. split_and!; [done..|set_solver].
    + intros Hk. destruct (ok_node_group0 _ _ Hk) as (gk' & g' & ? & Hg' & Hm).
      destruct (decide (gk' = gk)) as [->|].
      * exists gk, (set_g_members (g_members g ++ [u]) g).
        rewrite dget_dalter, decide_True, Hg by done. simplify_eq. simpl. split_and!; [done..|set_solver].
      * exists gk', g'. by rewrite dget_dalter, decide_False.
  - intros gk' g'. rewrite dget_dalter. case_decide as E.
    + subst. rewrite Hg. intros [= <-]. simpl. destruct (ok_members0 _ _ Hg) as [Hnd Hm].
      assert (u ∉ g_members g) as Hu'.
      { intros (n' & Hn' & _)%Hm. apply Hun. apply dget_is_Some. eauto. }
      split; [apply NoDup_app; split_and!; [done|set_solver|apply NoDup_singleton]|].
      intros nk [Hnk| ->%list_elem_of_singleton]%elem_of_app.
      * destruct (Hm nk Hnk) as (n' & Hn' & ?). exists n'. rewrite dget_dset_ne; [done|].
        intros ->. apply Hun, dget_is_Some. eauto.
      * exists n. by rewrite dget_dset_eq.
    + intros Hg'. destruct (ok_members0 _ _ Hg') as [Hnd Hm]. split; [done|]. intros nk Hnk.
      destruct (Hm nk Hnk) as (n' & Hn' & ?). exists n'. rewrite dget_dset_ne; [done|].
      intros ->. apply Hun, dget_is_Some. eauto.
  - intros k1 g1 k2 g2. rewrite !dget_dalter.
    assert (∀ k g', (if decide (k = gk) then (λ g, set_g_members (g_members g ++ [u]) g) <$> dget gk (cd_nodegroups d)
             else dget k (cd_nodegroups d)) = Some g' →
             ∃ g'', dget k (cd_nodegroups d) = Some g'' ∧ g_name g'' = g_name g') as Hs.
    { intros k g'. case_decide; [|eauto]. subst. rewrite Hg. intros [= <-]. eauto. }
    intros (g1' & H1 & E1)%Hs (g2' & H2 & E2)%Hs E. eapply ok_group_names0; [done..|congruence].
  - intros k. rewrite elem_of_dkeys_dset, dkeys_dalter. intros [->|Hk]; [done|by apply ok_apart0].
Qed.

Lemma AddNodeToGroup_eq u gk w :
  AddNodeToGroup u gk w =
  match gk ≫= λ g, dget g (cd_nodegroups (w_data w)) with
  | None => Some (Raise (GntExn OpExecError []), w)
  | Some g =>
      Some (Ok tt, if decide (u ∈ g_members g) then w
                   else upd_data (set_nodegroups (dalter (λ g, set_g_members (g_members g ++ [u]) g)
                                                    (default [] gk))) w)
  end.
Proof.
  unfold AddNodeToGroup. rewrite gets_bind_eq. destruct (gk ≫= _); [|done]. by case_decide.
Qed.

Lemma AddNode_ok n ec_id : preserves wdata_ok (AddNode newuuid fuel show now n ec_id).
Proof.
  intros w r w' Hok. unfold AddNode. rewrite meth_bind_eq.
  destruct (EnsureUUID _ _ _ _ _ _) as [[ru w1]|] eqn:Eu; [|done].
  destruct (EnsureUUID_fresh _ _ _ _ _ _ _ _ Hnew Hok Eu) as [E Hf].
  assert (wdata_ok w1) as Hok1 by (unfold wdata_ok; by rewrite E).
  destruct ru as [u|e]; [|by intros [= <- <-]]. specialize (Hf u eq_refl).
  rewrite meth_bind_eq, AddNodeToGroup_eq, E. cbn [n_group set_n_stamp set_n_uuid].
  destruct (n_group n) as [gk|] eqn:Egr; [|by intros [= <- <-]]. cbn [mbind option_bind].
  destruct (dget gk (cd_nodegroups (w_data w))) as [g|] eqn:Eg; [|by intros [= <- <-]].
  rewrite decide_False.
  2: { intros Hin. destruct (ok_members _ Hok _ _ Eg) as [_ Hm]. destruct (Hm _ Hin) as (n' & Hn' & _).
       destruct Hf as (_ & Hun & _). apply Hun, dget_is_Some. eauto. }
  intros [= <- <-]. unfold wdata_ok. simpl. rewrite config_ok_bump, E. by eapply config_ok_add_node.
Qed.

Lemma config_ok_remove_node d u n gk :
  config_ok d → dget u (cd_nodes d) = Some n → n_group n = Some gk →
  config_ok (set_cd_nodes (ddel u)
    (set_nodegroups (dalter (λ g, set_g_members (remove1 u (g_members g)) g) gk) d)).
Proof.
  intros Hok Hu Hgr. destruct (ok_node_group _ Hok _ _ Hu) as (gk' & g & Hgr' & Hg & Hin).
  rewrite Hgr in Hgr'. injection Hgr' as <-. destruct Hok. constructor; simpl; auto with dict.
  - intros k n'. rewrite dget_ddel by done. case_decide; [done|auto].
  - intros k g'. rewrite dget_dalter. case_decide as E; [|auto]. subst. rewrite Hg. intros [= <-].
    simpl. eauto.
  - intros k n'. rewrite dget_ddel by done. case_decide as E; [done|]. intros Hk.
    destruct (ok_node_group0 _ _ Hk) as (gk' & g' & ? & Hg' & Hm). destruct (decide (gk' = gk)) as [->|].
    + exists gk, (set_g_members (remove1 u (g_members g)) g). rewrite dget_dalter, decide_True, Hg by done.
      simplify_eq. simpl. split_and!; [done..|]. apply elem_of_remove1; [|done].
      by destruct (ok_members0 _ _ Hg).
    + exists gk', g'. by rewrite dget_dalter, decide_False.
  - intros gk' g'. rewrite dget_dalter. case_decide as E.
    + subst. rewrite Hg. intros [= <-]. simpl. destruct (ok_members0 _ _ Hg) as [Hnd Hm].
      split; [by apply NoDup_remove1|]. intros nk [Hne Hnk]%elem_of_remove1; [|done].
      destruct (Hm nk Hnk) as (n' & Hn' & ?). exists n'. by rewrite dget_ddel_ne.
    + intros Hg'. destruct (ok_members0 _ _ Hg') as [Hnd Hm]. split; [done|]. intros nk Hnk.
      destruct (Hm nk Hnk) as (n' & Hn' & ?). exists n'. rewrite dget_ddel_ne; [done|].
      intros ->. naive_solver.
  - intros k1 g1 k2 g2. rewrite !dget_dalter.
    assert (∀ k g', (if decide (k = gk) then (λ g, set_g_members (remove1 u (g_members g)) g) <$> dget gk (cd_nodegroups d)
             else dget k (cd_nodegroups d)) = Some g' →
             ∃ g'', dget k (cd_nodegroups d) = Some g'' ∧ g_name g'' = g_name g') as Hs.
    { intros k g'. case_decide; [|eauto]. subst. rewrite Hg. intros [= <-]. eauto. }
    intros (g1' & H1 & E1)%Hs (g2' & H2 & E2)%Hs E. eapply ok_group_names0; [done..|congruence].
  - intros k. rewrite elem_of_dkeys_ddel, dkeys_dalter by done. intros [_ Hk]. by apply ok_apart0.
Qed.

Lemma RemoveNode_ok u : preserves wdata_ok (RemoveNode u).
Proof.
  intros w r w' Hok. unfold RemoveNode. rewrite gets_bind_eq.
  destruct (dget u (cd_nodes (w_data w))) as [n|] eqn:Eu; [|by intros [= <- <-]].
  destruct (ok_node_group _ Hok _ _ Eu) as (gk & g & Hgr & Hg & Hin).
  destruct (ok_node_uuid _ Hok _ _ Eu) as [Hu _].
  rewrite meth_bind_eq. unfold RemoveNodeFromGroup. rewrite gets_bind_eq, Hgr. cbn [mbind option_bind].
  rewrite Hg, Hu. cbn [default]. rewrite decide_True by done.
  intros [= <- <-]. unfold wdata_ok. simpl. rewrite config_ok_bump. by eapply config_ok_remove_node.
Qed.
End nodes.

(** ** Groups *)

Lemma LookupNodeGroup_missing d name e :
  config_ok d → LookupNodeGroup d (Some name) = Raise e →
  ∀ k g, dget k (cd_nodegroups d) = Some g → g_name g ≠ name.
Proof.
  intros Hok H k g Hg En. unfold LookupNodeGroup in H. destruct (dhas name _); [done|].
  destruct (List.find _ _) as [g'|] eqn:Ef; [done|].
  assert (g ∈ dvalues (cd_nodegroups d)) as Hin by (apply elem_of_dvalues; [apply Hok|eauto]).
  apply list_elem_of_In in Hin. pose proof (List.find_none _ _ Ef _ Hin) as Hx. simpl in Hx.
  apply bool_decide_eq_false in Hx. done.
Qed.

Lemma config_ok_add_group d u g :
  config_ok d → fresh d u → g_uuid g = Some u → g_members g = [] →
  (∀ k g', dget k (cd_nodegroups d) = Some g' → g_name g' ≠ g_name g) →
  config_ok (set_nodegroups (dset u g) d).
Proof.
  intros [] (Hne & Hun & Hug & Huw) Hu Hm Hname. constructor; simpl; auto with dict.
  - intros k g'. rewrite dget_dset. case_decide as E; [|auto]. intros [= <-]. by subst.
  - intros k n Hk. destruct (ok_node_group0 _ _ Hk) as (gk & g' & ? & Hg' & ?). exists gk, g'.
    rewrite dget_dset_ne; [done|]. intros ->. apply Hug, dget_is_Some. eauto.
  - intros gk g'. rewrite dget_dset. case_decide as E; [|apply ok_members0]. intros [= <-].
    rewrite Hm. split; [constructor|]. by intros nk ?%not_elem_of_nil.
  - intros k1 g1 k2 g2. rewrite !dget_dset. repeat case_decide; intros; simplify_eq; try done.
    + exfalso. by eapply Hname.
    + exfalso. by eapply Hname.
    + eauto.
  - intros k Hk. rewrite elem_of_dkeys_dset. intros [->|?]; [done|]. by eapply ok_apart0.
Qed.

Section groups.
  Context (newuuid : nat → str) (fuel : nat) (show : str → string) (NICC_DEFAULTS : pdict) (now : Q).
  Context (Hnew : ∀ k, newuuid k ≠ []).

(** The caller has generated a UUID, or asks for one or for a check. *)
Definition uuid_given (check_uuid : bool) (uuid : option str) (d : config_data) : Prop :=
  check_uuid = true ∨ ∃ u, uuid = Some u ∧ fresh d u.

Lemma AddNodeGroup_ok group ec_id check_uuid w r w' :
  g_members group = [] → uuid_given check_uuid (g_uuid group) (w_data w) → wdata_ok w →
  AddNodeGroup newuuid fuel show NICC_DEFAULTS now group ec_id check_uuid w = Some (r, w') → wdata_ok w'.
Proof.
  intros Hm Hgiven Hok. unfold AddNodeGroup. rewrite meth_bind_eq.
  assert (∀ u w1, w_data w1 = w_data w → fresh (w_data w) u →
    (λ group, existing ← gets (λ w, LookupNodeGroup (w_data w) (Some (g_name group))) ;
       match existing with
       | Ok _ => raise (GntExn OpPrereqError [])
       | Raise (GntExn OpPrereqError _) =>
           let group := NodeGroup_UpgradeConfig NICC_DEFAULTS (set_g_stamp 1 now group) in
           update (set_nodegroups (dset (default [] (g_uuid group)) group)) ;;
           bump_serial
       | Raise e => raise e
       end) (set_g_uuid u group) w1 = Some (r, w') → wdata_ok w') as Hadd.
  { intros u w1 E Hf. assert (wdata_ok w1) as Hok1 by (unfold wdata_ok; by rewrite E).
    cbv beta. rewrite gets_bind_eq, E.
    destruct (LookupNodeGroup (w_data w) (Some (g_name (set_g_uuid u group)))) as [x|e] eqn:El;
      [by intros [= <- <-]|].
    destruct e as [c m|c m]; [by intros [= <- <-]|]. destruct c; try (by intros [= <- <-]).
    intros [= <- <-]. unfold wdata_ok. simpl. rewrite config_ok_bump, E.
    apply config_ok_add_group; try done. by eapply LookupNodeGroup_missing. }
  destruct check_uuid.
  - rewrite meth_bind_eq.
    destruct (EnsureUUID _ _ _ _ _ _) as [[ru w1]|] eqn:Eu; [|done].
    destruct (EnsureUUID_fresh _ _ _ _ _ _ _ _ Hnew Hok Eu) as [E Hf].
    destruct ru as [u|e]; [|intros [= <- <-]; unfold wdata_ok; by rewrite E].
    cbn [mret meth_ret]. by apply Hadd, Hf.
  - destruct Hgiven as [|(u & Hu & Hf)]; [done|]. cbn [mret meth_ret].
    assert (group = set_g_uuid u group) as -> by (destruct group; simpl in *; by subst).
    by apply Hadd.
Qed.

End groups.

(** Removing a group that no node is in *)
Lemma RemoveNodeGroup_ok u w r w' :
  wdata_ok w → (∀ g, dget u (cd_nodegroups (w_data w)) = Some g → g_members g = []) →
  RemoveNodeGroup u w = Some (r, w') → wdata_ok w'.
Proof.
  intros Hok He. unfold RemoveNodeGroup. rewrite gets_bind_eq.
  destruct (dhas u _) eqn:Eh; cbn [negb]; [|by intros [= <- <-]].
  rewrite meth_bind_eq. unfold lift, py_assert. destruct (negb _); [|by intros [= <- <-]].
  intros [= <- <-]. unfold wdata_ok. simpl. rewrite config_ok_bump.
  apply dhas_true, dget_is_Some in Eh as [g Hg]. specialize (He _ Hg).
  destruct Hok. constructor; simpl; auto with dict.
  - intros k g'. rewrite dget_ddel by done. case_decide; [done|auto].
  - intros k n Hk. destruct (ok_node_group0 _ _ Hk) as (gk & g' & ? & Hg' & Hin). exists gk, g'.
    rewrite dget_ddel_ne; [done|]. intros ->. simplify_eq. rewrite He in Hin. by apply not_elem_of_nil in Hin.
  - intros gk g'. rewrite dget_ddel by done. case_decide; [done|auto].
  - intros k1 g1 k2 g2. rewrite !dget_ddel by done. repeat case_decide; try done. eauto.
  - intros k Hk. rewrite elem_of_dkeys_ddel by done. intros [_ ?]. by eapply ok_apart0.
Qed.

(** ** Assigning nodes to groups *)

Definition move_group (nk ok gk : str) (d : config_data) : config_data :=
  set_nodegroups (dalter (λ g, if decide (nk ∈ g_members g) then g
                               else set_g_members (g_members g ++ [nk]) g) gk)
    (set_nodegroups (dalter (λ g, set_g_members (remove1 nk (g_members g)) g) ok)
      (set_cd_nodes (dalter (set_n_group (Some gk)) nk) d)).

Lemma remove1_not_in {A} {EqA : EqDecision A} (x : A) l : x ∉ l → remove1 x l = l.
Proof.
  induction l as [|y l IH]; simpl; [done|]. intros H. rewrite decide_False by set_solver.
  by rewrite IH by set_solver.
Qed.

(** What the groups look like after a move *)
Lemma move_group_get nk ok gk d k :
  ok ≠ gk →
  dget k (cd_nodegroups (move_group nk ok gk d)) =
  if decide (k = gk) then
    (λ g, if decide (nk ∈ g_members g) then g else set_g_members (g_members g ++ [nk]) g)
      <$> dget gk (cd_nodegroups d)
  else if decide (k = ok) then (λ g, set_g_members (remove1 nk (g_members g)) g) <$> dget ok (cd_nodegroups d)
  else dget k (cd_nodegroups d).
Proof.
  intros Hne. unfold move_group. simpl. rewrite !dget_dalter.
  repeat case_decide; subst; try done.
Qed.

Lemma config_ok_move d nk ok gk n go gn :
  config_ok d → dget nk (cd_nodes d) = Some n → n_group n = Some ok ∨ n_group n = Some gk → ok ≠ gk →
  dget ok (cd_nodegroups d) = Some go → dget gk (cd_nodegroups d) = Some gn →
  config_ok (move_group nk ok gk d).
Proof.
  intros Hok Hn Hgr Hne Ho Hg.
  assert (∀ k g', dget k (cd_nodegroups (move_group nk ok gk d)) = Some g' →
    ∃ g, dget k (cd_nodegroups d) = Some g ∧ g_uuid g' = g_uuid g ∧ g_name g' = g_name g ∧
      NoDup (g_members g') ∧
      ∀ x, x ∈ g_members g' ↔ (x = nk ∧ k = gk) ∨ (x ≠ nk ∧ x ∈ g_members g)) as Hget.
  { intros k g'. rewrite move_group_get by done. repeat case_decide; subst.
    - rewrite Hg. intros [= <-]. exists gn. destruct (ok_members _ Hok _ _ Hg) as [Hnd _].
      case_decide; (split_and!; [done..| |]); simpl; try done.
      + intros x. destruct (decide (x = nk)) as [->|]; naive_solver.
      + apply NoDup_app. split_and!; [done|set_solver|apply NoDup_singleton].
      + intros x. rewrite elem_of_app, list_elem_of_singleton. destruct (decide (x = nk)); naive_solver.
    - rewrite Ho. intros [= <-]. exists go. destruct (ok_members _ Hok _ _ Ho) as [Hnd _].
      split_and!; [done..| |]; simpl; [by apply NoDup_remove1|].
      intros x. rewrite elem_of_remove1 by done. naive_solver.
    - intros Hk. exists g'. destruct (ok_members _ Hok _ _ Hk) as [Hnd Hm]. split_and!; [done..|].
      intros x. split; [|naive_solver]. intros Hx. right. split; [|done]. intros ->.
      destruct (Hm _ Hx) as (n' & Hn' & E). simplify_eq. destruct Hgr; congruence. }
  assert (∀ k g, dget k (cd_nodegroups d) = Some g →
    ∃ g', dget k (cd_nodegroups (move_group nk ok gk d)) = Some g') as Hget'.
  { intros k g Hk. rewrite move_group_get by done. repeat case_decide; subst; rewrite ?Hg, ?Ho; simpl; eauto. }
  assert (∀ k n', dget k (cd_nodes (move_group nk ok gk d)) = Some n' →
    ∃ n0, dget k (cd_nodes d) = Some n0 ∧ n_uuid n' = n_uuid n0 ∧
      (k = nk ∧ n_group n' = Some gk ∨ k ≠ nk ∧ n_group n' = n_group n0)) as Hnode.
  { intros k n'. unfold move_group. simpl. rewrite dget_dalter. case_decide; subst.
    - rewrite Hn. intros [= <-]. exists n. split_and!; auto.
    - intros Hk. exists n'. auto. }
  destruct Hok. constructor.
  - by apply dict_ok_dalter.
  - by do 2 apply dict_ok_dalter.
  - done.
  - done.
  - done.
  - intros k n' (n0 & Hk & -> & _)%Hnode. auto.
  - intros k g' (g & Hk & -> & _)%Hget. auto.
  - done.
  - intros k n' (n0 & Hk & _ & [[-> Hk']|[Hk1 Hk']])%Hnode.
    + destruct (Hget' _ _ Hg) as [g' Hg']. exists gk, g'. split_and!; [done..|].
      destruct (Hget _ _ Hg') as (g & _ & _ & _ & _ & Hm). apply Hm. auto.
    + destruct (ok_node_group0 _ _ Hk) as (gk' & g & Hgk & Hg0 & Hin).
      destruct (Hget' _ _ Hg0) as [g' Hg']. exists gk', g'. split_and!; [congruence|done|].
      destruct (Hget _ _ Hg') as (g2 & Hg2 & _ & _ & _ & Hm). apply Hm. simplify_eq. auto.
  - intros gk' g' Hg'. destruct (Hget _ _ Hg') as (g & Hg0 & _ & _ & Hnd & Hm). split; [done|].
    unfold move_group. simpl. intros x Hx. rewrite dget_dalter.
    apply Hm in Hx as [[-> ->]|[Hx Hin]].
    + rewrite decide_True, Hn by done. simpl. eauto.
    + rewrite decide_False by done. destruct (ok_members0 _ _ Hg0) as [_ Hm0]. auto.
  - intros k1 g1 k2 g2 (g1' & H1 & _ & -> & _)%Hget (g2' & H2 & _ & -> & _)%Hget. eauto.
  - intros k. unfold move_group. simpl. rewrite !dkeys_dalter. apply ok_apart0.
Qed.

Lemma apply_mod_eq w nk ok gk n go gn :
  wdata_ok w → dget nk (cd_nodes (w_data w)) = Some n → ok ≠ gk →
  dget ok (cd_nodegroups (w_data w)) = Some go → dget gk (cd_nodegroups (w_data w)) = Some gn →
  apply_mod (nk, ok, gk) w = Some (Ok tt, upd_data (move_group nk ok gk) w).
Proof.
  intros Hok Hn Hne Ho Hg. unfold apply_mod. rewrite gets_bind_eq, Hn, Ho, Hg.
  destruct (ok_node_uuid _ Hok _ _ Hn) as [-> _].
  destruct (ok_group_uuid _ Hok _ _ Ho) as [-> _].
  destruct (ok_group_uuid _ Hok _ _ Hg) as [-> _].
  rewrite meth_bind_eq. unfold lift. rewrite (bool_decide_true (Some ok ≠ Some gk)) by congruence.
  rewrite bool_decide_true; [done|]. intros [= ->].
  eapply (ok_apart _ Hok gk); apply dget_is_Some; eauto.
Qed.

(** ** The other operations *)

Lemma preserves_update (f : config_data → config_data) :
  (∀ d, config_ok d → config_ok (f d)) → preserves wdata_ok (update f).
Proof. intros Hf. apply preserves_modify. intros w Hok. by apply Hf. Qed.

Lemma bump_serial_ok : preserves wdata_ok bump_serial.
Proof. apply preserves_update. intros d. by rewrite config_ok_bump. Qed.

Lemma config_ok_set_cluster f d : config_ok d → config_ok (set_cluster f d).
Proof. by destruct 1. Qed.

Lemma config_ok_set_disks f d :
  (dict_ok (cd_disks d) → dict_ok (f (cd_disks d))) → config_ok d → config_ok (set_cd_disks f d).
Proof. intros Hf []. constructor; simpl; auto. Qed.

Lemma config_ok_set_instances f d :
  (dict_ok (cd_instances d) → dict_ok (f (cd_instances d))) → config_ok d → config_ok (set_instances f d).
Proof. intros Hf []. constructor; simpl; auto. Qed.

Lemma config_ok_remove_network u d : config_ok d → config_ok (set_networks (ddel u) d).
Proof.
  intros []. constructor; simpl; auto with dict.
  intros k n. rewrite dget_ddel by done. case_decide; [done|auto].
Qed.

Create HintDb config.
#[export] Hint Resolve preserves_update bump_serial_ok config_ok_set_cluster config_ok_set_disks
  config_ok_set_instances config_ok_remove_network : config.

Ltac keeps_config := keeps; repeat (apply bump_serial_ok || (apply preserves_update; intros)); eauto with config dict.

Lemma RemoveNetwork_ok u : preserves wdata_ok (RemoveNetwork u).
Proof. unfold RemoveNetwork. keeps_config. Qed.
Lemma RemoveDisk_ok u : preserves wdata_ok (RemoveDisk u).
Proof. unfold RemoveDisk. keeps_config. Qed.
Lemma SetDiskNodes_ok u nodes : preserves wdata_ok (SetDiskNodes u nodes).
Proof. unfold SetDiskNodes. keeps_config. Qed.
Lemma SetDiskLogicalID_ok u l : preserves wdata_ok (SetDiskLogicalID u l).
Proof. unfold SetDiskLogicalID. keeps_config. Qed.
Lemma RenameInstance_ok u name : preserves wdata_ok (RenameInstance u name).
Proof. unfold RenameInstance, rename_disk. keeps_config. Qed.
Lemma AddNodeToCandidateCerts_ok u c : preserves wdata_ok (AddNodeToCandidateCerts u c).
Proof. unfold AddNodeToCandidateCerts. keeps_config. Qed.
Lemma RemoveNodeFromCandidateCerts_ok u : preserves wdata_ok (RemoveNodeFromCandidateCerts u).
Proof. unfold RemoveNodeFromCandidateCerts. keeps_config. Qed.
Lemma SetCandidateCerts_ok c : preserves wdata_ok (SetCandidateCerts c).
Proof. unfold SetCandidateCerts. keeps_config. Qed.
Lemma SetVGName_ok v : preserves wdata_ok (SetVGName v).
Proof. unfold SetVGName. keeps_config. Qed.
Lemma SetDRBDHelper_ok v : preserves wdata_ok (SetDRBDHelper v).
Proof. unfold SetDRBDHelper. keeps_config. Qed.

Lemma config_ok_add_network d u n :
  config_ok d → fresh d u → net_uuid n = Some u → config_ok (set_networks (dset u n) d).
Proof.
  intros [] (Hne & _ & _ & Huw) Hu. constructor; simpl; auto with dict.
  intros k n'. rewrite dget_dset. case_decide as E; [|auto]. intros [= <-]. by subst.
Qed.

Lemma AddNetwork_ok newuuid fuel show now n ec_id check_uuid w r w' :
  (∀ k, newuuid k ≠ []) → uuid_given check_uuid (net_uuid n) (w_data w) → wdata_ok w →
  AddNetwork newuuid fuel show now n ec_id check_uuid w = Some (r, w') → wdata_ok w'.
Proof.
  intros Hnew Hgiven Hok. unfold AddNetwork. rewrite meth_bind_eq. destruct check_uuid.
  - rewrite meth_bind_eq. destruct (EnsureUUID _ _ _ _ _ _) as [[ru w1]|] eqn:Eu; [|done].
    destruct (EnsureUUID_fresh _ _ _ _ _ _ _ _ Hnew Hok Eu) as [E Hf].
    destruct ru as [u|e]; [|intros [= <- <-]; unfold wdata_ok; by rewrite E]. specialize (Hf u eq_refl).
    intros [= <- <-]. unfold wdata_ok. simpl. rewrite config_ok_bump, E. by apply config_ok_add_network.
  - destruct Hgiven as [|(u & Hu & Hf)]; [done|]. intros [= <- <-]. unfold wdata_ok. simpl.
    rewrite config_ok_bump, Hu. by apply config_ok_add_network.
Qed.

(** ** Instances and disks are filed under their UUIDs *)

Definition filed (d : config_data) : Prop :=
  (∀ k i, dget k (cd_instances d) = Some i → i_uuid i = Some k) ∧
  (∀ k x, dget k (cd_disks d) = Some x → d_uuid x = Some k).

Definition wfiled (w : writer) : Prop := filed (w_data w).

Lemma filed_same d d' : cd_instances d' = cd_instances d → cd_disks d' = cd_disks d → filed d → filed d'.
Proof. unfold filed. by intros -> ->. Qed.

Lemma filed_alter_disk h k d : (∀ x, d_uuid (h x) = d_uuid x) → filed d → filed (set_cd_disks (dalter h k) d).
Proof.
  intros Hh [Hi Hd]. split; [done|]. intros k' x. simpl. rewrite dget_dalter. case_decide; [|apply Hd].
  subst. intros (y & Hy & ->)%fmap_Some_1. rewrite Hh. by apply Hd.
Qed.

Lemma filed_alter_instance h k d :
  (∀ i, i_uuid (h i) = i_uuid i) → filed d → filed (set_instances (dalter h k) d).
Proof.
  intros Hh [Hi Hd]. split; [|done]. intros k' x. simpl. rewrite dget_dalter. case_decide; [|apply Hi].
  subst. intros (y & Hy & ->)%fmap_Some_1. rewrite Hh. by apply Hi.
Qed.

Lemma filed_update f : (∀ d, filed d → filed (f d)) → preserves wfiled (update f).
Proof. intros Hf. apply preserves_modify. intros w. apply Hf. Qed.

Lemma filed_EnsureUUID newuuid fuel show uuid ec_id : preserves wfiled (EnsureUUID newuuid fuel show uuid ec_id).
Proof.
  unfold EnsureUUID. destruct (given uuid).
  - intros w r w' Hw. unfold GenerateUniqueID. destruct (AllIDs _ _); [|by intros [= <- <-]].
    destruct (Generate _ _ _ _ _ _) as [[[ids u]|e]|]; [..|done]; by intros [= <- <-].
  - unfold CheckUniqueUUID. keeps.
Qed.

Ltac keeps_filed :=
  keeps; repeat (apply filed_EnsureUUID ||
    (apply filed_update; intros; first [by apply filed_alter_disk|by apply filed_alter_instance
                                       |by eapply filed_same])).

Section filed.
  Context (newuuid : nat → str) (fuel : nat) (show : str → string) (NICC_DEFAULTS : pdict) (now : Q).

Lemma AddNode_filed n ec_id : preserves wfiled (AddNode newuuid fuel show now n ec_id).
Proof. unfold AddNode, AddNodeToGroup. keeps_filed. Qed.
Lemma RemoveNode_filed u : preserves wfiled (RemoveNode u).
Proof. unfold RemoveNode, RemoveNodeFromGroup. keeps_filed. Qed.
Lemma AddNodeGroup_filed g ec_id c : preserves wfiled (AddNodeGroup newuuid fuel show NICC_DEFAULTS now g ec_id c).
Proof. unfold AddNodeGroup. keeps_filed. Qed.
Lemma RemoveNodeGroup_filed u : preserves wfiled (RemoveNodeGroup u).
Proof. unfold RemoveNodeGroup. keeps_filed. Qed.
Lemma AssignGroupNodes_filed mods : preserves wfiled (AssignGroupNodes now mods).
Proof. unfold AssignGroupNodes, apply_mod. keeps_filed. Qed.
Lemma MaintainCandidatePool_filed nl ex : preserves wfiled (MaintainCandidatePool nl ex).
Proof. unfold MaintainCandidatePool. keeps_filed. Qed.
Lemma UpgradeGroups_filed : preserves wfiled (UpgradeGroups newuuid fuel show NICC_DEFAULTS now).
Proof. unfold UpgradeGroups, AddNodeGroup, AddNodeToGroup. keeps_filed. Qed.
Lemma AddNetwork_filed n ec_id c : preserves wfiled (AddNetwork newuuid fuel show now n ec_id c).
Proof. unfold AddNetwork. keeps_filed. Qed.
Lemma RemoveNetwork_filed u : preserves wfiled (RemoveNetwork u).
Proof. unfold RemoveNetwork. keeps_filed. Qed.
Lemma SetDiskNodes_filed u nodes : preserves wfiled (SetDiskNodes u nodes).
Proof. unfold SetDiskNodes. keeps_filed. Qed.
Lemma SetDiskLogicalID_filed u l : preserves wfiled (SetDiskLogicalID u l).
Proof. unfold SetDiskLogicalID. keeps_filed. Qed.
Lemma RenameInstance_filed u name : preserves wfiled (RenameInstance u name).
Proof. unfold RenameInstance, rename_disk. keeps_filed. Qed.
Lemma AddNodeToCandidateCerts_filed u c : preserves wfiled (AddNodeToCandidateCerts u c).
Proof. unfold AddNodeToCandidateCerts. keeps_filed. Qed.
Lemma RemoveNodeFromCandidateCerts_filed u : preserves wfiled (RemoveNodeFromCandidateCerts u).
Proof. unfold RemoveNodeFromCandidateCerts. keeps_filed. Qed.
Lemma SetCandidateCerts_filed c : preserves wfiled (SetCandidateCerts c).
Proof. unfold SetCandidateCerts. keeps_filed. Qed.
Lemma SetVGName_filed v : preserves wfiled (SetVGName v).
Proof. unfold SetVGName. keeps_filed. Qed.
Lemma SetDRBDHelper_filed v : preserves wfiled (SetDRBDHelper v).
Proof. unfold SetDRBDHelper. keeps_filed. Qed.

Lemma RemoveDisk_filed u w r w' :
  dict_ok (cd_disks (w_data w)) → wfiled w → RemoveDisk u w = Some (r, w') → wfiled w'.
Proof.
  intros Hk [Hi Hd]. unfold RemoveDisk. rewrite gets_bind_eq. destruct (negb _); [by intros [= <- <-]|].
  destruct (existsb _ _); intros [= <- <-]; [done|]. split; [done|]. intros k x. simpl.
  rewrite dget_ddel by done. case_decide; [done|apply Hd].
Qed.
End filed.
