(* ===== verification/ConfigGroups.v ===== *)
(** * Moving nodes between groups, the candidate pool, loading

    What [AssignGroupNodes], [MaintainCandidatePool] and the part of
    [_UpgradeConfig] that rebuilds the members of the groups do to a
    configuration that satisfies [ConfigInv.config_ok] (config/__init__.py). *)

From Stdlib Require Import QArith.
From S2P Require Import Prelude Errors PyStr PyVal Text PyDict PyState Params Disk Config ConfigInv.
#[local] Open Scope list_scope.
#[local] Open Scope stdpp_scope.
#[local] Open Scope Z_scope.
#[local] Open Scope py_scope.

(** ** Assigning nodes to groups *)

(** The group [mods] assign the node to *)
Definition target (mods : list (str * str)) (nk : str) : option str :=
  snd <$> List.find (λ m, bool_decide (m.1 = nk)) mods.

(** What the assignment makes of the node: untouched when it is in the group
    already. *)
Definition regrouped (now : Q) (mods : list (str * str)) (nk : str) (n : node) : node :=
  match target mods nk with
  | Some gk => if decide (n_group n = Some gk) then n else stamp_node now (set_n_group (Some gk) n)
  | None => n
  end.

(** No node is assigned to two groups. *)
Definition functional (mods : list (str * str)) : Prop :=
  ∀ nk g1 g2, (nk, g1) ∈ mods → (nk, g2) ∈ mods → g1 = g2.

(** The node exists, and so does the group unless it is the node's own. *)
Definition valid_mod (d : config_data) (m : str * str) : Prop :=
  ∃ n, dget m.1 (cd_nodes d) = Some n ∧ m.2 ∈ dkeys (cd_nodegroups d).

Lemma target_Some mods nk gk : functional mods → (nk, gk) ∈ mods → target mods nk = Some gk.
Proof.
  intros Hf Hin. unfold target. destruct (List.find _ _) as [[nk' gk']|] eqn:E.
  - apply List.find_some in E as [Hin' Heq]. apply bool_decide_eq_true in Heq. simpl in *. subst.
    f_equal. eapply Hf; [by apply list_elem_of_In|done].
  - apply list_elem_of_In in Hin. pose proof (List.find_none _ _ E _ Hin) as Hx. simpl in Hx.
    by rewrite bool_decide_true in Hx.
Qed.

Lemma target_None mods nk : (∀ gk, (nk, gk) ∉ mods) → target mods nk = None.
Proof.
  intros H. unfold target. destruct (List.find _ _) as [[nk' gk']|] eqn:E; [|done].
  apply List.find_some in E as [Hin' Heq]. apply bool_decide_eq_true in Heq. simpl in *. subst.
  exfalso. by eapply H, list_elem_of_In.
Qed.

Lemma target_in mods nk gk : target mods nk = Some gk → (nk, gk) ∈ mods.
Proof.
  unfold target. destruct (List.find _ _) as [[nk' gk']|] eqn:E; [|done]. intros [= <-].
  apply List.find_some in E as [Hin' Heq]. apply bool_decide_eq_true in Heq. simpl in *. subst.
  by apply list_elem_of_In.
Qed.

(** A modification that [resolve_mods] returned, before it is applied *)
Definition pending_mod (d : config_data) (m : str * str * str) : Prop :=
  let '(nk, ok, gk) := m in
  ok ≠ gk ∧ ok ∈ dkeys (cd_nodegroups d) ∧ gk ∈ dkeys (cd_nodegroups d) ∧
  ∃ n, dget nk (cd_nodes d) = Some n ∧ (n_group n = Some ok ∨ n_group n = Some gk).

Lemma resolve_mod_spec d nk gk :
  config_ok d →
  (∃ n ok, valid_mod d (nk, gk) ∧ dget nk (cd_nodes d) = Some n ∧ n_group n = Some ok ∧
    resolve_mod d nk gk = Ok (if decide (ok = gk) then None else Some (nk, ok, gk))) ∨
  (¬ valid_mod d (nk, gk) ∧ resolve_mod d nk gk = Raise Configuration_error).
Proof.
  intros Hok. unfold resolve_mod, valid_mod. simpl. destruct (dget nk (cd_nodes d)) as [n|] eqn:En;
    [|right; split; [naive_solver|done]].
  destruct (ok_node_group _ Hok _ _ En) as (ok & g & Hg & Hgo & Hin).
  destruct (ok_node_uuid _ Hok _ _ En) as [Hu _]. rewrite Hg, Hu. simpl.
  destruct (decide (ok = gk)) as [->|Hne].
  - left. exists n, gk. rewrite !decide_True by done. split_and!; try done. exists n. split; [done|].
    apply dget_is_Some. eauto.
  - rewrite (decide_False (P := Some ok = Some gk)) by congruence. rewrite Hgo.
    destruct (dget gk (cd_nodegroups d)) as [g'|] eqn:Eg.
    + left. exists n, ok. split_and!; try done.
      * exists n. split; [done|]. apply dget_is_Some. eauto.
      * rewrite bool_decide_true by done. rewrite bool_decide_true; [by rewrite decide_False|].
        intros Hin'. destruct (ok_members _ Hok _ _ Eg) as [_ Hm].
        destruct (Hm _ Hin') as (n' & ? & ?). congruence.
    + right. split; [|done]. intros (? & _ & Hk). apply dget_is_Some in Hk as [? ?]. congruence.
Qed.

(** Either every modification is valid, and those that change something are
    returned, or the first invalid one raises. *)
Lemma resolve_mods_spec d mods :
  config_ok d →
  (Forall (valid_mod d) mods ∧ ∃ ms, resolve_mods d mods = Ok ms ∧
    ∀ nk ok gk, (nk, ok, gk) ∈ ms ↔
      (nk, gk) ∈ mods ∧ ok ≠ gk ∧ ∃ n, dget nk (cd_nodes d) = Some n ∧ n_group n = Some ok) ∨
  (¬ Forall (valid_mod d) mods ∧ resolve_mods d mods = Raise Configuration_error).
Proof.
  intros Hok. unfold resolve_mods. induction mods as [|[nk gk] mods IH]; simpl.
  - left. split; [constructor|]. exists []. split; [done|]. intros. set_solver.
  - destruct (resolve_mod_spec d nk gk Hok) as [(n & ok & Hv & Hn & Hg & ->)|[Hv ->]]; simpl.
    2:{ right. split; [|done]. by intros [? _]%Forall_cons. }
    destruct IH as [(Hf & ms & Hms & Hspec)|[Hf Hr]].
    + left. split; [by constructor|]. destruct (rmapM _ mods) as [rs|]; [|done]. simpl in *.
      injection Hms as <-. eexists. split; [done|]. intros nk' ok' gk'. csimpl.
      rewrite elem_of_app, Hspec, elem_of_cons. case_decide as E; simpl.
      * subst. rewrite elem_of_nil. split; [naive_solver|]. intros ([[= -> ->]|?] & ? & n' & ? & ?); [|naive_solver].
        naive_solver.
      * rewrite list_elem_of_singleton. split; [naive_solver|].
        intros ([[= -> ->]|?] & ? & n' & ? & ?); [|naive_solver]. left. naive_solver.
    + right. split; [by intros [_ ?]%Forall_cons|]. destruct (rmapM _ mods); [done|]. simpl in *. congruence.
Qed.

Definition move_all (ms : list (str * str * str)) (d : config_data) : config_data :=
  foldl (λ d '(nk, ok, gk), move_group nk ok gk d) d ms.

Lemma dkeys_move nk ok gk d :
  dkeys (cd_nodegroups (move_group nk ok gk d)) = dkeys (cd_nodegroups d) ∧
  dkeys (cd_nodes (move_group nk ok gk d)) = dkeys (cd_nodes d).
Proof. unfold move_group. simpl. by rewrite !dkeys_dalter. Qed.

Lemma dkeys_move_all ms d :
  dkeys (cd_nodegroups (move_all ms d)) = dkeys (cd_nodegroups d) ∧
  dkeys (cd_nodes (move_all ms d)) = dkeys (cd_nodes d).
Proof.
  unfold move_all. revert d. induction ms as [|[[nk ok] gk] ms IH]; intros d; simpl; [done|].
  destruct (IH (move_group nk ok gk d)) as [-> ->]. apply dkeys_move.
Qed.

Lemma pending_move d nk ok gk m :
  (m.1.1 = nk → m = (nk, ok, gk)) → pending_mod d m → pending_mod (move_group nk ok gk d) m.
Proof.
  destruct m as [[nk' ok'] gk']. unfold pending_mod. cbn [fst snd]. intros Heq (? & ? & ? & n & Hn & Hg).
  destruct (dkeys_move nk ok gk d) as [-> _]. split_and!; try done.
  unfold move_group. simpl. rewrite dget_dalter. case_decide as E; [|eauto].
  specialize (Heq E). simplify_eq. rewrite Hn. simpl. eauto.
Qed.

Lemma apply_mods ms w :
  wdata_ok w → (∀ m, m ∈ ms → pending_mod (w_data w) m) →
  (∀ m1 m2, m1 ∈ ms → m2 ∈ ms → m1.1.1 = m2.1.1 → m1 = m2) →
  for_each ms apply_mod w = Some (Ok tt, upd_data (move_all ms) w) ∧ config_ok (move_all ms (w_data w)).
Proof.
  revert w. induction ms as [|[[nk ok] gk] ms IH]; intros w Hok Hp Hf; cbn [for_each].
  { split; [|done]. by destruct w. }
  destruct (Hp (nk, ok, gk)) as (Hne & Ho & Hg & n & Hn & Hgr); [by left|].
  apply dget_is_Some in Ho as [go Ho]. apply dget_is_Some in Hg as [gn Hg].
  rewrite meth_bind_eq, (apply_mod_eq w nk ok gk n go gn) by done.
  destruct (IH (upd_data (move_group nk ok gk) w)) as [-> Hok'].
  - by apply (config_ok_move (w_data w) nk ok gk n go gn).
  - intros m Hm. apply pending_move; [|apply Hp; by right]. intros E. apply Hf; [by right|by left|done].
  - intros m1 m2 ? ?. apply Hf; by right.
  - done.
Qed.

Lemma move_all_get ms d nk n :
  (∀ m1 m2, m1 ∈ ms → m2 ∈ ms → m1.1.1 = m2.1.1 → m1 = m2) →
  dget nk (cd_nodes d) = Some n →
  (∃ ok gk, (nk, ok, gk) ∈ ms ∧ dget nk (cd_nodes (move_all ms d)) = Some (set_n_group (Some gk) n)) ∨
  ((∀ ok gk, (nk, ok, gk) ∉ ms) ∧ dget nk (cd_nodes (move_all ms d)) = Some n).
Proof.
  unfold move_all. revert d n. induction ms as [|[[nk' ok'] gk'] ms IH]; intros d n Hf Hn; simpl.
  { right. split; [|done]. intros. apply not_elem_of_nil. }
  assert (dget nk (cd_nodes (move_group nk' ok' gk' d)) =
          Some (if decide (nk = nk') then set_n_group (Some gk') n else n)) as Hm.
  { unfold move_group. simpl. rewrite dget_dalter. case_decide; [subst; by rewrite Hn|done]. }
  destruct (IH _ _ (λ m1 m2 H1 H2, Hf m1 m2 (list_elem_of_further _ _ _ H1) (list_elem_of_further _ _ _ H2)) Hm)
    as [(ok & gk & Hin & E)|[Hni E]].
  - left. exists ok, gk. split; [by right|]. rewrite E. case_decide as Ek; [|done].
    subst. assert ((nk', ok, gk) = (nk', ok', gk')) as [= -> ->] by (apply Hf; [by right|by left|done]). done.
  - rewrite E. case_decide as Ek.
    + left. subst. exists ok', gk'. split; [by left|done].
    + right. split; [|done]. intros ok gk. rewrite elem_of_cons. intros [[=]|?]; [done|by eapply Hni].
Qed.

Section assign.
  Context (now : Q).

(** Assigning nodes to groups: it raises, having changed nothing, exactly when
    one of the nodes or groups does not exist, and otherwise leaves a
    well-formed configuration in which every node is as [regrouped] says. *)
Lemma assign_nodes w mods :
  wdata_ok w → functional mods →
  (¬ Forall (valid_mod (w_data w)) mods ∧
    AssignGroupNodes now mods w = Some (Raise Configuration_error, w)) ∨
  (Forall (valid_mod (w_data w)) mods ∧ ∃ w', AssignGroupNodes now mods w = Some (Ok tt, w') ∧ wdata_ok w' ∧
    dkeys (cd_nodes (w_data w')) = dkeys (cd_nodes (w_data w)) ∧
    dkeys (cd_nodegroups (w_data w')) = dkeys (cd_nodegroups (w_data w)) ∧
    ∀ nk n, dget nk (cd_nodes (w_data w)) = Some n →
      dget nk (cd_nodes (w_data w')) = Some (regrouped now mods nk n)).
Proof.
  intros Hok Hfun. unfold AssignGroupNodes. rewrite meth_bind_eq. unfold reads.
  destruct (resolve_mods_spec (w_data w) mods Hok) as [(Hv & ms & -> & Hms)|[Hv ->]]; [right|by left].
  assert (∀ m1 m2, m1 ∈ ms → m2 ∈ ms → m1.1.1 = m2.1.1 → m1 = m2) as Hms_f.
  { intros [[nk ok] gk] [[nk' ok'] gk'] (? & _ & n & ? & ?)%Hms (? & _ & n' & ? & ?)%Hms. simpl. intros ->.
    assert (gk = gk') as -> by by eapply Hfun. congruence. }
  assert (∀ m, m ∈ ms → pending_mod (w_data w) m) as Hp.
  { intros [[nk ok] gk] (Hin & Hne & n & Hn & Hg)%Hms. simpl. split_and!; [done| | |by eauto].
    - destruct (ok_node_group _ Hok _ _ Hn) as (gk' & g & ? & Hg' & _). simplify_eq.
      apply dget_is_Some. eauto.
    - rewrite Forall_forall in Hv. by destruct (Hv _ Hin) as (? & _ & ?). }
  destruct (apply_mods ms w Hok Hp Hms_f) as [E Hok']. rewrite meth_bind_eq, E.
  split; [done|]. eexists. split; [done|]. split; [|split; [|split]].
  - unfold wdata_ok. simpl. by rewrite config_ok_bump, (stamp_shape now ms).
  - simpl. rewrite dkeys_foldl_dalter. apply dkeys_move_all.
  - simpl. rewrite dkeys_foldl_dalter. apply dkeys_move_all.
  - intros nk n Hn. simpl. rewrite dget_foldl_dalter by apply NoDup_remove_dups.
    unfold regrouped. destruct (move_all_get ms (w_data w) nk n Hms_f Hn) as [(ok & gk & Hin & ->)|[Hni ->]].
    + rewrite decide_True.
      2:{ apply elem_of_remove_dups, list_elem_of_fmap. by exists (nk, ok, gk). }
      apply Hms in Hin as (Hin & Hne & n' & ? & ?). simplify_eq.
      rewrite (target_Some mods nk gk) by done. rewrite decide_False by congruence. done.
    + rewrite decide_False.
      2:{ rewrite elem_of_remove_dups, list_elem_of_fmap. intros ([[nk' ok] gk] & -> & Hin). by eapply Hni. }
      destruct (target mods nk) as [gk|] eqn:Et; [|done]. case_decide as Eg; [done|].
      apply target_in in Et. destruct (ok_node_group _ Hok _ _ Hn) as (ok & g & Ho & _).
      exfalso. eapply (Hni ok gk), Hms. split_and!; [done|congruence|eauto].
Qed.
End assign.

(** ** The candidate pool *)

(** How many values of a dictionary satisfy [P] *)
Definition count {V} (P : V → bool) (d : dict V) : nat := length (List.filter P (dvalues d)).

Lemma filter_length_Permutation {A} (P : A → bool) (l l' : list A) :
  l ≡ₚ l' → length (List.filter P l) = length (List.filter P l').
Proof. induction 1; simpl; repeat case_match; simpl; congruence. Qed.

(** Changing one value *)
Lemma count_dalter {V} (P : V → bool) (f : V → V) (k : str) (v : V) (d : dict V) :
  dict_ok d → dget k d = Some v →
  (count P (dalter f k d) + (if P v then 1 else 0) = count P d + (if P (f v) then 1 else 0))%nat.
Proof.
  intros Hd Hk. rewrite <-(dalter_dset f k v) by done. unfold count, dvalues.
  destruct (dset_Permutation k (f v) v d Hd Hk) as (d' & E1 & E2).
  rewrite (filter_length_Permutation P _ _ (fmap_Permutation snd _ _ E1)).
  rewrite (filter_length_Permutation P _ _ (fmap_Permutation snd _ _ E2)).
  csimpl. destruct (P v), (P (f v)); simpl; lia.
Qed.

Lemma count_cover {V} (P Q R : V → bool) (d : dict V) :
  (∀ v, P v = true → Q v = true ∨ R v = true) → (count P d ≤ count Q d + count R d)%nat.
Proof.
  intros H. unfold count. induction (dvalues d) as [|v l IH]; simpl; [lia|].
  specialize (H v). destruct (P v), (Q v), (R v); simpl; try lia.
Qed.

Definition promotable (exceptions : list str) (nodes : dict node) (k : str) : bool :=
  match dget k nodes with Some n => negb (not_promotable exceptions n) | None => false end.

(** The keys of the nodes [promote] makes candidates: the first promotable ones *)
Definition promoted (node_list exceptions : list str) (mc_now mc_max : Z) (nodes : dict node) : list str :=
  take (Z.to_nat (mc_max - mc_now)) (List.filter (promotable exceptions nodes) node_list).

Lemma promote_eq exceptions node_list mc_now mc_max nodes :
  NoDup node_list → (∀ k, k ∈ node_list → k ∈ dkeys nodes) →
  let mods := promoted node_list exceptions mc_now mc_max nodes in
  promote node_list exceptions mc_now mc_max nodes =
    Ok (mods, foldl (λ ns k, dalter set_n_candidate k ns) nodes mods).
Proof.
  unfold promoted. cbv zeta.
  revert mc_now nodes. induction node_list as [|k l IH]; intros now nodes Hnd Hin; cbn [promote List.filter].
  { by rewrite take_nil. }
  apply NoDup_cons in Hnd as [Hk Hnd]. destruct (Z.leb_spec mc_max now) as [Hle|Hlt].
  { by replace (Z.to_nat (mc_max - now)) with 0%nat by lia. }
  destruct (proj2 (dget_is_Some k nodes)) as [n Hn]; [apply Hin; by left|].
  assert (promotable exceptions nodes k = negb (not_promotable exceptions n)) as ->
    by (unfold promotable; by rewrite Hn).
  rewrite Hn. destruct (not_promotable exceptions n); cbn [negb].
  { rewrite IH; [done|done|]. intros k' ?. apply Hin. by right. }
  rewrite (dalter_dset set_n_candidate) by done. rewrite IH; [|done|].
  2:{ intros k' ?. rewrite dkeys_dalter. apply Hin. by right. }
  replace (List.filter (promotable exceptions (dalter set_n_candidate k nodes)) l)
    with (List.filter (promotable exceptions nodes) l).
  2:{ apply List.filter_ext_in. intros k' Hk'%list_elem_of_In. unfold promotable. rewrite dget_dalter.
      rewrite decide_False; [done|]. by intros ->. }
  replace (Z.to_nat (mc_max - now)) with (S (Z.to_nat (mc_max - (now + 1)))) by lia. done.
Qed.

Section pool.
  Context (exceptions : list str).
  Implicit Types (n : node) (nodes : dict node).

Definition candidate n : bool := negb (excepted exceptions n) && n_master_candidate n.
Definition able n : bool :=
  negb (excepted exceptions n) && (negb (n_offline n || n_drained n) && n_master_capable n).

Lemma stats_eq d :
  GetMasterCandidateStats d exceptions =
  (Z.of_nat (count candidate (cd_nodes d)),
   match c_candidate_pool_size (cd_cluster d) with
   | None => Z.of_nat (count able (cd_nodes d))
   | Some pool_size => Z.min (Z.of_nat (count able (cd_nodes d))) pool_size
   end,
   Z.of_nat (count able (cd_nodes d))).
Proof.
  unfold GetMasterCandidateStats, count. cbv zeta.
  assert (∀ P Q : node → bool, List.filter P (List.filter Q (dvalues (cd_nodes d))) =
    List.filter (λ n, Q n && P n) (dvalues (cd_nodes d))) as Hff.
  { intros P Q. induction (dvalues (cd_nodes d)) as [|n l IH]; simpl; [done|].
    destruct (Q n); simpl; [|done]. destruct (P n); by rewrite ?IH. }
  by rewrite !Hff.
Qed.

Lemma count_promotable nodes :
  dict_ok nodes →
  length (List.filter (promotable exceptions nodes) (dkeys nodes)) =
  count (λ n, negb (not_promotable exceptions n)) nodes.
Proof.
  intros Hd. unfold count.
  assert (∀ l, (∀ k n, (k, n) ∈ l → dget k nodes = Some n) →
    length (List.filter (promotable exceptions nodes) l.*1) =
    length (List.filter (λ n, negb (not_promotable exceptions n)) l.*2)) as Hl.
  { induction l as [|[k n] l IH]; intros Hl; csimpl; [done|]. unfold promotable at 1.
    rewrite (Hl k n) by left. specialize (IH (λ k n H, Hl k n (list_elem_of_further _ _ _ H))).
    destruct (not_promotable exceptions n); simpl; by rewrite IH. }
  apply Hl. intros k n. by apply dget_Some.
Qed.

Lemma promotable_candidate n :
  not_promotable exceptions n = false →
  candidate n = false ∧ candidate (set_n_candidate n) = true ∧ able n = true.
Proof.
  unfold not_promotable, candidate, able, excepted.
  intros H. repeat (apply orb_false_iff in H as [H ?]). simpl.
  rewrite H. apply negb_false_iff in H0. rewrite H0. rewrite H1, H2, H3. done.
Qed.

Lemma able_candidate n : able (set_n_candidate n) = able n.
Proof. done. Qed.

(** Promoting nodes: each becomes a candidate, and nothing else is counted
    differently. *)
Lemma promote_counts mods nodes :
  dict_ok nodes → NoDup mods → (∀ k, k ∈ mods → promotable exceptions nodes k = true) →
  let nodes' := foldl (λ ns k, dalter set_n_candidate k ns) nodes mods in
  count candidate nodes' = (count candidate nodes + length mods)%nat ∧ count able nodes' = count able nodes.
Proof.
  revert nodes. induction mods as [|k mods IH]; intros nodes Hd Hnd Hp; simpl; [lia|].
  apply NoDup_cons in Hnd as [Hk Hnd]. pose proof (Hp k ltac:(by left)) as Hpk. unfold promotable in Hpk.
  destruct (dget k nodes) as [n|] eqn:En; [|done]. apply negb_true_iff, promotable_candidate in Hpk as (E1 & E2 & E3).
  pose proof (count_dalter candidate set_n_candidate k n nodes Hd En) as C1.
  pose proof (count_dalter able set_n_candidate k n nodes Hd En) as C2.
  rewrite E1, E2 in C1. rewrite able_candidate, E3 in C2.
  destruct (IH (dalter set_n_candidate k nodes)) as [-> ->]; [by apply dict_ok_dalter|done| |simpl in *; lia].
  intros k' Hk'. unfold promotable. rewrite dget_dalter, decide_False by (by intros ->). apply Hp. by right.
Qed.

(** There are enough promotable nodes. *)
Lemma promotable_enough nodes :
  (count able nodes ≤ count candidate nodes + count (λ n, negb (not_promotable exceptions n)) nodes)%nat.
Proof.
  apply count_cover. intros n. unfold able, candidate, not_promotable.
  destruct (excepted exceptions n), (n_offline n), (n_drained n), (n_master_candidate n), (n_master_capable n);
    simpl; auto.
Qed.
End pool.

(** The whole of [MaintainCandidatePool]; the pool is always filled. *)
Lemma maintain_pool exceptions node_list w :
  wdata_ok w → node_list ≡ₚ dkeys (cd_nodes (w_data w)) →
  let '(mc_now, mc_should, mc_max) := GetMasterCandidateStats (w_data w) exceptions in
  let mods := promoted node_list exceptions mc_now mc_should (cd_nodes (w_data w)) in
  ∃ w', MaintainCandidatePool node_list exceptions w = Some (Ok mods, w') ∧ wdata_ok w' ∧
    GetMasterCandidateStats (w_data w') exceptions = (Z.max mc_now mc_should, mc_should, mc_max) ∧
    ∀ k, dget k (cd_nodes (w_data w')) =
      if decide (k ∈ mods) then set_n_candidate <$> dget k (cd_nodes (w_data w))
      else dget k (cd_nodes (w_data w)).
Proof.
  intros Hok Hperm. destruct (GetMasterCandidateStats _ _) as [[now should] mx] eqn:Es. intros mods.
  assert (NoDup node_list) as Hnd by (rewrite Hperm; apply Hok).
  assert (NoDup mods) as Hndm.
  { unfold mods, promoted. eapply sublist_NoDup; [|apply sublist_take].
    by apply NoDup_ListNoDup, List.NoDup_filter, NoDup_ListNoDup. }
  assert (∀ k, k ∈ mods → promotable exceptions (cd_nodes (w_data w)) k = true) as Hpm.
  { intros k Hk. assert (k ∈ List.filter (promotable exceptions (cd_nodes (w_data w))) node_list) as Hk'
      by (rewrite <-(take_drop (Z.to_nat (should - now)) (List.filter _ _)); apply elem_of_app; by left).
    by apply list_elem_of_In, List.filter_In in Hk' as [_ ?]. }
  destruct (promote_counts exceptions mods _ (ok_nodes _ Hok) Hndm Hpm) as [C1 C2].
  assert (length mods = Z.to_nat (should - now)) as Hlen.
  { unfold mods, promoted. rewrite length_take, (filter_length_Permutation _ _ _ Hperm), count_promotable by apply Hok.
    pose proof (promotable_enough exceptions (cd_nodes (w_data w))).
    rewrite stats_eq in Es. destruct (c_candidate_pool_size _); injection Es; lia. }
  assert (∃ w', MaintainCandidatePool node_list exceptions w = Some (Ok mods, w') ∧
    cd_nodes (w_data w') = foldl (λ ns k, dalter set_n_candidate k ns) (cd_nodes (w_data w)) mods ∧
    same_shape (w_data w') (w_data w) ∧
    c_candidate_pool_size (cd_cluster (w_data w')) = c_candidate_pool_size (cd_cluster (w_data w)))
    as (w' & E & En & Hs & Ep).
  { unfold MaintainCandidatePool. rewrite gets_bind_eq, Es. destruct (Z.ltb_spec now should) as [Hlt|Hle].
    - rewrite promote_eq; [|done|intros k; by rewrite Hperm]. fold mods.
      destruct mods as [|k mods'] eqn:Em; [simpl in Hlen; lia|]. eexists. split; [done|]. split; [done|].
      split; [|done]. constructor; simpl; try done. by apply (dmap_foldl_dalter _ _ (k :: mods')).
    - exists w. assert (mods = []) as -> by (apply nil_length_inv; lia). by split_and!. }
  exists w'. split; [done|]. split; [unfold wdata_ok; by rewrite Hs|]. split.
  - rewrite stats_eq, Ep, En, C1, C2. rewrite stats_eq in Es. injection Es as <- <- <-. do 2 f_equal.
    rewrite Hlen. lia.
  - intros k. by rewrite En, dget_foldl_dalter.
Qed.

(** ** Loading *)

Lemma dalter_fmap {V} (f : V → V) (k : str) (d : dict V) :
  dict_ok d → dalter f k d = (λ '(k', v), (k', if decide (k' = k) then f v else v)) <$> d.
Proof.
  unfold dalter. induction d as [|[k' v] d IH]; intros Hd; [done|].
  unfold dict_ok, dkeys in Hd. csimpl in Hd. apply NoDup_cons in Hd as [Hk' Hd]. specialize (IH Hd).
  simpl. destruct (decide (k' = k)) as [->|Hne].
  - f_equal. symmetry. change (list_fmap _ _ ?f d) with (f <$> d). rewrite <-(list_fmap_id d) at 2. apply list_fmap_ext. intros i [k' v'] Hi. simpl.
    rewrite decide_False; [done|]. intros ->. apply Hk', list_elem_of_fmap. exists (k, v').
    split; [done|]. by eapply list_elem_of_lookup_2.
  - change (list_fmap _ _ ?f d) with (f <$> d). rewrite <-IH. by destruct (dget k d).
Qed.

(** The members of the group, in the order of the nodes *)
Definition members_of (nodes : dict node) (gk : str) : list str :=
  fst <$> List.filter (λ kn, bool_decide (n_group kn.2 = Some gk)) nodes.
Definition with_members (nodes : dict node) (groups : dict node_group) : dict node_group :=
  (λ '(gk, g), (gk, set_g_members (members_of nodes gk) g)) <$> groups.

Lemma dget_with_members nodes groups gk :
  dget gk (with_members nodes groups) = set_g_members (members_of nodes gk) <$> dget gk groups.
Proof.
  induction groups as [|[gk' g] groups IH]; simpl; [done|]. case_decide; [by subst|done].
Qed.
Lemma dkeys_with_members nodes groups : dkeys (with_members nodes groups) = dkeys groups.
Proof. unfold dkeys, with_members. rewrite <-list_fmap_compose. apply list_fmap_ext. by intros ? [] _. Qed.

Lemma with_members_add nodes nk n gk groups :
  dict_ok groups → n_group n = Some gk →
  dalter (λ g, set_g_members (g_members g ++ [nk]) g) gk (with_members nodes groups) =
  with_members (nodes ++ [(nk, n)]) groups.
Proof.
  intros Hd Hg. rewrite dalter_fmap by (unfold dict_ok; by rewrite dkeys_with_members).
  unfold with_members. rewrite <-list_fmap_compose. apply list_fmap_ext. intros i [k g] _. simpl.
  f_equal. unfold members_of. rewrite List.filter_app, fmap_app. simpl. rewrite Hg.
  case_decide as E; [subst; by rewrite bool_decide_true|]. rewrite bool_decide_false by congruence. by rewrite app_nil_r.
Qed.

Lemma members_of_elem nodes gk nk :
  dict_ok nodes → nk ∈ members_of nodes gk ↔ ∃ n, dget nk nodes = Some n ∧ n_group n = Some gk.
Proof.
  intros Hd. unfold members_of. rewrite list_elem_of_fmap. split.
  - intros ([k n] & -> & [Hin Hb]%list_elem_of_In%List.filter_In). apply list_elem_of_In in Hin.
    apply bool_decide_eq_true in Hb. exists n. split; [by apply dget_Some|done].
  - intros (n & Hn & Hg). exists (nk, n). split; [done|]. apply list_elem_of_In, List.filter_In. simpl.
    rewrite bool_decide_true by done. split; [|done]. by apply list_elem_of_In, dget_Some_1.
Qed.

Lemma members_of_NoDup nodes gk : dict_ok nodes → NoDup (members_of nodes gk).
Proof.
  intros Hd. unfold members_of. induction nodes as [|[k n] nodes IH]; simpl; [constructor|].
  unfold dict_ok, dkeys in Hd. csimpl in Hd. apply NoDup_cons in Hd as [Hk Hd].
  case_match; [|by apply IH]. csimpl. constructor; [|by apply IH].
  intros ([k' n'] & -> & [Hin _]%list_elem_of_In%List.filter_In)%list_elem_of_fmap.
  apply Hk, list_elem_of_fmap. apply list_elem_of_In in Hin. by exists (k', n').
Qed.

(** Rebuilding the members gives back each group's members, in some order. *)
Lemma members_of_ok d gk g :
  config_ok d → dget gk (cd_nodegroups d) = Some g → members_of (cd_nodes d) gk ≡ₚ g_members g.
Proof.
  intros Hok Hg. destruct (ok_members _ Hok _ _ Hg) as [Hnd Hm].
  apply NoDup_Permutation; [apply members_of_NoDup, Hok|done|]. intros nk.
  rewrite members_of_elem by apply Hok. split; [|apply Hm].
  intros (n & Hn & Hgr). destruct (ok_node_group _ Hok _ _ Hn) as (gk' & g' & ? & ? & ?). congruence.
Qed.

Lemma reload_loop (body : str * node → meth writer unit) groups l pre w :
  cd_nodegroups (w_data w) = with_members pre groups → dict_ok groups → dict_ok (pre ++ l) →
  (∀ k n, (k, n) ∈ l → body (k, n) = AddNodeToGroup k (n_group n) ∧
    ∃ gk, n_group n = Some gk ∧ gk ∈ dkeys groups) →
  for_each l body w = Some (Ok tt, upd_data (set_nodegroups (λ _, with_members (pre ++ l) groups)) w).
Proof.
  intros Hw Hd. revert pre w Hw. induction l as [|[k n] l IH]; intros pre w Hw Hdn Hl; cbn [for_each].
  { rewrite app_nil_r. destruct w as [[] t]. simpl in *. by subst. }
  destruct (Hl k n) as (Eb & gk & Hg & Hin); [by left|]. apply dget_is_Some in Hin as [g Hgk].
  rewrite meth_bind_eq, Eb, AddNodeToGroup_eq, Hg. cbn [mbind option_bind]. rewrite Hw, dget_with_members, Hgk.
  cbn [fmap option_fmap option_map g_members set_g_members default].
  assert (k ∉ pre.*1) as Hk.
  { unfold dict_ok, dkeys in Hdn. rewrite fmap_app in Hdn. csimpl in Hdn.
    apply NoDup_app in Hdn as (_ & Hx & _). intros Hk. apply (Hx k Hk). left. }
  rewrite decide_False.
  2:{ intros ([k' n'] & -> & [Hin _]%list_elem_of_In%List.filter_In)%list_elem_of_fmap.
      apply Hk, list_elem_of_fmap. apply list_elem_of_In in Hin. by exists (k', n'). }
  rewrite (IH (pre ++ [(k, n)])).
  - rewrite <-(assoc_L (++)). done.
  - simpl. rewrite Hw. by apply with_members_add.
  - by rewrite <-(assoc_L (++)).
  - intros k' n' Hin. apply Hl. by right.
Qed.

(** Saving drops the members of the groups and loading finds them again. *)
Lemma reload_groups newuuid fuel show NICC now w :
  wdata_ok w → cd_nodegroups (w_data w) ≠ [] →
  UpgradeGroups newuuid fuel show NICC now (upd_data forget_members w) =
  Some (Ok tt, upd_data (λ d, set_nodegroups (with_members (cd_nodes d)) d) w).
Proof.
  intros Hok Hne. unfold UpgradeGroups. rewrite gets_bind_eq.
  assert (∀ k, match cd_nodegroups (w_data (upd_data forget_members w)) with
    | [] => k
    | _ => mret tt
    end = mret tt :> meth writer unit) as E.
  { intros k. simpl. by destruct (cd_nodegroups (w_data w)). }
  rewrite E. rewrite meth_bind_eq. cbn [mret meth_ret]. rewrite gets_bind_eq.
  rewrite (reload_loop _ (cd_nodegroups (w_data w)) _ []).
  - done.
  - simpl. unfold forget_members, dmap, with_members. simpl. apply list_fmap_ext. by intros i [k g] _.
  - apply Hok.
  - apply Hok.
  - simpl. intros k n Hin. apply dget_Some in Hin; [|apply Hok].
    destruct (ok_node_group _ Hok _ _ Hin) as (gk & g & Hg & Hgk & _).
    destruct (ok_node_uuid _ Hok _ _ Hin) as [-> _]. rewrite Hg.
    destruct (ok_group_uuid _ Hok _ _ Hgk) as [_ Hgne]. destruct gk; [done|]. split; [done|].
    eexists. split; [done|]. apply dget_is_Some. eauto.
Qed.

Lemma config_ok_members d : config_ok d → config_ok (set_nodegroups (with_members (cd_nodes d)) d).
Proof.
  intros Hok. pose proof (λ gk g, members_of_ok d gk g Hok) as Hperm.
  constructor; simpl; try apply Hok.
  - unfold dict_ok. rewrite dkeys_with_members. apply Hok.
  - intros k g'. rewrite dget_with_members. intros (g & Hg & ->)%fmap_Some_1. exact (ok_group_uuid _ Hok k g Hg).
  - intros k n Hk. destruct (ok_node_group _ Hok _ _ Hk) as (gk & g & ? & Hg & Hin). exists gk. eexists.
    rewrite dget_with_members, Hg. split_and!; [done..|]. simpl. by rewrite Hperm.
  - intros gk g'. rewrite dget_with_members. intros (g & Hg & ->)%fmap_Some_1. simpl.
    destruct (ok_members _ Hok _ _ Hg) as [Hnd Hm]. split; [by rewrite Hperm|]. intros nk. rewrite Hperm by done. apply Hm.
  - intros k1 g1' k2 g2'. rewrite !dget_with_members. intros (g1 & H1 & ->)%fmap_Some_1 (g2 & H2 & ->)%fmap_Some_1.
    simpl. by apply (ok_group_names _ Hok).
  - intros k. rewrite dkeys_with_members. apply (ok_apart _ Hok).
Qed.
