(* ===== verification/ConfigProps.v ===== *)
(** * The configuration: the theorems

    The invariant of the configuration under every operation of [Config], what
    moving nodes, filling the candidate pool and loading do, and where the
    logical volumes of an instance are; proved from [ConfigInv], [ConfigGroups]
    and [Disk]. *)

From Stdlib Require Import QArith.
From stdpp Require Import relations.
From S2P Require Import Prelude Errors PySort PyStr PyVal Text PyDict PyState Params Disk.
From S2P Require Import Reservations Config ConfigInv ConfigGroups.
#[local] Open Scope list_scope.
#[local] Open Scope stdpp_scope.
#[local] Open Scope Z_scope.
#[local] Open Scope py_scope.

(** ** Logical volumes by node *)

(** Every device of the tree is of a type that has nodes, and volumes have no
    children. *)
Inductive placed : disk → str → Prop :=
| placed_at d n my :
    GetNodes d n = Ok my → (d_dev_type d = DT_PLAIN → d_children d = []) →
    (∀ k c, k ∈ my → c ∈ d_children d → placed c k) → placed d n.

(** The device [dev], whose parent is on [n], has the volume [lv] on [m]. *)
Definition has_lv (n : str) (dev : disk) (m lv : str) : Prop :=
  ∃ d', lives dev n d' m ∧ d_dev_type d' = DT_PLAIN ∧ d_forthcoming d' = false ∧ lv = lv_name d'.

Definition lvs (m : str) (lvmap : dict (list str)) : list str := default [] (dget m lvmap).

Lemma map_dev_unfold n dev lvmap :
  map_dev n dev lvmap =
  let devices n m := foldl (λ m c, map_dev n c m) (ensure_key n m) (d_children dev) in
  if decide (d_dev_type dev = DT_PLAIN) then
    if d_forthcoming dev then lvmap
    else dalter (λ l, l ++ [lv_name dev]) n lvmap
  else if is_drbd dev then
    match d_children dev with
    | [] => lvmap
    | _ => devices (lid_second (d_logical_id dev)) (devices (lid_first (d_logical_id dev)) lvmap)
    end
  else
    match d_children dev with
    | [] => lvmap
    | _ => devices n lvmap
    end.
Proof. by destruct dev. Qed.

Lemma lvs_ensure_key k m lvmap : lvs m (ensure_key k lvmap) = lvs m lvmap.
Proof.
  unfold lvs, ensure_key. destruct (dhas k lvmap) eqn:E; [done|]. rewrite dget_dset. case_decide; [|done].
  subst. apply dhas_false, dget_None in E. by rewrite E.
Qed.
Lemma dkeys_ensure_key k k' lvmap : k' ∈ dkeys (ensure_key k lvmap) ↔ k' = k ∨ k' ∈ dkeys lvmap.
Proof.
  unfold ensure_key. destruct (dhas k lvmap) eqn:E; [|apply elem_of_dkeys_dset].
  apply dhas_true in E. naive_solver.
Qed.

(** What one device adds, and what a list of devices adds *)
Definition adds (n : str) (dev : disk) : Prop :=
  ∀ lvmap, n ∈ dkeys lvmap →
    (∀ k, k ∈ dkeys lvmap → k ∈ dkeys (map_dev n dev lvmap)) ∧
    ∀ m lv, lv ∈ lvs m (map_dev n dev lvmap) ↔ lv ∈ lvs m lvmap ∨ has_lv n dev m lv.

Lemma adds_list n devs lvmap :
  (∀ c, c ∈ devs → adds n c) → n ∈ dkeys lvmap →
  (∀ k, k ∈ dkeys lvmap → k ∈ dkeys (foldl (λ m c, map_dev n c m) lvmap devs)) ∧
  ∀ m lv, lv ∈ lvs m (foldl (λ m c, map_dev n c m) lvmap devs) ↔
    lv ∈ lvs m lvmap ∨ ∃ c, c ∈ devs ∧ has_lv n c m lv.
Proof.
  revert lvmap. induction devs as [|c devs IH]; intros lvmap Hadd Hn; simpl.
  { split; [done|]. intros m lv. set_solver. }
  destruct (Hadd c ltac:(by left) lvmap Hn) as [Hk Hlv].
  destruct (IH (map_dev n c lvmap)) as [Hk' Hlv']; [|by apply Hk|].
  { intros c' ?. apply Hadd. by right. }
  split; [by auto|]. intros m lv. rewrite Hlv', Hlv. setoid_rewrite elem_of_cons. naive_solver.
Qed.

(** The devices of [cs], all on [n], whether the map knows the node or not *)
Lemma adds_devices n cs lvmap :
  (∀ c, c ∈ cs → adds n c) →
  (∀ k, k ∈ dkeys lvmap → k ∈ dkeys (foldl (λ m c, map_dev n c m) (ensure_key n lvmap) cs)) ∧
  ∀ m lv, lv ∈ lvs m (foldl (λ m c, map_dev n c m) (ensure_key n lvmap) cs) ↔
    lv ∈ lvs m lvmap ∨ ∃ c, c ∈ cs ∧ has_lv n c m lv.
Proof.
  intros Hadd. destruct (adds_list n cs (ensure_key n lvmap) Hadd) as [Hk Hlv].
  { apply dkeys_ensure_key. by left. }
  split; [|intros m lv; by rewrite Hlv, lvs_ensure_key].
  intros k Hk'. apply Hk, dkeys_ensure_key. by right.
Qed.

(** A device that is no volume has the volumes of its children, on its nodes. *)
Lemma has_lv_below n dev my m lv :
  d_dev_type dev ≠ DT_PLAIN → GetNodes dev n = Ok my →
  has_lv n dev m lv ↔ ∃ k c, k ∈ my ∧ c ∈ d_children dev ∧ has_lv k c m lv.
Proof.
  intros Ht Hmy. split.
  - intros (d' & Hl & Hp & Hf & ->). destruct Hl as [|d n my' k c d' m E Hk Hc Hl]; [done|].
    rewrite E in Hmy. injection Hmy as <-. exists k, c. split_and!; [done..|]. by exists d'.
  - intros (k & c & Hk & Hc & d' & Hl & ?). exists d'. split; [by eapply lives_below|done].
Qed.

Lemma GetNodes_nodrbd d n my : is_drbd d = false → GetNodes d n = Ok my → my = [n].
Proof. unfold GetNodes. case_decide; [naive_solver|]. intros ->. done. Qed.
Lemma GetNodes_drbd d n my :
  is_drbd d = true → GetNodes d n = Ok my → my = [lid_first (d_logical_id d); lid_second (d_logical_id d)].
Proof.
  unfold GetNodes. intros E. rewrite decide_False.
  - rewrite E. case_decide; naive_solver.
  - apply bool_decide_eq_true in E. rewrite E. apply (bool_decide_eq_false_1 (DT_DRBD8 ∈ SIMPLE_TYPES)).
    reflexivity.
Qed.
Lemma GetNodes_plain d n : d_dev_type d = DT_PLAIN → GetNodes d n = Ok [n].
Proof. unfold GetNodes. intros ->. by rewrite decide_True by left. Qed.

Lemma map_dev_adds dev n : placed dev n → adds n dev.
Proof.
  revert n. induction dev as [dev IH] using disk_tree_ind. intros n Hpl lvmap Hn.
  rewrite Forall_forall in IH. destruct Hpl as [dev n my Hmy Hleaf Hcs]. rewrite map_dev_unfold.
  destruct (decide (d_dev_type dev = DT_PLAIN)) as [Hp|Hp].
  - split; [intros k; destruct (d_forthcoming dev); by rewrite ?dkeys_dalter|]. intros m lv.
    assert (has_lv n dev m lv ↔ m = n ∧ d_forthcoming dev = false ∧ lv = lv_name dev) as ->.
    { rewrite GetNodes_plain in Hmy by done. injection Hmy as <-. split.
      - intros (d' & Hl & _ & Hf & ->). destruct Hl as [d n my m E Hm|d n my k c d' m E Hk Hc Hl].
        + rewrite GetNodes_plain in E by done. injection E as <-. by apply list_elem_of_singleton in Hm as ->.
        + rewrite Hleaf in Hc by done. by apply not_elem_of_nil in Hc.
      - intros (-> & Hf & ->). exists dev. split_and!; try done. eapply lives_here; [by apply GetNodes_plain|]. left. }
    destruct (d_forthcoming dev); [naive_solver|]. unfold lvs. rewrite dget_dalter.
    case_decide as E; [subst|naive_solver]. apply dget_is_Some in Hn as [l Hl]. rewrite Hl. simpl.
    rewrite elem_of_app, list_elem_of_singleton. naive_solver.
  - cbv zeta. assert (∀ k c, k ∈ my → c ∈ d_children dev → adds k c) as Hadd by eauto.
    setoid_rewrite (has_lv_below n dev my _ _ Hp Hmy).
    destruct (d_children dev) as [|c0 cs0] eqn:Ec.
    { destruct (is_drbd dev); (split; [done|]); intros m lv; set_solver. }
    destruct (is_drbd dev) eqn:Ed.
    + apply GetNodes_drbd in Hmy; [|done]. subst my.
      destruct (adds_devices (lid_first (d_logical_id dev)) (c0 :: cs0) lvmap) as [Hk1 Hl1].
      { intros c. apply Hadd. left. }
      destruct (adds_devices (lid_second (d_logical_id dev)) (c0 :: cs0)
        (foldl (λ m c, map_dev (lid_first (d_logical_id dev)) c m)
           (ensure_key (lid_first (d_logical_id dev)) lvmap) (c0 :: cs0))) as [Hk2 Hl2].
      { intros c. apply Hadd. right. left. }
      split; [by auto|]. intros m lv. rewrite Hl2, Hl1.
      setoid_rewrite (elem_of_cons [_] _ (lid_first _)). setoid_rewrite list_elem_of_singleton. naive_solver.
    + apply GetNodes_nodrbd in Hmy; [|done]. subst my.
      destruct (adds_devices n (c0 :: cs0) lvmap) as [Hk Hl]; [intros c; apply Hadd; left|].
      split; [done|]. intros m lv. rewrite Hl. setoid_rewrite list_elem_of_singleton. naive_solver.
Qed.

(** The volumes of an instance by node.  When every device of the disks has
    nodes, a volume is listed for a node exactly when it was before, or a device
    of one of the disks is that volume and lives on that node (as in the node
    tree of the disk) and is more than a reservation. *)
Theorem MapLVsByNode_correct (lvmap : dict (list str)) (devices : list disk) (node m lv : str) :
  Forall (λ dev, placed dev node) devices →
  lv ∈ default [] (dget m (MapLVsByNode lvmap devices node)) ↔
  lv ∈ default [] (dget m lvmap) ∨
  ∃ dev d', dev ∈ devices ∧ lives dev node d' m ∧ d_dev_type d' = DT_PLAIN ∧
    d_forthcoming d' = false ∧ lv = lv_name d'.
Proof.
  intros Hpl. rewrite Forall_forall in Hpl. unfold MapLVsByNode.
  destruct (adds_devices node devices lvmap) as [_ Hlv]; [intros c Hc; by apply map_dev_adds, Hpl|].
  change (default [] (dget m ?d)) with (lvs m d). rewrite Hlv. unfold has_lv. naive_solver.
Qed.

(** ** The invariant *)

Section reachable.
  Context (show : str → string) (NICC_DEFAULTS : pdict).

(** One operation of the writer that ended, by returning or by raising, under
    the conditions its callers meet:
    - new UUIDs are not empty;
    - a new group has no members, and its UUID, or that of a new network, is
      either checked or generated by [AddNodeGroup] or [AddNetwork], or has been
      generated before and is in nobody's use ([LUGroupAdd], [LUNetworkAdd]);
    - a group is removed only when no node names it, as
      [LUGroupRemove.CheckPrereq] makes sure;
    - one assignment does not send a node to two groups ([LUGroupAssignNodes]
      has one group);
    - the order in which [MaintainCandidatePool] meets the nodes is any;
    - [step_reload] saves and loads a configuration that has a group. *)
Inductive config_step (w w' : writer) : Prop :=
| step_AddNode newuuid fuel now n ec_id r :
    (∀ k, newuuid k ≠ []) → AddNode newuuid fuel show now n ec_id w = Some (r, w') → config_step w w'
| step_RemoveNode u r : RemoveNode u w = Some (r, w') → config_step w w'
| step_AddNodeGroup newuuid fuel now g ec_id check_uuid r :
    (∀ k, newuuid k ≠ []) → g_members g = [] → uuid_given check_uuid (g_uuid g) (w_data w) →
    AddNodeGroup newuuid fuel show NICC_DEFAULTS now g ec_id check_uuid w = Some (r, w') → config_step w w'
| step_RemoveNodeGroup u r :
    (∀ nk n, dget nk (cd_nodes (w_data w)) = Some n → n_group n ≠ Some u) →
    RemoveNodeGroup u w = Some (r, w') → config_step w w'
| step_AssignGroupNodes now mods r :
    functional mods → AssignGroupNodes now mods w = Some (r, w') → config_step w w'
| step_MaintainCandidatePool node_list exceptions r :
    node_list ≡ₚ dkeys (cd_nodes (w_data w)) →
    MaintainCandidatePool node_list exceptions w = Some (r, w') → config_step w w'
| step_reload newuuid fuel now r :
    cd_nodegroups (w_data w) ≠ [] →
    UpgradeGroups newuuid fuel show NICC_DEFAULTS now (upd_data forget_members w) = Some (r, w') →
    config_step w w'
| step_AddNetwork newuuid fuel now n ec_id check_uuid r :
    (∀ k, newuuid k ≠ []) → uuid_given check_uuid (net_uuid n) (w_data w) →
    AddNetwork newuuid fuel show now n ec_id check_uuid w = Some (r, w') → config_step w w'
| step_RemoveNetwork u r : RemoveNetwork u w = Some (r, w') → config_step w w'
| step_RemoveDisk u r : RemoveDisk u w = Some (r, w') → config_step w w'
| step_SetDiskNodes u ns r : SetDiskNodes u ns w = Some (r, w') → config_step w w'
| step_SetDiskLogicalID u l r : SetDiskLogicalID u l w = Some (r, w') → config_step w w'
| step_RenameInstance u name r : RenameInstance u name w = Some (r, w') → config_step w w'
| step_AddCert u c r : AddNodeToCandidateCerts u c w = Some (r, w') → config_step w w'
| step_RemoveCert u r : RemoveNodeFromCandidateCerts u w = Some (r, w') → config_step w w'
| step_SetCerts c r : SetCandidateCerts c w = Some (r, w') → config_step w w'
| step_SetVGName v r : SetVGName v w = Some (r, w') → config_step w w'
| step_SetDRBDHelper v r : SetDRBDHelper v w = Some (r, w') → config_step w w'.

Lemma config_step_ok w w' : config_step w w' → wdata_ok w → wdata_ok w'.
Proof.
  intros Hs Hok. destruct Hs as [? ? ? ? ? ? ? H|? ? H|? ? ? ? ? ? ? ? ? ? H|u r Hn H|now mods r Hf H
    |nl exc r Hp H|? ? ? ? Hne H|? ? ? ? ? ? ? ? ? H|? ? H|? ? H|? ? ? H|? ? ? H|? ? ? H|? ? ? H|? ? H|? ? H|? ? H|? ? H].
  - by eapply AddNode_ok in H.
  - by eapply RemoveNode_ok in H.
  - by eapply AddNodeGroup_ok in H.
  - eapply RemoveNodeGroup_ok; [exact Hok| |exact H]. intros g Hg.
    destruct (ok_members _ Hok _ _ Hg) as [_ Hm]. destruct (g_members g) as [|nk ?]; [done|].
    destruct (Hm nk) as (n & Hnk & Hgr); [by left|]. by destruct (Hn _ _ Hnk).
  - destruct (assign_nodes now w mods Hok Hf) as [[_ E]|(_ & w1 & E & Hok1 & _)];
      rewrite E in H; by injection H as <- <-.
  - pose proof (maintain_pool exc nl w Hok Hp) as Hpool.
    destruct (GetMasterCandidateStats _ _) as [[now should] mx]. destruct Hpool as (w1 & E & Hok1 & _).
    rewrite E in H. by injection H as <- <-.
  - rewrite reload_groups in H by done. injection H as <- <-. by apply config_ok_members.
  - by eapply AddNetwork_ok in H.
  - by eapply RemoveNetwork_ok in H.
  - by eapply RemoveDisk_ok in H.
  - by eapply SetDiskNodes_ok in H.
  - by eapply SetDiskLogicalID_ok in H.
  - by eapply RenameInstance_ok in H.
  - by eapply AddNodeToCandidateCerts_ok in H.
  - by eapply RemoveNodeFromCandidateCerts_ok in H.
  - by eapply SetCandidateCerts_ok in H.
  - by eapply SetVGName_ok in H.
  - by eapply SetDRBDHelper_ok in H.
Qed.

Lemma config_step_filed w w' : config_step w w' → wdata_ok w → wfiled w → wfiled w'.
Proof.
  intros Hs Hok Hw. destruct Hs as [? ? ? ? ? ? ? H|? ? H|? ? ? ? ? ? ? ? ? ? H|? ? ? H|? ? ? ? H
    |? ? ? ? H|? ? ? ? ? H|? ? ? ? ? ? ? ? ? H|? ? H|? ? H|? ? ? H|? ? ? H|? ? ? H|? ? ? H|? ? H|? ? H|? ? H|? ? H].
  - by eapply AddNode_filed in H.
  - by eapply RemoveNode_filed in H.
  - by eapply AddNodeGroup_filed in H.
  - by eapply RemoveNodeGroup_filed in H.
  - by eapply AssignGroupNodes_filed in H.
  - by eapply MaintainCandidatePool_filed in H.
  - by eapply UpgradeGroups_filed in H.
  - by eapply AddNetwork_filed in H.
  - by eapply RemoveNetwork_filed in H.
  - eapply RemoveDisk_filed; [apply Hok|exact Hw|exact H].
  - by eapply SetDiskNodes_filed in H.
  - by eapply SetDiskLogicalID_filed in H.
  - by eapply RenameInstance_filed in H.
  - by eapply AddNodeToCandidateCerts_filed in H.
  - by eapply RemoveNodeFromCandidateCerts_filed in H.
  - by eapply SetCandidateCerts_filed in H.
  - by eapply SetVGName_filed in H.
  - by eapply SetDRBDHelper_filed in H.
Qed.

End reachable.


(** C28: filling the candidate pool.  Whatever the order the nodes are met in,
    afterwards there are as many candidates as there should be (or more, if
    there were), so that the warning that not enough nodes were found is never
    given; the nodes returned are the ones promoted, they could be, and the
    other nodes are untouched. *)
Theorem MaintainCandidatePool_correct (exceptions node_list : list str) (w : writer) :
  wdata_ok w → node_list ≡ₚ dkeys (cd_nodes (w_data w)) →
  let '(mc_now, mc_should, mc_max) := GetMasterCandidateStats (w_data w) exceptions in
  ∃ mods w', MaintainCandidatePool node_list exceptions w = Some (Ok mods, w') ∧ wdata_ok w' ∧
    GetMasterCandidateStats (w_data w') exceptions = (Z.max mc_now mc_should, mc_should, mc_max) ∧
    (∀ k, k ∈ mods → ∃ n, dget k (cd_nodes (w_data w)) = Some n ∧ not_promotable exceptions n = false) ∧
    ∀ k, dget k (cd_nodes (w_data w')) =
      if decide (k ∈ mods) then set_n_candidate <$> dget k (cd_nodes (w_data w))
      else dget k (cd_nodes (w_data w)).
Proof.
  intros Hok Hp. pose proof (maintain_pool exceptions node_list w Hok Hp) as H.
  destruct (GetMasterCandidateStats (w_data w) exceptions) as [[now should] mx].
  destruct H as (w' & E & Hok' & Hst & Hget). eexists _, w'. split_and!; try done.
  intros k Hk. assert (k ∈ List.filter (promotable exceptions (cd_nodes (w_data w))) node_list) as Hk'.
  { rewrite <-(take_drop (Z.to_nat (should - now)) (List.filter _ _)). apply elem_of_app. by left. }
  apply list_elem_of_In, List.filter_In in Hk' as [_ Hk']. unfold promotable in Hk'.
  destruct (dget k (cd_nodes (w_data w))) as [n|]; [|done]. apply negb_true_iff in Hk'. eauto.
Qed.

(** Saving and loading.  The members of the groups are not saved; loading
    succeeds and gives back every group with the same members, in the order of
    the nodes, and everything else as it was. *)
Theorem reload_correct newuuid fuel show NICC_DEFAULTS now (w : writer) :
  wdata_ok w → cd_nodegroups (w_data w) ≠ [] →
  ∃ w', UpgradeGroups newuuid fuel show NICC_DEFAULTS now (upd_data forget_members w) = Some (Ok tt, w') ∧
    wdata_ok w' ∧ forget_members (w_data w') = forget_members (w_data w) ∧
    ∀ gk g, dget gk (cd_nodegroups (w_data w)) = Some g →
      ∃ ms, dget gk (cd_nodegroups (w_data w')) = Some (set_g_members ms g) ∧ ms ≡ₚ g_members g.
Proof.
  intros Hok Hne. eexists. split; [by apply reload_groups|]. split; [by apply config_ok_members|]. split.
  - unfold forget_members, set_nodegroups. simpl. f_equal. unfold dmap, with_members.
    rewrite <-list_fmap_compose. apply list_fmap_ext. by intros i [k g] _.
  - intros gk g Hg. exists (members_of (cd_nodes (w_data w)) gk). simpl. rewrite dget_with_members, Hg.
    split; [done|]. by apply members_of_ok.
Qed.

(** ** Checking the invariant *)

Definition dall {V} (P : str → V → bool) (d : dict V) : bool := forallb (λ kv, P kv.1 kv.2) d.

Lemma dall_get {V} (P : str → V → bool) d k v : dall P d = true → dget k d = Some v → P k v = true.
Proof.
  unfold dall. rewrite forallb_forall. intros H Hk. apply dget_Some_1, list_elem_of_In in Hk.
  by apply (H (k, v)).
Qed.

Definition named (k : str) (u : option str) : bool := bool_decide (u = Some k) && bool_decide (k ≠ []).

Definition config_okb (d : config_data) : bool :=
  bool_decide (NoDup (dkeys (cd_nodes d))) && bool_decide (NoDup (dkeys (cd_nodegroups d))) &&
  bool_decide (NoDup (dkeys (cd_instances d))) && bool_decide (NoDup (dkeys (cd_networks d))) &&
  bool_decide (NoDup (dkeys (cd_disks d))) &&
  dall (λ k n, named k (n_uuid n)) (cd_nodes d) && dall (λ k g, named k (g_uuid g)) (cd_nodegroups d) &&
  dall (λ k n, named k (net_uuid n)) (cd_networks d) &&
  dall (λ k n, match n_group n ≫= λ gk, dget gk (cd_nodegroups d) with
               | Some g => bool_decide (k ∈ g_members g)
               | None => false
               end) (cd_nodes d) &&
  dall (λ gk g, bool_decide (NoDup (g_members g)) &&
          forallb (λ nk, bool_decide ((dget nk (cd_nodes d) ≫= n_group) = Some gk)) (g_members g))
    (cd_nodegroups d) &&
  bool_decide (NoDup (g_name <$> dvalues (cd_nodegroups d))) &&
  forallb (λ k, bool_decide (k ∉ dkeys (cd_nodegroups d))) (dkeys (cd_nodes d)).

Lemma named_true k u : named k u = true → u = Some k ∧ k ≠ [].
Proof. unfold named. intros [H1 H2]%andb_true_iff. by apply bool_decide_eq_true in H1, H2. Qed.

Lemma NoDup_fmap_eq {A B} (f : A → B) (l : list (str * A)) k1 k2 v1 v2 :
  NoDup (f <$> l.*2) → (k1, v1) ∈ l → (k2, v2) ∈ l → f v1 = f v2 → k1 = k2.
Proof.
  rewrite <-list_fmap_compose. intros Hnd [i Hi]%list_elem_of_lookup [j Hj]%list_elem_of_lookup E.
  assert (i = j) as ->; [|congruence].
  eapply NoDup_lookup; [exact Hnd|by rewrite list_lookup_fmap, Hi|by rewrite list_lookup_fmap, Hj; simpl; rewrite E].
Qed.

Lemma config_okb_sound d : config_okb d = true → config_ok d.
Proof.
  unfold config_okb. intros H. repeat (apply andb_true_iff in H as [H ?]).
  repeat match goal with H : bool_decide _ = true |- _ => apply bool_decide_eq_true in H end.
  constructor; try done.
  - intros k n Hk. by apply named_true, (dall_get (λ k n, named k (n_uuid n)) _ _ _ H6).
  - intros k n Hk. by apply named_true, (dall_get (λ k n, named k (g_uuid n)) _ _ _ H5).
  - intros k n Hk. by apply named_true, (dall_get (λ k n, named k (net_uuid n)) _ _ _ H4).
  - intros k n Hk. pose proof (dall_get _ _ _ _ H3 Hk) as Hx. simpl in Hx.
    destruct (n_group n) as [gk|]; [|done]. simpl in Hx. destruct (dget gk _) as [g|] eqn:Eg; [|done].
    apply bool_decide_eq_true in Hx. eauto.
  - intros gk g Hg. pose proof (dall_get _ _ _ _ H2 Hg) as [Hx Hy]%andb_true_iff.
    apply bool_decide_eq_true in Hx. split; [done|]. rewrite forallb_forall in Hy. intros nk Hnk.
    apply list_elem_of_In, Hy, bool_decide_eq_true, bind_Some in Hnk. done.
  - intros k1 g1 k2 g2 H'1 H'2. eapply NoDup_fmap_eq; [done|by apply dget_Some_1..].
  - intros k Hk. rewrite forallb_forall in H0. by apply list_elem_of_In, H0, bool_decide_eq_true in Hk.
Qed.

(** ** A small cluster *)

Module ConfigDemo.

Definition a_node (name group : string) (mc offline : bool) : str * node :=
  (lit name, Node (lit name) (lit "192.0.2.1") (lit "192.0.2.1") 1 0 mc offline false (Some (lit group))
               true true [] (Some (lit name))).
Definition a_group (name : string) (ms : list str) : str * node_group :=
  (lit name, NodeGroup (lit name) ms [] [] MakeEmptyIPolicy 1 0 [] (Some (lit name))).

Definition params : cluster_params := ClusterParams [] [] [] [] [] [] [] [].
Definition data : config_data :=
  ConfigData (Cluster 1 params MakeEmptyIPolicy 11000 [] (lit "n1") (lit "192.0.2.1") (Some 3) []
                (Some (lit "xenvg")) None (Some (lit "c")))
    [a_node "n1" "g1" true false; a_node "n2" "g1" false true; a_node "n3" "g2" false false;
     a_node "n4" "g1" false false]
    [a_group "g1" [lit "n2"; lit "n1"; lit "n4"]; a_group "g2" [lit "n3"]] [] [] [] 1.
Definition w0 : writer := Writer data ∅.

Lemma w0_ok : wdata_ok w0.
Proof. apply config_okb_sound. reflexivity. Qed.

Definition mods : list (str * str) := [(lit "n1", lit "g2"); (lit "n3", lit "g2"); (lit "n1", lit "g2")].

Lemma mods_functional : functional mods.
Proof.
  intros nk g1 g2. unfold mods. rewrite !elem_of_cons, !elem_of_nil.
  intros H1 H2. destruct H1 as [[= -> ->]|[[= -> ->]|[[= -> ->]|[]]]];
    by destruct H2 as [[= ->]|[[= ->]|[[= ->]|[]]]].
Qed.


(** Assigning a node to two groups in one call leaves it in both. *)
Lemma assigned_twice :
  ∃ w', AssignGroupNodes 5 [(lit "n1", lit "g2"); (lit "n1", lit "g3")]
          (upd_data (set_nodegroups (λ gs, gs ++ [a_group "g3" []])) w0) = Some (Ok tt, w') ∧
    (g_members <$> dget (lit "g2") (cd_nodegroups (w_data w'))) = Some [lit "n3"; lit "n1"] ∧
    (g_members <$> dget (lit "g3") (cd_nodegroups (w_data w'))) = Some [lit "n1"].
Proof. eexists. split; [vm_compute; reflexivity|]. by split. Qed.

Lemma MaintainCandidatePool_correct_witness :
  ∃ mods w', MaintainCandidatePool [lit "n2"; lit "n4"; lit "n3"; lit "n1"] [] w0 = Some (Ok mods, w') ∧
    wdata_ok w' ∧ GetMasterCandidateStats (w_data w0) [] = (1, 3, 3) ∧
    GetMasterCandidateStats (w_data w') [] = (3, 3, 3).
Proof.
  assert ([lit "n2"; lit "n4"; lit "n3"; lit "n1"] ≡ₚ dkeys (cd_nodes (w_data w0))) as Hp
    by (vm_compute; solve_Permutation).
  destruct (MaintainCandidatePool_correct [] _ w0 w0_ok Hp) as (mods & w' & E & Hok & Hs & _).
  exists mods, w'. done.
Defined.

Lemma reload_correct_witness :
  ∃ w', UpgradeGroups (λ _, lit "u") 3 (λ _, EmptyString) [] 5 (upd_data forget_members w0) = Some (Ok tt, w') ∧
    wdata_ok w' ∧ (g_members <$> dget (lit "g1") (cd_nodegroups (w_data w'))) = Some [lit "n1"; lit "n2"; lit "n4"].
Proof.
  destruct (reload_correct (λ _, lit "u") 3 (λ _, EmptyString) [] 5 w0 w0_ok) as (w' & E & Hok & _); [done|].
  exists w'. split; [done|]. split; [done|]. vm_compute in E. injection E as <-. reflexivity.
Defined.

(** A cluster with an instance and its disk; adding a node, moving two, adding
    a group with a UUID of its own, renaming the instance, removing the node *)
Definition w2 : writer :=
  upd_data (set_cd_disks (λ _, [(lit "d1", Disk false None DT_FILE (LPair (lit "loop") (lit "/srv/old/disk0"))
                                   [] [] None 1024 [] [] None None [] (Some (lit "d1")))]))
    (upd_data (set_instances (λ _, [(lit "i1", Instance (lit "old") (lit "n1") [] [] [lit "d1"] None
                                                 (Some (lit "i1")))])) w0).

Lemma w2_ok : wdata_ok w2.
Proof. apply config_okb_sound. reflexivity. Qed.

Lemma w2_filed : wfiled w2.
Proof. split; intros k x; simpl; case_decide; intros [= <-]; by subst. Qed.


(** A DRBD disk and a volume *)
Definition lv (name : string) (forthcoming : bool) : disk :=
  Disk forthcoming None DT_PLAIN (LPair (lit "xenvg") (lit name)) [] [] None 1024 [] [] None None [] None.
Definition drbd : disk :=
  Disk false None DT_DRBD8 (LDrbd (lit "n1") (lit "n3") 11000 0 0 (lit "secret"))
    [lv "data" false; lv "meta" false] [] None 1024 [] [] None None [] None.

Lemma lv_placed name f n : placed (lv name f) n.
Proof.
  econstructor; [reflexivity|done|]. intros k c _ Hc. by apply not_elem_of_nil in Hc.
Qed.

Lemma MapLVsByNode_correct_witness :
  lit "xenvg/meta" ∈ default [] (dget (lit "n3") (MapLVsByNode [] [drbd; lv "b" true] (lit "n1"))) ∧
  ∃ dev d', dev ∈ [drbd; lv "b" true] ∧ lives dev (lit "n1") d' (lit "n3") ∧ lit "xenvg/meta" = lv_name d'.
Proof.
  assert (lit "xenvg/meta" ∈ default [] (dget (lit "n3") (MapLVsByNode [] [drbd; lv "b" true] (lit "n1")))) as Hin
    by (apply (bool_decide_eq_true_1 (_ ∈ _)); vm_compute; reflexivity).
  split; [done|]. apply MapLVsByNode_correct in Hin as [Hin|(dev & d' & Hd & Hl & _ & _ & E)].
  - by apply not_elem_of_nil in Hin.
  - eauto 10.
  - repeat constructor; [|apply lv_placed]. econstructor; [reflexivity|done|].
    intros k c _ Hc. simpl in Hc. rewrite !elem_of_cons, elem_of_nil in Hc.
    destruct Hc as [->|[->|[]]]; apply lv_placed.
Defined.

(** A rename that fails half way has renamed the instance in memory. *)
Definition file_disk : disk :=
  Disk false None DT_FILE (LPair (lit "loop") (lit "/srv/old/disk0")) [] [] None 1024 [] [] None None [] None.
Definition w1 : writer :=
  upd_data (set_cd_disks (λ _, [(lit "d1", file_disk)]))
    (upd_data (set_instances (λ _, [(lit "i1", Instance (lit "old") (lit "n1") [] [] [lit "d1"] None (Some (lit "i1")))])) w0).

Lemma RenameInstance_half_way :
  ∃ e w', RenameInstance (lit "i1") (lit "/new") w1 = Some (Raise e, w') ∧
    (i_name <$> dget (lit "i1") (cd_instances (w_data w'))) = Some (lit "/new").
Proof. eexists _, _. split; [vm_compute; reflexivity|]. done. Qed.
End ConfigDemo.
