(* ===== verification/ConfigLock.v ===== *)
(** * The lock of the configuration

    [ConfigManager] with [_OpenConfig], [_CloseConfig] and [_WriteConfig]
    (config/utils.py, config/__init__.py), the calls of the configuration daemon
    they use (WConfd/Core.hs: readConfig, lockConfig, unlockConfig,
    writeConfigAndUnlock), and several processes that run blocks under the
    manager, in any interleaving.  Every call of the daemon may fail, with or
    without effect.  The writer is online; reading and upgrading the data of the
    daemon ([ConfigData.FromDict], [_UpgradeConfig]) is a parameter. *)

From S2P Require Import Prelude Errors.
From stdpp Require Import gmap.
#[local] Open Scope list_scope.
#[local] Open Scope stdpp_scope.
#[local] Open Scope Z_scope.

(** How [_SetConfigData(FromDict(d))] and [_UpgradeConfig()] end; when one of them
    raises, what had been set by then *)
Inductive loading (D : Type) := Loaded (d : D) | LoadFails (e : exn) (set : option D).
Arguments Loaded {D} d.
Arguments LoadFails {D} e set.

Section lock.
  Context {D : Type}.
  Context (load : D → loading D).

(** ** The daemon *)

(** The owners of the configuration lock; without sharers it is free. *)
Inductive owners := Exclusive (c : nat) | Sharers (cs : gset nat).

(** A write: who made it, the changes of that process since it locked the
    configuration, and what was written.  The changes are kept to state
    theorems; no operation looks at them. *)
Record write := Write { wr_by : nat; wr_updates : list (D → D); wr_data : D }.

Record daemon := Daemon { s_lock : owners; s_config : D; s_log : list write }.

Definition holds_exclusive (c : nat) (s : daemon) : bool :=
  match s_lock s with Exclusive c' => bool_decide (c' = c) | Sharers _ => false end.
Definition holds_shared (c : nat) (s : daemon) : bool :=
  match s_lock s with Exclusive c' => bool_decide (c' = c) | Sharers cs => bool_decide (c ∈ cs) end.

(** How a call of the daemon ends: with its result; with an exception before the
    daemon did anything, as when polling times out; or with an exception although
    the daemon served it. *)
Inductive answer := Served | NotServed | AnswerLost.

(** [tryUpdateLocks] with one request for the configuration lock *)
Definition try_lock (c : nat) (shared : bool) (l : owners) : option owners :=
  match l with
  | Exclusive c' => if decide (c' = c) then Some (if shared then Sharers {[c]} else l) else None
  | Sharers cs =>
      if shared then Some (Sharers ({[c]} ∪ cs))
      else if decide (cs ∖ {[c]} = ∅) then Some (Exclusive c) else None
  end.

Definition lockConfig (c : nat) (shared : bool) (s : daemon) : option D * daemon :=
  if (if shared then holds_shared c s else holds_exclusive c s) then (Some (s_config s), s)
  else
    match try_lock c shared (s_lock s) with
    | Some l => (Some (s_config s), Daemon l (s_config s) (s_log s))
    | None => (None, s)
    end.

Definition unlockConfig (c : nat) (s : daemon) : daemon :=
  let l := match s_lock s with
           | Exclusive c' => if decide (c' = c) then Sharers ∅ else Exclusive c'
           | Sharers cs => Sharers (cs ∖ {[c]})
           end in
  Daemon l (s_config s) (s_log s).

Definition writeConfigAndUnlock (c : nat) (updates : list (D → D)) (d : D) (s : daemon) : bool * daemon :=
  if holds_exclusive c s
  then (true, unlockConfig c (Daemon (s_lock s) d (s_log s ++ [Write c updates d])))
  else (false, s).

(** ** The writer *)

Record cfg_writer := CfgWriter {
  lock_count : Z;
  lock_current_shared : option bool;
  lock_forced : bool;
  config_data : option D;
  write_count : nat
}.

Definition AddLockCount (n : Z) (w : cfg_writer) : cfg_writer :=
  CfgWriter (lock_count w + n) (lock_current_shared w) (lock_forced w) (config_data w) (write_count w).
Definition set_current_shared (b : bool) (w : cfg_writer) : cfg_writer :=
  CfgWriter (lock_count w) (Some b) (lock_forced w) (config_data w) (write_count w).
Definition set_forced (b : bool) (w : cfg_writer) : cfg_writer :=
  CfgWriter (lock_count w) (lock_current_shared w) b (config_data w) (write_count w).
Definition SetConfigData (d : option D) (w : cfg_writer) : cfg_writer :=
  CfgWriter (lock_count w) (lock_current_shared w) (lock_forced w) d (write_count w).
Definition count_write (w : cfg_writer) : cfg_writer :=
  CfgWriter (lock_count w) (lock_current_shared w) (lock_forced w) (config_data w) (S (write_count w)).

Definition current_shared (w : cfg_writer) : bool := default false (lock_current_shared w).

(** What [_OpenConfig] does after its first part: nothing more, raise, or call
    the daemon *)
Inductive opening := Opened | OpenRaises | ReadConfig | LockConfig.

Definition OpenConfig (shared force : bool) (w : cfg_writer) : cfg_writer * opening :=
  let w := AddLockCount 1 w in
  let read w :=
    let w := if force then set_forced true w else w in
    (w, if shared && negb force
        then match config_data w with None => ReadConfig | Some _ => Opened end
        else LockConfig) in
  if 1 <? lock_count w then
    if current_shared w && negb shared then (AddLockCount (-1) w, OpenRaises)
    else if negb force || lock_forced w || negb shared then (w, Opened)
    else read w
  else read (set_current_shared shared w).

Definition Configuration_error : exn := GntExn ConfigurationError [].

(** The rest of [_OpenConfig], with the data received *)
Definition received (d : D) (w : cfg_writer) : exc unit * cfg_writer :=
  match load d with
  | Loaded d => (Ok tt, SetConfigData (Some d) w)
  | LoadFails _ (Some d) => (Raise Configuration_error, SetConfigData (Some d) w)
  | LoadFails _ None => (Raise Configuration_error, w)
  end.

(** [_CloseConfig] with [_WriteConfig(releaselock=True)]; whether it raised.  [a]: the
    answer of the daemon *)
Definition CloseConfig (a : answer) (c : nat) (updates : list (D → D)) (save : bool) (w : cfg_writer) (s : daemon)
    : bool * cfg_writer * daemon :=
  let w := AddLockCount (-1) w in
  if 0 <? lock_count w then (false, w, s)
  else if save then
    match config_data w with
    | None => (true, w, s)
    | Some d =>
        match a with
        | Served => (false, count_write w, (writeConfigAndUnlock c updates d s).2)
        | NotServed => (true, w, s)
        | AnswerLost => (true, w, (writeConfigAndUnlock c updates d s).2)
        end
    end
  else if negb (current_shared w && negb (lock_forced w)) then
    match a with
    | Served => (false, set_forced false w, unlockConfig c s)
    | NotServed => (true, w, s)
    | AnswerLost => (true, w, unlockConfig c s)
    end
  else (false, w, s).

(** ** Processes *)

(** What runs under the manager: changes of the data in memory, exceptions, the
    [with] statement of [GetConfigManager] and [ConfigSync], and [try] *)
Inductive stmt :=
| Update (f : D → D)
| OutDate
| Throw
| With (shared force : bool) (body : list stmt)
| Try (body : list stmt).

(** The rest of a body, the end of a [with] statement, the end of a [try] *)
Inductive frame := FBody (l : list stmt) | FWith (shared : bool) | FTry.

(** Where a process is: running, with an exception on its way up, or polling for
    the lock in [__enter__] *)
Inductive control :=
| Run (k : list frame)
| Raising (k : list frame)
| Polling (shared : bool) (body : list stmt) (k : list frame).

Record process := Process {
  p_writer : cfg_writer;
  p_control : control;
  p_updates : list (D → D)
}.

(** [__enter__] when [_OpenConfig] raised; another exception is only logged. *)
Definition enter_failed (a : answer) (c : nat) (w : cfg_writer) (k : list frame) (s : daemon) : process * daemon :=
  let '(_, w, s) := CloseConfig a c [] false w s in
  (Process w (Raising k) [], s).

(** The changes are counted from the point where the configuration was locked. *)
Definition entered (a : answer) (c : nat) (d : D) (shared : bool) (body : list stmt) (k : list frame) (w : cfg_writer)
    (s : daemon) : process * daemon :=
  match received d w with
  | (Ok _, w) => (Process w (Run (FBody body :: FWith shared :: k)) [], s)
  | (Raise _, w) => enter_failed a c w k s
  end.

(** One step: [ao] is the answer to a call that reads or locks the configuration,
    [ac] to one that writes or unlocks it. *)
Definition step (ao ac : answer) (c : nat) (p : process) (s : daemon) : option (process * daemon) :=
  let w := p_writer p in
  let go ctl := Some (Process w ctl (p_updates p), s) in
  match p_control p with
  | Run [] | Raising [] => None
  | Run (FBody [] :: k) | Run (FTry :: k) | Raising (FTry :: k) => go (Run k)
  | Run (FBody (Update f :: l) :: k) =>
      match config_data w with
      | Some d => Some (Process (SetConfigData (Some (f d)) w) (Run (FBody l :: k)) (p_updates p ++ [f]), s)
      | None => go (Raising k)
      end
  | Run (FBody (OutDate :: l) :: k) => Some (Process (SetConfigData None w) (Run (FBody l :: k)) (p_updates p), s)
  | Run (FBody (Throw :: l) :: k) | Raising (FBody l :: k) => go (Raising k)
  | Run (FBody (Try body :: l) :: k) => go (Run (FBody body :: FTry :: FBody l :: k))
  | Run (FBody (With shared force body :: l) :: k) =>
      let k := FBody l :: k in
      let '(w, o) := OpenConfig shared force w in
      match o with
      | Opened => Some (Process w (Run (FBody body :: FWith shared :: k)) (p_updates p), s)
      | OpenRaises => Some (enter_failed ac c w k s)
      | ReadConfig =>
          match ao with
          | Served => Some (entered ac c (s_config s) shared body k w s)
          | _ => Some (enter_failed ac c w k s)
          end
      | LockConfig => Some (Process w (Polling shared body k) (p_updates p), s)
      end
  | Polling shared body k =>
      match ao with
      | NotServed => Some (enter_failed ac c w k s)
      | AnswerLost => Some (enter_failed ac c w k (lockConfig c shared s).2)
      | Served =>
          match lockConfig c shared s with
          | (Some d, s) => Some (entered ac c d shared body k w s)
          | (None, s) => Some (p, s)
          end
      end
  | Run (FWith shared :: k) =>
      let '(raised, w, s) := CloseConfig ac c (p_updates p) (negb shared) w s in
      Some (Process w (if raised then Raising k else Run k) (p_updates p), s)
  | Raising (FWith shared :: k) =>
      let '(_, w, s) := CloseConfig ac c (p_updates p) false w s in
      Some (Process w (Raising k) (p_updates p), s)
  end.

Record world := World { w_daemon : daemon; w_procs : list process }.

(** Process [c] makes a step; a process that has ended stays. *)
Definition world_step (w : world) (m : nat * answer * answer) : world :=
  let '(c, ao, ac) := m in
  match w_procs w !! c with
  | Some p =>
      match step ao ac c p (w_daemon w) with
      | Some (p, s) => World s (<[c := p]> (w_procs w))
      | None => w
      end
  | None => w
  end.

Definition run (w : world) (schedule : list (nat * answer * answer)) : world := foldl world_step w schedule.

Definition new_process (prog : list stmt) : process :=
  Process (CfgWriter 0 None false None 0) (Run [FBody prog]) [].
Definition start (d : D) (progs : list (list stmt)) : world :=
  World (Daemon (Sharers ∅) d []) (new_process <$> progs).
End lock.
Arguments write D : clear implicits.
Arguments daemon D : clear implicits.
Arguments cfg_writer D : clear implicits.
Arguments process D : clear implicits.
Arguments world D : clear implicits.
Arguments stmt D : clear implicits.
Arguments frame D : clear implicits.
Arguments control D : clear implicits.
