(* ===== verification/ConfigLockProps.v ===== *)
(** * The lock of the configuration: the theorems

    Under the discipline that a block which holds the configuration shared does
    not ask for it exclusively, and one which holds it exclusively does not force
    a shared lock, all writes of all processes are serialised and none is lost,
    whichever calls of the daemon fail.  As long as the calls that write or unlock
    the configuration do not fail, every block that ends gives its lock back, and
    somebody can always go on.  The two lemmas at the end show what happens without
    the discipline. *)

From S2P Require Import Prelude Errors ConfigLock.
From stdpp Require Import gmap.
#[local] Open Scope list_scope.
#[local] Open Scope stdpp_scope.
#[local] Open Scope Z_scope.

Section lock.
  Context {D : Type} (load : D → loading D).
  Implicit Types (w : cfg_writer D) (s : daemon D) (p : process D) (k : list (frame D)) (ups : list (D → D)).

(** ** The discipline *)

(** How the outermost [with] statement holds the configuration *)
Fixpoint ctx k : option bool :=
  match k with
  | [] => None
  | FWith s :: k => Some (default s (ctx k))
  | _ :: k => ctx k
  end.

Fixpoint depth k : Z :=
  match k with
  | [] => 0
  | FWith _ :: k => depth k + 1
  | _ :: k => depth k
  end.

(** What a statement may do in a block that is opened as [o] says *)
Fixpoint disciplined (o : option bool) (st : stmt D) : bool :=
  match st with
  | Update _ => bool_decide (o = Some false)
  | OutDate => bool_decide (o ≠ Some false)
  | Throw => true
  | With shared force body =>
      match o with None => true | Some true => shared | Some false => negb (shared && force) end &&
      forallb (disciplined (Some (default shared o))) body
  | Try body => forallb (disciplined o) body
  end.

Fixpoint wf_stack k : bool :=
  match k with
  | [] => true
  | FBody l :: k => forallb (disciplined (ctx k)) l && wf_stack k
  | FWith s :: k => (match ctx k with Some true => s | _ => true end) && wf_stack k
  | FTry :: k => wf_stack k
  end.

Lemma depth_nonneg k : 0 <= depth k.
Proof. induction k as [|[] k IH]; simpl; lia. Qed.

Lemma depth_ctx k : depth k = 0 ↔ ctx k = None.
Proof.
  induction k as [|[] k IH]; simpl; try done. pose proof (depth_nonneg k). split; [lia|done].
Qed.

(** ** What the log says *)

Definition apply_updates ups (d : D) : D := foldl (λ d f, f d) d ups.

(** Each write is the one before, loaded, with the changes of the writer. *)
Fixpoint chain (d : D) (log : list (write D)) (d' : D) : Prop :=
  match log with
  | [] => d' = d
  | wr :: log =>
      ∃ d0, load d = Loaded d0 ∧ wr_data wr = apply_updates (wr_updates wr) d0 ∧
        chain (wr_data wr) log d'
  end.

Lemma chain_snoc d log d1 d0 c ups :
  chain d log d1 → load d1 = Loaded d0 →
  chain d (log ++ [Write c ups (apply_updates ups d0)]) (apply_updates ups d0).
Proof.
  revert d. induction log as [|wr log IH]; simpl; intros d.
  - intros ->. eauto.
  - intros (d0' & ? & ? & ?) ?. eauto 10.
Qed.

Definition writes (c : nat) s : nat := length (List.filter (λ wr, (wr_by wr =? c)%nat) (s_log s)).
Definition sharers s : gset nat := match s_lock s with Sharers cs => cs | Exclusive _ => ∅ end.

(** ** The invariant *)

(** [clean]: the processes whose calls that write or unlock the configuration are
    all served *)
Section invariant.
  Context (clean : nat → Prop).

(** The process has the lock, and its data is what it loaded, with its changes. *)
Definition owned (c : nat) s w ups : Prop :=
  s_lock s = Exclusive c ∧
  ∃ d0, load (s_config s) = Loaded d0 ∧ config_data w = Some (apply_updates ups d0).

(** Whatever the daemon has of the process fits its blocks. *)
Definition fits (c : nat) s w (o : option bool) : Prop :=
  (s_lock s = Exclusive c → o = Some false) ∧ (c ∈ sharers s → o = Some true ∧ lock_forced w = true).

Definition stack_ok (c : nat) s w k ups : Prop :=
  lock_count w = depth k ∧ (∀ b, ctx k = Some b → lock_current_shared w = Some b) ∧
  (clean c → fits c s w (ctx k)) ∧ (ctx k = Some false → owned c s w ups).

Definition counted (c : nat) s w : Prop :=
  (write_count w <= writes c s)%nat ∧ (clean c → write_count w = writes c s).

Definition proc_ok (c : nat) s p : Prop :=
  counted c s (p_writer p) ∧
  match p_control p with
  | Run k | Raising k => wf_stack k = true ∧ stack_ok c s (p_writer p) k (p_updates p)
  | Polling shared body k =>
      wf_stack (FBody body :: FWith shared :: k) = true ∧
      lock_count (p_writer p) = depth k + 1 ∧
      lock_current_shared (p_writer p) = ctx (FWith shared :: k) ∧
      ctx k ≠ Some false ∧ (shared = true → lock_forced (p_writer p) = true) ∧
      (clean c → s_lock s ≠ Exclusive c ∧ c ∉ sharers s)
  end.

(** What a step of [c] leaves of the others *)
Record leaves (c : nat) s s' : Prop := {
  lv_exclusive : ∀ c', c' ≠ c → s_lock s' = Exclusive c' ↔ s_lock s = Exclusive c';
  lv_shared : ∀ c', c' ≠ c → c' ∈ sharers s' ↔ c' ∈ sharers s;
  lv_config : ∀ c', c' ≠ c → s_lock s = Exclusive c' → s_config s' = s_config s;
  lv_log : ∀ c', c' ≠ c → writes c' s' = writes c' s
}.

Lemma leaves_refl c s : leaves c s s.
Proof. by constructor. Qed.

Lemma leaves_proc c c' s s' p : leaves c s s' → c' ≠ c → proc_ok c' s p → proc_ok c' s' p.
Proof.
  intros [Hx Hs Hc Hl] Hne. unfold proc_ok, counted, stack_ok, fits, owned. rewrite Hl by done. intros [Hcnt H].
  split; [done|]. destruct (p_control p) as [k|k|shared body k].
  3: { rewrite Hs by done. setoid_rewrite (Hx c' Hne). done. }
  all: destruct H as (Hwf & Hn & Hsh & Hf & Ho); split; [done|]; split_and!; try done;
    [rewrite (Hx c'), (Hs c') by done; done|];
    rewrite (Hx c') by done;
    intros Hk; destruct (Ho Hk) as [Hlk Hd]; rewrite (Hc c') by done; done.
Qed.

(** ** The daemon *)

(** For a change of the owners only *)
Lemma leaves_lock c s l :
  (∀ c', c' ≠ c → l = Exclusive c' ↔ s_lock s = Exclusive c') →
  (∀ c', c' ≠ c → c' ∈ (match l with Sharers cs => cs | Exclusive _ => ∅ end) ↔ c' ∈ sharers s) →
  leaves c s (Daemon l (s_config s) (s_log s)).
Proof. by constructor. Qed.

Lemma unlock_spec c s :
  leaves c s (unlockConfig c s) ∧ s_lock (unlockConfig c s) ≠ Exclusive c ∧ c ∉ sharers (unlockConfig c s).
Proof.
  unfold unlockConfig. destruct (s_lock s) as [c'|cs] eqn:E; [destruct (decide (c' = c)) as [->|Hc]|].
  - split_and!; [apply leaves_lock; unfold sharers; rewrite E|done|apply not_elem_of_empty].
    + intros c' Hc. split; congruence.
    + done.
  - split_and!; [apply leaves_lock; unfold sharers; rewrite E; done|simpl; congruence|apply not_elem_of_empty].
  - split_and!; [apply leaves_lock; unfold sharers; rewrite E|done|unfold sharers; simpl; set_solver].
    + done.
    + intros c' Hc. set_solver.
Qed.

Lemma lock_spec c shared s :
  let s' := (lockConfig c shared s).2 in
  s_config s' = s_config s ∧ s_log s' = s_log s ∧ leaves c s s' ∧
  ∀ d, (lockConfig c shared s).1 = Some d →
    d = s_config s ∧
    (if shared then s_lock s ≠ Exclusive c → s_lock s' ≠ Exclusive c ∧ c ∈ sharers s'
     else s_lock s' = Exclusive c ∧ c ∉ sharers s').
Proof.
  unfold lockConfig, holds_shared, holds_exclusive, try_lock, sharers.
  destruct (s_lock s) as [c'|cs] eqn:E; cbn [negb].
  - destruct (decide (c' = c)) as [->|Hc].
    + rewrite bool_decide_true by done. destruct shared; cbn; rewrite E;
        (split_and!; [done|done|apply leaves_refl|]); intros d [= <-]; split; try done.
    + rewrite bool_decide_false by done. destruct shared; cbn; split_and!; try done; apply leaves_refl.
  - destruct shared; [case_bool_decide as Hin|case_decide as Ec]; cbn.
    + rewrite E. split_and!; [done|done|apply leaves_refl|]. by intros d [= <-].
    + split_and!; [done|done| |].
      * apply leaves_lock; unfold sharers; rewrite E; [done|]. intros c' Hc'. set_solver.
      * intros d [= <-]. split; [done|]. intros _. split; [done|]. set_solver.
    + split_and!; [done|done| |].
      * apply leaves_lock; unfold sharers; rewrite E; [intros c' Hc; split; congruence|].
        intros c' Hc. split; [by intros ?%not_elem_of_empty|]. intros Hin.
        assert (c' ∈ cs ∖ {[c]}) as Hd by set_solver. rewrite Ec in Hd. by apply not_elem_of_empty in Hd.
      * intros d [= <-]. split; [done|]. split; [done|apply not_elem_of_empty].
    + split_and!; try done.
Qed.

Lemma write_spec c ups d s :
  s_lock s = Exclusive c →
  let s' := (writeConfigAndUnlock c ups d s).2 in
  leaves c s s' ∧ s_lock s' ≠ Exclusive c ∧ c ∉ sharers s' ∧ writes c s' = S (writes c s) ∧
  s_log s' = s_log s ++ [Write c ups d] ∧ s_config s' = d.
Proof.
  intros E. unfold writeConfigAndUnlock, holds_exclusive. rewrite E, bool_decide_true by done. simpl.
  unfold unlockConfig, sharers, writes. simpl. rewrite decide_True by done. simpl.
  split_and!; try done.
  - constructor; unfold sharers, writes; simpl; rewrite ?E; try done; try (intros; split; congruence).
    { congruence. }
    intros c' Hc'. rewrite List.filter_app. simpl. rewrite (proj2 (Nat.eqb_neq c c')) by done. by rewrite app_nil_r.
  - rewrite List.filter_app, length_app. simpl. rewrite Nat.eqb_refl. simpl. lia.
Qed.

(** Nobody polls for ever: when no other process has the lock, it is given. *)
Lemma lock_free c shared s :
  (∀ c', s_lock s ≠ Exclusive c' ∧ c' ∉ sharers s) → is_Some (lockConfig c shared s).1.
Proof.
  intros H. unfold lockConfig, holds_shared, holds_exclusive, try_lock, sharers in *.
  destruct (s_lock s) as [c'|cs]; [by destruct (H c')|].
  destruct shared; [case_bool_decide; eauto|]. rewrite decide_True; [eauto|].
  apply leibniz_equiv. intros c'. destruct (H c') as [_ Hc']. set_solver.
Qed.

(** ** Closing *)

(** A process without blocks, after its last one *)
Lemma closed_ok c s w k ups :
  ctx k = None → lock_count w = depth k →
  (clean c → s_lock s ≠ Exclusive c ∧ c ∉ sharers s) → stack_ok c s w k ups.
Proof.
  intros Hk Hn Hcl. unfold stack_ok, fits. rewrite Hk. split_and!; try done.
  intros Hc. destruct (Hcl Hc) as [Hx Hs]. done.
Qed.

Lemma close_ok a c sh k ups save w s raised w' s' d :
  (clean c → a = Served) →
  lock_count w = depth k + 1 → lock_current_shared w = ctx (FWith sh :: k) →
  (clean c → fits c s w (ctx (FWith sh :: k))) → (ctx k = Some false ∨ save = true → owned c s w ups) →
  (save = true → sh = false) → counted c s w → chain d (s_log s) (s_config s) →
  CloseConfig a c ups save w s = (raised, w', s') →
  (raised = true → ctx k = None ∧ ¬ clean c) ∧ stack_ok c s' w' k ups ∧ counted c s' w' ∧
  chain d (s_log s') (s_config s') ∧ leaves c s s'.
Proof.
  intros Ha Hn Hsh Hf Ho Hsave [Hw1 Hw2] Hch. unfold CloseConfig. cbn [AddLockCount lock_count].
  rewrite Hn. pose proof (depth_nonneg k) as Hd. destruct (Z.ltb_spec 0 (depth k + 1 + -1)) as [Hlt|Hle].
  { intros [= <- <- <-]. split; [done|]. split; [|by split_and!; [| |apply leaves_refl]].
    unfold stack_ok. simpl. assert (ctx k ≠ None) by (rewrite <-depth_ctx; lia).
    destruct (ctx k) as [b|] eqn:Eb; [|done]. simpl in *. rewrite Eb in *. simpl in *.
    split_and!; [lia|by intros b' [= <-]|done|]. intros E. apply Ho. by left. }
  assert (ctx k = None) as Hk by (apply depth_ctx; lia). simpl in *. rewrite Hk in *. simpl in *.
  assert (lock_count w - 1 = depth k) as Hn' by lia.
  destruct save.
  - destruct Ho as [Hl (d0 & Hload & ->)]; [by right|].
    destruct (write_spec c ups (apply_updates ups d0) s Hl) as (Hlv & Hx & Hs & Hwr & Hlog & Hcfg).
    assert (chain d (s_log (writeConfigAndUnlock c ups (apply_updates ups d0) s).2)
      (s_config (writeConfigAndUnlock c ups (apply_updates ups d0) s).2)) as Hch'.
    { rewrite Hlog, Hcfg. by apply (chain_snoc _ _ (s_config s)). }
    destruct a; intros [= <- <- <-]; (split; [done || (intros _; split; [done|]; by intros ?%Ha)|]).
    + split; [by apply closed_ok|]. split_and!; [|done|done]. unfold counted. rewrite Hwr. simpl. split; [lia|].
      intros Hc. by rewrite (Hw2 Hc).
    + split; [apply closed_ok; [done|simpl; lia|]; by intros ?%Ha|]. by split_and!; [..|apply leaves_refl].
    + split; [by apply closed_ok|]. split_and!; [|done|done]. unfold counted. rewrite Hwr. simpl. split; [lia|].
      by intros ?%Ha.
  - unfold current_shared. simpl. rewrite Hsh. simpl.
    destruct (negb (sh && negb (lock_forced w))) eqn:Eu.
    + destruct (unlock_spec c s) as (Hlv & Hx & Hs).
      assert (counted c (unlockConfig c s) w) as Hcnt by done.
      destruct a; intros [= <- <- <-]; (split; [done || (intros _; split; [done|]; by intros ?%Ha)|]).
      * split; [by apply closed_ok|]. by split_and!.
      * split; [apply closed_ok; [done|simpl; lia|]; by intros ?%Ha|]. by split_and!; [..|apply leaves_refl].
      * split; [by apply closed_ok|]. by split_and!.
    + apply negb_false_iff, andb_true_iff in Eu as [-> Eu]. apply negb_true_iff in Eu.
      intros [= <- <- <-]. split; [done|]. split; [|by split_and!; [..|apply leaves_refl]].
      apply closed_ok; [done|simpl; lia|]. intros Hc. destruct (Hf Hc) as [Hf1 Hf2]. rewrite Eu in Hf2.
      split; [by intros ?%Hf1|by intros [_ ?]%Hf2].
Qed.

(** ** Opening *)

Definition good (c : nat) (d : D) s p : Prop := proc_ok c s p ∧ chain d (s_log s) (s_config s).

Lemma enter_failed_ok a c sh k w s p' s' d :
  (clean c → a = Served) →
  wf_stack k = true → ctx k ≠ Some false → lock_count w = depth k + 1 →
  lock_current_shared w = ctx (FWith sh :: k) → (clean c → fits c s w (ctx (FWith sh :: k))) →
  counted c s w → chain d (s_log s) (s_config s) →
  enter_failed a c w k s = (p', s') → good c d s' p' ∧ leaves c s s'.
Proof.
  intros Ha Hwf Hk Hn Hsh Hf Hw Hch. unfold enter_failed.
  destruct (CloseConfig a c [] false w s) as [[raised w'] s1] eqn:E. intros [= <- <-].
  destruct (close_ok a c sh k [] false w s raised w' s1 d) as (_ & Hst & Hwc & Hch' & Hlv); try done.
  by intros [?|?].
Qed.

(** The data arrived; for an exclusive block it came with the lock. *)
Lemma entered_ok a c sh body k w s p' s' d :
  (clean c → a = Served) →
  wf_stack (FBody body :: FWith sh :: k) = true → ctx k ≠ Some false → lock_count w = depth k + 1 →
  lock_current_shared w = ctx (FWith sh :: k) → (clean c → fits c s w (ctx (FWith sh :: k))) →
  (ctx (FWith sh :: k) = Some false → s_lock s = Exclusive c) →
  counted c s w → chain d (s_log s) (s_config s) →
  entered load a c (s_config s) sh body k w s = (p', s') → good c d s' p' ∧ leaves c s s'.
Proof.
  intros Ha Hwf Hk Hn Hsh Hf Hx Hw Hch. unfold entered, received.
  assert (∀ w1, lock_count w1 = lock_count w → lock_current_shared w1 = lock_current_shared w →
    lock_forced w1 = lock_forced w → write_count w1 = write_count w →
    enter_failed a c w1 k s = (p', s') → good c d s' p' ∧ leaves c s s') as Hfail.
  { intros w1 E1 E2 E3 E4. apply enter_failed_ok with (sh := sh); try done; try congruence.
    - simpl in Hwf. by repeat (apply andb_true_iff in Hwf as [? Hwf]).
    - unfold fits. by rewrite E3.
    - unfold counted. by rewrite E4. }
  destruct (load (s_config s)) as [d0|e [d0|]] eqn:El; [|by apply (Hfail (SetConfigData (Some d0) w))|by apply (Hfail w)].
  intros [= <- <-]. split; [|apply leaves_refl]. split; [|done]. split; [done|]. split; [done|].
  unfold stack_ok. cbn [depth ctx] in *. split; [done|]. split; [by intros b [= <-]|].
  split; [exact Hf|]. intros E. split; [by apply Hx|]. by exists d0.
Qed.

(** What [_OpenConfig] leaves, by what it goes on with *)
Definition opening_ok (c : nat) s ups (sh : bool) k w (o : opening) : Prop :=
  let k' := FWith sh :: k in
  lock_count w = depth k' ∧ lock_current_shared w = ctx k' ∧
  match o with
  | Opened => (clean c → fits c s w (ctx k')) ∧ (ctx k' = Some false → owned c s w ups)
  | OpenRaises => False
  | ReadConfig | LockConfig =>
      ctx k ≠ Some false ∧ (clean c → s_lock s ≠ Exclusive c ∧ c ∉ sharers s) ∧
      match o with ReadConfig => sh = true | _ => sh = true → lock_forced w = true end
  end.

Lemma open_ok c sh fo body k w s ups :
  stack_ok c s w k ups → disciplined (ctx k) (With sh fo body) = true →
  opening_ok c s ups sh k (OpenConfig sh fo w).1 (OpenConfig sh fo w).2 ∧
  write_count (OpenConfig sh fo w).1 = write_count w.
Proof.
  intros (Hn & Hsh & Hf & Ho) [Hd _]%andb_true_iff. unfold OpenConfig, opening_ok, fits in *.
  cbn [AddLockCount lock_count depth ctx]. rewrite Hn. pose proof (depth_nonneg k).
  destruct (ctx k) as [b|] eqn:Ek.
  - assert (depth k ≠ 0) by (rewrite depth_ctx; congruence).
    destruct (Z.ltb_spec 1 (depth k + 1)); [|lia]. specialize (Hsh b eq_refl).
    unfold current_shared. cbn [lock_current_shared lock_forced AddLockCount]. rewrite Hsh. cbn [default].
    destruct b; [subst sh|apply negb_true_iff in Hd]; cbn [andb negb orb].
    + destruct fo; cbn [negb orb]; [destruct (lock_forced w) eqn:Ef|]; cbn;
        (split; [|done]); split_and!; try done; try lia;
        intros Hc; destruct (Hf Hc) as [Hf1 Hf2]; (split; [by intros ?%Hf1|]);
        first [by intros [_ ?]%Hf2|intros _; by rewrite Ef].
    + assert (negb fo || lock_forced w || negb sh = true) as ->
        by (destruct sh, fo, (lock_forced w); done).
      cbn. split; [|done]. split_and!; try done; lia.
  - assert (depth k = 0) as Hk by by apply depth_ctx. rewrite Hk.
    change (1 <? 0 + 1) with false. cbv iota.
    assert (clean c → s_lock s ≠ Exclusive c ∧ c ∉ sharers s) as Hout.
    { intros Hc. destruct (Hf Hc) as [Hf1 Hf2]. split; [by intros ?%Hf1|by intros [? _]%Hf2]. }
    destruct sh, fo; cbn; [|destruct (config_data w)|..]; (split; [|done]); split_and!; try done; try lia.
    intros Hc. destruct (Hout Hc). done.
Qed.

(** ** Steps *)

Lemma wf_body l k : wf_stack (FBody l :: k) = forallb (disciplined (ctx k)) l && wf_stack k.
Proof. done. Qed.

Lemma close_step a c d s p (sh save : bool) k raised w' s' :
  (clean c → a = Served) →
  good c d s p → (p_control p = Run (FWith sh :: k) ∨ p_control p = Raising (FWith sh :: k)) →
  (save = true → sh = false) →
  CloseConfig a c (p_updates p) save (p_writer p) s = (raised, w', s') →
  (∀ ctl, ctl = Run ∨ ctl = Raising → good c d s' (Process w' (ctl k) (p_updates p))) ∧ leaves c s s'.
Proof.
  intros Ha [[Hw Hp] Hch] Hc Hs E.
  assert (wf_stack (FWith sh :: k) = true ∧ stack_ok c s (p_writer p) (FWith sh :: k) (p_updates p))
    as (Hwf & Hn & Hsh & Hf & Ho) by (by destruct Hc as [Hc|Hc]; rewrite Hc in Hp).
  apply andb_true_iff in Hwf as [Hwf1 Hwf]. cbn [ctx] in Hsh, Ho.
  destruct (close_ok a c sh k (p_updates p) save (p_writer p) s raised w' s' d) as (_ & Hst & Hwc & Hch' & Hlv);
    try done.
  - by apply Hsh.
  - intros [Hk|Hk]; apply Ho; [by rewrite Hk|]. rewrite (Hs Hk) in Hwf1 |- *.
    by destruct (ctx k) as [[]|].
  - split; [|done]. intros ctl [-> | ->]; by split.
Qed.

(** A step within the process: the daemon stays, the writer at most changes its
    data outside of exclusive blocks. *)
Lemma plain_step c d s p w k k' ups ctl ctl' :
  good c d s p → ctl = Run ∨ ctl = Raising → ctl' = Run ∨ ctl' = Raising → p_control p = ctl k →
  wf_stack k' = true → ctx k' = ctx k → depth k' = depth k →
  lock_count w = lock_count (p_writer p) → lock_current_shared w = lock_current_shared (p_writer p) →
  lock_forced w = lock_forced (p_writer p) → write_count w = write_count (p_writer p) →
  (owned c s (p_writer p) (p_updates p) → ctx k = Some false → owned c s w ups) →
  good c d s (Process w (ctl' k') ups) ∧ leaves c s s.
Proof.
  intros [[Hw Hp] Hch] Hctl Hctl' Hc Hwf Ek Ed E1 E2 E3 E4 Ho'.
  assert (stack_ok c s (p_writer p) k (p_updates p)) as (Hn & Hsh & Hf & Ho)
    by (destruct Hctl as [-> | ->]; rewrite Hc in Hp; apply Hp).
  split; [|apply leaves_refl]. split; [|done]. split; [unfold counted in *; cbn [p_writer]; by rewrite E4|].
  assert (stack_ok c s w k' ups) as Hst.
  { unfold stack_ok, fits in *. rewrite Ek, Ed, E1, E2, E3. split_and!; try done. auto. }
  by destruct Hctl' as [-> | ->].
Qed.

Lemma with_step ao ac c d s p sh fo body l k p' s' :
  (clean c → ac = Served) →
  good c d s p → p_control p = Run (FBody (With sh fo body :: l) :: k) →
  step load ao ac c p s = Some (p', s') → good c d s' p' ∧ leaves c s s'.
Proof.
  intros Ha [[Hw Hp] Hch] Hc. rewrite Hc in Hp. destruct Hp as [Hwf Hst].
  unfold step. rewrite Hc. rewrite wf_body in Hwf. cbn [forallb] in Hwf.
  apply andb_true_iff in Hwf as [[Hdi Hl]%andb_true_iff Hwf].
  pose proof (open_ok c sh fo body (FBody l :: k) (p_writer p) s (p_updates p) Hst Hdi) as [Hopen Hwc].
  destruct (OpenConfig sh fo (p_writer p)) as [w o]. cbn [fst snd] in *.
  assert (counted c s w) as Hcnt by (unfold counted in *; by rewrite Hwc).
  destruct Hopen as (Hn & Hsh & Ho).
  assert (wf_stack (FBody body :: FWith sh :: FBody l :: k) = true) as Hwf'.
  { cbn [disciplined] in Hdi. apply andb_true_iff in Hdi as [Hd1 Hd2]. cbn [wf_stack ctx]. rewrite Hd2, Hl, Hwf.
    by destruct (ctx k) as [[]|]; rewrite ?Hd1. }
  destruct o.
  - intros [= <- <-]. split; [|apply leaves_refl]. split; [|done]. split; [done|]. split; [done|].
    destruct Ho as [Hf Ho]. split_and!; try done. intros b' E. cbn [p_writer]. rewrite Hsh. exact E.
  - done.
  - destruct Ho as (Hk & Hx & ->).
    assert (clean c → fits c s w (ctx (FWith true :: FBody l :: k))) as Hfit.
    { intros Hc'. destruct (Hx Hc') as [Hx1 Hx2]. by split. }
    assert (ctx (FWith true :: FBody l :: k) ≠ Some false) as Hns.
    { cbn [ctx] in *. by destruct (ctx k) as [[]|]. }
    destruct ao; intros [= E].
    1: by apply (entered_ok ac c true body (FBody l :: k) w s p' s' d).
    all: apply (enter_failed_ok ac c true (FBody l :: k) w s p' s' d); try done;
      cbn [wf_stack] in *; by rewrite Hl, Hwf.
  - destruct Ho as (Hk & Hx & Hfo). intros [= <- <-]. split; [|apply leaves_refl]. split; [|done].
    split; [done|]. by split_and!.
Qed.

Lemma poll_step ao ac c d s p sh body k p' s' :
  (clean c → ac = Served) →
  good c d s p → p_control p = Polling sh body k →
  step load ao ac c p s = Some (p', s') → good c d s' p' ∧ leaves c s s'.
Proof.
  intros Ha Hg Hc. pose proof Hg as [[Hw Hp] Hch]. rewrite Hc in Hp.
  destruct Hp as (Hwf & Hn & Hsh & Hk & Hfo & Hx). unfold step. rewrite Hc.
  assert (wf_stack k = true) as Hwfk.
  { cbn [wf_stack] in Hwf. by repeat (apply andb_true_iff in Hwf as [? Hwf]). }
  assert (ctx (FWith sh :: k) = Some sh) as Hctx.
  { cbn [wf_stack] in Hwf. apply andb_true_iff in Hwf as [_ [Hwf _]%andb_true_iff].
    cbn [ctx]. revert Hk Hwf. by destruct (ctx k) as [[]|]; [intros _ ->|..]. }
  destruct (lock_spec c sh s) as (Ecfg & Elog & Hlv & Hlk).
  set (s1 := (lockConfig c sh s).2) in *.
  assert (counted c s1 (p_writer p)) as Hcnt by (unfold counted, writes in *; by rewrite Elog).
  assert (chain d (s_log s1) (s_config s1)) as Hch1 by by rewrite Elog, Ecfg.
  assert (∀ s2, leaves c s1 s2 → leaves c s s2) as Htrans.
  { intros s2 Hlv'. destruct Hlv as [A1 A2 A3 A4], Hlv' as [B1 B2 B3 B4]. split; intros c' Hc'.
    { by rewrite B1, A1. } { by rewrite B2, A2. }
    { intros Hl. rewrite (B3 c'), (A3 c'); try done. by apply A1. } { by rewrite B4, A4. } }
  assert (clean c → fits c s1 (p_writer p) (ctx (FWith sh :: k))) as Hfit.
  { intros Hcl. destruct (Hx Hcl) as [Hx1 Hx2]. rewrite Hctx. unfold fits.
    unfold lockConfig in Hlk, s1. destruct (if sh then _ else _) eqn:Eh.
    { unfold s1. cbn. split; [done|]. by intros ?%Hx2. }
    destruct (try_lock c sh (s_lock s)) as [l|].
    2: { unfold s1. cbn. split; [done|]. by intros ?%Hx2. }
    destruct (Hlk _ eq_refl) as [_ Hl]. destruct sh.
    - destruct (Hl Hx1). split; [done|]. auto.
    - destruct Hl as [Hl1 Hl2]. split; [done|]. done. }
  destruct ao.
  - destruct (lockConfig c sh s) as [[d'|] s1'] eqn:El; cbn [fst snd] in *; subst s1; intros [= E].
    + destruct (Hlk d' eq_refl) as [-> Hl]. rewrite <-Ecfg in E.
      destruct (entered_ok ac c sh body k (p_writer p) s1' p' s' d) as [Hg' Hlv']; try done; [|auto].
      rewrite Hctx. intros [= ->]. by destruct Hl.
    + subst p' s'. split; [|done]. unfold lockConfig in El.
      assert (s1' = s) as -> by (destruct (if sh then _ else _); [done|]; destruct (try_lock _ _ _); by injection El).
      done.
  - intros [= E]. apply (enter_failed_ok ac c sh k (p_writer p) s p' s' d); try done.
    intros Hcl. destruct (Hx Hcl) as [Hx1 Hx2]. by split.
  - intros [= E]. destruct (enter_failed_ok ac c sh k (p_writer p) s1 p' s' d) as [Hg' Hlv']; try done. auto.
Qed.

Lemma step_ok ao ac c d s p p' s' :
  (clean c → ac = Served) →
  good c d s p → step load ao ac c p s = Some (p', s') → good c d s' p' ∧ leaves c s s'.
Proof.
  intros Ha Hg. destruct (p_control p) as [k|k|sh body k] eqn:Hc; [| |by eapply poll_step].
  - assert (wf_stack k = true) as Hwf by (destruct Hg as [[_ Hp] _]; rewrite Hc in Hp; apply Hp).
    destruct k as [|[l|sh|] k]; [by unfold step; rewrite Hc| | |].
    + destruct l as [|st l].
      { unfold step. rewrite Hc. intros [= <- <-]. eapply (plain_step c d s p _ _ _ _ Run Run); eauto. }
      rewrite wf_body in Hwf. cbn [forallb] in Hwf. apply andb_true_iff in Hwf as [[Hd Hl]%andb_true_iff Hk].
      assert (wf_stack (FBody l :: k) = true) as Hlk by (rewrite wf_body; by rewrite Hl, Hk).
      destruct st as [f| | |sh fo body|body]; [| | |by eapply with_step|]; unfold step; rewrite Hc.
      * apply bool_decide_eq_true in Hd. destruct (config_data (p_writer p)) as [data|] eqn:Ed; intros [= <- <-].
        -- eapply (plain_step c d s p _ _ _ _ Run Run); eauto. intros (Hx & d0 & Hld & Hda) _.
           split; [done|]. exists d0. split; [done|]. simpl. unfold apply_updates.
           rewrite foldl_snoc. rewrite Ed in Hda. injection Hda as ->. done.
        -- eapply (plain_step c d s p _ _ _ _ Run Raising); eauto.
      * apply bool_decide_eq_true in Hd. intros [= <- <-].
        eapply (plain_step c d s p _ _ _ _ Run Run); eauto. by intros _ ?.
      * intros [= <- <-]. eapply (plain_step c d s p _ _ _ _ Run Raising); eauto.
      * intros [= <- <-]. eapply (plain_step c d s p _ _ _ _ Run Run); eauto.
        cbn [wf_stack ctx] in *. cbn [disciplined] in Hd. by rewrite Hd.
    + unfold step. rewrite Hc. destruct (CloseConfig _ _ _ _ _ _) as [[raised w'] s1] eqn:E. intros [= <- <-].
      destruct (close_step ac c d s p sh (negb sh) k raised w' s1) as (Hg' & Hlv); auto.
      { by destruct sh. } split; [|done]. destruct raised; apply Hg'; auto.
    + unfold step. rewrite Hc. intros [= <- <-]. eapply (plain_step c d s p _ _ _ _ Run Run); eauto.
  - assert (wf_stack k = true) as Hwf by (destruct Hg as [[_ Hp] _]; rewrite Hc in Hp; apply Hp).
    unfold step. rewrite Hc. destruct k as [|[l|sh|] k]; [done| | |].
    + apply andb_true_iff in Hwf as [_ Hwf].
      intros [= <- <-]. eapply (plain_step c d s p _ _ _ _ Raising Raising); eauto.
    + destruct (CloseConfig _ _ _ _ _ _) as [[raised w'] s1] eqn:E. intros [= <- <-].
      destruct (close_step ac c d s p sh false k raised w' s1) as (Hg' & Hlv); auto. done.
    + intros [= <- <-]. eapply (plain_step c d s p _ _ _ _ Raising Run); eauto.
Qed.

(** ** Reachable states *)

Definition world_ok (d : D) (w : world D) : Prop :=
  chain d (s_log (w_daemon w)) (s_config (w_daemon w)) ∧
  (∀ c p, w_procs w !! c = Some p → proc_ok c (w_daemon w) p) ∧
  ∀ c, s_lock (w_daemon w) = Exclusive c ∨ c ∈ sharers (w_daemon w) → is_Some (w_procs w !! c).

Lemma world_step_ok d (w : world D) c ao ac :
  (clean c → ac = Served) → world_ok d w → world_ok d (world_step load w (c, ao, ac)).
Proof.
  intros Ha (Hch & Hp & Hr). unfold world_step. destruct (w_procs w !! c) as [p|] eqn:Ec; [|done].
  destruct (step load ao ac c p (w_daemon w)) as [[p' s']|] eqn:Es; [|done].
  destruct (step_ok ao ac c d (w_daemon w) p p' s') as [[Hp' Hch'] Hlv]; [done|by split; [apply Hp|]|done|].
  split; [done|]. split; simpl.
  - intros c' q. destruct (decide (c' = c)) as [->|Hne].
    + rewrite list_lookup_insert_eq by (by eapply lookup_lt_Some). by intros [= <-].
    + rewrite list_lookup_insert_ne by done. intros Hq. eapply leaves_proc; [done..|]. by apply Hp.
  - intros c'. destruct (decide (c' = c)) as [->|Hne].
    + rewrite list_lookup_insert_eq by (by eapply lookup_lt_Some). eauto.
    + rewrite list_lookup_insert_ne, (lv_exclusive _ _ _ Hlv), (lv_shared _ _ _ Hlv) by done. apply Hr.
Qed.

Definition programs_ok (progs : list (list (stmt D))) : Prop :=
  Forall (λ prog, forallb (disciplined None) prog = true) progs.

Lemma run_ok d progs schedule :
  programs_ok progs → Forall (λ m, clean m.1.1 → m.2 = Served) schedule →
  world_ok d (run load (start d progs) schedule).
Proof.
  intros Hpr Hsched. unfold run. assert (world_ok d (start d progs)) as H0.
  { split; [done|]. simpl. split; [|by intros c [?|?%not_elem_of_empty]]. intros c p (prog & -> & Hc)%list_lookup_fmap_Some_1.
    assert (forallb (disciplined None) prog = true) as Hd by apply (Forall_lookup_1 _ _ _ _ Hpr Hc).
    split; [done|]. cbn [p_control new_process wf_stack ctx]. rewrite Hd. split; [done|].
    by split_and!. }
  revert H0. generalize (start d progs). induction Hsched as [|[[c ao] ac] schedule Hm _ IH]; intros w Hw; [done|].
  simpl. by apply IH, world_step_ok.
Qed.

Definition finished p : Prop := p_control p = Run [] ∨ p_control p = Raising [].
(** In an exclusive block *)
Definition writing p : Prop :=
  match p_control p with Run k | Raising k => ctx k = Some false | Polling _ _ _ => False end.

Lemma finished_free c s p : proc_ok c s p → finished p →
  lock_count (p_writer p) = 0 ∧ (clean c → s_lock s ≠ Exclusive c ∧ c ∉ sharers s).
Proof.
  intros [_ Hp] Hf. assert (stack_ok c s (p_writer p) [] (p_updates p)) as (Hn & _ & Hfit & _).
  { destruct Hf as [E|E]; rewrite E in Hp; apply Hp. }
  split; [done|]. intros Hc. destruct (Hfit Hc) as [Hx Hs]. split; [by intros ?%Hx|by intros [? _]%Hs].
Qed.

Lemma writing_owned c s p : proc_ok c s p → writing p → owned c s (p_writer p) (p_updates p).
Proof.
  intros [_ Hp] Hw. unfold writing in Hw.
  destruct (p_control p) as [k|k|]; [| |done]; destruct Hp as (_ & _ & _ & _ & Ho); by apply Ho.
Qed.
End invariant.

(** No call of the process that writes or unlocks the configuration fails. *)
Definition releases (c : nat) (schedule : list (nat * answer * answer)) : Prop :=
  Forall (λ m, m.1.1 = c → m.2 = Served) schedule.

Lemma releases_clean schedule : Forall (λ m, releases m.1.1 schedule → m.2 = Served) schedule.
Proof. apply Forall_forall. intros m Hm Hr. unfold releases in Hr. rewrite Forall_forall in Hr. by apply Hr. Qed.


Definition active p : bool :=
  match p_control p with Run [] | Raising [] | Polling _ _ _ => false | _ => true end.

Lemma active_or_not (ps : list (process D)) :
  (∃ c p, ps !! c = Some p ∧ active p = true) ∨
  (∀ c p, ps !! c = Some p → finished p ∨ ∃ sh body k, p_control p = Polling sh body k).
Proof.
  destruct (existsb active ps) eqn:E; [left|right].
  - apply existsb_exists in E as (p & Hin & Ha). apply list_elem_of_In, list_elem_of_lookup in Hin as [c Hc]. eauto.
  - intros c p Hc. assert (active p = false) as Ha.
    { destruct (active p) eqn:Ea; [|done]. rewrite (proj2 (existsb_exists active ps)) in E; [done|].
      exists p. split; [|done]. by eapply list_elem_of_In, list_elem_of_lookup_2. }
    unfold active, finished in *. destruct (p_control p) as [[]|[]|]; try done; eauto 10.
Qed.

End lock.

(** ** Examples *)

Module ConfigLockDemo.

Definition add (n : nat) : stmt (list nat) := Update (λ d, d ++ [n]).
Definition sync (body : list (stmt (list nat))) : stmt (list nat) := With false false body.

(** Two writers, the first of which calls a writing method from a block; a third
    process that fails half way *)
Definition progs : list (list (stmt (list nat))) :=
  [[sync [add 1%nat; sync [add 2%nat]; With true false []]];
   [With true false [With true false []]; sync [add 3%nat]];
   [Try [sync [add 4%nat; Throw]]; With true true []]].

(** A step in which the daemon answers *)
Notation go c := (c%nat, Served, Served).

(** All take turns. *)
Definition schedule : list (nat * answer * answer) := concat (replicate 30 [go 0; go 1; go 2]).

Lemma progs_ok : programs_ok progs.
Proof. repeat constructor. Qed.



(** When the call that writes is served but its answer lost, the process gets an
    exception though its changes are stored; when it is not served, the process keeps
    the lock and nobody else can write. *)
Lemma failed_writes :
  let w := run Loaded (start [] [[sync [add 1%nat]]; [sync [add 2%nat]]]) in
  let lost := w (replicate 4 (go 0) ++ [(0%nat, Served, AnswerLost)]) in
  let failed := w (replicate 4 (go 0) ++ (0%nat, Served, NotServed) :: replicate 9 (go 1)) in
  s_config (w_daemon lost) = [1]%nat ∧ (p_control <$> w_procs lost !! 0%nat) = Some (Raising [FBody []]) ∧
  (write_count ∘ p_writer <$> w_procs lost !! 0%nat) = Some 0%nat ∧
  s_config (w_daemon failed) = [] ∧ s_lock (w_daemon failed) = Exclusive 0 ∧
  (p_control <$> w_procs failed !! 1%nat) = Some (Polling false [add 2%nat] [FBody []]).
Proof. vm_compute. done. Qed.

(** The data in memory of a process *)
Definition data_of (c : nat) (w : world (list nat)) : option (list nat) :=
  w_procs w !! c ≫= λ p, config_data (p_writer p).

(** After a failed block its changes are still in memory, and blocks that only
    read see them. *)
Lemma failed_block_visible :
  let w := run Loaded (start [] [[Try [sync [add 1%nat; Throw]]; With true false []]])
             (replicate 9 (go 0)) in
  s_config (w_daemon w) = [] ∧ data_of 0 w = Some [1]%nat ∧
  (p_control <$> w_procs w !! 0%nat) = Some (Run [FBody []; FWith true; FBody []]).
Proof. vm_compute. done. Qed.

(** Asking for the lock exclusively in a shared block raises, and counts the lock
    down twice: later blocks end too early.  The process below makes three changes in
    one block and ends without an error, but only one of the changes is there. *)
Lemma count_underflow :
  let w := run Loaded (start [] [[Try [With true false [sync []]];
                                  sync [add 1%nat; sync [add 2%nat]; add 3%nat]]])
             (replicate 40 (go 0)) in
  s_config (w_daemon w) = [2]%nat ∧
  (write_count ∘ p_writer <$> w_procs w !! 0%nat) = Some 2%nat ∧
  (lock_count ∘ p_writer <$> w_procs w !! 0%nat) = Some (-1) ∧
  (p_control <$> w_procs w !! 0%nat) = Some (Run []).
Proof. vm_compute. done. Qed.

(** A forced shared block inside of an exclusive one loads the configuration
    again, over the changes made so far. *)
Lemma forced_inside_discards :
  let w := run Loaded (start [] [[sync [add 1%nat; With true true []; add 2%nat]]]) (replicate 20 (go 0)) in
  s_config (w_daemon w) = [2]%nat ∧ (p_control <$> w_procs w !! 0%nat) = Some (Run []).
Proof. vm_compute. done. Qed.
End ConfigLockDemo.
