(* ===== verification/ConfigVerify.v ===== *)
(** * Verification of the configuration

    [_UnlockedVerifyConfig] (config/__init__.py) with the helpers of
    config/verify.py.  A message is a constructor with what it is about; the
    checks of the configuration daemon come first and are an argument. *)

From Stdlib Require Import QArith.
From S2P Require Import Prelude Errors PySort PyStr PyVal Json Text Algo PyDict Params Disk Config.
#[local] Open Scope list_scope.
#[local] Open Scope stdpp_scope.
#[local] Open Scope Z_scope.
#[local] Open Scope py_scope.

Inductive verify_msg :=
| Wconfd (msg : str)
| InvalidType (owner attr : str)
| InvalidNic (owner : str)
| InvalidIpolicy (owner : str)
| IpolicyNotList (owner key : str)
| InvalidAccess (disk_template : str)
| DiskMode (disk_uuid : str)
| DiskIndex (disk_uuid : str)
| InstanceIndex (inst_uuid : str)
| PrimaryNode (inst_name node_uuid : str)
| SecondaryNode (inst_name node_uuid : str)
| DuplicateMac (inst_name : str) (idx : nat) (mac : str)
| MissingDisk (inst_name disk_uuid : str)
| DiskNames (inst_name : str)
| DuplicatePort (port : Z)
| HighestPort (port : Z)
| MasterNotCandidate
| NotEnoughCandidates (mc_now mc_max : Z)
| NodeIndex (node_uuid : str)
| NodeState (node_name : str)
| NodeGroupMissing (node_name : str)
| NodeGlobals (node_name : str)
| GroupIndex (group_uuid : str)
| GroupUuidName (group_name : str)
| DuplicateGroup (group_name : str)
| DuplicateIp (ip : str).

(** Messages of a part; nothing else is passed on. *)
Definition check (b : bool) (m : verify_msg) : list verify_msg := if b then [] else [m].

Section verify.
  Context `{FloatText}.
  (** Generated constants: the types of the parameters *)
  Context (BES_PARAMETER_TYPES NICS_PARAMETER_TYPES NDS_PARAMETER_TYPES : dict vtype).
  (** [str(v)] of a NIC's link that is no string *)
  Context (show : obj → str).

(** ** verify.py *)

Definition VerifyType (owner attr : str) (value : pdict) (template : dict vtype) : exc (list verify_msg) :=
  match (ForceDictType value template []).1 with
  | Ok _ => Ok []
  | Raise e => if isinstance_exn e GenericError then Ok [InvalidType owner attr] else Raise e
  end.

Definition VerifyNic (owner : str) (params : pdict) : exc (list verify_msg) :=
  match NIC_CheckParameterSyntax params with
  | Ok _ => Ok []
  | Raise e => if isinstance_exn e ConfigurationError then Ok [InvalidNic owner] else Raise e
  end.

Definition ISPECS_PARAMETER_TYPES : dict vtype := (λ k, (k, VTInt)) <$> ISPECS_PARAMETERS.

Definition verify_spec (owner attr : str) (spec : dict Z) : exc (list verify_msg) :=
  VerifyType owner attr (dmap OInt spec) ISPECS_PARAMETER_TYPES.

Definition VerifyIspecs (owner parentkey : str) (params : dict (dict Z)) : exc (list verify_msg) :=
  rmap mjoin (rmapM (λ '(key, value), verify_spec owner (parentkey ++ lit "/" ++ key) value) params).

(** The keys are visited in the order of the record; the check of the type is
    under the branch of the lists only. *)
Definition VerifyIpolicy (owner : str) (p : ipolicy) (iscluster : bool) : exc (list verify_msg) :=
  let* syntax := match CheckParameterSyntax p iscluster with
                 | Ok _ => Ok []
                 | Raise e => if isinstance_exn e ConfigurationError then Ok [InvalidIpolicy owner] else Raise e
                 end in
  let* minmax := rmap mjoin (rmapM (λ '(i, val),
                   VerifyIspecs owner (lit "ipolicy/minmax[" ++ dec (N.of_nat i) ++ lit "]") val)
                   (imap pair (default [] (ip_minmax p)))) in
  let* std := match ip_std p with
              | Some std => verify_spec owner (lit "ipolicy/std") std
              | None => Ok []
              end in
  Ok (syntax ++ minmax ++ std ++
      mjoin ((λ '(k, v), check (match v with OList _ => true | _ => false end) (IpolicyNotList owner k)) <$>
               ip_other p)).

(** ** The cluster and the disks *)

Definition DTS_HAVE_ACCESS : list str := [DT_RBD; DT_GLUSTER; DT_EXT].
Definition LDP_ACCESS : str := lit "access".
Definition DISK_KERNELSPACE : str := lit "kernelspace".
Definition DISK_VALID_ACCESS_MODES : list str := [lit "userspace"; DISK_KERNELSPACE].

Definition VerifyAccess (disk_template : str) (params : pdict) : exc (list verify_msg) :=
  if decide (disk_template ∈ DTS_HAVE_ACCESS) then
    let access := default (OStr DISK_KERNELSPACE) (dget LDP_ACCESS params) in
    if hashes access
    then Ok (check (existsb (λ m, py_eq access (OStr m)) DISK_VALID_ACCESS_MODES) (InvalidAccess disk_template))
    else Raise Type_error
  else Ok [].

Definition VerifyCluster (c : cluster) : exc (list verify_msg) :=
  let owner := lit "cluster" in
  let p := c_params c in
  let* be := VerifyType owner (lit "beparams") (SimpleFillBE p []) BES_PARAMETER_TYPES in
  let* nt := VerifyType owner (lit "nicparams") (SimpleFillNIC p []) NICS_PARAMETER_TYPES in
  let* nc := VerifyNic owner (SimpleFillNIC p []) in
  let* nd := VerifyType owner (lit "ndparams") (SimpleFillND p []) NDS_PARAMETER_TYPES in
  let* ip := VerifyIpolicy owner (c_ipolicy c) true in
  let* ac := rmap mjoin (rmapM (λ '(t, params), VerifyAccess t params) (diskparams p)) in
  Ok (be ++ nt ++ nc ++ nd ++ ip ++ ac).

Definition VerifyDisks (disks : dict disk) : list verify_msg :=
  mjoin ((λ '(u, x), check (Disk_Verify x) (DiskMode (default [] (d_uuid x))) ++
                     check (bool_decide (d_uuid x = Some u)) (DiskIndex u)) <$> disks).

(** ** Instances *)

(** [_CheckInstanceDiskIvNames]: the disks with a wrong name *)
Definition CheckInstanceDiskIvNames (disks : list disk) : list (nat * str * option str) :=
  List.filter (λ p, negb (bool_decide (p.2 = Some p.1.2)))
    (imap (λ idx x, (idx, lit "disk/" ++ dec (N.of_nat idx), d_iv_name x)) disks).

(** The NICs of an instance; the addresses seen before and with them *)
Fixpoint verify_nics (c : cluster_params) (name : str) (idx : nat) (nics : list nic) (seen_macs : list str)
    : exc (list verify_msg * list str) :=
  match nics with
  | [] => Ok ([], seen_macs)
  | n :: nics =>
      let dup := bool_decide (nic_mac n ∈ seen_macs) in
      let seen_macs := if dup then seen_macs else seen_macs ++ [nic_mac n] in
      let* params := match nic_params n with
                     | [] => Ok []
                     | _ =>
                         let filled := SimpleFillNIC c (nic_params n) in
                         let owner := lit "instance " ++ name ++ lit " nic " ++ dec (N.of_nat idx) in
                         let* t := VerifyType owner (lit "nicparams") filled NICS_PARAMETER_TYPES in
                         let* s := VerifyNic owner filled in
                         Ok (t ++ s)
                     end in
      let* '(rest, seen_macs) := verify_nics c name (S idx) nics seen_macs in
      Ok (check (negb dup) (DuplicateMac name idx (nic_mac n)) ++ params ++ rest, seen_macs)
  end.

(** The TCP ports of an instance: of its DRBD disks and its own *)
Definition instance_ports (inst : instance) (disks : list disk) : exc (list Z) :=
  let* drbd := rmapM (λ x, if is_drbd x then rmap (λ p, [p]) (lid_port (d_logical_id x)) else Ok []) disks in
  Ok (mjoin drbd ++ option_list (i_network_port inst)).

(** One instance: messages, addresses seen, ports used *)
Definition VerifyInstance (d : config_data) (key : str) (inst : instance) (seen_macs : list str)
    : exc (list verify_msg * list str * list Z) :=
  let c := c_params (cd_cluster d) in
  let uuid := default [] (i_uuid inst) in
  let* secondary := GetInstanceSecondaryNodes d uuid in
  let* '(nics, seen_macs) := verify_nics c (i_name inst) 0 (i_nics inst) seen_macs in
  let* be := match i_beparams inst with
             | [] => Ok []
             | _ => VerifyType (lit "instance " ++ i_name inst) (lit "beparams")
                      (SimpleFillBE c (i_beparams inst)) BES_PARAMETER_TYPES
             end in
  let* disks := GetInstanceDisks d uuid in
  let* disks := rmapM (attr id) disks in
  let* ports := instance_ports inst disks in
  Ok (check (bool_decide (i_uuid inst = Some key)) (InstanceIndex key) ++
      check (dhas (i_primary_node inst) (cd_nodes d)) (PrimaryNode (i_name inst) (i_primary_node inst)) ++
      mjoin ((λ n, check (dhas n (cd_nodes d)) (SecondaryNode (i_name inst) n)) <$> secondary) ++
      nics ++ be ++
      mjoin ((λ u, check (dhas u (cd_disks d)) (MissingDisk (i_name inst) u)) <$> i_disks inst) ++
      check (match CheckInstanceDiskIvNames disks with [] => true | _ => false end) (DiskNames (i_name inst)),
      seen_macs, ports).

Fixpoint VerifyInstances (d : config_data) (insts : dict instance) (seen_macs : list str)
    : exc (list verify_msg * list Z) :=
  match insts with
  | [] => Ok ([], [])
  | (key, inst) :: insts =>
      let* '(msgs, seen_macs, ports) := VerifyInstance d key inst seen_macs in
      let* '(msgs', ports') := VerifyInstances d insts seen_macs in
      Ok (msgs ++ msgs', ports ++ ports')
  end.

(** ** Ports *)

(** The ports in order, each once, and how often each is used *)
Definition VerifyPorts (c : cluster) (used : list Z) : list verify_msg :=
  let ports := used ++ c_tcpudp_port_pool c in
  let keys := py_sorted Z.ltb (remove_dups ports) in
  mjoin ((λ p, check (length (List.filter (Z.eqb p) ports) <=? 1)%nat (DuplicatePort p)) <$> keys) ++
  match last keys with
  | Some p => check (p <=? c_highest_used_port c) (HighestPort p)
  | None => []
  end.

(** ** Nodes and groups *)

Definition VerifyNode (d : config_data) (key : str) (n : node) : exc (list verify_msg) :=
  let* group :=
    match n_group n ≫= λ g, dget g (cd_nodegroups d) with
    | None => Ok [NodeGroupMissing (n_name n)]
    | Some g => VerifyType (lit "node " ++ n_name n) (lit "ndparams")
                  (FillND (c_params (cd_cluster d)) (n_ndparams n) (g_ndparams g)) NDS_PARAMETER_TYPES
    end in
  Ok (check (bool_decide (n_uuid n = Some key)) (NodeIndex key) ++
      check (length (List.filter id [n_master_candidate n; n_drained n; n_offline n]) <=? 1)%nat
        (NodeState (n_name n)) ++
      group ++
      check (negb (existsb (λ k, dhas k (n_ndparams n)) NDC_GLOBALS)) (NodeGlobals (n_name n))).

Definition is_hex (a : ascii) : bool := is_digit a || (char_in (lit "abcdef") a).

(** [UUID_RE.match(s)] *)
Definition uuid_like (s : str) : bool :=
  let part n s := forallb is_hex (take n s) && (length (take n s) =? n)%nat in
  let dash s := bool_decide (head s = Some "-"%char) in
  part 8%nat s && dash (drop 8 s) && part 4%nat (drop 9 s) && dash (drop 13 s) &&
  part 4%nat (drop 14 s) && dash (drop 18 s) && part 4%nat (drop 19 s) && dash (drop 23 s) &&
  part 12%nat (drop 24 s) && dollar (drop 36 s).

Fixpoint VerifyGroups (c : cluster) (groups : dict node_group) (names : list str) : exc (list verify_msg) :=
  match groups with
  | [] => Ok []
  | (key, g) :: groups =>
      let group_name := lit "group " ++ g_name g in
      let* filled := FillIPolicy (c_ipolicy c) (g_ipolicy g) in
      let* ip := VerifyIpolicy group_name filled false in
      let* nd := match g_ndparams g with
                 | [] => Ok []
                 | _ => VerifyType group_name (lit "ndparams") (SimpleFillND (c_params c) (g_ndparams g))
                          NDS_PARAMETER_TYPES
                 end in
      let* rest := VerifyGroups c groups (g_name g :: names) in
      Ok (check (bool_decide (g_uuid g = Some key)) (GroupIndex key) ++
          check (negb (uuid_like (lower (g_name g)))) (GroupUuidName (g_name g)) ++
          check (bool_decide (g_name g ∉ names)) (DuplicateGroup (g_name g)) ++
          ip ++ nd ++ rest)
  end.

(** ** IP addresses *)

Definition text_of (v : obj) : str := match v with OStr s => s | _ => show v end.

(** The key of a NIC's address: its link, the address and the network *)
Definition nic_ip_key (default_nicparams : pdict) (n : nic) : exc (list str) :=
  match nic_ip n with
  | None => Ok []
  | Some ip =>
      let nicparams := FillDict default_nicparams (nic_params n) [] in
      match dget NIC_MODE nicparams, dget NIC_LINK nicparams with
      | Some mode, Some link =>
          let key prefix :=
            Ok [prefix ++ text_of link ++ lit "/" ++ ip ++ lit "/" ++ default (lit "None") (nic_network n)] in
          if py_eq mode (OStr NIC_MODE_BRIDGED) then key (lit "bridge:")
          else if py_eq mode (OStr NIC_MODE_ROUTED) then key (lit "route:")
          else if py_eq mode (OStr NIC_MODE_OVS) then key (lit "ovs:")
          else Raise (GntExn ProgrammerError [])
      | _, _ => Raise Key_error
      end
  end.

Definition node_ips (n : node) : list str :=
  n_primary_ip n :: (if decide (n_secondary_ip n = n_primary_ip n) then [] else [n_secondary_ip n]).

(** Every address that is in use, once for each owner *)
Definition AllIps (d : config_data) : exc (list str) :=
  match dget PP_DEFAULT (nicparams (c_params (cd_cluster d))) with
  | None => Raise Key_error
  | Some default_nicparams =>
      let* nics := rmapM (nic_ip_key default_nicparams) (AllNICs d) in
      Ok (c_master_ip (cd_cluster d) :: mjoin (node_ips <$> dvalues (cd_nodes d)) ++ mjoin nics)
  end.

Definition VerifyIps (ips : list str) : list verify_msg :=
  mjoin ((λ ip, check (length (List.filter (λ x, bool_decide (x = ip)) ips) <=? 1)%nat (DuplicateIp ip)) <$>
           remove_dups ips).

(** ** The whole *)

Definition VerifyConfig (wconfd : list str) (d : config_data) : exc (list verify_msg) :=
  let c := cd_cluster d in
  let* cluster := VerifyCluster c in
  let* '(insts, used) := VerifyInstances d (cd_instances d) [] in
  let* master := match dget (c_master_node c) (cd_nodes d) with
                 | None => Raise Key_error
                 | Some n => Ok (check (n_master_candidate n) MasterNotCandidate)
                 end in
  let '(mc_now, mc_max, _) := GetMasterCandidateStats d [] in
  let* nodes := rmapM (λ '(k, n), VerifyNode d k n) (cd_nodes d) in
  let* groups := VerifyGroups c (cd_nodegroups d) [] in
  let* ips := AllIps d in
  Ok ((Wconfd <$> wconfd) ++ cluster ++ VerifyDisks (cd_disks d) ++ insts ++ VerifyPorts c used ++
      master ++ check (mc_max <=? mc_now) (NotEnoughCandidates mc_now mc_max) ++
      mjoin nodes ++ groups ++ VerifyIps ips).
End verify.
