(* ===== verification/ConfigVerifyProps.v ===== *)
(** * What the verification of the configuration verifies

    [VerifyConfig] finds nothing exactly when the configuration is consistent, as
    [consistent] says without any loop or accumulated state. *)

From Stdlib Require Import QArith Sorted.
From S2P Require Import Ht.
From S2P Require Import Prelude Errors PySort PyStr PyVal Json Text Algo PyDict Params ParamsProps Disk.
From S2P Require Import Config ConfigVerify.
#[local] Open Scope list_scope.
#[local] Open Scope stdpp_scope.
#[local] Open Scope Z_scope.
#[local] Open Scope py_scope.

(** ** No messages *)

Lemma check_nil b m : check b m = [] ↔ b = true.
Proof. by destruct b. Qed.

Lemma mjoin_nil {A B} (f : A → list B) l : mjoin (f <$> l) = [] ↔ Forall (λ x, f x = []) l.
Proof.
  induction l as [|x l IH]; csimpl; [done|]. rewrite Forall_cons, <-IH. split; [apply app_nil|by intros [-> ->]].
Qed.

Lemma rmapM_nil {E A B} (f : A → result E (list B)) l :
  rmap mjoin (rmapM f l) = Ok [] ↔ Forall (λ x, f x = Ok []) l.
Proof.
  induction l as [|x l IH]; simpl; [done|]. rewrite Forall_cons, <-IH.
  destruct (f x) as [y|]; simpl; [|naive_solver]. destruct (rmapM f l) as [ys|]; simpl; [|naive_solver].
  split; [intros [= [-> ->]%app_nil]; done|]. by intros [[= ->] [= ->]].
Qed.

Lemma app_Ok_nil {E A} (a b : list A) : (Ok (a ++ b) : result E (list A)) = Ok [] ↔ a = [] ∧ b = [].
Proof. split; [by intros [= ?%app_nil]|by intros [-> ->]]. Qed.

Lemma app_nil_iff {A} (a b : list A) : a ++ b = [] ↔ a = [] ∧ b = [].
Proof. split; [apply app_nil|by intros [-> ->]]. Qed.

(** [let* x := a in Ok (x ++ ..)] *)
Lemma rbind_nil {E A} (a : result E (list A)) (k : list A → result E (list A)) :
  (∀ x, k x = Ok [] → x = []) → rbind a k = Ok [] ↔ a = Ok [] ∧ k [] = Ok [].
Proof.
  intros Hk. destruct a as [x|]; simpl; [|naive_solver]. split; [|by intros [[= ->] ?]].
  intros H. pose proof (Hk _ H) as ->. done.
Qed.

(** Solves the condition of [rbind_nil]: all lists that make up an empty one are
    empty. *)
Ltac all_nil :=
  intros ? Hnil; repeat (apply rbind_Ok in Hnil as (? & _ & Hnil));
  repeat match type of Hnil with
  | context [let '(_, _) := ?p in _] => destruct p
  end;
  injection Hnil as Hnil;
  repeat match goal with
  | H : _ ++ _ = [] |- _ => apply app_nil in H as [? ?]
  end; done.

(** Every element once *)
Lemma NoDup_filter_length {A} {EqA : EqDecision A} (eqb : A → A → bool) (l : list A) :
  (∀ x y, eqb x y = true ↔ x = y) →
  Forall (λ x, (length (List.filter (eqb x) l) <=? 1)%nat = true) (remove_dups l) ↔ NoDup l.
Proof.
  intros Heqb. rewrite Forall_forall. setoid_rewrite elem_of_remove_dups. setoid_rewrite Nat.leb_le.
  assert (∀ x l, x ∉ l → List.filter (eqb x) l = []) as Hnone.
  { intros x l' Hx. induction l' as [|y l' IH]; simpl; [done|].
    destruct (eqb x y) eqn:E; [apply Heqb in E; set_solver|]. apply IH. set_solver. }
  split.
  - induction l as [|x l IH]; intros H; [constructor|]. constructor.
    + intros Hx. specialize (H x ltac:(by left)). simpl in H. rewrite (proj2 (Heqb x x)) in H by done.
      simpl in H. apply list_elem_of_split in Hx as (l1 & l2 & ->). rewrite List.filter_app, length_app in H.
      simpl in H. rewrite (proj2 (Heqb x x)) in H by done. simpl in H. lia.
    + apply IH. intros y Hy. specialize (H y ltac:(by right)). simpl in H. destruct (eqb y x); simpl in H; lia.
  - induction 1 as [|x l Hx Hl IH]; intros y Hy; simpl; [lia|]. destruct (eqb y x) eqn:E.
    + apply Heqb in E as ->. rewrite Hnone by done. simpl. lia.
    + apply IH. apply elem_of_cons in Hy as [->|]; [|done]. by rewrite (proj2 (Heqb x x)) in E.
Qed.

Lemma filter_none {A} (p : A → bool) (l : list A) :
  List.filter p l = [] ↔ ∀ x, In x l → p x = false.
Proof.
  induction l as [|y l IH]; simpl; [naive_solver|]. destruct (p y) eqn:E.
  - split; [done|]. intros Hp. by rewrite (Hp y) in E by (by left).
  - rewrite IH. naive_solver.
Qed.

Lemma sorted_last (l : list Z) p :
  StronglySorted (may_follow Z.ltb) l → last l = Some p → Forall (λ x, x <= p) l.
Proof.
  intros Hs. induction Hs as [|x l Hs IH Hx]; [done|]. intros Hl. destruct l as [|y l].
  - injection Hl as ->. by constructor.
  - specialize (IH Hl). constructor; [|done]. apply Forall_cons in Hx as [Hxy _].
    apply Forall_cons in IH as [Hy _]. unfold may_follow in Hxy. apply Z.ltb_ge in Hxy. lia.
Qed.

Lemma VerifyPorts_nil c used :
  VerifyPorts c used = [] ↔
  NoDup (used ++ c_tcpudp_port_pool c) ∧ Forall (λ p, p <= c_highest_used_port c) (used ++ c_tcpudp_port_pool c).
Proof.
  unfold VerifyPorts. set (ports := used ++ _). set (keys := py_sorted _ _).
  assert (keys ≡ₚ remove_dups ports) as Hperm by apply py_sorted_perm.
  rewrite app_nil_iff, mjoin_nil. setoid_rewrite check_nil.
  assert (Forall (λ p, (length (List.filter (Z.eqb p) ports) <=? 1)%nat = true) keys ↔ NoDup ports) as ->
    by (rewrite Hperm; apply NoDup_filter_length, Z.eqb_eq).
  apply and_iff_compat_l.
  assert (Forall (λ p, p <= c_highest_used_port c) ports ↔ Forall (λ p, p <= c_highest_used_port c) keys) as ->.
  { rewrite Hperm, !Forall_forall. by setoid_rewrite elem_of_remove_dups. }
  destruct (last keys) as [p|] eqn:El.
  - rewrite check_nil, Z.leb_le. assert (p ∈ keys) as Hp by (apply last_Some_elem_of in El; done).
    rewrite Forall_forall. split; [|by intros H; apply H].
    intros Hle x Hx. pose proof (sorted_last keys p (py_sorted_sorted Z.ltb _) El) as Hall.
    rewrite Forall_forall in Hall. specialize (Hall x Hx). simpl in Hall. lia.
  - apply last_None in El. rewrite El. split; [constructor|done].
Qed.

Lemma VerifyIps_nil ips : VerifyIps ips = [] ↔ NoDup ips.
Proof.
  unfold VerifyIps. rewrite mjoin_nil. setoid_rewrite check_nil.
  rewrite <-(NoDup_filter_length (λ x y, bool_decide (y = x)));
    [done|]. intros x y. rewrite bool_decide_eq_true. naive_solver.
Qed.

Section verify.
  Context `{FloatText}.
  Context (BES_PARAMETER_TYPES NICS_PARAMETER_TYPES NDS_PARAMETER_TYPES : dict vtype) (show : obj → str).

(** ** Types and policies *)

(** All values can be given the types of the template. *)
Definition typed (value : pdict) (template : dict vtype) : Prop :=
  (ForceDictType value template []).1 = Ok tt.

Lemma VerifyType_nil owner attr value template : VerifyType owner attr value template = Ok [] ↔ typed value template.
Proof.
  unfold VerifyType, typed. destruct (ForceDictType value template []).1 as [[]|e]; [done|].
  destruct (isinstance_exn e GenericError); naive_solver.
Qed.

Lemma VerifyNic_nil owner params : VerifyNic owner params = Ok [] ↔ NIC_CheckParameterSyntax params = Ok tt.
Proof.
  unfold VerifyNic. destruct (NIC_CheckParameterSyntax params) as [[]|e]; [done|].
  destruct (isinstance_exn e ConfigurationError); naive_solver.
Qed.

Definition known_keys (spec : dict Z) : Prop := Forall (λ k, k ∈ ISPECS_PARAMETERS) (dkeys spec).

Lemma ispec_type k : dget k ISPECS_PARAMETER_TYPES = if decide (k ∈ ISPECS_PARAMETERS) then Some VTInt else None.
Proof.
  unfold ISPECS_PARAMETER_TYPES. induction ISPECS_PARAMETERS as [|k' l IH]; csimpl; [done|].
  rewrite IH. destruct (decide (k' = k)) as [->|Hne].
  - by rewrite decide_True by left.
  - destruct (decide (k ∈ l)); [by rewrite decide_True by (by right)|]. rewrite decide_False; [done|].
    rewrite elem_of_cons. naive_solver.
Qed.

Lemma force_ints keys target :
  (∀ k, k ∈ keys → ∃ z, dget k target = Some (OInt z)) →
  (force_keys keys ISPECS_PARAMETER_TYPES [] target).1 = Ok tt ↔ Forall (λ k, k ∈ ISPECS_PARAMETERS) keys.
Proof.
  revert target. induction keys as [|k keys IH]; intros target Hint; cbn [force_keys]; [done|].
  rewrite Forall_cons, ispec_type. destruct (Hint k) as [z Ez]; [by left|].
  case_decide as Hk; [|naive_solver]. rewrite Ez. cbn [existsb force_value int_of remap rmap].
  rewrite IH; [naive_solver|].
  intros k' Hk'. rewrite dget_dset. case_decide; [eauto|]. apply Hint. by right.
Qed.

Lemma verify_spec_nil owner attr spec : verify_spec owner attr spec = Ok [] ↔ known_keys spec.
Proof.
  unfold verify_spec. rewrite VerifyType_nil. unfold typed, ForceDictType, known_keys.
  rewrite force_ints, dkeys_dmap; [done|]. intros k. rewrite dkeys_dmap, <-dget_is_Some, dget_dmap.
  intros [z ->]. simpl. eauto.
Qed.

Definition policy_ok (p : ipolicy) (iscluster : bool) : Prop :=
  ipolicy_valid p iscluster ∧
  (∀ minmax, ip_minmax p = Some minmax → Forall (Forall (λ kv, known_keys kv.2)) minmax) ∧
  (∀ std, ip_std p = Some std → known_keys std).

Lemma Forall_imap_pair {A} (P : A → Prop) (l : list A) :
  Forall (λ iv : nat * A, P iv.2) (imap pair l) ↔ Forall P l.
Proof.
  rewrite !Forall_lookup. setoid_rewrite list_lookup_imap. split.
  - intros Hl i x Hx. apply (Hl i (i, x)). by rewrite Hx.
  - intros Hl i [j x]. destruct (l !! i) as [y|] eqn:E; [|done]. intros [= <- <-]. by eapply Hl.
Qed.

Lemma VerifyIpolicy_nil owner p b : VerifyIpolicy owner p b = Ok [] ↔ policy_ok p b.
Proof.
  unfold VerifyIpolicy, policy_ok. rewrite <-CheckParameterSyntax_valid.
  destruct (CheckParameterSyntax p b) as [[]|e] eqn:E; cbn [rbind].
  2: { split; [|by intros [? _]]. destruct (isinstance_exn e ConfigurationError); cbn [rbind]; [|done].
       intros Hb. by apply rbind_Ok in Hb as (? & _ & (? & _ & ?)%rbind_Ok). }
  rewrite rbind_nil.
  2: { intros x (? & _ & Hx)%rbind_Ok. cbn [app] in Hx. by apply app_Ok_nil in Hx as [? _]. }
  assert (ip_other p = []) as Hother by (apply CheckParameterSyntax_valid in E; apply E).
  rewrite Hother. cbn [fmap list_fmap mjoin list_join app].
  assert (∀ r : exc (list verify_msg), (let* std := r in Ok (std ++ [])) = Ok [] ↔ r = Ok []) as Hr.
  { intros [x|]; simpl; [|done]. rewrite app_nil_r. naive_solver. }
  rewrite Hr, rmapM_nil.
  assert (Forall (λ x : nat * dict (dict Z), (let '(i, val) := x in
     VerifyIspecs owner (lit "ipolicy/minmax[" ++ dec (N.of_nat i) ++ lit "]") val) = Ok [])
     (imap pair (default [] (ip_minmax p))) ↔ ∀ minmax, ip_minmax p = Some minmax → Forall (Forall (λ kv, known_keys kv.2)) minmax) as ->.
  { trans (Forall (λ iv : nat * dict (dict Z), Forall (λ kv, known_keys kv.2) iv.2)
      (imap pair (default [] (ip_minmax p)))).
    - apply Forall_iff. intros [i val]. unfold VerifyIspecs. rewrite rmapM_nil. apply Forall_iff. intros [k v].
      apply verify_spec_nil.
    - rewrite Forall_imap_pair. destruct (ip_minmax p) as [mm|]; simpl; naive_solver. }
  destruct (ip_std p) as [std|].
  - rewrite verify_spec_nil. naive_solver.
  - naive_solver.
Qed.

(** ** The cluster and the disks *)

Definition access_ok (disk_template : str) (params : pdict) : Prop :=
  disk_template ∈ DTS_HAVE_ACCESS →
  Exists (λ m, py_eq (default (OStr DISK_KERNELSPACE) (dget LDP_ACCESS params)) (OStr m) = true)
    DISK_VALID_ACCESS_MODES.

Definition cluster_ok (c : cluster) : Prop :=
  let p := c_params c in
  typed (SimpleFillBE p []) BES_PARAMETER_TYPES ∧ typed (SimpleFillNIC p []) NICS_PARAMETER_TYPES ∧
  NIC_CheckParameterSyntax (SimpleFillNIC p []) = Ok tt ∧ typed (SimpleFillND p []) NDS_PARAMETER_TYPES ∧
  policy_ok (c_ipolicy c) true ∧ Forall (λ tp, access_ok tp.1 tp.2) (diskparams p).

Lemma VerifyAccess_nil t params : VerifyAccess t params = Ok [] ↔ access_ok t params.
Proof.
  unfold VerifyAccess, access_ok. case_decide as Ht; [|naive_solver].
  set (access := default _ _). assert (existsb (λ m, py_eq access (OStr m)) DISK_VALID_ACCESS_MODES = true ↔
    Exists (λ m, py_eq access (OStr m) = true) DISK_VALID_ACCESS_MODES) as Hex.
  { rewrite existsb_exists, Exists_exists. by setoid_rewrite list_elem_of_In. }
  destruct (hashes access) eqn:Eh.
  - rewrite <-Hex. destruct (existsb _ _); simpl; [done|]. split; [done|]. intros Hx. by specialize (Hx Ht).
  - split; [done|]. intros (m & _ & Em)%(λ H, proj1 (Exists_exists _ _) (H Ht)).
    by rewrite (Ht.py_eq_str_hashes _ _ Em) in Eh.
Qed.

Lemma VerifyCluster_nil c :
  VerifyCluster BES_PARAMETER_TYPES NICS_PARAMETER_TYPES NDS_PARAMETER_TYPES c = Ok [] ↔ cluster_ok c.
Proof.
  unfold VerifyCluster, cluster_ok. cbv zeta.
  do 5 (rewrite rbind_nil by all_nil). rewrite !VerifyType_nil, VerifyNic_nil, VerifyIpolicy_nil.
  assert (∀ r : exc (list verify_msg), (let* ac := r in Ok ([] ++ [] ++ [] ++ [] ++ [] ++ ac)) = r) as ->
    by (by intros [|]).
  rewrite rmapM_nil. do 5 apply and_iff_compat_l. apply Forall_iff. intros [t ps]. apply VerifyAccess_nil.
Qed.

Definition disks_ok (disks : dict disk) : Prop :=
  Forall (λ ux, d_mode ux.2 ∈ DISK_ACCESS_SET ∧ d_uuid ux.2 = Some ux.1) disks.

Lemma VerifyDisks_nil disks : VerifyDisks disks = [] ↔ disks_ok disks.
Proof.
  unfold VerifyDisks, disks_ok. rewrite mjoin_nil. apply Forall_iff. intros [u x]. simpl.
  unfold Disk_Verify. by rewrite app_nil_iff, !check_nil, !bool_decide_eq_true.
Qed.

(** ** Instances *)

Definition nic_ok (c : cluster_params) (n : nic) : Prop :=
  nic_params n = [] ∨
  (typed (SimpleFillNIC c (nic_params n)) NICS_PARAMETER_TYPES ∧
   NIC_CheckParameterSyntax (SimpleFillNIC c (nic_params n)) = Ok tt).

Lemma verify_nics_nil c name idx nics seen seen' :
  verify_nics NICS_PARAMETER_TYPES c name idx nics seen = Ok ([], seen') ↔
  Forall (nic_ok c) nics ∧ NoDup (nic_mac <$> nics) ∧ Forall (λ m, m ∉ seen) (nic_mac <$> nics) ∧
  seen' = seen ++ (nic_mac <$> nics).
Proof.
  revert idx seen. induction nics as [|n nics IH]; intros idx seen; cbn [verify_nics].
  { csimpl. rewrite app_nil_r. split; [intros [= <-]; split_and!; try done; constructor|by intros (_ & _ & _ & ->)]. }
  set (params := match nic_params n with [] => _ | _ => _ end).
  assert (params = Ok [] ↔ nic_ok c n) as Hpar.
  { unfold params, nic_ok. destruct (nic_params n) as [|kv ps]; [naive_solver|].
    rewrite rbind_nil by all_nil. rewrite VerifyType_nil, <-(VerifyNic_nil (lit "instance " ++ name ++ lit " nic " ++ dec (N.of_nat idx))).
    destruct (VerifyNic _ _) as [s|]; simpl; naive_solver. }
  csimpl. rewrite !Forall_cons, NoDup_cons, <-Hpar.
  destruct (bool_decide (nic_mac n ∈ seen)) eqn:Ed.
  - apply bool_decide_eq_true in Ed. split; [|naive_solver]. intros (ps & _ & ([rest s'] & _ & [=])%rbind_Ok)%rbind_Ok.
  - apply bool_decide_eq_false in Ed. split.
    + intros (ps & Hps & ([rest s'] & Hrest & [= [-> ->]%app_nil ->])%rbind_Ok)%rbind_Ok.
      apply IH in Hrest as (H1 & H2 & H3 & ->). rewrite Forall_forall in H3. split_and!; try done.
      * intros Hin. apply (H3 _ Hin). apply elem_of_app. right. left.
      * apply Forall_forall. intros m Hm Hs. apply (H3 m Hm). apply elem_of_app. by left.
      * by rewrite <-(assoc_L (++)).
    + intros ([-> H1] & [Hn H2] & [_ H3] & ->). cbn [rbind].
      rewrite (proj2 (IH (S idx) (seen ++ [nic_mac n]))); [done|].
      split_and!; try done; [|by rewrite <-(assoc_L (++))]. rewrite Forall_forall in *. intros m Hm. rewrite elem_of_app, list_elem_of_singleton.
      intros [?| ->]; [by eapply H3|done].
Qed.

(** The disks of an instance, all of which exist *)
Definition inst_disks (d : config_data) (i : instance) (disks : list disk) : Prop :=
  Forall2 (λ u x, dget u (cd_disks d) = Some x) (i_disks i) disks.

Lemma inst_disks_unique d i disks disks' : inst_disks d i disks → inst_disks d i disks' → disks = disks'.
Proof.
  unfold inst_disks. intros H1. revert disks'. induction H1; intros disks'; inversion 1; [done|]. subst.
  f_equal; [congruence|auto].
Qed.

Lemma rmapM_attr {B} (f : disk → B) d i ys :
  rmapM (attr f) (GetDiskInfo d <$> i_disks i) = Ok ys ↔ ∃ disks, inst_disks d i disks ∧ ys = f <$> disks.
Proof.
  unfold inst_disks, GetDiskInfo. revert ys. induction (i_disks i) as [|u us IH]; intros ys; csimpl.
  { split; [intros [= <-]; by exists []|]. by intros (? & ->%Forall2_nil_inv_l & ->). }
  rewrite rbind_Ok. split.
  - destruct (dget u (cd_disks d)) as [x|] eqn:Ex; simpl; [|naive_solver].
    intros (y & [= <-] & (ys' & (disks & Hd & ->)%IH & <-)%rmap_Ok). exists (x :: disks). split; [by constructor|done].
  - intros (? & (x & disks & Hx & Hd & ->)%Forall2_cons_inv_l & ->). rewrite Hx. exists (f x). split; [done|].
    apply rmap_Ok. exists (f <$> disks). split; [|done]. apply IH. eauto.
Qed.

Lemma secondary_Ok d i uuid sec :
  dget uuid (cd_instances d) = Some i →
  GetInstanceSecondaryNodes d uuid = Ok sec ↔
  ∃ disks, inst_disks d i disks ∧
    sec = remove1 (i_primary_node i) (remove_dups (mjoin (ComputeAllNodes <$> disks))).
Proof.
  intros Hi. unfold GetInstanceSecondaryNodes, AllInstanceNodes, GetInstanceDisks, GetInstanceInfo.
  rewrite Hi. cbn [rbind]. split.
  - intros ([all ?] & (nodes & (disks & Hd & ->)%rmapM_attr & [= <- <-])%rbind_Ok & [= <-])%rbind_Ok. eauto.
  - intros (disks & Hd & ->). rewrite (proj2 (rmapM_attr ComputeAllNodes d i _)) by eauto. done.
Qed.

Lemma disks_Ok d i uuid (disks : list disk) :
  dget uuid (cd_instances d) = Some i →
  (let* l := GetInstanceDisks d uuid in rmapM (attr id) l) = Ok disks ↔ inst_disks d i disks.
Proof.
  intros Hi. unfold GetInstanceDisks, GetInstanceInfo. rewrite Hi. cbn [rbind]. rewrite rmapM_attr.
  setoid_rewrite list_fmap_id. naive_solver.
Qed.

Definition named (disks : list disk) : Prop :=
  ∀ idx x, disks !! idx = Some x → d_iv_name x = Some (lit "disk/" ++ dec (N.of_nat idx)).

Lemma CheckInstanceDiskIvNames_nil disks : CheckInstanceDiskIvNames disks = [] ↔ named disks.
Proof.
  unfold CheckInstanceDiskIvNames, named. rewrite filter_none. split.
  - intros Hf idx x Hx. assert (In (idx, lit "disk/" ++ dec (N.of_nat idx), d_iv_name x)
      (imap (λ idx x, (idx, lit "disk/" ++ dec (N.of_nat idx), d_iv_name x)) disks)) as Hin.
    { apply list_elem_of_In, list_elem_of_lookup. exists idx. by rewrite list_lookup_imap, Hx. }
    specialize (Hf _ Hin). apply negb_false_iff, bool_decide_eq_true in Hf. done.
  - intros Hn [[idx s] o] (j & Hj)%list_elem_of_In%list_elem_of_lookup.
    rewrite list_lookup_imap in Hj. apply fmap_Some in Hj as (x & Hx & [= -> -> ->]).
    apply negb_false_iff, bool_decide_eq_true. by apply Hn.
Qed.

(** An instance is stored under its UUID; its primary node, its disks and the nodes
    of these exist; its disks are named by their position; the parameters of its
    NICs and its own are well typed. *)
Definition inst_ok (d : config_data) (key : str) (i : instance) : Prop :=
  let c := c_params (cd_cluster d) in
  i_uuid i = Some key ∧ dhas (i_primary_node i) (cd_nodes d) = true ∧
  (∃ disks, inst_disks d i disks ∧ named disks ∧
     ∀ x n, x ∈ disks → n ∈ ComputeAllNodes x → dhas n (cd_nodes d) = true) ∧
  Forall (nic_ok c) (i_nics i) ∧
  (i_beparams i = [] ∨ typed (SimpleFillBE c (i_beparams i)) BES_PARAMETER_TYPES).

(** The ports of an instance *)
Definition inst_ports (d : config_data) (i : instance) (ports : list Z) : Prop :=
  ∃ disks, inst_disks d i disks ∧ instance_ports i disks = Ok ports.

Definition inst_macs (i : instance) : list str := nic_mac <$> i_nics i.

(** The secondary nodes exist exactly when all nodes of the disks do, given that
    the primary node exists. *)
Lemma secondary_nil d i disks :
  dhas (i_primary_node i) (cd_nodes d) = true →
  mjoin ((λ n, check (dhas n (cd_nodes d)) (SecondaryNode (i_name i) n)) <$>
           remove1 (i_primary_node i) (remove_dups (mjoin (ComputeAllNodes <$> disks)))) = [] ↔
  ∀ x n, x ∈ disks → n ∈ ComputeAllNodes x → dhas n (cd_nodes d) = true.
Proof.
  intros Hp. rewrite mjoin_nil, Forall_forall. setoid_rewrite check_nil.
  setoid_rewrite elem_of_remove1; [|apply NoDup_remove_dups]. setoid_rewrite elem_of_remove_dups.
  setoid_rewrite list_elem_of_join. setoid_rewrite list_elem_of_fmap. split.
  - intros Hall x n Hx Hn. destruct (decide (n = i_primary_node i)) as [->|]; [done|]. apply Hall. split; [done|].
    exists (ComputeAllNodes x). split; [by apply elem_of_remove_dups|eauto].
  - intros Hall n (_ & l & Hn & x & -> & Hx). apply (Hall x); [done|]. by apply elem_of_remove_dups.
Qed.

Lemma beparams_nil c name b :
  match b with
  | [] => Ok []
  | _ => VerifyType (lit "instance " ++ name) (lit "beparams") (SimpleFillBE c b) BES_PARAMETER_TYPES
  end = Ok [] ↔ b = [] ∨ typed (SimpleFillBE c b) BES_PARAMETER_TYPES.
Proof. destruct b; [naive_solver|]. rewrite VerifyType_nil. naive_solver. Qed.

Lemma VerifyInstance_nil d key i seen seen' ports :
  dget key (cd_instances d) = Some i →
  VerifyInstance BES_PARAMETER_TYPES NICS_PARAMETER_TYPES d key i seen = Ok ([], seen', ports) ↔
  inst_ok d key i ∧ inst_ports d i ports ∧ NoDup (inst_macs i) ∧ Forall (λ m, m ∉ seen) (inst_macs i) ∧
  seen' = seen ++ inst_macs i.
Proof.
  intros Hi. unfold VerifyInstance, inst_ok, inst_ports, inst_macs. cbv zeta. split.
  - intros (sec & Hsec & ([nics s'] & Hnics & (be & Hbe & (l & Hl & (disks & Hd & (ps & Hps & Heq)%rbind_Ok)
      %rbind_Ok)%rbind_Ok)%rbind_Ok)%rbind_Ok)%rbind_Ok.
    injection Heq as Heq -> ->. repeat (apply app_nil in Heq as [?%check_nil Heq] || apply app_nil in Heq as [? Heq]).
    rename select (bool_decide _ = true) into Hkey. apply bool_decide_eq_true in Hkey.
    rewrite Hkey in Hsec, Hl. simpl in Hsec, Hl. apply (secondary_Ok _ _ _ _ Hi) in Hsec as (disks' & Hd' & ->).
    assert (inst_disks d i disks) as Hdd by (apply (disks_Ok _ _ _ _ Hi); by rewrite Hl).
    rewrite (inst_disks_unique _ _ _ _ Hd' Hdd) in *. subst nics be.
    apply verify_nics_nil in Hnics as (? & ? & ? & ->). apply beparams_nil in Hbe.
    apply check_nil in Heq. destruct (CheckInstanceDiskIvNames disks) eqn:Ec; [|done].
    apply CheckInstanceDiskIvNames_nil in Ec. split_and!; try done; [|by exists disks].
    exists disks. split_and!; try done. by apply (secondary_nil d i).
  - intros ((Hkey & Hprim & (disks & Hd & Hnamed & Hnodes) & Hn & Hbe) & (disks' & Hd' & Hports) & Hm & Hs & ->).
    rewrite (inst_disks_unique _ _ _ _ Hd' Hd) in Hports. clear disks' Hd'. rewrite Hkey. change (default [] (Some key)) with key.
    rewrite (proj2 (secondary_Ok _ _ _ _ Hi)) by eauto. cbn [rbind].
    rewrite (proj2 (verify_nics_nil _ _ _ _ _ _)) by done. cbn [rbind].
    apply (beparams_nil _ (i_name i)) in Hbe. rewrite Hbe. cbn [rbind].
    assert (GetInstanceDisks d key = Ok (GetDiskInfo d <$> i_disks i)) as Hgd
      by (unfold GetInstanceDisks, GetInstanceInfo; by rewrite Hi).
    rewrite Hgd. cbn [rbind]. rewrite (proj2 (rmapM_attr id d i disks)) by (exists disks; by rewrite list_fmap_id).
    cbn [rbind]. rewrite Hports. cbn [rbind].
    rewrite bool_decide_true, Hprim, (proj2 (secondary_nil d i disks Hprim)) by done.
    rewrite (proj2 (CheckInstanceDiskIvNames_nil disks) Hnamed).
    rewrite (proj2 (mjoin_nil (λ u, check (dhas u (cd_disks d)) (MissingDisk (i_name i) u)) (i_disks i))); [done|].
    apply (Forall2_Forall_l _ _ _ _ Hd), Forall_true. intros x u Hu. by apply check_nil, (dget_dhas _ x).
Qed.

Definition all_macs (insts : dict instance) : list str := mjoin ((λ ki, inst_macs ki.2) <$> insts).

Lemma VerifyInstances_nil d insts seen used :
  (∀ k i, (k, i) ∈ insts → dget k (cd_instances d) = Some i) →
  VerifyInstances BES_PARAMETER_TYPES NICS_PARAMETER_TYPES d insts seen = Ok ([], used) ↔
  Forall (λ ki, inst_ok d ki.1 ki.2) insts ∧ NoDup (all_macs insts) ∧
  Forall (λ m, m ∉ seen) (all_macs insts) ∧
  ∃ ps, Forall2 (λ ki ports, inst_ports d ki.2 ports) insts ps ∧ used = mjoin ps.
Proof.
  revert seen used. induction insts as [|[k i] insts IH]; intros seen used Hin; cbn [VerifyInstances].
  { split.
    - intros [= <-]. split_and!; try done; [constructor|]. by exists [].
    - by intros (_ & _ & _ & ? & ->%Forall2_nil_inv_l & ->). }
  unfold all_macs. csimpl. fold (all_macs insts). rewrite Forall_cons, Forall_app, NoDup_app.
  assert (dget k (cd_instances d) = Some i) as Hi by (apply Hin; left).
  assert (∀ k i, (k, i) ∈ insts → dget k (cd_instances d) = Some i) as Hin' by (intros; apply Hin; by right).
  split.
  - intros ([[m s'] ports] & H1 & ([m' ports'] & H2 & Heq)%rbind_Ok)%rbind_Ok.
    injection Heq as [-> ->]%app_nil <-. apply (VerifyInstance_nil _ _ _ _ _ _ Hi) in H1 as (? & ? & ? & ? & ->).
    apply IH in H2 as (? & ? & Hs & ps & ? & ->); [|done]. rewrite Forall_forall in Hs. split_and!; try done.
    + intros x Hx Hx'. apply (Hs x Hx'), elem_of_app. by right.
    + apply Forall_forall. intros x Hx Hx'. apply (Hs x Hx), elem_of_app. by left.
    + exists (ports :: ps). split; [by constructor|done].
  - intros ([? ?] & (? & Hdis & ?) & [? Hs] & ? & (ports & ps & ? & ? & ->)%Forall2_cons_inv_l & ->).
    rewrite (proj2 (VerifyInstance_nil d k i seen (seen ++ inst_macs i) ports Hi)) by done. cbn [rbind].
    rewrite (proj2 (IH (seen ++ inst_macs i) (mjoin ps) Hin')); [done|]. split_and!; [done..| |eauto].
    rewrite Forall_forall in *. intros x Hx [?|?]%elem_of_app; [by apply (Hs x)|by apply (Hdis x)].
Qed.

(** ** Nodes and groups *)

Definition node_ok (d : config_data) (key : str) (n : node) : Prop :=
  n_uuid n = Some key ∧
  (length (List.filter id [n_master_candidate n; n_drained n; n_offline n]) <= 1)%nat ∧
  (∃ g grp, n_group n = Some g ∧ dget g (cd_nodegroups d) = Some grp ∧
     typed (FillND (c_params (cd_cluster d)) (n_ndparams n) (g_ndparams grp)) NDS_PARAMETER_TYPES) ∧
  Forall (λ k, k ∉ dkeys (n_ndparams n)) NDC_GLOBALS.

Lemma VerifyNode_nil d key n : VerifyNode NDS_PARAMETER_TYPES d key n = Ok [] ↔ node_ok d key n.
Proof.
  unfold VerifyNode, node_ok. rewrite rbind_nil by all_nil. rewrite !app_Ok_nil, !app_nil_iff.
  rewrite !check_nil, bool_decide_eq_true, Nat.leb_le, negb_true_iff.
  assert (existsb (λ k, dhas k (n_ndparams n)) NDC_GLOBALS = false ↔
    Forall (λ k, k ∉ dkeys (n_ndparams n)) NDC_GLOBALS) as ->.
  { induction NDC_GLOBALS as [|k ks IH]; simpl; [done|]. rewrite Forall_cons, orb_false_iff, dhas_false, IH. done. }
  destruct (n_group n) as [g|]; simpl; [|naive_solver]. destruct (dget g (cd_nodegroups d)) eqn:Eg; [|naive_solver].
  rewrite VerifyType_nil. naive_solver.
Qed.

Definition group_ok (c : cluster) (key : str) (g : node_group) : Prop :=
  g_uuid g = Some key ∧ uuid_like (lower (g_name g)) = false ∧
  (∃ filled, FillIPolicy (c_ipolicy c) (g_ipolicy g) = Ok filled ∧ policy_ok filled false) ∧
  (g_ndparams g = [] ∨ typed (SimpleFillND (c_params c) (g_ndparams g)) NDS_PARAMETER_TYPES).

Lemma VerifyGroups_nil c groups names :
  VerifyGroups NDS_PARAMETER_TYPES c groups names = Ok [] ↔
  Forall (λ kg, group_ok c kg.1 kg.2) groups ∧ NoDup ((λ kg, g_name kg.2) <$> groups) ∧
  Forall (λ kg : str * node_group, g_name kg.2 ∉ names) groups.
Proof.
  revert names. induction groups as [|[key g] groups IH]; intros names; cbn [VerifyGroups].
  { split; [|done]. intros _. split_and!; try done. constructor. }
  csimpl. rewrite !Forall_cons, NoDup_cons. unfold group_ok at 1. cbn [fst snd].
  destruct (FillIPolicy _ _) as [filled|]; cbn [rbind]; [|naive_solver].
  do 2 (rewrite rbind_nil by all_nil). rewrite VerifyIpolicy_nil, rbind_nil by all_nil.
  rewrite !app_Ok_nil, !app_nil_iff, !check_nil, !bool_decide_eq_true, negb_true_iff, IH.
  assert (match g_ndparams g with [] => Ok []
    | _ => VerifyType (lit "group " ++ g_name g) (lit "ndparams") (SimpleFillND (c_params c) (g_ndparams g))
             NDS_PARAMETER_TYPES end = Ok [] ↔
    g_ndparams g = [] ∨ typed (SimpleFillND (c_params c) (g_ndparams g)) NDS_PARAMETER_TYPES) as ->.
  { destruct (g_ndparams g); [naive_solver|]. rewrite VerifyType_nil. naive_solver. }
  setoid_rewrite not_elem_of_cons. rewrite Forall_and, list_elem_of_fmap, !Forall_forall. naive_solver.
Qed.

(** ** The whole configuration *)

Record consistent (d : config_data) : Prop := {
  cn_cluster : cluster_ok (cd_cluster d);
  cn_disks : disks_ok (cd_disks d);
  cn_instances : Forall (λ ki, inst_ok d ki.1 ki.2) (cd_instances d);
  (** no address of a NIC is used twice *)
  cn_macs : NoDup (all_macs (cd_instances d));
  (** no port is used twice, or used and free, and none is above the highest *)
  cn_ports : ∃ ps, Forall2 (λ ki ports, inst_ports d ki.2 ports) (cd_instances d) ps ∧
    let ports := mjoin ps ++ c_tcpudp_port_pool (cd_cluster d) in
    NoDup ports ∧ Forall (λ p, p <= c_highest_used_port (cd_cluster d)) ports;
  cn_master : ∃ n, dget (c_master_node (cd_cluster d)) (cd_nodes d) = Some n ∧ n_master_candidate n = true;
  cn_pool : let '(mc_now, mc_should, _) := GetMasterCandidateStats d [] in mc_should <= mc_now;
  cn_nodes : Forall (λ kn, node_ok d kn.1 kn.2) (cd_nodes d);
  cn_groups : Forall (λ kg, group_ok (cd_cluster d) kg.1 kg.2) (cd_nodegroups d);
  cn_group_names : NoDup ((λ kg, g_name kg.2) <$> cd_nodegroups d);
  (** no IP address has two owners *)
  cn_ips : ∃ ips, AllIps show d = Ok ips ∧ NoDup ips
}.

#[local] Notation verify :=
  (VerifyConfig BES_PARAMETER_TYPES NICS_PARAMETER_TYPES NDS_PARAMETER_TYPES show).

Lemma fmap_nil_iff {A B} (f : A → B) l : f <$> l = [] ↔ l = [].
Proof. by destruct l. Qed.

Lemma rmapM_VerifyNode d nodes :
  rmap mjoin (rmapM (λ '(k, n), VerifyNode NDS_PARAMETER_TYPES d k n) nodes) = Ok [] ↔
  Forall (λ kn, node_ok d kn.1 kn.2) nodes.
Proof. rewrite rmapM_nil. apply Forall_iff. intros [k n]. apply VerifyNode_nil. Qed.

Lemma verified_consistent wconfd d :
  dict_ok (cd_instances d) → verify wconfd d = Ok [] → wconfd = [] ∧ consistent d.
Proof.
  intros Hd. unfold VerifyConfig. cbv zeta.
  intros (cl & Hcl & ([insts used] & Hi & (master & Hm & Hv)%rbind_Ok)%rbind_Ok)%rbind_Ok.
  destruct (GetMasterCandidateStats d []) as [[mc_now mc_max] possible] eqn:Est.
  apply rbind_Ok in Hv as (nodes & Hn & (groups & Hg & (ips & Hip & Hv)%rbind_Ok)%rbind_Ok).
  injection Hv as Hv. rewrite !app_nil_iff, VerifyDisks_nil, VerifyPorts_nil, check_nil, VerifyIps_nil, Z.leb_le in Hv.
  destruct Hv as (Hw & -> & Hdisks & -> & Hports & -> & Hpool & Hnodes & -> & Hnd).
  apply fmap_nil_iff in Hw. split; [done|]. apply VerifyInstances_nil in Hi as (Hi1 & Hi2 & _ & ps & Hps & ->);
    [|intros; by apply dget_Some].
  apply VerifyGroups_nil in Hg as (Hg1 & Hg2 & _). constructor; try done.
  - by apply VerifyCluster_nil.
  - eauto.
  - destruct (dget _ (cd_nodes d)) as [n|]; [|done]. injection Hm as Hm%check_nil. eauto.
  - by rewrite Est.
  - apply rmapM_VerifyNode. by rewrite Hn, <-Hnodes.
  - eauto.
Qed.

Lemma consistent_verified d :
  dict_ok (cd_instances d) → consistent d → verify [] d = Ok [].
Proof.
  intros Hd [Hcl Hdisks Hi1 Hi2 (ps & Hps & Hports) (m & Hm & Hmc) Hpool Hn Hg1 Hg2 (ips & Hip & Hnd)].
  unfold VerifyConfig. cbv zeta. apply VerifyCluster_nil in Hcl. rewrite Hcl. cbn [rbind].
  rewrite (proj2 (VerifyInstances_nil d (cd_instances d) [] (mjoin ps) ltac:(intros; by apply dget_Some))).
  2: { split_and!; [done..|apply Forall_true; set_solver|eauto]. }
  cbn [rbind]. rewrite Hm, Hmc. cbn [rbind]. destruct (GetMasterCandidateStats d []) as [[mc_now mc_max] possible].
  apply rmapM_VerifyNode, rmap_Ok in Hn as (nodes & -> & Hnodes). cbn [rbind].
  rewrite (proj2 (VerifyGroups_nil (cd_cluster d) (cd_nodegroups d) [])).
  2: { split_and!; [done..|]. apply Forall_true. intros kg. apply not_elem_of_nil. }
  cbn [rbind]. rewrite Hip. cbn [rbind].
  rewrite (proj2 (VerifyDisks_nil _) Hdisks), (proj2 (VerifyPorts_nil _ _) Hports), Hnodes.
  rewrite (proj2 (VerifyIps_nil ips) Hnd), (proj2 (Z.leb_le _ _) Hpool). done.
Qed.

End verify.

Module VerifyDemo.

#[local] Instance demo_floats : FloatText :=
  {| float_repr := λ _, lit "0.0"; float_parse := λ _, Raise Value_error |}.

Definition BES : dict vtype := [(BE_MAXMEM, VTSize); (lit "vcpus", VTInt)].
Definition NICS : dict vtype := [(NIC_MODE, VTString); (NIC_LINK, VTString)].
Definition NDS : dict vtype := [(ND_SSH_PORT, VTInt)].

Definition spec (z : Z) : dict Z := (λ k, (k, z)) <$> ISPECS_PARAMETERS.
Definition policy : ipolicy :=
  Ipolicy (Some [[(ISPECS_MIN, spec 1); (ISPECS_MAX, spec 8)]]) (Some (spec 2)) (Some [DT_DRBD8; DT_PLAIN])
    (Some (OInt 4)) (Some (OInt 32)) [].

Definition params : cluster_params :=
  ClusterParams [] [] [(PP_DEFAULT, [(BE_MAXMEM, OInt 128)])]
    [(PP_DEFAULT, [(NIC_MODE, str_obj "bridged"); (NIC_LINK, str_obj "br0")])]
    [(ND_SSH_PORT, OInt 22)] [] [] [(DT_RBD, [(LDP_ACCESS, str_obj "userspace")])].

Definition a_node (name ip : string) : str * node :=
  (lit name, Node (lit name) (lit ip) (lit ip) 1 0 true false false (Some (lit "g")) true true []
               (Some (lit name))).
Definition a_disk : disk :=
  Disk false None DT_DRBD8 (LDrbd (lit "n1") (lit "n2") 11000 0 0 (lit "s")) [] [lit "n1"; lit "n2"]
    (Some (lit "disk/0")) 1024 (lit "rw") [] None None [] (Some (lit "d")).
Definition an_instance : instance :=
  Instance (lit "web") (lit "n1") [(lit "vcpus", OInt 2)]
    [Nic (lit "aa:00:00:00:00:01") (Some (lit "192.0.2.10")) None [(NIC_LINK, str_obj "br1")] None]
    [lit "d"] (Some 11001) (Some (lit "i")).

Definition data (disks : dict disk) : config_data :=
  ConfigData
    (Cluster 1 params policy 11002 [11002] (lit "n1") (lit "192.0.2.3") (Some 10) [] None None
       (Some (lit "c")))
    [a_node "n1" "192.0.2.1"; a_node "n2" "192.0.2.2"]
    [(lit "g", NodeGroup (lit "default") [lit "n1"; lit "n2"] [] [] MakeEmptyIPolicy 1 0 [] (Some (lit "g")))]
    [(lit "i", an_instance)] [] disks 1.

Definition verify_demo (d : config_data) : exc (list verify_msg) :=
  VerifyConfig BES NICS NDS (λ _, []) [] d.


(** A disk that is missing is not reported: looking for the secondary nodes of the
    instance fails before the check is reached. *)
Lemma missing_disk_raises : verify_demo (data []) = Raise Attribute_error.
Proof. reflexivity. Qed.

(** A master node that is missing is not reported either. *)
Lemma missing_master_raises :
  verify_demo (set_cd_nodes (ddel (lit "n1")) (data [(lit "d", a_disk)])) = Raise Key_error.
Proof. reflexivity. Qed.

(** The ratios of a policy must only convert to numbers: a string passes. *)
#[local] Definition some_floats : FloatText :=
  {| float_repr := λ _, lit "0.0"; float_parse := λ _, Ok (SpecFloat.S754_zero false) |}.
Lemma string_ratio_accepted :
  @VerifyIpolicy some_floats (lit "cluster")
    (Ipolicy (ip_minmax policy) (ip_std policy) (ip_dts policy) (Some (str_obj "0.0")) (ip_spindle_ratio policy) [])
    true = Ok [].
Proof. reflexivity. Qed.
End VerifyDemo.
