(* ===== verification/BlockDev.v ===== *)
(** * Block devices of a node (src/lib/backend.py)

    What the node daemon does with the tree of devices that is a disk: find,
    assemble, create and remove.  The devices themselves (the classes of
    storage/bdev.py, which run the commands of the volume manager, of DRBD and so
    on) are an interface: their operations, and which devices are attached.
    The files of the device cache, which nothing here reads, are left out. *)

From S2P Require Import Prelude Errors PySort PyStr PyVal Algo PyDict Params Disk.
#[local] Open Scope list_scope.
#[local] Open Scope stdpp_scope.
#[local] Open Scope nat_scope.
#[local] Open Scope py_scope.

(** ** Effects *)

(** A computation on a state [S] that returns or raises; what was done before an
    exception stays done. *)
Definition eff (E S A : Type) : Type := S → result E A * S.

#[export] Instance eff_ret {E S} : MRet (eff E S) := λ A a s, (Ok a, s).
#[export] Instance eff_bind {E S} : MBind (eff E S) := λ A B k m s,
  match m s with
  | (Ok a, s) => k a s
  | (Raise e, s) => (Raise e, s)
  end.

Definition fails {E S A} (e : E) : eff E S A := λ s, (Raise e, s).

(** The results of [f] on the elements, in order *)
Fixpoint collect {E S A B} (f : A → eff E S B) (l : list A) : eff E S (list B) :=
  match l with
  | [] => mret []
  | a :: l => b ← f a; bs ← collect f l; mret (b :: bs)
  end.

(** ** The devices *)

(** A device as its parent sees it: the object, or [True] when it was not
    assembled *)
Inductive child_dev := Dev (d : disk) | Yes.

(** A call of an operation of the device that belongs to a disk *)
Inductive bdev_call :=
| Assemble (d : disk) (children : list (option child_dev))
| Create (d : disk) (children : list child_dev) (excl_stor : obj)
| AssembleCreated (d : disk)
| Open (d : disk) (force : bool)
| SetInfo (d : disk) (info : str)
| Remove (d : disk).

Definition call_disk (c : bdev_call) : disk :=
  match c with
  | Assemble d _ | Create d _ _ | AssembleCreated d | Open d _ | SetInfo d _ | Remove d => d
  end.

Definition is_remove (c : bdev_call) : bool := match c with Remove _ => true | _ => false end.

Class BlockDevices (N : Type) := {
  FindDevice : disk → list bool → N → exc bool;
  bdev : bdev_call → eff exn N unit;
  CreateFileStorageDir : str → eff exn N unit;
  attached : N → logical_id → bool
}.

(** What is relied on: a device is found when it is attached; an operation concerns
    its device only; a device that was created is attached until it is removed. *)
Class BlockDevLaws (N : Type) `{BlockDevices N} := {
  FindDevice_attached d cs n : FindDevice d cs n = Ok (attached n (d_logical_id d));
  bdev_frame c n l : l ≠ d_logical_id (call_disk c) → attached (bdev c n).2 l = attached n l;
  bdev_keeps c n l : is_remove c = false → attached n l = true → attached (bdev c n).2 l = true;
  Create_attached d cs e n : (bdev (Create d cs e) n).1 = Ok tt →
                             attached (bdev (Create d cs e) n).2 (d_logical_id d) = true;
  Remove_detached d n : (bdev (Remove d) n).1 = Ok tt →
                        attached (bdev (Remove d) n).2 (d_logical_id d) = false;
  Remove_keeps_off d n l : attached n l = false → attached (bdev (Remove d) n).2 l = false;
  CreateFileStorageDir_frame dir n l : attached (CreateFileStorageDir dir n).2 l = attached n l
}.

(** ** The backend *)

(** [RPCFail], with the message as a value, or another exception *)
Inductive failure :=
| CantAssemble (child : disk) (err : exn)
| CantOpenChild (child : disk) (err : exn)
| CantCreate (err : exn)
| CantAssembleCreated (err : exn)
| CantOpenCreated (err : exn)
| CantRemove (msgs : list failure)
| RemoveError (err : exn).
Inductive backend_exn := RPCFail (msg : failure) | Exn (e : exn).

(** [try: m except errors.BlockDeviceError as err: _Fail(..)] *)
Definition or_fail {N A} (msg : exn → failure) (m : eff exn N A) : eff backend_exn N A := λ n,
  match m n with
  | (Ok a, n) => (Ok a, n)
  | (Raise e, n) => (Raise (if isinstance_exn e BlockDeviceError then RPCFail (msg e) else Exn e), n)
  end.

Definition other_exn {N A} (m : eff exn N A) : eff backend_exn N A := λ n,
  match m n with
  | (Ok a, n) => (Ok a, n)
  | (Raise e, n) => (Raise (Exn e), n)
  end.

Definition when {E N} (b : bool) (m : eff E N unit) : eff E N unit := if b then m else mret tt.

Section backend.
  Context {N : Type} `{BlockDevices N}.
  (** How often the clock lets a failed removal be tried again within the timeout *)
  Context (retries : nat).

Fixpoint RecursiveFindBD (d : disk) (n : N) : exc bool :=
  let* children := rmapM (λ chdisk, RecursiveFindBD chdisk n) (d_children d) in
  FindDevice d children n.

(** How many children may fail to be assembled *)
Definition max_nones (d : disk) : Z :=
  if (ChildrenNeeded d =? -1)%Z then 0 else Z.of_nat (length (d_children d)) - ChildrenNeeded d.

Definition nones {A} (l : list (option A)) : Z := Z.of_nat (length (List.filter (λ o, negb (bool_decide (is_Some o))) l)).

(** The loop over the children, given how one is assembled *)
Fixpoint assemble_children (assemble : disk → eff exn N child_dev) (mcn : Z) (cs : list disk)
    (children : list (option child_dev)) : eff exn N (list (option child_dev)) := λ n,
  match cs with
  | [] => (Ok children, n)
  | c :: cs =>
      match assemble c n with
      | (Ok cdev, n) => assemble_children assemble mcn cs (children ++ [Some cdev]) n
      | (Raise e, n) =>
          if negb (isinstance_exn e BlockDeviceError) || (mcn <=? nones children)%Z then (Raise e, n)
          else assemble_children assemble mcn cs (children ++ [None]) n
      end
  end.

Fixpoint RecursiveAssembleBD (as_primary : bool) (d : disk) : eff exn N child_dev :=
  children ← assemble_children (RecursiveAssembleBD as_primary) (max_nones d) (d_children d) [];
  if as_primary || AssembleOnSecondary d then
    bdev (Assemble d children) ;;
    when (as_primary || OpenOnSecondary d) (bdev (Open d false)) ;;
    mret (Dev d)
  else mret Yes.

(** The children of a device that is to be created: assembled, and open if need be *)
Definition prepare_child (d : disk) (on_primary : bool) (child : disk) : eff backend_exn N child_dev :=
  crdev ← or_fail (CantAssemble child) (RecursiveAssembleBD on_primary child);
  when (on_primary || AssembleOnSecondary d)
    (match crdev with
     | Dev c => or_fail (CantOpenChild child) (bdev (Open c false))
     | Yes => fails (Exn (PyExn AttributeError ""))
     end) ;;
  mret crdev.

Definition BlockdevCreate (d : disk) (on_primary : bool) (info : str) (excl_stor : obj) : eff backend_exn N unit :=
  clist ← collect (prepare_child d on_primary) (d_children d);
  or_fail CantCreate (bdev (Create d clist excl_stor)) ;;
  when (on_primary || AssembleOnSecondary d)
    (or_fail CantAssembleCreated (bdev (AssembleCreated d)) ;;
     when (on_primary || OpenOnSecondary d) (or_fail CantOpenCreated (bdev (Open d true)))) ;;
  other_exn (bdev (SetInfo d info)).

(** [utils.SimpleRetry([], _TryRemove, ..)] *)
Fixpoint try_remove (tries : nat) (d : disk) : eff exn N (list failure) := λ n,
  match bdev (Remove d) n with
  | (Ok _, n) => (Ok [], n)
  | (Raise e, n) =>
      if isinstance_exn e BlockDeviceError then
        match tries with
        | 0 => (Ok [RemoveError e], n)
        | S tries => try_remove tries d n
        end
      else (Raise e, n)
  end.

(** The loop over the children of [BlockdevRemove] *)
Fixpoint remove_children (remove : disk → eff backend_exn N unit) (cs : list disk) (msgs : list failure)
    : eff backend_exn N (list failure) := λ n,
  match cs with
  | [] => (Ok msgs, n)
  | c :: cs =>
      match remove c n with
      | (Ok _, n) => remove_children remove cs msgs n
      | (Raise (RPCFail m), n) => remove_children remove cs (msgs ++ [m]) n
      | (Raise e, n) => (Raise e, n)
      end
  end.

Fixpoint BlockdevRemove (d : disk) : eff backend_exn N unit := λ n,
  let rdev := match RecursiveFindBD d n with
              | Ok b => Ok b
              | Raise e => if isinstance_exn e BlockDeviceError then Ok false else Raise e
              end in
  match rdev with
  | Raise e => (Raise (Exn e), n)
  | Ok found =>
      (msgs ← (if found then other_exn (try_remove retries d) else mret []);
       msgs ← remove_children BlockdevRemove (d_children d) msgs;
       match msgs with
       | [] => mret tt
       | _ => fails (RPCFail (CantRemove msgs))
       end) n
  end.
End backend.
