(* ===== verification/Storage.v ===== *)
(** * Creating the disks of an instance (src/lib/cmdlib/instance_storage.py,
    rpc/node.py)

    The master asks the nodes to create the devices of an instance, one call per
    device and node, and to remove what was created when one of the calls fails.
    A call may be lost before or after the node has executed it; nodes that are
    marked offline are not called.  The configuration is only read.  Exceptions
    keep their class, their texts are left out. *)

From S2P Require Import Prelude Errors PySort PyStr PyVal Algo PyDict Params Disk Paths PyState Config BlockDev.
From stdpp Require Import gmap.
#[local] Open Scope list_scope.
#[local] Open Scope stdpp_scope.
#[local] Open Scope nat_scope.
#[local] Open Scope py_scope.

Definition OpExec_error : exn := GntExn OpExecError [].
Definition OpPrereq_error : exn := GntExn OpPrereqError [].

Definition ND_EXCLUSIVE_STORAGE : str := lit "exclusive_storage".
Definition DT_MIXED : str := lit "mixed".
Definition DTS_FILEBASED : list str := [DT_SHARED_FILE; DT_FILE; DT_GLUSTER].

Definition eff_lift {E S A} (r : exc A) (f : exn → E) : eff E S A := λ s,
  (match r with Ok a => Ok a | Raise e => Raise (f e) end, s).

(** ** Remote calls *)

(** What happens to a request *)
Inductive delivery := Delivered | RequestLost | ReplyLost.

(** [RpcResult.fail_msg] of a call that did not succeed *)
Inductive rpc_failure := Offline | Unreachable | BackendFailed (e : backend_exn).

(** The nodes, what will happen to the calls to come, and the removals about which a
    warning was logged *)
Record world (N : Type) := World {
  w_nodes : str → N;
  w_net : list delivery;
  w_warnings : list (str * disk)
}.
Arguments World {N} w_nodes w_net w_warnings.
Arguments w_nodes {N} w.
Arguments w_net {N} w.
Arguments w_warnings {N} w.

Definition set_w_node {N} (node : str) (n : N) (w : world N) : world N :=
  World (λ x, if decide (x = node) then n else w_nodes w x) (w_net w) (w_warnings w).
Definition next_call {N} (w : world N) : world N := World (w_nodes w) (tail (w_net w)) (w_warnings w).
Definition warn {N} (node : str) (d : disk) : eff exn (world N) unit := λ w,
  (Ok tt, World (w_nodes w) (w_net w) (w_warnings w ++ [(node, d)])).

Definition set_params (p : pdict) (d : disk) : disk :=
  Disk (d_forthcoming d) (d_name d) (d_dev_type d) (d_logical_id d) (d_children d) (d_nodes d) (d_iv_name d)
    (d_size d) (d_mode d) p (d_spindles d) (d_serial_no d) (d_dynamic_params d) (d_uuid d).

Section storage.
  Context {N : Type} `{BlockDevices N}.
  Context (retries : nat) (cfg : config_data) (DISK_LD_DEFAULTS : dict pdict) (enabled_disk_templates : list str).
  (** The order in which a set of nodes is gone through *)
  Context (set_order : list str → list str).

(** The resolver gives no address for a node that is marked offline. *)
Definition rpc_call {A} (node : str) (m : eff backend_exn N A) : eff rpc_failure (world N) A := λ w,
  if match GetNodeInfo cfg node with Some n => n_offline n | None => false end then (Raise Offline, w)
  else
    let w1 := next_call w in
    let '(r, n) := m (w_nodes w node) in
    match default Delivered (head (w_net w)) with
    | Delivered => (match r with Ok a => Ok a | Raise e => Raise (BackendFailed e) end, set_w_node node n w1)
    | RequestLost => (Raise Unreachable, w1)
    | ReplyLost => (Raise Unreachable, set_w_node node n w1)
    end.

(** [AnnotateDiskParams] *)
Definition AnnotateDParamsDRBD (d : disk) (params : list pdict) : exc disk :=
  match params, d_children d with
  | [drbd_params; data_params; meta_params], [dev_data; dev_meta] =>
      do* assert (is_drbd d) in
      Ok (set_children [set_params (FillDict data_params (d_params dev_data) []) dev_data;
                        set_params (FillDict meta_params (d_params dev_meta) []) dev_meta]
            (set_params (FillDict drbd_params (d_params d) []) d))
  | _, _ => Raise Value_error
  end.

Definition AnnotateDParamsGeneric (d : disk) (params : list pdict) : exc disk :=
  do* assert (negb (is_drbd d)) in
  match params with
  | p :: _ => Ok (set_params (FillDict p (d_params d) []) d)
  | [] => Raise (PyExn IndexError "")
  end.

Definition AnnotateDisk (disk_params : dict pdict) (d : disk) : exc disk :=
  if decide (d_dev_type d = DT_DISKLESS) then Ok d
  else
    let* ld_params := ComputeLDParams DISK_LD_DEFAULTS (d_dev_type d) disk_params in
    if is_drbd d then AnnotateDParamsDRBD d ld_params else AnnotateDParamsGeneric d ld_params.

Definition GetInstanceDiskParams (inst : instance) : exc (dict pdict) :=
  let* group := attr n_group (GetNodeInfo cfg (i_primary_node inst)) in
  let* dp := attr g_diskparams (group ≫= GetNodeGroup cfg) in
  Ok (SimpleFillDP (c_params (cd_cluster cfg)) dp).

Definition AnnotateDiskParams (inst : instance) (d : disk) : exc disk :=
  let* disk_params := GetInstanceDiskParams inst in AnnotateDisk disk_params d.

(** [_SingleDiskDictDP]: the disk as it is sent to a node *)
Definition SingleDiskDictDP (node : str) (d : disk) (inst : instance) : exc disk :=
  let* d := AnnotateDiskParams inst d in
  let* disk_node_uuids := GetNodes d (i_primary_node inst) in
  let* ips := rmapM (λ uuid, rmap (pair uuid) (attr n_secondary_ip (GetNodeInfo cfg uuid))) disk_node_uuids in
  UpdateDynamicDiskParams d node (dupdate [] ips).

(** [call_blockdev_create] and [call_blockdev_remove] *)
Definition call_blockdev_create (node : str) (d : disk) (inst : instance) (force_open : bool) (info : str)
    (excl_stor : obj) : eff exn (world N) (result rpc_failure unit) := λ w,
  match SingleDiskDictDP node d inst with
  | Raise e => (Raise e, w)
  | Ok sent => let '(r, w) := rpc_call node (BlockdevCreate sent force_open info excl_stor) w in (Ok r, w)
  end.

Definition call_blockdev_remove (node : str) (d : disk) (inst : instance)
    : eff exn (world N) (result rpc_failure unit) := λ w,
  match SingleDiskDictDP node d inst with
  | Raise e => (Raise e, w)
  | Ok sent => let '(r, w) := rpc_call node (BlockdevRemove retries sent) w in (Ok r, w)
  end.

(** ** Creating *)

Definition CreateSingleBlockDev (node : str) (inst : instance) (d : disk) (info : str) (force_open : bool)
    (excl_stor : obj) : eff exn (world N) unit :=
  r ← call_blockdev_create node d inst force_open info excl_stor;
  eff_lift (GetNodeName cfg node) id ;;
  match r with Ok _ => mret tt | Raise _ => fails OpExec_error end.

(** [DeviceCreationError] with its list, or another exception *)
Inductive create_exn := DeviceCreation (created_devices : list (str * disk)) | Exc (e : exn).

(** The [except] clauses of [_CreateBlockDevInner] *)
Definition with_created (created : list (str * disk)) (e : create_exn) : create_exn :=
  match e with
  | DeviceCreation l => DeviceCreation (l ++ created)
  | Exc e => if isinstance_exn e OpExecError then DeviceCreation created else Exc e
  end.

(** The loop over the children; the list as it is at the end or at an exception *)
Fixpoint create_children (create : disk → eff create_exn (world N) (list (str * disk))) (cs : list disk)
    (created : list (str * disk)) (w : world N) : result create_exn unit * list (str * disk) * world N :=
  match cs with
  | [] => (Ok tt, created, w)
  | c :: cs =>
      match create c w with
      | (Ok devs, w) => create_children create cs (created ++ devs) w
      | (Raise e, w) => (Raise e, created, w)
      end
  end.

Fixpoint CreateBlockDevInner (node : str) (inst : instance) (info : str) (force_open : bool) (excl_stor : obj)
    (force_create : bool) (d : disk) : eff create_exn (world N) (list (str * disk)) := λ w,
  let force_create := force_create || CreateOnSecondary d in
  match create_children (CreateBlockDevInner node inst info force_open excl_stor force_create) (d_children d) [] w with
  | (Raise e, created, w) => (Raise (with_created created e), w)
  | (Ok _, created, w) =>
      if negb force_create then (Ok created, w)
      else match CreateSingleBlockDev node inst d info force_open excl_stor w with
           | (Ok _, w) => (Ok [(node, d)], w)
           | (Raise e, w) => (Raise (with_created created (Exc e)), w)
           end
  end.

Definition GetNdParams (n : node) : exc pdict :=
  let* group_ndparams := attr g_ndparams (n_group n ≫= GetNodeGroup cfg) in
  Ok (FillND (c_params (cd_cluster cfg)) (n_ndparams n) group_ndparams).

Definition IsExclusiveStorageEnabledNode (n : node) : exc obj :=
  let* ndp := GetNdParams n in get_key ndp ND_EXCLUSIVE_STORAGE.

Definition IsExclusiveStorageEnabledNodeUuid (node_uuid : str) : exc obj :=
  match GetNodeInfo cfg node_uuid with
  | None => Raise OpPrereq_error
  | Some ni => IsExclusiveStorageEnabledNode ni
  end.

Definition CreateBlockDev (node : str) (inst : instance) (device : disk) (force_create : bool) (info : str)
    (force_open : bool) : eff create_exn (world N) (list (str * disk)) :=
  d ← eff_lift (AnnotateDiskParams inst device) Exc;
  excl_stor ← eff_lift (IsExclusiveStorageEnabledNodeUuid node) Exc;
  CreateBlockDevInner node inst info force_open excl_stor force_create d.

Fixpoint UndoCreateDisks (disks_created : list (str * disk)) (inst : instance) : eff exn (world N) unit :=
  match disks_created with
  | [] => mret tt
  | (node, d) :: disks_created =>
      r ← call_blockdev_remove node d inst;
      eff_lift (GetNodeName cfg node) id ;;
      match r with Ok _ => mret tt | Raise _ => warn node d end ;;
      UndoCreateDisks disks_created inst
  end.

Definition GetInstanceInfoText (inst : instance) : str := lit "originstname+" ++ i_name inst.

(** [utils.GetDiskTemplate] *)
Definition GetDiskTemplateString (disk_types : list str) : str :=
  match remove_dups disk_types with
  | [] => DT_DISKLESS
  | [t] => t
  | _ => DT_MIXED
  end.

Definition CheckDiskTemplateEnabled (disk_template : str) : exc unit :=
  if negb (bool_decide (disk_template ∈ DISK_TEMPLATES)) then Raise OpPrereq_error
  else if negb (bool_decide (disk_template ∈ enabled_disk_templates)) then Raise OpPrereq_error
  else Ok tt.

(** The nodes, the primary one first *)
Definition target_nodes (inst : instance) (target_node_uuid : option str) (disks : list (option disk))
    : exc (str * list str) :=
  match target_node_uuid with
  | Some t => Ok (t, [t])
  | None =>
      let pnode := i_primary_node inst in
      let* all := rmapM (attr ComputeAllNodes) disks in
      Ok (pnode, pnode :: set_order (List.filter (λ n, negb (bool_decide (n = pnode))) (remove_dups (mjoin all))))
  end.

Definition wanted_template (disk_template : option str) (disks : list (option disk)) : exc str :=
  match disk_template with
  | Some t => Ok t
  | None =>
      let* types := rmapM (attr d_dev_type) disks in
      let t := GetDiskTemplateString types in
      if decide (t = DT_MIXED) then Raise OpExec_error else Ok t
  end.

(** The file storage directory *)
Definition create_storage_dir (pnode disk_template : str) (disks : list (option disk)) : eff exn (world N) unit :=
  if decide (disk_template ∈ DTS_FILEBASED) then
    first ← eff_lift (match disks with d :: _ => attr (λ d, lid_second (d_logical_id d)) d
                                     | [] => Raise (PyExn IndexError "") end) id;
    r ← (λ w, let '(r, w) := rpc_call pnode (other_exn (CreateFileStorageDir (dirname first))) w in (Ok r, w));
    eff_lift (GetNodeName cfg pnode) id ;;
    match r with Ok _ => mret tt | Raise _ => fails OpExec_error end
  else mret tt.

(** One device on one node: the body of the [try] with its [except] clause *)
Definition create_on (inst : instance) (device : option disk) (pnode node : str) (disks_created : list (str * disk))
    : eff exn (world N) (list (str * disk)) := λ w,
  match device with
  | None => (Raise Attribute_error, w)
  | Some device =>
      let f_create := bool_decide (node = pnode) in
      match CreateBlockDev node inst device f_create (GetInstanceInfoText inst) f_create w with
      | (Ok _, w) => (Ok (disks_created ++ [(node, device)]), w)
      | (Raise (DeviceCreation created), w) =>
          (UndoCreateDisks (disks_created ++ created) inst ;; fails OpExec_error) w
      | (Raise (Exc e), w) => (Raise e, w)
      end
  end.

Fixpoint create_all (inst : instance) (pnode : str) (todo : list (option disk * str)) (disks_created : list (str * disk))
    : eff exn (world N) (list (str * disk)) :=
  match todo with
  | [] => mret disks_created
  | (device, node) :: todo =>
      disks_created ← create_on inst device pnode node disks_created;
      create_all inst pnode todo disks_created
  end.

(** The devices that are not skipped *)
Definition not_skipped (to_skip : list nat) (disks : list (option disk)) : list (option disk) :=
  mjoin (imap (λ idx d, if decide (idx ∈ to_skip) then [] else [d]) disks).

(** The disks passed in, or those of the instance *)
Definition wanted_disks (inst : instance) (disks : option (list disk)) : exc (list (option disk)) :=
  match disks with
  | Some ds => Ok (Some <$> ds)
  | None => GetInstanceDisks cfg (default [] (i_uuid inst))
  end.

(** The devices and nodes in the order in which they are created *)
Definition to_create (to_skip : list nat) (disks : list (option disk)) (all_node_uuids : list str)
    : list (option disk * str) :=
  device ← not_skipped to_skip disks; (λ node, (device, node)) <$> all_node_uuids.

Definition CreateDisks (inst : instance) (disk_template : option str) (to_skip : list nat)
    (target_node_uuid : option str) (disks : option (list disk)) : eff exn (world N) (list (str * disk)) :=
  disks ← eff_lift (wanted_disks inst disks) id;
  '(pnode, all_node_uuids) ← eff_lift (target_nodes inst target_node_uuid disks) id;
  t ← eff_lift (wanted_template disk_template disks) id;
  eff_lift (CheckDiskTemplateEnabled t) id ;;
  create_storage_dir pnode t disks ;;
  create_all inst pnode (to_create to_skip disks all_node_uuids) [].
End storage.
