(* ===== verification/StorageProps.v ===== *)
(** * Creating disks leaves nothing behind

    What the operations of a node do to the devices that are attached there, and
    with it what the creation of the disks of an instance does on all nodes. *)

From S2P Require Import Prelude Errors PySort PyStr PyVal Algo PyDict Params ParamsProps Disk Paths.
From S2P Require Import PyState Config BlockDev Storage.
From Stdlib Require Import QArith.
From stdpp Require Import gmap.
#[local] Open Scope list_scope.
#[local] Open Scope stdpp_scope.
#[local] Open Scope nat_scope.
#[local] Open Scope py_scope.

(** The devices of a tree, by their logical ids *)
Fixpoint lids (d : disk) : list logical_id := d_logical_id d :: mjoin (lids <$> d_children d).

Lemma lids_unfold d : lids d = d_logical_id d :: mjoin (lids <$> d_children d).
Proof. by destruct d. Qed.

Lemma lids_elem d l : l ∈ lids d ↔ l = d_logical_id d ∨ ∃ c, c ∈ d_children d ∧ l ∈ lids c.
Proof.
  rewrite lids_unfold, elem_of_cons, list_elem_of_join. split.
  - intros [->|(x & Hl & (c & -> & Hc)%list_elem_of_fmap)]; eauto.
  - intros [->|(c & Hc & Hl)]; [by left|]. right. exists (lids c). split; [done|]. by apply list_elem_of_fmap_2.
Qed.

(** ** On a node *)

Section node.
  Context {N : Type} `{BlockDevLaws N}.

(** Devices stay attached, and new ones are in [L]. *)
Definition grows (L : list logical_id) (n n' : N) : Prop :=
  ∀ l, (attached n l = true → attached n' l = true) ∧
       (attached n' l = true → attached n l = true ∨ l ∈ L).

(** No device becomes attached, and those not in [L] stay as they are. *)
Definition shrinks (L : list logical_id) (n n' : N) : Prop :=
  ∀ l, (attached n' l = true → attached n l = true) ∧
       (attached n l = true → attached n' l = true ∨ l ∈ L).

Lemma node_grows_refl L n : grows L n n.
Proof. intros l; auto. Qed.
Lemma node_grows_trans L n1 n2 n3 : grows L n1 n2 → grows L n2 n3 → grows L n1 n3.
Proof. intros H1 H2 l. specialize (H1 l). specialize (H2 l). naive_solver. Qed.
Lemma grows_mono L L' n n' : L ⊆ L' → grows L n n' → grows L' n n'.
Proof. intros HL Hg l. specialize (Hg l). set_solver. Qed.

Lemma shrinks_refl L n : shrinks L n n.
Proof. intros l; auto. Qed.
Lemma shrinks_trans L n1 n2 n3 : shrinks L n1 n2 → shrinks L n2 n3 → shrinks L n1 n3.
Proof. intros H1 H2 l. specialize (H1 l). specialize (H2 l). naive_solver. Qed.
Lemma shrinks_mono L L' n n' : L ⊆ L' → shrinks L n n' → shrinks L' n n'.
Proof. intros HL Hg l. specialize (Hg l). set_solver. Qed.

(** What a computation does whatever its result *)
Definition does {E A} (R : N → N → Prop) (m : eff E N A) : Prop := ∀ n, R n (m n).2.

Section does.
  Context (R : N → N → Prop) `{!PreOrder R}.

Lemma does_ret {E A} (a : A) : does R (mret a : eff E N A).
Proof. intros n. by simpl. Qed.
Lemma does_fails {E A} (e : E) : does R (fails e : eff E N A).
Proof. intros n. by simpl. Qed.
Lemma does_bind {E A B} (m : eff E N A) (k : A → eff E N B) :
  does R m → (∀ a n n', m n = (Ok a, n') → R n' (k a n').2) → does R (m ≫= k).
Proof.
  intros Hm Hk n. specialize (Hm n). unfold mbind, eff_bind. destruct (m n) as [[a|e] n'] eqn:E1; simpl in *; [|done].
  etrans; [done|]. eauto.
Qed.
Lemma does_or_fail {A} msg (m : eff exn N A) : does R m → does R (or_fail msg m).
Proof. intros Hm n. specialize (Hm n). unfold or_fail. by destruct (m n) as [[] ?]. Qed.
Lemma does_other_exn {A} (m : eff exn N A) : does R m → does R (other_exn m).
Proof. intros Hm n. specialize (Hm n). unfold other_exn. by destruct (m n) as [[] ?]. Qed.
Lemma does_when {E} b (m : eff E N unit) : does R m → does R (when b m).
Proof. intros Hm. destruct b; [done|]. apply does_ret. Qed.
Lemma does_collect {E A B} (f : A → eff E N B) l : (∀ a, a ∈ l → does R (f a)) → does R (collect f l).
Proof.
  induction l as [|a l IH]; intros Hf; simpl; [apply does_ret|].
  apply does_bind; [apply Hf; set_solver|]. intros b n n' _. apply does_bind; [apply IH; set_solver|].
  intros ? ? ? _. apply does_ret.
Qed.
End does.

#[export] Instance grows_preorder L : PreOrder (grows L).
Proof. split; [intros ?; apply node_grows_refl|intros ???; apply node_grows_trans]. Qed.
#[export] Instance shrinks_preorder L : PreOrder (shrinks L).
Proof. split; [intros ?; apply shrinks_refl|intros ???; apply shrinks_trans]. Qed.

Lemma does_mono {E A} (R R' : N → N → Prop) (m : eff E N A) : (∀ n n', R n n' → R' n n') → does R m → does R' m.
Proof. intros HR Hm n. apply HR, Hm. Qed.

(** ** The devices *)

Lemma bdev_grows c : is_remove c = false → does (grows [d_logical_id (call_disk c)]) (bdev c).
Proof.
  intros Hc n l. split; [by apply bdev_keeps|].
  intros Hl. destruct (decide (l = d_logical_id (call_disk c))) as [->|Hne]; [set_solver|].
  rewrite bdev_frame in Hl by done. auto.
Qed.

Lemma bdev_grows_lids c : is_remove c = false → does (grows (lids (call_disk c))) (bdev c).
Proof.
  intros Hc. eapply does_mono; [|by apply bdev_grows]. intros n n'. apply grows_mono.
  intros l ->%list_elem_of_singleton. apply lids_elem. auto.
Qed.

Lemma bdev_remove_shrinks d : does (shrinks [d_logical_id d]) (bdev (Remove d)).
Proof.
  intros n l. split.
  - intros Hl. apply not_false_iff_true. intros Hf. by rewrite (Remove_keeps_off d n l Hf) in Hl.
  - intros Hl. destruct (decide (l = d_logical_id d)) as [->|Hne]; [set_solver|].
    left. by rewrite (bdev_frame (Remove d)).
Qed.

(** ** Assembling and creating *)

Lemma RecursiveAssembleBD_unfold as_primary d :
  RecursiveAssembleBD as_primary d =
  (children ← assemble_children (RecursiveAssembleBD as_primary) (max_nones d) (d_children d) [];
   if as_primary || AssembleOnSecondary d then
     bdev (Assemble d children) ;;
     when (as_primary || OpenOnSecondary d) (bdev (Open d false)) ;;
     mret (Dev d)
   else mret Yes).
Proof. by destruct d. Qed.

Lemma assemble_children_does R `{!PreOrder R} f mcn cs : ∀ acc,
  (∀ c, c ∈ cs → does R (f c)) → does R (assemble_children f mcn cs acc).
Proof.
  induction cs as [|c cs IH]; intros acc Hf n; simpl; [done|].
  pose proof (Hf c ltac:(set_solver) n) as Hc. destruct (f c n) as [[v|e] n']; simpl in *.
  - etrans; [done|]. apply IH. set_solver.
  - case_match; [done|]. etrans; [done|]. apply IH. set_solver.
Qed.

Lemma RecursiveAssembleBD_spec as_primary d :
  does (grows (lids d)) (RecursiveAssembleBD as_primary d) ∧
  ∀ n v n', RecursiveAssembleBD as_primary d n = (Ok v, n') → v = Dev d ∨ v = Yes.
Proof.
  split.
  - induction d as [d IH] using disk_tree_ind. rewrite RecursiveAssembleBD_unfold.
    rewrite Forall_forall in IH. apply does_bind; [apply _| |].
    + apply assemble_children_does; [apply _|]. intros c Hc. eapply does_mono; [|by apply IH].
      intros n n'. apply grows_mono. intros l Hl. apply lids_elem. eauto.
    + intros cs n n' _. revert n'. destruct (as_primary || AssembleOnSecondary d); [|apply does_ret, _].
      apply does_bind; [apply _|by apply (bdev_grows_lids (Assemble d cs))|]. intros _ _ m _. revert m.
      apply does_bind; [apply _| |].
      { apply does_when; [apply _|]. by apply (bdev_grows_lids (Open d false)). }
      intros _ _ m _. revert m. apply does_ret, _.
  - rewrite RecursiveAssembleBD_unfold. intros n v n'. unfold mbind, eff_bind, mret, eff_ret, when.
    repeat case_match; naive_solver.
Qed.

Lemma prepare_child_grows d on_primary c : does (grows (lids c)) (prepare_child d on_primary c).
Proof.
  destruct (RecursiveAssembleBD_spec on_primary c) as [Hg Hv]. apply does_bind; [apply _| |].
  { apply does_or_fail, Hg. }
  intros v n n' Hrun. assert (v = Dev c ∨ v = Yes) as Hvc.
  { unfold or_fail in Hrun. destruct (RecursiveAssembleBD on_primary c n) as [[v'|?] ?] eqn:E; [|done].
    injection Hrun as -> ->. eauto. }
  clear n Hrun. revert n'. apply does_bind; [apply _| |intros _ _ m _; revert m; apply does_ret, _].
  apply does_when; [apply _|]. destruct Hvc as [->| ->]; [|apply does_fails, _].
  apply does_or_fail. by apply (bdev_grows_lids (Open c false)).
Qed.

Lemma after_create_grows d on_primary info :
  does (grows (lids d))
    (when (on_primary || AssembleOnSecondary d)
       (or_fail CantAssembleCreated (bdev (AssembleCreated d)) ;;
        when (on_primary || OpenOnSecondary d) (or_fail CantOpenCreated (bdev (Open d true)))) ;;
     other_exn (bdev (SetInfo d info))).
Proof.
  apply does_bind; [apply _| |].
  - apply does_when; [apply _|]. apply does_bind; [apply _| |].
    { apply does_or_fail. by apply (bdev_grows_lids (AssembleCreated d)). }
    intros _ _ m _. revert m. apply does_when; [apply _|]. apply does_or_fail. by apply (bdev_grows_lids (Open d true)).
  - intros _ _ m _. revert m. apply does_other_exn. by apply (bdev_grows_lids (SetInfo d info)).
Qed.

(** Whatever happens, creating a device touches only the devices of its tree; if it
    succeeds the device is attached. *)
Lemma BlockdevCreate_grows d on_primary info excl :
  does (grows (lids d)) (BlockdevCreate d on_primary info excl).
Proof.
  apply does_bind; [apply _| |].
  { apply does_collect; [apply _|]. intros c Hc. eapply does_mono; [|apply prepare_child_grows].
    intros n n'. apply grows_mono. intros l Hl. apply lids_elem. eauto. }
  intros cs _ n _. revert n. apply does_bind; [apply _| |].
  { apply does_or_fail. by apply (bdev_grows_lids (Create d cs excl)). }
  intros _ _ n _. revert n. apply after_create_grows.
Qed.

(** The device is attached once [Create] has succeeded, and what follows keeps it. *)
Lemma BlockdevCreate_attached d on_primary info excl n n' :
  BlockdevCreate d on_primary info excl n = (Ok tt, n') → attached n' (d_logical_id d) = true.
Proof.
  unfold BlockdevCreate, mbind at 1, eff_bind at 1. destruct (collect _ _ n) as [[cs|?] n1]; [|done].
  unfold mbind at 1, eff_bind at 1, or_fail at 1. pose proof (Create_attached d cs excl n1) as Hc.
  destruct (bdev (Create d cs excl) n1) as [[[]|?] n2]; [|done]. specialize (Hc eq_refl). simpl in Hc.
  intros Hrun. pose proof (after_create_grows d on_primary info n2) as Hg. rewrite Hrun in Hg. by apply Hg.
Qed.

(** ** Removing *)

Lemma RecursiveFindBD_attached d n : RecursiveFindBD d n = Ok (attached n (d_logical_id d)).
Proof.
  induction d as [d IH] using disk_tree_ind.
  assert (RecursiveFindBD d n = let* cs := rmapM (λ c, RecursiveFindBD c n) (d_children d) in FindDevice d cs n) as ->
    by by destruct d.
  rewrite Forall_forall in IH.
  destruct (proj2 (rmapM_returns (λ c, RecursiveFindBD c n) (d_children d))) as [cs ->].
  { apply Forall_forall. eauto. }
  simpl. apply FindDevice_attached.
Qed.

Lemma try_remove_spec tries d n :
  shrinks [d_logical_id d] n (try_remove tries d n).2 ∧
  ((try_remove tries d n).1 = Ok [] → attached (try_remove tries d n).2 (d_logical_id d) = false).
Proof.
  revert n. induction tries as [|tries IH]; intros n; simpl;
    pose proof (bdev_remove_shrinks d n) as Hs; pose proof (Remove_detached d n) as Hd;
    destruct (bdev (Remove d) n) as [[[]|e] n']; simpl in *; [by auto| |by auto|].
  - by case_match.
  - case_match; [|by split].
    destruct (IH n') as [Hs' Hd']. split; [by etrans|done].
Qed.

Lemma remove_children_spec f cs : ∀ msgs n,
  (∀ c, c ∈ cs → ∀ n, shrinks (lids c) n (f c n).2 ∧
     ((f c n).1 = Ok tt → ∀ l, l ∈ lids c → attached (f c n).2 l = false)) →
  shrinks (mjoin (lids <$> cs)) n (remove_children f cs msgs n).2 ∧
  ((remove_children f cs msgs n).1 = Ok [] →
     msgs = [] ∧ ∀ l, l ∈ mjoin (lids <$> cs) → attached (remove_children f cs msgs n).2 l = false).
Proof.
  induction cs as [|c cs IH]; intros msgs n Hf; simpl.
  { split; [apply shrinks_refl|]. intros [= ->]. split; [done|]. by intros l ?%elem_of_nil. }
  destruct (Hf c ltac:(by left) n) as [Hs Hd]. specialize (IH msgs) as IHm.
  assert (∀ n1, shrinks (lids c) n n1 → shrinks (lids c ++ mjoin (lids <$> cs)) n n1) as HL.
  { intros n1. apply shrinks_mono. intros l. rewrite elem_of_app. by left. }
  assert (∀ n1 n2, shrinks (mjoin (lids <$> cs)) n1 n2 → shrinks (lids c ++ mjoin (lids <$> cs)) n1 n2) as HR.
  { intros n1 n2. apply shrinks_mono. intros l. rewrite elem_of_app. by right. }
  destruct (f c n) as [[[]|[m|e]] n1]; simpl in *.
  - destruct (IHm n1) as [Hs1 Hd1]; [intros c' Hc'; apply Hf; by right|]. split; [etrans; eauto|].
    intros Hok. destruct (Hd1 Hok) as [-> Hd2]. split; [done|].
    intros l [Hl|Hl]%elem_of_app; [|by apply Hd2].
    apply not_true_iff_false. intros Ha%Hs1. by rewrite (Hd eq_refl l Hl) in Ha.
  - destruct (IH (msgs ++ [m]) n1) as [Hs1 Hd1]; [intros c' Hc'; apply Hf; by right|]. split; [etrans; eauto|].
    intros Hok. destruct (Hd1 Hok) as [Hn _]. by destruct msgs.
  - split; [by apply HL|done].
Qed.

(** Removing a disk touches only the devices of its tree and attaches none; when it
    succeeds none of them is attached any more. *)
Lemma BlockdevRemove_spec retries d n :
  shrinks (lids d) n (BlockdevRemove retries d n).2 ∧
  ((BlockdevRemove retries d n).1 = Ok tt → ∀ l, l ∈ lids d → attached (BlockdevRemove retries d n).2 l = false).
Proof.
  revert n. induction d as [d IH] using disk_tree_ind. rewrite Forall_forall in IH. intros n.
  assert (BlockdevRemove retries d n =
    (msgs ← (if attached n (d_logical_id d) then other_exn (try_remove retries d) else mret []);
     msgs ← remove_children (BlockdevRemove retries) (d_children d) msgs;
     match msgs with [] => mret tt | _ => fails (RPCFail (CantRemove msgs)) end) n) as ->.
  { pose proof (RecursiveFindBD_attached d n) as Hf. destruct d; cbn [BlockdevRemove]. by rewrite Hf. }
  assert (shrinks [d_logical_id d] n ((if attached n (d_logical_id d) then other_exn (try_remove retries d) else mret []) n).2 ∧
          (((if attached n (d_logical_id d) then other_exn (try_remove retries d) else mret []) n).1 = Ok [] →
           attached ((if attached n (d_logical_id d) then other_exn (try_remove retries d) else mret []) n).2 (d_logical_id d) = false))
    as [Hs Hd].
  { destruct (attached n (d_logical_id d)) eqn:Ha; [|by split; [apply shrinks_refl|]].
    destruct (try_remove_spec retries d n) as [Hs Hd]. unfold other_exn.
    destruct (try_remove retries d n) as [[]]; simpl in *; [|by split]. split; [done|]. intros [= ->]. auto. }
  unfold mbind, eff_bind.
  destruct ((if attached n (d_logical_id d) then other_exn (try_remove retries d) else mret []) n) as [[msgs|e] n1]; simpl in *.
  2: { split; [|done]. eapply shrinks_mono; [|done]. intros l ->%list_elem_of_singleton. apply lids_elem. auto. }
  destruct (remove_children_spec (BlockdevRemove retries) (d_children d) msgs n1) as [Hs1 Hd1]; [done|].
  assert (shrinks (lids d) n (remove_children (BlockdevRemove retries) (d_children d) msgs n1).2) as Hall.
  { rewrite lids_unfold. etrans; (eapply shrinks_mono; [|done]); intros l;
      [intros ->%list_elem_of_singleton; by left|intros ?; by right]. }
  destruct (remove_children (BlockdevRemove retries) (d_children d) msgs n1) as [[msgs'|e] n2]; simpl in *; [|by split].
  destruct msgs' as [|m msgs']; [|by split]. split; [done|]. intros _. destruct (Hd1 eq_refl) as [-> Hd2].
  rewrite lids_unfold. intros l [->|Hl]%elem_of_cons; [|by apply Hd2].
  apply not_true_iff_false. intros Ha%Hs1. by rewrite (Hd eq_refl) in Ha.
Qed.
End node.

(** ** Disks as they are sent *)

Lemma lids_set_params p d : lids (set_params p d) = lids d.
Proof. by destruct d. Qed.

Lemma AnnotateDisk_lids ld dp d d' : AnnotateDisk ld dp d = Ok d' → lids d' = lids d.
Proof.
  unfold AnnotateDisk. case_decide; [by intros [= ->]|]. intros (params & _ & Ha)%rbind_Ok.
  destruct (is_drbd d) eqn:Edrbd.
  - unfold AnnotateDParamsDRBD in Ha. destruct params as [|? [|? [|? []]]]; try done.
    destruct (d_children d) as [|a [|b []]] eqn:Ec; try done. rewrite Edrbd in Ha. simpl in Ha.
    injection Ha as <-. rewrite (lids_unfold d), Ec. by destruct d, a, b.
  - unfold AnnotateDParamsGeneric in Ha. rewrite Edrbd in Ha. simpl in Ha.
    destruct params; [done|]. injection Ha as <-. apply lids_set_params.
Qed.

Lemma UpdateDynamicDiskParams_lids d : ∀ node ips d',
  UpdateDynamicDiskParams d node ips = Ok d' → lids d' = lids d.
Proof.
  induction d as [d IH] using disk_tree_ind. rewrite Forall_forall in IH. intros node ips d'.
  assert (UpdateDynamicDiskParams d node ips =
    let* children := rmapM (λ c, UpdateDynamicDiskParams c node ips) (d_children d) in
    let d := set_children children d in
    let* dyn := if is_drbd d then drbd_dynamic (d_logical_id d) node ips else Ok [] in
    Ok (set_dynamic_params dyn d)) as -> by by destruct d.
  intros (cs & Hcs & (dyn & _ & [= <-])%rbind_Ok)%rbind_Ok.
  rewrite (lids_unfold d), lids_unfold. destruct d as [f na t l ch ? ? ? ? ? ? ? ? ?]; simpl in *. f_equal. f_equal.
  apply rmapM_Ok in Hcs. clear dyn. induction Hcs as [|c c' ch cs Hc _ IHcs]; simpl; [done|].
  f_equal; [apply (IH c ltac:(by left) node ips c' Hc)|]. apply IHcs. intros ? ?. apply IH. by right.
Qed.

(** The devices of a tree, and those that are created: all of them from the first one
    on that has to exist on the node *)
Fixpoint devices (d : disk) : list disk := d :: mjoin (devices <$> d_children d).
Fixpoint created_lids (force_create : bool) (d : disk) : list logical_id :=
  (if force_create || CreateOnSecondary d then [d_logical_id d] else []) ++
  mjoin (created_lids (force_create || CreateOnSecondary d) <$> d_children d).

Lemma created_lids_unfold f d :
  created_lids f d = (if f || CreateOnSecondary d then [d_logical_id d] else []) ++
                     mjoin (created_lids (f || CreateOnSecondary d) <$> d_children d).
Proof. by destruct d. Qed.

Lemma created_lids_all d : created_lids true d = lids d.
Proof.
  induction d as [d IH] using disk_tree_ind. rewrite created_lids_unfold, lids_unfold. simpl. do 2 f_equal.
  induction IH; csimpl; congruence.
Qed.

Lemma created_lids_sub f d : created_lids f d ⊆ lids d.
Proof.
  revert f. induction d as [d IH] using disk_tree_ind. rewrite Forall_forall in IH. intros f l.
  rewrite created_lids_unfold, elem_of_app, lids_elem, list_elem_of_join.
  intros [Hl|(x & Hl & (c & -> & Hc)%list_elem_of_fmap)]; [|right; eauto; by exists c; split; [|eapply IH]].
  left. case_match; [by apply list_elem_of_singleton in Hl|by apply elem_of_nil in Hl].
Qed.

Lemma devices_self d : d ∈ devices d.
Proof. destruct d. by left. Qed.
Lemma devices_child d c d' : c ∈ d_children d → d' ∈ devices c → d' ∈ devices d.
Proof.
  intros Hc Hd. assert (devices d = d :: mjoin (devices <$> d_children d)) as -> by by destruct d.
  right. apply list_elem_of_join. exists (devices c). split; [done|]. by apply list_elem_of_fmap_2.
Qed.

Section creating.
  Context {N : Type} `{BlockDevLaws N}.
  Context (retries : nat) (cfg : config_data) (DISK_LD_DEFAULTS : dict pdict) (enabled_disk_templates : list str).
  Context (set_order : list str → list str) (inst : instance).

#[local] Notation AnnotateDiskParams := (AnnotateDiskParams cfg DISK_LD_DEFAULTS inst).
#[local] Notation SingleDiskDictDP node d := (SingleDiskDictDP cfg DISK_LD_DEFAULTS node d inst).

Lemma AnnotateDiskParams_lids d d' : AnnotateDiskParams d = Ok d' → lids d' = lids d.
Proof. intros (dp & _ & Ha)%rbind_Ok. by eapply AnnotateDisk_lids. Qed.

Lemma SingleDiskDictDP_lids node d s : SingleDiskDictDP node d = Ok s → lids s = lids d.
Proof.
  intros (d1 & Ha & (ns & _ & (ips & _ & Hu)%rbind_Ok)%rbind_Ok)%rbind_Ok.
  apply AnnotateDiskParams_lids in Ha. apply UpdateDynamicDiskParams_lids in Hu. congruence.
Qed.

(** A device is attached on a node. *)
Definition att (w : world N) (node : str) (l : logical_id) : Prop := attached (w_nodes w node) l = true.

(** The list of pairs has a device with this part. *)
Definition covered (devs : list (str * disk)) (node : str) (l : logical_id) : Prop :=
  ∃ d, (node, d) ∈ devs ∧ l ∈ lids d.

Lemma covered_app devs devs' node l : covered (devs ++ devs') node l ↔ covered devs node l ∨ covered devs' node l.
Proof. unfold covered. setoid_rewrite elem_of_app. naive_solver. Qed.

(** ** Calls *)

Lemma rpc_call_spec {A} (R : N → N → Prop) `{!PreOrder R} node (m : eff backend_exn N A) w r w' :
  does R m → rpc_call cfg node m w = (r, w') →
  (∀ n, n ≠ node → w_nodes w' n = w_nodes w n) ∧ w_warnings w' = w_warnings w ∧
  R (w_nodes w node) (w_nodes w' node) ∧
  (∀ a, r = Ok a → m (w_nodes w node) = (Ok a, w_nodes w' node)).
Proof.
  intros Hm. specialize (Hm (w_nodes w node)). unfold rpc_call.
  destruct (match GetNodeInfo cfg node with Some n => n_offline n | None => false end).
  { intros [= <- <-]. by split_and!. }
  destruct (m (w_nodes w node)) as [r0 n0]. simpl in Hm.
  destruct (default Delivered (head (w_net w))); intros [= <- <-]; simpl;
    (split_and!; [|done| |]); rewrite ?decide_True by done; try done; try (by intros n Hn; rewrite decide_False).
  intros a Ha. destruct r0; naive_solver.
Qed.

(** Only [node] changes, where devices are added. *)
Definition only_adds (node : str) (w w' : world N) : Prop :=
  (∀ n, n ≠ node → w_nodes w' n = w_nodes w n) ∧ w_warnings w' = w_warnings w ∧
  (∀ l, att w node l → att w' node l).

Lemma only_adds_refl node w : only_adds node w w.
Proof. by split_and!. Qed.
Lemma only_adds_trans node w1 w2 w3 : only_adds node w1 w2 → only_adds node w2 w3 → only_adds node w1 w3.
Proof.
  intros (H1 & H2 & H3) (H4 & H5 & H6). split_and!; [|congruence|by auto].
  intros n Hn. rewrite H4 by done. by apply H1.
Qed.

Definition sendable (node : str) (d : disk) : Prop := ∃ s, SingleDiskDictDP node d = Ok s.

Lemma CreateSingleBlockDev_spec node d info force_open excl w r w' :
  sendable node d →
  CreateSingleBlockDev cfg DISK_LD_DEFAULTS node inst d info force_open excl w = (r, w') →
  only_adds node w w' ∧ (∀ l, att w' node l → att w node l ∨ l ∈ lids d) ∧
  (r = Ok tt ∧ att w' node (d_logical_id d) ∨ r = Raise OpExec_error).
Proof.
  intros [s Hs]. pose proof (SingleDiskDictDP_lids _ _ _ Hs) as Hl.
  assert (d_logical_id s = d_logical_id d) as Hid.
  { rewrite (lids_unfold s), (lids_unfold d) in Hl. by injection Hl. }
  unfold CreateSingleBlockDev, mbind, eff_bind, call_blockdev_create. rewrite Hs.
  destruct (rpc_call cfg node (BlockdevCreate s force_open info excl) w) as [r1 w1] eqn:Ecall.
  destruct (rpc_call_spec (grows (lids s)) _ _ _ _ _ (BlockdevCreate_grows s force_open info excl) Ecall)
    as (Hn & Hw & Hg & Hok).
  assert (only_adds node w w1 ∧ (∀ l, att w1 node l → att w node l ∨ l ∈ lids d)) as [Ho Hnew].
  { split; [split_and!; [done|done|]; intros l; apply Hg|]. intros l. rewrite <-Hl. apply Hg. }
  unfold eff_lift, GetNodeName. destruct (GetNodeInfo cfg node); [|by intros [= <- <-]; auto].
  destruct r1 as [[]|]; intros [= <- <-]; [|by auto].
  split_and!; [done|done|]. left. split; [done|]. unfold att. rewrite <-Hid.
  eapply BlockdevCreate_attached. by apply Hok.
Qed.

(** What creating devices comes to: [L] are the devices that are created, [D] those
    that may be listed as created *)
Definition outcome (node : str) (L : list logical_id) (D : list disk) (w w' : world N)
    (r : result create_exn (list (str * disk))) : Prop :=
  only_adds node w w' ∧
  match r with
  | Ok devs =>
      (∀ l, att w' node l ↔ att w node l ∨ l ∈ L) ∧ (∀ l, l ∈ L → covered devs node l) ∧
      (∀ p, p ∈ devs → p.1 = node ∧ p.2 ∈ D)
  | Raise (DeviceCreation devs) =>
      (∃ failed, ∀ l, att w' node l → att w node l ∨ covered devs node l ∨ l = failed) ∧
      (∀ p, p ∈ devs → p.1 = node ∧ p.2 ∈ D)
  | Raise (Exc _) => False
  end.

Lemma create_children_outcome node (f : disk → eff create_exn (world N) (list (str * disk)))
    (L : disk → list logical_id) (D : disk → list disk) cs : ∀ created w r created' w',
  (∀ c w r w', c ∈ cs → f c w = (r, w') → outcome node (L c) (D c) w w' r) →
  create_children f cs created w = (r, created', w') →
  ∃ devs, created' = created ++ devs ∧
    outcome node (mjoin (L <$> cs)) (mjoin (D <$> cs)) w w'
      (match r with Ok _ => Ok devs | Raise e => Raise (with_created devs e) end).
Proof.
  induction cs as [|c cs IH]; intros created w r created' w' Hf; simpl.
  { intros [= <- <- <-]. exists []. rewrite app_nil_r. split; [done|]. split; [apply only_adds_refl|].
    split_and!; [|by intros l ?%elem_of_nil|by intros p ?%elem_of_nil].
    intros l. split; [by left|by intros [|?%elem_of_nil]]. }
  destruct (f c w) as [[devs1|e] w1] eqn:Ec; pose proof (Hf c w _ w1 ltac:(by left) Ec) as [Ho Hr].
  - intros Hrun. destruct (IH _ _ _ _ _ ltac:(intros; eapply Hf; [by right|done]) Hrun) as (devs2 & -> & Ho2 & Hr2).
    destruct Hr as (Hatt & Hcov & Hdev). exists (devs1 ++ devs2). split; [by rewrite app_assoc|].
    split; [by eapply only_adds_trans|].
    destruct r as [[]|[l0|e]]; simpl in Hr2 |- *.
    + destruct Hr2 as (Hatt2 & Hcov2 & Hdev2). split_and!.
      * intros l. rewrite Hatt2, Hatt, elem_of_app. tauto.
      * intros l. rewrite covered_app, elem_of_app. naive_solver.
      * intros p. rewrite !elem_of_app. naive_solver.
    + destruct Hr2 as ((failed & Hf2) & Hdev2). split.
      * exists failed. intros l Hl. rewrite !covered_app in *. destruct (Hf2 l Hl) as [Hl1|Hl2]; [|rewrite covered_app in Hl2; tauto].
        apply Hatt in Hl1. naive_solver.
      * intros p. specialize (Hdev2 p). specialize (Hdev p). rewrite !elem_of_app in *. naive_solver.
    + destruct (isinstance_exn e OpExecError); [|done]. destruct Hr2 as ((failed & Hf2) & Hdev2). split.
      * exists failed. intros l Hl. rewrite covered_app. destruct (Hf2 l Hl) as [Hl1|Hl2]; [|tauto].
        apply Hatt in Hl1. naive_solver.
      * intros p. rewrite !elem_of_app. naive_solver.
  - intros [= <- <- <-]. exists []. rewrite app_nil_r. split; [done|]. split; [done|].
    destruct e as [l0|e]; simpl; [|done]. destruct Hr as [Hr Hdev]. rewrite app_nil_r. split; [done|].
    intros p Hp. destruct (Hdev p Hp). split; [done|]. apply elem_of_app. by left.
Qed.

Lemma CreateBlockDevInner_unfold node info force_open excl force d w :
  CreateBlockDevInner cfg DISK_LD_DEFAULTS node inst info force_open excl force d w =
  match create_children (CreateBlockDevInner cfg DISK_LD_DEFAULTS node inst info force_open excl
                           (force || CreateOnSecondary d)) (d_children d) [] w with
  | (Raise e, created, w) => (Raise (with_created created e), w)
  | (Ok _, created, w) =>
      if negb (force || CreateOnSecondary d) then (Ok created, w)
      else match CreateSingleBlockDev cfg DISK_LD_DEFAULTS node inst d info force_open excl w with
           | (Ok _, w) => (Ok [(node, d)], w)
           | (Raise e, w) => (Raise (with_created created (Exc e)), w)
           end
  end.
Proof. by destruct d. Qed.

(** Adding the device itself to what its children came to *)
Lemma outcome_device node d devs w w1 w2 r :
  (∀ l, l ∈ mjoin (lids <$> d_children d) → covered devs node l) →
  outcome node (mjoin (lids <$> d_children d)) (mjoin (devices <$> d_children d)) w w1 (Ok devs) →
  only_adds node w1 w2 → (∀ l, att w2 node l → att w1 node l ∨ l ∈ lids d) →
  (r = Ok tt ∧ att w2 node (d_logical_id d) ∨ r = Raise OpExec_error) →
  outcome node (lids d) (devices d) w w2
    (match r with Ok _ => Ok [(node, d)] | Raise e => Raise (with_created devs (Exc e)) end).
Proof.
  intros Hall (Ho & Hatt & _ & Hdev) Ho2 Hnew Hr. split; [by eapply only_adds_trans|].
  assert (∀ l, l ∈ mjoin (lids <$> d_children d) → att w2 node l) as Hch.
  { intros l Hl. apply Ho2. apply Hatt. by right. }
  destruct Hr as [[-> Hd]| ->]; simpl.
  - split_and!.
    + intros l. split.
      * intros [Hl|Hl]%Hnew; [|by right]. apply Hatt in Hl as [Hl|Hl]; [by left|]. right. rewrite lids_unfold. by right.
      * intros [Hl|Hl]; [by apply Ho2, Ho|]. rewrite lids_unfold in Hl. apply elem_of_cons in Hl as [->|Hl]; auto.
    + intros l Hl. exists d. split; [by left|done].
    + intros p ->%list_elem_of_singleton. split; [done|apply devices_self].
  - split.
    + exists (d_logical_id d). intros l Hl. apply Hnew in Hl as [Hl|Hl].
      * apply Hatt in Hl as [Hl|Hl]; auto.
      * rewrite lids_unfold in Hl. apply elem_of_cons in Hl as [->|Hl]; auto.
    + intros p Hp. destruct (Hdev p Hp) as [? Hin]. split; [done|].
      apply list_elem_of_join in Hin as (x & Hx & (c & -> & Hc)%list_elem_of_fmap). by eapply devices_child.
Qed.

Lemma created_children_all cs : mjoin (created_lids true <$> cs) = mjoin (lids <$> cs).
Proof. f_equal. apply list_fmap_ext. intros ? c _. apply created_lids_all. Qed.

Lemma CreateBlockDevInner_outcome node info force_open excl d : ∀ force w r w',
  (∀ d', d' ∈ devices d → sendable node d') →
  CreateBlockDevInner cfg DISK_LD_DEFAULTS node inst info force_open excl force d w = (r, w') →
  outcome node (created_lids force d) (devices d) w w' r.
Proof.
  induction d as [d IH] using disk_tree_ind. rewrite Forall_forall in IH. intros force w r w' Hsend.
  rewrite CreateBlockDevInner_unfold, created_lids_unfold. set (force' := force || CreateOnSecondary d).
  destruct (create_children _ _ _ _) as [[r1 created] w1] eqn:Ech.
  eapply (create_children_outcome node _ (created_lids force') devices) in Ech as (devs & Hcr & Hout).
  2: { intros c w2 r2 w2' Hc. apply IH; [done|]. intros d' Hd'. apply Hsend. by eapply devices_child. }
  simpl in Hcr. subst created.
  assert (∀ p : str * disk, p.2 ∈ mjoin (devices <$> d_children d) → p.2 ∈ devices d) as Hsub.
  { intros p (x & Hx & (c & -> & Hc)%list_elem_of_fmap)%list_elem_of_join. by eapply devices_child. }
  destruct r1 as [[]|e].
  - destruct force' eqn:Ef; simpl.
    + rewrite created_children_all in Hout.
      assert (∀ l, l ∈ mjoin (lids <$> d_children d) → covered devs node l) as Hall by apply Hout.
      destruct (CreateSingleBlockDev _ _ _ _ _ _ _ _ _) as [r2 w2] eqn:Es.
      destruct (CreateSingleBlockDev_spec _ _ _ _ _ _ _ _ (Hsend d (devices_self d)) Es) as (Ho & Hnew & Hr).
      rewrite created_children_all, <-lids_unfold.
      pose proof (outcome_device _ _ _ _ _ _ _ Hall Hout Ho Hnew Hr) as Hres.
      by destruct r2; intros [= <- <-].
    + intros [= <- <-]. destruct Hout as (Ho & Hatt & Hcov & Hdev). split_and!; [done..|].
      intros p Hp. destruct (Hdev p Hp). auto.
  - intros [= <- <-]. destruct Hout as (Ho & Hr). split; [done|].
    destruct (with_created devs e); [|done]. destruct Hr as [Hr Hdev]. split; [done|].
    intros p Hp. destruct (Hdev p Hp). auto.
Qed.

Lemma AnnotateDiskParams_created d d' f : AnnotateDiskParams d = Ok d' → created_lids f d' = created_lids f d.
Proof.
  intros (dp & _ & Ha)%rbind_Ok. revert Ha. unfold AnnotateDisk. case_decide; [by intros [= ->]|].
  intros (params & _ & Ha)%rbind_Ok. destruct (is_drbd d) eqn:Edrbd.
  - unfold AnnotateDParamsDRBD in Ha. destruct params as [|? [|? [|? []]]]; try done.
    destruct (d_children d) as [|a [|b []]] eqn:Ec; try done. rewrite Edrbd in Ha. simpl in Ha.
    injection Ha as <-. rewrite (created_lids_unfold f d), Ec. by destruct d, a, b.
  - unfold AnnotateDParamsGeneric in Ha. rewrite Edrbd in Ha. simpl in Ha.
    destruct params; [done|]. injection Ha as <-. by destruct d.
Qed.

(** What the configuration must provide for a disk on a node: the disk and its
    devices can be sent there, and the node is known *)
Definition prepared (node : str) (d : disk) : Prop :=
  sendable node d ∧
  (∃ a, AnnotateDiskParams d = Ok a ∧ ∀ d', d' ∈ devices a → sendable node d') ∧
  (∃ x, IsExclusiveStorageEnabledNodeUuid cfg node = Ok x).

(** A pair in the list of created disks that can be removed again *)
Definition removable (p : str * disk) : Prop := sendable p.1 p.2 ∧ is_Some (GetNodeInfo cfg p.1).

Lemma exclusive_known node x : IsExclusiveStorageEnabledNodeUuid cfg node = Ok x → is_Some (GetNodeInfo cfg node).
Proof. unfold IsExclusiveStorageEnabledNodeUuid. destruct (GetNodeInfo cfg node); [eauto|done]. Qed.

Lemma CreateBlockDev_outcome node d force info force_open w r w' :
  prepared node d →
  CreateBlockDev cfg DISK_LD_DEFAULTS node inst d force info force_open w = (r, w') →
  ∃ D, outcome node (created_lids force d) D w w' r ∧ ∀ d', d' ∈ D → removable (node, d').
Proof.
  intros (_ & (a & Ha & Hsend) & (x & Hx)). unfold CreateBlockDev, mbind, eff_bind, eff_lift. rewrite Ha, Hx.
  intros Hrun. exists (devices a). rewrite <-(AnnotateDiskParams_created _ _ force Ha).
  split; [by eapply CreateBlockDevInner_outcome|]. intros d' Hd'. split; [by apply Hsend|by eapply exclusive_known].
Qed.

(** ** Undoing *)

Lemma UndoCreateDisks_spec devs : ∀ w r w',
  (∀ p, p ∈ devs → removable p) →
  UndoCreateDisks retries cfg DISK_LD_DEFAULTS devs inst w = (r, w') →
  r = Ok tt ∧ (∀ n l, att w' n l → att w n l) ∧ (∃ more, w_warnings w' = w_warnings w ++ more) ∧
  (∀ n l, covered devs n l → att w' n l → covered (w_warnings w') n l).
Proof.
  induction devs as [|[node d] devs IH]; intros w r w' Hp; simpl.
  { intros [= <- <-]. split_and!; [done..|exists []; by rewrite app_nil_r|]. by intros n l (? & ?%elem_of_nil & _). }
  destruct (Hp (node, d) ltac:(by left)) as [[s Hs] [nd Hnd]]. simpl in Hs, Hnd.
  unfold mbind, eff_bind, call_blockdev_remove at 1. rewrite Hs.
  destruct (rpc_call cfg node (BlockdevRemove retries s) w) as [r1 w1] eqn:Ecall.
  destruct (rpc_call_spec (shrinks (lids s)) _ _ _ _ _ (λ n, proj1 (BlockdevRemove_spec retries s n)) Ecall)
    as (Hn & Hw & Hsh & Hok).
  unfold eff_lift, GetNodeName. rewrite Hnd.
  assert (∀ n l, att w1 n l → att w n l) as Hback.
  { intros n l. unfold att. destruct (decide (n = node)) as [->|Hne]; [apply Hsh|by rewrite Hn]. }
  assert (∃ w2, (match r1 with Ok _ => mret tt | Raise _ => warn node d end) w1 = (Ok tt, w2) ∧
                w_nodes w2 = w_nodes w1 ∧ (∃ more, w_warnings w2 = w_warnings w1 ++ more) ∧
                ∀ l, l ∈ lids d → att w2 node l → covered (w_warnings w2) node l) as (w2 & -> & Hnodes & Hmore & Hgone).
  { destruct r1 as [[]|e].
    - exists w1. split_and!; [done..|exists []; by rewrite app_nil_r|]. intros l Hl Ha. exfalso.
      pose proof (Hok tt eq_refl) as Hrun. destruct (BlockdevRemove_spec retries s (w_nodes w node)) as [_ Hd].
      rewrite Hrun in Hd. simpl in Hd. rewrite <-(SingleDiskDictDP_lids _ _ _ Hs) in Hl.
      unfold att in Ha. by rewrite (Hd eq_refl l Hl) in Ha.
    - eexists. split_and!; [done|done|by eexists|]. intros l Hl _. exists d. simpl. split; [|done].
      apply elem_of_app. right. by left. }
  intros Hrun. destruct (IH w2 r w' ltac:(intros; apply Hp; by right) Hrun) as (-> & Hb2 & (more & Hmo) & Hcov).
  assert (∀ n l, att w2 n l ↔ att w1 n l) as Heq by (intros; unfold att; by rewrite Hnodes).
  assert (∀ n l, covered (w_warnings w2) n l → covered (w_warnings w') n l) as Hwarn.
  { intros n l. rewrite Hmo, covered_app. by left. }
  split_and!; [done| | |].
  - intros n l Hl. by apply Hback, Heq, Hb2.
  - destruct Hmore as [more0 Hm0]. exists (more0 ++ more). by rewrite Hmo, Hm0, Hw, app_assoc.
  - intros n l (d' & [[= -> ->]|Hin]%elem_of_cons & Hl) Ha; [|apply Hcov; [by exists d'|done]]. auto.
Qed.

(** ** All devices *)

(** What creating a list of devices on nodes comes to, when [created] were created
    before: all of them and nothing else, or at most one device that failed and what
    could not be removed *)
Definition all_created (pnode : str) (todo : list (option disk * str)) (created : list (str * disk)) (w w' : world N)
    (r : exc (list (str * disk))) : Prop :=
  match r with
  | Ok res =>
      res = created ++ omap (λ dn, pair dn.2 <$> dn.1) todo ∧ w_warnings w' = w_warnings w ∧
      ∀ n l, att w' n l ↔
             att w n l ∨ ∃ d, (Some d, n) ∈ todo ∧ l ∈ created_lids (bool_decide (n = pnode)) d
  | Raise e =>
      e = OpExec_error ∧
      (∃ failed, ∀ n l, att w' n l → att w n l ∨ (n, l) = failed ∨ covered (w_warnings w') n l) ∧
      (∀ n l, covered created n l → att w' n l → covered (w_warnings w') n l)
  end.

Lemma create_on_spec pnode node d created w r w' :
  prepared node d → (∀ p, p ∈ created → removable p) →
  create_on retries cfg DISK_LD_DEFAULTS inst (Some d) pnode node created w = (r, w') →
  all_created pnode [(Some d, node)] created w w' r.
Proof.
  intros Hd Hrem. unfold create_on.
  destruct (CreateBlockDev _ _ _ _ _ _ _ _ _) as [r1 w1] eqn:Ecr.
  destruct (CreateBlockDev_outcome _ _ _ _ _ _ _ _ Hd Ecr) as (D & [(Hn & Hw & Hadd) Hout] & HD).
  destruct r1 as [devs|[devs|e]]; [| |done].
  - destruct Hout as (Hatt & _ & _). intros [= <- <-]. split_and!; [done|done|].
    intros n l. setoid_rewrite list_elem_of_singleton. destruct (decide (n = node)) as [->|Hne]; [rewrite Hatt; naive_solver|].
    unfold att. rewrite Hn by done. naive_solver.
  - unfold mbind, eff_bind. destruct Hout as [[failed Hf] Hdev].
    destruct (UndoCreateDisks _ _ _ _ _ _) as [r2 w2] eqn:Eundo.
    apply UndoCreateDisks_spec in Eundo as (-> & Hback & _ & Hcov).
    2: { intros p [Hp|Hp]%elem_of_app; [by apply Hrem|]. destruct (Hdev p Hp) as [Hp1 Hp2].
         destruct p as [n0 d0]; simpl in *; subst. by apply HD. }
    intros [= <- <-]. split_and!; [done| |].
    + exists (node, failed). intros n l Hl. destruct (decide (n = node)) as [->|Hne].
      * destruct (Hf l (Hback _ _ Hl)) as [?|[Hc| ->]]; [by left| |by right; left].
        right. right. apply Hcov; [|done]. rewrite covered_app. by right.
      * left. apply Hback in Hl. unfold att in *. by rewrite <-Hn.
    + intros n l Hc. apply Hcov. rewrite covered_app. by left.
Qed.

Lemma create_all_spec pnode todo : ∀ created w r w',
  (∀ device node, (device, node) ∈ todo → ∃ d, device = Some d ∧ prepared node d) →
  (∀ p, p ∈ created → removable p) →
  create_all retries cfg DISK_LD_DEFAULTS inst pnode todo created w = (r, w') →
  all_created pnode todo created w w' r.
Proof.
  induction todo as [|[device node] todo IH]; intros created w r w' Hprep Hrem; cbn [create_all].
  { intros [= <- <-]. split_and!; [by rewrite app_nil_r|done|]. intros n l. split; [by left|].
    by intros [|(d & ?%elem_of_nil & _)]. }
  destruct (Hprep device node ltac:(by left)) as (d & -> & Hd). unfold mbind, eff_bind.
  destruct (create_on _ _ _ _ _ _ _ _ _) as [[created1|e] w1] eqn:Eon;
    apply create_on_spec in Eon; [|done|done| |done|done].
  2: { by intros [= <- <-]. }
  destruct Eon as (-> & Hw & Hatt1). setoid_rewrite list_elem_of_singleton in Hatt1. intros Hrun. eapply IH in Hrun.
  2: { intros; apply Hprep. by right. }
  2: { intros p [Hp| ->%list_elem_of_singleton]%elem_of_app; [by apply Hrem|].
       destruct Hd as (? & _ & x & Hx). split; [done|by eapply exclusive_known]. }
  destruct r as [res|e].
  - destruct Hrun as (-> & Hw' & Ha). split_and!; [by rewrite <-app_assoc|congruence|].
    intros n l. rewrite Ha, Hatt1. setoid_rewrite elem_of_cons. naive_solver.
  - destruct Hrun as (-> & (failed & Hf) & Hcov). split_and!; [done| |].
    + exists failed. intros n l Hl. destruct (Hf n l Hl) as [Ha|Ha]; [|by right].
      apply Hatt1 in Ha as [Ha|(d' & [= -> ->] & Hc)]; [by left|]. right. right. apply Hcov; [|done].
      exists d. split; [apply elem_of_app; right; by left|]. by eapply created_lids_sub.
    + intros n l (d' & Hin & Hl). apply Hcov. exists d'. split; [|done]. apply elem_of_app. by left.
Qed.

Lemma create_storage_dir_frame pnode t disks w r w' :
  create_storage_dir cfg pnode t disks w = (r, w') →
  (∀ n l, att w' n l ↔ att w n l) ∧ w_warnings w' = w_warnings w.
Proof.
  unfold create_storage_dir. case_decide; [|by intros [= _ <-]].
  unfold mbind, eff_bind, eff_lift. destruct (match disks with [] => _ | _ => _ end) as [first|e]; [|by intros [= _ <-]].
  destruct (rpc_call _ _ _ _) as [r1 w1] eqn:Ecall.
  set (same := λ n n' : N, ∀ l, attached n' l = true ↔ attached n l = true).
  assert (PreOrder same) as Hpre by (split; [by intros ??|intros ??? Hx Hy l; by rewrite (Hy l)]).
  assert (does same (other_exn (CreateFileStorageDir (dirname first)))) as Hdoes.
  { apply does_other_exn. intros n l. by rewrite CreateFileStorageDir_frame. }
  destruct (rpc_call_spec same _ _ _ _ _ Hdoes Ecall) as (Hn & Hw & Hs & _).
  assert ((∀ n l, att w1 n l ↔ att w n l) ∧ w_warnings w1 = w_warnings w) as Hw1.
  { split; [|done]. intros n l. unfold att. destruct (decide (n = pnode)) as [->|Hne]; [apply Hs|by rewrite Hn]. }
  destruct (GetNodeName cfg pnode); [|by intros [= _ <-]]. by destruct r1; intros [= _ <-].
Qed.

Lemma to_create_elem to_skip ds nodes device node :
  (device, node) ∈ to_create to_skip ds nodes ↔ device ∈ not_skipped to_skip ds ∧ node ∈ nodes.
Proof.
  unfold to_create. rewrite list_elem_of_bind. setoid_rewrite list_elem_of_fmap. naive_solver.
Qed.

End creating.

(** ** Examples *)

Module StorageDemo.

(** A node whose devices are a list; some cannot be created. *)
Record dnode := DNode { dn_attached : list logical_id; dn_broken : list logical_id }.

Definition Block_error : exn := GntExn BlockDeviceError [].

Definition demo_bdev (c : bdev_call) : eff exn dnode unit := λ n,
  let l := d_logical_id (call_disk c) in
  match c with
  | Create _ _ _ => if decide (l ∈ dn_broken n) then (Raise Block_error, n)
                    else (Ok tt, DNode (l :: dn_attached n) (dn_broken n))
  | Remove _ => (Ok tt, DNode (List.filter (λ x, negb (bool_decide (x = l))) (dn_attached n)) (dn_broken n))
  | _ => if decide (l ∈ dn_attached n) then (Ok tt, n) else (Raise Block_error, n)
  end.

#[local] Instance demo_devices : BlockDevices dnode :=
  {| FindDevice := λ d _ n, Ok (bool_decide (d_logical_id d ∈ dn_attached n));
     bdev := demo_bdev;
     CreateFileStorageDir := λ _ n, (Ok tt, n);
     attached := λ n l, bool_decide (l ∈ dn_attached n) |}.

Lemma demo_remove_elem d n l :
  l ∈ dn_attached (demo_bdev (Remove d) n).2 ↔ l ∈ dn_attached n ∧ l ≠ d_logical_id d.
Proof.
  simpl. rewrite !list_elem_of_In, filter_In. destruct (decide (l = d_logical_id d)) as [->|Hne].
  - rewrite bool_decide_true by done. naive_solver.
  - rewrite bool_decide_false by done. naive_solver.
Qed.

#[local] Instance demo_laws : BlockDevLaws dnode.
Proof.
  split; simpl.
  - done.
  - intros c n l Hl. apply bool_decide_ext. destruct c; simpl in *; try (case_decide; simpl; set_solver).
    pose proof (demo_remove_elem d n l). set_solver.
  - intros c n l Hc. rewrite !bool_decide_eq_true. destruct c; simpl in *; try case_decide; simpl; set_solver.
  - intros d cs e n. rewrite bool_decide_eq_true. case_decide; simpl; set_solver.
  - intros d n _. apply bool_decide_eq_false. pose proof (demo_remove_elem d n (d_logical_id d)). naive_solver.
  - intros d n l. rewrite !bool_decide_eq_false. pose proof (demo_remove_elem d n l). naive_solver.
  - done.
Qed.

(** Two nodes and an instance with a DRBD disk on both *)
Definition a_disk (t : str) (l : logical_id) (cs : list disk) : disk :=
  Disk false None t l cs [] None 1024 (lit "rw") [] None None [] None.
Definition lv (name : string) : logical_id := LPair (lit "xenvg") (lit name).
Definition drbd0 : logical_id := LDrbd (lit "n1") (lit "n2") 11000 0 0 (lit "secret").
Definition disk0 : disk :=
  a_disk DT_DRBD8 drbd0 [a_disk DT_PLAIN (lv "data") []; a_disk DT_PLAIN (lv "meta") []].

Definition LD_DEFAULTS : dict pdict := [(DT_DRBD8, []); (DT_PLAIN, [(lit "stripes", OInt 1)])].
Definition group_params : dict pdict :=
  [(DT_DRBD8, ((λ p, (lit p.2, OInt 0)) <$> LD_DRBD_KEYS) ++ [(lit "data-stripes", OInt 2); (lit "meta-stripes", OInt 1)]);
   (DT_PLAIN, [(lit "stripes", OInt 1)])].
Definition a_node (name : string) : str * node :=
  (lit name, Node (lit name) (lit "192.0.2.1") (lit "198.51.100.1") 1 (inject_Z 0) true false false (Some (lit "g"))
               true true [] (Some (lit name))).
Definition data : config_data :=
  ConfigData (Cluster 1 (ClusterParams [] [] [] [] [(ND_EXCLUSIVE_STORAGE, OBool false)] [] [] group_params)
                MakeEmptyIPolicy 11000 [] (lit "n1") (lit "192.0.2.1") (Some 3%Z) [] (Some (lit "xenvg")) None (Some (lit "c")))
    [a_node "n1"; a_node "n2"] [(lit "g", NodeGroup (lit "g") [lit "n1"; lit "n2"] [] [] MakeEmptyIPolicy 1 (inject_Z 0) [] (Some (lit "g")))]
    [] [] [] 1.
Definition inst0 : instance := Instance (lit "web") (lit "n1") [] [] [] None (Some (lit "i")).

(** On the second node one volume cannot be created. *)
Definition w0 (broken : list logical_id) (net : list delivery) : world dnode :=
  World (λ n, DNode [] (if decide (n = lit "n2") then broken else [])) net [].

Definition create (broken : list logical_id) (net : list delivery) : exc (list (str * disk)) * world dnode :=
  CreateDisks 2 data LD_DEFAULTS [DT_DRBD8] remove_dups inst0 None [] None (Some [disk0]) (w0 broken net).

Lemma all_prepared ds pnode nodes device node :
  wanted_disks data inst0 (Some [disk0]) = Ok ds → target_nodes remove_dups inst0 None ds = Ok (pnode, nodes) →
  device ∈ not_skipped [] ds → node ∈ nodes → ∃ d, device = Some d ∧ prepared data LD_DEFAULTS inst0 node d.
Proof.
  intros [= <-] Ht. vm_compute in Ht. injection Ht as <- <-. intros ->%list_elem_of_singleton Hn.
  exists disk0. split; [done|]. unfold prepared, sendable.
  rewrite !elem_of_cons, elem_of_nil in Hn. destruct Hn as [->|[->|[]]];
    (split_and!; [by eexists; vm_compute| |by eexists; vm_compute]); eexists; (split; [by vm_compute|]);
    intros d' Hd'; repeat (apply elem_of_cons in Hd' as [->|Hd']; [by eexists; vm_compute|]); by apply elem_of_nil in Hd'.
Qed.

(** With everything in order all six devices exist; when a volume cannot be created
    on the second node, or the answer of that node is lost, nothing is left but,
    in the second case, the volume whose creation was reported as failed. *)
Lemma creations :
  (let '(r, w) := create [] [] in
   r = Ok [(lit "n1", disk0); (lit "n2", disk0)] ∧
   dn_attached (w_nodes w (lit "n1")) = [drbd0; lv "meta"; lv "data"] ∧
   dn_attached (w_nodes w (lit "n2")) = [drbd0; lv "meta"; lv "data"]) ∧
  (let '(r, w) := create [] [Delivered; Delivered; Delivered; Delivered; ReplyLost] in
   r = Raise OpExec_error ∧ dn_attached (w_nodes w (lit "n1")) = [] ∧
   dn_attached (w_nodes w (lit "n2")) = [lv "meta"]).
Proof. by vm_compute. Qed.


(** An exception that is not [OpExecError] is not undone: with a secondary node that is
    missing from the configuration the volumes on the primary node stay. *)
Lemma unknown_node_leaves_volumes :
  let disk1 := a_disk DT_DRBD8 (LDrbd (lit "n1") (lit "n9") 11000 0 0 [])
                 [a_disk DT_PLAIN (lv "data") []; a_disk DT_PLAIN (lv "meta") []] in
  let '(r, w) := CreateDisks 2 data LD_DEFAULTS [DT_DRBD8] remove_dups inst0 None [] None (Some [disk1]) (w0 [] []) in
  r = Raise Attribute_error ∧ dn_attached (w_nodes w (lit "n1")) = [lv "meta"; lv "data"].
Proof. by vm_compute. Qed.

(** A removal reports success when the device cannot be looked up, though it is
    still there. *)
Definition blind_devices : BlockDevices dnode :=
  {| FindDevice := λ d _ n, Raise Block_error;
     bdev := demo_bdev;
     CreateFileStorageDir := λ _ n, (Ok tt, n);
     attached := λ n l, bool_decide (l ∈ dn_attached n) |}.

Lemma remove_not_found :
  BlockdevRemove (H:=blind_devices) 0 (a_disk DT_PLAIN (lv "data") []) (DNode [lv "data"] []) =
  (Ok tt, DNode [lv "data"] []).
Proof. by vm_compute. Qed.
End StorageDemo.
