(* ===== verification/Policy.v ===== *)
(** * Instance policies of logical units (src/lib/cmdlib/common.py, cmdlib/instance_utils.py)

    Checking an instance against the policy of its node group, finding the
    instances that a changed policy rules out, and updating a policy.  A violation
    is a value in place of its text. *)

From S2P Require Import Prelude Errors PySort PyStr PyVal Json Text PyDict Params Disk Config ConfigVerify.
From S2P Require Import BlockDev Storage.
From stdpp Require Import gmap.
#[local] Open Scope list_scope.
#[local] Open Scope stdpp_scope.
#[local] Open Scope py_scope.

(** ** Constants *)

Definition ISPEC_MEM_SIZE : str := lit "memory-size".
Definition ISPEC_CPU_COUNT : str := lit "cpu-count".
Definition ISPEC_DISK_COUNT : str := lit "disk-count".
Definition ISPEC_DISK_SIZE : str := lit "disk-size".
Definition ISPEC_NIC_COUNT : str := lit "nic-count".
Definition ISPEC_SPINDLE_USE : str := lit "spindle-use".
Definition BE_VCPUS : str := lit "vcpus".
Definition BE_SPINDLE_USE : str := lit "spindle_use".
Definition ISPECS_MINMAX : str := lit "minmax".
Definition ISPECS_STD : str := lit "std".
Definition IPOLICY_DTS : str := lit "disk-templates".
Definition IPOLICY_VCPU_RATIO : str := lit "vcpu-ratio".
Definition IPOLICY_SPINDLE_RATIO : str := lit "spindle-ratio".
Definition VALUE_DEFAULT : str := lit "default".

(** ** Violations *)

Inductive violation :=
| OutOfRange (name qualifier : str) (value min_v max_v : Z)
| DisklessNotAllowed
| TemplatesNotAllowed (forbidden : list str)
| SpindlesNotConfigured (name : str)
| DiskCountDiffers.

(** [value in [None, constants.VALUE_AUTO]] *)
Definition no_value (value : obj) : bool :=
  match value with ONone => true | OStr s => bool_decide (s = VALUE_AUTO) | _ => false end.

(** A value that is compared with an integer *)
Definition comparable (value : obj) : exc Z :=
  match value with
  | OInt z => Ok z
  | OBool b => Ok (if b then 1 else 0)%Z
  | _ => Raise Type_error
  end.

Definition item {A} (d : dict A) (k : str) : exc A :=
  match dget k d with Some a => Ok a | None => Raise (PyExn KeyError "") end.
Definition policy_key {A} (o : option A) : exc A :=
  match o with Some a => Ok a | None => Raise (PyExn KeyError "") end.

(** Without any bound the value is compared with itself. *)
Definition ComputeMinMaxSpec (name qualifier : str) (ispecs : dict (dict Z)) (value : obj) : exc (option violation) :=
  if no_value value then Ok None
  else
    let* maxspec := item ispecs ISPECS_MAX in
    let* minspec := item ispecs ISPECS_MIN in
    match dget name maxspec, dget name minspec with
    | None, None => Ok None
    | max_v, min_v =>
        let* v := comparable value in
        let max_v := default v max_v in
        let min_v := default v min_v in
        Ok (if (max_v <? v)%Z || (v <? min_v)%Z then Some (OutOfRange name qualifier v min_v max_v) else None)
    end.

(** Name, qualifier and value of the settings that are tested *)
Definition test_settings (mem_size cpu_count disk_count nic_count : obj) (disk_sizes : list obj) (spindle_use : obj)
    : list (str * str * obj) :=
  [(ISPEC_MEM_SIZE, [], mem_size); (ISPEC_CPU_COUNT, [], cpu_count); (ISPEC_NIC_COUNT, [], nic_count);
   (ISPEC_SPINDLE_USE, [], spindle_use)] ++
  imap (λ idx d, (ISPEC_DISK_SIZE, dec (N.of_nat idx), d)) disk_sizes ++
  (if py_eq disk_count (OInt 0) then [] else [(ISPEC_DISK_COUNT, [], disk_count)]).

Definition spec_errors (settings : list (str * str * obj)) (minmax : dict (dict Z)) : exc (list violation) :=
  rmap (omap id) (rmapM (λ '(name, qualifier, value), ComputeMinMaxSpec name qualifier minmax value) settings).

(** The loop that keeps the shortest list of errors *)
Fixpoint min_errors (settings : list (str * str * obj)) (min_errs : option (list violation))
    (minmaxs : list (dict (dict Z))) : exc (option (list violation)) :=
  match minmaxs with
  | [] => Ok min_errs
  | minmax :: minmaxs =>
      let* errs := spec_errors settings minmax in
      min_errors settings
        (match min_errs with
         | None => Some errs
         | Some best => if (length errs <? length best)%nat then Some errs else Some best
         end) minmaxs
  end.

Definition template_errors (allowed_dts : list str) (disk_count : obj) (disk_types : list str) : list violation :=
  (if py_eq disk_count (OInt 0) && negb (bool_decide (DT_DISKLESS ∈ allowed_dts)) then [DisklessNotAllowed] else []) ++
  match filter (λ t, t ∉ allowed_dts) (remove_dups disk_types) with
  | [] => []
  | forbidden_dts => [TemplatesNotAllowed forbidden_dts]
  end.

Definition ComputeIPolicySpecViolation (p : ipolicy) (mem_size cpu_count disk_count nic_count : obj)
    (disk_sizes : list obj) (spindle_use : obj) (disk_types : list str) : exc (list violation) :=
  do* assert (py_eq disk_count (OInt (Z.of_nat (length disk_sizes)))) in
  do* assert (py_eq disk_count (OInt (Z.of_nat (length disk_types)))) in
  let* allowed_dts := policy_key (ip_dts p) in
  let* minmaxs := policy_key (ip_minmax p) in
  let* min_errs :=
    min_errors (test_settings mem_size cpu_count disk_count nic_count disk_sizes spindle_use) None minmaxs in
  match min_errs with
  | None => Raise AssertionFailed
  | Some errs => Ok (template_errors allowed_dts disk_count disk_types ++ errs)
  end.

Definition ComputeIPolicyDiskSizesViolation (p : ipolicy) (disk_sizes : list obj) (disks : list disk)
    : exc (list violation) :=
  if bool_decide (length disk_sizes = length disks)
  then ComputeIPolicySpecViolation p ONone ONone (OInt (Z.of_nat (length disk_sizes))) ONone disk_sizes ONone
         (d_dev_type <$> disks)
  else Ok [DiskCountDiffers].

(** The specification of an instance that is not created yet *)
Definition ComputeIPolicyInstanceSpecViolation (p : ipolicy) (instance_spec : pdict) (disk_types : list str)
    : exc (list violation) :=
  let get k d := default d (dget k instance_spec) in
  let* disk_sizes := py_iter (get ISPEC_DISK_SIZE (OList [])) in
  ComputeIPolicySpecViolation p (get ISPEC_MEM_SIZE ONone) (get ISPEC_CPU_COUNT ONone) (get ISPEC_DISK_COUNT (OInt 0))
    (get ISPEC_NIC_COUNT (OInt 0)) disk_sizes (get ISPEC_SPINDLE_USE ONone) disk_types.

Section instances.
  Context (cfg : config_data).

(** [rpc.GetExclusiveStorageForNodes] *)
Definition GetExclusiveStorageFlag (node_uuid : str) : exc obj :=
  match GetNodeInfo cfg node_uuid with
  | None => Raise OpPrereq_error
  | Some ni => let* ndp := GetNdParams cfg ni in get_key ndp ND_EXCLUSIVE_STORAGE
  end.
Definition GetExclusiveStorageForNodes (node_uuids : list str) : exc (dict obj) :=
  rmap (λ flags, mk_dict (zip node_uuids flags)) (rmapM GetExclusiveStorageFlag node_uuids).

(** [sum([disk.spindles for disk in disks])]; [None] for the type error *)
Definition sum_spindles (disks : list (option disk)) : exc (option Z) :=
  let* spindles := rmapM (attr d_spindles) disks in
  Ok (foldr (λ s acc, match s, acc with Some s, Some a => Some (s + a)%Z | _, _ => None end) (Some 0%Z) spindles).

Definition spindle_errors (inst : instance) (es : bool) (be_full : pdict) (disks : list (option disk))
    : exc (list violation * obj) :=
  if es then
    let* sum := sum_spindles disks in
    Ok match sum with
       | Some n => ([], OInt n)
       | None => ([SpindlesNotConfigured (i_name inst)], ONone)
       end
  else let* use := get_key be_full BE_SPINDLE_USE in Ok ([], use).

Definition ComputeIPolicyInstanceViolation (p : ipolicy) (inst : instance) : exc (list violation) :=
  let uuid := default [] (i_uuid inst) in
  let be_full := SimpleFillBE (c_params (cd_cluster cfg)) (i_beparams inst) in
  let* mem_size := get_key be_full BE_MAXMEM in
  let* cpu_count := get_key be_full BE_VCPUS in
  let* inst_nodes := GetInstanceNodes cfg uuid in
  let* es_flags := GetExclusiveStorageForNodes inst_nodes in
  let* disks := GetInstanceDisks cfg uuid in
  let* '(ret, spindle_use) := spindle_errors inst (existsb py_truth (dvalues es_flags)) be_full disks in
  let* disk_sizes := rmapM (attr (λ d, OInt (d_size d))) disks in
  let* disk_types := rmapM (attr d_dev_type) disks in
  let* errs := ComputeIPolicySpecViolation p mem_size cpu_count (OInt (Z.of_nat (length disks)))
                 (OInt (Z.of_nat (length (i_nics inst)))) disk_sizes spindle_use disk_types in
  Ok (ret ++ errs).

Definition ComputeViolatingInstances (p : ipolicy) (instances : list instance) : exc (gset str) :=
  rmap (λ names, list_to_set (omap id names))
    (rmapM (λ inst, rmap (λ errs, match errs with [] => None | _ => Some (i_name inst) end)
                      (ComputeIPolicyInstanceViolation p inst)) instances).

Definition ComputeNewInstanceViolations (old_ipolicy new_ipolicy : ipolicy) (instances : list instance)
    : exc (gset str) :=
  let* new := ComputeViolatingInstances new_ipolicy instances in
  let* old := ComputeViolatingInstances old_ipolicy instances in
  Ok (new ∖ old).

Definition ComputeIPolicyNodeViolation (p : ipolicy) (inst : instance) (current_group target_group : option str)
    : exc (list violation) :=
  if bool_decide (current_group = target_group) then Ok [] else ComputeIPolicyInstanceViolation p inst.

(** [CheckTargetNodeIPolicy]; with [ignore] the violations are only logged. *)
Definition CheckTargetNodeIPolicy (p : ipolicy) (inst : instance) (n : node) (ignore : bool) : exc unit :=
  let* current_group := attr n_group (GetNodeInfo cfg (i_primary_node inst)) in
  let* res := ComputeIPolicyNodeViolation p inst current_group (n_group n) in
  match res with
  | [] => Ok tt
  | _ => if ignore then Ok tt else Raise OpPrereq_error
  end.
End instances.

Definition CheckIpolicyVsDiskTemplates (p : ipolicy) (enabled_disk_templates : list str) : exc unit :=
  match ip_dts p with
  | None => Raise AssertionFailed
  | Some allowed => if forallb (λ t, bool_decide (t ∈ enabled_disk_templates)) allowed then Ok tt else Raise OpPrereq_error
  end.

(** ** Updates *)

Definition GetUpdatedParams (old_params update_dict : pdict) (use_default use_none : bool) : pdict :=
  foldl (λ params_copy '(key, val),
           if (use_default && py_eq val (OStr VALUE_DEFAULT)) || (use_none && match val with ONone => true | _ => false end)
           then ddel key params_copy else dset key val params_copy) old_params update_dict.

Section update.
  Context `{FloatText}.

Definition set_minmax (v : option (list (dict (dict Z)))) (p : ipolicy) : ipolicy :=
  Ipolicy v (ip_std p) (ip_dts p) (ip_vcpu_ratio p) (ip_spindle_ratio p) (ip_other p).
Definition set_std (v : option (dict Z)) (p : ipolicy) : ipolicy :=
  Ipolicy (ip_minmax p) v (ip_dts p) (ip_vcpu_ratio p) (ip_spindle_ratio p) (ip_other p).
Definition set_dts (v : option (list str)) (p : ipolicy) : ipolicy :=
  Ipolicy (ip_minmax p) (ip_std p) v (ip_vcpu_ratio p) (ip_spindle_ratio p) (ip_other p).
Definition set_vcpu_ratio (v : option obj) (p : ipolicy) : ipolicy :=
  Ipolicy (ip_minmax p) (ip_std p) (ip_dts p) v (ip_spindle_ratio p) (ip_other p).
Definition set_spindle_ratio (v : option obj) (p : ipolicy) : ipolicy :=
  Ipolicy (ip_minmax p) (ip_std p) (ip_dts p) (ip_vcpu_ratio p) v (ip_other p).

(** The keys of a policy *)
Inductive ip_key := KMinmax | KStd | KDts | KVcpuRatio | KSpindleRatio.
Definition key_of (key : str) : option ip_key :=
  if decide (key = ISPECS_MINMAX) then Some KMinmax
  else if decide (key = ISPECS_STD) then Some KStd
  else if decide (key = IPOLICY_DTS) then Some KDts
  else if decide (key = IPOLICY_VCPU_RATIO) then Some KVcpuRatio
  else if decide (key = IPOLICY_SPINDLE_RATIO) then Some KSpindleRatio
  else None.

Definition unset (k : ip_key) : ipolicy → ipolicy :=
  match k with
  | KMinmax => set_minmax None
  | KStd => set_std None
  | KDts => set_dts None
  | KVcpuRatio => set_vcpu_ratio None
  | KSpindleRatio => set_spindle_ratio None
  end.

(** A dictionary of the new policy; it was read from JSON, so that its keys are strings. *)
Fixpoint string_items (d : list (obj * obj)) : option pdict :=
  match d with
  | [] => Some []
  | (OStr k, v) :: d => cons (k, v) <$> string_items d
  | _ => None
  end.
Definition pdict_of (e : exn) (v : obj) : exc pdict :=
  match v with
  | ODict d => match string_items d with Some d => Ok d | None => Raise Type_enforcement end
  | _ => Raise e
  end.

(** [utils.ForceDictType(spec, constants.ISPECS_PARAMETER_TYPES)], after which all
    values are integers *)
Definition forced_spec (spec : pdict) : exc (dict Z) :=
  match ForceDictType spec ISPECS_PARAMETER_TYPES [] with
  | (Ok _, spec) => Ok (dmap (λ v, match v with OInt z => z | _ => 0%Z end) spec)
  | (Raise e, _) => Raise e
  end.

Definition new_minmax (value : obj) : exc (list (dict (dict Z))) :=
  let* minmaxs := py_iter value in
  rmapM (λ minmax,
    let* d := pdict_of Type_error minmax in
    rmapM (λ '(k, spec), let* spec := pdict_of Type_enforcement spec in rmap (pair k) (forced_spec spec)) d) minmaxs.

(** [list(value)]; an element that is not a string fails the check of the templates
    at the end, like a list without elements. *)
Definition new_dts (value : obj) : exc (list str) :=
  let* l := py_iter value in
  Ok (default [] (mapM (λ v, match v with OStr s => Some s | _ => None end) l)).

Definition new_ratio (value : obj) : exc obj :=
  match to_float value with
  | Ok f => Ok (OFloat f)
  | Raise (PyExn TypeError _) | Raise (PyExn ValueError _) => Raise OpPrereq_error
  | Raise e => Raise e
  end.

(** [not value or value == [VALUE_DEFAULT] or value == VALUE_DEFAULT] *)
Definition unsets (value : obj) : bool :=
  negb (py_truth value) || py_eq value (OList [OStr VALUE_DEFAULT]) || py_eq value (OStr VALUE_DEFAULT).

(** The body of the loop *)
Definition update_key (old_ipolicy : ipolicy) (group_policy : bool) (p : ipolicy) (key : str) (value : obj)
    : exc ipolicy :=
  match key_of key with
  | None => Raise OpPrereq_error
  | Some k =>
      if unsets value then if group_policy then Ok (unset k p) else Raise OpPrereq_error
      else
        match k with
        | KVcpuRatio => let* v := new_ratio value in Ok (set_vcpu_ratio (Some v) p)
        | KSpindleRatio => let* v := new_ratio value in Ok (set_spindle_ratio (Some v) p)
        | KMinmax => let* v := new_minmax value in Ok (set_minmax (Some v) p)
        | KStd =>
            if group_policy then Raise OpPrereq_error
            else
              let* new := pdict_of Attribute_error value in
              let* spec := forced_spec (GetUpdatedParams (dmap OInt (default [] (ip_std old_ipolicy))) new false false) in
              Ok (set_std (Some spec) p)
        | KDts => let* v := new_dts value in Ok (set_dts (Some v) p)
        end
  end.

Fixpoint update_keys (old_ipolicy : ipolicy) (group_policy : bool) (p : ipolicy) (new_ipolicy : pdict) : exc ipolicy :=
  match new_ipolicy with
  | [] => Ok p
  | (key, value) :: new_ipolicy =>
      let* p := update_key old_ipolicy group_policy p key value in update_keys old_ipolicy group_policy p new_ipolicy
  end.

Definition GetUpdatedIPolicy (old_ipolicy : ipolicy) (new_ipolicy : pdict) (group_policy : bool) : exc ipolicy :=
  let* p := update_keys old_ipolicy group_policy old_ipolicy new_ipolicy in
  match CheckParameterSyntax p (negb group_policy) with
  | Ok _ => Ok p
  | Raise e => if isinstance_exn e ConfigurationError then Raise OpPrereq_error else Raise e
  end.
End update.
