(* ===== verification/PolicyProps.v ===== *)
(** * Instance policies hold what they say

    The check of an instance against a policy finds nothing exactly when the
    instance conforms to it; a changed policy reports exactly the instances that
    it newly rules out; an updated policy is valid and differs only in the keys
    that were given. *)

From S2P Require Import Prelude Errors PySort PyStr PyVal Json Text PyDict Params ParamsProps Disk Config ConfigVerify.
From S2P Require Import BlockDev Storage Policy.
From Stdlib Require Import QArith.
From stdpp Require Import gmap.
#[local] Open Scope list_scope.
#[local] Open Scope stdpp_scope.
#[local] Open Scope py_scope.

(** ** Specifications *)

(** A value that can be compared *)
Definition readable (v : obj) : Prop := no_value v = true ∨ ∃ z, comparable v = Ok z.

(** A value is within the bounds of a parameter; one that is not known always is. *)
Definition within (mm : dict (dict Z)) (name : str) (v : obj) : Prop :=
  no_value v = true ∨ ∃ z lo hi, comparable v = Ok z ∧ bounds mm name lo hi ∧ (lo ≤ z ≤ hi)%Z.

Definition fits_spec (settings : list (str * str * obj)) (mm : dict (dict Z)) : Prop :=
  Forall (λ '(name, _, v), within mm name v) settings.

Lemma ComputeMinMaxSpec_spec mm name qualifier v :
  minmax_ok mm → name ∈ ISPECS_PARAMETERS → readable v →
  ∃ o, ComputeMinMaxSpec name qualifier mm v = Ok o ∧ (o = None ↔ within mm name v).
Proof.
  intros [_ Hmm] Hin Hv. unfold ComputeMinMaxSpec, within.
  destruct (no_value v) eqn:En; [eexists; split; [done|]; naive_solver|].
  destruct Hv as [|[z Hz]]; [congruence|].
  destruct (Hmm _ Hin) as (lo & hi & Hb & _). pose proof Hb as (mn & mx & Emn & Emx & Elo & Ehi).
  unfold item. rewrite Emx, Emn. cbn [rbind]. rewrite Ehi, Elo, Hz. cbn [rbind default from_option id]. unfold id.
  eexists. split; [done|]. split.
  - intros Hn. right. exists z, lo, hi. split_and!; [done|done|..];
      destruct (Z.ltb_spec hi z), (Z.ltb_spec z lo); try done; lia.
  - intros [|(z' & lo' & hi' & [= <-] & Hb' & Hr)]; [done|]. destruct (bounds_det _ _ _ _ _ _ Hb Hb') as [<- <-].
    destruct (hi <? z)%Z eqn:E1; [lia|]. destruct (z <? lo)%Z eqn:E2; [lia|done].
Qed.

Definition settings_ok (settings : list (str * str * obj)) : Prop :=
  Forall (λ '(name, _, v), name ∈ ISPECS_PARAMETERS ∧ readable v) settings.

Lemma spec_errors_spec mm settings :
  minmax_ok mm → settings_ok settings →
  ∃ errs, spec_errors settings mm = Ok errs ∧ (errs = [] ↔ fits_spec settings mm).
Proof.
  intros Hmm. unfold spec_errors, fits_spec. induction 1 as [|[[name qual] v] settings [Hin Hv] _ (errs & IH & Hiff)].
  { by exists []. }
  destruct (ComputeMinMaxSpec_spec mm name qual v Hmm Hin Hv) as (o & Ho & Hw).
  apply rmap_Ok in IH as (os & Hos & <-). cbn [rmapM]. rewrite Ho, Hos. cbn [rbind rmap]. eexists. split; [done|].
  rewrite Forall_cons, <-Hiff, <-Hw. destruct o; cbn; naive_solver.
Qed.

(** The loop finds the errors of a spec that has the fewest. *)
Lemma min_errors_spec settings mms best :
  Forall (λ mm, ∃ errs, spec_errors settings mm = Ok errs) mms → (best ≠ None ∨ mms ≠ []) →
  ∃ errs, min_errors settings best mms = Ok (Some errs) ∧
    (best = Some errs ∨ ∃ mm, mm ∈ mms ∧ spec_errors settings mm = Ok errs) ∧
    (∀ b, best = Some b → length errs ≤ length b) ∧
    (∀ mm errs', mm ∈ mms → spec_errors settings mm = Ok errs' → length errs ≤ length errs').
Proof.
  intros Hok. revert best. induction Hok as [|mm mms [errs He] _ IH]; intros best Hne; cbn [min_errors].
  { destruct best as [b|]; [|naive_solver]. exists b. split_and!; [done|by left|by intros ? [= ->]|].
    by intros ? ? ?%elem_of_nil. }
  rewrite He. cbn [rbind]. set (best' := match best with None => _ | Some b => _ end).
  assert (∃ b', best' = Some b' ∧ (best = Some b' ∨ b' = errs) ∧ length b' ≤ length errs ∧
            ∀ b, best = Some b → length b' ≤ length b) as (b' & Eb & Hfrom & Hle & Hle').
  { unfold best'. destruct best as [b|]; [|exists errs; naive_solver].
    destruct (Nat.ltb_spec (length errs) (length b)); eexists; (split; [done|]); split_and!; auto; try lia;
      intros ? [= <-]; lia. }
  destruct (IH best') as (r & Hr & Hsrc & Hb & Hmin); [left; congruence|]. exists r. split; [done|].
  rewrite Eb in Hsrc, Hb. specialize (Hb _ eq_refl). split_and!.
  - destruct Hsrc as [[= ->]|(mm' & Hin & Hmm')]; [|right; exists mm'; split; [by right|done]].
    destruct Hfrom as [->| ->]; [by left|]. right. exists mm. split; [by left|done].
  - intros b Hbe. specialize (Hle' _ Hbe). lia.
  - intros mm' errs' [->|Hin]%elem_of_cons Hmm'; [|by eapply Hmin]. rewrite He in Hmm'. injection Hmm' as <-. lia.
Qed.

Lemma template_errors_nil allowed disk_count types :
  template_errors allowed disk_count types = [] ↔
  (py_eq disk_count (OInt 0) = true → DT_DISKLESS ∈ allowed) ∧ Forall (λ t, t ∈ allowed) types.
Proof.
  unfold template_errors. split.
  - intros [H1 H2]%app_eq_nil. split.
    + intros Hz. rewrite Hz in H1. cbn [andb] in H1. by case_bool_decide.
    + apply Forall_forall. intros t Ht. destruct (decide (t ∈ allowed)); [done|].
      assert (t ∈ filter (λ t, t ∉ allowed) (remove_dups types)) as Hin
        by (by apply list_elem_of_filter; rewrite elem_of_remove_dups).
      destruct (filter _ _); [by apply elem_of_nil in Hin|done].
  - intros [H1 H2]. apply app_nil. split.
    + destruct (py_eq disk_count (OInt 0)); [|done]. by rewrite bool_decide_true by auto.
    + destruct (filter _ _) as [|t l] eqn:E; [done|]. exfalso.
      assert (t ∈ filter (λ t, t ∉ allowed) (remove_dups types)) as Hin by (rewrite E; by left).
      apply list_elem_of_filter in Hin as [Hn Hin]. rewrite elem_of_remove_dups in Hin. rewrite Forall_forall in H2. exact (Hn (H2 _ Hin)).
Qed.

(** ** Conformance *)

(** The policy is valid and has the keys that the check needs. *)
Definition policy_ok `{FloatText} (p : ipolicy) (allowed : list str) (mms : list (dict (dict Z))) : Prop :=
  (∃ check_std, ipolicy_valid p check_std) ∧ ip_dts p = Some allowed ∧ ip_minmax p = Some mms.

(** An instance with these settings conforms to a policy: its templates are allowed,
    and a single spec of the policy has room for all of its values. *)
Definition conforms (allowed : list str) (mms : list (dict (dict Z))) (mem_size cpu_count nic_count : obj)
    (disk_sizes : list obj) (spindle_use : obj) (disk_types : list str) : Prop :=
  (disk_types = [] → DT_DISKLESS ∈ allowed) ∧ Forall (λ t, t ∈ allowed) disk_types ∧
  Exists (λ mm,
    within mm ISPEC_MEM_SIZE mem_size ∧ within mm ISPEC_CPU_COUNT cpu_count ∧ within mm ISPEC_NIC_COUNT nic_count ∧
    within mm ISPEC_SPINDLE_USE spindle_use ∧ Forall (within mm ISPEC_DISK_SIZE) disk_sizes ∧
    (disk_types ≠ [] → within mm ISPEC_DISK_COUNT (OInt (Z.of_nat (length disk_types))))) mms.

Lemma py_eq_int a b : py_eq (OInt a) (OInt b) = bool_decide (a = b).
Proof.
  change (match (a * 1 ?= b * 1)%Z with Eq => true | _ => false end = bool_decide (a = b)). rewrite !Z.mul_1_r.
  destruct (Z.compare_spec a b); symmetry; [by apply bool_decide_eq_true|apply bool_decide_eq_false; lia..].
Qed.

Lemma fits_spec_settings mm mem cpu nic sizes spindle n :
  fits_spec (test_settings mem cpu (OInt (Z.of_nat n)) nic sizes spindle) mm ↔
  within mm ISPEC_MEM_SIZE mem ∧ within mm ISPEC_CPU_COUNT cpu ∧ within mm ISPEC_NIC_COUNT nic ∧
  within mm ISPEC_SPINDLE_USE spindle ∧ Forall (within mm ISPEC_DISK_SIZE) sizes ∧
  (n ≠ 0 → within mm ISPEC_DISK_COUNT (OInt (Z.of_nat n))).
Proof.
  unfold fits_spec, test_settings. rewrite !Forall_app, !Forall_cons, py_eq_int.
  assert (Forall (λ '(name, _, v), within mm name v) (imap (λ idx d, (ISPEC_DISK_SIZE, dec (N.of_nat idx), d)) sizes)
    ↔ Forall (within mm ISPEC_DISK_SIZE) sizes) as ->.
  { rewrite !Forall_forall. split.
    - intros Hall v (i & Hi)%list_elem_of_lookup. apply (Hall (ISPEC_DISK_SIZE, dec (N.of_nat i), v)).
      apply list_elem_of_lookup. exists i. by rewrite list_lookup_imap, Hi.
    - intros Hall [[name q] v] (i & Hi)%list_elem_of_lookup. rewrite list_lookup_imap in Hi.
      apply fmap_Some in Hi as (v' & Hv & [= -> -> ->]). by eapply Hall, list_elem_of_lookup_2. }
  assert (Forall (λ '(name, _, v), within mm name v)
    (if bool_decide (Z.of_nat n = 0%Z) then [] else [(ISPEC_DISK_COUNT, [], OInt (Z.of_nat n))]) ↔
    (n ≠ 0 → within mm ISPEC_DISK_COUNT (OInt (Z.of_nat n)))) as ->.
  { case_bool_decide as E; [|rewrite Forall_singleton]; (split; [intros Hw ?|intros Hw]); try done; [lia|apply Hw; lia]. }
  rewrite Forall_nil. tauto.
Qed.

Lemma settings_ok_intro mem cpu nic sizes spindle n :
  readable mem → readable cpu → readable nic → readable spindle → Forall readable sizes →
  settings_ok (test_settings mem cpu (OInt (Z.of_nat n)) nic sizes spindle).
Proof.
  intros Hm Hc Hn Hs Hsz. unfold settings_ok, test_settings. rewrite !Forall_app, !Forall_cons.
  assert (∀ name, bool_decide (name ∈ ISPECS_PARAMETERS) = true → name ∈ ISPECS_PARAMETERS) as Hin
    by (intros name; apply bool_decide_eq_true_1).
  split_and!; try (by apply Hin); try done; [|].
  - rewrite Forall_forall in Hsz. apply Forall_forall. intros [[name q] v] (i & Hi)%list_elem_of_lookup.
    rewrite list_lookup_imap in Hi. apply fmap_Some in Hi as (v' & Hv & [= -> -> ->]). split; [by apply Hin|].
    by eapply Hsz, list_elem_of_lookup_2.
  - case_match; [by constructor|]. apply Forall_singleton. split; [by apply Hin|]. right. by eexists.
Qed.

Section conformance.
  Context `{FloatText}.

(** What the check reports: nothing for a conforming instance, otherwise the
    templates, and the errors of a spec that has the fewest *)
Lemma ComputeIPolicySpecViolation_spec p allowed mms mem cpu nic sizes spindle types :
  policy_ok p allowed mms → length sizes = length types →
  readable mem → readable cpu → readable nic → readable spindle → Forall readable sizes →
  ∃ errs, let n := OInt (Z.of_nat (length types)) in
    ComputeIPolicySpecViolation p mem cpu n nic sizes spindle types = Ok (template_errors allowed n types ++ errs) ∧
    (template_errors allowed n types ++ errs = [] ↔ conforms allowed mms mem cpu nic sizes spindle types) ∧
    (∃ mm, mm ∈ mms ∧ spec_errors (test_settings mem cpu n nic sizes spindle) mm = Ok errs) ∧
    (∀ mm errs', mm ∈ mms → spec_errors (test_settings mem cpu n nic sizes spindle) mm = Ok errs' →
       length errs ≤ length errs').
Proof.
  intros ([chk Hval] & Hdts & Hmm) Hlen Hm Hc Hn Hs Hsz. cbv zeta. set (n := OInt (Z.of_nat (length types))).
  set (settings := test_settings mem cpu n nic sizes spindle).
  destruct Hval as (Hmms & _). destruct (Hmms _ Hmm) as (Hne & Hok & _).
  assert (settings_ok settings) as Hset by by apply settings_ok_intro.
  assert (Forall (λ mm, ∃ errs, spec_errors settings mm = Ok errs) mms) as Hret.
  { eapply Forall_impl; [exact Hok|]. intros mm Hmm'. destruct (spec_errors_spec mm settings Hmm' Hset) as (e & ? & _). eauto. }
  destruct (min_errors_spec settings mms None Hret) as (errs & Hmin & [?|(mm & Hin & Hmm')] & _ & Hleast); [by right|done|].
  exists errs. split_and!; [| |by eauto|done].
  - unfold ComputeIPolicySpecViolation, n. rewrite !py_eq_int, !bool_decide_true by congruence. cbn [py_assert rbind].
    rewrite Hdts, Hmm. cbn [policy_key rbind]. fold n. fold settings. by rewrite Hmin.
  - rewrite app_nil, template_errors_nil. unfold n, conforms. rewrite py_eq_int, bool_decide_eq_true.
    assert (errs = [] ↔ Exists (λ mm, fits_spec settings mm) mms) as ->.
    + rewrite Forall_forall in Hok. rewrite Exists_exists. split.
      * intros ->. exists mm. split; [done|]. destruct (spec_errors_spec mm settings (Hok _ Hin) Hset) as (e & He & Hiff).
        apply Hiff. congruence.
      * intros (mm' & Hin' & Hfit). destruct (spec_errors_spec mm' settings (Hok _ Hin') Hset) as (e & He & Hiff).
        apply Hiff in Hfit as ->. specialize (Hleast _ _ Hin' He). by destruct errs; simpl in *; [|lia].
    + assert (Z.of_nat (length types) = 0%Z ↔ types = []) as -> by (destruct types; simpl; split; (done || lia)).
      assert (length types ≠ 0 ↔ types ≠ []) as Hnil by by destruct types.
      split; intros ([Hd Ht] & He) || intros (Hd & Ht & He); (split; [done|]).
      * split; [done|]. eapply Exists_impl; [exact He|]. intros mm'. unfold settings, n. rewrite fits_spec_settings, Hnil. tauto.
      * eapply Exists_impl; [exact He|]. intros mm'. unfold settings, n. rewrite fits_spec_settings, Hnil. tauto.
Qed.
End conformance.

(** ** Instances *)

Section instance_policy.
  Context `{FloatText} (cfg : config_data).

(** The disks of the instance all exist. *)
Definition has_disks (inst : instance) (disks : list disk) : Prop :=
  GetDiskInfo cfg <$> i_disks inst = Some <$> disks.

Definition full_be (inst : instance) : pdict := SimpleFillBE (c_params (cd_cluster cfg)) (i_beparams inst).

(** One of the nodes of the instance *)
Definition node_of (inst : instance) (disks : list disk) (n : str) : Prop :=
  n = i_primary_node inst ∨ ∃ d, d ∈ disks ∧ n ∈ ComputeAllNodes d.

(** One of the nodes of the instance uses exclusive storage. *)
Definition exclusive (inst : instance) (disks : list disk) : Prop :=
  ∃ n flag, node_of inst disks n ∧ GetExclusiveStorageFlag cfg n = Ok flag ∧ py_truth flag = true.

(** What the instance refers to exists, and its parameters are numbers. *)
Definition instance_ok (inst : instance) (disks : list disk) : Prop :=
  GetInstanceInfo cfg (default [] (i_uuid inst)) = Some inst ∧ has_disks inst disks ∧
  (∀ n, node_of inst disks n → ∃ flag, GetExclusiveStorageFlag cfg n = Ok flag) ∧
  ∀ k, k ∈ [BE_MAXMEM; BE_VCPUS; BE_SPINDLE_USE] → ∃ v, dget k (full_be inst) = Some v ∧ readable v.

(** The spindles that the instance uses: those of its disks, which have to be
    known, when storage is exclusive *)
Definition uses_spindles (inst : instance) (disks : list disk) (use : obj) : Prop :=
  (exclusive inst disks → ∃ ns, d_spindles <$> disks = Some <$> ns ∧ use = OInt (foldr Z.add 0%Z ns)) ∧
  (¬ exclusive inst disks → dget BE_SPINDLE_USE (full_be inst) = Some use).

(** The instance conforms to a policy. *)
Definition meets (allowed : list str) (mms : list (dict (dict Z))) (inst : instance) : Prop :=
  ∃ disks mem cpu spindle_use,
    has_disks inst disks ∧ dget BE_MAXMEM (full_be inst) = Some mem ∧ dget BE_VCPUS (full_be inst) = Some cpu ∧
    uses_spindles inst disks spindle_use ∧
    conforms allowed mms mem cpu (OInt (Z.of_nat (length (i_nics inst)))) ((λ d, OInt (d_size d)) <$> disks)
      spindle_use (d_dev_type <$> disks).

Lemma rmapM_attr_disks {B} (f : disk → B) disks :
  rmapM (attr f) (Some <$> disks) = Ok (f <$> disks).
Proof. induction disks as [|d disks IH]; csimpl; [done|]. by rewrite IH. Qed.

Lemma GetInstanceNodes_spec inst disks :
  GetInstanceInfo cfg (default [] (i_uuid inst)) = Some inst → has_disks inst disks →
  ∃ nodes, GetInstanceNodes cfg (default [] (i_uuid inst)) = Ok nodes ∧ NoDup nodes ∧
    ∀ n, n ∈ nodes ↔ node_of inst disks n.
Proof.
  intros Hi Hd. unfold GetInstanceNodes, AllInstanceNodes, GetInstanceDisks. rewrite Hi. cbn [rbind].
  rewrite Hd, rmapM_attr_disks. cbn [rbind]. set (all := remove_dups (mjoin (ComputeAllNodes <$> disks))).
  assert (NoDup all) as Hnd by apply NoDup_remove_dups. eexists. split; [done|]. split.
  - constructor; [|by apply NoDup_remove1]. rewrite elem_of_remove1 by done. naive_solver.
  - intros n. rewrite elem_of_cons, elem_of_remove1 by done. unfold node_of, all.
    rewrite elem_of_remove_dups, list_elem_of_join.
    setoid_rewrite list_elem_of_fmap. destruct (decide (n = i_primary_node inst)); naive_solver.
Qed.

Lemma exclusive_flags inst disks nodes :
  NoDup nodes → (∀ n, n ∈ nodes ↔ node_of inst disks n) →
  (∀ n, node_of inst disks n → ∃ flag, GetExclusiveStorageFlag cfg n = Ok flag) →
  ∃ flags, GetExclusiveStorageForNodes cfg nodes = Ok flags ∧
    (existsb py_truth (dvalues flags) = true ↔ exclusive inst disks).
Proof.
  intros Hnd Hnodes Hflag. unfold GetExclusiveStorageForNodes.
  destruct (proj2 (rmapM_returns (GetExclusiveStorageFlag cfg) nodes)) as [flags Hf].
  { apply Forall_forall. intros n Hn. by apply Hflag, Hnodes. }
  rewrite Hf. eexists. split; [done|]. apply rmapM_Ok in Hf.
  assert (dict_ok (zip nodes flags)) as Hok.
  { unfold dict_ok, dkeys. rewrite fst_zip; [done|]. by rewrite (Forall2_length _ _ _ Hf). }
  rewrite existsb_exists. unfold exclusive. split.
  - intros (v & Hv%list_elem_of_In & Ht). apply elem_of_dvalues in Hv as (n & Hn); [|apply dict_ok_mk].
    unfold mk_dict in Hn. rewrite dget_dupdate in Hn by done. destruct (dget n (zip nodes flags)) as [v'|] eqn:E; [|done].
    injection Hn as ->. apply dget_Some_1, elem_of_lookup_zip_with in E as (i & a & b & [= <- <-] & Ha & Hb).
    exists n, v. split_and!; [by eapply Hnodes, list_elem_of_lookup_2| |done]. by eapply Forall2_lookup_lr in Hf.
  - intros (n & flag & Hn & Hfl & Ht). exists flag. split; [|done]. apply list_elem_of_In, elem_of_dvalues; [apply dict_ok_mk|].
    exists n. unfold mk_dict. rewrite dget_dupdate by done. apply Hnodes, list_elem_of_lookup in Hn as (i & Hi).
    destruct (Forall2_lookup_l _ _ _ _ _ Hf Hi) as (b & Hb & Hbf).
    assert (dget n (zip nodes flags) = Some flag) as ->; [|done]. apply dget_Some; [done|].
    apply elem_of_lookup_zip_with. exists i, n, flag. split_and!; [done..|]. congruence.
Qed.

Lemma sum_spindles_spec disks :
  sum_spindles (Some <$> disks) =
  Ok (foldr (λ s acc, match s, acc with Some s, Some a => Some (s + a)%Z | _, _ => None end) (Some 0%Z) (d_spindles <$> disks)).
Proof. unfold sum_spindles. by rewrite rmapM_attr_disks. Qed.

Lemma sum_known ss n :
  foldr (λ s acc, match s, acc with Some s, Some a => Some (s + a)%Z | _, _ => None end) (Some 0%Z) ss = Some n ↔
  ∃ ns, ss = Some <$> ns ∧ n = foldr Z.add 0%Z ns.
Proof.
  revert n. induction ss as [|s ss IH]; intros n; simpl.
  - split; [intros [= <-]; by exists []|]. intros ([|] & ? & ->); done.
  - destruct s as [s|]; [|split; [done|]; by intros ([|] & [=] & _)].
    destruct (foldr _ _ ss) as [m|] eqn:E.
    + destruct (proj1 (IH m) eq_refl) as (ns & -> & ->). split; [intros [= <-]; by exists (s :: ns)|].
      intros ([|a ns'] & [= -> Heq] & ->). apply (inj (fmap Some)) in Heq as ->. done.
    + split; [done|]. intros ([|a ns'] & [= -> Heq] & ->).
      assert (None = Some (foldr Z.add 0%Z ns')) as [=]. apply IH. eauto.
Qed.

Lemma spindle_errors_spec inst disks es :
  instance_ok inst disks → (es = true ↔ exclusive inst disks) →
  ∃ errs use, spindle_errors inst es (full_be inst) (Some <$> disks) = Ok (errs, use) ∧ readable use ∧
    (errs = [] → uses_spindles inst disks use) ∧ (∀ use', uses_spindles inst disks use' → errs = [] ∧ use' = use).
Proof.
  intros (_ & _ & _ & Hbe) Hes. unfold spindle_errors, uses_spindles. destruct es.
  - rewrite sum_spindles_spec. cbn [rbind]. assert (exclusive inst disks) as Hex by by apply Hes.
    destruct (foldr _ _ _) as [n|] eqn:E; eexists _, _; (split; [done|]).
    + apply sum_known in E as (ns & Hns & ->). split_and!; [right; by eexists|by intros _; split; [eauto|]|].
      intros use' [Hu _]. destruct (Hu Hex) as (ns' & Hns' & ->). rewrite Hns in Hns'.
      apply (inj (fmap Some)) in Hns' as ->. done.
    + split_and!; [by left|done|]. intros use' [Hu _]. destruct (Hu Hex) as (ns' & Hns' & ->).
      assert (None = Some (foldr Z.add 0%Z ns')) as [=]. rewrite <-E. apply sum_known. eauto.
  - destruct (Hbe BE_SPINDLE_USE) as (use & Hu & Hr); [by apply (bool_decide_eq_true_1 _)|].
    unfold get_key. rewrite Hu. eexists _, _. split; [done|]. assert (¬ exclusive inst disks) as Hex by (by intros ?%Hes).
    split_and!; [done|done|]. intros use' [_ Hu']. specialize (Hu' Hex). split; [done|congruence].
Qed.

(** The check of an instance finds nothing exactly when it conforms. *)
Lemma ComputeIPolicyInstanceViolation_spec p allowed mms inst disks :
  policy_ok p allowed mms → instance_ok inst disks →
  ∃ errs, ComputeIPolicyInstanceViolation cfg p inst = Ok errs ∧ (errs = [] ↔ meets allowed mms inst).
Proof.
  intros Hp Hi. pose proof Hi as (Hknown & Hd & Hflags & Hbe).
  destruct (Hbe BE_MAXMEM) as (mem & Em & Hm); [by apply (bool_decide_eq_true_1 _)|].
  destruct (Hbe BE_VCPUS) as (cpu & Ec & Hc); [by apply (bool_decide_eq_true_1 _)|].
  destruct (GetInstanceNodes_spec inst disks Hknown Hd) as (nodes & En & Hnd & Hnodes).
  destruct (exclusive_flags inst disks nodes Hnd Hnodes Hflags) as (flags & Ef & Hes).
  destruct (spindle_errors_spec inst disks _ Hi Hes) as (ret & use & Eu & Hu & Huse & Huniq).
  destruct (ComputeIPolicySpecViolation_spec p allowed mms mem cpu (OInt (Z.of_nat (length (i_nics inst))))
    ((λ d, OInt (d_size d)) <$> disks) use (d_dev_type <$> disks) Hp) as (errs & Ev & Hiff & _).
  { by rewrite !length_fmap. } { done. } { done. } { right. by eexists. } { done. }
  { apply Forall_fmap, Forall_true. intros d. right. by eexists. }
  cbv zeta in Ev, Hiff. rewrite length_fmap in Ev, Hiff. set (viols := _ ++ errs) in Ev, Hiff.
  exists (ret ++ viols). unfold ComputeIPolicyInstanceViolation. fold (full_be inst). unfold get_key at 1 2.
  rewrite Em, Ec. cbn [rbind]. rewrite En. cbn [rbind]. rewrite Ef. cbn [rbind]. unfold GetInstanceDisks. rewrite Hknown. cbn [rbind]. unfold has_disks in Hd. rewrite !Hd, Eu. cbn [rbind].
  rewrite !rmapM_attr_disks. cbn [rbind]. rewrite length_fmap, Ev. split; [done|].
  rewrite app_nil, Hiff. unfold meets. split.
  - intros [-> Hconf]. exists disks, mem, cpu, use. split_and!; auto.
  - intros (disks' & mem' & cpu' & use' & Hd' & Em' & Ec' & Hu' & Hconf). unfold has_disks in Hd'.
    rewrite Hd in Hd'. apply (inj (fmap Some)) in Hd' as <-. destruct (Huniq _ Hu') as [-> ->].
    rewrite Em in Em'. rewrite Ec in Ec'. by simplify_eq.
Qed.

Lemma ComputeViolatingInstances_spec p allowed mms instances :
  policy_ok p allowed mms → Forall (λ inst, ∃ disks, instance_ok inst disks) instances →
  ∃ names, ComputeViolatingInstances cfg p instances = Ok names ∧
    ∀ name, name ∈ names ↔ ∃ inst, inst ∈ instances ∧ i_name inst = name ∧ ¬ meets allowed mms inst.
Proof.
  intros Hp Hok. unfold ComputeViolatingInstances.
  set (f := λ inst, rmap (λ errs, match errs with [] => None | _ => Some (i_name inst) end)
              (ComputeIPolicyInstanceViolation cfg p inst)).
  assert (∀ inst, inst ∈ instances → ∃ o, f inst = Ok o ∧
            match o with Some name => name = i_name inst ∧ ¬ meets allowed mms inst | None => meets allowed mms inst end) as Hf.
  { rewrite Forall_forall in Hok. intros inst (disks & Hi)%Hok.
    destruct (ComputeIPolicyInstanceViolation_spec p allowed mms inst disks Hp Hi) as (errs & He & Hiff).
    unfold f. rewrite He. eexists. split; [done|]. destruct errs; [by apply Hiff|]. split; [done|]. by intros ?%Hiff. }
  destruct (proj2 (rmapM_returns f instances)) as [os Hos].
  { apply Forall_forall. intros inst Hin. destruct (Hf _ Hin) as (o & ? & _). eauto. }
  rewrite Hos. eexists. split; [done|]. intros name. rewrite elem_of_list_to_set, list_elem_of_omap. unfold id. split.
  - intros (o & Ho & ->). destruct (rmapM_elem_r _ _ _ _ Hos Ho) as (inst & Hin & Hfi).
    destruct (Hf _ Hin) as (o' & Hfi' & Hmatch). rewrite Hfi in Hfi'. injection Hfi' as <-. destruct Hmatch as [-> ?]. eauto.
  - intros (inst & Hin & <- & Hn). destruct (rmapM_elem_l _ _ _ _ Hos Hin) as (o & Ho & Hfi).
    destruct (Hf _ Hin) as (o' & Hfi' & Hmatch). rewrite Hfi in Hfi'. injection Hfi' as <-.
    destruct o as [n|]; [|done]. destruct Hmatch as [-> _]. eauto.
Qed.

(** C24: A change of an instance policy reports exactly the instances that it rules out:
    those that do not conform to the new policy but did to the old one.  An
    instance conforms when its disk templates are allowed (and being without disks
    is, for one that has none) and one minimum and maximum of the policy hold for
    its memory, CPUs, NICs, spindles and the number and sizes of its disks; with
    exclusive storage on one of its nodes the spindles are those of its disks,
    which then have to be known. *)
Theorem ComputeNewInstanceViolations_correct (old_p new_p : ipolicy) allowed mms allowed' mms' instances :
  policy_ok old_p allowed mms → policy_ok new_p allowed' mms' →
  Forall (λ inst, ∃ disks, instance_ok inst disks) instances →
  ∃ names, ComputeNewInstanceViolations cfg old_p new_p instances = Ok names ∧
    ∀ name, name ∈ names ↔
      (∃ inst, inst ∈ instances ∧ i_name inst = name ∧ ¬ meets allowed' mms' inst) ∧
      ¬ (∃ inst, inst ∈ instances ∧ i_name inst = name ∧ ¬ meets allowed mms inst).
Proof.
  intros Hold Hnew Hok. unfold ComputeNewInstanceViolations.
  destruct (ComputeViolatingInstances_spec _ _ _ _ Hnew Hok) as (new & -> & Hin_new).
  destruct (ComputeViolatingInstances_spec _ _ _ _ Hold Hok) as (old & -> & Hin_old).
  eexists. split; [done|]. intros name. by rewrite elem_of_difference, Hin_new, Hin_old.
Qed.
End instance_policy.

(** ** Updates *)

Section updates.
  Context `{FloatText}.

(** A key of a policy after an update: it is as before when it was not given, gone
    when a group was asked to remove it, and otherwise what was given. *)
Definition field_updated {A} (name : str) (new : pdict) (group_policy : bool) (read : obj → exc A)
    (old_v new_v : option A) : Prop :=
  match dget name new with
  | None => new_v = old_v
  | Some v => if unsets v then group_policy = true ∧ new_v = None else ∃ a, read v = Ok a ∧ new_v = Some a
  end.

(** The standard values: those given over the old ones, never for a group *)
Definition new_std (old : option (dict Z)) (group_policy : bool) (value : obj) : exc (dict Z) :=
  if group_policy then Raise OpPrereq_error
  else let* new := pdict_of Attribute_error value in
       forced_spec (GetUpdatedParams (dmap OInt (default [] old)) new false false).

Definition updated (old : ipolicy) (group_policy : bool) (new : pdict) (p p' : ipolicy) : Prop :=
  Forall (λ key, is_Some (key_of key)) (dkeys new) ∧
  field_updated ISPECS_MINMAX new group_policy new_minmax (ip_minmax p) (ip_minmax p') ∧
  field_updated ISPECS_STD new group_policy (new_std (ip_std old) group_policy) (ip_std p) (ip_std p') ∧
  field_updated IPOLICY_DTS new group_policy new_dts (ip_dts p) (ip_dts p') ∧
  field_updated IPOLICY_VCPU_RATIO new group_policy new_ratio (ip_vcpu_ratio p) (ip_vcpu_ratio p') ∧
  field_updated IPOLICY_SPINDLE_RATIO new group_policy new_ratio (ip_spindle_ratio p) (ip_spindle_ratio p') ∧
  ip_other p' = ip_other p.

Definition name_of (k : ip_key) : str :=
  match k with
  | KMinmax => ISPECS_MINMAX
  | KStd => ISPECS_STD
  | KDts => IPOLICY_DTS
  | KVcpuRatio => IPOLICY_VCPU_RATIO
  | KSpindleRatio => IPOLICY_SPINDLE_RATIO
  end.

Lemma key_of_Some key k : key_of key = Some k ↔ key = name_of k.
Proof.
  split; [|intros ->; by destruct k]. unfold key_of. repeat case_decide; intros [= <-]; done.
Qed.

(** Whether the update of one key concerns another *)
Lemma field_updated_cons {A} name key v new group_policy (read : obj → exc A) old_v new_v :
  key ∉ dkeys new →
  field_updated name ((key, v) :: new) group_policy read old_v new_v ↔
  if decide (key = name)
  then (if unsets v then group_policy = true ∧ new_v = None else ∃ a, read v = Ok a ∧ new_v = Some a)
  else field_updated name new group_policy read old_v new_v.
Proof. intros Hk. unfold field_updated. cbn [dget]. by case_decide. Qed.

Lemma field_updated_absent {A} name new group_policy (read : obj → exc A) old_v new_v :
  name ∉ dkeys new → field_updated name new group_policy read old_v new_v ↔ new_v = old_v.
Proof. intros Hk. unfold field_updated. by rewrite (proj2 (dget_None _ _)). Qed.

Lemma update_key_Ok old group_policy p key v p1 :
  update_key old group_policy p key v = Ok p1 ↔
  ∃ k, key_of key = Some k ∧
    if unsets v then group_policy = true ∧ p1 = unset k p
    else match k with
         | KMinmax => ∃ a, new_minmax v = Ok a ∧ p1 = set_minmax (Some a) p
         | KStd => ∃ a, new_std (ip_std old) group_policy v = Ok a ∧ p1 = set_std (Some a) p
         | KDts => ∃ a, new_dts v = Ok a ∧ p1 = set_dts (Some a) p
         | KVcpuRatio => ∃ a, new_ratio v = Ok a ∧ p1 = set_vcpu_ratio (Some a) p
         | KSpindleRatio => ∃ a, new_ratio v = Ok a ∧ p1 = set_spindle_ratio (Some a) p
         end.
Proof.
  unfold update_key. destruct (key_of key) as [k|]; [|naive_solver].
  assert (∀ P : ip_key → Prop, (∃ k', Some k = Some k' ∧ P k') ↔ P k) as -> by naive_solver.
  destruct (unsets v); [destruct group_policy; naive_solver|]. destruct k; unfold new_std.
  2: { destruct group_policy; [naive_solver|]. destruct (pdict_of _ _); cbn [rbind]; [|naive_solver].
       rewrite rbind_Ok. naive_solver. }
  all: rewrite rbind_Ok; naive_solver.
Qed.

(** Which of the fields is concerned *)
Ltac pick_field :=
  repeat match goal with
  | |- context [decide (?a = ?b)] =>
      first [rewrite (decide_True (P := a = b)) by reflexivity
            |rewrite (decide_False (P := a = b)) by (vm_compute; discriminate)]
  end.

(** The policy after one key, and the fields of the rest *)
Ltac absent_fields :=
  repeat match goal with
  | Hkey : ?name ∉ dkeys ?new, Hf : field_updated ?name ?new _ _ _ _ |- _ =>
      apply field_updated_absent in Hf; [|exact Hkey]
  | Hkey : ?name ∉ dkeys ?new |- field_updated ?name ?new _ _ _ _ => apply field_updated_absent; [exact Hkey|]
  end.
Ltac settle_fields :=
  match goal with
  | Hk : context [unsets ?v] |- _ => destruct (unsets v); [destruct Hk as [-> ->]|destruct Hk as (a & Ha & ->)]
  end;
  cbn in *; absent_fields; split_and!; eauto.
Ltac give_fields :=
  match goal with
  | Hk : context [unsets ?v] |- _ => destruct (unsets v); [destruct Hk as [-> Hval]|destruct Hk as (a & Ha & Hval)]
  end;
  eexists; (split; [eexists; split; [reflexivity|cbn; eauto]|]); cbn; split_and!; absent_fields; done.

Lemma updated_cons old group_policy key v new p p' :
  key ∉ dkeys new →
  updated old group_policy ((key, v) :: new) p p' ↔
  ∃ p1, update_key old group_policy p key v = Ok p1 ∧ updated old group_policy new p1 p'.
Proof.
  intros Hkey. setoid_rewrite update_key_Ok. unfold updated.
  change (dkeys ((key, v) :: new)) with (key :: dkeys new). rewrite Forall_cons, !field_updated_cons by done.
  destruct (key_of key) as [k|] eqn:Ek; [|split; [intros [[[? ?] _] _]; done|naive_solver]].
  apply key_of_Some in Ek as ->. split.
  - intros ([_ Hkn] & H1 & H2 & H3 & H4 & H5 & H6). revert H1 H2 H3 H4 H5.
    destruct k; cbn [name_of] in *; pick_field; intros H1 H2 H3 H4 H5; give_fields.
  - intros (p1 & (k' & [= <-] & Hk) & Hkn & H1 & H2 & H3 & H4 & H5 & H6).
    destruct k; cbn [name_of] in *; pick_field; settle_fields.
Qed.

Lemma update_keys_Ok old group_policy new : ∀ p p',
  dict_ok new → update_keys old group_policy p new = Ok p' ↔ updated old group_policy new p p'.
Proof.
  induction new as [|[key v] new IH]; intros p p' Hok.
  { unfold updated, field_updated. cbn [dget update_keys dkeys]. split; [intros [= ->]; split_and!; done|].
    intros (_ & H1 & H2 & H3 & H4 & H5 & H6). f_equal. destruct p, p'. simpl in *. congruence. }
  assert (key ∉ dkeys new ∧ dict_ok new) as [Hkey Hok'] by by apply NoDup_cons in Hok.
  rewrite updated_cons by done. cbn [update_keys]. rewrite rbind_Ok.
  split; intros (p1 & Hp1 & Hrest); exists p1; (split; [done|]); by apply IH.
Qed.

(** C37: An update of an instance policy returns a policy exactly when all keys that are given are known, can
    be read, and are removed only from the policy of a group, and the result is a
    valid policy; the result then differs from the old policy in those keys only:
    each is what was given, or gone, and given standard values replace those of the
    old policy one by one. *)
Theorem GetUpdatedIPolicy_correct old new group_policy p' :
  dict_ok new →
  GetUpdatedIPolicy old new group_policy = Ok p' ↔
  updated old group_policy new old p' ∧ ipolicy_valid p' (negb group_policy).
Proof.
  intros Hok. unfold GetUpdatedIPolicy. rewrite rbind_Ok, <-CheckParameterSyntax_valid. split.
  - intros (p & Hp%update_keys_Ok & Hc); [|done]. destruct (CheckParameterSyntax p _) as [[]|e] eqn:E.
    + injection Hc as <-. done.
    + by destruct (isinstance_exn e ConfigurationError).
  - intros [Hu Hv]. exists p'. split; [by apply update_keys_Ok|]. by rewrite Hv.
Qed.
End updates.

(** ** Examples *)

Module PolicyDemo.

#[local] Instance demo_floats : FloatText :=
  {| float_repr := λ _, lit "0.0"; float_parse := λ _, Raise Value_error |}.

Definition spec (z : Z) : dict Z := (λ k, (k, z)) <$> ISPECS_PARAMETERS.
Definition policy (hi : Z) : ipolicy :=
  Ipolicy (Some [[(ISPECS_MIN, spec 1); (ISPECS_MAX, spec hi)]]) (Some (spec 2)) (Some [DT_PLAIN])
    (Some (OInt 4)) (Some (OInt 32)) [].

Definition params : cluster_params :=
  ClusterParams [] [] [(PP_DEFAULT, [(BE_MAXMEM, OInt 2); (BE_VCPUS, OInt 1); (BE_SPINDLE_USE, OInt 1)])]
    [] [(ND_EXCLUSIVE_STORAGE, OBool false)] [] [] [].
Definition n1 : node :=
  Node (lit "n1") (lit "192.0.2.1") (lit "192.0.2.1") 1 0%Q true false false (Some (lit "g")) true true [] (Some (lit "n1")).
Definition a_disk (uuid : string) : disk :=
  Disk false None DT_PLAIN (LPair (lit "xenvg") (lit uuid)) [] [lit "n1"] (Some (lit "disk/0")) 3 (lit "rw") [] None None []
    (Some (lit uuid)).
Definition an_instance (name uuid disk : string) (be : pdict) : instance :=
  Instance (lit name) (lit "n1") be [Nic (lit "aa:00:00:00:00:01") None None [] None] [lit disk] None (Some (lit uuid)).
Definition small : instance := an_instance "small" "i1" "d1" [].
Definition big : instance := an_instance "big" "i2" "d2" [(BE_MAXMEM, OInt 4)].

Definition data : config_data :=
  ConfigData (Cluster 1 params (policy 8) 11002 [] (lit "n1") (lit "192.0.2.3") (Some 10%Z) [] None None (Some (lit "c")))
    [(lit "n1", n1)] [(lit "g", NodeGroup (lit "default") [lit "n1"] [] [] MakeEmptyIPolicy 1 0%Q [] (Some (lit "g")))]
    [(lit "i1", small); (lit "i2", big)] [] [(lit "d1", a_disk "d1"); (lit "d2", a_disk "d2")] 1.

Lemma demo_policy_ok hi :
  CheckParameterSyntax (policy hi) true = Ok tt →
  policy_ok (policy hi) [DT_PLAIN] [[(ISPECS_MIN, spec 1); (ISPECS_MAX, spec hi)]].
Proof. intros Hc%CheckParameterSyntax_valid. split; [by exists true|done]. Qed.

Lemma demo_instance_ok name uuid disk be :
  GetInstanceInfo data (lit uuid) = Some (an_instance name uuid disk be) → GetDiskInfo data (lit disk) = Some (a_disk disk) →
  forallb (λ k, match dget k (full_be data (an_instance name uuid disk be)) with Some (OInt _) => true | _ => false end)
    [BE_MAXMEM; BE_VCPUS; BE_SPINDLE_USE] = true →
  instance_ok data (an_instance name uuid disk be) [a_disk disk].
Proof.
  intros Hi Hd Hbe. split_and!; [done|unfold has_disks; simpl; by rewrite Hd|..].
  - intros n Hn. assert (n = lit "n1") as ->; [|by vm_compute; eexists].
    destruct Hn as [->|(d & ->%list_elem_of_singleton & Hn)]; [done|]. change (n ∈ []) in Hn. by apply elem_of_nil in Hn.
  - intros k Hk. rewrite forallb_forall in Hbe. apply list_elem_of_In, Hbe in Hk.
    destruct (dget k _) as [[]|]; try done. eexists. split; [done|]. right. by eexists.
Qed.

Lemma ComputeNewInstanceViolations_correct_witness :
  ∃ names, ComputeNewInstanceViolations data (policy 8) (policy 3) [small; big] = Ok names ∧
    ∀ name, name ∈ names ↔
      (∃ inst, inst ∈ [small; big] ∧ i_name inst = name ∧
         ¬ meets data [DT_PLAIN] [[(ISPECS_MIN, spec 1); (ISPECS_MAX, spec 3)]] inst) ∧
      ¬ (∃ inst, inst ∈ [small; big] ∧ i_name inst = name ∧
         ¬ meets data [DT_PLAIN] [[(ISPECS_MIN, spec 1); (ISPECS_MAX, spec 8)]] inst).
Proof.
  apply (ComputeNewInstanceViolations_correct data (policy 8) (policy 3)).
  - apply demo_policy_ok. reflexivity.
  - apply demo_policy_ok. reflexivity.
  - repeat constructor; eexists; apply demo_instance_ok; reflexivity.
Defined.

Lemma violations : ComputeNewInstanceViolations data (policy 8) (policy 3) [small; big] = Ok {[lit "big"]}.
Proof. vm_compute. reflexivity. Qed.

(** The policy of a group that loses its disk templates and gets new bounds *)
Definition update : pdict :=
  [(IPOLICY_DTS, str_obj "default");
   (ISPECS_MINMAX, OList [ODict [(OStr ISPECS_MIN, ODict ((λ k, (OStr k, OInt 1)) <$> ISPECS_PARAMETERS));
                                 (OStr ISPECS_MAX, ODict ((λ k, (OStr k, str_obj "7")) <$> ISPECS_PARAMETERS))]])].
Definition group_policy : ipolicy := Ipolicy None None (Some [DT_PLAIN]) None None [].

Lemma GetUpdatedIPolicy_correct_witness :
  updated group_policy true update group_policy
    (Ipolicy (Some [[(ISPECS_MIN, spec 1); (ISPECS_MAX, spec 7)]]) None None None None []).
Proof.
  refine (proj1 (proj1 (GetUpdatedIPolicy_correct group_policy update true _ _) _)).
  - apply (bool_decide_eq_true_1 _). reflexivity.
  - vm_compute. reflexivity.
Defined.
End PolicyDemo.
