(* ===== verification/ContainerMods.v ===== *)
(** * Changes to the disks and NICs of an instance (src/lib/cmdlib/instance_utils.py)

    A list of modifications (add, attach, remove, detach, modify) is applied to a
    list of items that are named by index, name or UUID.  The callbacks that create
    and change the items are arguments with a state of their own; the container is
    changed in place, so that it is part of the state when an exception is raised. *)

From S2P Require Import Prelude Errors PySort PyStr PyVal BlockDev.
#[local] Open Scope list_scope.
#[local] Open Scope stdpp_scope.
#[local] Open Scope py_scope.

Inductive ddm := DDM_ADD | DDM_ATTACH | DDM_MODIFY | DDM_REMOVE | DDM_DETACH | OtherOp (op : str).

(** An identifier is an index or a string. *)
Inductive ident := IndexId (z : Z) | StrId (s : str).

(** [int(identifier)]; [None] is the [ValueError]. *)
Definition int_ident (identifier : ident) : option Z :=
  match identifier with IndexId z => Some z | StrId s => py_int s end.

Definition Index_error : exn := PyExn IndexError "".
Definition changes := list (str * obj).

Section container.
  (** Items, private data and the state of the callbacks; the attributes [uuid]
      and [name] of an item, and the parameters as an item *)
  Context {I P S : Type} (attr_uuid attr_name : I → exc obj) (as_item : obj → I).

(** [(operation, identifier, parameters)], with the private data *)
Definition cmod : Type := ddm * ident * obj * P.

(** [PrepareContainerMods]; [private_fn] makes a new object each time. *)
Fixpoint PrepareContainerMods (private_fn : S → P * S) (mods : list (ddm * ident * obj)) (s : S) : list cmod * S :=
  match mods with
  | [] => ([], s)
  | m :: mods =>
      let '(private, s) := private_fn s in
      let '(rest, s) := PrepareContainerMods private_fn mods s in
      ((m, private) :: rest, s)
  end.

(** The loop over [enumerate(container)] *)
Fixpoint find_item (identifier : str) (idx : nat) (container : list I) : exc (nat * I) :=
  match container with
  | [] => Raise (GntExn OpPrereqError [])
  | item :: container =>
      let* uuid := attr_uuid item in
      if py_eq uuid (OStr identifier) then Ok (idx, item)
      else
        let* name := attr_name item in
        if py_eq name (OStr identifier) then Ok (idx, item) else find_item identifier (idx + 1) container
  end.

Definition item_at (idx : nat) (container : list I) : exc (nat * I) :=
  match container !! idx with Some item => Ok (idx, item) | None => Raise Index_error end.

Definition GetItemFromContainer (identifier : ident) (container : list I) : exc (nat * I) :=
  match int_ident identifier, identifier with
  | Some idx, _ =>
      if (idx =? -1)%Z then
        match container with [] => Raise Index_error | _ => item_at (length container - 1) container end
      else if (idx <? 0)%Z then Raise Index_error
      else if (Z.of_nat (length container) <? idx)%Z then Raise Index_error
      else item_at (Z.to_nat idx) container
  | None, StrId s => find_item s 0 container
  | None, IndexId _ => Raise (GntExn OpPrereqError [])
  end.

Definition GetIndexFromIdentifier (identifier : ident) (container : list I) : exc nat :=
  match int_ident identifier with
  | None => Raise (GntExn OpPrereqError [])
  | Some idx =>
      if (idx =? -1)%Z then Ok (length container)
      else if (idx <? 0)%Z then Raise Index_error
      else if (Z.of_nat (length container) <? idx)%Z then Raise Index_error
      else Ok (Z.to_nat idx)
  end.

Definition InsertItemToIndex (identifier : ident) (item : I) (container : list I) : exc (list I) :=
  match int_ident identifier with
  | None => Raise (GntExn OpPrereqError [])
  | Some idx =>
      if (idx =? -1)%Z then Ok (container ++ [item])
      else
        do* assert (0 <=? idx)%Z in
        do* assert (idx <=? Z.of_nat (length container))%Z in
        Ok (take (Z.to_nat idx) container ++ item :: drop (Z.to_nat idx) container)
  end.

(** ** Callbacks *)

Record callbacks := Callbacks {
  create_fn : option (nat → obj → P → eff exn S (I * option changes));
  attach_fn : option (nat → obj → P → eff exn S (I * option changes));
  (** the item may be changed even when an exception is raised *)
  modify_fn : option (nat → I → obj → P → S → result exn (option changes) * I * S);
  remove_fn : option (nat → I → P → eff exn S obj);
  detach_fn : option (nat → I → P → eff exn S obj);
  post_add_fn : option (nat → I → eff exn S unit)
}.

Context (cb : callbacks) (kind : str).

(** The container, the changes described so far, and the state of the callbacks *)
Record cstate := CState { c_items : list I; c_chgdesc : option changes; c_env : S }.

(** [_TApplyContModsCbChanges] *)
Definition changes_ok (ch : option changes) : bool :=
  match ch with Some l => forallb (λ c : str * obj, negb (bool_decide (c.1 = []))) l | None => true end.

Definition record_changes (chgdesc ch : option changes) : option changes :=
  match chgdesc, ch with Some d, Some c => Some (d ++ c) | _, _ => chgdesc end.

(** The end of the loop's body *)
Definition finish (ch : option changes) : eff exn cstate unit := λ st,
  if changes_ok ch then (Ok tt, CState (c_items st) (record_changes (c_chgdesc st) ch) (c_env st))
  else (Raise AssertionFailed, st).

Definition call_create (fn : option (nat → obj → P → eff exn S (I * option changes))) (addidx : nat) (params : obj)
    (private : P) : eff exn S (I * option changes) :=
  match fn with Some f => f addidx params private | None => mret (as_item params, None) end.
Definition call_post (addidx : nat) (item : I) : eff exn S unit :=
  match post_add_fn cb with Some f => f addidx item | None => mret tt end.
Definition call_modify (absidx : nat) (item : I) (params : obj) (private : P) (s : S) : result exn (option changes) * I * S :=
  match modify_fn cb with Some f => f absidx item params private s | None => (Ok None, item, s) end.

(** The message of the callback, when it gives one, follows the change itself. *)
Definition change_name (absidx : nat) : str := kind ++ lit "/" ++ dec (N.of_nat absidx).
Definition call_drop (fn : option (nat → I → P → eff exn S obj)) (what : string) (absidx : nat) (item : I) (private : P)
    : eff exn S changes :=
  match fn with
  | None => mret [(change_name absidx, str_obj what)]
  | Some f =>
      msg ← f absidx item private;
      mret ((change_name absidx, str_obj what) :: if py_truth msg then [(change_name absidx, msg)] else [])
  end.

Definition set_items (l : list I) (st : cstate) : cstate := CState l (c_chgdesc st) (c_env st).
Definition set_env (s : S) (st : cstate) : cstate := CState (c_items st) (c_chgdesc st) s.

(** ** Operations *)

Definition apply_add (fn : option (nat → obj → P → eff exn S (I * option changes))) (identifier : ident) (params : obj)
    (private : P) : eff exn cstate unit := λ st,
  match GetIndexFromIdentifier identifier (c_items st) with
  | Raise e => (Raise e, st)
  | Ok addidx =>
      match call_create fn addidx params private (c_env st) with
      | (Raise e, s) => (Raise e, set_env s st)
      | (Ok (item, ch), s) =>
          match InsertItemToIndex identifier item (c_items st) with
          | Raise e => (Raise e, set_env s st)
          | Ok items =>
              match call_post addidx item s with
              | (Raise e, s) => (Raise e, set_items items (set_env s st))
              | (Ok _, s) => finish ch (set_items items (set_env s st))
              end
          end
      end
  end.

Definition apply_drop (fn : option (nat → I → P → eff exn S obj)) (what : string) (identifier : ident) (params : obj)
    (private : P) : eff exn cstate unit := λ st,
  match GetItemFromContainer identifier (c_items st) with
  | Raise e => (Raise e, st)
  | Ok (absidx, item) =>
      if py_truth params then (Raise AssertionFailed, st)
      else
        match call_drop fn what absidx item private (c_env st) with
        | (Raise e, s) => (Raise e, set_env s st)
        | (Ok ch, s) => finish (Some ch) (set_items (delete absidx (c_items st)) (set_env s st))
        end
  end.

Definition apply_modify (identifier : ident) (params : obj) (private : P) : eff exn cstate unit := λ st,
  match GetItemFromContainer identifier (c_items st) with
  | Raise e => (Raise e, st)
  | Ok (absidx, item) =>
      match call_modify absidx item params private (c_env st) with
      | (Raise e, item, s) => (Raise e, set_items (<[absidx:=item]> (c_items st)) (set_env s st))
      | (Ok ch, item, s) => finish ch (set_items (<[absidx:=item]> (c_items st)) (set_env s st))
      end
  end.

Definition apply_one (m : cmod) : eff exn cstate unit :=
  let '(op, identifier, params, private) := m in
  match op with
  | DDM_ADD => apply_add (create_fn cb) identifier params private
  | DDM_ATTACH => apply_add (attach_fn cb) identifier params private
  | DDM_REMOVE => apply_drop (remove_fn cb) "remove" identifier params private
  | DDM_DETACH => apply_drop (detach_fn cb) "detach" identifier params private
  | DDM_MODIFY => apply_modify identifier params private
  | OtherOp _ => λ st,
      match GetItemFromContainer identifier (c_items st) with
      | Raise e => (Raise e, st)
      | Ok _ => (Raise (GntExn ProgrammerError []), st)
      end
  end.

Fixpoint ApplyContainerMods (mods : list cmod) : eff exn cstate unit :=
  match mods with
  | [] => mret tt
  | m :: mods => apply_one m ;; ApplyContainerMods mods
  end.
End container.
