(* ===== verification/ContainerModsProps.v ===== *)
(** * Modifications act on the items that they name

    An index or an identifier stands for one place of the container; the
    modifications act there one after the other, the callbacks get the place that
    the item has, and an exception leaves the modifications before it applied. *)

From S2P Require Import Prelude Errors PySort PyStr PyVal BlockDev ContainerMods.
#[local] Open Scope list_scope.
#[local] Open Scope stdpp_scope.
#[local] Open Scope py_scope.

Section places.
  Context {I P S : Type} (attr_uuid attr_name : I → exc obj) (as_item : obj → I).

(** Where a new item goes in a container of [n] items: -1 stands for the end. *)
Definition place (identifier : ident) (n i : nat) : Prop :=
  ∃ z, int_ident identifier = Some z ∧ i ≤ n ∧ (z = -1 ∧ i = n ∨ z = Z.of_nat i)%Z.

(** UUID or name of the item are the identifier; or they are both known and are not. *)
Definition named (s : str) (y : I) : Prop :=
  ∃ u, attr_uuid y = Ok u ∧
    (py_eq u (OStr s) = true ∨ py_eq u (OStr s) = false ∧ ∃ n, attr_name y = Ok n ∧ py_eq n (OStr s) = true).
Definition other (s : str) (y : I) : Prop :=
  ∃ u n, attr_uuid y = Ok u ∧ py_eq u (OStr s) = false ∧ attr_name y = Ok n ∧ py_eq n (OStr s) = false.

(** The item that an identifier refers to, and its place: the last one for -1, the one
    at the index, or the first one with the UUID or name *)
Definition refers (identifier : ident) (c : list I) (i : nat) (item : I) : Prop :=
  c !! i = Some item ∧
  match int_ident identifier with
  | Some z => (z = -1 ∧ i = (length c - 1)%nat ∨ z = Z.of_nat i)%Z
  | None => ∃ s, identifier = StrId s ∧ named s item ∧ ∀ j y, j < i → c !! j = Some y → other s y
  end.

Lemma GetIndexFromIdentifier_Ok identifier (c : list I) i :
  GetIndexFromIdentifier identifier c = Ok i ↔ place identifier (length c) i.
Proof.
  unfold GetIndexFromIdentifier, place. destruct (int_ident identifier) as [z|]; [|naive_solver].
  destruct (Z.eqb_spec z (-1)) as [->|Hz].
  { split; [intros [= <-]; exists (-1)%Z; naive_solver|]. intros (z & [= <-] & Hi & [[_ ->]|?]); [done|lia]. }
  destruct (Z.ltb_spec z 0).
  { split; [done|]. intros (z' & [= <-] & Hi & [[? _]|?]); lia. }
  destruct (Z.ltb_spec (Z.of_nat (length c)) z).
  { split; [done|]. intros (z' & [= <-] & Hi & [[? _]|?]); lia. }
  split.
  - intros [= <-]. exists z. split_and!; [done|lia|]. right. lia.
  - intros (z' & [= <-] & Hi & [[? _]| ->]); [lia|]. by rewrite Nat2Z.id.
Qed.

Lemma InsertItemToIndex_Ok identifier (item : I) c i :
  place identifier (length c) i → InsertItemToIndex identifier item c = Ok (take i c ++ item :: drop i c).
Proof.
  intros (z & Hz & Hi & Hcase). unfold InsertItemToIndex. rewrite Hz.
  destruct (Z.eqb_spec z (-1)) as [->|Hne].
  - destruct Hcase as [[_ ->]|?]; [|lia]. by rewrite firstn_all, drop_all.
  - destruct Hcase as [[? _]| ->]; [lia|]. destruct (Z.leb_spec 0 (Z.of_nat i)); [|lia].
    destruct (Z.leb_spec (Z.of_nat i) (Z.of_nat (length c))); [|lia]. cbn. by rewrite Nat2Z.id.
Qed.

Lemma item_at_Ok idx (c : list I) i item : item_at idx c = Ok (i, item) ↔ i = idx ∧ c !! i = Some item.
Proof. unfold item_at. destruct (c !! idx) eqn:E; naive_solver. Qed.

Lemma find_item_Ok s c : ∀ idx i item,
  find_item attr_uuid attr_name s idx c = Ok (i, item) ↔
  ∃ k, i = idx + k ∧ c !! k = Some item ∧ named s item ∧ ∀ j y, j < k → c !! j = Some y → other s y.
Proof.
  induction c as [|x c IH]; intros idx i item; cbn [find_item]; [naive_solver|].
  destruct (attr_uuid x) as [u|] eqn:Eu; cbn [rbind].
  2: { split; [done|]. intros ([|k] & _ & Hk & (u & Hu & _) & Ho); simplify_eq/=; [congruence|].
       destruct (Ho 0 x) as (? & ? & ? & _); [lia|done|congruence]. }
  destruct (py_eq u (OStr s)) eqn:E.
  { split; [intros [= <- <-]; exists 0; split_and!; [lia|done|exists u; split; [done|by left]|intros; lia]|].
    intros ([|k] & -> & Hk & _ & Ho); [injection Hk as <-; do 3 f_equal; lia|].
    destruct (Ho 0 x) as (? & ? & ? & ? & _); [lia|done|congruence]. }
  destruct (attr_name x) as [n|] eqn:En; cbn [rbind].
  2: { split; [done|]. intros ([|k] & _ & Hk & (u' & Hu & Hcase) & Ho); simplify_eq/=; [destruct Hcase as [?|(_ & n & ? & _)]; congruence|].
       destruct (Ho 0 x) as (? & ? & _ & _ & ? & _); [lia|done|congruence]. }
  destruct (py_eq n (OStr s)) eqn:E'.
  { split; [intros [= <- <-]; exists 0; split_and!; [lia|done|exists u; split; [done|right; eauto]|intros; lia]|].
    intros ([|k] & -> & Hk & _ & Ho); [injection Hk as <-; do 3 f_equal; lia|].
    destruct (Ho 0 x) as (? & ? & ? & ? & ? & ?); [lia|done|congruence]. }
  rewrite IH. split.
  - intros (k & -> & Hk & Hn & Ho). exists (1 + k). split_and!; [lia|done|done|].
    intros [|j] y Hj Hy; [injection Hy as <-; by exists u, n|]. eapply (Ho j); [lia|done].
  - intros ([|k] & -> & Hk & Hn & Ho).
    + injection Hk as ->. destruct Hn as (u' & Hu & [?|(_ & n' & ? & ?)]); congruence.
    + exists k. split_and!; [lia|done|done|]. intros j y Hj Hy. apply (Ho (1 + j) y); [lia|done].
Qed.

Lemma GetItemFromContainer_Ok identifier c i item :
  GetItemFromContainer attr_uuid attr_name identifier c = Ok (i, item) ↔ refers identifier c i item.
Proof.
  unfold GetItemFromContainer, refers. destruct (int_ident identifier) as [z|] eqn:Ez.
  - destruct (Z.eqb_spec z (-1)) as [->|Hz].
    { destruct c as [|x c]; [naive_solver|]. rewrite item_at_Ok. split; [naive_solver|].
      intros (Hi & [[_ ->]|?]); [done|lia]. }
    destruct (Z.ltb_spec z 0); [split; [done|]; intros (_ & [[? _]|?]); lia|].
    destruct (Z.ltb_spec (Z.of_nat (length c)) z).
    { split; [done|]. intros (Hi%lookup_lt_Some & [[? _]|?]); lia. }
    rewrite item_at_Ok. split; [intros [-> Hi]; split; [done|]; right; lia|].
    intros (Hi & [[? _]| ->]); [lia|]. by rewrite Nat2Z.id.
  - destruct identifier as [z|s]; [done|]. rewrite find_item_Ok. cbn [plus]. naive_solver.
Qed.
End places.

Section modifications.
  Context {I P S : Type} (attr_uuid attr_name : I → exc obj) (as_item : obj → I).
  Context (cb : @callbacks I P S) (kind : str).

#[local] Notation cmod := (@cmod P).
#[local] Notation cstate := (@cstate I S).
#[local] Notation refers := (refers attr_uuid attr_name).
#[local] Notation Apply := (ApplyContainerMods attr_uuid attr_name as_item cb kind).
#[local] Notation apply_one := (apply_one attr_uuid attr_name as_item cb kind).

(** The callback of an operation that adds, and of one that takes away *)
Definition adding (op : ddm) : option (option (nat → obj → P → eff exn S (I * option changes))) :=
  match op with DDM_ADD => Some (create_fn cb) | DDM_ATTACH => Some (attach_fn cb) | _ => None end.
Definition dropping (op : ddm) : option (option (nat → I → P → eff exn S obj) * string) :=
  match op with
  | DDM_REMOVE => Some (remove_fn cb, "remove"%string)
  | DDM_DETACH => Some (detach_fn cb, "detach"%string)
  | _ => None
  end.

(** One modification: a new item is put at its place, which the callbacks get to
    know; an item that is named is taken away or replaced. *)
Inductive applied : cmod → cstate → cstate → Prop :=
| applied_add op fn identifier params private c d s i item ch s1 s2 :
    adding op = Some fn → place identifier (length c) i →
    call_create as_item fn i params private s = (Ok (item, ch), s1) → call_post cb i item s1 = (Ok tt, s2) →
    changes_ok ch = true →
    applied (op, identifier, params, private) (CState c d s)
      (CState (take i c ++ item :: drop i c) (record_changes d ch) s2)
| applied_drop op fn what identifier params private c d s i item ch s1 :
    dropping op = Some (fn, what) → refers identifier c i item → py_truth params = false →
    call_drop kind fn what i item private s = (Ok ch, s1) →
    applied (op, identifier, params, private) (CState c d s) (CState (delete i c) (record_changes d (Some ch)) s1)
| applied_modify identifier params private c d s i item item' ch s1 :
    refers identifier c i item → call_modify cb i item params private s = (Ok ch, item', s1) → changes_ok ch = true →
    applied (DDM_MODIFY, identifier, params, private) (CState c d s)
      (CState (<[i:=item']> c) (record_changes d ch) s1).

Inductive applied_all : list cmod → cstate → cstate → Prop :=
| applied_none st : applied_all [] st st
| applied_next m mods st st1 st2 : applied m st st1 → applied_all mods st1 st2 → applied_all (m :: mods) st st2.

(** What a modification that raises an exception leaves: the container as it was,
    or with the new item, or with the item that was being modified changed *)
Definition interrupted (m : cmod) (st st' : cstate) : Prop :=
  let '(op, identifier, params, private) := m in
  c_chgdesc st' = c_chgdesc st ∧
  (c_items st' = c_items st ∨
   (is_Some (adding op) ∧ ∃ i item, place identifier (length (c_items st)) i ∧
      c_items st' = take i (c_items st) ++ item :: drop i (c_items st)) ∨
   (op = DDM_MODIFY ∧ ∃ i item item', refers identifier (c_items st) i item ∧
      c_items st' = <[i:=item']> (c_items st))).

Lemma call_drop_ok fn what i item private s ch s1 :
  call_drop (I := I) (P := P) (S := S) kind fn what i item private s = (Ok ch, s1) → changes_ok (Some ch) = true.
Proof.
  assert (∀ i, change_name kind i ≠ []) as Hn.
  { intros j. unfold change_name. by destruct kind. }
  unfold call_drop. destruct fn as [f|].
  - unfold mbind, eff_bind, mret, eff_ret. destruct (f i item private s) as [[msg|e] s']; [|done]. intros [= <- <-].
    simpl. rewrite bool_decide_false by done. destruct (py_truth msg); simpl; [|done]. by rewrite bool_decide_false.
  - intros [= <- <-]. simpl. by rewrite bool_decide_false.
Qed.

Lemma applied_run m st st' : applied m st st' → apply_one m st = (Ok tt, st').
Proof.
  destruct 1 as [op fn identifier params private c d s i item ch s1 s2 Hop Hi Hc Hp Hch
    |op fn what identifier params private c d s i item ch s1 Hop Hi Hpar Hc
    |identifier params private c d s i item item' ch s1 Hi Hc Hch].
  - assert (apply_one (op, identifier, params, private) = apply_add as_item cb fn identifier params private) as ->
      by (destruct op; simplify_eq/=; done).
    unfold apply_add. cbn [c_items c_env]. rewrite (proj2 (GetIndexFromIdentifier_Ok _ _ _) Hi), Hc.
    rewrite (InsertItemToIndex_Ok _ _ _ _ Hi), Hp. unfold finish. by rewrite Hch.
  - assert (apply_one (op, identifier, params, private) =
      apply_drop attr_uuid attr_name kind fn what identifier params private) as -> by (destruct op; simplify_eq/=; done).
    unfold apply_drop. cbn [c_items c_env]. rewrite (proj2 (GetItemFromContainer_Ok _ _ _ _ _ _) Hi), Hpar, Hc.
    unfold finish. by rewrite (call_drop_ok _ _ _ _ _ _ _ _ Hc).
  - cbn [ContainerMods.apply_one]. unfold apply_modify. cbn [c_items c_env].
    rewrite (proj2 (GetItemFromContainer_Ok _ _ _ _ _ _) Hi), Hc. unfold finish. by rewrite Hch.
Qed.

(** What a modification did *)
Definition outcome (m : cmod) (st : cstate) (r : result exn unit * cstate) : Prop :=
  match r with (Ok _, st') => applied m st st' | (Raise _, st') => interrupted m st st' end.

Lemma apply_add_outcome op fn identifier params private st :
  adding op = Some fn →
  outcome (op, identifier, params, private) st (apply_add as_item cb fn identifier params private st).
Proof.
  intros Hop. destruct st as [c d s]. unfold apply_add. cbn [c_items c_env].
  destruct (GetIndexFromIdentifier identifier c) as [i|e] eqn:Hi; [|split; [done|by left]].
  apply GetIndexFromIdentifier_Ok in Hi.
  destruct (call_create as_item fn i params private s) as [[[item ch]|e] s1] eqn:Hc; [|split; [done|by left]].
  rewrite (InsertItemToIndex_Ok _ _ _ _ Hi).
  assert (∀ s', interrupted (op, identifier, params, private) (CState c d s)
            (CState (take i c ++ item :: drop i c) d s')) as Hint.
  { intros s'. split; [done|]. right. left. rewrite Hop. split; [done|]. by exists i, item. }
  destruct (call_post cb i item s1) as [[[]|e] s2] eqn:Hp; [|apply Hint].
  unfold finish. destruct (changes_ok ch) eqn:Hch; [|apply Hint]. by eapply applied_add.
Qed.

Lemma apply_drop_outcome op fn what identifier params private st :
  dropping op = Some (fn, what) →
  outcome (op, identifier, params, private) st
    (apply_drop attr_uuid attr_name kind fn what identifier params private st).
Proof.
  intros Hop. destruct st as [c d s]. unfold apply_drop. cbn [c_items c_env].
  destruct (GetItemFromContainer attr_uuid attr_name identifier c) as [[i item]|e] eqn:Hi; [|split; [done|by left]].
  apply GetItemFromContainer_Ok in Hi. destruct (py_truth params) eqn:Hpar; [split; [done|by left]|].
  destruct (call_drop kind fn what i item private s) as [[ch|e] s1] eqn:Hc; [|split; [done|by left]].
  unfold finish. rewrite (call_drop_ok _ _ _ _ _ _ _ _ Hc). by eapply applied_drop.
Qed.

Lemma apply_modify_outcome identifier params private st :
  outcome (DDM_MODIFY, identifier, params, private) st
    (apply_modify attr_uuid attr_name cb identifier params private st).
Proof.
  destruct st as [c d s]. unfold apply_modify. cbn [c_items c_env].
  destruct (GetItemFromContainer attr_uuid attr_name identifier c) as [[i item]|e] eqn:Hi; [|split; [done|by left]].
  apply GetItemFromContainer_Ok in Hi.
  assert (∀ item' s', interrupted (DDM_MODIFY, identifier, params, private) (CState c d s)
            (CState (<[i:=item']> c) d s')) as Hint.
  { intros item' s'. split; [done|]. do 2 right. split; [done|]. by exists i, item, item'. }
  destruct (call_modify cb i item params private s) as [[[ch|e] item'] s1] eqn:Hc; [|apply Hint].
  unfold finish. destruct (changes_ok ch) eqn:Hch; [|apply Hint]. by eapply applied_modify.
Qed.

Lemma apply_one_outcome m st : outcome m st (apply_one m st).
Proof.
  destruct m as [[[op identifier] params] private]. destruct op; cbn [ContainerMods.apply_one].
  1, 2: by apply apply_add_outcome.
  1: apply apply_modify_outcome.
  1, 2: by apply apply_drop_outcome.
  destruct (GetItemFromContainer _ _ _ _); (split; [done|by left]).
Qed.

(** C40: The modifications of the disks or NICs of an instance are applied in order, each
    to the item that its identifier stands for at that moment: the index, the last
    one for -1, else the first one with the UUID or name.  A new item goes to the
    place that the callbacks are told, the others keep their order.  This is
    exactly when no exception is raised; after an exception the modifications
    before it are applied, and at most a new item was inserted or the item that
    was being modified changed: no item is lost. *)
Theorem ApplyContainerMods_correct mods st :
  (∀ st', Apply mods st = (Ok tt, st') ↔ applied_all mods st st') ∧
  (∀ e st', Apply mods st = (Raise e, st') →
     ∃ before m after st1, mods = before ++ m :: after ∧ applied_all before st st1 ∧
       (∀ st2, ¬ applied m st1 st2) ∧ interrupted m st1 st').
Proof.
  revert st. induction mods as [|m mods IH]; intros st; cbn [ApplyContainerMods].
  { split; [|done]. intros st'. split; [intros [= <-]; constructor|]. by inversion 1. }
  pose proof (apply_one_outcome m st) as Ho. unfold mbind, eff_bind.
  destruct (apply_one m st) as [[[]|e] st1] eqn:Em; cbn [outcome] in Ho; split.
  - intros st'. rewrite (proj1 (IH st1)). split; [by econstructor|]. inversion 1 as [|? ? ? st1' ? Ha Hrest]; subst.
    apply applied_run in Ha. rewrite Em in Ha. by injection Ha as <-.
  - intros e st' (before & m' & after & st2 & -> & Hall & Hn & Hi)%(proj2 (IH st1)).
    exists (m :: before), m', after, st2. split_and!; [done|by econstructor|done|done].
  - intros st'. split; [done|]. inversion 1 as [|? ? ? st1' ? Ha Hrest]; subst. apply applied_run in Ha. congruence.
  - intros e' st' [= <- <-]. exists [], m, mods, st. split_and!; [done|constructor| |done].
    intros st2 Ha%applied_run. congruence.
Qed.
End modifications.

Module ContainerDemo.

(** Items with a UUID and a name; new ones get theirs from the parameters. *)
Definition demo_item := (str * str)%type.
Definition no_callbacks : @callbacks demo_item unit (list nat) :=
  Callbacks None None None None None (Some (λ i _ seen, (Ok tt, seen ++ [i]))).
Definition run (mods : list (ddm * ident * obj)) : result exn unit * @cstate demo_item (list nat) :=
  ApplyContainerMods (λ it, Ok (OStr it.1)) (λ it, Ok (OStr it.2))
    (λ v, match v with OStr s => (s, s) | _ => ([], []) end) no_callbacks (lit "disk")
    ((λ m, (m, tt)) <$> mods) (CState [(lit "u0", lit "root"); (lit "u1", lit "data")] (Some []) []).

Lemma runs :
  run [(DDM_ADD, StrId (lit "1"), str_obj "swap"); (DDM_REMOVE, StrId (lit "root"), ONone); (DDM_ADD, IndexId (-1), str_obj "log")] =
    (Ok tt, CState [(lit "swap", lit "swap"); (lit "u1", lit "data"); (lit "log", lit "log")]
              (Some [(lit "disk/0", str_obj "remove")]) [1; 2]) ∧
  run [(DDM_DETACH, StrId (lit "u1"), ONone); (DDM_MODIFY, IndexId 1, ONone)] =
    (Raise Index_error, CState [(lit "u0", lit "root")] (Some [(lit "disk/1", str_obj "detach")]) []).
Proof. split; vm_compute; reflexivity. Qed.
End ContainerDemo.
