(* ===== verification/Watcher.v ===== *)
(** * Watcher (src/lib/watcher/__init__.py, watcher/state.py)

    The periodic check of a node group: instances that are down are restarted,
    those that their user shut down are cleaned up, and disks are activated after
    the reboot of a node.  What the checks need to remember from one run to the next
    is kept in a state file.  Whether an opcode succeeds is decided by an argument
    that knows the opcodes submitted so far, the time by one that counts readings. *)

From Stdlib Require Import QArith.
From S2P Require Import Prelude Errors PySort PyStr PyDict Params.
#[local] Open Scope list_scope.
#[local] Open Scope stdpp_scope.

Definition MAXTRIES : nat := 5.
Definition RETRY_EXPIRATION : Q := 28800.

(** ** State (watcher/state.py) *)

(** The record of an instance that is down, and the boot identifier of a node *)
Record irec := InstanceRecord {
  cleanup_count : option nat;
  cleanup_when : option Q;
  restart_count : option nat;
  restart_when : option Q
}.
Definition empty_record : irec := InstanceRecord None None None None.

Record wdata := WatcherData { w_instance : dict irec; w_node : dict (option str) }.

(** [WatcherState.__init__]: a file that is empty or cannot be read counts as empty. *)
Definition WatcherState (statefile : option wdata) : wdata := default (WatcherData [] []) statefile.

Definition GetNodeBootID (d : wdata) (name : str) : option str := default None (dget name (w_node d)).
Definition SetNodeBootID (name bootid : str) (d : wdata) : wdata :=
  WatcherData (w_instance d) (dset name (Some bootid) (w_node d)).

Definition NumberOfRestartAttempts (d : wdata) (instance_name : str) : nat :=
  default 0 (default empty_record (dget instance_name (w_instance d))).(restart_count).
Definition NumberOfCleanupAttempts (d : wdata) (instance_name : str) : nat :=
  default 0 (default empty_record (dget instance_name (w_instance d))).(cleanup_count).

Definition Qltb (a b : Q) : bool := negb (Qle_bool b a).

(** The time is read after the obsolete records are gone. *)
Definition MaintainInstanceList (instances : list str) (now : Q) (d : wdata) : wdata :=
  let idict := List.filter (λ kv : str * irec, bool_decide (kv.1 ∈ instances)) (w_instance d) in
  let earliest := (now - RETRY_EXPIRATION)%Q in
  WatcherData (List.filter (λ kv : str * irec, negb (Qltb (default 0%Q (restart_when kv.2)) earliest)) idict) (w_node d).

(** [_RecordAttempt] with the keys for restarts and for cleanups *)
Definition RecordAttempt (update : irec → irec) (instance_name : str) (d : wdata) : wdata :=
  WatcherData (dset instance_name (update (default empty_record (dget instance_name (w_instance d)))) (w_instance d)) (w_node d).
Definition RecordRestartAttempt (instance_name : str) (now : Q) : wdata → wdata :=
  RecordAttempt (λ r, InstanceRecord (cleanup_count r) (cleanup_when r) (Some (1 + default 0 (restart_count r))) (Some now))
    instance_name.
Definition RecordCleanupAttempt (instance_name : str) (now : Q) : wdata → wdata :=
  RecordAttempt (λ r, InstanceRecord (Some (1 + default 0 (cleanup_count r))) (Some now) (restart_count r) (restart_when r))
    instance_name.
Definition RemoveInstance (instance_name : str) (d : wdata) : wdata :=
  WatcherData (ddel instance_name (w_instance d)) (w_node d).

(** ** Instances and nodes *)

Inductive instance_status :=
| INSTST_RUNNING | INSTST_ADMINDOWN | INSTST_ADMINOFFLINE | INSTST_NODEDOWN | INSTST_NODEOFFLINE
| INSTST_ERRORUP | INSTST_ERRORDOWN | INSTST_USERDOWN | INSTST_WRONGNODE.
Inductive admin_state := ADMINST_UP | ADMINST_DOWN | ADMINST_OFFLINE.

#[export] Instance instance_status_eq_dec : EqDecision instance_status.
Proof. solve_decision. Defined.
#[export] Instance admin_state_eq_dec : EqDecision admin_state.
Proof. solve_decision. Defined.

Definition BAD_STATES : list instance_status := [INSTST_ERRORDOWN].
Definition HELPLESS_STATES : list instance_status := [INSTST_NODEDOWN; INSTST_NODEOFFLINE].

Record winstance := WInstance {
  wi_name : str;
  wi_status : instance_status;
  wi_config_state : admin_state;
  wi_disks_active : bool;
  wi_snodes : list str
}.
Record wnode := WNode { wn_name : str; wn_bootid : option str; wn_offline : bool; wn_secondaries : list str }.

Definition NeedsCleanup (inst : winstance) : bool :=
  bool_decide (wi_status inst = INSTST_USERDOWN) && negb (bool_decide (wi_config_state inst = ADMINST_DOWN)).

(** ** Group data *)

(** A row of the query for instances: the instance, the group of its primary node and
    those of its secondaries *)
Definition in_one_group (row : winstance * str * list str) : bool :=
  let '(inst, pgroup, sgroups) := row in
  match wi_snodes inst with
  | [] => true
  | _ => negb (bool_decide (sgroups = [])) && forallb (λ g, bool_decide (g = pgroup)) sgroups
  end.

Definition add_secondary (name : str) (secondaries : dict (list str)) (node : str) : dict (list str) :=
  let s := default [] (dget node secondaries) in
  dset node (if decide (name ∈ s) then s else s ++ [name]) secondaries.

(** [_GetGroupData] of the rows; [raw_nodes] has names, boot identifiers and the
    offline flag.  The order of a set of secondaries is left open; here it is that
    of the rows. *)
Definition GetGroupData (raw_instances : list (winstance * str * list str)) (raw_nodes : list (str * option str * bool))
    : dict wnode * dict winstance :=
  let instances := (λ row : winstance * str * list str, row.1.1) <$> List.filter in_one_group raw_instances in
  let secondaries := foldl (λ secs inst, foldl (add_secondary (wi_name inst)) secs (wi_snodes inst)) [] instances in
  (mk_dict ((λ '(name, bootid, offline), (name, WNode name bootid offline (default [] (dget name secondaries)))) <$> raw_nodes),
   mk_dict ((λ inst, (wi_name inst, inst)) <$> instances)).

(** ** Checks *)

(** The opcodes that the watcher submits *)
Inductive wop := InstanceStartup (name : str) | InstanceShutdown (name : str) | InstanceActivateDisks (name : str).

(** The notepad, how often the time was read, and the opcodes submitted *)
Record wrun := WState { notepad : wdata; ticks : nat; submitted : list wop }.

Section checks.
  Context (clock : nat → Q) (fails : list wop → wop → bool).

(** [cli.SubmitOpCode]; the answer tells whether it raised an exception. *)
Definition SubmitOpCode (op : wop) (st : wrun) : bool * wrun :=
  (fails (submitted st) op, WState (notepad st) (ticks st) (submitted st ++ [op])).

Definition on_notepad (f : wdata → wdata) (st : wrun) : wrun := WState (f (notepad st)) (ticks st) (submitted st).
(** An update with the current time *)
Definition timed (f : Q → wdata → wdata) (st : wrun) : wrun :=
  WState (f (clock (ticks st)) (notepad st)) (1 + ticks st) (submitted st).

Definition CleanupInstance (inst : winstance) (locks : list str) (st : wrun) : wrun :=
  let n := NumberOfCleanupAttempts (notepad st) (wi_name inst) in
  if bool_decide (wi_name inst ∈ locks) then st
  else if (MAXTRIES <? n)%nat then st
  else
    let '(failed, st) := SubmitOpCode (InstanceShutdown (wi_name inst)) st in
    if failed then timed (RecordCleanupAttempt (wi_name inst)) st
    else if (0 <? NumberOfCleanupAttempts (notepad st) (wi_name inst))%nat
         then on_notepad (RemoveInstance (wi_name inst)) st else st.

(** The body of the loop of [_CheckInstances]; [started] is a set. *)
Definition CheckInstance (locks : list str) (p : wrun * list str) (inst : winstance) : wrun * list str :=
  let '(st, started) := p in
  if NeedsCleanup inst then (CleanupInstance inst locks st, started)
  else if bool_decide (wi_status inst ∈ BAD_STATES) then
    let n := NumberOfRestartAttempts (notepad st) (wi_name inst) in
    if (MAXTRIES <? n)%nat then (st, started)
    else if (n =? MAXTRIES)%nat then (timed (RecordRestartAttempt (wi_name inst)) st, started)
    else
      let '(failed, st) := SubmitOpCode (InstanceStartup (wi_name inst)) st in
      (timed (RecordRestartAttempt (wi_name inst)) st, if failed then started else wi_name inst :: started)
  else if (0 <? NumberOfRestartAttempts (notepad st) (wi_name inst))%nat
       then (on_notepad (RemoveInstance (wi_name inst)) st, started) else (st, started).

Definition CheckInstances (instances : dict winstance) (locks : list str) (st : wrun) : wrun * list str :=
  foldl (CheckInstance locks) (timed (MaintainInstanceList (dkeys instances)) st, []) (dvalues instances).

(** Nodes whose boot identifier has changed *)
Definition check_nodes (d : wdata) (nodes : dict wnode) : list wnode :=
  List.filter (λ n, match wn_bootid n with
                    | None | Some [] => false
                    | Some b => negb (bool_decide (GetNodeBootID d (wn_name n) = Some b))
                    end) (dvalues nodes).

Definition activate_disks (instances : dict winstance) (started : list str) (st : wrun) (instance_name : str) : wrun :=
  match dget instance_name instances with
  | None => st
  | Some inst =>
      if negb (wi_disks_active inst) then st
      else if bool_decide (wi_name inst ∈ started) then st
      else (SubmitOpCode (InstanceActivateDisks (wi_name inst)) st).2
  end.

Definition CheckDisks (nodes : dict wnode) (instances : dict winstance) (started : list str) (st : wrun) : wrun :=
  let changed := check_nodes (notepad st) nodes in
  let st := foldl (λ st n, foldl (activate_disks instances started) st (wn_secondaries n)) st changed in
  foldl (λ st n, on_notepad (SetNodeBootID (wn_name n) (default [] (wn_bootid n))) st) st changed.

(** The checks of [_GroupWatcher], from the state file to the one that is saved *)
Definition GroupWatcher (nodes : dict wnode) (instances : dict winstance) (locks : list str) (statefile : option wdata)
    : wdata * list wop :=
  let '(st, started) := CheckInstances instances locks (WState (WatcherState statefile) 0 []) in
  let st := CheckDisks nodes instances started st in
  (notepad st, submitted st).
End checks.

(** ** Offline disks *)

(** The instances whose disks [_VerifyDisks] activates, given those that the job
    reported; an unknown node raises [KeyError]. *)
Definition CheckForOfflineNodes (nodes : dict wnode) (inst : winstance) : exc bool :=
  (fix any (l : list str) : exc bool :=
     match l with
     | [] => Ok false
     | n :: l => match dget n nodes with
                 | None => Raise (PyExn KeyError "")
                 | Some node => if wn_offline node then Ok true else any l
                 end
     end) (wi_snodes inst).

Fixpoint VerifyDisks_job (nodes : dict wnode) (instances : dict winstance) (offline_disk_instances : list str)
    : exc (list wop) :=
  match offline_disk_instances with
  | [] => Ok []
  | name :: names =>
      match dget name instances with
      | None => VerifyDisks_job nodes instances names
      | Some inst =>
          rbind (if bool_decide (wi_status inst ∈ HELPLESS_STATES) then Ok true else CheckForOfflineNodes nodes inst)
            (λ skip, if skip then VerifyDisks_job nodes instances names
                     else rmap (cons (InstanceActivateDisks name)) (VerifyDisks_job nodes instances names))
      end
  end.

(** ** Runs one after the other *)

(** What a run finds: the state of the group, the times it reads and the outcome of its opcodes *)
Record round := Round {
  r_nodes : dict wnode;
  r_instances : dict winstance;
  r_locks : list str;
  r_clock : nat → Q;
  r_fails : list wop → wop → bool
}.

Fixpoint watch (rounds : list round) (statefile : option wdata) : option wdata * list wop :=
  match rounds with
  | [] => (statefile, [])
  | r :: rounds =>
      let '(d, ops) := GroupWatcher (r_clock r) (r_fails r) (r_nodes r) (r_instances r) (r_locks r) statefile in
      let '(d, ops') := watch rounds (Some d) in
      (d, ops ++ ops')
  end.
