(* ===== verification/WatcherProps.v ===== *)
(** * The watcher does not try for ever

    An instance that stays down is restarted at most five times in eight hours, and
    disks are activated for the nodes that rebooted, once. *)

From Stdlib Require Import QArith Lqa.
From S2P Require Import Prelude Errors PySort PyStr PyDict Params Watcher.
#[local] Open Scope list_scope.
#[local] Open Scope stdpp_scope.
#[local] Open Scope nat_scope.

(** ** Restarts *)

Definition is_startup (i : str) (op : wop) : bool :=
  match op with InstanceStartup n => bool_decide (n = i) | _ => false end.
(** How often an instance was restarted *)
Definition restarts (i : str) (ops : list wop) : nat := length (List.filter (is_startup i) ops).

Lemma restarts_app i ops ops' : restarts i (ops ++ ops') = restarts i ops + restarts i ops'.
Proof. unfold restarts. by rewrite List.filter_app, length_app. Qed.

(** How often an instance may still be restarted in the eight hours from [T] on *)
Definition budget (T : Q) (d : wdata) (i : str) : nat :=
  match dget i (w_instance d) with
  | Some r => if Qle_bool T (default 0%Q (restart_when r)) then MAXTRIES - default 0 (restart_count r) else MAXTRIES
  | None => MAXTRIES
  end.

Lemma budget_max T d i : budget T d i ≤ MAXTRIES.
Proof. unfold budget. repeat case_match; lia. Qed.

Lemma budget_attempts T d i : MAXTRIES - NumberOfRestartAttempts d i ≤ budget T d i.
Proof.
  unfold budget, NumberOfRestartAttempts. destruct (dget i (w_instance d)) as [r|]; [|apply Nat.le_sub_l].
  case_match; [done|apply Nat.le_sub_l].
Qed.

Lemma dget_filter (P : str * irec → bool) d k :
  dict_ok d → dget k (List.filter P d) = match dget k d with Some v => if P (k, v) then Some v else None | None => None end.
Proof.
  unfold dict_ok, dkeys. induction d as [|[k' v] d IH]; csimpl; [done|]. intros [Hk Hd]%NoDup_cons. fold (dkeys d) in Hk.
  destruct (P (k', v)) eqn:E; cbn [dget]; (case_decide as Ek; [subst k'; rewrite ?E; try done|by apply IH]).
  rewrite IH by done. by rewrite (proj2 (dget_None k d) Hk).
Qed.

(** The window: all times that a run reads are in the eight hours from [T] on. *)
Definition in_window (T : Q) (clock : nat → Q) : Prop := ∀ n, (T <= clock n <= T + RETRY_EXPIRATION)%Q.

Lemma dict_ok_filter (P : str * irec → bool) d : dict_ok d → dict_ok (List.filter P d).
Proof.
  unfold dict_ok, dkeys. induction d as [|kv d IH]; csimpl; [done|]. intros [Hk Hd]%NoDup_cons.
  destruct (P kv); [|by apply IH]. csimpl. apply NoDup_cons. split; [|by apply IH].
  intros (kv' & Heq & Hin)%list_elem_of_fmap. apply Hk. apply list_elem_of_fmap. exists kv'. split; [done|].
  apply list_elem_of_In, filter_In in Hin as [Hin _]. by apply list_elem_of_In.
Qed.

Lemma MaintainInstanceList_budget T names now d i :
  dict_ok (w_instance d) → i ∈ names → (now <= T + RETRY_EXPIRATION)%Q →
  budget T (MaintainInstanceList names now d) i = budget T d i ∧ dict_ok (w_instance (MaintainInstanceList names now d)).
Proof.
  intros Hd Hi Hnow. unfold MaintainInstanceList, budget. cbn [w_instance]. split; [|by do 2 apply dict_ok_filter].
  rewrite !dget_filter by (try apply dict_ok_filter; done). destruct (dget i (w_instance d)) as [r|]; [|done]. cbn [fst snd].
  rewrite bool_decide_true by done. cbn [fst snd]. set (w := default 0%Q (restart_when r)).
  unfold Qltb. rewrite negb_involutive. destruct (Qle_bool (now - RETRY_EXPIRATION) w) eqn:E; [done|].
  destruct (Qle_bool T w) eqn:E'; [|done]. apply Qle_bool_iff in E'. apply not_true_iff_false in E. destruct E.
  apply Qle_bool_iff. unfold RETRY_EXPIRATION in *. lra.
Qed.

(** What one instance does to the record of another: nothing *)
Lemma CheckInstance_other clock fails locks st started inst i :
  wi_name inst ≠ i →
  let st' := (CheckInstance clock fails locks (st, started) inst).1 in
  dget i (w_instance (notepad st')) = dget i (w_instance (notepad st)) ∧ restarts i (submitted st') = restarts i (submitted st).
Proof.
  intros Hne. unfold CheckInstance, CleanupInstance, SubmitOpCode. cbv zeta.
  assert (∀ ops, restarts i (ops ++ [InstanceStartup (wi_name inst)]) = restarts i ops) as Hstart.
  { intros ops. rewrite restarts_app. unfold restarts at 2. simpl. rewrite bool_decide_false by done. simpl. lia. }
  assert (∀ ops, restarts i (ops ++ [InstanceShutdown (wi_name inst)]) = restarts i ops) as Hstop.
  { intros ops. rewrite restarts_app. unfold restarts at 2. simpl. lia. }
  repeat (case_match; simplify_eq/=); rewrite ?dget_dset_ne, ?dget_ddel_ne, ?Hstart, ?Hstop by done; done.
Qed.

(** An instance that is down *)
Definition is_down (inst : winstance) : Prop := NeedsCleanup inst = false ∧ wi_status inst ∈ BAD_STATES.

Lemma CheckInstance_down T clock fails locks st started inst :
  is_down inst → in_window T clock →
  let i := wi_name inst in
  let st' := (CheckInstance clock fails locks (st, started) inst).1 in
  restarts i (submitted st') + budget T (notepad st') i ≤ restarts i (submitted st) + budget T (notepad st) i.
Proof.
  intros [Hc Hbad] Hw. cbv zeta. unfold CheckInstance. rewrite Hc, bool_decide_true by done.
  pose proof (budget_attempts T (notepad st) (wi_name inst)) as Hb.
  set (n := NumberOfRestartAttempts (notepad st) (wi_name inst)) in *.
  assert (∀ ops, budget T (notepad (timed clock (RecordRestartAttempt (wi_name inst)) (WState (notepad st) (ticks st) ops)))
                   (wi_name inst) = MAXTRIES - (1 + n)) as Hrec.
  { intros ops. unfold budget, timed, RecordRestartAttempt, RecordAttempt. cbn [notepad w_instance ticks].
    rewrite dget_dset_eq. cbn [restart_when restart_count default from_option]. unfold id.
    rewrite (proj2 (Qle_bool_iff _ _) (proj1 (Hw (ticks st)))). done. }
  destruct (MAXTRIES <? n) eqn:E1; [done|]. destruct (n =? MAXTRIES) eqn:E2.
  - specialize (Hrec (submitted st)). destruct st as [d t ops]. cbn [fst notepad ticks submitted] in *. rewrite Hrec.
    apply Nat.eqb_eq in E2. cbn [fst timed submitted]. unfold MAXTRIES in *. lia.
  - unfold SubmitOpCode. cbn [fst]. rewrite Hrec. cbn [timed submitted]. rewrite restarts_app. unfold restarts at 2. simpl.
    rewrite bool_decide_true by done. simpl. apply Nat.ltb_ge in E1. apply Nat.eqb_neq in E2. unfold MAXTRIES in *. lia.
Qed.

(** The sum of restarts and budget does not grow. *)
Lemma CheckInstances_budget T clock fails instances locks st i :
  in_window T clock → dict_ok (w_instance (notepad st)) → i ∈ dkeys instances →
  (∀ inst, inst ∈ dvalues instances → wi_name inst = i → is_down inst) →
  let st' := (CheckInstances clock fails instances locks st).1 in
  restarts i (submitted st') + budget T (notepad st') i ≤ restarts i (submitted st) + budget T (notepad st) i.
Proof.
  intros Hw Hok Hi Hdown. cbv zeta. unfold CheckInstances.
  destruct (MaintainInstanceList_budget T (dkeys instances) (clock (ticks st)) (notepad st) i Hok Hi) as [Hb _];
    [apply Hw|].
  set (st0 := timed clock _ st). assert (restarts i (submitted st0) + budget T (notepad st0) i =
    restarts i (submitted st) + budget T (notepad st) i) as <- by (unfold st0; simpl; by rewrite Hb).
  clearbody st0. generalize ([] : list str). revert st0 Hdown. clear Hb Hi. induction (dvalues instances) as [|inst l IH];
    intros st0 Hdown started; cbn [foldl]; [done|].
  destruct (CheckInstance clock fails locks (st0, started) inst) as [st1 started1] eqn:E.
  etrans; [apply IH; intros; apply Hdown; [by right|done]|]. destruct (decide (wi_name inst = i)) as [<-|Hne].
  - pose proof (CheckInstance_down T clock fails locks st0 started inst) as Hs. rewrite E in Hs. apply Hs; [|done].
    apply Hdown; [by left|done].
  - pose proof (CheckInstance_other clock fails locks st0 started inst i Hne) as Hs. rewrite E in Hs. simpl in Hs.
    destruct Hs as [Hg Hr]. unfold budget. by rewrite Hg, Hr.
Qed.

Lemma CheckInstance_ok clock fails locks st started inst :
  dict_ok (w_instance (notepad st)) → dict_ok (w_instance (notepad (CheckInstance clock fails locks (st, started) inst).1)).
Proof.
  intros Hok. unfold CheckInstance, CleanupInstance, SubmitOpCode.
  repeat (case_match; simplify_eq/=); try done; (apply dict_ok_dset || apply dict_ok_ddel); done.
Qed.

Lemma CheckInstances_ok clock fails instances locks st :
  dict_ok (w_instance (notepad st)) → dict_ok (w_instance (notepad (CheckInstances clock fails instances locks st).1)).
Proof.
  intros Hok. unfold CheckInstances. set (st0 := timed clock _ st).
  assert (dict_ok (w_instance (notepad st0))) as Hok0 by (unfold st0; simpl; by do 2 apply dict_ok_filter).
  clearbody st0. generalize ([] : list str). revert st0 Hok0.
  induction (dvalues instances) as [|inst l IH]; intros st0 Hok0 started; cbn [foldl]; [done|].
  pose proof (CheckInstance_ok clock fails locks st0 started inst Hok0) as Hok1.
  destruct (CheckInstance clock fails locks (st0, started) inst) as [st1 started1]. by apply IH.
Qed.

(** ** Disks *)

(** The opcode for one instance that has its secondary on a rebooted node *)
Definition activation (instances : dict winstance) (started : list str) (y : str) : list wop :=
  match dget y instances with
  | Some inst => if wi_disks_active inst && negb (bool_decide (wi_name inst ∈ started))
                 then [InstanceActivateDisks (wi_name inst)] else []
  | None => []
  end.

Lemma activate_disks_run fails instances started st l :
  foldl (activate_disks fails instances started) st l =
  WState (notepad st) (ticks st) (submitted st ++ flat_map (activation instances started) l).
Proof.
  revert st. induction l as [|y l IH]; intros st; cbn [foldl flat_map]; [destruct st; by rewrite app_nil_r|].
  rewrite IH. unfold activate_disks, activation. destruct (dget y instances) as [inst|]; [|done].
  destruct (wi_disks_active inst); [|done]. destruct (bool_decide _); [done|]. simpl. by rewrite <-app_assoc.
Qed.

Lemma activate_nodes_run fails instances started st ns :
  foldl (λ st n, foldl (activate_disks fails instances started) st (wn_secondaries n)) st ns =
  WState (notepad st) (ticks st) (submitted st ++ flat_map (λ n, flat_map (activation instances started) (wn_secondaries n)) ns).
Proof.
  revert st. induction ns as [|n ns IH]; intros st; cbn [foldl flat_map]; [destruct st; by rewrite app_nil_r|].
  rewrite IH, activate_disks_run. cbn [notepad ticks submitted]. by rewrite <-app_assoc.
Qed.

Lemma keep_bootids_run st ns :
  foldl (λ st n, on_notepad (SetNodeBootID (wn_name n) (default [] (wn_bootid n))) st) st ns =
  WState (WatcherData (w_instance (notepad st))
            (foldl (λ d n, dset (wn_name n) (Some (default [] (wn_bootid n))) d) (w_node (notepad st)) ns))
    (ticks st) (submitted st).
Proof.
  revert st. induction ns as [|n ns IH]; intros st; cbn [foldl]; [by destruct st as [[] ? ?]|]. by rewrite IH.
Qed.

Lemma CheckDisks_run fails nodes instances started st :
  CheckDisks fails nodes instances started st =
  let changed := check_nodes (notepad st) nodes in
  WState (WatcherData (w_instance (notepad st))
            (foldl (λ d n, dset (wn_name n) (Some (default [] (wn_bootid n))) d) (w_node (notepad st)) changed))
    (ticks st) (submitted st ++ flat_map (λ n, flat_map (activation instances started) (wn_secondaries n)) changed).
Proof. unfold CheckDisks. by rewrite activate_nodes_run, keep_bootids_run. Qed.

Lemma activations_elem instances started ns op :
  op ∈ flat_map (λ n, flat_map (activation instances started) (wn_secondaries n)) ns ↔
  ∃ n y inst, n ∈ ns ∧ y ∈ wn_secondaries n ∧ dget y instances = Some inst ∧ wi_disks_active inst = true ∧
    wi_name inst ∉ started ∧ op = InstanceActivateDisks (wi_name inst).
Proof.
  rewrite list_elem_of_In, in_flat_map. setoid_rewrite in_flat_map. setoid_rewrite <-list_elem_of_In. unfold activation. split.
  - intros (n & Hn & y & Hy & Hop). destruct (dget y instances) as [inst|] eqn:E; [|by apply elem_of_nil in Hop].
    destruct (wi_disks_active inst) eqn:Ea; [|by apply elem_of_nil in Hop].
    case_bool_decide; [by apply elem_of_nil in Hop|]. apply list_elem_of_singleton in Hop. exists n, y, inst. done.
  - intros (n & y & inst & Hn & Hy & E & Ea & Hs & ->). exists n. split; [done|]. exists y. split; [done|].
    rewrite E, Ea, bool_decide_false by done. by left.
Qed.

Lemma restarts_none i ops : (∀ op, op ∈ ops → is_startup i op = false) → restarts i ops = 0.
Proof.
  unfold restarts. induction ops as [|op ops IH]; intros Hops; [done|]. simpl. rewrite (Hops op) by by left.
  apply IH. intros op' Hop'. apply Hops. by right.
Qed.

Lemma GroupWatcher_budget T clock fails nodes instances locks d i :
  in_window T clock → dict_ok (w_instance d) → i ∈ dkeys instances →
  (∀ inst, inst ∈ dvalues instances → wi_name inst = i → is_down inst) →
  let '(d', ops) := GroupWatcher clock fails nodes instances locks (Some d) in
  dict_ok (w_instance d') ∧ restarts i ops + budget T d' i ≤ budget T d i.
Proof.
  intros Hw Hok Hi Hdown. unfold GroupWatcher. cbn [WatcherState default from_option]. unfold id.
  pose proof (CheckInstances_budget T clock fails instances locks (WState d 0 []) i Hw Hok Hi Hdown) as Hb.
  pose proof (CheckInstances_ok clock fails instances locks (WState d 0 []) Hok) as Hok'.
  destruct (CheckInstances clock fails instances locks (WState d 0 [])) as [st started]. cbn [fst] in *.
  rewrite CheckDisks_run. cbv zeta. cbn [notepad submitted w_instance]. split; [done|].
  rewrite restarts_app, (restarts_none i (flat_map _ _)).
  - unfold budget in *. cbn [w_instance] in *. simpl in Hb. lia.
  - intros op Hop. apply activations_elem in Hop as (n & y & inst & _ & _ & _ & _ & _ & ->). done.
Qed.

(** In a run the instance is known and down. *)
Definition finds_down (i : str) (r : round) : Prop :=
  i ∈ dkeys (r_instances r) ∧ ∀ inst, inst ∈ dvalues (r_instances r) → wi_name inst = i → is_down inst.

(** C25: The watcher does not try for ever.  However often it runs within eight hours, and
    whatever the state file held before, it restarts an instance that it finds down
    every time at most five times, whether the restarts succeed or fail. *)
Theorem restarts_bounded T rounds d i :
  dict_ok (w_instance d) → Forall (λ r, in_window T (r_clock r) ∧ finds_down i r) rounds →
  restarts i (watch rounds (Some d)).2 ≤ MAXTRIES.
Proof.
  intros Hok Hr. etrans; [|apply (budget_max T d i)]. revert d Hok.
  induction Hr as [|r rounds [Hw [Hi Hd]] _ IH]; intros d Hok; cbn [watch]; [apply Nat.le_0_l|].
  pose proof (GroupWatcher_budget T (r_clock r) (r_fails r) (r_nodes r) (r_instances r) (r_locks r) d i Hw Hok Hi Hd) as Hb.
  destruct (GroupWatcher _ _ _ _ _ _) as [d1 ops]. destruct Hb as [Hok1 Hb]. specialize (IH d1 Hok1).
  destruct (watch rounds (Some d1)) as [d2 ops']. cbn [snd] in *. rewrite restarts_app. lia.
Qed.

Lemma NoDup_fmap_filter {A B} (f : A → B) (P : A → bool) l : NoDup (f <$> l) → NoDup (f <$> List.filter P l).
Proof.
  induction l as [|a l IH]; csimpl; [done|]. intros [Ha Hl]%NoDup_cons. destruct (P a); [|by apply IH].
  csimpl. apply NoDup_cons. split; [|by apply IH]. intros (x & Hx & Hin)%list_elem_of_fmap. apply Ha.
  apply list_elem_of_fmap. exists x. split; [done|]. apply list_elem_of_In, filter_In in Hin as [Hin _]. by apply list_elem_of_In.
Qed.

Lemma NoDup_fmap_elem {A B} (f : A → B) l x y : NoDup (f <$> l) → x ∈ l → y ∈ l → f x = f y → x = y.
Proof.
  intros Hnd (i & Hi)%list_elem_of_lookup (j & Hj)%list_elem_of_lookup Hf.
  assert (i = j) as ->; [|congruence].
  eapply NoDup_lookup; [exact Hnd|..]; rewrite list_lookup_fmap; [by rewrite Hi|rewrite Hj; simpl; congruence].
Qed.

(** The boot identifier of a node has changed. *)
Definition rebooted (d : wdata) (n : wnode) : Prop :=
  ∃ b, wn_bootid n = Some b ∧ b ≠ [] ∧ GetNodeBootID d (wn_name n) ≠ Some b.

Lemma check_nodes_elem d nodes n : n ∈ check_nodes d nodes ↔ n ∈ dvalues nodes ∧ rebooted d n.
Proof.
  unfold check_nodes, rebooted. rewrite list_elem_of_In, filter_In, <-list_elem_of_In.
  destruct (wn_bootid n) as [[|a b]|]; [naive_solver|..|naive_solver]. rewrite negb_true_iff, bool_decide_eq_false. naive_solver.
Qed.

Lemma dget_bootids ns (d : dict (option str)) name :
  NoDup (wn_name <$> ns) →
  dget name (foldl (λ d n, dset (wn_name n) (Some (default [] (wn_bootid n))) d) d ns) =
  match List.find (λ n, bool_decide (wn_name n = name)) ns with
  | Some n => Some (Some (default [] (wn_bootid n)))
  | None => dget name d
  end.
Proof.
  revert d. induction ns as [|n ns IH]; intros d; cbn [foldl List.find]; [done|]. csimpl. intros [Hn Hnd]%NoDup_cons.
  rewrite IH by done. case_bool_decide as E.
  - destruct (List.find _ ns) as [n'|] eqn:Ef; [|subst; by rewrite dget_dset_eq].
    apply find_some in Ef as [Hin E']. apply bool_decide_eq_true in E'. destruct Hn. apply list_elem_of_fmap.
    exists n'. split; [congruence|]. by apply list_elem_of_In.
  - destruct (List.find _ ns); [done|]. by rewrite dget_dset_ne by congruence.
Qed.

(** C39: After a reboot of a node the watcher activates the disks of exactly the instances
    that have it as a secondary node, are known, have active disks and were not
    just started; the boot identifiers are kept, so that the next run finds no node
    rebooted unless it did so again, and the records of instances are not touched. *)
Theorem CheckDisks_correct fails nodes instances started st :
  NoDup (wn_name <$> dvalues nodes) →
  let st' := CheckDisks fails nodes instances started st in
  (∃ ops, submitted st' = submitted st ++ ops ∧
     ∀ op, op ∈ ops ↔ ∃ n y inst, n ∈ dvalues nodes ∧ rebooted (notepad st) n ∧ y ∈ wn_secondaries n ∧
       dget y instances = Some inst ∧ wi_disks_active inst = true ∧ wi_name inst ∉ started ∧
       op = InstanceActivateDisks (wi_name inst)) ∧
  w_instance (notepad st') = w_instance (notepad st) ∧
  (∀ n, n ∈ dvalues nodes → ¬ rebooted (notepad st') n).
Proof.
  intros Hnd. cbv zeta. rewrite CheckDisks_run. cbv zeta. cbn [submitted notepad w_instance]. split_and!; [|done|].
  - eexists. split; [done|]. intros op. rewrite activations_elem. setoid_rewrite check_nodes_elem. naive_solver.
  - intros n Hn (b & Hb & Hne & Hget). apply Hget. unfold GetNodeBootID. cbn [w_node]. rewrite dget_bootids.
    2: { by apply NoDup_fmap_filter. }
    destruct (List.find _ _) as [n'|] eqn:Ef.
    + apply find_some in Ef as [Hin%list_elem_of_In E%bool_decide_eq_true]. apply check_nodes_elem in Hin as [Hin _].
      assert (n' = n) as ->; [|by rewrite Hb]. by eapply (NoDup_fmap_elem wn_name).
    + change (GetNodeBootID (notepad st) (wn_name n) = Some b). destruct (decide (GetNodeBootID (notepad st) (wn_name n) = Some b)); [done|].
      assert (n ∈ check_nodes (notepad st) nodes) as Hin by (apply check_nodes_elem; split; [done|]; by exists b).
      apply list_elem_of_In in Hin. pose proof (find_none _ _ Ef _ Hin) as Hf. cbn in Hf. by rewrite bool_decide_true in Hf.
Qed.

(** The data of a group is stored under the names. *)
Lemma mk_dict_Forall {V} (P : str * V → Prop) kvs : Forall P kvs → Forall P (mk_dict kvs).
Proof.
  unfold mk_dict, dupdate. assert (Forall P ([] : dict V)) as Hd by constructor. revert Hd. generalize ([] : dict V).
  induction kvs as [|[k v] kvs IH]; intros d Hd Hkvs; cbn [foldl]; [done|]. apply Forall_cons in Hkvs as [Hkv Hkvs].
  apply IH; [|done]. clear IH Hkvs. induction Hd as [|[k' v'] d Hk Hd IH]; simpl; [by repeat constructor|].
  case_decide; constructor; try done. by subst.
Qed.

Lemma GetGroupData_names raw_instances raw_nodes :
  let '(nodes, instances) := GetGroupData raw_instances raw_nodes in
  NoDup (wn_name <$> dvalues nodes) ∧ dict_ok instances ∧ Forall (λ kv, wi_name kv.2 = kv.1) instances.
Proof.
  unfold GetGroupData. split_and!; [|apply dict_ok_mk|].
  - set (kvs := (λ '(name, bootid, offline), (name, _)) <$> raw_nodes).
    assert (wn_name <$> dvalues (mk_dict kvs) = dkeys (mk_dict kvs)) as ->; [|apply dict_ok_mk].
    assert (Forall (λ kv : str * wnode, wn_name kv.2 = kv.1) (mk_dict kvs)) as Hall.
    { apply mk_dict_Forall, Forall_fmap, Forall_true. by intros [[name b] o]. }
    unfold dvalues, dkeys. induction Hall as [|kv l Hkv _ IH]; csimpl; [done|]. by rewrite Hkv, IH.
  - by apply mk_dict_Forall, Forall_fmap, Forall_true.
Qed.

(** ** Examples *)

Module WatcherDemo.

Definition web (status : instance_status) : winstance := WInstance (lit "web") status ADMINST_UP true [lit "n2"].
Definition n2 (bootid : string) : wnode := WNode (lit "n2") (Some (lit bootid)) false [lit "web"].
(** A run at a time, where every opcode fails or none does *)
Definition run (now : Q) (status : instance_status) (bootid : string) (failing : bool) : round :=
  Round [(lit "n2", n2 bootid)] [(lit "web", web status)] [] (λ _, now) (λ _ _, failing).

Definition nine : list round := (λ n, run (1700000000 + inject_Z (Z.of_nat n) * 300) INSTST_ERRORDOWN "b1" true) <$> seq 0 9.

Lemma restarts_bounded_witness : restarts (lit "web") (watch nine (Some (WatcherData [] []))).2 ≤ MAXTRIES.
Proof.
  apply (restarts_bounded 1700000000 nine (WatcherData [] []) (lit "web")).
  - constructor.
  - repeat (constructor; [split; [intros n; vm_compute; split; discriminate|]|]); [..|constructor];
      (split; [by left|]; intros inst ->%list_elem_of_singleton _; split; [done|by left]).
Defined.

Lemma CheckDisks_correct_witness :
  ¬ rebooted (notepad (CheckDisks (λ _ _, false) [(lit "n2", n2 "b1")] [(lit "web", web INSTST_RUNNING)] []
                         (WState (WatcherData [] []) 0 []))) (n2 "b1").
Proof.
  apply (CheckDisks_correct (λ _ _, false) [(lit "n2", n2 "b1")] [(lit "web", web INSTST_RUNNING)] []).
  - repeat constructor. by intros ?%elem_of_nil.
  - by left.
Defined.

(** Nine runs restart the instance five times; disks are activated when the boot
    identifier is new. *)
Lemma watcher_runs :
  (watch nine None).2 =
    [InstanceStartup (lit "web"); InstanceActivateDisks (lit "web"); InstanceStartup (lit "web"); InstanceStartup (lit "web");
     InstanceStartup (lit "web"); InstanceStartup (lit "web")].
Proof. vm_compute. reflexivity. Qed.

(** The attempts to clean an instance up are not bounded: at the start of each run the
    record of the attempts is taken for expired, because it has no time of a restart. *)
Definition user_down : round := run 1700000000 INSTST_USERDOWN "b1" true.
Definition cleanup_record : wdata :=
  WatcherData [(lit "web", InstanceRecord (Some 1) (Some 1700000000%Q) None None)] [(lit "n2", Some (lit "b1"))].

Lemma cleanup_forgotten :
  watch [user_down] (Some cleanup_record) = (Some cleanup_record, [InstanceShutdown (lit "web")]).
Proof. vm_compute. reflexivity. Qed.

Lemma cleanups_unbounded n :
  watch (replicate n user_down) (Some cleanup_record) = (Some cleanup_record, replicate n (InstanceShutdown (lit "web"))).
Proof.
  induction n as [|n IH]; [done|]. pose proof cleanup_forgotten as Hone. cbn [replicate watch] in *.
  destruct (GroupWatcher _ _ _ _ _ _) as [d ops]. injection Hone as -> Hops. rewrite app_nil_r in Hops. subst. by rewrite IH.
Qed.
End WatcherDemo.
