(* ===== verification/DiskActivation.v ===== *)
(** * Activating the disks of an instance (src/lib/cmdlib/instance_storage.py)

    The block devices of an instance are assembled on all its nodes in secondary mode,
    the DRBD handshake is awaited, and only then is the primary node promoted.  The
    calls are recorded; what the nodes answer, and whether the configuration can be
    marked, is decided by arguments that know the calls so far. *)

From S2P Require Import Prelude Errors PySort PyStr PyVal Json Text PyDict Params Disk Config BlockDev Storage.
#[local] Open Scope list_scope.
#[local] Open Scope stdpp_scope.
#[local] Open Scope py_scope.

(** Marks in the configuration, and calls to nodes *)
Inductive call :=
| MarkActive
| MarkInactive
| BlockdevAssemble (node : str) (d : disk) (as_primary : bool) (idx : nat)
| DrbdWaitSync (nodes : list str) (disks : list disk)
| BlockdevShutdown (node : str) (d : disk).

(** [RpcResult]: an empty [fail_msg] means success. *)
Record rpc_result := RpcResult { fail_msg : str; offline : bool; payload : obj }.

(** The answers: to a call to one node, to [DrbdWaitSync] by the nodes it is sent
    to, and of the configuration daemon, which returns the instance as it is after the
    mark *)
Record answers := Answers {
  answer : list call → call → rpc_result;
  answer_wait : list call → list str → str → rpc_result;
  answer_mark : list call → call → exc instance
}.

(** [(x, y, z) = v] *)
Definition unpack3 (v : obj) : exc (obj * obj * obj) :=
  let* l := py_iter v in
  match l with [x; y; z] => Ok (x, y, z) | _ => Raise Value_error end.

Section activation.
  Context (cfg : config_data) (DISK_LD_DEFAULTS : dict pdict) (env : answers).

#[local] Notation run := (eff exn (list call)).

Definition lift {A} (r : exc A) : run A := eff_lift r id.

Definition mark (c : call) : run instance := λ tr, (answer_mark env tr c, tr ++ [c]).

(** [lu.rpc.call_blockdev_..]: the disk is encoded for the node first. *)
Definition rpc_to (node : str) (d : disk) (inst : instance) (c : call) : run rpc_result :=
  lift (SingleDiskDictDP cfg DISK_LD_DEFAULTS node d inst) ;;
  ((λ tr, (Ok (answer env tr c), tr ++ [c])) : run rpc_result).

Definition call_drbd_wait_sync (nodes : list str) (disks : list disk) (inst : instance) : run (list (str * rpc_result)) :=
  lift (rmapM (λ node, rmapM (λ d, SingleDiskDictDP cfg DISK_LD_DEFAULTS node d inst) disks) nodes) ;;
  ((λ tr, (Ok ((λ n, (n, answer_wait env tr nodes n)) <$> nodes), tr ++ [DrbdWaitSync nodes disks]))
   : run (list (str * rpc_result))).

(** [ExpandCheckDisks] *)
Definition ExpandCheckDisks (instance_disks : list disk) (disks : option (list disk)) : exc (list disk) :=
  match disks with
  | None => Ok instance_disks
  | Some disks =>
      if forallb (λ d, bool_decide (d_uuid d ∈ (d_uuid <$> instance_disks))) disks then Ok disks
      else Raise (GntExn ProgrammerError [])
  end.

(** [cfg.GetInstanceDisks], whose disks have to exist to be used *)
Definition instance_disks (inst : instance) : exc (list disk) :=
  let* disks := GetInstanceDisks cfg (default [] (i_uuid inst)) in rmapM (attr id) disks.

(** [(idx, node_uuid, node_disk)] of the loops over [enumerate(disks)] and the node
    tree of each disk *)
Definition node_disk (ignore_size : bool) (d : disk) : disk := if ignore_size then UnsetSize d else d.

(** ** First pass *)

(** Whether a failure on a node is one that does not matter *)
Definition tolerated (inst : instance) (ignore_secondaries : bool) (node : str) (r : rpc_result) : exc bool :=
  let* secondary_nodes := GetInstanceSecondaryNodes cfg (default [] (i_uuid inst)) in
  do* GetNodeName cfg node in
  Ok (ignore_secondaries || bool_decide (node ∈ secondary_nodes) && offline r).

Fixpoint assemble_tree (inst : instance) (ignore_secondaries ignore_size : bool) (idx : nat) (tree : list (str * disk))
    (disks_ok : bool) : run bool :=
  match tree with
  | [] => mret disks_ok
  | (node, d) :: tree =>
      r ← rpc_to node (node_disk ignore_size d) inst (BlockdevAssemble node (node_disk ignore_size d) false idx);
      ok ← (match fail_msg r with
            | [] => mret disks_ok
            | _ => t ← lift (tolerated inst ignore_secondaries node r); mret (disks_ok && t)
            end : run bool);
      assemble_tree inst ignore_secondaries ignore_size idx tree ok
  end.

Fixpoint first_pass (inst : instance) (ignore_secondaries ignore_size : bool) (idx : nat) (disks : list disk)
    (disks_ok : bool) : run bool :=
  match disks with
  | [] => mret disks_ok
  | d :: disks =>
      tree ← lift (ComputeNodeTree d (i_primary_node inst));
      ok ← assemble_tree inst ignore_secondaries ignore_size idx tree disks_ok;
      first_pass inst ignore_secondaries ignore_size (1 + idx) disks ok
  end.

(** ** Handshake *)

(** The message on the progress of a secondary needs a number, if there is one. *)
Definition check_percent (v : obj) : exc unit :=
  let* '(_, node_percent) := unpack2 v in
  match node_percent with ONone => Ok tt | _ => do* py_order OpLt node_percent (OInt 100) in Ok tt end.

(** The secondaries that failed, other than by being offline *)
Definition fatal_failures (ignore_secondaries : bool) (wait_result : list (str * rpc_result)) : exc (list str) :=
  rmap (omap id)
    (rmapM (λ '(node, r),
       let* name := GetNodeName cfg node in
       match fail_msg r with
       | [] => do* check_percent (payload r) in Ok None
       | _ => Ok (if offline r then None else if ignore_secondaries then None else Some name)
       end) wait_result).

Definition wait_handshake (inst : instance) (ignore_secondaries : bool) (disks : list disk) : run unit :=
  if existsb (λ d, bool_decide (d_dev_type d = DT_DRBD8)) disks then
    secondary_nodes ← lift (GetInstanceSecondaryNodes cfg (default [] (i_uuid inst)));
    match secondary_nodes with
    | [] => mret tt
    | _ =>
        wait_result ← call_drbd_wait_sync secondary_nodes disks inst;
        fatal ← lift (fatal_failures ignore_secondaries wait_result);
        match fatal with
        | [] => mret tt
        | _ => mark MarkInactive ;; fails OpExec_error
        end
    end
  else mret tt.

(** ** Second pass *)

Fixpoint promote_tree (inst : instance) (ignore_size : bool) (idx : nat) (tree : list (str * disk))
    (p : bool * obj * list obj) : run (bool * obj * list obj) :=
  match tree with
  | [] => mret p
  | (node, d) :: tree =>
      if bool_decide (node = i_primary_node inst) then
        r ← rpc_to node (node_disk ignore_size d) inst (BlockdevAssemble node (node_disk ignore_size d) true idx);
        let '(disks_ok, dev_path, payloads) := p in
        p ← (match fail_msg r with
             | [] => u ← lift (unpack3 (payload r)); mret (disks_ok, u.1.1, payloads ++ [payload r])
             | _ => lift (GetNodeName cfg node) ;; mret (false, dev_path, payloads ++ [payload r])
             end : run (bool * obj * list obj));
        promote_tree inst ignore_size idx tree p
      else promote_tree inst ignore_size idx tree p
  end.

(** Name of the primary node, name of the disk for the instance, and path *)
Definition dev_info := (str * option str * obj)%type.

Fixpoint second_pass (inst : instance) (ignore_size : bool) (idx : nat) (disks : list disk) (disks_ok : bool)
    (device_info : list dev_info) (payloads : list obj) : run (bool * list dev_info * list obj) :=
  match disks with
  | [] => mret (disks_ok, device_info, payloads)
  | d :: disks =>
      tree ← lift (ComputeNodeTree d (i_primary_node inst));
      q ← promote_tree inst ignore_size idx tree (disks_ok, ONone, payloads);
      name ← lift (GetNodeName cfg (i_primary_node inst));
      second_pass inst ignore_size (1 + idx) disks q.1.1 (device_info ++ [(name, d_iv_name d, q.1.2)]) q.2
  end.

Definition mark_unless_ok (disks_ok : bool) : run unit := if disks_ok then mret tt else mark MarkInactive ;; mret tt.

Definition AssembleInstanceDisks (inst : instance) (disks : option (list disk)) (ignore_secondaries ignore_size : bool)
    : run (bool * list dev_info * list obj) :=
  inst ← (match disks with None => mark MarkActive | Some _ => mret inst end : run instance);
  inst_disks ← lift (instance_disks inst);
  disks ← lift (ExpandCheckDisks inst_disks disks);
  ok ← first_pass inst ignore_secondaries ignore_size 0 disks true;
  wait_handshake inst ignore_secondaries disks ;;
  p ← second_pass inst ignore_size 0 disks ok [] [];
  mark_unless_ok p.1.1 ;;
  mret p.

(** ** Shutting down *)

Fixpoint shutdown_tree (inst : instance) (ignore_primary : bool) (tree : list (str * disk)) (all_result : bool) : run bool :=
  match tree with
  | [] => mret all_result
  | (node, d) :: tree =>
      r ← rpc_to node d inst (BlockdevShutdown node d);
      ok ← (match fail_msg r with
            | [] => mret all_result
            | _ =>
                lift (GetNodeName cfg node) ;;
                mret (all_result &&
                      negb (bool_decide (node = i_primary_node inst) && negb ignore_primary
                            || negb (bool_decide (node = i_primary_node inst)) && negb (offline r)))
            end : run bool);
      shutdown_tree inst ignore_primary tree ok
  end.

Fixpoint shutdown_disks (inst : instance) (ignore_primary : bool) (disks : list disk) (all_result : bool) : run bool :=
  match disks with
  | [] => mret all_result
  | d :: disks =>
      tree ← lift (ComputeNodeTree d (i_primary_node inst));
      ok ← shutdown_tree inst ignore_primary tree all_result;
      shutdown_disks inst ignore_primary disks ok
  end.

Definition ShutdownInstanceDisks (inst : instance) (disks : option (list disk)) (ignore_primary : bool) : run bool :=
  (match disks with None => mark MarkInactive ;; mret tt | Some _ => mret tt end : run unit) ;;
  inst_disks ← lift (instance_disks inst);
  disks ← lift (ExpandCheckDisks inst_disks disks);
  shutdown_disks inst ignore_primary disks true.

Definition undo_unless_ok (inst : instance) (disks_ok : bool) : run unit :=
  if disks_ok then mret tt else ShutdownInstanceDisks inst None false ;; fails OpExec_error.

(** [force] may be [None], which counts as false. *)
Definition StartInstanceDisks (inst : instance) (force : option bool) : run unit :=
  p ← AssembleInstanceDisks inst None (default false force) false;
  undo_unless_ok inst p.1.1.
End activation.
