(* ===== verification/DiskActivationProps.v ===== *)
(** * The primary is promoted last

    When the disks of an instance are activated, no device is made primary before all
    nodes have assembled theirs and the secondaries have shaken hands, unless they
    are offline or the caller takes the risk. *)

From S2P Require Import Prelude Errors PySort PyStr PyVal Json Text PyDict Params Disk Config BlockDev Storage StorageProps DiskActivation.
#[local] Open Scope list_scope.
#[local] Open Scope stdpp_scope.
#[local] Open Scope py_scope.

Lemma eff_bind_inv {E S A B} (m : eff E S A) (k : A → eff E S B) s r s' :
  (m ≫= k) s = (r, s') →
  (∃ a s1, m s = (Ok a, s1) ∧ k a s1 = (r, s')) ∨ (∃ e, m s = (Raise e, s') ∧ r = Raise e).
Proof. unfold mbind, eff_bind. destruct (m s) as [[a|e] s1]; [by left; eauto|]. intros [= <- <-]. right. eauto. Qed.

Section safety.
  Context (cfg : config_data) (DISK_LD_DEFAULTS : dict pdict) (env : answers).
  Context (inst : instance) (ignore_secondaries ignore_size : bool).

#[local] Notation primary := (i_primary_node inst).
#[local] Notation lift := (DiskActivation.lift).

Lemma lift_inv {A} (x : exc A) (tr : list call) r tr' :
  lift x tr = (r, tr') → tr' = tr ∧ r = x.
Proof. unfold DiskActivation.lift, eff_lift. destruct x; by intros [= <- <-]. Qed.

Lemma rpc_to_inv node d c tr r tr' :
  rpc_to cfg DISK_LD_DEFAULTS env node d inst c tr = (r, tr') →
  (tr' = tr ∧ ∃ e, r = Raise e) ∨ (tr' = tr ++ [c] ∧ r = Ok (answer env tr c)).
Proof.
  unfold rpc_to. intros [(sent & s1 & [-> _]%lift_inv & [= <- <-])|(e & [-> _]%lift_inv & ->)]%eff_bind_inv; eauto.
Qed.

(** A call with the calls before it *)
Definition at_call (tr new : list call) (P : list call → call → Prop) : Prop :=
  ∀ before c after, new = before ++ c :: after → P (tr ++ before) c.

Lemma at_call_nil tr P : at_call tr [] P.
Proof. intros before c after. by destruct before. Qed.

Lemma at_call_one tr c P : at_call tr [c] P ↔ P tr c.
Proof.
  split; [intros H; specialize (H [] c [] eq_refl); by rewrite app_nil_r in H|].
  intros HP [|b before] c' after [= -> Heq]; [by rewrite app_nil_r|]. by destruct before.
Qed.

Lemma at_call_app tr new new' P : at_call tr (new ++ new') P ↔ at_call tr new P ∧ at_call (tr ++ new) new' P.
Proof.
  split.
  - intros H. split; intros before c after ->.
    + apply (H before c (after ++ new')). by rewrite <-app_assoc.
    + rewrite <-app_assoc. apply (H (new ++ before) c after). by rewrite <-app_assoc.
  - intros [H1 H2] before c after Heq. apply app_eq_app in Heq as (l & [[-> Hl]|[-> ->]]).
    + destruct l as [|c' l]; [|].
      * rewrite app_nil_r in *. simpl in Hl. specialize (H2 [] c after). rewrite !app_nil_r in *. by apply H2.
      * injection Hl as <- ->. by apply (H1 before c l).
    + rewrite app_assoc. by apply (H2 l c after).
Qed.

(** ** The passes *)

(** A device assembled as secondary succeeded, or its failure does not matter. *)
Definition fine (tr : list call) (c : call) : Prop :=
  match c with
  | BlockdevAssemble node _ as_primary _ =>
      fail_msg (answer env tr c) = [] ∨
      (as_primary = false ∧ tolerated cfg inst ignore_secondaries node (answer env tr c) = Ok true)
  | _ => True
  end.

Definition secondary_calls (idx : nat) (tree : list (str * disk)) : list call :=
  (λ nd : str * disk, BlockdevAssemble nd.1 (node_disk ignore_size nd.2) false idx) <$> tree.

Lemma assemble_tree_inv idx tree : ∀ ok tr r tr',
  assemble_tree cfg DISK_LD_DEFAULTS env inst ignore_secondaries ignore_size idx tree ok tr = (r, tr') →
  ∃ new, tr' = tr ++ new ∧ new `prefix_of` secondary_calls idx tree ∧
    ∀ ok', r = Ok ok' → new = secondary_calls idx tree ∧ (ok' = true ↔ ok = true ∧ at_call tr new fine).
Proof.
  induction tree as [|[node d] tree IH]; intros ok tr r tr'; cbn [assemble_tree].
  { intros [= <- <-]. exists []. rewrite app_nil_r. split_and!; [done|done|]. intros ok' [= ->]. split; [done|].
    split; [|naive_solver]. intros ->. split; [done|apply at_call_nil]. }
  set (c := BlockdevAssemble node (node_disk ignore_size d) false idx).
  change (secondary_calls idx ((node, d) :: tree)) with (c :: secondary_calls idx tree).
  intros [(res & s1 & [[-> (e & [=])]|[-> [= ->]]]%rpc_to_inv & Hk)|(e & [[-> _]|[_ [=]]]%rpc_to_inv & ->)]%eff_bind_inv.
  2: { exists []. rewrite app_nil_r. split_and!; [done|apply prefix_nil|done]. }
  apply eff_bind_inv in Hk as [(ok1 & s2 & Hm & Hrest)|(e & Hm & ->)].
  2: { exists [c]. destruct (fail_msg _); [done|].
       apply eff_bind_inv in Hm as [(t & s2 & _ & [=])|(e' & [-> _]%lift_inv & _)].
       split_and!; [done|apply prefix_cons, prefix_nil|done]. }
  assert (s2 = tr ++ [c] ∧ (ok1 = true ↔ ok = true ∧ fine tr c)) as [-> Hfine].
  { unfold fine. subst c. cbv beta iota. destruct (fail_msg (answer env tr _)) eqn:Ef; [injection Hm as <- <-; naive_solver|].
    apply eff_bind_inv in Hm as [(t & s2' & [-> Ht]%lift_inv & [= <- <-])|(? & _ & [=])]. split; [done|].
    rewrite andb_true_iff, <-Ht. naive_solver. }
  apply IH in Hrest as (new & -> & Hpre & Hok). exists (c :: new). rewrite <-app_assoc.
  split_and!; [done|by apply prefix_cons|]. intros ok' Hr. destruct (Hok ok' Hr) as [-> ->]. split; [done|].
  rewrite Hfine, (at_call_app tr [c] (secondary_calls idx tree)), at_call_one. tauto.
Qed.

(** The calls of the first pass for disks from an index on *)
Fixpoint first_calls (idx : nat) (disks : list disk) : exc (list call) :=
  match disks with
  | [] => Ok []
  | d :: disks =>
      let* tree := ComputeNodeTree d primary in
      let* rest := first_calls (1 + idx) disks in
      Ok (secondary_calls idx tree ++ rest)
  end.

Definition is_promotion (c : call) : bool := match c with BlockdevAssemble _ _ true _ => true | _ => false end.

Lemma secondary_no_promotion idx tree : Forall (λ c, is_promotion c = false) (secondary_calls idx tree).
Proof. apply Forall_fmap, Forall_true. done. Qed.

Lemma Forall_prefix {A} (P : A → Prop) l l' : l `prefix_of` l' → Forall P l' → Forall P l.
Proof. intros [k ->] [? _]%Forall_app. done. Qed.

Lemma first_pass_inv disks : ∀ idx ok tr r tr',
  first_pass cfg DISK_LD_DEFAULTS env inst ignore_secondaries ignore_size idx disks ok tr = (r, tr') →
  ∃ new, tr' = tr ++ new ∧ Forall (λ c, is_promotion c = false) new ∧
    ∀ ok', r = Ok ok' → first_calls idx disks = Ok new ∧ (ok' = true ↔ ok = true ∧ at_call tr new fine).
Proof.
  induction disks as [|d disks IH]; intros idx ok tr r tr'; cbn [first_pass first_calls].
  { intros [= <- <-]. exists []. rewrite app_nil_r. split_and!; [done|constructor|]. intros ok' [= ->]. split; [done|].
    split; [|naive_solver]. intros ->. split; [done|apply at_call_nil]. }
  intros [(tree & s1 & [-> Ht]%lift_inv & Hk)|(e & [-> _]%lift_inv & ->)]%eff_bind_inv.
  2: { exists []. rewrite app_nil_r. split_and!; [done|constructor|done]. }
  rewrite <-Ht. cbn [rbind].
  apply eff_bind_inv in Hk as [(ok1 & s2 & (new & -> & _ & Hok1)%assemble_tree_inv & Hrest)
    |(e & (new & -> & Hpre & _)%assemble_tree_inv & ->)].
  2: { exists new. split_and!; [done| |done]. eapply Forall_prefix; [exact Hpre|apply secondary_no_promotion]. }
  destruct (Hok1 _ eq_refl) as [-> Hfine]. apply IH in Hrest as (rest & -> & Hno & Hok).
  exists (secondary_calls idx tree ++ rest). rewrite <-app_assoc. split_and!; [done| |].
  - apply Forall_app. split; [apply secondary_no_promotion|done].
  - intros ok' Hr. destruct (Hok ok' Hr) as [-> ->]. split; [done|]. rewrite Hfine, at_call_app. tauto.
Qed.

(** ** The handshake *)

(** What has to be called, and answered, before a promotion: nothing without DRBD or
    without secondaries, else every secondary has shaken hands, is offline, or is to
    be ignored. *)
Definition shaken (disks : list disk) (tr hand : list call) : Prop :=
  if existsb (λ d, bool_decide (d_dev_type d = DT_DRBD8)) disks then
    match GetInstanceSecondaryNodes cfg (default [] (i_uuid inst)) with
    | Ok [] => hand = []
    | Ok secondaries =>
        hand = [DrbdWaitSync secondaries disks] ∧
        Forall (λ n, let a := answer_wait env tr secondaries n in
                     fail_msg a = [] ∨ offline a = true ∨ ignore_secondaries = true) secondaries
    | Raise _ => False
    end
  else hand = [].

Lemma fatal_failures_none wait_result :
  fatal_failures cfg ignore_secondaries wait_result = Ok [] →
  Forall (λ nr : str * rpc_result, fail_msg nr.2 = [] ∨ offline nr.2 = true ∨ ignore_secondaries = true) wait_result.
Proof.
  unfold fatal_failures. intros (l & Hl%rmapM_Ok & Hnil)%rmap_Ok.
  induction Hl as [|[n res] o wr l Ho Hl IH]; [constructor|]. destruct o as [x|]; [done|]. constructor; [|by apply IH].
  cbn [snd]. apply rbind_Ok in Ho as (name & _ & Ho). destruct (fail_msg res); [by left|].
  destruct (offline res), ignore_secondaries; [tauto..|done].
Qed.

Lemma wait_handshake_inv disks tr r tr' :
  wait_handshake cfg DISK_LD_DEFAULTS env inst ignore_secondaries disks tr = (r, tr') →
  ∃ new, tr' = tr ++ new ∧ Forall (λ c, is_promotion c = false) new ∧ (r = Ok tt → shaken disks tr new).
Proof.
  assert (∃ new, tr = tr ++ new ∧ Forall (λ c, is_promotion c = false) new ∧ (new = [])) as Hnone.
  { exists []. by rewrite app_nil_r. }
  unfold wait_handshake, shaken. destruct (existsb _ disks); [|intros [= <- <-]; naive_solver].
  intros [(sec & s1 & [-> Hs]%lift_inv & Hk)|(e & [-> Hs]%lift_inv & ->)]%eff_bind_inv; rewrite <-Hs; [|naive_solver].
  destruct sec as [|n sec]; [injection Hk as <- <-; naive_solver|]. set (secs := n :: sec) in *.
  apply eff_bind_inv in Hk as [(wr & s2 & Hw & Hk)|(e & Hw & ->)]; unfold call_drbd_wait_sync in Hw;
    apply eff_bind_inv in Hw as [(? & s3 & [-> _]%lift_inv & Hw)|(e' & [-> _]%lift_inv & Hw)]; try (naive_solver).
  injection Hw as <- <-. set (c := DrbdWaitSync secs disks) in *.
  apply eff_bind_inv in Hk as [(fatal & s4 & [-> Hf]%lift_inv & Hk)|(e & [-> Hf]%lift_inv & ->)].
  2: { exists [c]. split_and!; [done|by repeat constructor|done]. }
  destruct fatal as [|f fatal].
  - injection Hk as <- <-. exists [c]. split_and!; [done|by repeat constructor|]. intros _. split; [done|].
    symmetry in Hf. apply fatal_failures_none in Hf. 
    change (Forall (λ nr : str * rpc_result, fail_msg nr.2 = [] ∨ offline nr.2 = true ∨ ignore_secondaries = true)
      ((λ n, (n, answer_wait env tr secs n)) <$> secs)) in Hf. by apply Forall_fmap in Hf.
  - apply eff_bind_inv in Hk as [(? & s5 & Hm & [= <- <-])|(e & Hm & ->)]; injection Hm as _ <-;
      exists [c; MarkInactive]; rewrite <-app_assoc; (split_and!; [done|by repeat constructor|done]).
Qed.

(** ** The second pass *)

Fixpoint payloads_of (tr calls : list call) : list obj :=
  match calls with
  | [] => []
  | c :: calls => payload (answer env tr c) :: payloads_of (tr ++ [c]) calls
  end.

Lemma payloads_of_app new : ∀ tr new', payloads_of tr (new ++ new') = payloads_of tr new ++ payloads_of (tr ++ new) new'.
Proof.
  induction new as [|c new IH]; intros tr new'; cbn; [by rewrite app_nil_r|]. by rewrite IH, <-app_assoc.
Qed.

Definition primary_calls (idx : nat) (tree : list (str * disk)) : list call :=
  (λ nd : str * disk, BlockdevAssemble nd.1 (node_disk ignore_size nd.2) true idx) <$>
    filter (λ nd : str * disk, nd.1 = primary) tree.

Definition promotes_primary (c : call) : Prop := ∃ d idx, c = BlockdevAssemble primary d true idx.

Lemma primary_calls_promote idx tree : Forall promotes_primary (primary_calls idx tree).
Proof.
  apply Forall_fmap, Forall_forall. intros [n d] [Hn _]%list_elem_of_filter. simpl in Hn. subst n. by eexists _, _.
Qed.

Lemma promote_tree_inv idx tree : ∀ p tr r tr',
  promote_tree cfg DISK_LD_DEFAULTS env inst ignore_size idx tree p tr = (r, tr') →
  ∃ new, tr' = tr ++ new ∧ new `prefix_of` primary_calls idx tree ∧
    ∀ p', r = Ok p' → new = primary_calls idx tree ∧
      (p'.1.1 = true ↔ p.1.1 = true ∧ at_call tr new fine) ∧ p'.2 = p.2 ++ payloads_of tr new.
Proof.
  induction tree as [|[node d] tree IH]; intros [[ok path] pay] tr r tr'; cbn [promote_tree].
  { intros [= <- <-]. exists []. rewrite app_nil_r. split_and!; [done|done|]. intros p' [= ->]. rewrite app_nil_r.
    split_and!; [done| |done]. pose proof (at_call_nil tr fine). naive_solver. }
  unfold primary_calls. rewrite filter_cons. cbn [fst]. case_bool_decide as Hn; [rewrite decide_True by done
    |rewrite decide_False by done; apply IH].
  set (c := BlockdevAssemble node (node_disk ignore_size d) true idx). cbn [fmap list_fmap fst snd]. fold c.
  fold (primary_calls idx tree).
  intros [(res & s1 & [[-> (e & [=])]|[-> [= ->]]]%rpc_to_inv & Hk)|(e & [[-> _]|[_ [=]]]%rpc_to_inv & ->)]%eff_bind_inv.
  2: { exists []. rewrite app_nil_r. split_and!; [done|apply prefix_nil|done]. }
  apply eff_bind_inv in Hk as [(p1 & s2 & Hm & Hrest)|(e & Hm & ->)].
  2: { exists [c]. destruct (fail_msg _); apply eff_bind_inv in Hm as [(t & s2 & _ & [=])|(e' & [-> _]%lift_inv & _)];
       (split_and!; [done|apply prefix_cons, prefix_nil|done]). }
  assert (s2 = tr ++ [c] ∧ (p1.1.1 = true ↔ ok = true ∧ fine tr c) ∧ p1.2 = pay ++ [payload (answer env tr c)])
    as (-> & Hfine & Hpay).
  { unfold fine. subst c. cbv beta iota. destruct (fail_msg (answer env tr _)) eqn:Ef;
      apply eff_bind_inv in Hm as [(t & s2' & [-> Ht]%lift_inv & [= <- <-])|(? & _ & [=])]; naive_solver. }
  apply IH in Hrest as (new & -> & Hpre & Hok). exists (c :: new). rewrite <-app_assoc.
  split_and!; [done|by apply prefix_cons|]. intros p' Hr. destruct (Hok p' Hr) as (-> & -> & ->). split_and!; [done| |].
  - rewrite Hfine, (at_call_app tr [c] (primary_calls idx tree)), at_call_one. cbn. tauto.
  - rewrite Hpay, <-app_assoc. done.
Qed.

Fixpoint second_calls (idx : nat) (disks : list disk) : exc (list call) :=
  match disks with
  | [] => Ok []
  | d :: disks =>
      let* tree := ComputeNodeTree d primary in
      let* rest := second_calls (1 + idx) disks in
      Ok (primary_calls idx tree ++ rest)
  end.

Lemma second_pass_inv disks : ∀ idx ok info pay tr r tr',
  second_pass cfg DISK_LD_DEFAULTS env inst ignore_size idx disks ok info pay tr = (r, tr') →
  ∃ new, tr' = tr ++ new ∧ Forall promotes_primary new ∧
    ∀ p, r = Ok p → second_calls idx disks = Ok new ∧ (p.1.1 = true ↔ ok = true ∧ at_call tr new fine) ∧
      (λ i : dev_info, i.1.2) <$> p.1.2 = ((λ i : dev_info, i.1.2) <$> info) ++ (d_iv_name <$> disks) ∧
      p.2 = pay ++ payloads_of tr new.
Proof.
  induction disks as [|d disks IH]; intros idx ok info pay tr r tr'; cbn [second_pass second_calls].
  { intros [= <- <-]. exists []. rewrite app_nil_r. split_and!; [done|constructor|]. intros p [= <-]. cbn.
    rewrite !app_nil_r. split_and!; [done| |done..]. pose proof (at_call_nil tr fine). naive_solver. }
  intros [(tree & s1 & [-> Ht]%lift_inv & Hk)|(e & [-> _]%lift_inv & ->)]%eff_bind_inv.
  2: { exists []. rewrite app_nil_r. split_and!; [done|constructor|done]. }
  rewrite <-Ht. cbn [rbind].
  apply eff_bind_inv in Hk as [(q & s2 & (new & -> & _ & Hok1)%promote_tree_inv & Hrest)
    |(e & (new & -> & Hpre & _)%promote_tree_inv & ->)].
  2: { exists new. split_and!; [done| |done]. eapply Forall_prefix; [exact Hpre|apply primary_calls_promote]. }
  destruct (Hok1 _ eq_refl) as (-> & Hfine & Hpay). cbn in Hfine, Hpay.
  apply eff_bind_inv in Hrest as [(name & s3 & [-> _]%lift_inv & Hrest)|(e & [-> _]%lift_inv & ->)].
  2: { exists (primary_calls idx tree). split_and!; [done|apply primary_calls_promote|done]. }
  apply IH in Hrest as (rest & -> & Hno & Hok). exists (primary_calls idx tree ++ rest). rewrite <-app_assoc.
  split_and!; [done|apply Forall_app; split; [apply primary_calls_promote|done]|].
  intros p Hr. destruct (Hok p Hr) as (-> & -> & Hinfo & ->). split_and!; [done| | |].
  - rewrite Hfine, at_call_app. tauto.
  - by rewrite Hinfo, fmap_app, <-app_assoc.
  - by rewrite Hpay, payloads_of_app, <-app_assoc.
Qed.
End safety.

(** ** Activation *)

Section activation_theorems.
  Context (cfg : config_data) (DISK_LD_DEFAULTS : dict pdict) (env : answers).

(** The instance whose disks are activated, the disks chosen, and the calls before
    the passes *)
Definition activates (inst : instance) (disks : option (list disk)) (inst' : instance) (chosen : list disk) (head : list call)
    : Prop :=
  match disks with
  | None => answer_mark env [] MarkActive = Ok inst' ∧ head = [MarkActive]
  | Some _ => inst' = inst ∧ head = []
  end ∧
  ∃ own, instance_disks cfg inst' = Ok own ∧ ExpandCheckDisks own disks = Ok chosen.

(** The first pass is over and the handshake was awaited after the calls of [head]. *)
Definition ready (inst : instance) (ignore_secondaries ignore_size : bool) (chosen : list disk) (head first hand : list call)
    : Prop :=
  first_calls inst ignore_size 0 chosen = Ok first ∧
  shaken cfg env inst ignore_secondaries chosen (head ++ first) hand.

Lemma mark_unless_ok_inv ok tr r tr' :
  mark_unless_ok env ok tr = (r, tr') → tr' = tr ++ (if ok then [] else [MarkInactive]).
Proof.
  unfold mark_unless_ok. destruct ok; [intros [= <- <-]; by rewrite app_nil_r|].
  by intros [(? & s1 & [= _ <-] & [= <- <-])|(e & [= _ <-] & ->)]%eff_bind_inv.
Qed.

(** What is known of a run: no promotion, or the passes and then promotions of the
    primary. *)
Lemma AssembleInstanceDisks_inv inst disks ignore_secondaries ignore_size r tr' :
  AssembleInstanceDisks cfg DISK_LD_DEFAULTS env inst disks ignore_secondaries ignore_size [] = (r, tr') →
  (Forall (λ c, is_promotion c = false) tr' ∧ ∀ p, r ≠ Ok p) ∨
  ∃ inst' chosen head first hand second last,
    activates inst disks inst' chosen head ∧ ready inst' ignore_secondaries ignore_size chosen head first hand ∧
    Forall (λ c, is_promotion c = false) (head ++ first ++ hand) ∧ Forall (promotes_primary inst') second ∧
    tr' = (head ++ first ++ hand) ++ second ++ last ∧ Forall (λ c, is_promotion c = false) last ∧
    ∀ p, r = Ok p →
      second_calls inst' ignore_size 0 chosen = Ok second ∧
      (p.1.1 = true ↔ at_call head first (fine cfg env inst' ignore_secondaries) ∧
        at_call (head ++ first ++ hand) second (fine cfg env inst' ignore_secondaries)) ∧
      (λ i : dev_info, i.1.2) <$> p.1.2 = d_iv_name <$> chosen ∧
      p.2 = payloads_of env (head ++ first ++ hand) second ∧ last = (if p.1.1 then [] else [MarkInactive]).
Proof.
  unfold AssembleInstanceDisks.
  intros [(inst' & head & Hhead & Hk)|(e & Hhead & ->)]%eff_bind_inv.
  2: { left. split; [|done]. destruct disks; [done|]. injection Hhead as _ <-. by repeat constructor. }
  assert (Forall (λ c, is_promotion c = false) head) as Hno0.
  { destruct disks; injection Hhead as _ <-; by repeat constructor. }
  apply eff_bind_inv in Hk as [(own & s1 & [-> Hown]%lift_inv & Hk)|(e & [-> _]%lift_inv & ->)]; [|by left].
  apply eff_bind_inv in Hk as [(chosen & s1 & [-> Hch]%lift_inv & Hk)|(e & [-> _]%lift_inv & ->)]; [|by left].
  apply eff_bind_inv in Hk as [(ok & s2 & (first & -> & Hno1 & H1)%first_pass_inv & Hk)
    |(e & (first & -> & Hno1 & _)%first_pass_inv & ->)]; [|left; split; [by apply Forall_app|done]].
  apply eff_bind_inv in Hk as [([] & s3 & (hand & -> & Hno2 & H2)%wait_handshake_inv & Hk)
    |(e & (hand & -> & Hno2 & _)%wait_handshake_inv & ->)]; [|left; split; [by rewrite !Forall_app|done]].
  destruct (H1 _ eq_refl) as [Hfirst Hok]. specialize (H2 eq_refl). rewrite <-app_assoc in Hk. right.
  exists inst', chosen, head, first, hand.
  assert (activates inst disks inst' chosen head) as Hact.
  { split; [|eauto]. destruct disks; [by injection Hhead as <- <-|]. injection Hhead as Hm <-. done. }
  assert (Forall (λ c, is_promotion c = false) (head ++ first ++ hand)) as Hno by by rewrite !Forall_app.
  apply eff_bind_inv in Hk as [(p & s4 & (second & -> & Hp & H3)%(second_pass_inv cfg DISK_LD_DEFAULTS env inst' ignore_secondaries) & Hk)
    |(e & (second & -> & Hp & _)%(second_pass_inv cfg DISK_LD_DEFAULTS env inst' ignore_secondaries) & ->)].
  2: { exists second, []. rewrite app_nil_r. split_and!; done. }
  destruct (H3 _ eq_refl) as (Hsecond & Hok' & Hinfo & Hpay). exists second, (if p.1.1 then [] else [MarkInactive]).
  assert (tr' = (head ++ first ++ hand) ++ second ++ (if p.1.1 then [] else [MarkInactive])) as ->.
  { apply eff_bind_inv in Hk as [([] & s5 & ->%mark_unless_ok_inv & [= <- <-])|(e & ->%mark_unless_ok_inv & ->)];
      by rewrite <-!app_assoc. }
  split_and!; try done; [destruct p.1.1; by repeat constructor|]. intros p' ->.
  assert (p' = p) as -> by (apply eff_bind_inv in Hk as [([] & s5 & _ & [= <- _])|(e & _ & [=])]; done).
  split_and!; try done. rewrite Hok', Hok. tauto.
Qed.

(** In calls without a promotion, then promotions, then none, every promotion is one
    of those in the middle. *)
Lemma promotion_in_middle A B C before c after :
  Forall (λ c, is_promotion c = false) A → Forall (λ c, is_promotion c = false) C →
  A ++ B ++ C = before ++ c :: after → is_promotion c = true →
  A `prefix_of` before ∧ c ∈ B.
Proof.
  intros HA HC Heq Hc. split.
  - apply app_eq_app in Heq as (l & [[-> Hl]|[-> _]]); [|by apply prefix_app_r].
    destruct l as [|c' l]; [by rewrite app_nil_r|]. injection Hl as -> _.
    apply Forall_app in HA as [_ [HA _]%Forall_cons]. congruence.
  - assert (c ∈ A ++ B ++ C) as Hin by (rewrite Heq; set_solver).
    rewrite !elem_of_app in Hin. rewrite !Forall_forall in *. destruct Hin as [?%HA|[?|?%HC]]; congruence.
Qed.

(** C10: when the disks of an instance are activated, every promotion of a device is one on
    the primary node, made after all devices of all chosen disks were assembled in
    secondary mode on all their nodes, and, with DRBD disks and secondary nodes, after
    every secondary shook hands, is offline, or is to be ignored.  A run that returns
    made exactly the calls of the two passes, returns the payloads of the promotions and
    an entry per disk, and says that all is well exactly if every failed call is one
    to an offline secondary or to be ignored; if not, the disks are marked inactive. *)
Theorem AssembleInstanceDisks_correct inst disks ignore_secondaries ignore_size r tr :
  AssembleInstanceDisks cfg DISK_LD_DEFAULTS env inst disks ignore_secondaries ignore_size [] = (r, tr) →
  (∀ before c after, tr = before ++ c :: after → is_promotion c = true →
     ∃ inst' chosen head first hand,
       activates inst disks inst' chosen head ∧ promotes_primary inst' c ∧
       ready inst' ignore_secondaries ignore_size chosen head first hand ∧ head ++ first ++ hand `prefix_of` before) ∧
  (∀ disks_ok device_info payloads, r = Ok (disks_ok, device_info, payloads) →
     ∃ inst' chosen head first hand second,
       activates inst disks inst' chosen head ∧
       ready inst' ignore_secondaries ignore_size chosen head first hand ∧
       second_calls inst' ignore_size 0 chosen = Ok second ∧
       tr = (head ++ first ++ hand) ++ second ++ (if disks_ok then [] else [MarkInactive]) ∧
       (disks_ok = true ↔ at_call head first (fine cfg env inst' ignore_secondaries) ∧
          at_call (head ++ first ++ hand) second (fine cfg env inst' ignore_secondaries)) ∧
       (λ i : dev_info, i.1.2) <$> device_info = d_iv_name <$> chosen ∧
       payloads = payloads_of env (head ++ first ++ hand) second).
Proof.
  intros [[Hno Hr]|(inst' & chosen & head & first & hand & second & last & Hact & Hready & HA & HB & -> & HC & Hr)]
    %AssembleInstanceDisks_inv.
  - split; [|intros ? ? ? ->; by destruct (Hr _ eq_refl)]. intros before c after -> Hc.
    apply Forall_app in Hno as [_ [Hno _]%Forall_cons]. congruence.
  - split.
    + intros before c after Heq Hc. exists inst', chosen, head, first, hand.
      destruct (promotion_in_middle _ _ _ _ _ _ HA HC Heq Hc) as [Hpre Hin].
      split_and!; [done| |done..]. rewrite Forall_forall in HB. auto.
    + intros ok info pay ->. destruct (Hr _ eq_refl) as (Hs & Hok & Hinfo & Hpay & ->).
      exists inst', chosen, head, first, hand, second. split_and!; done.
Qed.

(** ** Shutting down *)

(** A shutdown that failed, on the primary node unless that is to be ignored, or on
    another node that is not offline *)
Definition shut (inst : instance) (ignore_primary : bool) (tr : list call) (c : call) : Prop :=
  match c with
  | BlockdevShutdown node _ =>
      fail_msg (answer env tr c) = [] ∨
      if decide (node = i_primary_node inst) then ignore_primary = true else offline (answer env tr c) = true
  | _ => True
  end.

Fixpoint shutdown_calls (inst : instance) (disks : list disk) : exc (list call) :=
  match disks with
  | [] => Ok []
  | d :: disks =>
      let* tree := ComputeNodeTree d (i_primary_node inst) in
      let* rest := shutdown_calls inst disks in
      Ok (((λ nd : str * disk, BlockdevShutdown nd.1 nd.2) <$> tree) ++ rest)
  end.

Lemma shutdown_tree_returns inst ignore_primary tree : ∀ ok tr ok' tr',
  shutdown_tree cfg DISK_LD_DEFAULTS env inst ignore_primary tree ok tr = (Ok ok', tr') →
  let new := (λ nd : str * disk, BlockdevShutdown nd.1 nd.2) <$> tree in
  tr' = tr ++ new ∧ (ok' = true ↔ ok = true ∧ at_call tr new (shut inst ignore_primary)).
Proof.
  induction tree as [|[node d] tree IH]; intros ok tr ok' tr'; cbn [shutdown_tree].
  { intros [= <- <-]. rewrite app_nil_r. pose proof (at_call_nil tr (shut inst ignore_primary)). naive_solver. }
  set (c := BlockdevShutdown node d).
  intros [(res & s1 & [[-> (e & [=])]|[-> [= ->]]]%rpc_to_inv & Hk)|(e & _ & [=])]%eff_bind_inv.
  apply eff_bind_inv in Hk as [(ok1 & s2 & Hm & Hrest)|(e & _ & [=])].
  assert (s2 = tr ++ [c] ∧ (ok1 = true ↔ ok = true ∧ shut inst ignore_primary tr c)) as [-> Hfine].
  { unfold shut. subst c. cbv beta iota. destruct (fail_msg (answer env tr _)) eqn:Ef; [injection Hm as <- <-; naive_solver|].
    apply eff_bind_inv in Hm as [(t & s2' & [-> Ht]%lift_inv & [= <- <-])|(? & _ & [=])]. split; [done|].
    rewrite andb_true_iff. case_bool_decide; case_decide; try done; destruct ignore_primary, (offline _); naive_solver. }
  apply IH in Hrest as [-> ->]. split; [by rewrite <-app_assoc|].
  change (at_call tr _ _) with (at_call tr ([c] ++ ((λ nd : str * disk, BlockdevShutdown nd.1 nd.2) <$> tree)) (shut inst ignore_primary)).
  rewrite Hfine, at_call_app, at_call_one. tauto.
Qed.

Lemma shutdown_disks_returns inst ignore_primary disks : ∀ ok tr ok' tr',
  shutdown_disks cfg DISK_LD_DEFAULTS env inst ignore_primary disks ok tr = (Ok ok', tr') →
  ∃ new, shutdown_calls inst disks = Ok new ∧ tr' = tr ++ new ∧
    (ok' = true ↔ ok = true ∧ at_call tr new (shut inst ignore_primary)).
Proof.
  induction disks as [|d disks IH]; intros ok tr ok' tr'; cbn [shutdown_disks shutdown_calls].
  { intros [= <- <-]. exists []. rewrite app_nil_r. pose proof (at_call_nil tr (shut inst ignore_primary)). naive_solver. }
  intros [(tree & s1 & [-> Ht]%lift_inv & Hk)|(e & _ & [=])]%eff_bind_inv. rewrite <-Ht. cbn [rbind].
  apply eff_bind_inv in Hk as [(ok1 & s2 & [-> Hok1]%shutdown_tree_returns & Hrest)|(e & _ & [=])].
  apply IH in Hrest as (rest & Hc & -> & Hok). rewrite Hc. cbn [rbind]. eexists. split; [done|].
  rewrite <-app_assoc. split; [done|]. rewrite Hok, Hok1, at_call_app. tauto.
Qed.

(** A start that returns has assembled all disks; one whose assembly reports a failure
    never returns. *)
Lemma StartInstanceDisks_returns inst force tr :
  StartInstanceDisks cfg DISK_LD_DEFAULTS env inst force [] = (Ok tt, tr) →
  ∃ info payloads, AssembleInstanceDisks cfg DISK_LD_DEFAULTS env inst None (default false force) false [] =
    (Ok (true, info, payloads), tr).
Proof.
  unfold StartInstanceDisks, undo_unless_ok.
  intros [([[[] info] pay] & s1 & HA & Hk)|(e & _ & [=])]%eff_bind_inv; [injection Hk as <-; eauto|].
  apply eff_bind_inv in Hk as [(ok & s2 & _ & [=])|(e & _ & [=])].
Qed.

(** After an assembly that reports a failure the start raises; if the shutdown of the
    disks can be carried out, all devices were shut down and it is an [OpExecError]. *)
Lemma StartInstanceDisks_undone inst force info payloads tr1 r tr :
  AssembleInstanceDisks cfg DISK_LD_DEFAULTS env inst None (default false force) false [] = (Ok (false, info, payloads), tr1) →
  StartInstanceDisks cfg DISK_LD_DEFAULTS env inst force [] = (r, tr) →
  (∃ e, r = Raise e) ∧
  ∀ ok tr2, ShutdownInstanceDisks cfg DISK_LD_DEFAULTS env inst None false tr1 = (Ok ok, tr2) →
    r = Raise OpExec_error ∧
    ∃ own calls, instance_disks cfg inst = Ok own ∧ shutdown_calls inst own = Ok calls ∧
      tr = tr1 ++ MarkInactive :: calls.
Proof.
  intros HA. unfold StartInstanceDisks, undo_unless_ok, mbind at 1, eff_bind at 1. rewrite HA. cbn [fst snd].
  intros [(ok & s2 & Hs & [= <- <-])|(e & Hs & ->)]%eff_bind_inv; (split; [by eexists|]); intros ok' tr2 Hs';
    rewrite Hs in Hs'; [injection Hs' as -> ->|done].
  split; [done|]. unfold ShutdownInstanceDisks in Hs.
  apply eff_bind_inv in Hs as [([] & s3 & Hm & Hk)|(? & _ & [=])].
  apply eff_bind_inv in Hm as [(i & s4 & [= _ <-] & [= <-])|(? & _ & [=])].
  apply eff_bind_inv in Hk as [(own & s1 & [-> Hown]%lift_inv & Hk)|(? & _ & [=])].
  apply eff_bind_inv in Hk as [(chosen & s1 & [-> Hch]%lift_inv & Hk)|(? & _ & [=])]. injection Hch as ->.
  apply shutdown_disks_returns in Hk as (calls & Hc & -> & _). exists own, calls.
  split_and!; [done|done|]. by rewrite <-app_assoc.
Qed.
End activation_theorems.

(** ** A DRBD disk on two nodes *)
Module ActivationDemo.

Definition disk1 : disk :=
  Disk false None DT_DRBD8 StorageDemo.drbd0 (d_children StorageDemo.disk0) [lit "n1"; lit "n2"] (Some (lit "disk/0")) 1024 (lit "rw") [] None None []
    (Some (lit "d")).
Definition inst1 : instance := Instance (lit "web") (lit "n1") [] [] [lit "d"] None (Some (lit "i")).
Definition data1 : config_data :=
  ConfigData (cd_cluster StorageDemo.data) (cd_nodes StorageDemo.data) (cd_nodegroups StorageDemo.data) [(lit "i", inst1)] []
    [(lit "d", disk1)] 1.

(** All calls succeed, except that the secondary may not complete the handshake. *)
Definition env1 (shakes : bool) : answers :=
  Answers (λ _ _, RpcResult [] false (OTuple [str_obj "/dev/drbd0"; ONone; ONone]))
    (λ _ _ _, RpcResult (if shakes then [] else lit "is not in sync") false (OTuple [OBool true; ONone]))
    (λ _ _, Ok inst1).

Definition assemble (shakes force : bool) :=
  AssembleInstanceDisks data1 StorageDemo.LD_DEFAULTS (env1 shakes) inst1 None force false [].

Definition secondaries : list call := [BlockdevAssemble (lit "n1") disk1 false 0; BlockdevAssemble (lit "n2") disk1 false 0].
Definition wait : call := DrbdWaitSync [lit "n2"] [disk1].
Definition promotion : call := BlockdevAssemble (lit "n1") disk1 true 0.

(** Without the handshake the primary is promoted only by force. *)
Lemma handshake_matters :
  (assemble true false).2 = MarkActive :: secondaries ++ [wait; promotion] ∧
  (assemble false false) = (Raise OpExec_error, MarkActive :: secondaries ++ [wait; MarkInactive]) ∧
  (assemble false true).2 = MarkActive :: secondaries ++ [wait; promotion].
Proof. by vm_compute. Qed.

(** The handshake was completed before the promotion. *)
Lemma AssembleInstanceDisks_correct_witness :
  (assemble true false).2 = (MarkActive :: secondaries ++ [wait]) ++ [promotion] ∧
  ∃ inst' chosen head first hand,
    promotes_primary inst' promotion ∧ ready data1 (env1 true) inst' false false chosen head first hand ∧
    head ++ first ++ hand `prefix_of` MarkActive :: secondaries ++ [wait].
Proof.
  destruct (assemble true false) as [r tr] eqn:E. pose proof E as E'.
  assert (tr = (MarkActive :: secondaries ++ [wait]) ++ promotion :: []) as Htr.
  { vm_compute in E'. injection E' as _ <-. by vm_compute. }
  split; [exact Htr|].
  destruct (AssembleInstanceDisks_correct data1 StorageDemo.LD_DEFAULTS (env1 true) inst1 None false false r tr E) as [Hp _].
  destruct (Hp _ _ _ Htr eq_refl) as (inst' & chosen & head & first & hand & _ & H1 & H2 & H3).
  by exists inst', chosen, head, first, hand.
Defined.
End ActivationDemo.
