(* ===== verification/Processor.v ===== *)
(** * Running an opcode (src/lib/mcpu.py, class Processor)

    [ExecOpCode] and what it is made of: the acquisition of locks level by level
    from the configuration daemon, the execution sequence of a logical unit, and
    the release of the locks on every way out.  The daemon, the clock, the
    callbacks and the logical unit are the record [env] of operations on the
    state; what the locking relies on is [env_ok]. *)

From Stdlib Require Import QArith.
From S2P Require Import Prelude Errors PySort PyStr Mcpu Retry.
#[local] Open Scope list_scope.
#[local] Open Scope stdpp_scope.
#[local] Open Scope nat_scope.

(** ** Locks *)

(** The levels of locking.py: cluster, instance, nodegroup, node, node-res,
    network. *)
Notation level := nat.
Definition LEVEL_CLUSTER : level := 0.
Definition LEVELS : list level := seq 0 6.

Definition BGL : str := lit "BGL".
Definition LOCKSET_NAME : str := lit "[lockset]".

(** A lock and how it is wanted; [true] is shared. *)
Notation request := (level * str * bool)%type.

(** What [needed_locks] holds for a level: [ALL_SET], a name, or names. *)
Inductive names := AllSet | OneName (n : str) | Names (l : list str).

(** [_LockList]; [None] is [ALL_SET]. *)
Definition LockList (n : names) : option (list str) :=
  match n with AllSet => None | OneName s => Some [s] | Names l => Some l end.

(** ** Computations *)

(** Exceptions: [LockAcquireTimeout] and the [CancelJob] of the callbacks, which are no
    Ganeti errors, or others. *)
Inductive failure := LockAcquireTimeout | JobCancelled | Failed (e : exn).

(** The state: the world outside the processor, and the logical unit.  [None]
    as result: still waiting. *)
Definition M (S A : Type) : Type := S → option (result failure A * S).

Section monad.
  Context {S : Type}.

Definition ret {A} (a : A) : M S A := λ s, Some (Ok a, s).
Definition raise {A} (e : failure) : M S A := λ s, Some (Raise e, s).
Definition bind {A B} (c : M S A) (k : A → M S B) : M S B := λ s,
  match c s with
  | Some (Ok a, s) => k a s
  | Some (Raise e, s) => Some (Raise e, s)
  | None => None
  end.

(** [try: c finally: f] *)
Definition finally {A} (c : M S A) (f : M S unit) : M S A := λ s,
  match c s with
  | Some (r, s) =>
      match f s with
      | Some (Ok _, s) => Some (r, s)
      | Some (Raise e, s) => Some (Raise e, s)
      | None => None
      end
  | None => None
  end.

(** [try: c except ...: h]; [h] gets every exception. *)
Definition catch {A} (c : M S A) (h : failure → M S A) : M S A := λ s,
  match c s with
  | Some (Raise e, s) => h e s
  | r => r
  end.

Definition gets {A} (f : S → A) : M S A := λ s, Some (Ok (f s), s).
End monad.

Declare Scope proc_scope.
Delimit Scope proc_scope with proc.
Notation "x <- c ;; k" := (bind c (λ x, k))
  (at level 100, c at next level, right associativity) : proc_scope.
Notation "c ;; k" := (bind c (λ _, k))
  (at level 100, right associativity) : proc_scope.
#[local] Open Scope proc_scope.

(** ** The environment *)

Inductive phase := HOOKS_PHASE_PRE | HOOKS_PHASE_POST.

(** [W]: the world; [L]: the logical unit; [V]: results; [H]: hook results. *)
Record env (W L V H : Type) := Env {
  (* the configuration daemon *)
  UpdateLocksWaiting : Z → list request → W → exc unit * W;
  HasPendingRequest : W → exc bool * W;
  GuardedOpportunisticLockUnion : Z → list request → W → exc (list request) * W;
  FreeLocksLevel : level → W → exc unit * W;
  ListLocks : W * L → exc unit * (W * L);
  (* the clock, sleeping, the signal that locks may have been granted *)
  time : W → Q;
  wait : Q → W → W;
  nap : W → W;
  sighup : W → bool;
  set_sighup : bool → W → W;
  (* the configuration *)
  OutDate : W → W;
  all_names : level → W → exc (list str) * W;
  write_count : W → Z;
  DropECReservations : W → exc unit * W;
  (* the callbacks, if there are any *)
  has_cbs : bool;
  CurrentPriority : W → result failure (option Z);
  NotifyStart : M (W * L) unit;
  NotifyRetry : M (W * L) unit;
  ProcessResult : V → M (W * L) V;
  (* the logical unit *)
  REQ_BGL : bool;
  new_lu : M (W * L) unit;
  ExpandNames : M (W * L) unit;
  DeclareLocks : level → M (W * L) unit;
  secrets_redacted : bool;
  needed_locks_set : L → bool;
  needed_locks : L → level → option names;
  add_locks : L → level → option names;
  share_locks : L → level → bool;
  opportunistic_locks : L → level → bool;
  opportunistic_locks_count : L → level → Z;
  dont_collate_locks : L → level → bool;
  CheckPrereq : M (W * L) unit;
  RunPhase : phase → M (W * L) H;
  HooksCallBack : phase → H → option V → M (W * L) V;
  RunConfigUpdate : M (W * L) unit;
  dry_run : L → bool;
  dry_run_result : L → V;
  Exec : M (W * L) V;
  PrepareRetry : M (W * L) unit;
  executing : Z → W → W;
  result_ok : V → bool
}.

Arguments UpdateLocksWaiting {W L V H} _.
Arguments HasPendingRequest {W L V H} _.
Arguments GuardedOpportunisticLockUnion {W L V H} _.
Arguments FreeLocksLevel {W L V H} _.
Arguments ListLocks {W L V H} _.
Arguments time {W L V H} _.
Arguments wait {W L V H} _.
Arguments nap {W L V H} _.
Arguments sighup {W L V H} _.
Arguments set_sighup {W L V H} _.
Arguments OutDate {W L V H} _.
Arguments all_names {W L V H} _.
Arguments write_count {W L V H} _.
Arguments DropECReservations {W L V H} _.
Arguments has_cbs {W L V H} _.
Arguments CurrentPriority {W L V H} _.
Arguments NotifyStart {W L V H} _.
Arguments NotifyRetry {W L V H} _.
Arguments ProcessResult {W L V H} _.
Arguments REQ_BGL {W L V H} _.
Arguments new_lu {W L V H} _.
Arguments ExpandNames {W L V H} _.
Arguments DeclareLocks {W L V H} _.
Arguments secrets_redacted {W L V H} _.
Arguments needed_locks_set {W L V H} _.
Arguments needed_locks {W L V H} _.
Arguments add_locks {W L V H} _.
Arguments share_locks {W L V H} _.
Arguments opportunistic_locks {W L V H} _.
Arguments opportunistic_locks_count {W L V H} _.
Arguments dont_collate_locks {W L V H} _.
Arguments CheckPrereq {W L V H} _.
Arguments RunPhase {W L V H} _.
Arguments HooksCallBack {W L V H} _.
Arguments RunConfigUpdate {W L V H} _.
Arguments dry_run {W L V H} _.
Arguments dry_run_result {W L V H} _.
Arguments Exec {W L V H} _.
Arguments PrepareRetry {W L V H} _.
Arguments executing {W L V H} _.
Arguments result_ok {W L V H} _.

Section processor.
  Context {W L V H : Type} (e : env W L V H) (enable_locks : bool).
  Notation St := (W * L)%type.

(** Operations of the world. *)
Definition world {A} (f : W → exc A * W) : M St A := λ s,
  let '(r, w) := f s.1 in
  Some (match r with Ok a => Ok a | Raise x => Raise (Failed x) end, (w, s.2)).
Definition modify (f : W → W) : M St unit := λ s, Some (Ok tt, (f s.1, s.2)).
Definition lu_get {A} (f : L → A) : M St A := gets (λ s, f s.2).

Definition OP_PRIO_DEFAULT : Z := 0.

Definition CheckLocksEnabled : M St unit :=
  if enable_locks then ret tt else raise (Failed (GntExn ProgrammerError [])).

(** The callback raises [CancelJob] when the job is to be cancelled. *)
Definition priority : M St Z := λ s,
  Some (if has_cbs e then rmap (default OP_PRIO_DEFAULT) (CurrentPriority e s.1) else Ok OP_PRIO_DEFAULT, s).

(** [lu.wconfdlocks = self.wconfd.Client().ListLocks(..)] *)
Definition list_locks : M St unit := λ s,
  let '(r, s) := ListLocks e s in
  Some (match r with Ok u => Ok u | Raise x => Raise (Failed x) end, s).

(** [_HasPending] of [_RequestAndWait] *)
Definition HasPending (w : W) : call bool * W :=
  if sighup e w then
    match HasPendingRequest e w with
    | (Ok b, w) => (CReturn b, w)
    | (Raise x, w) => (CRaise x, w)
    end
  else (CReturn true, w).

(** The outcome of a [SimpleRetry] *)
Definition simple_retry {A} (expected : A → bool) (fn : W → call A * W) (fuel : nat) (d timeout : Q)
    : M St A := λ s,
  match SimpleRetry (time e) (wait e) expected fn fuel (DNumber d) timeout s.1 with
  | None => None
  | Some (RReturn v, w) => Some (Ok v, (w, s.2))
  | Some (RTimeout _, w) => Some (Raise (Failed AssertionFailed), (w, s.2))
  | Some (RRaise x, w) => Some (Raise (Failed x), (w, s.2))
  end.

(** [timeout]: [None] would be added to the current time. *)
Definition RequestAndWait (fuel : nat) (req : list request) (timeout : option Q) : M St unit :=
  prio <- priority ;;
  modify (set_sighup e false) ;;
  world (UpdateLocksWaiting e prio req) ;;
  pending <- world (HasPendingRequest e) ;;
  pending <- (if pending : bool then
    pending <- match timeout with
               | None => raise (Failed (PyExn TypeError ""))
               | Some t => simple_retry negb HasPending fuel (1 # 20) t
               end ;;
    pending <- (if pending : bool then world (HasPendingRequest e) else ret false) ;;
    modify (set_sighup e false) ;;
    ret pending
  else ret false) ;;
  if pending : bool then raise LockAcquireTimeout else ret tt.

(** [while True: ... time.sleep(10.0 * random.random())] *)
Fixpoint wait_granted (fuel : nat) : M St unit :=
  match fuel with
  | O => λ _, None
  | S fuel =>
      pending <- world (HasPendingRequest e) ;;
      if pending : bool then modify (nap e) ;; wait_granted fuel else ret tt
  end.

(** Lock by lock, in the order of the request. *)
Fixpoint definite (fuel : nat) (prio : Z) (req : list request) : M St unit :=
  match req with
  | [] => ret tt
  | r :: req =>
      world (UpdateLocksWaiting e prio [r]) ;;
      wait_granted fuel ;;
      definite fuel prio req
  end.

(** The request for a level: in lexicographic order. *)
Definition make_request (lv : level) (ns : list str) (shared : bool) : list request :=
  (λ n, (lv, n, shared)) <$> py_sorted str_lt ns.

Definition AcquireLocks (fuel : nat) (lv : level) (ns : option (list str)) (shared opportunistic : bool)
    (timeout : option Q) (opportunistic_count : Z) (request_only : bool) : M St (list request) :=
  CheckLocksEnabled ;;
  prio <- priority ;;
  ns <- match ns with
        | Some l => ret l
        | None => if opportunistic then world (all_names e lv) else ret [LOCKSET_NAME]
        end ;;
  let req := make_request lv ns shared in
  match ns with
  | [] => ret []
  | _ =>
      if request_only then ret req
      else
        modify (OutDate e) ;;
        match timeout with
        | None => definite fuel prio req ;; ret req
        | Some t =>
            if opportunistic then
              locks <- simple_retry (λ l : list request, match l with [] => false | _ => true end)
                (λ w, match GuardedOpportunisticLockUnion e opportunistic_count req w with
                      | (Ok l, w) => (CReturn l, w)
                      | (Raise x, w) => (CRaise x, w)
                      end) fuel 2 t ;;
              match locks with [] => raise LockAcquireTimeout | _ => ret locks end
            else RequestAndWait fuel req timeout ;; ret req
        end
  end.

(** ** The execution sequence *)

Definition ExecLU : M St V :=
  wc <- gets (λ s, write_count e s.1) ;;
  modify (OutDate e) ;;
  CheckPrereq e ;;
  h <- RunPhase e HOOKS_PHASE_PRE ;;
  HooksCallBack e HOOKS_PHASE_PRE h None ;;
  dry <- lu_get (dry_run e) ;;
  if dry : bool then lu_get (dry_run_result e)
  else
    modify (executing e 1) ;;
    finally
      (r <- Exec e ;;
       r <- ProcessResult e r ;;
       h <- RunPhase e HOOKS_PHASE_POST ;;
       HooksCallBack e HOOKS_PHASE_POST h (Some r))
      (modify (executing e (-1)) ;;
       wc' <- gets (λ s, write_count e s.1) ;;
       if (wc =? wc')%Z then ret tt else RunConfigUpdate e).

Definition ECODE_TEMP_NORES : string := "temp_insufficient_resources".

(** [err.args[1] != ECODE_TEMP_NORES] does not hold. *)
Definition temp_nores (args : list pyval) : bool :=
  match args with
  | _ :: VStr c :: _ => String.eqb c ECODE_TEMP_NORES
  | _ => false
  end.

(** The innermost part of [_LockAndExecLU], with its exception handlers;
    [body] is [self._ExecLU(lu)]. *)
Definition exec_with_locks (body : M St V) : M St V :=
  (if has_cbs e then NotifyStart e else ret tt) ;;
  catch body (λ x,
    match x with
    | Failed (GntExn c args) =>
        if issubclass c OpPrereqError then
          if temp_nores args then
            catch (PrepareRetry e ;;
                   if has_cbs e then NotifyRetry e else ret tt)
              (λ y, match y with
                    | Failed (GntExn c' _) =>
                        if issubclass c' OpRetryNotSupportedError then raise x else raise y
                    | _ => raise y
                    end) ;;
            raise LockAcquireTimeout
          else raise x
        else raise x
    | Failed (PyExn AssertionError msg) => raise (Failed (GntExn OpExecError [VStr msg]))
    | _ => raise x
    end).

Context (calc_timeout : W → option Q).

Definition timeout_now : M St (option Q) := gets (λ s, calc_timeout s.1).

(** [self._RequestAndWait(pending, calc_timeout())] and what follows it, when
    something is pending. *)
Definition flush (fuel : nat) (pending : list request) : M St unit :=
  match pending with
  | [] => ret tt
  | _ =>
      t <- timeout_now ;;
      RequestAndWait fuel pending t ;;
      modify (OutDate e) ;;
      list_locks
  end.

(** The list [needed_locks]: [acq] and [add] are what the logical unit has for
    the level after [DeclareLocks], when it was to be acquired or added to. *)
Definition names_for (acq add : option (option names)) : M St (option (list str)) :=
  needed <- match acq with
            | None => ret (Some [])
            | Some None => raise (Failed (PyExn KeyError ""))
            | Some (Some n) => ret (LockList n)
            end ;;
  match add with
  | None => ret needed
  | Some None => raise (Failed (PyExn KeyError ""))
  | Some (Some n) =>
      match needed, LockList n with
      | Some l, Some l' => ret (Some (l ++ l'))
      | None, _ => raise (Failed (PyExn AttributeError "extend"))
      | _, None => raise (Failed (PyExn TypeError ""))
      end
  end.

(** A level with locks to acquire or to add, and what comes after it. *)
Definition acquire_level (fuel : nat) (lv : level) (adding acquiring : option names)
    (opportunistic : bool) (pending : list request) (next : list request → M St V) : M St V :=
  CheckLocksEnabled ;;
  DeclareLocks e lv ;;
  share <- lu_get (λ l, share_locks e l lv) ;;
  count <- lu_get (λ l, opportunistic_locks_count e l lv) ;;
  finally
    (acq <- lu_get (λ l, needed_locks e l lv) ;;
     add <- lu_get (λ l, add_locks e l lv) ;;
     needed <- names_for (match acquiring with Some _ => Some acq | None => None end)
                 (match adding with Some _ => Some add | None => None end) ;;
     t <- timeout_now ;;
     match t, opportunistic with
     | Some _, false =>
         req <- AcquireLocks fuel lv needed share false t 1 true ;;
         next (pending ++ req)
     | _, _ =>
         flush fuel pending ;;
         AcquireLocks fuel lv needed share opportunistic t count false ;;
         list_locks ;;
         next []
     end)
    (world (FreeLocksLevel e lv)).

(** [levels]: the levels from the current one on. *)
Fixpoint LockAndExecLU (fuel : nat) (body : M St V) (levels : list level) (pending : list request)
    : M St V :=
  match levels with
  | [] => flush fuel pending ;; exec_with_locks body
  | lv :: levels =>
      adding <- lu_get (λ l, add_locks e l lv) ;;
      acquiring <- lu_get (λ l, needed_locks e l lv) ;;
      opportunistic <- lu_get (λ l, opportunistic_locks e l lv) ;;
      dont_collate <- lu_get (λ l, dont_collate_locks e l lv) ;;
      (if dont_collate : bool then flush fuel pending else ret tt) ;;
      let pending := if dont_collate : bool then [] else pending in
      match adding, acquiring with
      | None, None => LockAndExecLU fuel body levels pending
      | _, _ =>
          if match adding with Some _ => opportunistic : bool | None => false end
          then raise (Failed (PyExn NotImplementedError ""))
          else if match adding, acquiring with Some _, Some AllSet => true | _, _ => false end
          then raise (Failed (PyExn NotImplementedError ""))
          else acquire_level fuel lv adding acquiring opportunistic pending
                 (LockAndExecLU fuel body levels)
      end
  end.

(** [ExecOpCode], for an opcode with a logical unit. *)
Definition ExecOpCode (fuel : nat) : M St V :=
  r <- finally
    ((if enable_locks then
        t <- timeout_now ;;
        AcquireLocks fuel LEVEL_CLUSTER (Some [BGL]) (negb (REQ_BGL e)) false t 1 false ;;
        ret tt
      else if REQ_BGL e then raise (Failed (GntExn ProgrammerError [])) else ret tt) ;;
     new_lu e ;;
     list_locks ;;
     (if secrets_redacted e then raise (Failed (GntExn OpPrereqError [VStr ""; VStr "wrong_input"]))
      else ret tt) ;;
     ExpandNames e ;;
     ok <- lu_get (needed_locks_set e) ;;
     (if ok : bool then ret tt else raise (Failed AssertionFailed)) ;;
     finally (LockAndExecLU fuel ExecLU (seq 1 5) [])
       (world (DropECReservations e)))
    (world (FreeLocksLevel e LEVEL_CLUSTER)) ;;
  dry <- lu_get (dry_run e) ;;
  if result_ok e r || dry then ret r else raise (Failed (GntExn OpResultError [])).
End processor.
