(* ===== verification/ProcessorProps.v ===== *)
(** * Locks of a running opcode

    On every way out of [ExecOpCode] the locks of the opcode are released and no
    request is left behind, but for the levels whose release the daemon refused. *)

From Stdlib Require Import QArith.
From S2P Require Import Prelude Errors PySort PyStr Mcpu Retry Processor.
#[local] Open Scope list_scope.
#[local] Open Scope stdpp_scope.
#[local] Open Scope proc_scope.
#[local] Open Scope nat_scope.

Section props.
  Context {W L V H : Type} (e : env W L V H) (calc_timeout : W → option Q).
  Notation St := (W * L)%type.

  (** What the daemon knows about the opcode: the locks it owns and its pending
      request.  [unfreed] lists the levels whose release raised, the last first. *)
  Context (owns : W → level * str → bool → Prop) (pend : W → list request).
  Context (unfreed : W → list level).

(** The daemon at work: locks stay, a pending request may be granted. *)
Definition evolves (w w' : W) : Prop :=
  (∀ l m, owns w l m → owns w' l m) ∧
  (∀ l m, owns w' l m → owns w l m ∨ (l, m) ∈ pend w) ∧
  (pend w' = pend w ∨ pend w' = [] ∧ ∀ l m, (l, m) ∈ pend w → owns w' l m) ∧
  unfreed w' = unfreed w.

(** The lock is owned, or may be granted. *)
Definition reach (w : W) (l : level * str) : Prop := ∃ m, owns w l m ∨ (l, m) ∈ pend w.

(** At most locks of the levels [X] are gained, and no release raises. *)
Definition gains (X : level → Prop) (w w' : W) : Prop :=
  unfreed w' = unfreed w ∧ ∀ l, reach w' l → reach w l ∨ X l.1.

(** The part of the logical unit that says which locks it wants. *)
Definition same_locks (l l' : L) (k : level) : Prop :=
  needed_locks e l' k = needed_locks e l k ∧ add_locks e l' k = add_locks e l k ∧
  share_locks e l' k = share_locks e l k ∧ opportunistic_locks e l' k = opportunistic_locks e l k.

(** A computation relates the worlds before and after by [R]. *)
Definition within (R : W → W → Prop) {A} (c : M St A) : Prop :=
  ∀ s r s', c s = Some (r, s') → R s.1 s'.1.

Record env_ok : Prop := {
  ok_update p req w r w' : UpdateLocksWaiting e p req w = (r, w') →
    (∀ l m, owns w l m → owns w' l m) ∧
    (∀ l m, owns w' l m → owns w l m ∨ (l, m) ∈ pend w ∨ (l, m) ∈ req) ∧
    match r with
    | Ok _ => pend w' = req ∨ pend w' = [] ∧ ∀ l m, (l, m) ∈ req → owns w' l m
    | Raise _ => pend w' = pend w ∨ pend w' = req ∨ pend w' = []
    end ∧
    unfreed w' = unfreed w;
  ok_guarded c req w r w' : GuardedOpportunisticLockUnion e c req w = (r, w') →
    (∀ l m, owns w l m → owns w' l m) ∧
    (∀ l m, owns w' l m → owns w l m ∨ (l, m) ∈ pend w ∨ (l, m) ∈ req) ∧
    (pend w' = pend w ∨ pend w' = []) ∧
    unfreed w' = unfreed w;
  ok_pending w r w' : HasPendingRequest e w = (r, w') →
    evolves w w' ∧ ∀ b, r = Ok b → b = false ↔ pend w' = [];
  (* a release that raises may have been done or not *)
  ok_free lv w r w' : FreeLocksLevel e lv w = (r, w') →
    match r with
    | Ok _ => unfreed w' = unfreed w ∧ pend w' = [] ∧
        ∀ l m, owns w' l m → l.1 ≠ lv ∧ (owns w l m ∨ (l, m) ∈ pend w)
    | Raise _ => unfreed w' = lv :: unfreed w ∧ ∀ l, reach w' l → reach w l
    end;
  ok_wait d w : evolves w (wait e d w);
  ok_nap w : evolves w (nap e w);
  ok_sighup b w : evolves w (set_sighup e b w);
  ok_outdate w : evolves w (OutDate e w);
  ok_names lv w r w' : all_names e lv w = (r, w') → evolves w w';
  ok_drop w r w' : DropECReservations e w = (r, w') → evolves w w';
  ok_executing z w : evolves w (executing e z w);
  ok_list s r s' : ListLocks e s = (r, s') → evolves s.1 s'.1 ∧ ∀ k, same_locks s.2 s'.2 k;
  (* code of the logical unit does not ask the daemon for locks itself *)
  ok_start : within (gains (λ _, False)) (NotifyStart e);
  ok_retry : within (gains (λ _, False)) (NotifyRetry e);
  ok_result v : within (gains (λ _, False)) (ProcessResult e v);
  ok_new : within (gains (λ _, False)) (new_lu e);
  ok_expand : within (gains (λ _, False)) (ExpandNames e);
  ok_declare lv : within (gains (λ _, False)) (DeclareLocks e lv);
  ok_prereq : within (gains (λ _, False)) (CheckPrereq e);
  ok_phase ph : within (gains (λ _, False)) (RunPhase e ph);
  ok_callback ph h v : within (gains (λ _, False)) (HooksCallBack e ph h v);
  ok_config : within (gains (λ _, False)) (RunConfigUpdate e);
  ok_exec : within (gains (λ _, False)) (Exec e);
  ok_prepare : within (gains (λ _, False)) (PrepareRetry e)
}.

Context (Hok : env_ok).

#[local] Instance evolves_preorder : PreOrder evolves.
Proof.
  split.
  - intros w. split_and!; auto.
  - intros w1 w2 w3 (H1 & H2 & H3 & H4) (G1 & G2 & G3 & G4). split_and!; [auto| | |congruence].
    + intros l m [?|Hp]%G2; [auto|]. destruct H3 as [E|[E _]]; rewrite E in Hp; [auto|set_solver].
    + destruct H3 as [E|[E Hg]], G3 as [E'|[E' Hg']].
      * left. congruence.
      * right. split; [done|]. intros l m Hl. apply Hg'. by rewrite E.
      * right. split; [congruence|]. eauto.
      * right. split; [congruence|]. eauto.
Qed.

#[local] Instance gains_preorder X : PreOrder (gains X).
Proof.
  split.
  - intros w. split; auto.
  - intros w1 w2 w3 [E1 H1] [E2 H2]. split; [congruence|].
    intros l [Hl|?]%H2; [by apply H1|auto].
Qed.

Lemma evolves_gains X w w' : evolves w w' → gains X w w'.
Proof.
  intros (H1 & H2 & H3 & H4). split; [done|]. intros l (m & [Ho|Hp]); left.
  - apply H2 in Ho. by exists m.
  - destruct H3 as [E|[E _]]; rewrite E in Hp; [exists m; auto|set_solver].
Qed.

Lemma gains_weaken (X Y : level → Prop) w w' : (∀ k, X k → Y k) → gains X w w' → gains Y w w'.
Proof. intros HXY [E Hg]. split; [done|]. intros l [?|?]%Hg; auto. Qed.

(** ** Composition *)

Section within.
  Context (R : W → W → Prop) `{!PreOrder R}.

Lemma within_ret {A} (a : A) : within R (ret a).
Proof. by intros s r s' [= <- <-]. Qed.
Lemma within_raise {A} x : within R (raise x : M St A).
Proof. by intros s r s' [= <- <-]. Qed.
Lemma within_gets {A} (f : St → A) : within R (gets f).
Proof. by intros s r s' [= <- <-]. Qed.
Lemma within_modify f : (∀ w, R w (f w)) → within R (modify f : M St unit).
Proof. intros Hf s r s' [= <- <-]. simpl. apply Hf. Qed.
Lemma within_world {A} (f : W → exc A * W) :
  (∀ w r w', f w = (r, w') → R w w') → within R (world f : M St A).
Proof. intros Hf s r s'. unfold world. destruct (f s.1) as [x w'] eqn:E. intros [= <- <-]. by eapply Hf. Qed.
Lemma within_bind {A B} (c : M St A) (k : A → M St B) :
  within R c → (∀ a, within R (k a)) → within R (bind c k).
Proof.
  intros Hc Hk s r s'. unfold bind. destruct (c s) as [[[a|x] s1]|] eqn:E; [|by intros [= <- <-]; eapply Hc|done].
  intros Hs. etrans; [by eapply Hc|by eapply Hk].
Qed.
Lemma within_catch {A} (c : M St A) h :
  within R c → (∀ x, within R (h x)) → within R (catch c h).
Proof.
  intros Hc Hh s r s'. unfold catch. destruct (c s) as [[[a|x] s1]|] eqn:E; [by intros [= <- <-]; eapply Hc| |done].
  intros Hs. etrans; [by eapply Hc|by eapply Hh].
Qed.
Lemma within_finally {A} (c : M St A) f : within R c → within R f → within R (finally c f).
Proof.
  intros Hc Hf s r s'. unfold finally. destruct (c s) as [[r1 s1]|] eqn:E; [|done].
  destruct (f s1) as [[[]  s2]|] eqn:E2; intros [= <- <-]; (etrans; [by eapply Hc|by eapply Hf]).
Qed.
Lemma within_simple_retry {A} (expected : A → bool) fn fuel d t :
  (∀ w, R w (fn w).2) → (∀ d w, R w (wait e d w)) → within R (simple_retry e expected fn fuel d t).
Proof.
  intros Hfn Hw s r s'. unfold simple_retry.
  destruct (SimpleRetry _ _ _ _ _ _ _ _) as [[r1 w1]|] eqn:E; [|done].
  apply (SimpleRetry_spec _ _ _ _ R Hfn Hw) in E as [HR _].
  by destruct r1; intros [= <- <-].
Qed.
End within.

Lemma within_weaken {A} (R R' : W → W → Prop) (c : M St A) :
  (∀ w w', R w w' → R' w w') → within R c → within R' c.
Proof. intros HR Hc s r s' Hs. by eapply HR, Hc. Qed.

Lemma within_gains {A} (X : level → Prop) (c : M St A) :
  within (gains (λ _, False)) c → within (gains X) c.
Proof. apply within_weaken. intros w w'. apply gains_weaken. tauto. Qed.

(** ** Release *)

Ltac walk :=
  repeat match goal with
  | |- within _ (ret _) => apply within_ret, _
  | |- within _ (raise _) => apply within_raise, _
  | |- within _ (gets _) => apply within_gets, _
  | |- within _ (lu_get _) => apply within_gets, _
  | |- within _ (bind _ _) => apply within_bind; [apply _| |intros ?]
  | |- within _ (catch _ _) => apply within_catch; [apply _| |intros ?]
  | |- within _ (finally _ _) => apply within_finally; [apply _| |]
  | |- within _ (match ?x with _ => _ end) => destruct x eqn:?
  end.

Lemma modify_gains X f : (∀ w, evolves w (f w)) → within (gains X) (modify f : M St unit).
Proof. intros Hf. apply within_modify. intros w. by apply evolves_gains. Qed.

Lemma world_gains {A} X (f : W → exc A * W) :
  (∀ w r w', f w = (r, w') → evolves w w') → within (gains X) (world f : M St A).
Proof. intros Hf. apply within_world. intros w r w' E. by eapply evolves_gains, Hf. Qed.

Lemma list_gains X : within (gains X) (list_locks e).
Proof.
  intros s r s'. unfold list_locks. destruct (ListLocks e s) as [r1 s1] eqn:E. intros [= _ <-].
  apply evolves_gains. by apply (ok_list Hok) in E as [? _].
Qed.

Lemma priority_gains X : within (gains X) (priority e).
Proof. by intros s r s' [= <- <-]. Qed.

Lemma update_gains (X : level → Prop) p req :
  (∀ l m, (l, m) ∈ req → X l.1) → within (gains X) (world (UpdateLocksWaiting e p req)).
Proof.
  intros HX. apply within_world. intros w r w' Hu.
  apply (ok_update Hok) in Hu as (_ & Ho & Hp & Hu). split; [done|]. intros l (m & [Hl|Hl]).
  - apply Ho in Hl as [?|[?|?]]; [left; exists m; auto..|right; by eapply HX].
  - destruct r; destruct_or?; [..]; destruct_and?;
      repeat match goal with E : pend w' = _ |- _ => rewrite E in Hl; clear E end.
    all: try (right; by eapply HX); try set_solver.
    left. exists m. auto.
Qed.

Lemma pending_gains X : within (gains X) (world (HasPendingRequest e)).
Proof.
  apply within_world. intros w r w' Hp. apply evolves_gains. by apply (ok_pending Hok) in Hp as [? _].
Qed.

Lemma HasPending_evolves w : evolves w (HasPending e w).2.
Proof.
  unfold HasPending. destruct (sighup e w); [|reflexivity].
  destruct (HasPendingRequest e w) as [[b|x] w'] eqn:E; by apply (ok_pending Hok) in E as [? _].
Qed.

Lemma RequestAndWait_gains (X : level → Prop) fuel req t :
  (∀ l m, (l, m) ∈ req → X l.1) → within (gains X) (RequestAndWait e fuel req t).
Proof.
  intros HX. unfold RequestAndWait. walk.
  - apply priority_gains.
  - apply modify_gains, (ok_sighup Hok).
  - by apply update_gains.
  - apply pending_gains.
  - apply within_simple_retry; [apply _|..].
    + intros w. apply evolves_gains, HasPending_evolves.
    + intros d w. apply evolves_gains, (ok_wait Hok).
  - apply pending_gains.
  - apply modify_gains, (ok_sighup Hok).
Qed.

Lemma wait_granted_gains X fuel : within (gains X) (wait_granted e fuel).
Proof.
  induction fuel as [|fuel IH]; [by intros s r s'|]. simpl. walk.
  - apply pending_gains.
  - apply modify_gains, (ok_nap Hok).
  - apply IH.
Qed.

Lemma definite_gains (X : level → Prop) fuel p req :
  (∀ l m, (l, m) ∈ req → X l.1) → within (gains X) (definite e fuel p req).
Proof.
  induction req as [|[l m] req IH]; intros HX; simpl; [apply within_ret, _|]. walk.
  - apply update_gains. intros l' m' [= -> ->]%list_elem_of_singleton. eapply HX. left.
  - apply wait_granted_gains.
  - apply IH. intros l' m' Hl. eapply HX. by right.
Qed.

Lemma make_request_level lv ns sh l m : (l, m) ∈ make_request lv ns sh → l.1 = lv.
Proof. unfold make_request. intros (n & [= -> ->] & _)%list_elem_of_fmap. done. Qed.

Lemma guarded_gains (X : level → Prop) c req w r w' :
  (∀ l m, (l, m) ∈ req → X l.1) → GuardedOpportunisticLockUnion e c req w = (r, w') → gains X w w'.
Proof.
  intros HX E. apply (ok_guarded Hok) in E as (_ & Ho & Hp & Hu). split; [done|].
  intros l (m & [Hl|Hl]).
  - apply Ho in Hl as [?|[?|?]]; [left; exists m; auto..|right; by eapply HX].
  - left. destruct Hp as [Ep|Ep]; rewrite Ep in Hl; [exists m; auto|set_solver].
Qed.

Lemma AcquireLocks_gains enable_locks fuel lv ns sh opp t count only (X : level → Prop) :
  X lv → within (gains X) (AcquireLocks e enable_locks fuel lv ns sh opp t count only).
Proof.
  intros HX. assert (∀ ns l m, (l, m) ∈ make_request lv ns sh → X l.1) as Hreq.
  { intros ns' l m ->%make_request_level. done. }
  unfold AcquireLocks, CheckLocksEnabled. walk.
  all: try (apply priority_gains).
  all: try (by apply world_gains, (ok_names Hok)).
  all: try (apply modify_gains, (ok_outdate Hok)).
  all: try (apply definite_gains, Hreq).
  all: try (apply RequestAndWait_gains, Hreq).
  all: apply within_simple_retry; [apply _| |intros; apply evolves_gains, (ok_wait Hok)].
  all: intros w; destruct (GuardedOpportunisticLockUnion _ _ _ _) as [[x|x] w'] eqn:E; simpl;
    (eapply guarded_gains; [apply Hreq|exact E]).
Qed.

Lemma flush_gains (X : level → Prop) fuel pending :
  (∀ l m, (l, m) ∈ pending → X l.1) → within (gains X) (flush e calc_timeout fuel pending).
Proof.
  intros HX. unfold flush, timeout_now. destruct pending as [|r pending]; [apply within_ret, _|]. walk.
  - by apply RequestAndWait_gains.
  - apply modify_gains, (ok_outdate Hok).
  - apply list_gains.
Qed.

(** A computation that releases locks: it gains at most locks of the levels [X]
    and of the levels [ks] whose release raised, and returns only when there are
    none of these. *)
Definition leaves (X : level → Prop) {A} (c : M St A) : Prop :=
  ∀ s r s', c s = Some (r, s') → ∃ ks, unfreed s'.1 = ks ++ unfreed s.1 ∧
    (∀ l, reach s'.1 l → reach s.1 l ∨ X l.1 ∨ l.1 ∈ ks) ∧ ∀ v, r = Ok v → ks = [].

Lemma gains_leaves {A} X (c : M St A) : within (gains X) c → leaves X c.
Proof. intros Hc s r s' [E Hl]%Hc. exists []. split_and!; [done| |done]. naive_solver. Qed.

Lemma leaves_weaken {A} (X Y : level → Prop) (c : M St A) :
  (∀ k, X k → Y k) → leaves X c → leaves Y c.
Proof.
  intros HXY Hc s r s' (ks & E & Hl & Hv)%Hc. exists ks. split_and!; [done| |done].
  intros l [?|[?|?]]%Hl; auto.
Qed.

Lemma leaves_bind_val {A B} X (c : M St A) (k : A → M St B) :
  within (gains X) c → (∀ s a s1, c s = Some (Ok a, s1) → leaves X (k a)) → leaves X (bind c k).
Proof.
  intros Hc Hk s r s'. unfold bind. destruct (c s) as [[[a|x] s1]|] eqn:Ec; [| |done].
  - intros Hs. apply (Hk _ _ _ Ec) in Hs as (ks & E & Hl & Hv). apply Hc in Ec as [E1 H1].
    exists ks. split_and!; [congruence| |done]. intros l [?%H1|?]%Hl; tauto.
  - intros [= <- <-]. apply (gains_leaves X c Hc) in Ec as (ks & E & Hl & _). simpl in *.
    by exists ks.
Qed.

Lemma leaves_bind {A B} X (c : M St A) (k : A → M St B) :
  within (gains X) c → (∀ a, leaves X (k a)) → leaves X (bind c k).
Proof. intros Hc Hk. by apply leaves_bind_val. Qed.

Lemma leaves_finally {A} X (c : M St A) f :
  leaves X c → within (gains X) f → leaves X (finally c f).
Proof.
  intros Hc Hf s r s'. unfold finally. destruct (c s) as [[r1 s1]|] eqn:Ec; [|done].
  apply Hc in Ec as (ks & E & Hl & Hv).
  destruct (f s1) as [[r2 s2]|] eqn:Ef; [|done]. apply Hf in Ef as [E2 H2].
  intros Hs. exists ks.
  assert (s' = s2) as -> by (destruct r2; by injection Hs).
  split_and!; [congruence|intros l [?%Hl|?]%H2; tauto|].
  intros v ->. destruct r2; [|done]. injection Hs as ->. eauto.
Qed.

(** The locks of a level and the pending request are gone after freeing. *)
Lemma finally_free {A} (X : level → Prop) (c : M St A) lv s r s' :
  leaves (λ k, X k ∨ k = lv) c →
  finally c (world (FreeLocksLevel e lv)) s = Some (r, s') →
  ∃ ks, unfreed s'.1 = ks ++ unfreed s.1 ∧
    (∀ l, reach s'.1 l → l.1 ≠ lv ∧ (reach s.1 l ∨ X l.1) ∨ l.1 ∈ ks) ∧ ∀ v, r = Ok v → ks = [].
Proof.
  intros Hc. unfold finally, world. destruct (c s) as [[r1 s1]|] eqn:Ec; [|done].
  apply Hc in Ec as (ks & E & Hl & Hv).
  destruct (FreeLocksLevel e lv s1.1) as [[u|x] w] eqn:Ef; apply (ok_free Hok) in Ef; intros [= <- <-]; simpl.
  - destruct Ef as (E1 & Hp & Ho). exists ks. split_and!; [congruence| |done].
    intros l (m & [Hm|Hm]); [|rewrite Hp in Hm; set_solver]. apply Ho in Hm as [Hne Hm].
    destruct (Hl l) as [?|[[?|?]|?]]; [by exists m|tauto..].
  - destruct Ef as [E1 Ho]. exists (lv :: ks). split_and!; [simpl; congruence| |done].
    intros l Hr%Ho. destruct (decide (l.1 = lv)) as [->|Hne]; [right; by left|].
    destruct (Hl l Hr) as [?|[[?|?]|?]]; [tauto..|]. right. by right.
Qed.

Lemma finally_free_leaves {A} (X : level → Prop) (c : M St A) lv :
  leaves (λ k, X k ∨ k = lv) c → leaves X (finally c (world (FreeLocksLevel e lv))).
Proof.
  intros Hc s r s' (ks & E & Hl & Hv)%(finally_free _ _ _ _ _ _ Hc). exists ks.
  split_and!; [done| |done]. intros l Hr%Hl. tauto.
Qed.

Lemma ExecLU_gains : within (gains (λ _, False)) (ExecLU e).
Proof.
  unfold ExecLU. walk.
  - apply modify_gains, (ok_outdate Hok).
  - apply (ok_prereq Hok).
  - apply (ok_phase Hok).
  - apply (ok_callback Hok).
  - apply modify_gains, (ok_executing Hok).
  - apply (ok_exec Hok).
  - apply (ok_result Hok).
  - apply (ok_phase Hok).
  - apply (ok_callback Hok).
  - apply modify_gains, (ok_executing Hok).
  - apply (ok_config Hok).
Qed.

Lemma exec_with_locks_gains X body :
  within (gains (λ _, False)) body → within (gains X) (exec_with_locks e body).
Proof.
  intros Hb. unfold exec_with_locks. walk.
  all: try (apply within_gains, (ok_start Hok)).
  all: try (by apply within_gains).
  all: try (apply within_gains, (ok_prepare Hok)).
  all: try (apply within_gains, (ok_retry Hok)).
Qed.

Definition levels_of (req : list request) (k : level) : Prop := ∃ n m, (k, n, m) ∈ req.

Lemma levels_of_elem req l m : (l, m) ∈ req → levels_of req l.1.
Proof. destruct l as [k n]. by exists n, m. Qed.

Lemma flush_gains' (X : level → Prop) (b : bool) fuel pending :
  (∀ k, levels_of pending k → X k) →
  within (gains X) (if b then flush e calc_timeout fuel pending else ret tt).
Proof.
  intros HX. destruct b; [|apply within_ret, _]. apply flush_gains.
  intros l m Hl. by eapply HX, levels_of_elem.
Qed.

(** A request that is only made up. *)
Lemma AcquireLocks_request enable_locks fuel lv ns sh t s req s1 :
  AcquireLocks e enable_locks fuel lv ns sh false t 1 true s = Some (Ok req, s1) →
  s1 = s ∧ req = make_request lv (default [LOCKSET_NAME] ns) sh.
Proof.
  unfold AcquireLocks, CheckLocksEnabled, priority. destruct enable_locks; [|done]. unfold bind; cbn.
  destruct (if has_cbs e then _ else _); [|done].
  destruct ns as [[|n ns]|]; cbn; by intros [= <- <-].
Qed.

Lemma acquire_now_leaves enable_locks fuel lv needed share count opp t pending
    (next : list request → M St V) (X : level → Prop) :
  X lv → (∀ k, levels_of pending k → X k) → leaves (levels_of []) (next []) →
  leaves X (
    flush e calc_timeout fuel pending ;;
    AcquireLocks e enable_locks fuel lv needed share opp t count false ;;
    list_locks e ;; next []).
Proof.
  intros Hlv HX Hnext. apply leaves_bind; [|intros _].
  { apply flush_gains. intros l m Hl. by eapply HX, levels_of_elem. }
  apply leaves_bind; [by apply AcquireLocks_gains|intros _].
  apply leaves_bind; [apply list_gains|intros _].
  eapply leaves_weaken; [|apply Hnext]. intros k (n & m & Hin). set_solver.
Qed.

Lemma acquire_level_leaves enable_locks fuel lv adding acquiring opp pending next (X : level → Prop) :
  (∀ k, levels_of pending k → X k) →
  (∀ pending', leaves (levels_of pending') (next pending')) →
  leaves X (acquire_level e enable_locks calc_timeout fuel lv adding acquiring opp pending next).
Proof.
  intros HX Hnext. unfold acquire_level.
  apply leaves_bind; [unfold CheckLocksEnabled; walk|intros _].
  apply leaves_bind; [apply within_gains, (ok_declare Hok)|intros _].
  do 2 (apply leaves_bind; [apply within_gets, _|intros ?]).
  apply finally_free_leaves.
  do 2 (apply leaves_bind; [apply within_gets, _|intros ?]).
  apply leaves_bind; [unfold names_for; walk|intros needed].
  apply leaves_bind; [apply within_gets, _|intros t].
  pose proof (acquire_now_leaves enable_locks fuel lv needed a a0 opp t pending next
    (λ k, X k ∨ k = lv) (or_intror eq_refl) (λ k Hk, or_introl (HX k Hk)) (Hnext [])) as Hnow.
  destruct t as [t|]; [|exact Hnow]. destruct opp; [exact Hnow|].
  apply leaves_bind_val; [apply AcquireLocks_gains; by right|].
  intros s req s1 [_ ->]%AcquireLocks_request.
  eapply leaves_weaken; [|apply Hnext].
  intros k (n & m & [Hin|Hin]%elem_of_app); [left; apply HX; by exists n, m|right].
  by apply make_request_level in Hin.
Qed.

Lemma LockAndExecLU_leaves enable_locks fuel body levels : within (gains (λ _, False)) body → ∀ pending,
  leaves (levels_of pending) (LockAndExecLU e enable_locks calc_timeout fuel body levels pending).
Proof.
  intros Hb. induction levels as [|lv levels IH]; intros pending; cbn [LockAndExecLU].
  { apply leaves_bind; [|intros _; by apply gains_leaves, exec_with_locks_gains].
    apply flush_gains. apply levels_of_elem. }
  do 4 (apply leaves_bind; [apply within_gets, _|intros ?]).
  apply leaves_bind; [by apply flush_gains'|intros _].
  set (pending' := if a2 then [] else pending).
  assert (∀ k, levels_of pending' k → levels_of pending k) as Hsub.
  { intros k. unfold pending'. destruct a2; [|done]. intros (n & m & Hin). set_solver. }
  assert (leaves (levels_of pending)
    (acquire_level e enable_locks calc_timeout fuel lv a a0 a1 pending'
       (LockAndExecLU e enable_locks calc_timeout fuel body levels))) as Hacq
    by by apply acquire_level_leaves.
  assert (∀ x, leaves (levels_of pending) (raise x : M St V)) as Hraise
    by (intros x; by apply gains_leaves, within_raise, _).
  destruct a as [na|], a0 as [nn|]; repeat case_match; auto.
  by eapply leaves_weaken, IH.
Qed.

Lemma exec_opcode_leaves (enable_locks : bool) fuel :
  leaves (λ lv, False ∨ lv = LEVEL_CLUSTER) (
    (if enable_locks then
       t <- timeout_now calc_timeout ;;
       AcquireLocks e enable_locks fuel LEVEL_CLUSTER (Some [BGL]) (negb (REQ_BGL e)) false t 1 false ;;
       ret tt
     else if REQ_BGL e then raise (Failed (GntExn ProgrammerError [])) else ret tt) ;;
    new_lu e ;;
    list_locks e ;;
    (if secrets_redacted e then raise (Failed (GntExn OpPrereqError [VStr ""; VStr "wrong_input"]))
     else ret tt) ;;
    ExpandNames e ;;
    ok <- lu_get (needed_locks_set e) ;;
    (if ok : bool then ret tt else raise (Failed AssertionFailed)) ;;
    finally (LockAndExecLU e enable_locks calc_timeout fuel (ExecLU e) (seq 1 5) [])
      (world (DropECReservations e))).
Proof.
  apply leaves_bind; [unfold timeout_now; walk; by apply AcquireLocks_gains; right|intros _].
  apply leaves_bind; [apply within_gains, (ok_new Hok)|intros _].
  apply leaves_bind; [apply list_gains|intros _].
  apply leaves_bind; [walk|intros _].
  apply leaves_bind; [apply within_gains, (ok_expand Hok)|intros _].
  apply leaves_bind; [apply within_gets, _|intros ok].
  apply leaves_bind; [walk|intros _].
  apply leaves_finally; [|by apply world_gains, (ok_drop Hok)].
  eapply leaves_weaken; [|apply (LockAndExecLU_leaves _ _ _ _ ExecLU_gains)].
  intros k (n & m & Hin). set_solver.
Qed.

End props.

(** ** A daemon that grants what is asked for *)

Module ProcessorDemo.

(** The locks that the opcode owns, its pending request, and the failed
    releases. *)
Definition W : Type := list request * list request * list level.
Definition owns (w : W) (l : level * str) (m : bool) : Prop := (l, m) ∈ w.1.1.
Definition pend (w : W) : list request := w.1.2.
Definition unfreed (w : W) : list level := w.2.

(** The logical unit wants an instance exclusively and two nodes shared; its
    result is the locks it has when it runs.  The daemon does not answer a
    release of the levels [broken]. *)
Definition demo_with (broken : list level) : env W unit (list request) unit := {|
  UpdateLocksWaiting _ req w := (Ok tt, (w.1.1, req, w.2));
  HasPendingRequest w := (Ok false, (w.1.1 ++ w.1.2, [], w.2));
  GuardedOpportunisticLockUnion _ _ w := (Ok [], w);
  FreeLocksLevel lv w :=
    if decide (lv ∈ broken) then (Raise (GntExn GenericError []), (w.1, lv :: w.2))
    else (Ok tt, (filter (λ r : request, r.1.1 ≠ lv) w.1.1, [], w.2));
  ListLocks s := (Ok tt, s);
  time _ := 0%Q;
  wait _ w := w;
  nap w := w;
  sighup _ := false;
  set_sighup _ w := w;
  OutDate w := w;
  all_names _ w := (Ok [], w);
  write_count _ := 0%Z;
  DropECReservations w := (Ok tt, w);
  has_cbs := true;
  CurrentPriority _ := Ok None;
  NotifyStart := ret tt;
  NotifyRetry := ret tt;
  ProcessResult v := ret v;
  REQ_BGL := false;
  new_lu := ret tt;
  ExpandNames := ret tt;
  DeclareLocks _ := ret tt;
  secrets_redacted := false;
  needed_locks_set _ := true;
  needed_locks _ lv :=
    match lv with
    | 1 => Some (OneName (lit "inst1"))
    | 3 => Some (Names [lit "node2"; lit "node1"])
    | _ => None
    end;
  add_locks _ _ := None;
  share_locks _ lv := lv =? 3;
  opportunistic_locks _ _ := false;
  opportunistic_locks_count _ _ := 1%Z;
  dont_collate_locks _ _ := false;
  CheckPrereq := ret tt;
  RunPhase _ := ret tt;
  HooksCallBack _ _ v := ret (default [] v);
  RunConfigUpdate := ret tt;
  dry_run _ := false;
  dry_run_result _ := [];
  Exec := gets (λ s, s.1.1.1);
  PrepareRetry := ret tt;
  executing _ w := w;
  result_ok _ := true
|}.

Notation demo := (demo_with []).

Lemma evolves_same w : evolves owns pend unfreed w w.
Proof. split_and!; auto. Qed.

Lemma within_same {A} (R : W → W → Prop) (c : M (W * unit) A) :
  (∀ w, R w w) → (∀ s r s', c s = Some (r, s') → s' = s) → within R c.
Proof. intros HR Hc s r s' E. by rewrite (Hc _ _ _ E). Qed.

Lemma demo_ok broken : env_ok (demo_with broken) owns pend unfreed.
Proof.
  split.
  all: try (intros; apply evolves_same).
  all: try (intros; apply within_same; [intros w; split; [done|tauto]|by intros s r s' [= <- <-]]).
  - intros p req w r w' [= <- <-]. unfold owns, pend. simpl. split_and!; auto.
  - intros c req w r w' [= <- <-]. unfold owns, pend. split_and!; auto.
  - intros w r w' [= <- <-]. unfold evolves, owns, pend. simpl. split; [|by intros b [= <-]].
    split_and!; [set_solver|set_solver| |done]. right. split; [done|set_solver].
  - intros lv w r w'. cbn. case_decide; intros [= <- <-]; [done|]. split_and!; [done..|].
    unfold owns. simpl. intros l m [Hl Hm]%list_elem_of_filter. auto.
  - intros lv w r w' [= <- <-]. apply evolves_same.
  - intros w r w' [= <- <-]. apply evolves_same.
  - intros s r s' [= <- <-]. split; [apply evolves_same|]. by intros k.
Qed.

(** With these locks the unit runs, and none is left. *)
Lemma demo_exec :
  ExecOpCode demo true (λ _, Some 10%Q) 5 (([], [], []), tt) =
  Some (Ok [(0, BGL, true); (1, lit "inst1", false); (3, lit "node1", true); (3, lit "node2", true)],
        (([], [], []), tt)).
Proof. vm_compute. reflexivity. Qed.

(** When the release of the nodes raises, they stay locked, the other locks are
    released all the same, and the error is what [ExecOpCode] ends with. *)
Lemma release_raises :
  ExecOpCode (demo_with [3]) true (λ _, Some 10%Q) 5 (([], [], []), tt) =
  Some (Raise (Failed (GntExn GenericError [])),
        (([(3, lit "node1", true); (3, lit "node2", true)], [], [3]), tt)).
Proof. vm_compute. reflexivity. Qed.

End ProcessorDemo.
