(* ===== verification/ProcessorHeld.v ===== *)
(** * The logical unit runs with its locks

    The body of a logical unit is reached only when every lock that the unit
    needs or adds (opportunistic levels apart) is owned in the mode it wants, and
    no request is pending. *)

From Stdlib Require Import QArith.
From S2P Require Import Prelude Errors PySort PyStr Mcpu Retry Processor ProcessorProps.
#[local] Open Scope list_scope.
#[local] Open Scope stdpp_scope.
#[local] Open Scope proc_scope.
#[local] Open Scope nat_scope.

Section held.
  Context {W L V H : Type} (e : env W L V H) (calc_timeout : W → option Q).
  Notation St := (W * L)%type.
  Context (owns : W → level * str → bool → Prop) (pend : W → list request).
  Context (unfreed : W → list level) (Hok : env_ok e owns pend unfreed).
  Notation evolves := (evolves owns pend unfreed).

(** [DeclareLocks] settles the locks of its level and nothing else. *)
Definition declares (lv : level) (s s' : St) : Prop :=
  evolves s.1 s'.1 ∧
  (∀ k, k ≠ lv → same_locks e s.2 s'.2 k) ∧
  (is_Some (needed_locks e s'.2 lv) → is_Some (needed_locks e s.2 lv)) ∧
  (is_Some (add_locks e s'.2 lv) → is_Some (add_locks e s.2 lv)) ∧
  opportunistic_locks e s'.2 lv = opportunistic_locks e s.2 lv.

Record lu_disciplined : Prop := {
  ld_declare lv s s' : DeclareLocks e lv s = Some (Ok tt, s') → declares lv s s';
  ld_start s s' : NotifyStart e s = Some (Ok tt, s') →
    evolves s.1 s'.1 ∧ ∀ k, same_locks e s.2 s'.2 k
}.

Context (Hlu : lu_disciplined).

(** The lock [x] of a level is one the logical unit needs or adds. *)
Definition wants (l : L) (lv : level) (x : str) : Prop :=
  ∃ n, (needed_locks e l lv = Some n ∨ add_locks e l lv = Some n) ∧
       x ∈ default [LOCKSET_NAME] (LockList n).

(** All wanted locks of the levels are owned, or in [pending]. *)
Definition asked (levels : list level) (pending : list request) (s : St) : Prop :=
  pend s.1 = [] ∧
  ∀ lv x, lv ∈ levels → opportunistic_locks e s.2 lv = false → wants s.2 lv x →
    owns s.1 (lv, x) (share_locks e s.2 lv) ∨ (lv, x, share_locks e s.2 lv) ∈ pending.

(** Owned locks stay, and no request appears. *)
Definition keeps (w w' : W) : Prop :=
  (∀ l m, owns w l m → owns w' l m) ∧ (pend w = [] → pend w' = []).

#[local] Instance keeps_preorder : PreOrder keeps.
Proof.
  split.
  - intros w. split; auto.
  - intros w1 w2 w3 [H1 H2] [G1 G2]. split; auto.
Qed.

#[local] Instance evolves_order : PreOrder evolves := evolves_preorder e owns pend unfreed Hok.

Lemma evolves_keeps w w' : evolves w w' → keeps w w'.
Proof. intros (H1 & _ & H3 & _). split; [done|]. intros E. destruct H3 as [->|[-> _]]; [done|done]. Qed.

Lemma same_locks_wants l l' k x : same_locks e l l' k → wants l' k x → wants l k x.
Proof. intros (E1 & E2 & _) (n & Hn & Hx). rewrite E1, E2 in Hn. by exists n. Qed.

Lemma asked_keeps levels pending s s' :
  asked levels pending s → keeps s.1 s'.1 → (∀ k, k ∈ levels → same_locks e s.2 s'.2 k) →
  asked levels pending s'.
Proof.
  intros [Hp Ha] [Hk1 Hk2] Hs. split; [auto|]. intros lv x Hlv Ho Hw.
  pose proof (Hs lv Hlv) as Hsl. pose proof Hsl as (_ & _ & E3 & E4). rewrite E3.
  destruct (Ha lv x Hlv) as [?|?]; [congruence|by eapply same_locks_wants|auto..].
Qed.

(** ** Requests that return have been granted *)

Section request.
  Context (w0 : W) (req : list request).

(** The request has been made since [w0]. *)
Definition requested (w : W) : Prop :=
  (∀ l m, owns w0 l m → owns w l m) ∧
  (pend w = req ∨ pend w = [] ∧ ∀ l m, (l, m) ∈ req → owns w l m).

Definition granted (w : W) : Prop :=
  (∀ l m, owns w0 l m → owns w l m) ∧ pend w = [] ∧ ∀ l m, (l, m) ∈ req → owns w l m.

Lemma requested_evolves w w' : requested w → evolves w w' → requested w'.
Proof.
  intros [H1 H2] (G1 & G2 & G3 & _). split; [auto|].
  destruct H2 as [E|[E Hg]], G3 as [E'|[E' Hg']].
  - left. congruence.
  - right. split; [done|]. intros l m Hl. apply Hg'. by rewrite E.
  - right. split; [congruence|auto].
  - right. split; [done|auto].
Qed.

Lemma requested_granted w : requested w → pend w = [] → granted w.
Proof.
  intros [H1 [E|[_ Hg]]] Hp; (split; [done|]); (split; [done|]); [|done].
  rewrite <-E, Hp. set_solver.
Qed.

Lemma granted_evolves w w' : granted w → evolves w w' → granted w'.
Proof.
  intros (H1 & H2 & H3) Hev. pose proof (evolves_keeps _ _ Hev) as [G1 G2]. split_and!; auto.
Qed.
End request.

Lemma requested_update p req w u w' :
  UpdateLocksWaiting e p req w = (Ok u, w') → requested w req w'.
Proof. intros E. apply (ok_update _ _ _ _ Hok) in E as (H1 & _ & H3 & _). by split. Qed.

Lemma world_Ok {A} (f : W → exc A * W) (s : St) a s' :
  world f s = Some (Ok a, s') → f s.1 = (Ok a, s'.1) ∧ s'.2 = s.2.
Proof. unfold world. destruct (f s.1) as [[a'|x] w']; by intros [= <- <-]. Qed.

Lemma bind_Ok {A B} (c : M St A) (k : A → M St B) s b s' :
  bind c k s = Some (Ok b, s') → ∃ a s1, c s = Some (Ok a, s1) ∧ k a s1 = Some (Ok b, s').
Proof. unfold bind. destruct (c s) as [[[a|x] s1]|]; [eauto|done..]. Qed.

Lemma priority_Ok (s : St) p s' : priority e s = Some (Ok p, s') → s' = s.
Proof. by intros [= _ <-]. Qed.

Lemma list_locks_Ok (s : St) u s' :
  list_locks e s = Some (Ok u, s') → evolves s.1 s'.1 ∧ ∀ k, same_locks e s.2 s'.2 k.
Proof.
  unfold list_locks. destruct (ListLocks e s) as [r s1] eqn:E. intros [= _ <-].
  by apply (ok_list _ _ _ _ Hok) in E.
Qed.

Lemma pending_false req w1 w w' :
  requested w1 req w → HasPendingRequest e w = (Ok false, w') → granted w1 req w'.
Proof.
  intros Hr Hp. apply (ok_pending _ _ _ _ Hok) in Hp as [Hev Hb].
  apply requested_granted; [by eapply requested_evolves|]. by apply (Hb false eq_refl).
Qed.

Lemma RequestAndWait_granted fuel req t s s' :
  RequestAndWait e fuel req t s = Some (Ok tt, s') →
  granted s.1 req s'.1 ∧ s'.2 = s.2.
Proof.
  unfold RequestAndWait. intros (prio & s1 & ->%priority_Ok & Hs)%bind_Ok.
  apply bind_Ok in Hs as (u & s2 & [= <- <-] & Hs).
  apply bind_Ok in Hs as (u2 & s3 & Hu & Hs). apply world_Ok in Hu as [Hu E3]. simpl in Hu, E3.
  assert (requested s.1 req s3.1) as Hr.
  { apply requested_update in Hu as [H1 H2]. split; [|done]. intros l m Ho. apply H1.
    by apply (ok_sighup _ _ _ _ Hok false s.1). }
  apply bind_Ok in Hs as (b & s4 & Hp & Hs). apply world_Ok in Hp as [Hp E4].
  apply bind_Ok in Hs as (b2 & s5 & Hb & Hs). destruct b2; [done|]. injection Hs as <-.
  destruct b.
  - assert (requested s.1 req s4.1) as Hr4.
    { eapply requested_evolves; [exact Hr|]. by apply (ok_pending _ _ _ _ Hok) in Hp as [? _]. }
    apply bind_Ok in Hb as (b3 & s6 & Hret & Hb).
    apply bind_Ok in Hb as (b4 & s7 & Hb4 & Hb). apply bind_Ok in Hb as (u5 & s8 & [= <- <-] & [= -> <-]).
    assert (granted s.1 req s7.1 ∧ s7.2 = s.2) as [Hg7 E7].
    2: { split; [|done]. eapply granted_evolves; [exact Hg7|]. simpl. apply (ok_sighup _ _ _ _ Hok). }
    destruct t as [t|]; [|done]. unfold simple_retry in Hret.
    destruct (SimpleRetry _ _ _ _ _ _ _ _) as [[r6 w6]|] eqn:Er; [|done].
    apply (SimpleRetry_spec _ _ _ _ evolves) in Er as [Hev Hjust].
    2: { intros w. by apply (HasPending_evolves e owns pend unfreed Hok). }
    2: { intros d w. apply (ok_wait _ _ _ _ Hok). }
    destruct r6 as [v|?|?]; try done. injection Hret as -> <-. simpl in *.
    assert (s4.2 = s.2) as E42 by congruence.
    destruct b3; simpl in Hb4.
    + apply world_Ok in Hb4 as [Hp7 E7]. simpl in Hp7, E7. split; [|congruence].
      eapply pending_false; [|exact Hp7]. by eapply requested_evolves.
    + injection Hb4 as <-. split; [|done]. simpl.
      destruct (Hjust false eq_refl eq_refl) as (_ & w7 & Hev7 & Hh).
      unfold HasPending in Hh. destruct (sighup e w7); [|done].
      destruct (HasPendingRequest e w7) as [[b7|x7] w8] eqn:Hp7; [|done]. injection Hh as -> ->.
      eapply pending_false; [|exact Hp7]. by eapply requested_evolves.
  - injection Hb as <-. split; [|congruence]. by eapply pending_false.
Qed.

Lemma wait_granted_granted fuel req w0 : ∀ s s',
  requested w0 req s.1 → wait_granted e fuel s = Some (Ok tt, s') →
  granted w0 req s'.1 ∧ s'.2 = s.2.
Proof.
  induction fuel as [|fuel IH]; intros s s' Hr; [done|]. cbn [wait_granted].
  intros (b & s1 & Hp & Hs)%bind_Ok. apply world_Ok in Hp as [Hp E1]. destruct b.
  - apply bind_Ok in Hs as (u & s2 & [= <- <-] & Hs).
    apply IH in Hs as [Hg E2]; [|].
    + split; [done|]. simpl in E2. congruence.
    + simpl. eapply requested_evolves; [|apply (ok_nap _ _ _ _ Hok)].
      eapply requested_evolves; [exact Hr|]. by apply (ok_pending _ _ _ _ Hok) in Hp as [? _].
  - injection Hs as <-. split; [|done]. by eapply pending_false.
Qed.

Lemma definite_granted fuel p req : ∀ s s',
  pend s.1 = [] → definite e fuel p req s = Some (Ok tt, s') →
  granted s.1 req s'.1 ∧ s'.2 = s.2.
Proof.
  induction req as [|r req IH]; intros s s' Hp; cbn [definite].
  { intros [= <-]. split; [|done]. split_and!; [auto|done|set_solver]. }
  intros (u & s1 & Hu & Hs)%bind_Ok. apply world_Ok in Hu as [Hu E1].
  apply requested_update in Hu. apply bind_Ok in Hs as (u2 & s2 & Hw & Hs). destruct u2.
  apply (wait_granted_granted _ _ _ _ _ Hu) in Hw as [(H1 & H2 & H3) E2].
  apply IH in Hs as [(G1 & G2 & G3) E3]; [|done]. split; [|congruence].
  split_and!; [auto|done|]. intros l m [E|?]%elem_of_cons; [|auto]. apply G1, H3. subst. by left.
Qed.

(** A level that is acquired in full. *)
Lemma AcquireLocks_granted enable_locks fuel lv ns sh t count s r s' :
  pend s.1 = [] →
  AcquireLocks e enable_locks fuel lv ns sh false t count false s = Some (Ok r, s') →
  granted s.1 (make_request lv (default [LOCKSET_NAME] ns) sh) s'.1 ∧ s'.2 = s.2.
Proof.
  intros Hp. unfold AcquireLocks, CheckLocksEnabled. destruct enable_locks; [|done].
  intros (u & s1 & [= <- <-] & Hs)%bind_Ok. apply bind_Ok in Hs as (p & s2 & ->%priority_Ok & Hs).
  apply bind_Ok in Hs as (ns' & s3 & Hns & Hs).
  assert (ns' = default [LOCKSET_NAME] ns ∧ s3 = s) as [-> ->].
  { destruct ns; by injection Hns as <- <-. }
  destruct (default [LOCKSET_NAME] ns) as [|n l] eqn:En.
  { injection Hs as <- <-. split; [|done]. split_and!; [auto|done|set_solver]. }
  apply bind_Ok in Hs as (u & s4 & [= <- <-] & Hs).
  assert (∀ s5, granted (OutDate e s.1) (make_request lv (n :: l) sh) s5 →
    granted s.1 (make_request lv (n :: l) sh) s5) as Hout.
  { intros w (H1 & H2 & H3). split_and!; [|done..]. intros l' m Ho. apply H1.
    by apply (ok_outdate _ _ _ _ Hok s.1). }
  assert (pend (OutDate e s.1) = []) as Hp'.
  { apply (evolves_keeps _ _ (ok_outdate _ _ _ _ Hok s.1)). done. }
  destruct t as [t|]; apply bind_Ok in Hs as (u & s6 & Hd & [= <- <-]); destruct u.
  - apply RequestAndWait_granted in Hd as [Hg E]. auto.
  - apply definite_granted in Hd as [Hg E]; auto.
Qed.

(** An opportunistic level. *)
Lemma AcquireLocks_keeps enable_locks fuel lv ns sh t count s r s' :
  pend s.1 = [] →
  AcquireLocks e enable_locks fuel lv ns sh true t count false s = Some (Ok r, s') →
  keeps s.1 s'.1 ∧ s'.2 = s.2.
Proof.
  intros Hp. unfold AcquireLocks, CheckLocksEnabled. destruct enable_locks; [|done].
  intros (u & s1 & [= <- <-] & Hs)%bind_Ok. apply bind_Ok in Hs as (p & s2 & ->%priority_Ok & Hs).
  apply bind_Ok in Hs as (ns' & s3 & Hns & Hs).
  assert (keeps s.1 s3.1 ∧ s3.2 = s.2) as [Hk3 E3].
  { destruct ns; [by injection Hns as <- <-|]. apply world_Ok in Hns as [Hns E].
    split; [|done]. by eapply evolves_keeps, (ok_names _ _ _ _ Hok). }
  assert (pend s3.1 = []) as Hp3 by by apply Hk3.
  cut (keeps s3.1 s'.1 ∧ s'.2 = s3.2); [intros [Hk4 E4]; split; [by etrans|congruence]|].
  destruct ns' as [|n l]; [by injection Hs as <- <-|].
  apply bind_Ok in Hs as (u & s4 & [= <- <-] & Hs).
  assert (keeps s3.1 (OutDate e s3.1)) as Hk0 by apply evolves_keeps, (ok_outdate _ _ _ _ Hok).
  destruct t as [t|].
  - apply bind_Ok in Hs as (locks & s5 & Hret & Hs).
    assert (s' = s5) as -> by (destruct locks; [done|]; by injection Hs).
    unfold simple_retry in Hret.
    destruct (SimpleRetry _ _ _ _ _ _ _ _) as [[r6 w6]|] eqn:Er; [|done].
    apply (SimpleRetry_spec _ _ _ _ keeps) in Er as [Hk _].
    + destruct r6; try done. injection Hret as _ <-. simpl in *. split; [by etrans|done].
    + intros w. destruct (GuardedOpportunisticLockUnion _ _ _ _) as [[x|x] w'] eqn:E; simpl;
        apply (ok_guarded _ _ _ _ Hok) in E as (H1 & _ & [Ep|Ep] & _);
        (split; [done|]); intros Hw; congruence.
    + intros d w. apply evolves_keeps, (ok_wait _ _ _ _ Hok).
  - apply bind_Ok in Hs as (u & s6 & Hd & [= <- <-]). destruct u.
    apply definite_granted in Hd as [(H1 & H2 & _) E]; [|by apply Hk0]. split; [|done].
    etrans; [exact Hk0|]. by split.
Qed.

(** ** Level by level *)

Lemma asked_flush levels fuel pending s s' :
  flush e calc_timeout fuel pending s = Some (Ok tt, s') →
  asked levels pending s → asked levels [] s' ∧ ∀ k, same_locks e s.2 s'.2 k.
Proof.
  intros Hf Ha. destruct pending as [|r pending].
  { injection Hf as <-. split; [done|]. by intros k. }
  cbn [flush] in Hf. apply bind_Ok in Hf as (t & s1 & [= <- <-] & Hf).
  apply bind_Ok in Hf as (u & s2 & Hr & Hf). destruct u.
  apply RequestAndWait_granted in Hr as [(H1 & H2 & H3) E2].
  apply bind_Ok in Hf as (u & s3 & [= <- <-] & [Hl1 Hl2]%list_locks_Ok).
  assert (asked levels [] s2) as Ha2.
  { split; [done|]. intros lv x Hlv Ho Hw. rewrite E2 in *. left.
    destruct Ha as [_ Ha]. destruct (Ha lv x Hlv Ho Hw); auto. }
  simpl in Hl2.
  split; [|by rewrite <-E2]. eapply asked_keeps; [exact Ha2| |auto]. etrans; [|by apply evolves_keeps].
  apply evolves_keeps, (ok_outdate _ _ _ _ Hok).
Qed.

Lemma asked_list levels pending s u s' :
  list_locks e s = Some (Ok u, s') → asked levels pending s → asked levels pending s'.
Proof.
  intros [Hl1 Hl2]%list_locks_Ok Ha.
  eapply asked_keeps; [exact Ha|by apply evolves_keeps|auto].
Qed.

Lemma names_for_all acq add (s : St) needed s' :
  names_for acq add s = Some (Ok needed, s') →
  s' = s ∧
  ∀ n x, acq = Some (Some n) ∨ add = Some (Some n) →
    x ∈ default [LOCKSET_NAME] (LockList n) → x ∈ default [LOCKSET_NAME] needed.
Proof.
  unfold names_for. intros (nd & s1 & Hacq & Hs)%bind_Ok.
  assert (s1 = s ∧ ∀ n, acq = Some (Some n) → nd = LockList n) as [-> Hnd].
  { destruct acq as [[n|]|]; [|done|]; injection Hacq as <- <-; naive_solver. }
  destruct add as [[n|]|]; [|done|].
  - destruct nd as [l|], (LockList n) as [l'|] eqn:En; try done. injection Hs as <- <-.
    split; [done|]. intros n' x [->|[= <-]] Hx; simpl.
    + specialize (Hnd n' eq_refl). rewrite <-Hnd in Hx. simpl in Hx. set_solver.
    + rewrite En in Hx. simpl in Hx. set_solver.
  - injection Hs as <- <-. split; [done|]. intros n' x [->|?] Hx; [|done]. by rewrite (Hnd n').
Qed.

Lemma make_request_elem lv ns sh x : x ∈ ns → (lv, x, sh) ∈ make_request lv ns sh.
Proof. intros Hx. apply list_elem_of_fmap. exists x. split; [done|]. by rewrite py_sorted_perm. Qed.

(** What a level adds once its locks have been named. *)
Lemma asked_snoc levels pending lv s :
  asked levels pending s →
  (∀ x, opportunistic_locks e s.2 lv = false → wants s.2 lv x →
     owns s.1 (lv, x) (share_locks e s.2 lv) ∨ (lv, x, share_locks e s.2 lv) ∈ pending) →
  asked (levels ++ [lv]) pending s.
Proof.
  intros [Hp Ha] Hn. split; [done|]. intros k x [Hk|E]%elem_of_app; [auto|].
  apply list_elem_of_singleton in E as ->. auto.
Qed.

Lemma bind_ext {A B} (c : M St A) (k1 k2 : A → M St B) s :
  (∀ a s1, c s = Some (Ok a, s1) → k1 a s1 = k2 a s1) → bind c k1 s = bind c k2 s.
Proof. intros Hk. unfold bind. destruct (c s) as [[[a|x] s1]|]; auto. Qed.

Lemma finally_ext {A} (c1 c2 : M St A) f s : c1 s = c2 s → finally c1 f s = finally c2 f s.
Proof. intros E. unfold finally. by rewrite E. Qed.

Lemma catch_ext {A} (c1 c2 : M St A) h s : c1 s = c2 s → catch c1 h s = catch c2 h s.
Proof. intros E. unfold catch. by rewrite E. Qed.

Lemma asked_declare levels pending lv s s' :
  lv ∉ levels → declares lv s s' → asked levels pending s → asked levels pending s'.
Proof.
  intros Hlv (Hev & Hs & _) Ha. eapply asked_keeps; [done|by apply evolves_keeps|].
  intros k Hk. apply Hs. by intros ->.
Qed.

(** The locks of a level, as named after [DeclareLocks], cover what it wants. *)
Lemma declared_wants lv s s1 needed s2 :
  declares lv s s1 →
  names_for (match needed_locks e s.2 lv with Some _ => Some (needed_locks e s1.2 lv) | None => None end)
    (match add_locks e s.2 lv with Some _ => Some (add_locks e s1.2 lv) | None => None end) s1
    = Some (Ok needed, s2) →
  s2 = s1 ∧ ∀ x, wants s1.2 lv x → x ∈ default [LOCKSET_NAME] needed.
Proof.
  intros (_ & _ & H1 & H2 & _) [-> Hn]%names_for_all. split; [done|].
  intros x (n & Hw & Hx). apply (Hn n x); [|done]. destruct Hw as [Hw|Hw]; rewrite Hw in *.
  - left. by destruct (H1 ltac:(eauto)) as [? ->].
  - right. by destruct (H2 ltac:(eauto)) as [? ->].
Qed.

Lemma request_only enable_locks fuel lv ns sh t s req s' :
  AcquireLocks e enable_locks fuel lv ns sh false t 1 true s = Some (Ok req, s') →
  s' = s ∧ req = make_request lv (default [LOCKSET_NAME] ns) sh.
Proof.
  unfold AcquireLocks, CheckLocksEnabled. destruct enable_locks; [|done].
  intros (u & s1 & [= <- <-] & Hs)%bind_Ok. apply bind_Ok in Hs as (p & s2 & ->%priority_Ok & Hs).
  apply bind_Ok in Hs as (ns' & s3 & Hns & Hs).
  assert (ns' = default [LOCKSET_NAME] ns ∧ s3 = s) as [-> ->].
  { destruct ns; by injection Hns as <- <-. }
  destruct (default [LOCKSET_NAME] ns); by injection Hs as <- <-.
Qed.

Lemma asked_collect levels pending lv s s1 ns :
  declares lv s s1 → asked levels pending s1 → (∀ x, wants s1.2 lv x → x ∈ ns) →
  asked (levels ++ [lv]) (pending ++ make_request lv ns (share_locks e s1.2 lv)) s1.
Proof.
  intros Hd [Hp Ha] Hw. apply asked_snoc.
  - split; [done|]. intros k x Hk Ho Hx. destruct (Ha k x Hk Ho Hx); [auto|]. right. set_solver.
  - intros x _ Hx. right. apply elem_of_app. right. apply make_request_elem. auto.
Qed.

Lemma asked_acquire enable_locks fuel levels lv opp t count ns r s s' :
  asked levels [] s → opportunistic_locks e s.2 lv = opp →
  (∀ x, wants s.2 lv x → x ∈ default [LOCKSET_NAME] ns) →
  AcquireLocks e enable_locks fuel lv ns (share_locks e s.2 lv) opp t count false s = Some (Ok r, s') →
  asked (levels ++ [lv]) [] s'.
Proof.
  intros Ha Ho Hw Hacq. pose proof Ha as [Hp _]. destruct opp.
  - apply AcquireLocks_keeps in Hacq as [Hk E]; [|done]. apply asked_snoc.
    + eapply asked_keeps; [exact Ha|done|]. intros k _. rewrite E. by split_and!.
    + intros x Hf. congruence.
  - apply AcquireLocks_granted in Hacq as [(H1 & H2 & H3) E]; [|done]. apply asked_snoc.
    + eapply asked_keeps; [exact Ha|by split|]. intros k _. rewrite E. by split_and!.
    + intros x _ Hx. rewrite E in *. left. apply H3, make_request_elem. auto.
Qed.

Section body.
  Context (levels : list level) (body1 body2 : M St V).
  Context (Hbody : ∀ s, asked levels [] s → body1 s = body2 s).

Lemma exec_with_locks_ext s :
  asked levels [] s → exec_with_locks e body1 s = exec_with_locks e body2 s.
Proof.
  intros Ha. apply bind_ext. intros u s1 Hs. apply catch_ext, Hbody. destruct u, (has_cbs e).
  - apply (ld_start Hlu) in Hs as [Hev Hsl]. eapply asked_keeps; [done|by apply evolves_keeps|auto].
  - by injection Hs as <-.
Qed.

Lemma acquire_now_ext enable_locks fuel lv done pending needed t count next1 next2 s :
  asked done pending s → (∀ x, wants s.2 lv x → x ∈ default [LOCKSET_NAME] needed) →
  (∀ p s', asked (done ++ [lv]) p s' → next1 p s' = next2 p s') →
  let now (next : list request → M St V) :=
    flush e calc_timeout fuel pending ;;
    AcquireLocks e enable_locks fuel lv needed (share_locks e s.2 lv)
      (opportunistic_locks e s.2 lv) t count false ;;
    list_locks e ;; next [] in
  now next1 s = now next2 s.
Proof.
  intros Ha Hw Hnext now. unfold now. apply bind_ext. intros u s1 Hf. destruct u.
  apply (asked_flush _ _ _ _ _ Hf) in Ha as [Ha Hs]. pose proof (Hs lv) as (_ & _ & E3 & E4).
  apply bind_ext. intros r s2 Hacq. apply bind_ext. intros u s3 Hl. eapply Hnext, asked_list; [exact Hl|].
  rewrite <-E3 in Hacq. eapply asked_acquire; [exact Ha|exact E4| |exact Hacq].
  intros x Hx. by apply Hw, (same_locks_wants _ s1.2).
Qed.

Lemma acquire_level_ext enable_locks fuel lv done pending next1 next2 s :
  lv ∉ done → asked done pending s →
  (∀ p s', asked (done ++ [lv]) p s' → next1 p s' = next2 p s') →
  acquire_level e enable_locks calc_timeout fuel lv (add_locks e s.2 lv) (needed_locks e s.2 lv)
    (opportunistic_locks e s.2 lv) pending next1 s =
  acquire_level e enable_locks calc_timeout fuel lv (add_locks e s.2 lv) (needed_locks e s.2 lv)
    (opportunistic_locks e s.2 lv) pending next2 s.
Proof.
  intros Hlv Ha Hnext. unfold acquire_level. apply bind_ext. intros u s0 Hs0.
  assert (s0 = s) as -> by (unfold CheckLocksEnabled in Hs0; destruct enable_locks; by inversion Hs0).
  apply bind_ext. intros u1 s1 Hd. destruct u1. apply (ld_declare Hlu) in Hd.
  pose proof (asked_declare _ _ _ _ _ Hlv Hd Ha) as Ha1.
  apply bind_ext. intros sh s2 [= <- <-]. apply bind_ext. intros count s2 [= <- <-]. apply finally_ext.
  apply bind_ext. intros acq s2 [= <- <-]. apply bind_ext. intros add s2 [= <- <-].
  apply bind_ext. intros needed s2 Hn. apply (declared_wants _ _ _ _ _ Hd) in Hn as [-> Hw].
  apply bind_ext. intros t s2 [= <- <-].
  pose proof Hd as (_ & _ & _ & _ & Eopp).
  pose proof (acquire_now_ext enable_locks fuel lv done pending needed (calc_timeout s1.1)
    (opportunistic_locks_count e s1.2 lv) next1 next2 s1 Ha1 Hw Hnext) as Hnow. rewrite Eopp in Hnow.
  destruct (calc_timeout s1.1) as [t|]; [|exact Hnow].
  destruct (opportunistic_locks e s.2 lv) eqn:Eo; [exact Hnow|].
  apply bind_ext. intros req s2 [-> ->]%request_only. apply Hnext. by eapply asked_collect.
Qed.

Lemma LockAndExecLU_ext enable_locks fuel : ∀ rest done pending s,
  levels = done ++ rest → NoDup levels → asked done pending s →
  LockAndExecLU e enable_locks calc_timeout fuel body1 rest pending s =
  LockAndExecLU e enable_locks calc_timeout fuel body2 rest pending s.
Proof.
  induction rest as [|lv rest IH]; intros done pending s El Hnd Ha.
  { rewrite app_nil_r in El. subst done. apply bind_ext. intros u s1 Hf. destruct u.
    destruct (asked_flush _ _ _ _ _ Hf Ha) as [Ha1 _]. by apply exec_with_locks_ext. }
  assert (lv ∉ done) as Hlv.
  { subst levels. apply NoDup_app in Hnd as (_ & Hnd & _). intros Hin. apply (Hnd lv Hin). by left. }
  cbn [LockAndExecLU]. apply bind_ext. intros add s1 [= <- <-]. apply bind_ext. intros acq s1 [= <- <-].
  apply bind_ext. intros opp s1 [= <- <-]. apply bind_ext. intros dc s1 [= <- <-].
  apply bind_ext. intros u s1 Hf.
  assert (asked done (if dont_collate_locks e s.2 lv then [] else pending) s1 ∧
    ∀ k, same_locks e s.2 s1.2 k) as [Ha1 Hs].
  { destruct u, (dont_collate_locks e s.2 lv); [by eapply asked_flush|].
    injection Hf as <-. split; [done|]. by intros k. }
  pose proof (Hs lv) as (E1 & E2 & _ & E4). rewrite <-E1, <-E2, <-E4.
  assert (∀ p s', asked (done ++ [lv]) p s' →
    LockAndExecLU e enable_locks calc_timeout fuel body1 rest p s' =
    LockAndExecLU e enable_locks calc_timeout fuel body2 rest p s') as Hnext.
  { intros p s'. apply IH; [|done]. by rewrite <-app_assoc. }
  pose proof (acquire_level_ext enable_locks fuel lv done _ _ _ s1 Hlv Ha1 Hnext) as Hacq.
  revert Hacq.
  destruct (add_locks e s1.2 lv) as [na|] eqn:Ea, (needed_locks e s1.2 lv) as [nn|] eqn:En;
    intros Hacq; try by repeat case_match. apply Hnext, asked_snoc; [done|].
  intros x _ (n & [?|?] & _); congruence.
Qed.
End body.

End held.

Module HeldDemo.
Import ProcessorDemo.

Lemma demo_disciplined : lu_disciplined demo owns pend unfreed.
Proof.
  split.
  - intros lv s s' [= <-]. split; [apply evolves_same|]. split_and!; auto. by intros k.
  - intros s s' [= <-]. split; [apply evolves_same|]. by intros k.
Qed.

End HeldDemo.
