(* ===== verification/Job.v ===== *)
(** * Queued opcodes and jobs (src/lib/jqueue/__init__.py, first part)

    [_QueuedOpCode] and [_QueuedJob]: their slots, status and priority
    computation, log access, marking, cancelling, priority changes, and the
    form they are written to disk in.  An opcode object itself is generated
    code; what the queue uses of it is the interface [OpCode]. *)

From S2P Require Import Prelude Errors.

(** ** Constants *)

(** [constants.OP_STATUS_*]; the [JOB_STATUS_*] strings are the same ones. *)
Inductive status :=
| QUEUED | WAITING | CANCELING | RUNNING | CANCELED | SUCCESS | ERROR.

#[export] Instance status_eq_dec : EqDecision status.
Proof. solve_decision. Defined.

Definition status_name (s : status) : string :=
  match s with
  | QUEUED => "queued" | WAITING => "waiting" | CANCELING => "canceling"
  | RUNNING => "running" | CANCELED => "canceled" | SUCCESS => "success"
  | ERROR => "error"
  end.

(** Membership in [constants.OPS_FINALIZED] and [constants.JOBS_FINALIZED]. *)
Definition finalized (s : status) : bool :=
  match s with CANCELED | SUCCESS | ERROR => true | _ => false end.

Definition OP_PRIO_LOWEST : Z := 19.
Definition OP_PRIO_HIGHEST : Z := -20.
Definition OP_PRIO_DEFAULT : Z := 0.
Definition OP_PRIO_SUBMIT_VALID : list Z := [10; 0; -10]%Z.

(** Seconds and microseconds, as [utils.SplitTime] makes them. *)
Notation timestamp := (Z * Z)%type.

(** ** The opcode interface *)

Notation dependency := (Z * list status)%type.

Class OpCode (I : Type) := {
  op_priority : I → option Z;
  op_depends : I → list dependency;
  op_reason_src : string → I → pyval;
  op_reason : I → list pyval;
  op_set_reason : list pyval → I → I;
  op_getstate : I → pyval;
  op_load : pyval → exc I
}.

(** A log entry: serial, time, type, message. *)
Record log_entry := LogEntry {
  le_serial : Z;
  le_time : timestamp;
  le_type : pyval;
  le_msg : pyval
}.

(** How JSON changes a value that is written to disk and read back: tuples
    become lists. *)
Fixpoint json_norm (v : pyval) : pyval :=
  match v with
  | VList l | VTuple l => VList (map json_norm l)
  | VDict d => VDict (map (λ x, (x.1, json_norm x.2)) d)
  | _ => v
  end.

Section job.
  Context {I : Type} `{OpCode I}.
  (** The attempts left in a lock time-out strategy; see [JobProc.v]. *)
  Context {T : Type}.

(** [_QueuedOpCode] *)
Record qop := QOp {
  o_input : I;
  o_status : status;
  o_result : pyval;
  o_log : list log_entry;
  o_priority : Z;
  o_start : option timestamp;
  o_exec : option timestamp;
  o_end : option timestamp
}.

(** [_OpExecContext]; the opcode is named by its index. *)
Record opctx := OpCtx {
  x_index : nat;
  x_jobdeps : list dependency;
  x_strategy : T
}.

(** [_QueuedJob]; [j_ops_iter] is the position of the [enumerate] iterator. *)
Record job := Job {
  j_id : Z;
  j_ops : list qop;
  j_log_serial : Z;
  j_ops_iter : option nat;
  j_cur_opctx : option opctx;
  j_received : option timestamp;
  j_start : option timestamp;
  j_end : option timestamp;
  j_writable : bool;
  j_archived : bool;
  j_livelock : option string;
  j_process_id : option Z
}.

Definition set_ops (ops : list qop) (j : job) : job :=
  Job (j_id j) ops (j_log_serial j) (j_ops_iter j) (j_cur_opctx j) (j_received j)
      (j_start j) (j_end j) (j_writable j) (j_archived j) (j_livelock j) (j_process_id j).
Definition set_log_serial (n : Z) (j : job) : job :=
  Job (j_id j) (j_ops j) n (j_ops_iter j) (j_cur_opctx j) (j_received j)
      (j_start j) (j_end j) (j_writable j) (j_archived j) (j_livelock j) (j_process_id j).
Definition set_iter (it : option nat) (x : option opctx) (j : job) : job :=
  Job (j_id j) (j_ops j) (j_log_serial j) it x (j_received j)
      (j_start j) (j_end j) (j_writable j) (j_archived j) (j_livelock j) (j_process_id j).
Definition set_start (s : option timestamp) (j : job) : job :=
  Job (j_id j) (j_ops j) (j_log_serial j) (j_ops_iter j) (j_cur_opctx j) (j_received j)
      s (j_end j) (j_writable j) (j_archived j) (j_livelock j) (j_process_id j).
Definition set_end (e : option timestamp) (j : job) : job :=
  Job (j_id j) (j_ops j) (j_log_serial j) (j_ops_iter j) (j_cur_opctx j) (j_received j)
      (j_start j) e (j_writable j) (j_archived j) (j_livelock j) (j_process_id j).
Definition set_process_id (p : option Z) (j : job) : job :=
  Job (j_id j) (j_ops j) (j_log_serial j) (j_ops_iter j) (j_cur_opctx j) (j_received j)
      (j_start j) (j_end j) (j_writable j) (j_archived j) (j_livelock j) p.

Definition set_status (s : status) (o : qop) : qop :=
  QOp (o_input o) s (o_result o) (o_log o) (o_priority o) (o_start o) (o_exec o) (o_end o).
Definition set_result (r : pyval) (o : qop) : qop :=
  QOp (o_input o) (o_status o) r (o_log o) (o_priority o) (o_start o) (o_exec o) (o_end o).
Definition set_priority (p : Z) (o : qop) : qop :=
  QOp (o_input o) (o_status o) (o_result o) (o_log o) p (o_start o) (o_exec o) (o_end o).
Definition set_times (s x e : option timestamp) (o : qop) : qop :=
  QOp (o_input o) (o_status o) (o_result o) (o_log o) (o_priority o) s x e.
Definition set_log (l : list log_entry) (o : qop) : qop :=
  QOp (o_input o) (o_status o) (o_result o) l (o_priority o) (o_start o) (o_exec o) (o_end o).
Definition set_input (i : I) (o : qop) : qop :=
  QOp i (o_status o) (o_result o) (o_log o) (o_priority o) (o_start o) (o_exec o) (o_end o).

(** ** Creation *)

(** [_QueuedOpCode.__init__] *)
Definition new_op (op : I) : qop :=
  QOp op QUEUED VNone [] (default OP_PRIO_DEFAULT (op_priority op)) None None None.

(** The loop of [AddReasons]; [now] is [utils.EpochNano()] for each opcode. *)
Fixpoint add_reasons (prefix : string) (job_id : Z) (now : nat → Z) (count : nat)
    (ops : list qop) : list qop :=
  match ops with
  | [] => []
  | o :: ops =>
      let reason := VTuple [op_reason_src prefix (o_input o);
                            VStr ("job=" +:+ pretty job_id +:+ ";index=" +:+ pretty count);
                            VInt (now count)] in
      let op := op_set_reason (op_reason (o_input o) ++ [reason]) (o_input o) in
      set_input op o :: add_reasons prefix job_id now (S count) ops
  end.

Definition AddReasons (pickup : bool) (now : nat → Z) (j : job) : job :=
  let prefix := if pickup then "gnt:daemon:masterd:pickup" else "gnt:opcode" in
  set_ops (add_reasons prefix (j_id j) now 0 (j_ops j)) j.

(** [_QueuedJob.__init__] *)
Definition new_job (job_id : Z) (ops : list I) (writable : bool) (now : timestamp)
    (nano : nat → Z) : exc job :=
  match ops with
  | [] => Raise (GntExn GenericError [VStr "A job needs at least one opcode"])
  | _ =>
      let j := Job job_id (map new_op ops) 0 None None (Some now) None None writable
                   false None None in
      let j := AddReasons false nano j in
      do* assert (negb (j_archived j)) in
      Ok j
  end.

(** ** Status and priority *)

(** The loop of [CalcStatus]: [st] and [all_success] are its variables. *)
Fixpoint calc_status (ops : list qop) (st : status) (all_success : bool) : status :=
  match ops with
  | [] => if all_success then SUCCESS else st
  | o :: ops =>
      match o_status o with
      | SUCCESS => calc_status ops st all_success
      | QUEUED => calc_status ops st false
      | WAITING => calc_status ops WAITING false
      | RUNNING => calc_status ops RUNNING false
      | CANCELING => CANCELING
      | ERROR => ERROR
      | CANCELED => CANCELED
      end
  end.

Definition CalcStatus (j : job) : status := calc_status (j_ops j) QUEUED true.

Definition min_list (x : Z) (xs : list Z) : Z := foldl Z.min x xs.

Definition CalcPriority (j : job) : Z :=
  match o_priority <$> filter (λ o, finalized (o_status o) = false) (j_ops j) with
  | [] => OP_PRIO_DEFAULT
  | p :: ps => min_list p ps
  end.

(** ** Log *)

Definition GetLogEntries (newer_than : option Z) (j : job) : list log_entry :=
  let serial := match newer_than with None => (-1)%Z | Some n => n end in
  concat (map (λ o, filter (λ e, (serial < le_serial e)%Z) (o_log o)) (j_ops j)).

(** ** Marking, cancelling, changing priorities *)

Fixpoint mark_unfinished (s : status) (r : pyval) (not_marked : bool) (ops : list qop)
    : exc (list qop) :=
  match ops with
  | [] => Ok []
  | o :: ops =>
      if finalized (o_status o) then
        do* assert not_marked in
        rmap (cons o) (mark_unfinished s r not_marked ops)
      else
        rmap (cons (set_result r (set_status s o))) (mark_unfinished s r false ops)
  end.

Definition MarkUnfinishedOps (s : status) (r : pyval) (j : job) : exc job :=
  rmap (λ ops, set_ops ops j) (mark_unfinished s r true (j_ops j)).

Definition Finalize (now : timestamp) (j : job) : job := set_end (Some now) j.

Definition CANCEL_MSG : pyval := VStr "Job canceled by request".

(** [Cancel]; the result says whether the job was or will be cancelled. *)
Definition Cancel (now : timestamp) (j : job) : exc (job * bool) :=
  match CalcStatus j with
  | QUEUED =>
      let* j := MarkUnfinishedOps CANCELED CANCEL_MSG j in
      Ok (Finalize now j, true)
  | WAITING =>
      let* j := MarkUnfinishedOps CANCELING VNone j in
      Ok (j, true)
  | _ => Ok (j, false)
  end.

Fixpoint change_priorities (p : Z) (changed : bool) (ops : list qop)
    : exc (list qop * bool) :=
  match ops with
  | [] => Ok ([], changed)
  | o :: ops =>
      if bool_decide (o_status o = RUNNING) || finalized (o_status o) then
        do* assert (negb changed) in
        rmap (λ r, (o :: r.1, r.2)) (change_priorities p changed ops)
      else
        do* assert (bool_decide (o_status o = QUEUED) || bool_decide (o_status o = WAITING)) in
        rmap (λ r, (set_priority p o :: r.1, r.2)) (change_priorities p true ops)
  end.

Definition ChangePriority (p : Z) (j : job) : exc (job * bool) :=
  let st := CalcStatus j in
  if finalized st then Ok (j, false)
  else if bool_decide (st = CANCELING) then Ok (j, false)
  else
    do* assert (bool_decide (st = QUEUED) || bool_decide (st = WAITING) ||
                bool_decide (st = RUNNING)) in
    rmap (λ r, (set_ops r.1 j, r.2)) (change_priorities p false (j_ops j)).

Definition SetPid (pid : Z) (j : job) : job :=
  match CalcStatus j with
  | QUEUED | WAITING => set_process_id (Some pid) j
  | _ => j
  end.

(** ** The stored form *)

(** The dictionaries [Serialize] makes; [None] stands for a missing key. *)
Record op_state := OpState {
  s_input : option pyval;
  s_status : option status;
  s_result : option pyval;
  s_log : option (list log_entry);
  s_start : option (option timestamp);
  s_exec : option (option timestamp);
  s_end : option (option timestamp);
  s_priority : option Z
}.

Record job_state := JobState {
  js_id : option Z;
  js_ops : option (list op_state);
  js_start : option (option timestamp);
  js_end : option (option timestamp);
  js_received : option (option timestamp);
  js_livelock : option (option string);
  js_process_id : option (option Z)
}.

Definition serialize_op (o : qop) : op_state :=
  OpState (Some (op_getstate (o_input o))) (Some (o_status o)) (Some (o_result o))
          (Some (o_log o)) (Some (o_start o)) (Some (o_exec o)) (Some (o_end o))
          (Some (o_priority o)).

Definition Serialize (j : job) : job_state :=
  JobState (Some (j_id j)) (Some (map serialize_op (j_ops j))) (Some (j_start j))
           (Some (j_end j)) (Some (j_received j)) (Some (j_livelock j))
           (Some (j_process_id j)).

(** [state["key"]] *)
Definition get_key {B} (x : option B) : exc B :=
  match x with Some v => Ok v | None => Raise (PyExn KeyError "") end.

Definition restore_op (s : op_state) : exc qop :=
  let* input := get_key (s_input s) in
  let* input := op_load input in
  let* st := get_key (s_status s) in
  let* result := get_key (s_result s) in
  let* log := get_key (s_log s) in
  Ok (QOp input st result log (default OP_PRIO_DEFAULT (s_priority s))
          (default None (s_start s)) (default None (s_exec s)) (default None (s_end s))).

(** The loop over [state["ops"]], which also recomputes the log serial. *)
Fixpoint restore_ops (ss : list op_state) (serial : Z) : exc (list qop * Z) :=
  match ss with
  | [] => Ok ([], serial)
  | s :: ss =>
      let* o := restore_op s in
      let serial := foldl (λ n e, Z.max n (le_serial e)) serial (o_log o) in
      rmap (λ r, (o :: r.1, r.2)) (restore_ops ss serial)
  end.

Definition Restore (s : job_state) (writable archived : bool) : exc job :=
  let* id := get_key (js_id s) in
  let* ss := get_key (js_ops s) in
  let* '(ops, serial) := restore_ops ss 0 in
  Ok (Job id ops serial None None (default None (js_received s))
          (default None (js_start s)) (default None (js_end s)) writable archived
          (default None (js_livelock s)) (default None (js_process_id s))).

(** What is read back after the stored form went through JSON. *)
Definition norm_entry (e : log_entry) : log_entry :=
  LogEntry (le_serial e) (le_time e) (json_norm (le_type e)) (json_norm (le_msg e)).

Definition norm_op_state (s : op_state) : op_state :=
  OpState (json_norm <$> s_input s) (s_status s) (json_norm <$> s_result s)
          (map norm_entry <$> s_log s) (s_start s) (s_exec s) (s_end s) (s_priority s).

Definition norm_state (s : job_state) : job_state :=
  JobState (js_id s) (map norm_op_state <$> js_ops s) (js_start s) (js_end s)
           (js_received s) (js_livelock s) (js_process_id s).

End job.

Arguments qop : clear implicits.
Arguments opctx : clear implicits.
Arguments job : clear implicits.
