(* ===== verification/JobQueue.v ===== *)
(** * The job queue and the job processor (src/lib/jqueue/__init__.py, exec.py)

    [JobQueue] (the job files, the cache, loading, updating, cancelling),
    [_JobDependencyManager], the callbacks an opcode may use while it runs
    ([_OpExecCallbacks]), [_TimeoutStrategyWrapper], [_OpExecContext],
    [_JobProcessor] and the loop of [exec.py].

    Running an opcode is code outside the queue; one run is described by the
    callbacks it makes and by how it ends ([exec_in]).  Clock readings and
    random numbers are inputs of a call ([call_in]).  RPC replication to other
    nodes only logs its failures and is not part of the state. *)

From S2P Require Import Prelude Errors Job Mcpu.
#[local] Open Scope nat_scope.
#[local] Open Scope string_scope.
#[local] Open Scope stdpp_scope.
#[local] Open Scope py_scope.

(** ** Time-out strategies *)

(** [_TimeoutStrategyWrapper] around a [LockAttemptTimeoutStrategy]. *)
Record wrapper := Wrapper { w_left : strategy; w_next : option Q }.

Definition Advance (rand : Q) (w : wrapper) : wrapper :=
  match w_next w with
  | Some _ => w
  | None => let '(rest, next) := NextAttempt rand (w_left w) in Wrapper rest next
  end.

Definition Peek (rand : Q) (w : wrapper) : wrapper * option Q :=
  let w := Advance rand w in (w, w_next w).

Definition Next (rand : Q) (w : wrapper) : wrapper * option Q :=
  let w := Advance rand w in (Wrapper (w_left w) None, w_next w).

(** [_EncodeOpError] *)
Definition EncodeOpError (err : exn) : pyval :=
  match err with
  | GntExn c args =>
      if issubclass c GenericError then EncodeException err
      else EncodeException (GntExn OpExecError
             [VStr (if decide (args_str args = "") then class_name c else args_str args)])
  | PyExn c msg =>
      let name := match EncodeException err with
                  | VTuple (VStr n :: _) => n
                  | _ => ""
                  end in
      EncodeException (GntExn OpExecError [VStr (if decide (msg = "") then name else msg)])
  end.

(** Iterating over a value: [for msg in log_msgs]. *)
Definition py_iter (v : pyval) : exc (list pyval) :=
  match v with
  | VList l | VTuple l => Ok l
  | VDict d => Ok (map (λ x, VStr x.1) d)
  | VStr s => Ok (map (λ a, VStr (String a EmptyString)) (String.list_ascii_of_string s))
  | _ => Raise (PyExn TypeError "object is not iterable")
  end.

Section queue.
  Context {I : Type} `{OpCode I}.
  Notation job := (job I wrapper).
  Notation qop := (qop I).
  Notation opctx := (opctx wrapper).

(** The content of a job file. *)
Inductive file := FEmpty | FCorrupt | FUnreadable | FState (s : job_state).

Record queue := Queue {
  q_files : gmap Z file;
  q_archive : gmap Z file;
  q_memcache : gmap Z job;
  q_waiters : gmap Z (gset Z)
}.

Definition set_files (m : gmap Z file) (q : queue) : queue :=
  Queue m (q_archive q) (q_memcache q) (q_waiters q).
Definition set_memcache (m : gmap Z job) (q : queue) : queue :=
  Queue (q_files q) (q_archive q) m (q_waiters q).
Definition set_waiters (m : gmap Z (gset Z)) (q : queue) : queue :=
  Queue (q_files q) (q_archive q) (q_memcache q) m.

(** ** Loading *)

(** [utils.ReadFile]: [None] for a file that does not exist. *)
Definition ReadFile (f : option file) : exc (option file) :=
  match f with
  | Some FUnreadable => Raise (PyExn EnvironmentError "")
  | f => Ok f
  end.

Definition LoadJobFromDisk (job_id : Z) (try_archived : bool) (writable : option bool)
    (q : queue) : exc (option job) :=
  let* raw := ReadFile (q_files q !! job_id) in
  let* '(raw, archived) :=
    match raw with
    | Some f => Ok (Some f, false)
    | None =>
        if try_archived
        then let* raw := ReadFile (q_archive q !! job_id) in Ok (raw, true)
        else Ok (None, false)
    end in
  match raw with
  | None | Some FEmpty => Ok None
  | Some (FState s) =>
      match Restore s (default (negb archived) writable) archived with
      | Ok j => Ok (Some j)
      | Raise _ => Raise (GntExn JobFileCorrupted [])
      end
  | Some _ => Raise (GntExn JobFileCorrupted [])
  end.

(** [except (errors.JobFileCorrupted, EnvironmentError)] *)
Definition SafeLoadJobFromDisk (job_id : Z) (try_archived : bool)
    (writable : option bool) (q : queue) : exc (option job) :=
  match LoadJobFromDisk job_id try_archived writable q with
  | Raise (GntExn c args) =>
      if issubclass c JobFileCorrupted then Ok None else Raise (GntExn c args)
  | Raise (PyExn EnvironmentError _) => Ok None
  | r => r
  end.

(** [_LoadJobUnlocked]: the cached object, or one read from disk; a job file
    that cannot be parsed is moved to the archive. *)
Definition LoadJobUnlocked (job_id : Z) (q : queue) : exc (queue * option job) :=
  match q_memcache q !! job_id with
  | Some j => do* assert (j_writable j) in Ok (q, Some j)
  | None =>
      match LoadJobFromDisk job_id false None q with
      | Ok None => Ok (q, None)
      | Ok (Some j) => do* assert (j_writable j) in Ok (q, Some j)
      | Raise (GntExn JobFileCorrupted _) =>
          match q_files q !! job_id with
          | Some f => Ok (Queue (delete job_id (q_files q)) (<[job_id := f]> (q_archive q))
                                (q_memcache q) (q_waiters q), None)
          | None => Raise (PyExn EnvironmentError "")
          end
      | Raise e => Raise e
      end
  end.

Definition GetJobStatusForDependencies (job_id : Z) (q : queue) : exc status :=
  let* j := SafeLoadJobFromDisk job_id true (Some false) q in
  match j with
  | Some j => do* assert (negb (j_writable j)) in Ok (CalcStatus j)
  | None => Raise (GntExn JobLost [VStr ("Job " +:+ pretty job_id +:+ " not found")])
  end.

(** ** Updating *)

Definition UpdateJobUnlocked (j : job) (q : queue) : exc queue :=
  let fin := finalized (CalcStatus j) in
  do* assert (xorb fin (bool_decide (j_end j = None))) in
  do* assert (j_writable j) in
  do* assert (negb (j_archived j)) in
  Ok (set_files (<[j_id j := FState (norm_state (Serialize j))]> (q_files q)) q).

Definition HasJobBeenFinalized (job_id : Z) (cluster_destroyed : bool) (q : queue)
    : exc (option bool) :=
  let* j := SafeLoadJobFromDisk job_id true (Some false) q in
  match j with
  | Some j => Ok (Some (finalized (CalcStatus j)))
  | None => Ok (if cluster_destroyed then Some true else None)
  end.

(** [_ModifyJobUnlocked]; an object from the cache is modified in place, one
    read from disk is not referenced any more afterwards and leaves the cache,
    which holds weak references. *)
Definition ModifyJobUnlocked (job_id : Z) (mod_fn : job → exc (job * bool)) (q : queue)
    : exc (queue * bool) :=
  let* '(q, j) := LoadJobUnlocked job_id q in
  match j with
  | None => Ok (q, false)
  | Some j =>
      do* assert (j_writable j) in
      do* assert (negb (j_archived j)) in
      let* '(j, success) := mod_fn j in
      let q := match q_memcache q !! job_id with
               | Some _ => set_memcache (<[job_id := j]> (q_memcache q)) q
               | None => q
               end in
      if success : bool
      then let* q := UpdateJobUnlocked j q in Ok (q, true)
      else Ok (q, false)
  end.

Definition CancelJob (job_id : Z) (now : timestamp) (q : queue) : exc (queue * bool) :=
  ModifyJobUnlocked job_id (Cancel now) q.

Definition ChangeJobPriority (job_id priority : Z) (q : queue) : exc (queue * bool) :=
  if bool_decide (priority ∈ OP_PRIO_SUBMIT_VALID)
  then ModifyJobUnlocked job_id (ChangePriority priority) q
  else Raise (GntExn GenericError [VStr "Invalid priority"]).

(** [_ResolveJobDependencies]; [resolve_fn] raises [IndexError] for [None]. *)
Fixpoint ResolveJobDependencies (resolve_fn : Z → option Z) (deps : list dependency)
    : list dependency + string :=
  match deps with
  | [] => inl []
  | (dep_job_id, dep_status) :: deps =>
      if (dep_job_id <? 0)%Z then
        match resolve_fn dep_job_id with
        | None => inr ("Unable to resolve relative job ID " +:+ pretty dep_job_id)
        | Some job_id =>
            match ResolveJobDependencies resolve_fn deps with
            | inl r => inl ((job_id, dep_status) :: r)
            | inr e => inr e
            end
        end
      else
        match ResolveJobDependencies resolve_fn deps with
        | inl r => inl ((dep_job_id, dep_status) :: r)
        | inr e => inr e
        end
  end.

(** ** Dependencies *)

Inductive dep_result := WAIT | DEP_ERROR | DEP_CANCEL | CONTINUE | WRONGSTATUS.

#[export] Instance dep_result_eq_dec : EqDecision dep_result.
Proof. solve_decision. Defined.

Definition JobWaiting (job_id : Z) (q : queue) : bool :=
  existsb (λ x : Z * gset Z, bool_decide (job_id ∈ x.2)) (map_to_list (q_waiters q)).

Definition CommaJoin (names : list string) : string := String.concat ", " names.

(** [str] of a list of strings without quotes in them. *)
Definition list_repr (names : list string) : string :=
  "[" +:+ CommaJoin (map (λ s, "'" +:+ s +:+ "'") names) +:+ "]".

Definition CheckAndRegister (job_id dep_job_id : Z) (dep_status : list status)
    (q : queue) : exc (queue * (dep_result * string)) :=
  do* assert (0 <=? job_id)%Z in
  do* assert (0 <=? dep_job_id)%Z in
  do* assert (forallb finalized dep_status) in
  if decide (job_id = dep_job_id) then Ok (q, (DEP_ERROR, "Job can't depend on itself"))
  else
    match GetJobStatusForDependencies dep_job_id q with
    | Raise (GntExn c args) =>
        if issubclass c JobLost
        then Ok (q, (DEP_ERROR, "Dependency error: Job " +:+ pretty dep_job_id +:+ " not found"))
        else Raise (GntExn c args)
    | Raise e => Raise e
    | Ok st =>
        let job_id_waiters := default ∅ (q_waiters q !! dep_job_id) in
        if negb (finalized st) then
          Ok (set_waiters (<[dep_job_id := {[job_id]} ∪ job_id_waiters]> (q_waiters q)) q,
              (WAIT, "Need to wait for job " +:+ pretty dep_job_id +:+ ", wanted status '"
                     +:+ list_repr (map status_name dep_status) +:+ "'"))
        else
          let q := set_waiters
                     (<[dep_job_id := job_id_waiters ∖ {[job_id]}]> (q_waiters q)) q in
          if bool_decide (st = CANCELED) && negb (bool_decide (CANCELED ∈ dep_status)) then
            Ok (q, (DEP_CANCEL, "Dependency job " +:+ pretty dep_job_id +:+ " was cancelled"))
          else if bool_decide (dep_status = []) || bool_decide (st ∈ dep_status) then
            Ok (q, (CONTINUE, "Dependency job " +:+ pretty dep_job_id
                              +:+ " finished with status '" +:+ status_name st +:+ "'"))
          else
            Ok (q, (WRONGSTATUS, "Dependency job " +:+ pretty dep_job_id
                                 +:+ " finished with status '" +:+ status_name st
                                 +:+ "', not one of '"
                                 +:+ CommaJoin (map status_name dep_status)
                                 +:+ "' as required"))
    end.

(** [_RemoveEmptyWaitersUnlocked] *)
Definition RemoveEmptyWaitersUnlocked (q : queue) : queue :=
  set_waiters (filter (λ x : Z * gset Z, x.2 ≠ ∅) (q_waiters q)) q.

(** ** Opcode callbacks *)

(** A callback may raise [CancelJob] or fail; either way the changes it made
    stay. *)
Inductive cb_exit := XCancelJob | XExn (e : exn).

Definition cb_state : Type := queue * job.

Definition with_op (idx : nat) (j : job) (f : qop → qop) : job :=
  set_ops (alter f idx (j_ops j)) j.

Definition cb_update (s : cb_state) : cb_state * option cb_exit :=
  match UpdateJobUnlocked s.2 s.1 with
  | Ok q => ((q, s.2), None)
  | Raise e => (s, Some (XExn e))
  end.

Definition waiting_or_canceling (st : status) : bool :=
  match st with WAITING | CANCELING => true | _ => false end.

(** [_CheckCancel] *)
Definition CheckCancel (o : qop) : option cb_exit :=
  if bool_decide (o_status o = CANCELING) then Some XCancelJob else None.

Definition NotifyStart (idx : nat) (now : timestamp) (s : cb_state)
    : cb_state * option cb_exit :=
  match j_ops s.2 !! idx with
  | None => (s, Some (XExn AssertionFailed))
  | Some o =>
      if negb (waiting_or_canceling (o_status o)) then (s, Some (XExn AssertionFailed))
      else match CheckCancel o with
      | Some x => (s, Some x)
      | None =>
          cb_update (s.1, with_op idx s.2
            (λ o, set_times (o_start o) (Some now) (o_end o) (set_status RUNNING o)))
      end
  end.

Definition NotifyRetry (idx : nat) (s : cb_state) : cb_state * option cb_exit :=
  ((s.1, with_op idx s.2 (set_status WAITING)), None).

Definition CurrentPriority (idx : nat) (s : cb_state) : cb_state * option cb_exit :=
  match j_ops s.2 !! idx with
  | None => (s, Some (XExn AssertionFailed))
  | Some o =>
      if negb (waiting_or_canceling (o_status o)) then (s, Some (XExn AssertionFailed))
      else (s, CheckCancel o)
  end.

Definition ELOG_MESSAGE : pyval := VStr "message".
Definition ELOG_MESSAGE_LIST : string := "message-list".

(** The loop of [_AppendFeedback]: each message takes the next serial. *)
Fixpoint append_messages (idx : nat) (now : timestamp) (log_type : pyval)
    (msgs : list pyval) (j : job) : job :=
  match msgs with
  | [] => j
  | msg :: msgs =>
      let serial := (j_log_serial j + 1)%Z in
      let j := set_log_serial serial j in
      let j := with_op idx j (λ o, set_log (o_log o ++ [LogEntry serial now log_type msg]) o) in
      append_messages idx now log_type msgs j
  end.

Definition AppendFeedback (idx : nat) (now : timestamp) (log_type log_msgs : pyval)
    (s : cb_state) : cb_state * option cb_exit :=
  let r := match log_type with
           | VStr t => if decide (t = ELOG_MESSAGE_LIST)
                       then rmap (λ l, (ELOG_MESSAGE, l)) (py_iter log_msgs)
                       else Ok (log_type, [log_msgs])
           | _ => Ok (log_type, [log_msgs])
           end in
  match r with
  | Ok (log_type, msgs) => cb_update (s.1, append_messages idx now log_type msgs s.2)
  | Raise e => (s, Some (XExn e))
  end.

Definition Feedback (idx : nat) (now : timestamp) (args : list pyval) (s : cb_state)
    : cb_state * option cb_exit :=
  match args with
  | [msg] => AppendFeedback idx now ELOG_MESSAGE msg s
  | [log_type; msg] => AppendFeedback idx now log_type msg s
  | [] => (s, Some (XExn (PyExn ValueError "not enough values to unpack")))
  | _ => (s, Some (XExn AssertionFailed))
  end.

(** What happens while an opcode runs: its callbacks, and a cancel request by
    somebody else. *)
Inductive action :=
| ANotifyStart (now : timestamp)
| ANotifyRetry
| AFeedback (now : timestamp) (args : list pyval)
| ACurrentPriority
| ACancel (now : timestamp).

Definition run_action (idx : nat) (a : action) (s : cb_state) : cb_state * option cb_exit :=
  match a with
  | ANotifyStart now => NotifyStart idx now s
  | ANotifyRetry => NotifyRetry idx s
  | AFeedback now args => Feedback idx now args s
  | ACurrentPriority => CurrentPriority idx s
  | ACancel now =>
      match Cancel now s.2 with
      | Ok (j, _) => ((s.1, j), None)
      | Raise e => (s, Some (XExn e))
      end
  end.

(** A callback that raises ends the opcode. *)
Fixpoint run_actions (idx : nat) (acts : list action) (s : cb_state)
    : cb_state * option cb_exit :=
  match acts with
  | [] => (s, None)
  | a :: acts =>
      match run_action idx a s with
      | (s, None) => run_actions idx acts s
      | r => r
      end
  end.

(** How [opexec_fn] ends if no callback raised. *)
Inductive exec_result :=
| LockAcquireTimeout
| ExecException (e : exn)
| ExecResult (r : pyval).

Record exec_in := ExecIn { ex_actions : list action; ex_result : exec_result }.

(** ** The job processor *)

Inductive proc_result := DEFER | WAITDEP | FINISHED.

#[export] Instance proc_result_eq_dec : EqDecision proc_result.
Proof. solve_decision. Defined.

(** The inputs of one [__call__]. *)
Record call_in := CallIn {
  c_now_start : timestamp;
  c_now_cancel : timestamp;
  c_now_end : timestamp;
  c_now_final : timestamp;
  c_rand_next : Q;
  c_rand_peek : Q;
  c_exec : exec_in
}.

Section processor.
  (** [LockAttemptTimeoutStrategy._TIMEOUT_PER_ATTEMPT] *)
  Context (timeouts : strategy).

(** [_OpExecContext.__init__] *)
Definition new_opctx (idx : nat) (o : qop) : opctx :=
  OpCtx idx (op_depends (o_input o)) (Wrapper timeouts None).

(** The loop of [_FindNextOpcode], at position [n] of the opcodes [ops]. *)
Fixpoint find_next (n : nat) (ops : list qop) : exc (nat * opctx) :=
  match ops with
  | [] => Raise (GntExn ProgrammerError [VStr "Called for a finished job"])
  | o :: ops =>
      match o_status o with
      | RUNNING => Raise (GntExn ProgrammerError [VStr "Called for job marked as running"])
      | st => if finalized st then find_next (S n) ops else Ok (S n, new_opctx n o)
      end
  end.

Definition FindNextOpcode (j : job) : exc (job * opctx) :=
  let pos := default 0 (j_ops_iter j) in
  let* '(pos, x) := find_next pos (drop pos (j_ops j)) in
  Ok (set_iter (Some pos) (j_cur_opctx j) j, x).

Definition get_op (idx : nat) (j : job) : exc qop :=
  match j_ops j !! idx with
  | Some o => Ok o
  | None => Raise (PyExn AttributeError "")
  end.

Definition is_some {B} (x : option B) : bool := bool_decide (is_Some x).

(** [_MarkWaitlock] *)
Definition MarkWaitlock (idx : nat) (now : timestamp) (j : job) : exc (job * bool) :=
  let* o := get_op idx j in
  do* assert (bool_decide (o_status o = QUEUED) || bool_decide (o_status o = WAITING)) in
  let update := bool_decide (o_status o = QUEUED) || negb (is_some (o_start o))
                || negb (is_some (j_start j)) in
  let start := default now (o_start o) in
  let o' := set_times (Some start) (o_exec o) (o_end o)
              (set_status WAITING (set_result VNone o)) in
  let j := set_ops (<[idx := o']> (j_ops j)) j in
  Ok (set_start (Some (default start (j_start j))) j, update).

(** [_CheckDependencies]: the queue, the job, the dependencies left, and whether
    to wait. *)
Fixpoint CheckDependencies (idx : nat) (now : timestamp) (deps : list dependency)
    (q : queue) (j : job) : exc (queue * job * list dependency * bool) :=
  match deps with
  | [] => Ok (q, j, [], false)
  | (dep_job_id, dep_status) :: rest =>
      let* '(q, (depresult, depmsg)) := CheckAndRegister (j_id j) dep_job_id dep_status q in
      do* assert (negb (bool_decide (depmsg = ""))) in
      match depresult with
      | CONTINUE => CheckDependencies idx now rest q j
      | WAIT => Ok (q, j, deps, true)
      | DEP_CANCEL =>
          let* '(j, _) := Cancel now j in
          let* o := get_op idx j in
          do* assert (bool_decide (o_status o = CANCELING)) in
          Ok (q, j, deps, false)
      | WRONGSTATUS | DEP_ERROR =>
          let err := EncodeOpError (GntExn OpExecError [VStr depmsg]) in
          Ok (q, with_op idx j (λ o, set_result err (set_status ERROR o)), deps, false)
      end
  end.

(** [_ExecOpCodeUnlocked] *)
Definition ExecOpCodeUnlocked (inp : call_in) (x : opctx) (q : queue) (j : job)
    : exc (queue * job * opctx * (status * pyval)) :=
  let idx := x_index x in
  let* o := get_op idx j in
  do* assert (waiting_or_canceling (o_status o)) in
  if bool_decide (o_status o = CANCELING) then Ok (q, j, x, (CANCELING, VNone))
  else
    let '(w, timeout) := Next (c_rand_next inp) (x_strategy x) in
    let x := OpCtx idx (x_jobdeps x) w in
    let '((q, j), exit) := run_actions idx (ex_actions (c_exec inp)) (q, j) in
    let* o := get_op idx j in
    match exit with
    | Some XCancelJob =>
        do* assert (bool_decide (o_status o = CANCELING)) in
        Ok (q, j, x, (CANCELING, VNone))
    | Some (XExn e) => Ok (q, j, x, (ERROR, EncodeOpError e))
    | None =>
        match ex_result (c_exec inp) with
        | LockAcquireTimeout =>
            do* assert (is_some timeout) in
            do* assert (waiting_or_canceling (o_status o)) in
            Ok (q, j, x, (o_status o, VNone))
        | ExecException e => Ok (q, j, x, (ERROR, EncodeOpError e))
        | ExecResult r => Ok (q, j, x, (SUCCESS, r))
        end
    end.

Definition prio_in_range (p : Z) : bool :=
  (p <=? OP_PRIO_LOWEST)%Z && (OP_PRIO_HIGHEST <=? p)%Z.

(** Execution, unless the opcode has to wait for another job or is over. *)
Definition exec_ready (inp : call_in) (x : opctx) (waitjob : bool) (q : queue) (j : job)
    : exc (queue * job * opctx) :=
  let idx := x_index x in
  let* o := get_op idx j in
  do* assert (bool_decide (o_status o ∈ [WAITING; CANCELING; ERROR])) in
  if waitjob || bool_decide (o_status o ∈ [CANCELING; ERROR]) then Ok (q, j, x)
  else
    do* assert (bool_decide (x_jobdeps x = [])) in
    let* '(q, j, x, (op_status, op_result)) := ExecOpCodeUnlocked inp x q j in
    Ok (q, with_op idx j (λ o, set_result op_result (set_status op_status o)), x).

(** The end timestamp of an opcode that is over. *)
Definition record_end (inp : call_in) (idx : nat) (j : job) : exc job :=
  let* o := get_op idx j in
  if bool_decide (o_status o ∈ [WAITING; QUEUED]) then
    do* assert (negb (is_some (o_end o))) in
    Ok j
  else
    let j := with_op idx j (λ o, set_times (o_start o) (o_exec o) (Some (c_now_end inp)) o) in
    do* (if bool_decide (o_status o = CANCELING)
         then assert (forallb (λ o, bool_decide (o_status o = CANCELING)) (drop idx (j_ops j)))
         else assert (finalized (o_status o))) in
    Ok j.

(** The part of [__call__] for an opcode that is not being cancelled. *)
Definition run_op (inp : call_in) (x : opctx) (q : queue) (j : job)
    : exc (queue * job * opctx * bool) :=
  let idx := x_index x in
  let* '(j, update) := MarkWaitlock idx (c_now_start inp) j in
  let* q := (if update : bool then UpdateJobUnlocked j q else Ok q) in
  let* o := get_op idx j in
  do* assert (bool_decide (o_status o = WAITING)) in
  do* assert (bool_decide (CalcStatus j = WAITING)) in
  do* assert (is_some (j_start j) && is_some (o_start o)) in
  let* '(q, j, deps, waitjob) :=
    CheckDependencies idx (c_now_cancel inp) (x_jobdeps x) q j in
  let* '(q, j, x) := exec_ready inp (OpCtx idx deps (x_strategy x)) waitjob q j in
  let* j := record_end inp idx j in
  Ok (q, j, x, waitjob).

(** [CheckPriorityIncrease] *)
Definition CheckPriorityIncrease (rand : Q) (x : opctx) (j : job) : exc (opctx * job * bool) :=
  let idx := x_index x in
  let* o := get_op idx j in
  let '(w, next) := Peek rand (x_strategy x) in
  if negb (is_some next) && (OP_PRIO_HIGHEST <? o_priority o)%Z
  then Ok (OpCtx idx (x_jobdeps x) (Wrapper timeouts None),
           with_op idx j (λ o, set_priority (o_priority o - 1) o), true)
  else Ok (OpCtx idx (x_jobdeps x) w, j, false).

(** The part of [__call__] for an opcode that is done, one way or another. *)
Definition finish_op (inp : call_in) (idx : nat) (q : queue) (j : job)
    : exc (queue * job * bool) :=
  let* o := get_op idx j in
  do* assert (bool_decide (idx = 0) ||
              forallb (λ o, bool_decide (o_status o = SUCCESS)) (take idx (j_ops j))) in
  let j := set_iter (j_ops_iter j) None j in
  let* '(j, finalize) :=
    match o_status o with
    | SUCCESS => Ok (j, false)
    | ERROR =>
        let err := EncodeOpError (GntExn OpExecError [VStr "Preceding opcode failed"]) in
        rmap (λ j, (j, true)) (MarkUnfinishedOps ERROR err j)
    | CANCELING => rmap (λ j, (j, true)) (MarkUnfinishedOps CANCELED CANCEL_MSG j)
    | _ => Raise (GntExn ProgrammerError [VStr "Unknown status"])
    end in
  let finalize := finalize || bool_decide (S idx = length (j_ops j)) in
  let j := if finalize : bool then Finalize (c_now_final inp) j else j in
  let* q := UpdateJobUnlocked j q in
  Ok (q, j, finalize).

(** The rest of [__call__]: keep the opcode for another round or finish it. *)
Definition conclude (inp : call_in) (x : opctx) (waitjob : bool) (q : queue) (j : job)
    : exc (queue * job * proc_result) :=
  let idx := x_index x in
  let* o := get_op idx j in
  let continue q j :=
    do* assert (negb waitjob || JobWaiting (j_id j) q) in
    Ok (q, j, if waitjob then WAITDEP else DEFER) in
  if bool_decide (o_status o = QUEUED) then
    do* assert (negb waitjob) in
    let j := set_iter (j_ops_iter j) None j in
    do* assert (bool_decide (CalcStatus j = QUEUED)) in
    continue q j
  else if bool_decide (o_status o = WAITING) || waitjob then
    let* '(x, j, increased) :=
      (if waitjob then Ok (x, j, false) else CheckPriorityIncrease (c_rand_peek inp) x j) in
    let* q := (if increased : bool then UpdateJobUnlocked j q else Ok q) in
    let j := set_iter (j_ops_iter j) (Some x) j in
    let* o := get_op idx j in
    do* assert (prio_in_range (o_priority o)) in
    do* assert (bool_decide (CalcStatus j = WAITING)) in
    continue q j
  else
    let* '(q, j, finalize) := finish_op inp idx q j in
    do* assert (negb waitjob) in
    if finalize : bool then Ok (q, j, FINISHED) else continue q j.

(** [_JobProcessor.__call__] *)
Definition process (inp : call_in) (q : queue) (j : job) : exc (queue * job * proc_result) :=
  do* assert (j_writable j) in
  if finalized (CalcStatus j) then Ok (q, j, FINISHED)
  else
    let* '(j, x) :=
      match j_cur_opctx j with
      | Some x => Ok (set_iter (j_ops_iter j) None j, x)
      | None => FindNextOpcode j
      end in
    let idx := x_index x in
    let* o := get_op idx j in
    do* assert (forallb (λ o, bool_decide (o_status o ∈ [QUEUED; CANCELING]))
                        (drop (S idx) (j_ops j))) in
    do* assert (bool_decide (o_status o ∈ [QUEUED; WAITING; CANCELING])) in
    do* assert (prio_in_range (o_priority o)) in
    let* '(q, j, x, waitjob) :=
      (if bool_decide (o_status o = CANCELING) then Ok (q, j, x, false)
       else run_op inp x q j) in
    let* r := conclude inp x waitjob q j in
    do* assert (j_writable r.1.2) in
    Ok r.

(** ** The job process (exec.py) *)

(** Signals that arrived during a round: a cancel request, and a new priority
    ([None]: the file with it could not be read). *)
Record round_in := RoundIn {
  r_call : call_in;
  r_cancel : option timestamp;
  r_prio : option (option Z)
}.

(** One round of the loop in [main]; [None] for the job: it could not be
    loaded again. *)
Definition main_round (job_id : Z) (inp : round_in) (q : queue) (j : job)
    : exc (queue * option job * proc_result) :=
  let* '(q, j, result) := process (r_call inp) q j in
  let* '(q, j) :=
    match r_cancel inp with
    | None => Ok (q, Some j)
    | Some now =>
        let* '(q, _) := CancelJob job_id now q in
        let* j := SafeLoadJobFromDisk job_id false None q in
        Ok (q, j)
    end in
  let* '(q, j) :=
    match r_prio inp with
    | None | Some None => Ok (q, j)
    | Some (Some prio) =>
        match ChangeJobPriority job_id prio q with
        | Raise _ => Ok (q, j)
        | Ok (q, _) =>
            match SafeLoadJobFromDisk job_id false None q with
            | Ok j => Ok (q, j)
            | Raise _ => Ok (q, j)
            end
        end
    end in
  Ok (q, j, result).

End processor.
End queue.

Arguments queue : clear implicits.
