(* ===== verification/JobInv.v ===== *)
(** * Jobs: the shape of the opcode statuses and the job invariant

    The opcodes of a job run in order, so their statuses always form a
    sequence [SUCCESS, ..., SUCCESS, x, y, ..., y] ([shape]).  This file shows
    what the methods of [_QueuedJob] do to a job of a given shape and defines
    the invariant [job_ok] that holds between two calls of the processor. *)

From Stdlib Require Import Sorted.
From S2P Require Import Prelude Errors Job Mcpu JobQueue.
#[local] Open Scope nat_scope.
#[local] Open Scope stdpp_scope.

Section job_inv.
  Context {I : Type} `{OpCode I}.
  Notation job := (job I wrapper).
  Notation qop := (qop I).
  Implicit Types (j : job) (o : qop).

Definition sts j : list status := o_status <$> j_ops j.

(** [n] opcodes have succeeded, the next has status [x], the [k] after it [y]. *)
Definition shape (n : nat) (x y : status) (k : nat) j : Prop :=
  sts j = replicate n SUCCESS ++ x :: replicate k y.

Definition all_done j : Prop := sts j = replicate (length (j_ops j)) SUCCESS.

(** ** Reading a shape *)

Lemma sts_lookup j i s : sts j !! i = Some s ↔ ∃ o, j_ops j !! i = Some o ∧ o_status o = s.
Proof. unfold sts. rewrite list_lookup_fmap, fmap_Some. naive_solver. Qed.

Lemma shape_lookup n x y k j i s :
  shape n x y k j → sts j !! i = Some s →
  i < n ∧ s = SUCCESS ∨ i = n ∧ s = x ∨ n < i ∧ s = y.
Proof.
  intros -> Hi. apply lookup_app_Some in Hi as [Hi|[Hle Hi]].
  - apply lookup_replicate in Hi as [-> ?]. auto.
  - rewrite length_replicate in *. destruct (i - n) as [|m] eqn:E; simpl in Hi.
    + right; left. split; [lia|congruence].
    + apply lookup_replicate in Hi as [-> ?]. right; right. split; [lia|done].
Qed.

Lemma shape_get n x y k j :
  shape n x y k j → ∃ o, j_ops j !! n = Some o ∧ o_status o = x.
Proof.
  intros Hs. apply sts_lookup. rewrite Hs.
  rewrite lookup_app_r; rewrite length_replicate; [|lia]. by rewrite Nat.sub_diag.
Qed.

Lemma shape_get_op n x y k j :
  shape n x y k j → ∃ o, get_op n j = Ok o ∧ j_ops j !! n = Some o ∧ o_status o = x.
Proof.
  intros (o & Ho & Hx)%shape_get. exists o. unfold get_op. by rewrite Ho.
Qed.

Lemma shape_length n x y k j : shape n x y k j → length (j_ops j) = n + S k.
Proof.
  intros Hs. assert (length (sts j) = length (j_ops j)) as <- by apply length_fmap.
  rewrite Hs, length_app, length_replicate. simpl. by rewrite length_replicate.
Qed.

Lemma sts_forallb (P : status → bool) (ops : list qop) :
  forallb (λ o, P (o_status o)) ops = forallb P (o_status <$> ops).
Proof. induction ops as [|o ops IH]; simpl; [done|]. by rewrite IH. Qed.

Lemma forallb_replicate (P : status → bool) k s :
  P s = true → forallb P (replicate k s) = true.
Proof. intros Hs. induction k; simpl; [done|]. by rewrite Hs. Qed.

(** The opcodes after, from and before the current one. *)
Lemma shape_after (P : status → bool) n x y k j :
  shape n x y k j → P y = true → forallb (λ o, P (o_status o)) (drop (S n) (j_ops j)) = true.
Proof.
  intros Hs Hy. rewrite sts_forallb, fmap_drop. fold (sts j). rewrite Hs.
  rewrite drop_app_ge by (rewrite length_replicate; lia). rewrite length_replicate.
  replace (S n - n) with 1 by lia. simpl. by apply forallb_replicate.
Qed.

Lemma shape_from (P : status → bool) n x y k j :
  shape n x y k j → P x = true → P y = true →
  forallb (λ o, P (o_status o)) (drop n (j_ops j)) = true.
Proof.
  intros Hs Hx Hy. rewrite sts_forallb, fmap_drop. fold (sts j). rewrite Hs.
  rewrite drop_app_length' by (by rewrite length_replicate). simpl.
  rewrite Hx. by apply forallb_replicate.
Qed.

Lemma shape_before n x y k j :
  shape n x y k j →
  forallb (λ o, bool_decide (o_status o = SUCCESS)) (take n (j_ops j)) = true.
Proof.
  intros Hs. pose proof (sts_forallb (λ s : status, bool_decide (s = SUCCESS))
                           (take n (j_ops j))) as E. etrans; [exact E|].
  rewrite fmap_take. fold (sts j). rewrite Hs, take_app_length' by (by rewrite length_replicate).
  by apply forallb_replicate.
Qed.

(** ** The status of a job *)

(** [CalcStatus] depends on the statuses only. *)
Fixpoint calc_sts (ss : list status) (st : status) (all_success : bool) : status :=
  match ss with
  | [] => if all_success then SUCCESS else st
  | s :: ss =>
      match s with
      | SUCCESS => calc_sts ss st all_success
      | QUEUED => calc_sts ss st false
      | WAITING => calc_sts ss WAITING false
      | RUNNING => calc_sts ss RUNNING false
      | s => s
      end
  end.

Lemma CalcStatus_sts j : CalcStatus j = calc_sts (sts j) QUEUED true.
Proof.
  unfold CalcStatus, sts. generalize QUEUED at 1 2. generalize true.
  induction (j_ops j) as [|o ops IH]; intros b s; simpl; [done|].
  destruct (o_status o); auto.
Qed.

Lemma calc_sts_success n ss st b :
  calc_sts (replicate n SUCCESS ++ ss) st b = calc_sts ss st b.
Proof. induction n; simpl; auto. Qed.

Lemma calc_sts_queued k st : calc_sts (replicate k QUEUED) st false = st.
Proof. induction k; simpl; auto. Qed.

Lemma shape_CalcStatus n x y k j :
  shape n x y k j →
  (x ∈ [QUEUED; WAITING; RUNNING] ∧ y = QUEUED ∨ x ∈ [CANCELING; CANCELED; ERROR]) →
  CalcStatus j = x.
Proof.
  intros Hs Hxy. rewrite CalcStatus_sts, Hs, calc_sts_success.
  destruct Hxy as [[Hx ->]|Hx].
  - destruct x; simpl; try (set_solver); by rewrite calc_sts_queued.
  - destruct x; set_solver.
Qed.

Lemma all_done_CalcStatus j : all_done j → CalcStatus j = SUCCESS.
Proof.
  intros Hd. rewrite CalcStatus_sts, Hd, <-(app_nil_r (replicate _ _)).
  by rewrite calc_sts_success.
Qed.

(** ** Changing one opcode *)

Lemma sts_with_op n j f s :
  (∀ o, j_ops j !! n = Some o → o_status (f o) = s) →
  sts (with_op n j f) = if decide (n < length (j_ops j)) then <[n := s]> (sts j) else sts j.
Proof.
  intros Hf. unfold sts, with_op. simpl. apply list_eq. intros i.
  rewrite list_lookup_fmap, list_lookup_alter. case_decide as Hi; case_decide as Hn; subst.
  - destruct (lookup_lt_is_Some_2 _ _ Hn) as [o Ho]. rewrite Ho. simpl.
    rewrite list_lookup_insert_eq by (by rewrite length_fmap). by rewrite (Hf o Ho).
  - rewrite lookup_ge_None_2 by lia. rewrite list_lookup_fmap, lookup_ge_None_2 by lia. done.
  - rewrite list_lookup_insert_ne by done. by rewrite list_lookup_fmap.
  - by rewrite list_lookup_fmap.
Qed.

Lemma shape_with_op n x x' y k j f :
  shape n x y k j → (∀ o, j_ops j !! n = Some o → o_status (f o) = x') →
  shape n x' y k (with_op n j f).
Proof.
  intros Hs Hf. unfold shape. rewrite (sts_with_op _ _ _ x' Hf).
  rewrite decide_True by (rewrite (shape_length _ _ _ _ _ Hs); lia).
  rewrite Hs, insert_app_r_alt by (rewrite length_replicate; lia).
  by rewrite length_replicate, Nat.sub_diag.
Qed.

(** A success moves the boundary. *)
Lemma shape_success n y k j :
  shape n SUCCESS y k j →
  match k with 0 => all_done j | S k => shape (S n) y y k j end.
Proof.
  intros Hs. assert (sts j = replicate (S n) SUCCESS ++ replicate k y) as E.
  { rewrite Hs, (replicate_S_end n), <-app_assoc. done. }
  destruct k as [|k]; [|exact E]. unfold all_done.
  rewrite (shape_length _ _ _ _ _ Hs), E, app_nil_r. f_equal. lia.
Qed.

(** ** Marking the unfinished opcodes *)


(** What [MarkUnfinishedOps] makes of the opcodes when it does not fail. *)
Definition marked (s : status) (r : pyval) (ops : list qop) : list qop :=
  (λ o, if finalized (o_status o) then o else set_result r (set_status s o)) <$> ops.

Lemma mark_unfinished_rest s r b ops :
  Forall (λ o, finalized (o_status o) = false) ops →
  mark_unfinished s r b ops = Ok (marked s r ops).
Proof.
  intros Hall. revert b. induction Hall as [|o ops Ho Hall IH]; intros b; simpl; [done|].
  by rewrite Ho, IH.
Qed.

Lemma mark_unfinished_split s r pre post :
  Forall (λ o, finalized (o_status o) = true) pre →
  Forall (λ o, finalized (o_status o) = false) post →
  mark_unfinished s r true (pre ++ post) = Ok (marked s r (pre ++ post)).
Proof.
  intros Hpre Hpost. induction Hpre as [|o pre Ho Hpre IH]; simpl.
  - by apply mark_unfinished_rest.
  - by rewrite Ho, IH.
Qed.

Lemma sts_Forall (P : status → Prop) (ops : list qop) :
  Forall P (o_status <$> ops) → Forall (λ o, P (o_status o)) ops.
Proof. by rewrite Forall_fmap. Qed.

Lemma MarkUnfinishedOps_shape s r n x y k j :
  shape n x y k j → finalized y = false →
  MarkUnfinishedOps s r j = Ok (set_ops (marked s r (j_ops j)) j) ∧
  shape n (if finalized x then x else s) s k (set_ops (marked s r (j_ops j)) j).
Proof.
  intros Hs Hy. unfold MarkUnfinishedOps. split.
  - set (m := if finalized x then S n else n).
    assert (mark_unfinished s r true (take m (j_ops j) ++ drop m (j_ops j))
            = Ok (marked s r (take m (j_ops j) ++ drop m (j_ops j)))) as E.
    { apply mark_unfinished_split;
        [apply (sts_Forall (λ s, finalized s = true))
        |apply (sts_Forall (λ s, finalized s = false))];
        rewrite ?fmap_take, ?fmap_drop; fold (sts j); rewrite Hs; unfold m;
        destruct (finalized x) eqn:Hx.
      - rewrite take_app_ge by (rewrite length_replicate; lia).
        rewrite length_replicate. replace (S n - n) with 1 by lia. simpl.
        apply Forall_app. split; [by apply Forall_replicate|by repeat constructor].
      - rewrite take_app_length' by (by rewrite length_replicate).
        by apply Forall_replicate.
      - rewrite drop_app_ge by (rewrite length_replicate; lia).
        rewrite length_replicate. replace (S n - n) with 1 by lia. simpl.
        by apply Forall_replicate.
      - rewrite drop_app_length' by (by rewrite length_replicate).
        constructor; [done|]. by apply Forall_replicate. }
    by rewrite take_drop in E; rewrite E.
  - unfold shape, sts, marked. simpl. rewrite <-list_fmap_compose.
    trans ((λ s0, if finalized s0 then s0 else s) <$> sts j).
    + unfold sts. rewrite <-list_fmap_compose. apply list_fmap_ext. intros i o _. simpl.
      by destruct (finalized (o_status o)).
    + rewrite Hs, fmap_app, fmap_replicate. simpl. by rewrite fmap_replicate, Hy.
Qed.

(** ** The invariant *)

Definition deps_ok (ds : list dependency) : Prop :=
  Forall (λ d : dependency, (0 ≤ d.1)%Z ∧ forallb finalized d.2 = true) ds.

Record op_ok o : Prop := {
  oo_prio : prio_in_range (o_priority o) = true;
  oo_end : o_status o ∈ [QUEUED; WAITING; RUNNING] → o_end o = None;
  oo_deps : deps_ok (op_depends (o_input o))
}.

(** Statuses of the current opcode and the ones after it, between calls. *)
Definition between (x y : status) : Prop :=
  x ∈ [QUEUED; WAITING] ∧ y = QUEUED ∨ x = y ∧ x ∈ [CANCELING; CANCELED; ERROR].

Definition iter_ok (n : nat) j : Prop :=
  match j_cur_opctx j with
  | Some c => x_index c = n ∧ deps_ok (x_jobdeps c) ∧ j_ops_iter j = Some (S n)
  | None => default 0 (j_ops_iter j) ≤ n
  end.

Record job_ok j : Prop := {
  jo_ops : Forall op_ok (j_ops j);
  jo_shape : all_done j ∧ j_ops j ≠ [] ∨
    ∃ n x y k, shape n x y k j ∧ between x y ∧ (finalized x = false → iter_ok n j);
  jo_end : finalized (CalcStatus j) = is_some (j_end j);
  jo_writable : j_writable j = true;
  jo_archived : j_archived j = false;
  jo_id : (0 ≤ j_id j)%Z
}.

Lemma between_CalcStatus n x y k j : shape n x y k j → between x y → CalcStatus j = x.
Proof.
  intros Hs Hb. eapply shape_CalcStatus; [done|]. destruct Hb as [[Hx ->]|[-> Hx]];
    [left; set_solver|right; set_solver].
Qed.

(** An unfinished job has a current opcode. *)
Lemma job_ok_shape j :
  job_ok j → finalized (CalcStatus j) = false →
  ∃ n x y k, shape n x y k j ∧ iter_ok n j ∧ j_end j = None ∧
    (x ∈ [QUEUED; WAITING] ∧ y = QUEUED ∨ x = CANCELING ∧ y = CANCELING).
Proof.
  intros Hj Hf. pose proof (jo_end _ Hj) as He. rewrite Hf in He.
  destruct (jo_shape _ Hj) as [[Hd _]|(n & x & y & k & Hs & Hb & Hi)].
  { by rewrite (all_done_CalcStatus _ Hd) in Hf. }
  rewrite (between_CalcStatus _ _ _ _ _ Hs Hb) in Hf.
  exists n, x, y, k. split; [done|]. split; [by apply Hi|]. split; [by destruct (j_end j)|].
  destruct Hb as [?|[-> Hx]]; [by left|right]. destruct y; set_solver.
Qed.

(** ** Updating the file *)

Definition file_of j : file := FState (norm_state (Serialize j)).

Lemma UpdateJobUnlocked_ok j (q : queue I) :
  finalized (CalcStatus j) = is_some (j_end j) → j_writable j = true →
  j_archived j = false →
  UpdateJobUnlocked j q = Ok (set_files (<[j_id j := file_of j]> (q_files q)) q).
Proof.
  intros He Hw Ha. unfold UpdateJobUnlocked. rewrite He, Hw, Ha.
  destruct (j_end j); simpl; done.
Qed.
End job_inv.
