(* ===== verification/JobLaws.v ===== *)
(** * The methods of a job: reference definitions and round trips

    What [CalcStatus] computes, which log entries a client that polls receives,
    the stored form of a job read back, and that a new job is well formed. *)

From Stdlib Require Import Sorted.
From S2P Require Import Prelude Errors PyStr OpCodes Job Mcpu JobQueue JobInv.
#[local] Open Scope nat_scope.
#[local] Open Scope stdpp_scope.

(** What the job queue expects of opcode objects: one that is stored and loaded
    comes back as its normal form, in which tuples are lists.  The opcodes of
    opcodes.py keep this ([opcode_laws] below). *)
Class OpCodeLaws (I : Type) `{OpCode I} := {
  op_storable : I → bool;
  op_norm : I → I;
  op_load_getstate : ∀ i : I, op_storable i = true → op_load (json_norm (op_getstate i)) = Ok (op_norm i);
  op_getstate_norm : ∀ i : I, op_getstate (op_norm i) = json_norm (op_getstate i);
  op_depends_reason : ∀ r (i : I), op_storable i = true → op_depends (op_set_reason r i) = op_depends i
}.

Section laws.
  Context {I : Type} `{OpCodeLaws I}.
  Notation job := (job I wrapper).
  Notation qop := (qop I).
  Implicit Types (j : job) (o : qop).

(** ** CalcStatus *)

(** A status that decides the status of the whole job. *)
Definition decisive (s : status) : bool :=
  match s with CANCELING | ERROR | CANCELED => true | _ => false end.

Definition active (s : status) : bool :=
  match s with WAITING | RUNNING => true | _ => false end.

Definition first_with (P : status → bool) (ss : list status) : option status :=
  head (filter (λ s, P s = true) ss).

Definition last_with (P : status → bool) (ss : list status) : option status :=
  last (filter (λ s, P s = true) ss).

(** The first decisive status, or success if there is nothing else, or the
    last active one, or queued. *)
Definition reference_status (ss : list status) : status :=
  match first_with decisive ss with
  | Some s => s
  | None => if forallb (λ s, bool_decide (s = SUCCESS)) ss then SUCCESS
            else default QUEUED (last_with active ss)
  end.

Lemma calc_sts_reference ss st b :
  calc_sts ss st b =
  match first_with decisive ss with
  | Some s => s
  | None => if b && forallb (λ s, bool_decide (s = SUCCESS)) ss then SUCCESS
            else default st (last_with active ss)
  end.
Proof.
  unfold first_with, last_with. revert st b. induction ss as [|s ss IH]; intros st b; simpl.
  { by destruct b. }
  rewrite !filter_cons. destruct s; simpl; rewrite ?IH; try done;
    (destruct (head (filter _ ss)); [done|]); rewrite ?last_cons, ?andb_false_r; try done;
    by destruct (last (filter _ ss)).
Qed.

(** [CalcStatus] is the first status among the opcodes that says cancelling,
    cancelled or failed; without one, success if all succeeded; otherwise the
    last one that is waiting or running, and queued if there is none. *)
Theorem CalcStatus_reference j : CalcStatus j = reference_status (sts j).
Proof. rewrite CalcStatus_sts. apply calc_sts_reference. Qed.

(** ** The log *)

Definition all_entries j : list log_entry := concat (o_log <$> j_ops j).

(** Serials are positive, increase along the log and stay below the counter. *)
Definition log_ok j : Prop :=
  StronglySorted Z.lt (le_serial <$> all_entries j) ∧
  Forall (λ e, 0 < le_serial e ≤ j_log_serial j)%Z (all_entries j) ∧ (0 ≤ j_log_serial j)%Z.

Lemma GetLogEntries_filter newer_than j :
  GetLogEntries newer_than j
  = filter (λ e, (default (-1) newer_than < le_serial e)%Z) (all_entries j).
Proof.
  unfold GetLogEntries, all_entries.
  destruct newer_than; simpl; induction (j_ops j) as [|o ops IH]; simpl; try done;
    by rewrite filter_app, IH.
Qed.

(** The entries one [Feedback] call appends. *)
Fixpoint new_entries (serial : Z) (now : timestamp) (ty : pyval) (msgs : list pyval)
    : list log_entry :=
  match msgs with
  | [] => []
  | m :: msgs => LogEntry (serial + 1) now ty m :: new_entries (serial + 1) now ty msgs
  end.

(** The opcodes after the [n]-th have not logged anything yet. *)
Definition log_front (n : nat) j : Prop :=
  n < length (j_ops j) ∧ ∀ i o, n < i → j_ops j !! i = Some o → o_log o = [].

Lemma concat_front n (ops : list qop) (l : list log_entry) :
  n < length ops → (∀ i o, n < i → ops !! i = Some o → o_log o = []) →
  concat (o_log <$> alter (λ o, set_log (o_log o ++ l) o) n ops)
  = concat (o_log <$> ops) ++ l.
Proof.
  revert n. induction ops as [|o ops IH]; intros n Hn Hi; simpl in Hn; [lia|].
  destruct n as [|n]; csimpl.
  - assert (concat (o_log <$> ops) = []) as E.
    { clear -Hi. induction ops as [|o' ops IH]; [done|]. csimpl.
      rewrite (Hi 1 o') by (done || lia). apply IH. intros [|i] o1 Hlt Hl; [lia|].
      apply (Hi (S (S i))); [lia|done]. }
    by rewrite E, !app_nil_r.
  - rewrite IH; [by rewrite app_assoc|lia|]. intros i o' Hlt Hl.
    apply (Hi (S i)); [lia|done].
Qed.

Lemma append_messages_entries n now ty msgs j :
  log_front n j →
  all_entries (append_messages n now ty msgs j)
    = all_entries j ++ new_entries (j_log_serial j) now ty msgs ∧
  j_log_serial (append_messages n now ty msgs j)
    = (j_log_serial j + Z.of_nat (length msgs))%Z ∧
  log_front n (append_messages n now ty msgs j).
Proof.
  revert j. induction msgs as [|m msgs IH]; intros j [Hn Hi]; simpl.
  { rewrite app_nil_r. split_and!; [done|lia|done]. }
  set (j1 := with_op _ _ _).
  assert (log_front n j1) as Hf.
  { split; [unfold j1; simpl; by rewrite length_alter|]. intros i o Hlt. unfold j1. simpl.
    rewrite list_lookup_alter_ne by lia. by apply Hi. }
  destruct (IH j1 Hf) as (-> & -> & ?).
  assert (all_entries j1 = all_entries j ++ [LogEntry (j_log_serial j + 1) now ty m]) as ->
    by (by apply concat_front).
  split_and!; [by rewrite <-app_assoc|simpl; lia|done].
Qed.

Lemma new_entries_serials serial now ty msgs :
  StronglySorted Z.lt (le_serial <$> new_entries serial now ty msgs) ∧
  Forall (λ e, serial < le_serial e ≤ serial + Z.of_nat (length msgs))%Z
         (new_entries serial now ty msgs).
Proof.
  revert serial. induction msgs as [|m msgs IH]; intros serial; simpl; [by repeat constructor|].
  destruct (IH (serial + 1)%Z) as [Hs Hf]. split.
  - constructor; [done|]. apply Forall_fmap. eapply Forall_impl; [exact Hf|]. simpl. lia.
  - constructor; [simpl; lia|]. eapply Forall_impl; [exact Hf|]. simpl. lia.
Qed.

Lemma sorted_app (xs ys : list Z) (z : Z) :
  StronglySorted Z.lt xs → StronglySorted Z.lt ys →
  Forall (λ x, x ≤ z)%Z xs → Forall (λ y, z < y)%Z ys → StronglySorted Z.lt (xs ++ ys).
Proof.
  intros Hxs Hys Hx Hy. induction Hxs as [|x xs Hxs IH Hall]; simpl; [done|].
  apply Forall_cons in Hx as [Hxz Hx]. constructor; [by apply IH|].
  apply Forall_app. split; [done|]. eapply Forall_impl; [exact Hy|]. simpl. lia.
Qed.

(** Messages an opcode logs get consecutive new serials, and a client that
    polls with the last serial it has seen receives exactly the messages logged
    since, in order. *)
Theorem log_polling n now ty msgs j :
  log_ok j → log_front n j →
  log_ok (append_messages n now ty msgs j) ∧
  GetLogEntries (Some (j_log_serial j)) (append_messages n now ty msgs j)
  = new_entries (j_log_serial j) now ty msgs ∧
  GetLogEntries None (append_messages n now ty msgs j)
  = GetLogEntries None j ++ new_entries (j_log_serial j) now ty msgs.
Proof.
  intros (Hs & Hb & Hz) Hf.
  destruct (append_messages_entries n now ty msgs j Hf) as (He & Hser & _).
  destruct (new_entries_serials (j_log_serial j) now ty msgs) as [Hns Hnf].
  rewrite !GetLogEntries_filter, He, !filter_app. split; [|split].
  - unfold log_ok. rewrite He, Hser, fmap_app. split_and!; [| |lia].
    + apply (sorted_app _ _ (j_log_serial j)); [done..| |]; apply Forall_fmap;
        (eapply Forall_impl; [done|]); simpl; lia.
    + apply Forall_app. split; (eapply Forall_impl; [done|]); simpl; lia.
  - rewrite list_filter_none, list_filter_all; [done|..].
    + eapply Forall_impl; [exact Hnf|]. simpl. lia.
    + eapply Forall_impl; [exact Hb|]. simpl. lia.
  - f_equal. apply list_filter_all. eapply Forall_impl; [exact Hnf|]. simpl. lia.
Qed.

(** ** The stored form *)

(** What changes when a job is stored and loaded: tuples in opcodes, results and
    log messages become lists. *)
Definition norm_op o : qop :=
  QOp (op_norm (o_input o)) (o_status o) (json_norm (o_result o)) (map norm_entry (o_log o))
      (o_priority o) (o_start o) (o_exec o) (o_end o).

Definition norm_job j (writable archived : bool) : job :=
  Job (j_id j) (map norm_op (j_ops j)) (j_log_serial j) None None (j_received j)
      (j_start j) (j_end j) writable archived (j_livelock j) (j_process_id j).

Lemma restore_serialize_op o :
  op_storable (o_input o) = true → restore_op (norm_op_state (serialize_op o)) = Ok (norm_op o).
Proof. intros Ho. unfold restore_op. simpl. by rewrite op_load_getstate. Qed.

Definition max_serial (serial : Z) (es : list log_entry) : Z :=
  foldl (λ n e, Z.max n (le_serial e)) serial es.

Lemma max_serial_norm serial es : max_serial serial (map norm_entry es) = max_serial serial es.
Proof. unfold max_serial. revert serial. induction es; intros; simpl; auto. Qed.

Lemma restore_serialize_ops (ops : list qop) serial :
  forallb (λ o, op_storable (o_input o)) ops = true →
  restore_ops (map norm_op_state (map serialize_op ops)) serial
  = Ok (map norm_op ops, max_serial serial (concat (o_log <$> ops))).
Proof.
  revert serial. induction ops as [|o ops IH]; intros serial; cbn [map restore_ops forallb]; [done|].
  intros [Ho Hops]%andb_true_iff. rewrite restore_serialize_op by done. cbn [rbind]. rewrite IH by done. simpl. do 2 f_equal.
  unfold max_serial. rewrite foldl_app. f_equal. apply max_serial_norm.
Qed.

Lemma max_serial_sorted serial es :
  (∀ e, last es = Some e → serial ≤ le_serial e)%Z →
  StronglySorted Z.lt (le_serial <$> es) →
  max_serial serial es = match last es with Some e => le_serial e | None => serial end.
Proof.
  revert serial. induction es as [|e es IH]; intros serial Hlast Hs; [done|].
  inversion Hs as [|? ? Hs' Hall]; subst. unfold max_serial in *. simpl.
  rewrite last_cons in Hlast |- *. destruct (last es) as [e'|] eqn:El.
  - specialize (Hlast e' eq_refl). rewrite IH; [done| |done]. intros ? [= <-].
    apply last_Some in El as [es' ->]. rewrite fmap_app in Hall.
    apply Forall_app in Hall as [_ Hall]. apply Forall_cons in Hall as [Hlt _]. lia.
  - apply last_None in El. subst. specialize (Hlast e eq_refl). simpl. lia.
Qed.

(** The serial counter of a job is that of its last entry. *)
Definition serial_ok j : Prop :=
  match last (all_entries j) with
  | Some e => le_serial e = j_log_serial j
  | None => j_log_serial j = 0%Z
  end.

Lemma json_norm_idem v : json_norm (json_norm v) = json_norm v.
Proof.
  revert v. fix IH 1. intros [| | | |l|l|d]; simpl; try done; f_equal;
    [induction l|induction l|induction d as [|[k v] d]]; simpl; f_equal; auto.
  simpl. f_equal. apply IH.
Qed.

Lemma norm_op_state_idem s : norm_op_state (norm_op_state s) = norm_op_state s.
Proof.
  destruct s as [i st r l ? ? ? ?]. unfold norm_op_state. simpl. f_equal.
  - destruct i; simpl; f_equal; apply json_norm_idem.
  - destruct r; simpl; f_equal; apply json_norm_idem.
  - destruct l as [l|]; simpl; [|done]. f_equal. induction l as [|e l IH]; simpl; [done|].
    f_equal; [|done]. unfold norm_entry. simpl. by rewrite !json_norm_idem.
Qed.

(** Storing a job whose log is in order and loading it gives the same job, in
    normal form and with the iteration state of the processor reset; storing
    that job again writes the same file. *)
Lemma restore_serialize j writable archived :
  forallb (λ o, op_storable (o_input o)) (j_ops j) = true → log_ok j → serial_ok j →
  Restore (norm_state (Serialize j)) writable archived = Ok (norm_job j writable archived) ∧
  norm_state (Serialize (norm_job j writable archived)) = norm_state (Serialize j).
Proof.
  intros Hok (Hs & Hb & Hz) Hser. split.
  - unfold Restore, norm_state, Serialize. simpl. rewrite restore_serialize_ops by done. simpl.
    rewrite max_serial_sorted; [|intros e He|done].
    + unfold norm_job. do 2 f_equal. unfold serial_ok, all_entries in Hser.
      by destruct (last _).
    + apply last_Some in He as [es He]. fold (all_entries j) in He. rewrite He in Hb.
      apply Forall_app in Hb as [_ Hb]. apply Forall_cons in Hb as [? _]. lia.
  - unfold norm_state, Serialize. simpl. do 2 f_equal.
    rewrite !map_map. apply map_ext. intros o. unfold norm_op_state, serialize_op. simpl.
    rewrite op_getstate_norm, !json_norm_idem, map_map. do 2 f_equal. apply map_ext. intros e.
    unfold norm_entry. simpl. by rewrite !json_norm_idem.
Qed.

(** ** New jobs *)

Lemma add_reasons_ops prefix id now count (ops : list I) :
  let l := add_reasons prefix id now count (map new_op ops) in
  o_status <$> l = replicate (length ops) QUEUED ∧ concat (o_log <$> l) = [] ∧
  ∀ o, o ∈ l → o_end o = None ∧ o_status o = QUEUED ∧
    ∃ op, op ∈ ops ∧ o_priority o = default OP_PRIO_DEFAULT (op_priority op) ∧
          (op_storable op = true → op_depends (o_input o) = op_depends op).
Proof.
  simpl. revert count. induction ops as [|op ops IH]; intros count; csimpl; [set_solver|].
  destruct (IH (S count)) as (E1 & E2 & E3). split; [by rewrite E1|]. split; [done|].
  intros o [-> |Hin]%elem_of_cons; simpl.
  - split_and!; [done..|]. exists op. split_and!; [left|done|apply op_depends_reason].
  - destruct (E3 o Hin) as (? & ? & op' & ? & ? & ?). split_and!; [done..|].
    exists op'. split_and!; [by right|done..].
Qed.

(** A new job of at least one opcode, with priorities and dependencies that
    the queue accepts, is queued, well formed and has an empty log; without
    opcodes there is no job. *)
Theorem new_job_ok id (ops : list I) now nano :
  (0 ≤ id)%Z →
  (∀ op, op ∈ ops → op_storable op = true ∧ deps_ok (op_depends op) ∧
     prio_in_range (default OP_PRIO_DEFAULT (op_priority op)) = true) →
  match new_job id ops true now nano with
  | Ok j => ops ≠ [] ∧ job_ok (j : job) ∧ CalcStatus j = QUEUED ∧ log_ok j ∧ serial_ok j ∧
            length (j_ops j) = length ops
  | Raise e => ops = [] ∧ e = GntExn GenericError [VStr "A job needs at least one opcode"]
  end.
Proof.
  intros Hid Hops. unfold new_job. destruct ops as [|op ops]; [done|].
  remember (op :: ops) as ops' eqn:Eo. simpl.
  set (l := add_reasons _ _ _ _ _).
  destruct (add_reasons_ops "gnt:opcode" id nano 0 ops') as (Hst & Hlog & Hall).
  fold l in Hst, Hlog, Hall.
  set (j := AddReasons _ _ _). assert (j_ops j = l) as Hl by done.
  assert (shape 0 QUEUED QUEUED (length ops) j) as Hs.
  { unfold shape, sts. rewrite Hl, Hst, Eo. done. }
  assert (CalcStatus j = QUEUED) as Hc by (apply (shape_CalcStatus _ _ _ _ _ Hs); set_solver).
  assert (all_entries j = []) as He by (unfold all_entries; by rewrite Hl).
  split; [by subst|]. split; [|split; [done|split; [|split]]].
  - split; try done; [|right; exists 0, QUEUED, QUEUED, (length ops)|by rewrite Hc].
    + rewrite Hl. apply Forall_forall. intros o Ho.
      destruct (Hall o Ho) as (? & ? & op' & Hin & Hp & Hd).
      destruct (Hops op' Hin) as (? & ? & ?). split; [by rewrite Hp|done|by rewrite Hd].
    + split; [done|]. split; [left; set_solver|]. intros _. unfold iter_ok. simpl. lia.
  - unfold log_ok. rewrite He. split; [constructor|]. split; [constructor|]. simpl. lia.
  - unfold serial_ok. by rewrite He.
  - rewrite <-(length_fmap o_status l), Hst. by rewrite length_replicate.
Qed.
End laws.

(** ** The opcodes of opcodes.py *)

(** A class of opcodes: its name, ID and slots.  [oc_multi]: it is derived from
    [OpInstanceMultiAllocBase]. *)
Record op_class := OpClass {
  oc_name : string;
  OP_ID : string;
  oc_slots : list string;
  oc_multi : bool
}.

#[export] Instance op_class_eq_dec : EqDecision op_class.
Proof. solve_decision. Defined.

(** An opcode has values for some of the slots of its class, here in their
    order.  A value is plain data, or, for the instances of a multi-allocation, a
    list of opcodes. *)
Inductive opcode := OpObj (cls : op_class) (attrs : list (string * attr))
with attr := AVal (v : pyval) | AOps (ops : list opcode).

Definition op_cls (i : opcode) : op_class := let 'OpObj c _ := i in c.
Definition op_attrs (i : opcode) : list (string * attr) := let 'OpObj _ a := i in a.

(** The value of a key *)
Definition assoc {A} (k : string) (d : list (string * A)) : option A :=
  snd <$> List.find (λ x, String.eqb x.1 k) d.

(** The slots that have a value, with it *)
Definition in_slots {A} (slots : list string) (d : list (string * A)) : list (string * A) :=
  omap (λ name, pair name <$> assoc name d) slots.

(** [OpCode.__getstate__], of [OpInstanceMultiAllocBase] too *)
Fixpoint OpCode_getstate (op : opcode) : pyval :=
  let 'OpObj cls attrs := op in
  VDict (in_slots (oc_slots cls) (map (λ x, (x.1, attr_state x.2)) attrs)
         ++ [("OP_ID", VStr (OP_ID cls))])
with attr_state (a : attr) : pyval :=
  match a with
  | AVal v => v
  | AOps ops => VList (map OpCode_getstate ops)
  end.

Section load.
  (** The classes that are generated from the Haskell sources *)
  Context (OP_MAPPING : string → option op_class).

Definition op_class_of (op_id : pyval) : exc op_class :=
  if negb (hashable op_id) then Raise (PyExn TypeError "unhashable type")
  else match op_id with
  | VStr s => match OP_MAPPING s with
              | Some c => Ok c
              | None => Raise (PyExn ValueError "OP_ID unsupported")
              end
  | _ => Raise (PyExn ValueError "OP_ID unsupported")
  end.

(** [__setstate__]: a slot that is not in the state is deleted, and what is no slot
    cannot be set. *)
Definition OpCode_setstate (cls : op_class) (state : list (string * attr)) : exc opcode :=
  if forallb (λ x, bool_decide (x.1 ∈ oc_slots cls)) state
  then Ok (OpObj cls (in_slots (oc_slots cls) state))
  else Raise (PyExn AttributeError "").

Fixpoint LoadOpCode (data : pyval) : exc opcode :=
  match data with
  | VDict d =>
      match assoc "OP_ID" d with
      | None => Raise (PyExn ValueError "missing OP_ID")
      | Some op_id =>
          let* cls := op_class_of op_id in
          let load_all := fix load_all (l : list pyval) : exc (list opcode) :=
            match l with
            | [] => Ok []
            | x :: l => let* op := LoadOpCode x in rmap (cons op) (load_all l)
            end in
          let load_attr (k : string) (v : pyval) : exc attr :=
            if oc_multi cls && String.eqb k "instances" then
              match v with
              | VList l | VTuple l => rmap AOps (load_all l)
              | VStr "" | VDict [] => Ok (AOps [])
              | VStr _ | VDict _ => Raise (PyExn ValueError "Invalid data to LoadOpCode")
              | _ => Raise (PyExn TypeError "not iterable")
              end
            else Ok (AVal v) in
          let load_state := fix load_state (d : list (string * pyval)) : exc (list (string * attr)) :=
            match d with
            | [] => Ok []
            | (k, v) :: d =>
                if String.eqb k "OP_ID" then load_state d
                else let* a := load_attr k v in rmap (cons (k, a)) (load_state d)
            end in
          let* state := load_state d in
          OpCode_setstate cls state
      end
  | _ => Raise (PyExn ValueError "Invalid data to LoadOpCode")
  end.

(** What the generated classes and the constructor see to *)
Fixpoint opcode_ok (op : opcode) : bool :=
  let 'OpObj cls attrs := op in
  bool_decide (OP_MAPPING (OP_ID cls) = Some cls) && bool_decide (NoDup (oc_slots cls)) &&
  bool_decide ("OP_ID" ∉ oc_slots cls) &&
  bool_decide (attrs.*1 = filter (λ name, name ∈ attrs.*1) (oc_slots cls)) &&
  forallb (λ x, attr_ok (oc_multi cls && String.eqb x.1 "instances") x.2) attrs
with attr_ok (instances : bool) (a : attr) : bool :=
  match a with
  | AVal _ => negb instances
  | AOps ops => instances && forallb opcode_ok ops
  end.

(** Tuples become lists. *)
Fixpoint opcode_norm (op : opcode) : opcode :=
  let 'OpObj cls attrs := op in OpObj cls (map (λ x, (x.1, attr_norm x.2)) attrs)
with attr_norm (a : attr) : attr :=
  match a with
  | AVal v => AVal (json_norm v)
  | AOps ops => AOps (map opcode_norm ops)
  end.

(** Induction over opcodes and those they hold *)
Definition attr_all (P : opcode → Prop) (a : attr) : Prop :=
  match a with AVal _ => True | AOps ops => Forall P ops end.

Lemma opcode_rec' (P : opcode → Prop) :
  (∀ cls attrs, Forall (λ x, attr_all P x.2) attrs → P (OpObj cls attrs)) → ∀ op, P op.
Proof.
  intros HP. fix IH 1. intros [cls attrs]. apply HP.
  induction attrs as [|[k [v|ops]] attrs IHa]; constructor; simpl; auto.
  induction ops as [|op ops IHo]; constructor; [apply IH|apply IHo].
Qed.

Lemma assoc_cons {A} k k' (v : A) d : assoc k ((k', v) :: d) = if String.eqb k' k then Some v else assoc k d.
Proof. unfold assoc. simpl. by destruct (String.eqb k' k). Qed.

Lemma assoc_map {A B} (f : A → B) k d : assoc k (map (λ x, (x.1, f x.2)) d) = f <$> assoc k d.
Proof.
  induction d as [|[k' v] d IH]; [done|]. cbn [map fst snd]. rewrite !assoc_cons, IH.
  by destruct (String.eqb k' k).
Qed.

Lemma in_slots_map {A B} (f : A → B) slots d :
  in_slots slots (map (λ x, (x.1, f x.2)) d) = map (λ x, (x.1, f x.2)) (in_slots slots d).
Proof.
  unfold in_slots. induction slots as [|n slots IH]; [done|]. csimpl. rewrite assoc_map, IH.
  by destruct (assoc n d).
Qed.

Lemma in_slots_sublist {A} slots (d : list (string * A)) :
  NoDup slots → d.*1 `sublist_of` slots → in_slots slots d = d.
Proof.
  intros Hnd Hs. remember d.*1 as keys eqn:Hk. revert d Hk Hnd.
  induction Hs as [|k keys slots Hs IH|k keys slots Hs IH]; intros d Hk Hnd.
  - by destruct d.
  - destruct d as [|[k' v] d]; [done|]. injection Hk as -> ->. apply NoDup_cons in Hnd as [Hn Hnd].
    unfold in_slots. csimpl. rewrite assoc_cons, String.eqb_refl. simpl. f_equal.
    etrans; [|apply (IH d eq_refl Hnd)]. apply list_omap_ext, Forall_Forall2_diag, Forall_forall.
    intros n Hin. rewrite assoc_cons. destruct (String.eqb_spec k' n) as [->|]; done.
  - apply NoDup_cons in Hnd as [Hn Hnd]. unfold in_slots. csimpl.
    assert (assoc k d = None) as ->; [|by apply IH].
    unfold assoc. destruct (List.find _ d) as [[k' v]|] eqn:Hf; [|done].
    apply find_some in Hf as [Hin Heq]. apply String.eqb_eq in Heq. simpl in Heq. subst k'.
    destruct Hn. eapply elem_of_submseteq; [|by apply sublist_submseteq].
    rewrite Hk. apply list_elem_of_fmap. exists (k, v). split; [done|]. by apply list_elem_of_In.
Qed.

Lemma opcode_ok_spec cls attrs :
  opcode_ok (OpObj cls attrs) = true →
  OP_MAPPING (OP_ID cls) = Some cls ∧ ("OP_ID" ∉ oc_slots cls) ∧
  (∀ B (f : attr → B), in_slots (oc_slots cls) (map (λ x, (x.1, f x.2)) attrs) = map (λ x, (x.1, f x.2)) attrs) ∧
  Forall (λ x, x.1 ∈ oc_slots cls ∧
            attr_ok (oc_multi cls && String.eqb x.1 "instances") x.2 = true) attrs.
Proof.
  intros Hok. simpl in Hok. repeat apply andb_true_iff in Hok as [Hok ?].
  rewrite !bool_decide_eq_true in *. rename select (attrs.*1 = _) into Hk.
  assert (attrs.*1 `sublist_of` oc_slots cls) as Hsub.
  { rewrite Hk. apply sublist_filter. }
  split_and!; [done|done| |].
  - intros B f. rewrite in_slots_map. f_equal. by apply in_slots_sublist.
  - rename select (forallb _ _ = true) into Hf. rewrite forallb_forall in Hf. apply Forall_forall.
    intros x Hx. split; [|by apply Hf, list_elem_of_In].
    eapply elem_of_submseteq; [|by apply sublist_submseteq]. apply list_elem_of_fmap. eauto.
Qed.

Lemma OpCode_getstate_ok cls attrs :
  opcode_ok (OpObj cls attrs) = true →
  OpCode_getstate (OpObj cls attrs) =
  VDict (map (λ x, (x.1, attr_state x.2)) attrs ++ [("OP_ID", VStr (OP_ID cls))]).
Proof. intros (_ & _ & Hs & _)%opcode_ok_spec. simpl. by rewrite Hs. Qed.

(** Storing and loading an opcode *)
Lemma LoadOpCode_getstate op :
  opcode_ok op = true → LoadOpCode (json_norm (OpCode_getstate op)) = Ok (opcode_norm op).
Proof.
  induction op as [cls attrs IH] using opcode_rec'. intros Hok. rewrite (OpCode_getstate_ok _ _ Hok).
  destruct (opcode_ok_spec _ _ Hok) as (Hm & Hid & Hs & Hall).
  cbn [json_norm]. rewrite map_app, map_map. cbn [map fst snd LoadOpCode json_norm].
  set (d := map _ attrs).
  assert (assoc "OP_ID" (d ++ [("OP_ID", VStr (OP_ID cls))]) = Some (VStr (OP_ID cls))) as ->.
  { unfold d. clear -Hall Hid. induction Hall as [|[k a] attrs [Hk _] _ IH]; [done|].
    cbn [map app fst snd]. rewrite assoc_cons. destruct (String.eqb_spec k "OP_ID") as [->|]; [done|exact IH]. }
  cbn [rbind op_class_of hashable negb]. rewrite Hm. cbn [rbind].
  match goal with |- rbind (?f _) _ = _ => assert (f (d ++ [("OP_ID", VStr (OP_ID cls))])
    = Ok (map (λ x, (x.1, attr_norm x.2)) attrs)) as -> end.
  { unfold d. clear -IH Hall Hid. induction Hall as [|[k a] attrs [Hk Ha] Hall IHa]; [done|].
    apply Forall_cons in IH as [IHx IH]. specialize (IHa IH). cbn [map app fst snd].
    destruct (String.eqb_spec k "OP_ID") as [->|]; [done|]. cbn [fst snd] in *.
    destruct (oc_multi cls && String.eqb k "instances"), a as [v|ops]; try done; cbn [rbind rmap attr_state json_norm attr_norm].
    - match goal with |- rbind (rmap AOps (?f _)) _ = _ => assert (f (map json_norm (map OpCode_getstate ops))
        = Ok (map opcode_norm ops)) as -> end.
      { clear -IHx Ha. simpl in Ha, IHx. induction IHx as [|op ops Hop _ IHo]; [done|].
        simpl in Ha. apply andb_true_iff in Ha as [Ho Ha]. cbn [map]. rewrite (Hop Ho). cbn [rbind].
        rewrite (IHo Ha). done. }
      cbn [rmap rbind]. by rewrite IHa.
    - by rewrite IHa. }
  cbn [rbind]. unfold OpCode_setstate. rewrite Hs.
  assert (forallb _ (map (λ x : string * attr, (x.1, attr_norm x.2)) attrs) = true) as ->; [|done].
  apply forallb_forall. intros x. rewrite in_map_iff. intros (y & <- & Hy%list_elem_of_In).
  rewrite Forall_forall in Hall. apply bool_decide_eq_true. by apply (Hall y).
Qed.

Lemma OpCode_getstate_norm op : OpCode_getstate (opcode_norm op) = json_norm (OpCode_getstate op).
Proof.
  induction op as [cls attrs IH] using opcode_rec'. cbn [opcode_norm OpCode_getstate json_norm].
  rewrite map_app. cbn [map fst snd json_norm]. do 2 f_equal. rewrite map_map. cbn [fst snd].
  rewrite <-(in_slots_map json_norm), map_map. cbn [fst snd]. f_equal.
  induction IH as [|[k a] attrs Ha _ IHa]; [done|]. cbn [map fst snd]. f_equal; [|exact IHa]. f_equal.
  destruct a as [v|ops]; [done|]. cbn [attr_norm attr_state json_norm]. f_equal. simpl in Ha.
  induction Ha as [|op ops Hop _ IHo]; [done|]. cbn [map]. by f_equal.
Qed.

(** ** The opcodes as the job queue uses them *)

Definition plain (name : string) (op : opcode) : option pyval :=
  match assoc name (op_attrs op) with Some (AVal v) => Some v | _ => None end.

Definition status_named (v : pyval) : option status :=
  match v with
  | VStr s => snd <$> List.find (λ x, String.eqb x.1 s)
      [("canceled", CANCELED); ("success", SUCCESS); ("error", ERROR)]
  | _ => None
  end.

(** A dependency as [BuildJobDepCheck] accepts it *)
Definition dependency_of (v : pyval) : option dependency :=
  match as_sequence v with
  | Some [VInt id; ss] => option_map (λ l : list pyval, (id, omap status_named l)) (as_sequence ss)
  | _ => None
  end.

(** [op.reason = reason] *)
Definition set_reason (r : list pyval) (op : opcode) : opcode :=
  let 'OpObj cls attrs := op in
  OpObj cls (in_slots (oc_slots cls) (("reason", AVal (VList r)) :: attrs)).

#[export] Instance opcode_interface : OpCode opcode := {
  op_priority op := match plain "priority" op with Some (VInt z) => Some z | _ => None end;
  op_depends op :=
    match plain "depends" op with
    | Some v => omap dependency_of (default [] (as_sequence v))
    | None => []
    end;
  op_reason_src prefix op :=
    match NameToReasonSrc (lit (oc_name (op_cls op))) (lit prefix) with
    | Ok (Some s) => VStr (String.string_of_list_ascii s)
    | _ => VNone
    end;
  op_reason op := match plain "reason" op with Some (VList l) => l | _ => [] end;
  op_set_reason := set_reason;
  op_getstate := OpCode_getstate;
  op_load := LoadOpCode
}.

Lemma assoc_in_slots {A} slots (d : list (string * A)) k :
  assoc k (in_slots slots d) = if bool_decide (k ∈ slots) then assoc k d else None.
Proof.
  induction slots as [|n slots IH]; [done|]. unfold in_slots. csimpl.
  destruct (decide (n = k)) as [->|Hne].
  - rewrite bool_decide_eq_true_2 by set_solver. destruct (assoc k d) eqn:E; simpl.
    + by rewrite assoc_cons, String.eqb_refl.
    + fold (in_slots slots d). rewrite IH. by case_bool_decide.
  - rewrite (bool_decide_ext (k ∈ n :: slots) (k ∈ slots)) by set_solver. rewrite <-IH.
    destruct (assoc n d); simpl; [|done]. rewrite assoc_cons.
    by destruct (String.eqb_spec n k).
Qed.

#[export] Instance opcode_laws : OpCodeLaws opcode.
Proof.
  refine {| op_storable := opcode_ok; op_norm := opcode_norm |}.
  - apply LoadOpCode_getstate.
  - apply OpCode_getstate_norm.
  - intros r [cls attrs] Hok. simpl. unfold plain. cbn [op_attrs].
    rewrite assoc_in_slots, assoc_cons. cbn [String.eqb Ascii.eqb Bool.eqb].
    destruct (opcode_ok_spec _ _ Hok) as (_ & _ & Hs & _). specialize (Hs _ id).
    rewrite !(map_ext _ id) in Hs by (by intros []). rewrite !map_id in Hs.
    case_bool_decide as Hd; [done|]. rewrite <-Hs, assoc_in_slots. by rewrite bool_decide_eq_false_2.
Defined.

End load.

(** ** A small kind of opcode *)

(** Opcodes named by a number; the negative ones depend on the job with that
    number. *)
Module Demo.

#[export] Instance demo_op : OpCode Z := {
  op_priority := λ z, if (z =? 9)%Z then Some 10%Z else None;
  op_depends := λ z, if (z <? 0)%Z then [((- z)%Z, [SUCCESS])] else [];
  op_reason_src := λ p z, VStr p;
  op_reason := λ z, [];
  op_set_reason := λ r z, z;
  op_getstate := λ z, VInt z;
  op_load := λ v, match v with VInt z => Ok z | _ => Raise (PyExn TypeError "") end
}.

#[export] Instance demo_op_laws : OpCodeLaws Z.
Proof. by refine {| op_storable _ := true; op_norm z := z |}. Defined.

(** A job with a dependency, a plain opcode and one of low priority. *)
Definition demo_job : job Z wrapper :=
  match new_job 5 [(-3)%Z; 1%Z; 9%Z] true (10%Z, 0%Z) (λ _, 0%Z) with
  | Ok j => j
  | Raise _ => Job 0 [] 0 None None None None None false false None None
  end.

(** The same job after two log messages of its second opcode. *)
Definition demo_logged : job Z wrapper :=
  append_messages 1 (11%Z, 0%Z) (VStr "message") [VStr "a"; VTuple [VInt 1]] demo_job.

Lemma demo_log : log_ok demo_logged ∧ serial_ok demo_logged ∧ log_front 1 demo_logged.
Proof.
  split; [|split; [done|split; [vm_compute; lia|]]].
  - split; [|split; [|done]]; vm_compute; repeat constructor; congruence.
  - intros [|[|[|i]]] o Hlt Ho; try lia; vm_compute in Ho; by simplify_eq.
Qed.

Lemma log_polling_witness :
  GetLogEntries (Some 2%Z)
    (append_messages 1 (12%Z, 0%Z) (VStr "message") [VStr "b"] demo_logged)
  = [LogEntry 3 (12%Z, 0%Z) (VStr "message") (VStr "b")].
Proof.
  exact (proj1 (proj2 (log_polling 1 (12%Z, 0%Z) (VStr "message") [VStr "b"] demo_logged
    (proj1 demo_log) (proj2 (proj2 demo_log))))).
Defined.

(** A job that creates two instances in one opcode, picked up once, so that its
    reason trail has tuples *)
Definition OpInstanceCreate : op_class :=
  OpClass "OpInstanceCreate" "OP_INSTANCE_CREATE" ["name"; "disks"; "reason"; "depends"; "priority"] false.
Definition OpInstanceMultiAlloc : op_class :=
  OpClass "OpInstanceMultiAlloc" "OP_INSTANCE_MULTI_ALLOC" ["instances"; "reason"; "depends"; "priority"] true.

Definition demo_mapping (id : string) : option op_class :=
  if String.eqb id (OP_ID OpInstanceCreate) then Some OpInstanceCreate
  else if String.eqb id (OP_ID OpInstanceMultiAlloc) then Some OpInstanceMultiAlloc else None.

Definition create_op (name : string) : opcode :=
  OpObj OpInstanceCreate [("name", AVal (VStr name)); ("disks", AVal (VTuple [VInt 1024]))].

Definition stored_job : job opcode wrapper :=
  match new_job (H := opcode_interface demo_mapping) 5
          [OpObj OpInstanceMultiAlloc [("instances", AOps [create_op "a"; create_op "b"]);
                                       ("priority", AVal (VInt 0))];
           create_op "c"] true (10%Z, 0%Z) (λ _, 0%Z) with
  | Ok j => append_messages 1 (11%Z, 0%Z) (VStr "message") [VStr "a"; VTuple [VInt 1]] j
  | Raise _ => Job 0 [] 0 None None None None None false false None None
  end.

(** The tuple of the reason trail is a list afterwards. *)
Lemma stored_reason :
  op_reason (OpCode := opcode_interface demo_mapping) (create_op "c") = [] ∧
  (plain "reason" ∘ o_input <$> j_ops stored_job !! 1) =
    Some (Some (VList [VTuple [VStr "gnt:opcode:op_instance_create"; VStr "job=5;index=1"; VInt 0]])) ∧
  (plain "reason" ∘ opcode_norm ∘ o_input <$> j_ops stored_job !! 1) =
    Some (Some (VList [VList [VStr "gnt:opcode:op_instance_create"; VStr "job=5;index=1"; VInt 0]])).
Proof. split_and!; vm_compute; reflexivity. Qed.


Lemma new_job_ok_witness : job_ok demo_job ∧ CalcStatus demo_job = QUEUED.
Proof.
  pose proof (new_job_ok 5 [(-3)%Z; 1%Z; 9%Z] (10%Z, 0%Z) (λ _, 0%Z)) as Hj.
  destruct Hj as (_ & Hj & Hc & _); [done| |by split].
  intros op Hop. assert (op = -3 ∨ op = 1 ∨ op = 9)%Z as [-> |[-> | ->]] by set_solver;
    (split; [done|]; split; [|done]); repeat constructor; vm_compute; congruence.
Defined.
End Demo.
