(* ===== verification/JobRun.v ===== *)
(** * The job processor keeps the job invariant

    What running an opcode may do to its job through the callbacks
    ([run_actions_ok]), the dependency check, and the steps of
    [_JobProcessor.__call__]. *)

From S2P Require Import Prelude Errors Job Mcpu JobQueue JobInv.
#[local] Open Scope nat_scope.
#[local] Open Scope stdpp_scope.

Section job_run.
  Context {I : Type} `{OpCode I}.
  Notation job := (job I wrapper).
  Notation qop := (qop I).
  Notation queue := (queue I).
  Implicit Types (j : job) (o : qop) (q : queue).

(** ** What stays the same while a job is processed *)

Definition okey o : Z * I := (o_priority o, o_input o).

Record same_job j j' : Prop := {
  sj_id : j_id j' = j_id j;
  sj_iter : j_ops_iter j' = j_ops_iter j;
  sj_cur : j_cur_opctx j' = j_cur_opctx j;
  sj_end : j_end j' = j_end j;
  sj_writable : j_writable j' = j_writable j;
  sj_archived : j_archived j' = j_archived j;
  sj_keys : okey <$> j_ops j' = okey <$> j_ops j
}.

Lemma same_job_refl j : same_job j j.
Proof. by split. Qed.

Lemma same_job_trans j1 j2 j3 : same_job j1 j2 → same_job j2 j3 → same_job j1 j3.
Proof. intros [] []. split; congruence. Qed.

Lemma fmap_alter_id {A B} (g : A → B) (f : A → A) n (xs : list A) :
  (∀ x, xs !! n = Some x → g (f x) = g x) → g <$> alter f n xs = g <$> xs.
Proof.
  intros Hf. apply list_eq. intros i. rewrite !list_lookup_fmap, list_lookup_alter.
  case_decide; [subst|done]. destruct (xs !! i) as [x|] eqn:E; [|done]. simpl. by rewrite Hf.
Qed.

Lemma same_job_with_op n j f :
  (∀ o, j_ops j !! n = Some o → okey (f o) = okey o) → same_job j (with_op n j f).
Proof. intros Hf. split; try done. by apply fmap_alter_id. Qed.

Lemma Forall_alter {A} (P : A → Prop) (f : A → A) n (xs : list A) :
  Forall P xs → (∀ x, xs !! n = Some x → P x → P (f x)) → Forall P (alter f n xs).
Proof.
  rewrite !Forall_lookup. intros Hall Hf i x. rewrite list_lookup_alter.
  case_decide; [subst|by eauto]. intros (y & Hy & ->)%fmap_Some. eauto.
Qed.

(** ** Running an opcode *)

(** The opcode at [n] runs ([running]), waits, or is to be cancelled. *)
Definition mid (n k : nat) (running : bool) j : Prop :=
  if running then shape n RUNNING QUEUED k j
  else shape n WAITING QUEUED k j ∨ shape n CANCELING CANCELING k j.

Record exec_inv (n k : nat) (running : bool) j : Prop := {
  ei_mid : mid n k running j;
  ei_ops : Forall op_ok (j_ops j);
  ei_end : j_end j = None;
  ei_writable : j_writable j = true;
  ei_archived : j_archived j = false
}.

Lemma mid_CalcStatus n k running j :
  mid n k running j → CalcStatus j ∈ [RUNNING; WAITING; CANCELING].
Proof.
  unfold mid. destruct running; [intros Hs|intros [Hs|Hs]];
    (erewrite shape_CalcStatus; [|done|set_solver]); set_solver.
Qed.

Lemma exec_update n k running j q :
  exec_inv n k running j →
  UpdateJobUnlocked j q = Ok (set_files (<[j_id j := file_of j]> (q_files q)) q).
Proof.
  intros Hi. apply UpdateJobUnlocked_ok; [|apply Hi..]. rewrite (ei_end _ _ _ _ Hi).
  pose proof (mid_CalcStatus _ _ _ _ (ei_mid _ _ _ _ Hi)) as Hs.
  destruct (CalcStatus j); set_solver.
Qed.

Lemma cb_update_ok n k running s :
  exec_inv n k running s.2 → ∃ q, cb_update s = ((q, s.2), None).
Proof. intros Hi. unfold cb_update. rewrite (exec_update _ _ _ _ _ Hi). by eexists. Qed.

(** Where an action leaves the opcode: running or not. *)
Definition phase (a : action) (running : bool) : bool :=
  match a with ANotifyStart _ => true | ANotifyRetry => false | _ => running end.

(** The state an action leaves behind, whether it raised or not. *)
Definition action_post (n k : nat) (running : bool) j0 (r : cb_state * option cb_exit) : Prop :=
  same_job j0 r.1.2 ∧
  match r.2 with
  | None => exec_inv n k running r.1.2
  | Some XCancelJob => exec_inv n k false r.1.2 ∧ shape n CANCELING CANCELING k r.1.2
  | Some (XExn _) => ∃ b, exec_inv n k b r.1.2
  end.

Lemma exec_inv_set_status n k running running' x' j f :
  exec_inv n k running j →
  (∀ o, j_ops j !! n = Some o → op_ok o → okey (f o) = okey o ∧ op_ok (f o) ∧ o_status (f o) = x') →
  (shape n x' QUEUED k (with_op n j f) → mid n k running' (with_op n j f)) →
  running = true ∨ shape n WAITING QUEUED k j →
  exec_inv n k running' (with_op n j f) ∧ same_job j (with_op n j f).
Proof.
  intros Hi Hf Hmid Hs.
  assert (∀ o, j_ops j !! n = Some o → op_ok o) as Hok.
  { intros o Ho. eapply Forall_lookup_1; [apply Hi|done]. }
  split; [|apply same_job_with_op; intros o Ho; apply Hf; auto].
  split; simpl; try apply Hi.
  - apply Hmid. assert (∃ x, shape n x QUEUED k j) as [x Hx].
    { destruct Hs as [->|Hs]; [eexists; apply (ei_mid _ _ _ _ Hi)|by eauto]. }
    eapply shape_with_op; [exact Hx|]. intros o Ho. by apply Hf; auto.
  - apply Forall_alter; [apply Hi|]. intros o Ho Hoo. by apply Hf.
Qed.

Lemma NotifyStart_ok n k running now q j :
  exec_inv n k running j →
  action_post n k true j (NotifyStart n now (q, j)).
Proof.
  intros Hi. unfold NotifyStart. simpl.
  pose proof (ei_mid _ _ _ _ Hi) as Hm. destruct running; simpl in Hm.
  { destruct (shape_get _ _ _ _ _ Hm) as (o & -> & ->). simpl. split; [apply same_job_refl|].
    by exists true. }
  destruct Hm as [Hm|Hm]; destruct (shape_get _ _ _ _ _ Hm) as (o & Ho & Hst);
    rewrite Ho, Hst; unfold CheckCancel; rewrite Hst; simpl.
  - destruct (exec_inv_set_status n k false true RUNNING j
      (λ o, set_times (o_start o) (Some now) (o_end o) (set_status RUNNING o)))
      as [Hi' Hj']; [done| |done|by right|].
    + intros o' Ho' [Hp He Hd]. assert (o' = o) as -> by congruence.
      unfold okey. simpl. rewrite Hst in *. split_and!; [done|split; simpl; [done| |done]|done].
      intros _. apply He. set_solver.
    + set (s := (q, with_op n j _)). destruct (cb_update_ok _ _ _ s Hi') as [q' ->].
      by split.
  - split; [apply same_job_refl|]. by split.
Qed.

Lemma CurrentPriority_ok n k running q j :
  exec_inv n k running j → action_post n k running j (CurrentPriority n (q, j)).
Proof.
  intros Hi. unfold CurrentPriority. simpl.
  pose proof (ei_mid _ _ _ _ Hi) as Hm. destruct running; simpl in Hm.
  { destruct (shape_get _ _ _ _ _ Hm) as (o & -> & ->). simpl. split; [apply same_job_refl|].
    by exists true. }
  destruct Hm as [Hm|Hm]; destruct (shape_get _ _ _ _ _ Hm) as (o & Ho & Hst);
    rewrite Ho, Hst; unfold CheckCancel; rewrite Hst; simpl;
    (split; [apply same_job_refl|]); [done|by split].
Qed.

Lemma NotifyRetry_ok n k q j :
  exec_inv n k true j → action_post n k false j (NotifyRetry n (q, j)).
Proof.
  intros Hi. unfold NotifyRetry. simpl.
  destruct (shape_get _ _ _ _ _ (ei_mid _ _ _ _ Hi)) as (o & Ho & Hst).
  destruct (exec_inv_set_status n k true false WAITING j (set_status WAITING))
    as [Hi' Hj']; [done| |by left|by left|by split].
  intros o' Ho' [Hp He Hd]. assert (o' = o) as -> by congruence.
  unfold okey. simpl. rewrite Hst in *. split_and!; [done|split; simpl; [done| |done]|done].
  intros _. apply He. set_solver.
Qed.

(** Changes to the log alone. *)
Lemma append_messages_ok n k running now ty msgs j :
  exec_inv n k running j →
  exec_inv n k running (append_messages n now ty msgs j) ∧
  same_job j (append_messages n now ty msgs j).
Proof.
  revert j. induction msgs as [|m msgs IH]; intros j Hi; simpl; [by split; [|apply same_job_refl]|].
  set (j1 := with_op _ _ _).
  assert (sts j1 = sts j) as Hsts by (unfold sts, j1; simpl; by rewrite fmap_alter_id).
  assert (same_job j j1) as Hj1.
  { unfold j1. split; try done. simpl. by apply fmap_alter_id. }
  destruct (IH j1) as [Hi2 Hj2]; [|split; [done|by eapply same_job_trans]].
  split; simpl; try apply Hi.
  - pose proof (ei_mid _ _ _ _ Hi) as Hm. unfold mid, shape in *. by rewrite Hsts.
  - apply Forall_alter; [apply Hi|]. by intros o _ [].
Qed.

Lemma Feedback_ok n k running now args q j :
  exec_inv n k running j → action_post n k running j (Feedback n now args (q, j)).
Proof.
  intros Hi. assert (∀ e, action_post n k running j ((q, j), Some (XExn e))) as Hexn
    by (split; [apply same_job_refl|simpl; by eauto]).
  assert (∀ ty msg, action_post n k running j (AppendFeedback n now ty msg (q, j))) as Happ.
  { intros ty msg. unfold AppendFeedback.
    destruct (match ty with VStr t => _ | _ => _ end) as [[ty' msgs]|e]; [|done].
    simpl. destruct (append_messages_ok n k running now ty' msgs j Hi) as [Hi' Hj'].
    destruct (cb_update_ok _ _ _ (q, append_messages n now ty' msgs j) Hi') as [q' ->].
    split; [exact Hj'|exact Hi']. }
  unfold Feedback. destruct args as [|? [|? [|? ?]]]; auto.
Qed.

Lemma marked_keys s r (ops : list qop) : okey <$> marked s r ops = okey <$> ops.
Proof.
  unfold marked. rewrite <-list_fmap_compose. apply list_fmap_ext.
  intros i o _. simpl. by destruct (finalized (o_status o)).
Qed.

Lemma marked_ok s r (ops : list qop) :
  (s ∉ [QUEUED; WAITING; RUNNING]) → Forall op_ok ops → Forall op_ok (marked s r ops).
Proof.
  intros Hs Hall. unfold marked. apply Forall_fmap. eapply Forall_impl; [exact Hall|].
  intros o [Hp He Hd]. simpl. destruct (finalized (o_status o)); [done|]. by split.
Qed.

Lemma cancel_waiting n k now j :
  exec_inv n k false j → shape n WAITING QUEUED k j →
  ∃ j', Cancel now j = Ok (j', true) ∧ exec_inv n k false j' ∧ same_job j j' ∧
        shape n CANCELING CANCELING k j'.
Proof.
  intros Hi Hm. unfold Cancel.
  rewrite (shape_CalcStatus _ _ _ _ _ Hm) by set_solver.
  destruct (MarkUnfinishedOps_shape CANCELING VNone _ _ _ _ _ Hm eq_refl) as [-> Hs'].
  simpl in *. eexists. split; [done|]. split; [|split; [|done]].
  - split; simpl; try apply Hi; [by right|]. apply marked_ok; [set_solver|apply Hi].
  - split; try done. simpl. by apply marked_keys.
Qed.

Lemma ACancel_ok n k running now q j :
  exec_inv n k running j → action_post n k running j (run_action n (ACancel now) (q, j)).
Proof.
  intros Hi. simpl. pose proof (ei_mid _ _ _ _ Hi) as Hm. destruct running; simpl in Hm.
  { unfold Cancel. rewrite (shape_CalcStatus _ _ _ _ _ Hm) by set_solver.
    split; [apply same_job_refl|done]. }
  destruct Hm as [Hm|Hm].
  - destruct (cancel_waiting n k now j Hi Hm) as (j' & -> & ? & ? & ?). by split.
  - unfold Cancel. rewrite (shape_CalcStatus _ _ _ _ _ Hm) by set_solver.
    split; [apply same_job_refl|done].
Qed.

(** The discipline of the code that runs opcodes: an opcode goes back to
    waiting only if it was running. *)
Fixpoint acts_ok (running : bool) (acts : list action) : bool :=
  match acts with
  | [] => true
  | a :: acts =>
      match a with ANotifyRetry => running | _ => true end && acts_ok (phase a running) acts
  end.

Definition last_phase (running : bool) (acts : list action) : bool :=
  foldl (λ b a, phase a b) running acts.

Lemma run_action_ok n k running a q j :
  exec_inv n k running j → match a with ANotifyRetry => running | _ => true end = true →
  action_post n k (phase a running) j (run_action n a (q, j)).
Proof.
  intros Hi Ha. destruct a.
  - by eapply NotifyStart_ok.
  - subst. by apply NotifyRetry_ok.
  - by apply Feedback_ok.
  - by apply CurrentPriority_ok.
  - by apply ACancel_ok.
Qed.

Lemma run_actions_ok n k running acts q j :
  exec_inv n k running j → acts_ok running acts = true →
  action_post n k (last_phase running acts) j (run_actions n acts (q, j)).
Proof.
  revert running q j. induction acts as [|a acts IH]; intros running q j Hi Ha; simpl.
  { split; [apply same_job_refl|done]. }
  simpl in Ha. apply andb_true_iff in Ha as [Ha Has].
  pose proof (run_action_ok n k running a q j Hi Ha) as Hp.
  destruct (run_action n a (q, j)) as [[q1 j1] [x|]]; [by destruct x|].
  destruct Hp as [Hj1 Hi1]. simpl in *. destruct (IH _ q1 j1 Hi1 Has) as [Hj2 Hr].
  split; [by eapply same_job_trans|done].
Qed.

(** ** Dependencies *)

Lemma Restore_writable (s : job_state) w a j : Restore s w a = Ok j → j_writable j = w.
Proof.
  unfold Restore. destruct (get_key (js_id s)); [|done]. simpl.
  destruct (get_key (js_ops s)); [|done]. simpl.
  destruct (restore_ops _ _) as [[]|]; [|done]. by intros [= <-].
Qed.

(** Loading never raises anything but the two exceptions that are caught. *)
Lemma SafeLoad_ok id tr w q :
  ∃ r : option job, SafeLoadJobFromDisk id tr (Some w) q = Ok r ∧
    match r with Some j => j_writable j = w | None => True end.
Proof.
  assert (∀ f arch, ∃ r : option job,
    match match f with
          | None | Some FEmpty => Ok None
          | Some (FState s) => match Restore s w arch with
                               | Ok j => Ok (Some j)
                               | Raise _ => Raise (GntExn JobFileCorrupted [])
                               end
          | Some _ => Raise (GntExn JobFileCorrupted [])
          end with
    | Raise (GntExn c args) => if issubclass c JobFileCorrupted then Ok None
                               else Raise (GntExn c args)
    | Raise (PyExn EnvironmentError _) => Ok None
    | r => r
    end = Ok r ∧ match r with Some j => j_writable j = w | None => True end) as Hr.
  { intros [[| | |s]|] arch; simpl; try by eexists.
    destruct (Restore s w arch) as [j|] eqn:E; simpl; [|by eexists].
    eexists. split; [done|]. by eapply Restore_writable. }
  unfold SafeLoadJobFromDisk, LoadJobFromDisk.
  destruct (q_files q !! id) as [f|]; simpl.
  - destruct f as [| | |s]; [by eexists..|]. apply (Hr (Some (FState s))).
  - destruct tr; simpl; [|by eexists]. destruct (q_archive q !! id) as [f|]; simpl; [|by eexists].
    destruct f as [| | |s]; [by eexists..|]. apply (Hr (Some (FState s))).
Qed.

Lemma GetJobStatus_ok id q :
  (∃ st, GetJobStatusForDependencies id q = Ok st) ∨
  ∃ args, GetJobStatusForDependencies id q = Raise (GntExn JobLost args).
Proof.
  unfold GetJobStatusForDependencies. destruct (SafeLoad_ok id true false q) as ([j|] & -> & Hw);
    simpl; [rewrite Hw; simpl|]; eauto.
Qed.

Lemma JobWaiting_spec id q :
  JobWaiting id q = true ↔ ∃ d ws, q_waiters q !! d = Some ws ∧ id ∈ ws.
Proof.
  unfold JobWaiting. rewrite existsb_exists. setoid_rewrite <-list_elem_of_In. split.
  - intros ([d ws] & Hin%elem_of_map_to_list & Hb%bool_decide_eq_true). eauto.
  - intros (d & ws & Hd & Hin). exists (d, ws). split; [by apply elem_of_map_to_list|].
    by apply bool_decide_eq_true.
Qed.

Lemma CheckAndRegister_ok id dep_id dep_st q :
  (0 ≤ id)%Z → (0 ≤ dep_id)%Z → forallb finalized dep_st = true →
  ∃ q' r msg, CheckAndRegister id dep_id dep_st q = Ok (q', (r, msg)) ∧ msg ≠ ""%string ∧
    q_files q' = q_files q ∧ (r = WAIT → JobWaiting id q' = true).
Proof.
  intros Hid Hdep Hfin. unfold CheckAndRegister.
  apply Z.leb_le in Hid as ->. apply Z.leb_le in Hdep as ->. rewrite Hfin. simpl.
  case_decide; [by eexists _, _, _|].
  destruct (GetJobStatus_ok dep_id q) as [[st ->]|[args ->]]; simpl; [|by eexists _, _, _].
  destruct (finalized st); simpl.
  - repeat case_match; by eexists _, _, _.
  - eexists _, _, _. split; [done|]. split; [done|]. split; [done|]. intros _.
    apply JobWaiting_spec. exists dep_id. simpl. rewrite lookup_insert_eq.
    eexists. split; [done|]. set_solver.
Qed.

Lemma CheckDependencies_ok n k now deps q j :
  exec_inv n k false j → shape n WAITING QUEUED k j → deps_ok deps → (0 ≤ j_id j)%Z →
  ∃ q' j' deps' waitjob, CheckDependencies n now deps q j = Ok (q', j', deps', waitjob) ∧
    deps_ok deps' ∧ same_job j j' ∧ Forall op_ok (j_ops j') ∧ q_files q' = q_files q ∧
    (if waitjob : bool then shape n WAITING QUEUED k j' ∧ JobWaiting (j_id j') q' = true
     else shape n WAITING QUEUED k j' ∧ j' = j ∧ deps' = [] ∨
          shape n CANCELING CANCELING k j' ∨ shape n ERROR QUEUED k j').
Proof.
  intros Hi Hs Hd Hid. revert q. induction deps as [|[d st] deps IH]; intros q; simpl.
  { exists q, j, [], false. split; [done|]. split; [done|]. split; [apply same_job_refl|].
    split; [apply Hi|]. split; [done|by left]. }
  apply Forall_cons in Hd as [[Hd0 Hst] Hds].
  destruct (CheckAndRegister_ok (j_id j) d st q) as (q1 & r & msg & -> & Hmsg & Hfiles & Hw);
    [done..|]. simpl. rewrite bool_decide_false by done. simpl.
  destruct r.
  - eexists _, _, _, true. split; [done|]. split; [by constructor|].
    split; [apply same_job_refl|]. split; [apply Hi|]. split; [done|]. by split; [|apply Hw].
  - eexists _, _, _, false. split; [done|]. split; [by constructor|].
    split; [by apply same_job_with_op|]. split; [|split; [done|right; right]].
    + apply Forall_alter; [apply Hi|]. intros o _ [Hp _ Hdp]. split; simpl; [done| |done]. set_solver.
    + eapply shape_with_op; [done|]. done.
  - destruct (cancel_waiting n k now j Hi Hs) as (j' & -> & Hi' & Hj' & Hs'). simpl.
    destruct (shape_get_op _ _ _ _ _ Hs') as (o & -> & _ & Ho). simpl. rewrite Ho. simpl.
    eexists _, _, _, false. split; [done|]. split; [by constructor|]. split; [done|].
    split; [apply Hi'|]. split; [done|]. right. by left.
  - destruct (IH Hds q1) as (q' & j' & deps' & w & -> & ? & ? & ? & Hq & ?).
    exists q', j', deps', w. split_and!; try done. by rewrite Hq.
  - eexists _, _, _, false. split; [done|]. split; [by constructor|].
    split; [by apply same_job_with_op|]. split; [|split; [done|right; right]].
    + apply Forall_alter; [apply Hi|]. intros o _ [Hp _ Hdp]. split; simpl; [done| |done]. set_solver.
    + eapply shape_with_op; [done|]. done.
Qed.
End job_run.
