(* ===== verification/JobProc.v ===== *)
(** * The steps of the job processor

    Finding the next opcode, running it, keeping it for another round or
    finishing it: each part of [_JobProcessor.__call__] on a job of a known
    shape, and the budget of lock attempts that every deferral uses up. *)

From S2P Require Import Prelude Errors Job Mcpu JobQueue JobInv JobRun.
#[local] Open Scope nat_scope.
#[local] Open Scope stdpp_scope.

(** ** Lock attempts *)

(** How many non-blocking attempts a strategy has left. *)
Definition attempts (w : wrapper) : nat :=
  length (w_left w) + match w_next w with Some _ => 1 | None => 0 end.

Lemma Advance_spec r w :
  attempts (Advance r w) = attempts w ∧ (w_next (Advance r w) = None ↔ attempts w = 0).
Proof.
  unfold Advance, attempts. destruct w as [[|t l] [n|]]; simpl; naive_solver lia.
Qed.

Lemma Next_attempts r w t :
  (Next r w).2 = Some t → attempts (Next r w).1 + 1 = attempts w.
Proof.
  destruct (Advance_spec r w) as [<- _]. unfold Next, attempts. simpl.
  destruct (w_next (Advance r w)); simpl; [lia|done].
Qed.

Lemma Peek_attempts r w :
  attempts (Peek r w).1 = attempts w ∧ ((Peek r w).2 = None ↔ attempts w = 0).
Proof. apply Advance_spec. Qed.

Section job_proc.
  Context {I : Type} `{OpCode I} (timeouts : strategy).
  Notation job := (job I wrapper).
  Notation qop := (qop I).
  Notation queue := (queue I).
  Notation opctx := (opctx wrapper).
  Implicit Types (j : job) (o : qop) (q : queue).

(** The contract of the code that runs opcodes: it goes back to waiting only
    from running, and it gives up on a lock only while waiting and only if it
    was given a time-out. *)
Definition legal_exec (e : exec_in) (timeout : option Q) : bool :=
  acts_ok false (ex_actions e) &&
  match ex_result e with
  | LockAcquireTimeout => negb (last_phase false (ex_actions e)) && is_some timeout
  | _ => true
  end.

(** The part of it that does not depend on the time-out: the processor of opcodes
    calls [NotifyRetry] before it gives up a running opcode (mcpu.py). *)
Definition keeps_phases (e : exec_in) : bool :=
  acts_ok false (ex_actions e) &&
  match ex_result e with
  | LockAcquireTimeout => negb (last_phase false (ex_actions e))
  | _ => true
  end.

Lemma legal_exec_phases e timeout :
  keeps_phases e = true → legal_exec e timeout = false → ex_result e = LockAcquireTimeout ∧ timeout = None.
Proof.
  unfold keeps_phases, legal_exec. intros [-> He]%andb_true_iff. cbn [andb].
  destruct (ex_result e); [|done..]. rewrite He. cbn [andb]. intros Ht. split; [done|].
  apply bool_decide_eq_false in Ht. by apply eq_None_not_Some.
Qed.

Lemma exec_inv_shape n k b j :
  exec_inv n k b j → ∃ x y, shape n x y k j ∧ (y = QUEUED ∨ y = CANCELING).
Proof.
  intros Hi. pose proof (ei_mid _ _ _ _ Hi) as Hm. unfold mid in Hm.
  destruct b; [by eauto|]. destruct Hm; eauto.
Qed.

(** How [_ExecOpCodeUnlocked] leaves the job and what it returns. *)
Definition exec_post (n k : nat) (timeout : option Q) j' (st : status) : Prop :=
  st = CANCELING ∧ shape n CANCELING CANCELING k j' ∨
  st = WAITING ∧ shape n WAITING QUEUED k j' ∧ is_Some timeout ∨
  st ∈ [ERROR; SUCCESS].

Lemma ExecOpCodeUnlocked_ok n k inp x q j :
  exec_inv n k false j → shape n WAITING QUEUED k j → x_index x = n →
  let r := Next (c_rand_next inp) (x_strategy x) in
  legal_exec (c_exec inp) r.2 = true →
  ∃ q' j' st res, ExecOpCodeUnlocked inp x q j
      = Ok (q', j', OpCtx n (x_jobdeps x) r.1, (st, res)) ∧
    same_job j j' ∧ (∃ b, exec_inv n k b j') ∧ exec_post n k r.2 j' st.
Proof.
  intros Hi Hs Hx. cbv zeta. unfold ExecOpCodeUnlocked. rewrite Hx.
  destruct (Next (c_rand_next inp) (x_strategy x)) as [w timeout]. cbn [fst snd].
  intros [Hacts Hres]%andb_true_iff.
  destruct (shape_get_op _ _ _ _ _ Hs) as (o & -> & _ & Ho). simpl. rewrite Ho. simpl.
  pose proof (run_actions_ok n k false (ex_actions (c_exec inp)) q j Hi Hacts) as Hp.
  destruct (run_actions n _ (q, j)) as [[q' j'] exit]. destruct Hp as [Hj Hp]. simpl in *.
  assert (∃ b, exec_inv n k b j') as Hb.
  { destruct exit as [[]|]; [destruct Hp; by eauto|done|by eauto]. }
  assert (∃ o', get_op n j' = Ok o') as [o' Ho'].
  { destruct Hb as [b (y & z & Hs' & _)%exec_inv_shape].
    destruct (shape_get_op _ _ _ _ _ Hs') as (o' & ? & _). by eauto. }
  rewrite Ho'. simpl. destruct exit as [[|e]|].
  - destruct Hp as [Hi' Hs']. destruct (shape_get_op _ _ _ _ _ Hs') as (o1 & E & _ & Ho1).
    rewrite E in Ho'. injection Ho' as ->. rewrite Ho1. simpl.
    eexists _, _, _, _. split; [done|]. split; [done|]. split; [done|]. by left.
  - eexists _, _, _, _. split; [done|]. split; [done|]. split; [done|]. right; right. set_solver.
  - destruct (ex_result (c_exec inp)) as [|e|v].
    + apply andb_true_iff in Hres as [Hph Hto]. apply negb_true_iff in Hph.
      rewrite Hph in Hp.
      unfold is_some in Hto |- *. rewrite Hto. simpl.
      destruct (ei_mid _ _ _ _ Hp) as [Hs'|Hs'];
        destruct (shape_get_op _ _ _ _ _ Hs') as (o1 & E & _ & Ho1);
        rewrite E in Ho'; injection Ho' as ->; rewrite Ho1; simpl;
        eexists _, _, _, _; (split; [done|]); (split; [done|]); (split; [done|]).
      * right; left. split; [done|]. split; [done|]. by apply bool_decide_eq_true in Hto.
      * by left.
    + eexists _, _, _, _. split; [done|]. split; [done|]. split; [done|]. right; right. set_solver.
    + eexists _, _, _, _. split; [done|]. split; [done|]. split; [done|]. right; right. set_solver.
Qed.

(** ** Running the current opcode *)

(** A job whose opcode [n] has been picked for execution. *)
Record picked (n : nat) j : Prop := {
  pk_ops : Forall op_ok (j_ops j);
  pk_end : j_end j = None;
  pk_writable : j_writable j = true;
  pk_archived : j_archived j = false;
  pk_id : (0 ≤ j_id j)%Z;
  pk_iter : j_ops_iter j = Some (S n);
  pk_cur : j_cur_opctx j = None
}.

Lemma picked_same n j j' :
  picked n j → same_job j j' → Forall op_ok (j_ops j') → picked n j'.
Proof. intros [] [] Hok. split; congruence. Qed.

(** The opcode is over: cancelled, failed or successful. *)
Definition op_over (n k : nat) j : Prop :=
  shape n CANCELING CANCELING k j ∨
  ∃ st y, shape n st y k j ∧ st ∈ [ERROR; SUCCESS] ∧ (y = QUEUED ∨ y = CANCELING).

Lemma set_end_ok n k t j :
  picked n j → op_over n k j →
  let j' := with_op n j (λ o, set_times (o_start o) (o_exec o) (Some t) o) in
  picked n j' ∧ op_over n k j' ∧ same_job j j'.
Proof.
  intros Hp Ho j'. assert (same_job j j') as Hj by (by apply same_job_with_op).
  assert (∃ st y, shape n st y k j ∧ st ∈ [CANCELING; ERROR; SUCCESS]) as (st & y & Hs & Hst).
  { destruct Ho as [?|(st & y & ? & ? & ?)]; [|]; eexists _, _; (split; [done|]); set_solver. }
  split; [|split; [|done]].
  - eapply picked_same; [done|done|]. apply Forall_alter; [apply Hp|].
    intros o Hl [Hpr _ Hd]. split; simpl; [done| |done].
    assert (o_status o = st) as ->; [|set_solver].
    destruct (shape_get _ _ _ _ _ Hs) as (o' & Ho' & ?). congruence.
  - destruct Ho as [Hc|(st' & y' & Hs' & ? & ?)].
    + left. eapply shape_with_op; [done|]. intros o Hl. simpl.
      destruct (shape_get _ _ _ _ _ Hc) as (o' & Ho' & ?). congruence.
    + right. exists st', y'. split; [|done]. eapply shape_with_op; [done|]. intros o Hl. simpl.
      destruct (shape_get _ _ _ _ _ Hs') as (o' & Ho' & ?). congruence.
Qed.

Lemma picked_exec n k j :
  picked n j → shape n WAITING QUEUED k j → exec_inv n k false j.
Proof. intros [] Hs. split; try done. by left. Qed.

(** [_MarkWaitlock] and the write that may follow. *)
Lemma MarkWaitlock_ok n x0 k now q j :
  picked n j → shape n x0 QUEUED k j → x0 ∈ [QUEUED; WAITING] →
  ∃ j' update q', MarkWaitlock n now j = Ok (j', update) ∧
    (if update : bool then UpdateJobUnlocked j' q else Ok q) = Ok q' ∧
    picked n j' ∧ shape n WAITING QUEUED k j' ∧ same_job j j' ∧
    is_some (j_start j') = true ∧
    ∃ o, get_op n j' = Ok o ∧ o_status o = WAITING ∧ is_some (o_start o) = true.
Proof.
  intros Hp Hs Hx0. unfold MarkWaitlock.
  destruct (shape_get_op _ _ _ _ _ Hs) as (o & -> & Hl & Ho). simpl.
  assert (bool_decide (o_status o = QUEUED) || bool_decide (o_status o = WAITING) = true) as ->.
  { rewrite Ho. destruct x0; set_solver. }
  simpl. set (update := _ || negb (is_some (j_start j))).
  set (o' := set_times _ _ _ _). set (j' := set_start _ _).
  assert (j' = set_start (j_start j') (with_op n j (λ _, o'))) as Ej.
  { unfold j', with_op. simpl. f_equal. unfold set_ops. f_equal.
    apply list_eq. intros i. rewrite list_lookup_alter, list_lookup_insert.
    pose proof (lookup_lt_Some _ _ _ Hl). rewrite Hl.
    repeat case_decide; naive_solver. }
  assert (same_job j j') as Hj.
  { rewrite Ej. split; try done. apply fmap_alter_id. intros o1 Ho1. 
    assert (o1 = o) as -> by congruence. done. }
  assert (shape n WAITING QUEUED k j') as Hs'.
  { rewrite Ej. change (shape n WAITING QUEUED k (with_op n j (λ _, o'))).
    by eapply shape_with_op. }
  assert (picked n j') as Hp'.
  { eapply picked_same; [done|done|]. rewrite Ej. apply Forall_alter; [apply Hp|].
    intros o1 Ho1 [Hpr He Hd]. assert (o1 = o) as -> by congruence.
    split; simpl; [done| |done]. intros _. apply He. rewrite Ho. set_solver. }
  pose proof (exec_update _ _ _ _ q (picked_exec _ _ _ Hp' Hs')) as Hu.
  exists j', update,
    (if update then set_files (<[j_id j' := file_of j']> (q_files q)) q else q).
  split; [done|]. split; [by destruct update|]. do 3 (split; [done|]). split; [done|].
  exists o'. split_and!; [|done|done]. unfold get_op. rewrite Ej. simpl.
  by rewrite list_lookup_alter_eq, Hl.
Qed.

(** What the execution of a picked opcode leads to. *)
Definition run_post (n k : nat) (w : wrapper) (x' : opctx) (waitjob : bool) q' j' : Prop :=
  if waitjob then shape n WAITING QUEUED k j' ∧ JobWaiting (j_id j') q' = true
  else shape n WAITING QUEUED k j' ∧ attempts (x_strategy x') + 1 = attempts w ∨
       op_over n k j'.

(** The status and result returned are stored in the opcode. *)
Lemma store_result_ok n k timeout b st res j :
  picked n j → exec_inv n k b j → exec_post n k timeout j st →
  let j' := with_op n j (λ o, set_result res (set_status st o)) in
  picked n j' ∧ same_job j j' ∧
  (st = WAITING ∧ shape n WAITING QUEUED k j' ∧ is_Some timeout ∨
   (st ∉ [WAITING; QUEUED]) ∧ op_over n k j').
Proof.
  intros Hp Hi Hpost j'. assert (same_job j j') as Hj by (by apply same_job_with_op).
  split; [|split; [done|]].
  - eapply picked_same; [done|done|]. apply Forall_alter; [apply Hp|].
    intros o Hl [Hpr He Hd]. split; simpl; [done| |done]. intros Hst.
    destruct Hpost as [[-> _]|[(-> & Hs & _)|Hst']]; [set_solver| |set_solver].
    apply He. destruct (shape_get _ _ _ _ _ Hs) as (o' & Ho' & Hw).
    assert (o' = o) as -> by congruence. rewrite Hw. set_solver.
  - destruct Hpost as [[-> Hs]|[(-> & Hs & Ht)|Hst]].
    + right. split; [set_solver|]. left. by eapply shape_with_op.
    + left. split; [done|]. split; [|done]. by eapply shape_with_op.
    + right. split; [set_solver|]. right.
      destruct (exec_inv_shape _ _ _ _ Hi) as (z & y & Hs & Hy).
      exists st, y. split; [by eapply shape_with_op|done].
Qed.

Lemma op_over_get n k j :
  op_over n k j → ∃ o, get_op n j = Ok o ∧ j_ops j !! n = Some o ∧
    bool_decide (o_status o ∈ [WAITING; QUEUED]) = false ∧
    (if bool_decide (o_status o = CANCELING)
     then shape n CANCELING CANCELING k j else finalized (o_status o) = true).
Proof.
  intros [Hs|(st & y & Hs & Hst & _)];
    destruct (shape_get_op _ _ _ _ _ Hs) as (o & ? & ? & Ho); exists o;
    rewrite Ho; split_and!; try done.
  - destruct st; set_solver.
  - destruct st; set_solver.
Qed.

Lemma waiting_end n k j :
  Forall op_ok (j_ops j) → shape n WAITING QUEUED k j →
  ∃ o, get_op n j = Ok o ∧ o_status o = WAITING ∧ o_end o = None.
Proof.
  intros Hok Hs. destruct (shape_get_op _ _ _ _ _ Hs) as (o & Hg & Hl & Ho).
  exists o. split_and!; [done..|]. apply (Forall_lookup_1 _ _ _ _ Hok Hl).
  rewrite Ho. set_solver.
Qed.

Lemma record_end_ok inp n k j :
  picked n j → shape n WAITING QUEUED k j ∨ op_over n k j →
  ∃ j', record_end inp n j = Ok j' ∧ picked n j' ∧ same_job j j' ∧
        (shape n WAITING QUEUED k j → j' = j) ∧ (op_over n k j → op_over n k j').
Proof.
  intros Hp Hcase. unfold record_end. destruct Hcase as [Hs|Ho].
  - destruct (waiting_end n k j) as (o & Hg & Hw & He); [apply Hp|done|].
    rewrite Hg. simpl. rewrite Hw, He. simpl. exists j.
    split; [done|]. split; [done|]. split; [apply same_job_refl|]. done.
  - destruct (op_over_get _ _ _ Ho) as (o & Hg & Hl & Hw & Hc). rewrite Hg. cbn [rbind].
    rewrite Hw. set (j' := with_op n j _).
    destruct (set_end_ok n k (c_now_end inp) j Hp Ho) as (Hp' & Ho' & Hj'). fold j' in Hp', Ho', Hj'.
    assert ((if bool_decide (o_status o = CANCELING)
       then assert (forallb (λ o, bool_decide (o_status o = CANCELING)) (drop n (j_ops j')))
       else assert (finalized (o_status o))) = Ok tt) as ->.
    { case_bool_decide as Hcan; [|by rewrite Hc].
      assert (shape n CANCELING CANCELING k j') as Hs'.
      { eapply shape_with_op; [done|]. intros o' Hl'. simpl. congruence. }
      pose proof (shape_from (λ s : status, bool_decide (s = CANCELING)) _ _ _ _ _ Hs'
                    eq_refl eq_refl) as E. cbv beta in E. by rewrite E. }
    simpl. exists j'. split_and!; try done. intros Hs.
    destruct (shape_get_op _ _ _ _ _ Hs) as (o' & E & _ & Ho1).
    assert (o' = o) as -> by congruence. rewrite Ho1 in Hw. done.
Qed.

Lemma exec_ready_exec n k inp w q j :
  picked n j → shape n WAITING QUEUED k j →
  legal_exec (c_exec inp) (Next (c_rand_next inp) w).2 = true →
  ∃ q' j' w', exec_ready inp (OpCtx n [] w) false q j = Ok (q', j', OpCtx n [] w') ∧
    picked n j' ∧ same_job j j' ∧
    (shape n WAITING QUEUED k j' ∧ attempts w' + 1 = attempts w ∨ op_over n k j').
Proof.
  intros Hp Hs Hleg. unfold exec_ready. cbn [x_index x_jobdeps].
  destruct (shape_get_op _ _ _ _ _ Hs) as (o & -> & _ & Ho). simpl. rewrite Ho. simpl.
  destruct (ExecOpCodeUnlocked_ok n k inp (OpCtx n [] w) q j)
    as (q' & j' & st & res & -> & Hj' & [b Hi'] & Hpost); [by apply picked_exec|done..|].
  cbn [rbind x_strategy x_jobdeps] in *.
  pose proof (picked_same _ _ _ Hp Hj' (ei_ops _ _ _ _ Hi')) as Hp'.
  destruct (store_result_ok n k _ b st res j' Hp' Hi' Hpost) as (Hp4 & Hj4 & Hcase).
  eexists _, _, _. split; [done|]. split; [done|]. split; [by eapply same_job_trans|].
  destruct Hcase as [(_ & Hs4 & [t Ht])|[_ Hov]]; [left|by right].
  split; [done|]. by eapply Next_attempts.
Qed.

Lemma exec_ready_skip n k inp deps w waitjob q j :
  (if waitjob : bool then shape n WAITING QUEUED k j
   else shape n CANCELING CANCELING k j ∨ shape n ERROR QUEUED k j) →
  exec_ready inp (OpCtx n deps w) waitjob q j = Ok (q, j, OpCtx n deps w).
Proof.
  intros Hs. unfold exec_ready. cbn [x_index]. destruct waitjob; [|destruct Hs as [Hs|Hs]];
    destruct (shape_get_op _ _ _ _ _ Hs) as (o & -> & _ & Ho); simpl; by rewrite Ho.
Qed.

Lemma run_op_ok n x0 k inp x q j :
  picked n j → shape n x0 QUEUED k j → x0 ∈ [QUEUED; WAITING] → x_index x = n →
  deps_ok (x_jobdeps x) →
  legal_exec (c_exec inp) (Next (c_rand_next inp) (x_strategy x)).2 = true →
  ∃ q' j' x' waitjob, run_op inp x q j = Ok (q', j', x', waitjob) ∧
    picked n j' ∧ same_job j j' ∧ x_index x' = n ∧ deps_ok (x_jobdeps x') ∧
    run_post n k (x_strategy x) x' waitjob q' j'.
Proof.
  intros Hp Hs Hx0 Hx Hd Hleg. unfold run_op. rewrite Hx.
  destruct (MarkWaitlock_ok n x0 k (c_now_start inp) q j)
    as (j1 & upd & q1 & -> & Hu & Hp1 & Hs1 & Hj1 & Hst1 & o1 & Hg1 & Hw1 & Hso1); [done..|].
  cbn [rbind]. rewrite Hu. cbn [rbind]. rewrite Hg1. cbn [rbind].
  rewrite Hw1, (shape_CalcStatus _ _ _ _ _ Hs1), Hst1, Hso1 by set_solver.
  destruct (CheckDependencies_ok n k (c_now_cancel inp) (x_jobdeps x) q1 j1)
    as (q2 & j2 & deps & wait & -> & Hd2 & Hj2 & Hok2 & _ & Hw2);
    [by apply picked_exec|done|done|by rewrite (sj_id _ _ Hj1); apply Hp|].
  pose proof (picked_same _ _ _ Hp1 Hj2 Hok2) as Hp2.
  pose proof (same_job_trans _ _ _ Hj1 Hj2) as Hj02.
  assert (∃ q3 j3 x3, exec_ready inp (OpCtx n deps (x_strategy x)) wait q2 j2
      = Ok (q3, j3, x3) ∧ picked n j3 ∧ same_job j2 j3 ∧ x_index x3 = n ∧
      deps_ok (x_jobdeps x3) ∧ run_post n k (x_strategy x) x3 wait q3 j3)
    as (q3 & j3 & x3 & He & Hp3 & Hj3 & Hx3 & Hd3 & Hr3).
  { destruct wait; [|destruct Hw2 as [(Hs2 & -> & ->)|Hw2]].
    - eexists _, _, _. split; [apply (exec_ready_skip n k); by destruct Hw2|].
      split; [done|]. split; [apply same_job_refl|]. done.
    - destruct (exec_ready_exec n k inp (x_strategy x) q2 j1) as (q3 & j3 & w & He & Hp3 & Hj3 & Hr3);
        [done..|]. by eexists _, _, _.
    - assert (op_over n k j2) as Hov.
      { destruct Hw2 as [?|?]; [by left|right]. exists ERROR, QUEUED. split; [done|]. set_solver. }
      eexists _, _, _. split; [by apply (exec_ready_skip n k)|].
      split; [done|]. split; [apply same_job_refl|]. split; [done|]. split; [done|by right]. }
  cbn [rbind]. simpl. rewrite He. cbn [rbind].
  destruct (record_end_ok inp n k j3 Hp3) as (j4 & -> & Hp4 & Hj4 & Hsame & Hover).
  { destruct wait; simpl in Hr3; [left; by destruct Hr3|destruct Hr3 as [[? _]|?]; auto]. }
  simpl. exists q3, j4, x3, wait. split; [done|]. split; [done|].
  split; [eapply same_job_trans; [done|]; by eapply same_job_trans|].
  split; [done|]. split; [done|]. destruct wait; simpl in *.
  - destruct Hr3 as [Hs3 ?]. by rewrite (Hsame Hs3).
  - destruct Hr3 as [[Hs3 ?]|Hov]; [left; by rewrite (Hsame Hs3)|right; by apply Hover].
Qed.

(** ** The budget of lock attempts *)

Notation N := (Z.of_nat (length timeouts)).

(** An upper bound for the attempts an unfinished opcode of a given priority
    may still make, plus one for its success. *)
Definition cost (p : Z) : Z := (p - OP_PRIO_HIGHEST) * (N + 1) + N + 1.

Fixpoint cost_sum (ss : list status) (ps : list Z) : Z :=
  match ss, ps with
  | s :: ss, p :: ps => (if finalized s then 0 else cost p) + cost_sum ss ps
  | _, _ => 0
  end%Z.

Definition prios j : list Z := o_priority <$> j_ops j.

(** What the attempts already made on the current opcode leave of it. *)
Definition budget j : Z :=
  cost_sum (sts j) (prios j) -
  match j_cur_opctx j with
  | Some c => N - Z.of_nat (attempts (x_strategy c))
  | None => 0
  end.

Lemma cost_sum_success n ss ps :
  cost_sum (replicate n SUCCESS ++ ss) ps = cost_sum ss (drop n ps).
Proof.
  revert ps. induction n as [|n IH]; intros ps; simpl; [done|].
  destruct ps as [|p ps]; simpl; [|apply IH]. by destruct ss.
Qed.

Lemma cost_sum_unfinished k y y' ps :
  finalized y = false → finalized y' = false →
  cost_sum (replicate k y) ps = cost_sum (replicate k y') ps.
Proof.
  intros Hy Hy'. revert ps. induction k as [|k IH]; intros ps; simpl; [done|].
  destruct ps; [done|]. by rewrite Hy, Hy', IH.
Qed.

Lemma cost_sum_shape n x y k j p :
  shape n x y k j → prios j !! n = Some p → finalized y = false →
  cost_sum (sts j) (prios j)
  = ((if finalized x then 0 else cost p)
     + cost_sum (replicate k QUEUED) (drop (S n) (prios j)))%Z.
Proof.
  intros -> Hp Hy. rewrite cost_sum_success, (drop_S _ p) by done. simpl.
  by rewrite (cost_sum_unfinished k y QUEUED).
Qed.

Lemma same_job_prios j j' : same_job j j' → prios j' = prios j.
Proof.
  intros Hj. unfold prios. pose proof (sj_keys _ _ Hj) as E.
  apply (f_equal (fmap fst)) in E. by rewrite <-!list_fmap_compose in E.
Qed.

Lemma prios_lookup n x y k j :
  shape n x y k j → Forall op_ok (j_ops j) →
  ∃ p, prios j !! n = Some p ∧ (OP_PRIO_HIGHEST ≤ p ≤ OP_PRIO_LOWEST)%Z.
Proof.
  intros (o & Ho & _)%shape_get Hok. exists (o_priority o). unfold prios.
  rewrite list_lookup_fmap, Ho. split; [done|].
  pose proof (oo_prio _ (Forall_lookup_1 _ _ _ _ Hok Ho)) as Hp.
  apply andb_true_iff in Hp as [?%Z.leb_le ?%Z.leb_le]. lia.
Qed.

(** ** Finishing an opcode *)

Lemma set_iter_id j : j_cur_opctx j = None → set_iter (j_ops_iter j) None j = j.
Proof. destruct j. simpl. by intros ->. Qed.

(** The job is written for the last time in this call. *)
Lemma write_back now n q j :
  picked n j →
  all_done j ∧ j_ops j ≠ [] ∨
    (∃ m x y k, shape m x y k j ∧ between x y ∧ (finalized x = false → S n ≤ m)) →
  let fin := finalized (CalcStatus j) in
  let j' := if fin then Finalize now j else j in
  ∃ q', UpdateJobUnlocked j' q = Ok q' ∧ job_ok j' ∧
    q_files q' !! j_id j = Some (file_of j').
Proof.
  intros Hp Hs fin j'.
  assert (CalcStatus j' = CalcStatus j) as Hcs by (unfold j'; by destruct fin).
  assert (finalized (CalcStatus j') = is_some (j_end j')) as He.
  { rewrite Hcs. fold fin. unfold j'. destruct fin; [done|]. by rewrite (pk_end _ _ Hp). }
  assert (j_writable j' = true ∧ j_archived j' = false ∧ j_id j' = j_id j ∧
          j_ops j' = j_ops j) as (Hw & Ha & Hid & Hops).
  { unfold j'. destruct fin; simpl; split_and!; try done; apply Hp. }
  eexists. split; [by apply UpdateJobUnlocked_ok|]. split.
  - split; rewrite ?Hops, ?Hid; try done; try apply Hp.
    destruct Hs as [Hd|(m & x & y & k & Hs & Hb & Hi)].
    + left. unfold all_done, sts in *. by rewrite Hops.
    + right. exists m, x, y, k. unfold shape, sts in *. rewrite Hops. split; [done|].
      split; [done|]. intros Hx. specialize (Hi Hx). unfold iter_ok, j'.
      destruct fin; simpl; rewrite (pk_cur _ _ Hp), (pk_iter _ _ Hp); simpl; lia.
  - simpl. rewrite Hid. apply lookup_insert_eq.
Qed.

Lemma marked_prios s r j : prios (set_ops (marked s r (j_ops j)) j) = prios j.
Proof.
  unfold prios. simpl. unfold marked. rewrite <-list_fmap_compose.
  apply list_fmap_ext. intros i o _. simpl. by destruct (finalized (o_status o)).
Qed.

Lemma marked_picked n s r j :
  (s ∉ [QUEUED; WAITING; RUNNING]) → picked n j →
  picked n (set_ops (marked s r (j_ops j)) j).
Proof. intros Hs []. split; try done. simpl. by apply marked_ok. Qed.

Definition finish_post (n k : nat) q' j j' (fin : bool) : Prop :=
  job_ok j' ∧ finalized (CalcStatus j') = fin ∧ j_id j' = j_id j ∧
  q_files q' !! j_id j = Some (file_of j') ∧ j_cur_opctx j' = None ∧ prios j' = prios j ∧
  (fin = false → ∃ y k', k = S k' ∧ shape n SUCCESS y k j ∧ finalized y = false ∧
                         sts j' = sts j).

(** The opcodes left are given the final status [s]. *)
Lemma finish_marked inp n x y k s r q j :
  picked n j → shape n x y k j → finalized y = false → x = s ∨ finalized x = false →
  s ∈ [CANCELED; ERROR] →
  ∃ q' j', (let* '(j1, fin) := rmap (λ j, (j, true)) (MarkUnfinishedOps s r j) in
            let fin := fin || bool_decide (S n = length (j_ops j1)) in
            let j2 := if fin : bool then Finalize (c_now_final inp) j1 else j1 in
            let* q := UpdateJobUnlocked j2 q in Ok (q, j2, fin)) = Ok (q', j', true) ∧
    finish_post n k q' j j' true ∧ CalcStatus j' = s.
Proof.
  intros Hp Hs Hy Hx Hss.
  destruct (MarkUnfinishedOps_shape s r _ _ _ _ _ Hs Hy) as [-> Hs'].
  assert (shape n s s k (set_ops (marked s r (j_ops j)) j)) as Hs1.
  { destruct (finalized x) eqn:E; [|done]. by destruct Hx as [->|]. }
  cbn [rmap rbind orb]. set (j1 := set_ops _ j) in *.
  assert (finalized (CalcStatus j1) = true) as Hf.
  { rewrite (shape_CalcStatus _ _ _ _ _ Hs1) by set_solver. destruct s; set_solver. }
  destruct (write_back (c_now_final inp) n q j1) as (q' & Hu & Hj & Hq).
  { apply marked_picked; [set_solver|done]. }
  { right. exists n, s, s, k. split; [done|]. split; [right; split; [done|set_solver]|].
    destruct s; set_solver. }
  rewrite Hf in Hu, Hj, Hq. rewrite Hu. simpl. eexists _, _. split; [done|].
  split; [|apply (shape_CalcStatus _ _ _ _ _ Hs1); set_solver].
  split; [done|]. split; [done|]. split; [done|]. split; [done|].
  split; [apply Hp|]. split; [apply (marked_prios s r j)|done].
Qed.

Lemma finish_op_ok inp n k q j :
  picked n j → op_over n k j →
  ∃ q' j' fin, finish_op inp n q j = Ok (q', j', fin) ∧ finish_post n k q' j j' fin ∧
    (shape n CANCELING CANCELING k j → fin = true ∧ CalcStatus j' = CANCELED).
Proof.
  intros Hp Ho. unfold finish_op. destruct (op_over_get _ _ _ Ho) as (o & -> & Hl & _).
  cbn [rbind].
  assert (bool_decide (n = 0) ||
          forallb (λ o, bool_decide (o_status o = SUCCESS)) (take n (j_ops j)) = true) as ->.
  { apply orb_true_iff. right.
    destruct Ho as [Hs|(st & y & Hs & _)]; by eapply shape_before. }
  cbn [py_assert rbind]. rewrite set_iter_id by apply Hp.
  assert (∀ x y, shape n x y k j → o_status o = x) as Hst.
  { intros x y Hs. destruct (shape_get _ _ _ _ _ Hs) as (o' & ? & ?). congruence. }
  destruct Ho as [Hs|(st & y & Hs & Hcase & Hy)]; rewrite (Hst _ _ Hs).
  - destruct (finish_marked inp n CANCELING CANCELING k CANCELED CANCEL_MSG q j)
      as (q' & j' & E & Hpost & Hc); [done..|by right|set_solver|]. by exists q', j', true.
  - assert (finalized y = false) as Hfy by (by destruct Hy as [->| ->]).
    assert (st = ERROR ∨ st = SUCCESS) as [->| ->] by set_solver.
    { destruct (finish_marked inp n ERROR y k ERROR
        (EncodeOpError (GntExn OpExecError [VStr "Preceding opcode failed"])) q j)
        as (q' & j' & E & Hpost & _); [done..|by left|set_solver|].
      exists q', j', true. split; [done|]. split; [done|]. intros Hs'.
      apply Hst in Hs'. apply Hst in Hs. congruence. }
    simpl. pose proof (shape_length _ _ _ _ _ Hs) as Hlen.
    destruct (write_back (c_now_final inp) n q j) as (q' & Hu & Hj & Hq); [done| |].
    { pose proof (shape_success _ _ _ _ Hs) as Hs'. destruct k as [|k].
      - left. split; [done|]. intros E. rewrite E in Hlen. simpl in Hlen. lia.
      - right. exists (S n), y, y, k. split; [done|]. split; [|lia].
        destruct Hy as [->| ->]; [left|right]; set_solver. }
    assert (finalized (CalcStatus j) = bool_decide (S n = length (j_ops j))) as Hf.
    { pose proof (shape_success _ _ _ _ Hs) as Hs'. rewrite Hlen. destruct k as [|k].
      - rewrite (all_done_CalcStatus _ Hs'), bool_decide_true by lia. done.
      - rewrite (shape_CalcStatus _ _ _ _ _ Hs'), bool_decide_false; [done|lia|].
        destruct Hy as [->| ->]; set_solver. }
    rewrite Hf in Hu, Hj, Hq. rewrite Hu. simpl. eexists _, _, _. split; [done|].
    assert (bool_decide (S n = length (j_ops j)) = false → ∃ k', k = S k') as Hk.
    { destruct k; [|by eauto]. rewrite bool_decide_true; [done|lia]. }
    split; [|intros Hs'; apply Hst in Hs'; apply Hst in Hs; congruence].
    set (fin := bool_decide (S n = length (j_ops j))) in *.
    split; [done|]. split; [by destruct fin|]. split; [by destruct fin|]. split; [done|].
    split; [destruct fin; apply Hp|]. split; [by destruct fin|].
    intros Hfin. destruct (Hk Hfin) as [k' ->]. exists y, k'. rewrite Hfin. by split_and!.
Qed.
End job_proc.
