(* ===== verification/JobProps.v ===== *)
(** * The job processor: what it guarantees

    Every call of [_JobProcessor.__call__] on a well-formed job ends without an
    assertion or programming error, leaves a well-formed job, finishes exactly
    when the job's status is final, and otherwise uses up part of a finite
    budget; cancelling, priority changes and the stored form. *)

From S2P Require Import Prelude Errors Job Mcpu JobQueue JobInv JobLaws JobRun JobProc.
#[local] Open Scope nat_scope.
#[local] Open Scope stdpp_scope.

Section job_props.
  Context {I : Type} `{OpCode I} (timeouts : strategy).
  Notation job := (job I wrapper).
  Notation qop := (qop I).
  Notation queue := (queue I).
  Notation opctx := (opctx wrapper).
  Implicit Types (j : job) (o : qop) (q : queue).
  Notation budget := (budget timeouts).

(** ** Picking the opcode *)

Lemma find_next_ok pos n x y k j :
  shape n x y k j → finalized x = false → x ≠ RUNNING → pos ≤ n →
  ∃ o, j_ops j !! n = Some o ∧
    find_next timeouts pos (drop pos (j_ops j)) = Ok (S n, new_opctx timeouts n o).
Proof.
  intros Hs Hx Hr Hle. destruct (shape_get _ _ _ _ _ Hs) as (o & Ho & Hst).
  exists o. split; [done|]. remember (n - pos) as d eqn:Hd. revert pos Hle Hd.
  induction d as [|d IH]; intros pos Hle Hd.
  - assert (pos = n) as -> by lia. rewrite (drop_S _ o) by done. simpl.
    rewrite Hst. by destruct x.
  - assert (pos < n) as Hlt by lia.
    destruct (lookup_lt_is_Some_2 (j_ops j) pos) as [o' Ho'].
    { rewrite (shape_length _ _ _ _ _ Hs). lia. }
    rewrite (drop_S _ o') by done. simpl.
    assert (sts j !! pos = Some (o_status o')) as Hl by (apply sts_lookup; eauto).
    destruct (shape_lookup _ _ _ _ _ _ _ Hs Hl) as [[_ ->]|[[-> _]|[? _]]]; [|lia..].
    simpl. apply IH; lia.
Qed.

(** The strategy the next attempt uses. *)
Definition next_strategy j : wrapper :=
  match j_cur_opctx j with Some c => x_strategy c | None => Wrapper timeouts None end.

Definition pick j : exc (job * opctx) :=
  match j_cur_opctx j with
  | Some x => Ok (set_iter (j_ops_iter j) None j, x)
  | None => FindNextOpcode timeouts j
  end.

Lemma pick_ok n x y k j :
  job_ok j → shape n x y k j → iter_ok n j → finalized x = false → x ≠ RUNNING →
  j_end j = None →
  ∃ j' c, pick j = Ok (j', c) ∧ picked n j' ∧ shape n x y k j' ∧ x_index c = n ∧
    deps_ok (x_jobdeps c) ∧ x_strategy c = next_strategy j ∧ j_id j' = j_id j ∧
    j_ops j' = j_ops j.
Proof.
  intros Hj Hs Hi Hx Hr He. unfold pick, next_strategy, iter_ok in *.
  destruct (j_cur_opctx j) as [c|] eqn:Hc.
  - destruct Hi as (Hn & Hd & Hit). eexists _, c. split; [done|].
    split; [|by split_and!]. destruct Hj. by split.
  - unfold FindNextOpcode. destruct (find_next_ok _ _ _ _ _ _ Hs Hx Hr Hi) as (o & Ho & ->).
    simpl. eexists _, _. split; [done|]. split; [|split_and!; try done].
    + destruct Hj. by split.
    + simpl. eapply oo_deps, Forall_lookup_1; [apply Hj|done].
Qed.

(** ** Concluding the call *)

(** What a call of the processor has achieved. *)
Definition process_post j q' j' (r : proc_result) : Prop :=
  job_ok j' ∧ j_id j' = j_id j ∧
  match r with
  | FINISHED => finalized (CalcStatus j') = true ∧
      q_files q' !! j_id j = Some (file_of j')
  | WAITDEP => CalcStatus j' = WAITING ∧ JobWaiting (j_id j) q' = true
  | DEFER => finalized (CalcStatus j') = false ∧ (budget j' < budget j)%Z
  end.

(** The job kept for another round with context [c]. *)
Lemma keep_ok n k c j :
  picked n j → shape n WAITING QUEUED k j → x_index c = n → deps_ok (x_jobdeps c) →
  job_ok (set_iter (j_ops_iter j) (Some c) j) ∧
  CalcStatus (set_iter (j_ops_iter j) (Some c) j) = WAITING ∧
  ∃ o, get_op n (set_iter (j_ops_iter j) (Some c) j) = Ok o ∧
       prio_in_range (o_priority o) = true.
Proof.
  intros Hp Hs Hx Hd.
  assert (CalcStatus (set_iter (j_ops_iter j) (Some c) j) = WAITING) as Hc.
  { change (CalcStatus j = WAITING). eapply shape_CalcStatus; [done|set_solver]. }
  split; [|split; [done|]].
  - destruct Hp. split; try done.
    + right. exists n, WAITING, QUEUED, k. split; [done|]. split; [left; set_solver|].
      intros _. by split_and!.
    + rewrite Hc. simpl. by rewrite pk_end.
  - destruct (shape_get_op _ _ _ _ _ Hs) as (o & Hg & Hl & _). exists o. split; [done|].
    apply oo_prio. eapply Forall_lookup_1; [apply Hp|done].
Qed.

Lemma CheckPriorityIncrease_ok n k r c j :
  picked n j → shape n WAITING QUEUED k j → x_index c = n → deps_ok (x_jobdeps c) →
  ∃ c' j' inc, CheckPriorityIncrease timeouts r c j = Ok (c', j', inc) ∧
    picked n j' ∧ shape n WAITING QUEUED k j' ∧ x_index c' = n ∧ deps_ok (x_jobdeps c') ∧
    j_id j' = j_id j ∧
    (cost_sum timeouts (sts j') (prios j') + Z.of_nat (attempts (x_strategy c'))
     ≤ cost_sum timeouts (sts j) (prios j) + Z.of_nat (attempts (x_strategy c)))%Z.
Proof.
  intros Hp Hs Hx Hd. unfold CheckPriorityIncrease. rewrite Hx.
  destruct (shape_get_op _ _ _ _ _ Hs) as (o & -> & Hl & Hst). cbn [rbind].
  destruct (Peek_attempts r (x_strategy c)) as [Ha Hnone].
  destruct (Peek r (x_strategy c)) as [w nxt]. cbn [fst snd] in *.
  destruct (negb (is_some nxt) && _) eqn:Hinc.
  - apply andb_true_iff in Hinc as [Hn Hgt%Z.ltb_lt].
    assert (attempts (x_strategy c) = 0) as Hz.
    { apply Hnone. unfold is_some in Hn. by destruct nxt. }
    set (j' := with_op n j _). eexists _, j', _. split; [done|].
    assert (shape n WAITING QUEUED k j') as Hs'.
    { eapply shape_with_op; [done|]. intros o' Ho'. simpl. congruence. }
    assert (picked n j') as Hp'.
    { destruct Hp. split; try done. apply Forall_alter; [done|].
      intros o' Ho' [Hpr He Hdp]. split; simpl; [|done|done].
      apply andb_true_iff in Hpr as [?%Z.leb_le ?%Z.leb_le].
      assert (o' = o) as -> by congruence.
      apply andb_true_iff. rewrite !Z.leb_le. lia. }
    do 5 (split; [done|]).
    assert (prios j !! n = Some (o_priority o)) as Hpn
      by (unfold prios; by rewrite list_lookup_fmap, Hl).
    assert (prios j' !! n = Some (o_priority o - 1)%Z) as Hpn'.
    { unfold prios, j'. simpl. by rewrite list_lookup_fmap, list_lookup_alter_eq, Hl. }
    assert (drop (S n) (prios j') = drop (S n) (prios j)) as Hdrop.
    { unfold prios, j'. simpl. rewrite <-!fmap_drop. f_equal. apply list_eq. intros i.
      rewrite !lookup_drop, list_lookup_alter_ne by lia. done. }
    rewrite (cost_sum_shape _ _ _ _ _ _ _ Hs Hpn eq_refl).
    rewrite (cost_sum_shape _ _ _ _ _ _ _ Hs' Hpn' eq_refl), Hdrop, Hz.
    simpl. unfold attempts, cost. simpl. rewrite Nat.add_0_r. lia.
  - eexists _, j, _. split; [done|]. split_and!; try done. simpl. rewrite Ha. lia.
Qed.

Lemma conclude_wait n k inp c q j0 j :
  picked n j → shape n WAITING QUEUED k j → x_index c = n → deps_ok (x_jobdeps c) →
  JobWaiting (j_id j) q = true → j_id j = j_id j0 →
  ∃ q' j' r, conclude timeouts inp c true q j = Ok (q', j', r) ∧ process_post j0 q' j' r.
Proof.
  intros Hp Hs Hx Hd Hw Hid. unfold conclude. rewrite Hx.
  destruct (shape_get_op _ _ _ _ _ Hs) as (o & -> & Hl & Hst). simpl. rewrite Hst. simpl.
  destruct (keep_ok n k c j Hp Hs Hx Hd) as (Hj & Hc & o' & Hg & Hpr).
  rewrite Hg. simpl. rewrite Hpr. simpl. rewrite Hc. simpl. rewrite Hw. simpl.
  eexists _, _, WAITDEP. split; [done|]. split; [done|]. split; [done|].
  split; [done|]. by rewrite <-Hid.
Qed.

Lemma conclude_retry n k inp c q j0 j :
  picked n j → shape n WAITING QUEUED k j → x_index c = n → deps_ok (x_jobdeps c) →
  j_id j = j_id j0 →
  (cost_sum timeouts (sts j) (prios j) + Z.of_nat (attempts (x_strategy c)) - Z.of_nat (length timeouts)
   < budget j0)%Z →
  ∃ q' j' r, conclude timeouts inp c false q j = Ok (q', j', r) ∧ process_post j0 q' j' r.
Proof.
  intros Hp Hs Hx Hd Hid Hb. unfold conclude. rewrite Hx.
  destruct (shape_get_op _ _ _ _ _ Hs) as (o & -> & Hl & Hst). simpl. rewrite Hst. simpl.
  destruct (CheckPriorityIncrease_ok n k (c_rand_peek inp) c j)
    as (c' & j' & inc & -> & Hp' & Hs' & Hx' & Hd' & Hid' & Hcost); [done..|]. cbn [rbind].
  pose proof (exec_update _ _ _ _ q (picked_exec _ _ _ Hp' Hs')) as Hu.
  assert (∃ q', (if inc then UpdateJobUnlocked j' q else Ok q) = Ok q') as [q' ->].
  { destruct inc; [rewrite Hu|]; by eauto. }
  cbn [rbind]. destruct (keep_ok n k c' j' Hp' Hs' Hx' Hd') as (Hj & Hc & o' & Hg & Hpr).
  rewrite Hg. simpl. rewrite Hpr. simpl. rewrite Hc. simpl.
  eexists _, _, DEFER. split; [done|]. split; [done|]. split; [simpl; congruence|].
  split; [by rewrite Hc|]. unfold JobProc.budget at 1. simpl.
  change (sts (set_iter _ _ _)) with (sts j'). change (prios (set_iter _ _ _)) with (prios j').
  lia.
Qed.

Lemma conclude_over n k inp c q j0 j p :
  picked n j → op_over n k j → x_index c = n → j_id j = j_id j0 →
  prios j !! n = Some p → (OP_PRIO_HIGHEST ≤ p)%Z →
  (cost_sum timeouts (replicate k QUEUED) (drop (S n) (prios j)) < budget j0)%Z →
  ∃ q' j' r, conclude timeouts inp c false q j = Ok (q', j', r) ∧ process_post j0 q' j' r.
Proof.
  intros Hp Ho Hx Hid Hpn Hpr Hb. unfold conclude. rewrite Hx.
  destruct (op_over_get _ _ _ Ho) as (o & Hg & _ & Hst & _). rewrite Hg. cbn [rbind].
  apply bool_decide_eq_false in Hst.
  rewrite (bool_decide_false (o_status o = QUEUED)) by set_solver.
  rewrite (bool_decide_false (o_status o = WAITING)) by set_solver. cbn [orb].
  destruct (finish_op_ok inp n k q j Hp Ho)
    as (q' & j' & fin & -> & (Hj & Hf & Hid' & Hq & Hcur & Hprios & Hcont) & _). cbn [rbind].
  cbn [negb py_assert rbind]. destruct fin.
  - eexists _, _, FINISHED. split; [done|]. split; [done|]. split; [congruence|].
    split; [done|]. by rewrite <-Hid.
  - simpl. eexists _, _, DEFER. split; [done|]. split; [done|]. split; [congruence|].
    split; [done|]. destruct (Hcont eq_refl) as (y & k' & -> & Hs & Hy & Hsts).
    unfold JobProc.budget at 1. rewrite Hcur, Hsts, Hprios.
    rewrite (cost_sum_shape _ _ _ _ _ _ _ Hs Hpn Hy). cbn [finalized]. lia.
Qed.

(** ** One call *)

Definition legal_call (inp : call_in) j : bool :=
  legal_exec (c_exec inp) (Next (c_rand_next inp) (next_strategy j)).2.

Lemma budget_next j :
  budget j = (cost_sum timeouts (sts j) (prios j)
              + Z.of_nat (attempts (next_strategy j)) - Z.of_nat (length timeouts))%Z.
Proof.
  unfold JobProc.budget, next_strategy, attempts. destruct (j_cur_opctx j); simpl; lia.
Qed.

Lemma conclude_ok n k inp w c waitjob q j0 j p :
  picked n j → j_id j = j_id j0 → x_index c = n → deps_ok (x_jobdeps c) →
  run_post n k w c waitjob q j → prios j !! n = Some p → (OP_PRIO_HIGHEST ≤ p)%Z →
  budget j0 = (cost timeouts p + cost_sum timeouts (replicate k QUEUED) (drop (S n) (prios j))
               + Z.of_nat (attempts w) - Z.of_nat (length timeouts))%Z →
  ∃ q' j' r, conclude timeouts inp c waitjob q j = Ok (q', j', r) ∧
             process_post j0 q' j' r.
Proof.
  intros Hp Hid Hx Hd Hpost Hpn Hpr Hb.
  assert (Z.of_nat (length timeouts) + 1 ≤ cost timeouts p)%Z as Hcp by (unfold cost; nia).
  destruct waitjob; simpl in Hpost; [|destruct Hpost as [[Hs Ha]|Hov]].
  - destruct Hpost as [Hs Hjw]. by apply (conclude_wait n k).
  - apply (conclude_retry n k); [done..|].
    rewrite (cost_sum_shape _ _ _ _ _ _ _ Hs Hpn eq_refl), Hb. cbn [finalized]. lia.
  - apply (conclude_over n k inp c q j0 j p); [done..|]. rewrite Hb. lia.
Qed.

Lemma process_ok inp q j :
  job_ok j → legal_call inp j = true → finalized (CalcStatus j) = false →
  ∃ q' j' r, process timeouts inp q j = Ok (q', j', r) ∧ process_post j q' j' r.
Proof.
  intros Hj Hleg Hf. unfold process. rewrite (jo_writable _ Hj), Hf. cbn [py_assert rbind].
  destruct (job_ok_shape j Hj Hf) as (n & x & y & k & Hs & Hi & He & Hxy).
  assert (finalized x = false ∧ x ≠ RUNNING ∧ finalized y = false ∧
          bool_decide (y ∈ [QUEUED; CANCELING]) = true ∧
          bool_decide (x ∈ [QUEUED; WAITING; CANCELING]) = true)
    as (Hx & Hr & Hy & Hyb & Hxb).
  { destruct Hxy as [[Hx ->]|[-> ->]]; [|done]. destruct x; set_solver. }
  destruct (pick_ok n x y k j) as (j1 & c & Hpick & Hp & Hs1 & Hc & Hd & Hstr & Hid & Hops);
    [done..|].
  unfold pick in Hpick. rewrite Hpick. cbn [rbind]. rewrite Hc.
  destruct (shape_get_op _ _ _ _ _ Hs1) as (o & Hg & Hl & Ho). rewrite Hg. cbn [rbind].
  pose proof (shape_after (λ s : status, bool_decide (s ∈ [QUEUED; CANCELING])) _ _ _ _ _ Hs1 Hyb)
    as Hafter. cbv beta in Hafter. rewrite Hafter, Ho, Hxb. cbn [py_assert rbind].
  rewrite (oo_prio _ (Forall_lookup_1 _ _ _ _ (pk_ops _ _ Hp) Hl)). cbn [py_assert rbind].
  assert (∃ q2 j2 x2 w2,
    (if bool_decide (x = CANCELING) then Ok (q, j1, c, false) else run_op inp c q j1)
      = Ok (q2, j2, x2, w2) ∧ picked n j2 ∧ same_job j1 j2 ∧ x_index x2 = n ∧
      deps_ok (x_jobdeps x2) ∧ run_post n k (x_strategy c) x2 w2 q2 j2)
    as (q2 & j2 & x2 & w2 & -> & Hp2 & Hj2 & Hx2 & Hd2 & Hpost).
  { destruct Hxy as [[Hxx ->]|[-> ->]].
    - rewrite bool_decide_false by (destruct x; set_solver).
      apply (run_op_ok n x); try done. by rewrite Hstr.
    - rewrite bool_decide_true by done. exists q, j1, c, false. split; [done|]. split; [done|].
      split; [apply same_job_refl|]. split; [done|]. split; [done|]. right. by left. }
  cbn [rbind]. destruct (prios_lookup n x y k j1 Hs1 (pk_ops _ _ Hp)) as (p & Hpn & Hpr).
  destruct (conclude_ok n k inp (x_strategy c) x2 w2 q2 j j2 p)
    as (q' & j' & r & -> & Hpp); [done| |done|done|done| |lia| |].
  - by rewrite (sj_id _ _ Hj2).
  - by rewrite (same_job_prios _ _ Hj2).
  - rewrite (same_job_prios _ _ Hj2), budget_next, Hstr.
    assert (sts j = sts j1 ∧ prios j = prios j1) as [-> ->]
      by (unfold sts, prios; by rewrite Hops).
    by rewrite (cost_sum_shape _ _ _ _ _ _ _ Hs1 Hpn Hy), Hx.
  - cbn [rbind fst snd]. rewrite (jo_writable _ (proj1 Hpp)). by exists q', j', r.
Qed.

(** ** A time-out where the locks were to be waited for *)

(** The same call, but with an execution that returns *)
Definition answered (inp : call_in) : call_in :=
  CallIn (c_now_start inp) (c_now_cancel inp) (c_now_end inp) (c_now_final inp) (c_rand_next inp) (c_rand_peek inp)
    (ExecIn (ex_actions (c_exec inp)) (ExecResult VNone)).

(** A computation fails its assertion or is another one. *)
Notation fails_or m m' := (m = Raise AssertionFailed ∨ m = m').

Lemma rbind_fails_or {A B} (m m' : exc A) (k k' : A → exc B) :
  fails_or m m' → (∀ a, fails_or (k a) (k' a)) → fails_or (rbind m k) (rbind m' k').
Proof. intros [->| ->] Hk; [by left|]. destruct m' as [a|e]; [apply Hk|by right]. Qed.

Lemma ExecOpCodeUnlocked_blocked inp x q j :
  ex_result (c_exec inp) = LockAcquireTimeout → (Next (c_rand_next inp) (x_strategy x)).2 = None →
  fails_or (ExecOpCodeUnlocked inp x q j) (ExecOpCodeUnlocked (answered inp) x q j).
Proof.
  intros Hr Hn. unfold ExecOpCodeUnlocked. apply rbind_fails_or; [by right|]. intros o.
  apply rbind_fails_or; [by right|]. intros _. destruct (bool_decide _); [by right|].
  cbn [c_rand_next answered c_exec ex_actions ex_result]. rewrite Hr.
  destruct (Next _ _) as [w timeout]. cbn [snd] in Hn. subst timeout.
  destruct (run_actions _ _ _) as [[q1 j1] exit]. apply rbind_fails_or; [by right|]. intros o1.
  destruct exit as [[|e]|]; [by right..|by left].
Qed.

Lemma run_op_blocked inp x q j :
  ex_result (c_exec inp) = LockAcquireTimeout → (Next (c_rand_next inp) (x_strategy x)).2 = None →
  fails_or (run_op inp x q j) (run_op (answered inp) x q j).
Proof.
  intros Hr Hn. unfold run_op. apply rbind_fails_or; [by right|]. intros [j1 update].
  repeat (apply rbind_fails_or; [by right|]; intros ?). case_match. case_match. case_match.
  apply rbind_fails_or; [|intros ?; by right]. unfold exec_ready.
  repeat (apply rbind_fails_or; [by right|]; intros ?). case_match; [by right|].
  apply rbind_fails_or; [by right|]. intros ?.
  apply rbind_fails_or; [by apply ExecOpCodeUnlocked_blocked|]. intros ?. by right.
Qed.

Lemma find_next_strategy ops : ∀ n pos x,
  find_next timeouts n ops = Ok (pos, x) → x_strategy x = Wrapper timeouts None.
Proof.
  induction ops as [|o ops IH]; intros n pos x; cbn [find_next]; [done|].
  destruct (o_status o); cbn [finalized]; try done; try apply IH; by intros [= <- <-].
Qed.

(** [process] on the opcode that was picked. *)
Definition process_picked (inp : call_in) (q : queue) (p : job * opctx) : exc (queue * job * proc_result) :=
  let '(j, x) := p in
  let* o := get_op (x_index x) j in
  do* assert (forallb (λ o, bool_decide (o_status o ∈ [QUEUED; CANCELING]))
                      (drop (S (x_index x)) (j_ops j))) in
  do* assert (bool_decide (o_status o ∈ [QUEUED; WAITING; CANCELING])) in
  do* assert (prio_in_range (o_priority o)) in
  let* '(q, j, x, waitjob) :=
    (if bool_decide (o_status o = CANCELING) then Ok (q, j, x, false)
     else run_op inp x q j) in
  let* r := conclude timeouts inp x waitjob q j in
  do* assert (j_writable r.1.2) in
  Ok r.

Lemma process_unfold inp q j :
  process timeouts inp q j =
  (do* assert (j_writable j) in
   if finalized (CalcStatus j) then Ok (q, j, FINISHED) else rbind (pick j) (process_picked inp q)).
Proof. reflexivity. Qed.

Lemma pick_strategy j j' x : pick j = Ok (j', x) → x_strategy x = next_strategy j.
Proof.
  unfold pick, next_strategy, FindNextOpcode. destruct (j_cur_opctx j); [by intros [= _ <-]|].
  intros ([pos y] & Hy%find_next_strategy & [= _ <-])%rbind_Ok. done.
Qed.

Lemma conclude_answered inp x waitjob q j :
  conclude timeouts (answered inp) x waitjob q j = conclude timeouts inp x waitjob q j.
Proof. destruct inp. reflexivity. Qed.

Lemma process_picked_blocked inp q j x :
  ex_result (c_exec inp) = LockAcquireTimeout → (Next (c_rand_next inp) (x_strategy x)).2 = None →
  fails_or (process_picked inp q (j, x)) (process_picked (answered inp) q (j, x)).
Proof.
  intros Hr Hn. cbn [process_picked].
  destruct (get_op (x_index x) j) as [o|e]; cbn [rbind]; [|by right].
  destruct (forallb _ _); cbn [py_assert rbind]; [|by right].
  destruct (bool_decide (_ ∈ [QUEUED; WAITING; CANCELING])); cbn [py_assert rbind]; [|by right].
  destruct (prio_in_range _); cbn [py_assert rbind]; [|by right].
  apply rbind_fails_or.
  - destruct (bool_decide _); [by right|]. by apply run_op_blocked.
  - intros [[[q' j'] x'] w']. right. by rewrite conclude_answered.
Qed.

Lemma process_blocked inp q j :
  ex_result (c_exec inp) = LockAcquireTimeout → (Next (c_rand_next inp) (next_strategy j)).2 = None →
  fails_or (process timeouts inp q j) (process timeouts (answered inp) q j).
Proof.
  intros Hr Hn. rewrite !process_unfold. destruct (j_writable j); cbn [py_assert rbind]; [|by right].
  destruct (finalized (CalcStatus j)); [by right|].
  destruct (pick j) as [[j' x]|e] eqn:Hp; cbn [rbind]; [|by right].
  apply process_picked_blocked; [done|]. by rewrite (pick_strategy _ _ _ Hp).
Qed.

(** What is known after a call that returned *)
Definition processed j (p : queue * job * proc_result) : Prop :=
  let '(q', j', r) := p in
  job_ok j' ∧ j_id j' = j_id j ∧ (r = FINISHED ↔ finalized (CalcStatus j') = true) ∧
  (finalized (CalcStatus j) = false →
     match r with
     | FINISHED => q_files q' !! j_id j = Some (file_of j')
     | WAITDEP => CalcStatus j' = WAITING ∧ JobWaiting (j_id j) q' = true
     | DEFER => (budget j' < budget j)%Z
     end).

Lemma process_legal inp q j :
  job_ok j → legal_call inp j = true →
  ∃ p, process timeouts inp q j = Ok p ∧ processed j p ∧ (finalized (CalcStatus j) = true → p = (q, j, FINISHED)).
Proof.
  intros Hj Hleg. destruct (finalized (CalcStatus j)) eqn:Hf.
  - exists (q, j, FINISHED). unfold process. rewrite (jo_writable _ Hj), Hf. split; [done|].
    split; [|done]. cbn. rewrite Hf. by split_and!.
  - destruct (process_ok inp q j Hj Hleg Hf) as (q' & j' & r & -> & Hj' & Hid & Hpost).
    exists (q', j', r). split; [done|]. split; [|done]. split; [done|]. split; [done|]. rewrite Hf.
    destruct r; destruct Hpost as [H1 H2]; (split; [|intros _]); try done.
    + split; [done|]. congruence.
    + split; [done|]. by rewrite H1.
Qed.


(** ** Many calls *)

(** [n] calls in a row that all defer the job. *)
Inductive deferrals : nat → queue → job → queue → job → Prop :=
| deferrals_0 q j : deferrals 0 q j q j
| deferrals_S n inp q j q1 j1 q2 j2 :
    legal_call inp j = true → process timeouts inp q j = Ok (q1, j1, DEFER) →
    deferrals n q1 j1 q2 j2 → deferrals (S n) q j q2 j2.

Lemma cost_sum_nonneg ss ps :
  Forall (λ p, (OP_PRIO_HIGHEST ≤ p)%Z) ps → (0 ≤ cost_sum timeouts ss ps)%Z.
Proof.
  intros Hps. revert ss. induction Hps as [|p ps Hp Hps IH]; intros ss; simpl;
    [by destruct ss|]. destruct ss as [|s ss]; [done|]. simpl.
  specialize (IH ss). assert (0 ≤ cost timeouts p)%Z by (unfold cost; nia).
  destruct (finalized s); lia.
Qed.

Lemma prios_Forall j :
  Forall op_ok (j_ops j) → Forall (λ p, (OP_PRIO_HIGHEST ≤ p)%Z) (prios j).
Proof.
  intros Hok. apply Forall_fmap. eapply Forall_impl; [exact Hok|]. intros o [Hp _ _].
  apply andb_true_iff in Hp as [_ ?%Z.leb_le]. done.
Qed.

Lemma budget_nonneg j :
  job_ok j → finalized (CalcStatus j) = false → (0 < budget j)%Z.
Proof.
  intros Hj Hf. destruct (job_ok_shape j Hj Hf) as (n & x & y & k & Hs & _ & _ & Hxy).
  assert (finalized x = false ∧ finalized y = false) as [Hx Hy].
  { destruct Hxy as [[Hx ->]|[-> ->]]; [|done]. destruct x; set_solver. }
  destruct (prios_lookup n x y k j Hs (jo_ops _ Hj)) as (p & Hpn & Hpr).
  rewrite budget_next, (cost_sum_shape _ _ _ _ _ _ _ Hs Hpn Hy), Hx.
  pose proof (cost_sum_nonneg (replicate k QUEUED) (drop (S n) (prios j))
    (Forall_drop _ _ _ (prios_Forall j (jo_ops _ Hj)))).
  assert (Z.of_nat (length timeouts) + 1 ≤ cost timeouts p)%Z by (unfold cost; nia). lia.
Qed.

(** C13: termination.  The processor can defer a job only a bounded number of
    times in a row: the budget, which is at most the number of lock attempts
    per priority level times the number of levels, summed over the opcodes.
    After that a call finishes the job or waits for another one. *)
Theorem deferrals_bounded n q j q' j' :
  job_ok j → deferrals n q j q' j' → n ≤ Z.to_nat (budget j).
Proof.
  intros Hj Hd. induction Hd as [|n inp q j q1 j1 q2 j2 Hleg Hp Hd IH]; [lia|].
  destruct (finalized (CalcStatus j)) eqn:Hf.
  { unfold process in Hp. rewrite (jo_writable _ Hj), Hf in Hp. done. }
  destruct (process_ok inp q j Hj Hleg Hf) as (q1' & j1' & r & E & Hj1 & _ & Hpost).
  rewrite Hp in E. injection E as <- <- <-. destruct Hpost as [Hf1 Hlt].
  pose proof (budget_nonneg j1 Hj1 Hf1). specialize (IH Hj1). lia.
Qed.

(** ** Finished jobs *)

(** A finished job either has only successful opcodes, or some first
    opcodes that succeeded and all others with the job's own final status. *)
Theorem finished_statuses j :
  job_ok j → finalized (CalcStatus j) = true →
  (CalcStatus j = SUCCESS ∧ ∀ o, o ∈ j_ops j → o_status o = SUCCESS) ∨
  (CalcStatus j ∈ [ERROR; CANCELED] ∧
   ∃ n, n < length (j_ops j) ∧
     ∀ i o, j_ops j !! i = Some o →
            o_status o = if decide (i < n) then SUCCESS else CalcStatus j).
Proof.
  intros Hj Hf. destruct (jo_shape _ Hj) as [[Hd _]|(n & x & y & k & Hs & Hb & _)].
  - left. split; [by apply all_done_CalcStatus|]. intros o [i Hi]%list_elem_of_lookup.
    assert (sts j !! i = Some (o_status o)) as Hl by (apply sts_lookup; eauto).
    rewrite Hd in Hl. by apply lookup_replicate in Hl as [? _].
  - right. rewrite (between_CalcStatus _ _ _ _ _ Hs Hb) in *.
    assert (x = y ∧ x ∈ [ERROR; CANCELED]) as [-> Hy].
    { destruct Hb as [[Hx ->]|[-> Hx]]; [destruct x; set_solver|]. destruct y; set_solver. }
    split; [done|]. exists n. split; [rewrite (shape_length _ _ _ _ _ Hs); lia|].
    intros i o Hi. assert (sts j !! i = Some (o_status o)) as Hl by (apply sts_lookup; eauto).
    destruct (shape_lookup _ _ _ _ _ _ _ Hs Hl) as [[? ->]|[[? ->]|[? ->]]];
      case_decide; try done; lia.
Qed.

(** ** Cancelling *)

Lemma process_canceling inp q j :
  job_ok j → CalcStatus j = CANCELING →
  ∃ q' j', process timeouts inp q j = Ok (q', j', FINISHED) ∧ CalcStatus j' = CANCELED ∧
           q_files q' !! j_id j = Some (file_of j') ∧
           (∀ e, process timeouts (CallIn (c_now_start inp) (c_now_cancel inp) (c_now_end inp)
              (c_now_final inp) (c_rand_next inp) (c_rand_peek inp) e) q j
            = Ok (q', j', FINISHED)).
Proof.
  intros Hj Hc. destruct (job_ok_shape j Hj) as (n & x & y & k & Hs & Hi & He & Hxy);
    [by rewrite Hc|].
  assert (x = CANCELING ∧ y = CANCELING) as [-> ->].
  { destruct Hxy as [[Hx ->]|?]; [|done].
    rewrite (shape_CalcStatus _ _ _ _ _ Hs) in Hc by (destruct x; set_solver).
    subst. set_solver. }
  destruct (pick_ok n CANCELING CANCELING k j)
    as (j1 & c & Hpick & Hp & Hs1 & Hcx & _ & _ & Hid & _); [done..|].
  destruct (shape_get_op _ _ _ _ _ Hs1) as (o & Hg & Hl & Ho).
  destruct (finish_op_ok inp n k q j1 Hp) as (q' & j' & fin & Hfin & (Hj' & _ & _ & Hq & _) & Hcan);
    [by left|]. destruct (Hcan Hs1) as [-> Hst].
  assert (∀ e, process timeouts (CallIn (c_now_start inp) (c_now_cancel inp) (c_now_end inp)
              (c_now_final inp) (c_rand_next inp) (c_rand_peek inp) e) q j
            = Ok (q', j', FINISHED)) as Hall.
  { intros e. unfold process, pick in *. rewrite (jo_writable _ Hj), Hc. simpl.
    rewrite Hpick. simpl. rewrite Hcx, Hg. simpl.
    pose proof (shape_after (λ s : status, bool_decide (s ∈ [QUEUED; CANCELING])) _ _ _ _ _ Hs1
                  eq_refl) as Hafter. cbv beta in Hafter. rewrite Hafter, Ho. simpl.
    rewrite (oo_prio _ (Forall_lookup_1 _ _ _ _ (pk_ops _ _ Hp) Hl)). simpl.
    unfold conclude. rewrite Hcx, Hg. simpl. rewrite Ho. simpl.
    unfold finish_op in Hfin |- *. simpl in Hfin |- *. rewrite Hfin. simpl.
    by rewrite (jo_writable _ Hj'). }
  exists q', j'. split; [|split; [done|split; [by rewrite <-Hid|done]]].
  specialize (Hall (c_exec inp)). by destruct inp.
Qed.

Lemma Cancel_queued now j :
  job_ok j → CalcStatus j = QUEUED →
  ∃ j', Cancel now j = Ok (j', true) ∧ job_ok j' ∧ CalcStatus j' = CANCELED.
Proof.
  intros Hj Hq. destruct (job_ok_shape j Hj) as (n & x & y & k & Hs & Hi & He & Hxy);
    [by rewrite Hq|].
  assert (x = QUEUED ∧ y = QUEUED) as [-> ->].
  { rewrite (shape_CalcStatus _ _ _ _ _ Hs) in Hq by (destruct x; set_solver).
    subst. destruct Hxy as [[_ ->]|[? _]]; done. }
  unfold Cancel. rewrite Hq.
  destruct (MarkUnfinishedOps_shape CANCELED CANCEL_MSG _ _ _ _ _ Hs eq_refl) as [-> Hs'].
  simpl in Hs' |- *. eexists. split; [done|].
  assert (CalcStatus (set_ops (marked CANCELED CANCEL_MSG (j_ops j)) j) = CANCELED) as Hc
    by (apply (shape_CalcStatus _ _ _ _ _ Hs'); set_solver).
  split; [|exact Hc]. destruct Hj. split; try done.
  - simpl. apply marked_ok; [set_solver|done].
  - right. exists n, CANCELED, CANCELED, k. split; [done|]. split; [right; set_solver|done].
  - change (finalized (CalcStatus (set_ops (marked CANCELED CANCEL_MSG (j_ops j)) j))
            = is_some (Some now)). by rewrite Hc.
Qed.

Lemma Cancel_waiting now j :
  job_ok j → CalcStatus j = WAITING →
  ∃ j', Cancel now j = Ok (j', true) ∧ job_ok j' ∧ CalcStatus j' = CANCELING.
Proof.
  intros Hj Hw. destruct (job_ok_shape j Hj) as (n & x & y & k & Hs & Hi & He & Hxy);
    [by rewrite Hw|].
  assert (x = WAITING ∧ y = QUEUED) as [-> ->].
  { rewrite (shape_CalcStatus _ _ _ _ _ Hs) in Hw by (destruct x; set_solver).
    subst. destruct Hxy as [[_ ->]|[? _]]; done. }
  assert (exec_inv n k false j) as Hei by (destruct Hj; split; try done; by left).
  destruct (cancel_waiting n k now j Hei Hs) as (j' & E & Hei' & Hsj & Hs').
  assert (CalcStatus j' = CANCELING) as Hc by (apply (shape_CalcStatus _ _ _ _ _ Hs'); set_solver).
  exists j'. split; [done|]. split; [|done]. destruct Hj, Hei', Hsj. split; try congruence.
  - right. exists n, CANCELING, CANCELING, k. split; [done|]. split; [right; set_solver|].
    intros _. unfold iter_ok in *. by rewrite sj_cur, sj_iter.
  - by rewrite Hc, ei_end.
Qed.

(** C15: cancelling.  A queued job is cancelled at once.  A job waiting for locks
    is marked, and the next call of the processor cancels it without executing
    anything, whatever the opcode would have done.  In any other state the
    request is refused and the job unchanged. *)
Theorem Cancel_correct now j :
  job_ok j →
  match CalcStatus j with
  | QUEUED =>
      ∃ j', Cancel now j = Ok (j', true) ∧ job_ok j' ∧ CalcStatus j' = CANCELED
  | WAITING =>
      ∃ j', Cancel now j = Ok (j', true) ∧ job_ok j' ∧ CalcStatus j' = CANCELING ∧
        ∀ t1 t2 t3 t4 r1 r2 q, ∃ q' j'',
          (∀ e, process timeouts (CallIn t1 t2 t3 t4 r1 r2 e) q j'
                = Ok (q', j'', FINISHED)) ∧
          CalcStatus j'' = CANCELED ∧ q_files q' !! j_id j' = Some (file_of j'')
  | _ => Cancel now j = Ok (j, false)
  end.
Proof.
  intros Hj. destruct (CalcStatus j) eqn:Hc; try (unfold Cancel; by rewrite Hc).
  - by apply Cancel_queued.
  - destruct (Cancel_waiting now j Hj Hc) as (j' & E & Hj' & Hc'). exists j'.
    do 3 (split; [done|]). intros t1 t2 t3 t4 r1 r2 q.
    destruct (process_canceling (CallIn t1 t2 t3 t4 r1 r2 (ExecIn [] LockAcquireTimeout)) q j' Hj' Hc')
      as (q' & j'' & _ & Hst & Hq & Hall). exists q', j''. by split_and!.
Qed.

(** ** Changing the priority *)

Lemma change_priorities_ok p n x k (ops : list qop) b :
  o_status <$> ops = replicate n SUCCESS ++ x :: replicate k QUEUED →
  x ∈ [QUEUED; WAITING] → (n = 0 ∨ b = false) →
  change_priorities p b ops
  = Ok ((λ o, if finalized (o_status o) then o else set_priority p o) <$> ops, true).
Proof.
  revert n x k b. induction ops as [|o ops IH]; intros n x k b Hs Hx Hb.
  { by destruct n. }
  destruct n as [|n]; simpl in Hs; injection Hs as Ho Hs; cbn [change_priorities].
  - assert (bool_decide (o_status o = RUNNING) || finalized (o_status o) = false ∧
      bool_decide (o_status o = QUEUED) || bool_decide (o_status o = WAITING) = true ∧
      finalized (o_status o) = false) as (-> & -> & Hf) by (rewrite Ho; destruct x; set_solver).
    cbn [py_assert rbind]. destruct k as [|k].
    + destruct ops; [|done]. simpl. by rewrite Hf.
    + rewrite (IH 0 QUEUED k true); [|done|set_solver|by left]. simpl. by rewrite Hf.
  - rewrite Ho. simpl. destruct Hb as [?| ->]; [done|]. simpl.
    rewrite (IH n x k false); [|done|done|by right]. simpl. by rewrite Ho.
Qed.

(** The new priorities, and the job that has them. *)
Definition reprioritize (p : Z) o : qop :=
  if finalized (o_status o) then o else set_priority p o.

Lemma reprioritize_status p o : o_status (reprioritize p o) = o_status o.
Proof. unfold reprioritize. by destruct (finalized (o_status o)). Qed.

Lemma reprioritize_sts p j : sts (set_ops (reprioritize p <$> j_ops j) j) = sts j.
Proof.
  unfold sts. simpl. rewrite <-list_fmap_compose. apply list_fmap_ext.
  intros i o _. apply reprioritize_status.
Qed.

Lemma reprioritize_ok p j :
  job_ok j → prio_in_range p = true → job_ok (set_ops (reprioritize p <$> j_ops j) j).
Proof.
  intros [Hops Hshape Hend ? ? ?] Hp. pose proof (reprioritize_sts p j) as Hsts.
  split; try done.
  - simpl. apply Forall_fmap. eapply Forall_impl; [exact Hops|]. intros o [Hpr Hen Hd].
    unfold reprioritize. simpl. destruct (finalized (o_status o)); by split.
  - destruct Hshape as [[Hd Hne]|(n & x & y & k & Hs & Hb & Hi)].
    + left. unfold all_done. rewrite Hsts. simpl. rewrite length_fmap. split; [done|].
      by destruct (j_ops j).
    + right. exists n, x, y, k. unfold shape. by rewrite Hsts.
  - by rewrite CalcStatus_sts, Hsts, <-CalcStatus_sts.
Qed.

Lemma reprioritize_CalcPriority p n x y k j :
  shape n x y k j → finalized x = false →
  CalcPriority (set_ops (reprioritize p <$> j_ops j) j) = p.
Proof.
  intros Hs Hx. unfold CalcPriority. simpl.
  set (l := filter (λ o, finalized (o_status o) = false) (reprioritize p <$> j_ops j)).
  assert (l ≠ []) as Hne.
  { destruct (shape_get _ _ _ _ _ Hs) as (o & Ho & Hst). intros El.
    assert (reprioritize p o ∈ l) as Hin; [|rewrite El in Hin; set_solver].
    apply list_elem_of_filter. rewrite reprioritize_status, Hst. split; [done|].
    apply list_elem_of_fmap_2. by eapply list_elem_of_lookup_2. }
  assert (Forall (λ z : Z, z = p) (o_priority <$> l)) as Hall.
  { apply Forall_fmap, Forall_forall. intros o [Ho Hin]%list_elem_of_filter. simpl.
    apply list_elem_of_fmap in Hin as (o' & -> & _). rewrite reprioritize_status in Ho.
    unfold reprioritize. by rewrite Ho. }
  destruct (o_priority <$> l) as [|z zs] eqn:El; [by destruct l|].
  apply Forall_cons in Hall as [-> Hall]. unfold min_list. clear -Hall.
  induction Hall as [|z zs -> Hall IH]; simpl; [done|]. by rewrite Z.min_id.
Qed.

(** Changing the priority of a job that is queued or waits for locks gives
    exactly the opcodes that have not finished the new priority, which is then
    the priority of the job; finished and cancelled jobs are left alone. *)
Theorem ChangePriority_correct p j :
  job_ok j → prio_in_range p = true →
  match CalcStatus j with
  | QUEUED | WAITING =>
      ∃ j', ChangePriority p j = Ok (j', true) ∧ job_ok j' ∧
        j_ops j' = reprioritize p <$> j_ops j ∧ CalcPriority j' = p
  | _ => ChangePriority p j = Ok (j, false)
  end.
Proof.
  intros Hj Hp. unfold ChangePriority.
  destruct (finalized (CalcStatus j)) eqn:Hf; [by destruct (CalcStatus j)|].
  destruct (job_ok_shape j Hj Hf) as (n & x & y & k & Hs & Hi & He & Hxy).
  destruct Hxy as [[Hx ->]|[-> ->]]; cycle 1.
  { rewrite (shape_CalcStatus _ _ _ _ _ Hs) by set_solver. done. }
  assert (CalcStatus j = x) as Hc by (apply (shape_CalcStatus _ _ _ _ _ Hs); set_solver).
  rewrite Hc in *. rewrite (change_priorities_ok p n x k) by (done || by right).
  pose proof (reprioritize_ok p j Hj Hp).
  pose proof (reprioritize_CalcPriority p n x QUEUED k j Hs Hf).
  assert (x = QUEUED ∨ x = WAITING) as [->| ->] by set_solver; simpl; eexists;
    (split; [done|]); by split_and!.
Qed.
End job_props.

(** ** An example run *)

Module JobDemo.
Import Demo.

Definition demo_timeouts : strategy := [5%Q; 7%Q].

(** Job 3, on which the first opcode of [demo_job] depends, has succeeded. *)
Definition demo_queue : queue Z :=
  Queue {[ 3%Z := FState (norm_state (Serialize (Job (T := wrapper) 3
             [QOp 0%Z SUCCESS VNone [] 0 None None None] 0 None None None None
             (Some (9%Z, 0%Z)) true false None None))) ]} ∅ ∅ ∅.

Definition demo_call (e : exec_in) : call_in :=
  CallIn (20%Z, 0%Z) (21%Z, 0%Z) (22%Z, 0%Z) (23%Z, 0%Z) 0 0 e.

(** The opcode runs and succeeds; the locks are not available. *)
Definition demo_success : call_in :=
  demo_call (ExecIn [ANotifyStart (24%Z, 0%Z); AFeedback (25%Z, 0%Z) [VStr "working"]]
                    (ExecResult (VInt 1))).
Definition demo_timeout : call_in := demo_call (ExecIn [ACurrentPriority] LockAcquireTimeout).

Definition demo_step (inp : call_in) (s : queue Z * job Z wrapper) : queue Z * job Z wrapper :=
  match process demo_timeouts inp s.1 s.2 with Ok (q, j, _) => (q, j) | Raise _ => s end.

Definition demo_1 := Eval vm_compute in demo_step demo_timeout (demo_queue, demo_job).
Definition demo_2 := Eval vm_compute in demo_step demo_success demo_1.
Definition demo_3 := Eval vm_compute in demo_step demo_success demo_2.
Definition demo_4 := Eval vm_compute in demo_step demo_success demo_3.

Lemma demo_job_ok : job_ok demo_job.
Proof.
  split; [|right; exists 0, QUEUED, QUEUED, 2|done..].
  - repeat constructor; vm_compute; congruence.
  - split; [done|]. split; [left; set_solver|]. intros _. vm_compute. lia.
Qed.

Lemma demo_1_ok : job_ok demo_1.2.
Proof.
  split; [|right; exists 0, WAITING, QUEUED, 2|done..].
  - repeat constructor; vm_compute; congruence.
  - split; [done|]. split; [left; set_solver|]. intros _. vm_compute. repeat constructor.
Qed.

Lemma demo_4_ok : job_ok demo_4.2.
Proof.
  split; [|left; done|done..].
  repeat constructor; vm_compute; try congruence; intros Hin; exfalso; set_solver.
Qed.


(** When no time-outs are left the locks are waited for; an execution that gives up
    nevertheless, as one does that is temporarily out of resources, ends in the
    assertion. *)
Lemma blocking_timeout_raises :
  process [] demo_timeout demo_queue demo_job = Raise AssertionFailed.
Proof. vm_compute. reflexivity. Qed.

Lemma deferrals_bounded_witness :
  3 ≤ Z.to_nat (budget demo_timeouts demo_job).
Proof.
  apply (deferrals_bounded demo_timeouts 3 demo_queue demo_job demo_3.1 demo_3.2 demo_job_ok).
  apply (deferrals_S _ _ demo_timeout _ _ demo_1.1 demo_1.2); [done|vm_compute; reflexivity|].
  apply (deferrals_S _ _ demo_success _ _ demo_2.1 demo_2.2); [done|vm_compute; reflexivity|].
  apply (deferrals_S _ _ demo_success _ _ demo_3.1 demo_3.2); [done|vm_compute; reflexivity|].
  apply deferrals_0.
Defined.

Lemma finished_statuses_witness :
  CalcStatus demo_4.2 = SUCCESS ∧ ∀ o, o ∈ j_ops demo_4.2 → o_status o = SUCCESS.
Proof.
  destruct (finished_statuses demo_4.2 demo_4_ok) as [Hs|[Hs _]]; [done|exact Hs|].
  exfalso. vm_compute in Hs. set_solver.
Defined.

Lemma Cancel_correct_witness :
  ∃ j', Cancel (30%Z, 0%Z) demo_1.2 = Ok (j', true) ∧ job_ok j' ∧ CalcStatus j' = CANCELING.
Proof.
  pose proof (Cancel_correct demo_timeouts (30%Z, 0%Z) demo_1.2 demo_1_ok) as Hc.
  change (CalcStatus demo_1.2) with WAITING in Hc. cbv iota in Hc.
  destruct Hc as (j' & E & Hj & Hst & _). by exists j'.
Defined.

Lemma ChangePriority_correct_witness :
  ∃ j', ChangePriority (-10) demo_1.2 = Ok (j', true) ∧ CalcPriority j' = (-10)%Z.
Proof.
  pose proof (ChangePriority_correct (-10) demo_1.2 demo_1_ok eq_refl) as Hc.
  change (CalcStatus demo_1.2) with WAITING in Hc. cbv iota in Hc.
  destruct Hc as (j' & E & _ & _ & Hp). by exists j'.
Defined.
End JobDemo.
